(* ===== verification/_CoqProject ===== *)
-Q . S2P
Prelude.v
Storage.v
Idempotency.v
BrokerTypes.v
BrokerState.v
Dispatch.v
Produce.v
Redelivery.v
Consume.v
BrokerInv.v
DispatchInv.v
ProduceInv.v
WalReplay.v
RedeliveryInv.v
ConsumeInv.v
BrokerSteps.v
ProduceSpec.v
Inspect.v
IdemSpec.v
StepInv.v
AckSpec.v
RedeliverySpec.v
FileWalSpec.v
DurableSpec.v
ConsumerRunner.v
DispatchSpec.v
Graph.v
GraphSpec.v
EngineStore.v
FileStore.v
StoreSpec.v
Throttle.v
Authz.v
AuthzSpec.v
Risk.v
Tools.v
ToolsSpec.v
Runtime.v
Governance.v
Artifacts.v
CallContext.v
Gateway.v
AgentState.v
Human.v
Admission.v
DagRun.v
Routing.v
AgentMemory.v
SideEffects.v
Lifecycle.v
Evals.v
SelfHealing.v
RunWorkflow.v
WorkflowReleases.v
Forensics.v
ReplayBranches.v
MultiAgent.v
MultiAgentRouter.v
DagInv.v
DagStore.v
DagSpec.v
DagDurable.v
AdmissionSpec.v
KVSpec.v
ArtifactSpec.v
ReleaseSpec.v
MultiAgentSpec.v
AgentStateSpec.v
AgentMemorySpec.v
ToolCallSpec.v
ToolScenario.v
ReleaseScenario.v
DagLive.v
DagComplete.v
LifecycleSpec.v
ReplayBranchSpec.v
RecoverySpec.v
RunWorkflowSpec.v
BranchScenario.v
DagScenario.v
