(* ===== verification/Prelude.v ===== *)
(** * DriftQ-Core: a verification library

    DriftQ-Core (Go, under src/) is a message broker with a durable log, a workflow engine that
    runs graphs of steps on top of a run store, and a layer in which agents exchange messages
    through the broker.  This library translates them into executable definitions and proves
    what makes them correct.  Every operation of a component is one definition with the name it
    has in the code; a Go struct is a record, a method that mutates its receiver a function from
    state to state, an error a value of type [error].

    ** The program

    - The write-ahead log (internal/storage/wal.go) keeps one JSON line per record.
    - The idempotency store (internal/broker/idempotency.go) says which (scope, tenant, topic,
      group, key) has been produced or consumed, and who holds the lease on it.
    - The broker (internal/broker) keeps topics, their partitions' messages, and for each
      consumer group the next index, the committed offset and the messages in flight.  It
      writes every message and offset to the log, dispatches to consumer streams, redelivers
      expired leases with a backoff, dead-letters what has exhausted its retries, and rebuilds
      itself from the log.  All its critical sections run under one mutex.
    - The run store (internal/engine/memstore.go, store_file.go) keeps runs, node executions,
      events, timers and key-value pairs, in memory or in a file.
    - The engine (internal/engine) parses and compiles a graph, decides whether a run may start
      (authorization, tenant quota, risk gate with human approval), and runs the graph: a loop
      that schedules ready nodes, waits for results, retries, waits for people and timers, and
      keeps its progress in the run store so that a later run of the loop continues from it.
      A workflow without edges can also be run in order (RunWorkflow).
    - Nodes reach the world through the tool gateway: policies, servers, schemas, routes, and
      side effects that are staged, approved, committed, compensated.
    - Over runs: the states and memories of agents, evaluations, releases, replay branches,
      captures of failed runs, reports; all of them values in the key-value part of the run store.
    - The multi-agent layer (internal/multiagent) routes messages between agents over topics.

    ** The broker's files

    - Storage: [Entry], the log as a class [WAL] with its laws [WALLaws], [FileWAL] (wal.go).
    - Idempotency: [InMemoryIdempotencyStore] (idempotency.go).
    - BrokerTypes: messages, topic configuration, retry policy, hashing, [computeBackoff], the
      log record of a message (types.go, helper.go, errors.go, router.go).
    - BrokerState: [InMemoryBroker], field by field (broker.go, state_maps.go, retry_state.go).
      A consumer's channel is an index into a store of channels, since broker and consumer
      share it; a send on a closed channel sets [panicked].
    - Produce, Dispatch, Redelivery, Consume, WalReplay: the operations (broker.go, dlq.go,
      dispatch.go, redelivery.go, wal_replay.go).  Inspect: the snapshots and the lag tracker with
      their properties (metrics.go, metrics_snapshot.go, lag_tracker.go).  ConsumerRunner: the
      consumer loop with its properties (consumer_runner.go).
    - BrokerSteps: the broker as a transition system, one step per critical section.
    - BrokerInv, DispatchInv, ProduceInv, RedeliveryInv, ConsumeInv: the invariant [wf] and that
      every operation keeps it; WalReplay has its own part.  StepInv: invariants of the log, and
      [Audited], a log that also records the calls it was given and how it answered them.
    - DispatchSpec, ProduceSpec, IdemSpec, DurableSpec, AckSpec, RedeliverySpec, FileWalSpec: the
      properties, each with its concrete brokers.

    ** The engine's files: runs

    - Graph: [WorkflowGraph], its validation, cycle search and order, specifications and their
      compilation (dag.go, spec.go, spec_parse.go, registry.go).
    - EngineStore, FileStore: the [Store] interface as a class, [MemoryStore], [FileStore]
      (types.go, memstore.go, store_file.go).
    - Throttle: budgets, caps, slots, delays (budget.go, throttle.go, throttle_config.go,
      config.go, delay.go).
    - Authz, Risk: the pure parts of authz.go and risk.go.  Runtime: the shared state [Runner]
      and its services (runner.go, runner_graphs.go, trace.go).  Governance, Human, Admission:
      what is stored and enforced (governance.go, human.go, risk.go).
    - DagRun: [runDAGWithCache] (runner_dag.go, replay_cache.go) as a step relation.  The body
      is cut at the points where other goroutines can act; a configuration is the program point
      [PC], the local variables [Loop] and the shared [Runner]; [step] computes the next one
      from an [Event], which carries what the scheduler, the clock and the handlers choose.
    - RunWorkflow: the sequential runner (runner.go).  Its handlers are an argument that maps the
      runner to a new one, since through their context they reach the engine.
    - Lifecycle: [CancelRun], timers, replay, index versions (cancel.go, timers_loop.go,
      timer_resume.go, replay.go, replay_helpers.go, index_meta.go).
    - DagInv, DagStore: what a step of the loop does to its bookkeeping and to the store; KVSpec:
      what a write of the key-value part does.  GraphSpec, StoreSpec, AuthzSpec, AdmissionSpec,
      DagSpec, DagDurable, DagLive, DagComplete, LifecycleSpec, RunWorkflowSpec: the properties.

    ** The engine's files: tools and what is kept of runs

    - Tools: schemas, redaction, policies, route scores, the pure parts of tool_gateway.go,
      side_effects.go and brain.go.  CallContext: the values of a context (attempt_ctx.go,
      usage.go).  Gateway, Routing, SideEffects: [invokeTool] as a part before and a part after
      the handler, the choice of a route, receipts and their commits, cut in the same way.
    - Artifacts: SHA-256, the in-memory store, the file store as a script of system calls over a
      disk, any of which can fail (artifact_store.go, artifact_store_memory.go, runner_artifacts.go).
    - AgentState, AgentMemory: versioned states, entries found by the similarity of hashed
      embeddings (agent_state.go, agent_memory.go).
    - Evals, WorkflowReleases, ReplayBranches, SelfHealing, Forensics: evals.go, runner_spec.go,
      workflow_releases.go, replay_branches.go, self_healing.go, forensics.go.  Where they run a
      graph, the runner is the argument [run].
    - MultiAgent, MultiAgentRouter: messages, topics, patterns; registry, router, configuration
      (internal/multiagent).
    - ToolsSpec, ToolCallSpec, ArtifactSpec, AgentStateSpec, AgentMemorySpec, ReleaseSpec,
      ReplayBranchSpec, RecoverySpec, MultiAgentSpec: the properties.
    - DagScenario, ToolScenario, ReleaseScenario, BranchScenario: concrete runs on which the witnesses
      are evaluated, and runs on which the code surprises.

    ** What the theorems show

    - Broker safety: in every reachable state offsets are dense, no message is skipped, windows
      and buffers are bounded, no send hits a closed channel ([reachable_wf]); each operation's
      effect on every branch ([produceLocked_effect], [redeliverEntry_effect],
      [AckIfOwner_effect], [Nack_effect], [backpressure_exact]).
    - Exactly-once bookkeeping: a lease excludes other owners until it expires and lets its own
      commit ([lease_exclusive]); commits are permanent and survive a restart
      ([commits_permanent], [committed_survives_restart]).
    - Durability: the file log implements the log interface ([FileWAL_refines]); recovery
      rebuilds every accepted message, in order, also when appends have failed, and exactly those
      when no refused append left its record ([messages_survive_restart]); the file store refines
      the memory store and survives a restart ([FileStore_refines], [store_survives_restart]).
    - Graphs: [Validate_exact], [compiled_executable], [TopologicalOrder_correct].
    - Runs: a node starts after its parents succeeded and never again after it succeeded
      ([node_follows_parents]); handlers in flight respect the limit ([flights_bounded]); the
      store always holds exactly the loop's progress ([progress_durable]); a run that reports
      success has run every node ([success_complete]); the number of schedules is bounded
      ([schedule_bounded]) and the loop returns for every behaviour of the handlers
      ([run_returns]).  A sequential run is a chain of outputs and comes to a stored end
      ([RunWorkflow_chain], [RunWorkflow_settles]).
    - Admission and access: [beginRun_gated], [evaluateAuthorization_exact],
      [ensureRunTenantAccess_exact].
    - Lifecycle: [CancelRun_effect], [replay_forgets_suffix], [FireDueTimers_settles].
    - Tools: [beginTool_gated], [validateJSONSchema_exact], [commit_gated], [committed_once].
    - Artifacts: [artifact_integrity], [Put_atomic], [artifact_access].
    - Agents: an abstract history and an abstract memory per agent ([WriteAgentState_appends],
      [WriteAgentMemory_remembers], [SearchAgentMemory_best]); messages ([agent_message_lands],
      [round_robin]).
    - Releases: [channel_operations_consistent], [ResolveWorkflowRelease_exact].
    - Branches, captures, reports: [branch_cache_exact], [branch_in_timeline],
      [capture_describes], [recovery_is_dry], [BuildExecutionGraph_exact], [DiffRuns_exact].

    ** Hypotheses

    A log satisfies [WALLaws]; both the in-memory log of the examples and [FileWAL] do.
    [representable] entries are those the JSON codec decodes to themselves ([CodecLaws] for the
    run store).  [messages_survive_restart] is about the calls a log has answered ([answered]: the
    records it took can be read back; [clean]: a refused append left nothing), so it holds of
    [FileWAL], whose failed syncs are not clean; what recovery does then DurableSpec shows.
    [committed_survives_restart] assumes that every record can be represented.  [seq_room]: fewer than 2^63 - 1 events per
    run.  [StoreLaws], [KVLaws], [TimerLaws]: the run store's contract, which the memory store
    satisfies; [Reliable]: it accepts every well-formed record.  What other goroutines do to the shared
    runner between two steps of a run is a relation, with the condition each property needs (for
    [success_complete], [peaceful]: nobody cancels the run or writes its executions).
    [run_returns] is for [uncapped] runs: a node that is refused a slot waits for other runs.

    encoding/json is a class of codecs per group of types ([EngineJSON], [ToolJSON],
    [EffectJSON], [AgentJSON], [MemoryJSON], [EvalJSON], [ReleaseJSON], [BranchJSON],
    [HealingJSON], [AgentMessageJSON], [JSONSyntax]); their laws ([IndexLaws], [EffectLaws],
    [AgentLaws], [MemoryLaws], [EvalLaws], [ReleaseLaws], [MetaCodec], [BranchLaws],
    [HealingLaws]) say that values whose strings are valid UTF-8 are read back as they were written,
    and no more: in [ReleaseLaws] what is read is valid UTF-8, and the properties of releases ask
    it of the identifiers that are given.  [ValueCodec] decodes the values that runs are compared by.
    [Platform] and the disk scripts of Artifacts are what the operating system may answer.
    The scenarios instantiate all of them.

    ** Machine integers, order, fuel

    int64 arithmetic is written with [wrap64] where it can overflow; float64 is the Standard Library's
    binary64 with every operation rounded on its own (no fused multiply-add).  Go ranges over maps
    in any order: the order is the class [MapOrder], of which only that it permutes the map is
    known.  Loops that are not structural have fuel that is enough: the length of the log for
    [dispatchLoop], the entries at the start for redelivery, the number of elements for the
    binary search, the length of the string for trimming, nodes plus edges for the cycle search
    and the topological order, one more than the edges for the downstream search;
    [dispatchLoop_complete], [TopologicalOrder_correct], [Validate_exact],
    [downstreamNodes_reachable] show it.  For [run_returns] the number of steps is an
    expression in the size of the graph and its attempt limits.

    ** Not modelled

    - Goroutines and tickers are steps of the transition systems; one instant stands for
      the clock readings inside one critical section; telemetry, logging and timing metrics are
      left out, the calls on the broker's metrics sink are recorded.
    - encoding/json, the operating system, random identifiers and time formats are parameters.
      Quoting (%q) is written for printable ASCII.  Pointer aliasing of an envelope between a
      caller's routing hook and the broker is not modelled.
    - What a handler computes is in the event that ends a node of a graph; the capture of a failed
      run at its end writes keys of its own and is SelfHealing, not a part of that step.
    - A crash between two system calls of the artifact store is a script that ends there; the
      order in which a disk makes writes durable is not modelled.
    - The HTTP handlers (http_*.go of the engine, cmd/driftqd), the command line client
      (cmd/driftqctl), the daemon's wiring, observability and the embedded pages decode requests,
      print results and call libraries; they keep no state of their own over what is modelled. *)
From stdpp Require Export base gmap sets list strings sorting pretty fin_maps.
From Stdlib Require Export ZArith Lia.
From Stdlib Require Import Ascii.
From Stdlib Require Import Init.Byte.
From Stdlib Require Strings.Byte.

#[global] Set Default Proof Using "Type".
#[export] Set Warnings "-notation-overridden,-clear-no-such-hyp".

(** ** Go's machine integers *)
Declare Scope go_scope.
Delimit Scope go_scope with go.

Definition wrap64 (z : Z) : Z := (z + 2 ^ 63) `mod` 2 ^ 64 - 2 ^ 63.
Definition maxInt64 : Z := 2 ^ 63 - 1.
Definition minInt64 : Z := - 2 ^ 63.
Definition int64_ok (z : Z) : Prop := (minInt64 <= z <= maxInt64)%Z.

Notation "a +₆₄ b" := (wrap64 (a + b)) (at level 50, left associativity) : go_scope.
Notation "a -₆₄ b" := (wrap64 (a - b)) (at level 50, left associativity) : go_scope.
Notation "a *₆₄ b" := (wrap64 (a * b)) (at level 40, left associativity) : go_scope.
Open Scope go_scope.
Open Scope Z_scope.

(** ** Slices *)
Definition zlen {A} (l : list A) : Z := Z.of_nat (length l).
Definition zlookup {A} (l : list A) (i : Z) : option A :=
  if decide (0 <= i) then l !! Z.to_nat i else None.
Definition zinsert {A} (l : list A) (i : Z) (x : A) : list A := <[Z.to_nat i := x]> l.

(** ** Time: an instant is a number of nanoseconds since Go's zero [time.Time],
    a [time.Duration] an int64 number of nanoseconds *)
Abbreviation Time := Z (only parsing).
Abbreviation Duration := Z (only parsing).
Definition zeroTime : Z := 0.
Definition Nanosecond : Z := 1.
Definition Millisecond : Z := 1000000.
Definition Second : Z := 1000000000.
Definition Minute : Z := 60 * Second.
(** [Time.IsZero], [Before], [After], [Add]; [Sub] saturates. *)
Definition IsZero (t : Time) : bool := t =? 0.
Definition Before (t u : Time) : bool := t <? u.
Definition After (t u : Time) : bool := u <? t.
Definition Add (t : Time) (d : Duration) : Time := t + d.
Definition Sub (t u : Time) : Duration := Z.max minInt64 (Z.min maxInt64 (t - u)).
(** The zero time is 62135596800 seconds before the Unix epoch. *)
Definition unixEpoch : Time := 62135596800 * Second.
Definition UnixMilli (t : Time) : Z := (t - unixEpoch) `div` Millisecond.
Definition Milliseconds (d : Duration) : Z := Z.quot d Millisecond.

(** ** Strings *)
Definition chars (s : string) : list ascii := String.list_ascii_of_string s.
Definition unchars (l : list ascii) : string := String.string_of_list_ascii l.

Fixpoint strip_prefix (p l : list ascii) : option (list ascii) :=
  match p, l with
  | [], _ => Some l
  | a :: p, b :: l => if Ascii.eqb a b then strip_prefix p l else None
  | _ :: _, [] => None
  end.

Fixpoint first_strip (ps : list (list ascii)) (l : list ascii) : option (list ascii) :=
  match ps with
  | [] => None
  | p :: ps => match strip_prefix p l with Some l' => Some l' | None => first_strip ps l end
  end.

(** UTF-8 encodings of the code points [unicode.IsSpace] accepts. *)
Definition spaceEncodings : list (list ascii) :=
  map (map ascii_of_nat)
  [ [9]; [10]; [11]; [12]; [13]; [32]; [0xC2; 0x85]; [0xC2; 0xA0];
    [0xE1; 0x9A; 0x80];
    [0xE2; 0x80; 0x80]; [0xE2; 0x80; 0x81]; [0xE2; 0x80; 0x82]; [0xE2; 0x80; 0x83];
    [0xE2; 0x80; 0x84]; [0xE2; 0x80; 0x85]; [0xE2; 0x80; 0x86]; [0xE2; 0x80; 0x87];
    [0xE2; 0x80; 0x88]; [0xE2; 0x80; 0x89]; [0xE2; 0x80; 0x8A];
    [0xE2; 0x80; 0xA8]; [0xE2; 0x80; 0xA9]; [0xE2; 0x80; 0xAF];
    [0xE2; 0x81; 0x9F]; [0xE3; 0x80; 0x80] ]%nat.

(** Every encoding is non-empty, so [n = length l] rounds strip all of them. *)
Fixpoint strip_all (n : nat) (ps : list (list ascii)) (l : list ascii) : list ascii :=
  match n with
  | O => l
  | S n => match first_strip ps l with Some l' => strip_all n ps l' | None => l end
  end.

Definition trim_left (ps : list (list ascii)) (l : list ascii) : list ascii :=
  strip_all (length l) ps l.

(** [strings.TrimSpace]. *)
Definition TrimSpace (s : string) : string :=
  let l := trim_left spaceEncodings (chars s) in
  unchars (reverse (trim_left (map reverse spaceEncodings) (reverse l))).

(** [strings.ToLower]: ASCII letters, and the two non-ASCII code points whose
    lower case is ASCII (U+0130 and U+212A); other code points are left as they are. *)
Fixpoint to_lower (l : list ascii) : list ascii :=
  match l with
  | [] => []
  | a :: l' =>
    let n := nat_of_ascii a in
    match n, l' with
    | 196%nat, b :: l'' =>
      if Ascii.eqb b (ascii_of_nat 176) then "i"%char :: to_lower l'' else a :: to_lower l'
    | 226%nat, b :: c :: l'' =>
      if Ascii.eqb b (ascii_of_nat 132) && Ascii.eqb c (ascii_of_nat 170)
      then "k"%char :: to_lower l'' else a :: to_lower l'
    | _, _ =>
      (if (65 <=? n)%nat && (n <=? 90)%nat then ascii_of_nat (n + 32) else a) :: to_lower l'
    end
  end.
Definition ToLower (s : string) : string := unchars (to_lower (chars s)).

Definition HasPrefix (s p : string) : bool := String.prefix p s.
Definition Contains (s sub : string) : bool :=
  match String.index 0 sub s with Some _ => true | None => false end.

(** [strings.HasSuffix], [strings.TrimPrefix], [strings.TrimSuffix]. *)
Definition HasSuffix (s suffix : string) : bool := bool_decide (chars suffix `suffix_of` chars s).
Definition TrimPrefix (s prefix : string) : string :=
  if HasPrefix s prefix then unchars (drop (length (chars prefix)) (chars s)) else s.
Definition TrimSuffix (s suffix : string) : string :=
  if HasSuffix s suffix then unchars (take (length (chars s) - length (chars suffix)) (chars s)) else s.

(** [strconv.Quote], the verb %q, on ASCII; bytes above 127 are kept, as for text that is
    printable UTF-8. *)
Definition hexDigit (n : nat) : ascii := ascii_of_nat (if (n <? 10)%nat then 48 + n else 87 + n).
Definition quoteChar (a : ascii) : list ascii :=
  let n := nat_of_ascii a in
  let esc c := [ascii_of_nat 92; c] in
  match n with
  | 34 | 92 => esc a
  | 7 => esc "a"%char | 8 => esc "b"%char | 9 => esc "t"%char | 10 => esc "n"%char
  | 11 => esc "v"%char | 12 => esc "f"%char | 13 => esc "r"%char
  | _ => if (n <? 32)%nat || (n =? 127)%nat
         then esc "x"%char ++ [hexDigit (n / 16)%nat; hexDigit (n mod 16)%nat] else [a]
  end%nat.
Definition Quote (s : string) : string :=
  let q := ascii_of_nat 34 in unchars (q :: mjoin (quoteChar <$> chars s) ++ [q]).

(** String comparison is on bytes. *)
Definition string_lt (s t : string) : bool := String.ltb s t.
Definition string_le (s t : string) : Prop := String.leb s t = true.
#[export] Instance string_le_dec : RelDecision string_le.
Proof. intros s t. unfold Decision, string_le. decide equality. Defined.
(** [sort.Strings]. *)
Definition sortStrings (l : list string) : list string := merge_sort string_le l.

(** ** Go errors: [errors.New], package-level sentinels (compared by identity,
    here by name), [fmt.Errorf] with [%w], and the broker's overload error *)
Inductive error : Type :=
| ENew (msg : string)
| ESentinel (name msg : string)
| EWrap (msg : string) (inner : error)
| ProducerOverloadError (Reason : string) (RetryAfter : Duration) (Cause : error).

Definition Error (e : error) : string :=
  match e with
  | ENew m => m
  | ESentinel _ m => m
  | EWrap m _ => m
  | ProducerOverloadError r _ _ =>
    if decide (r = "") then "producer overload" else "producer overload: " +:+ r
  end.

#[export] Instance error_eq_dec : EqDecision error.
Proof. solve_decision. Defined.

(** [errors.Is]; the engine's errors have no [Is] method. *)
Fixpoint unwrapsTo (e target : error) : bool :=
  bool_decide (e = target) ||
  match e with
  | ENew _ | ESentinel _ _ => false
  | EWrap _ inner | ProducerOverloadError _ _ inner => unwrapsTo inner target
  end.

#[export] Instance byte_eq_dec : EqDecision byte := Strings.Byte.byte_eq_dec.

(** [if err != nil { return err }] after a call on a state [r]. *)
Notation "'let!' ( r , x ) := m 'in' k" :=
  (match m with (r, inr err) => (r, inr err) | (r, inl x) => k end)
  (at level 10, r name, x strict pattern, k at level 200, only parsing).

(** ** Nested maps *)
Section nested.
Context `{Countable K1, Countable K2, Countable K3} {V : Type}.

Definition lookup2 (m : gmap K1 (gmap K2 V)) (a : K1) (b : K2) : option V :=
  m !! a ≫= fun n => n !! b.
Definition insert2 (a : K1) (b : K2) (v : V) (m : gmap K1 (gmap K2 V)) : gmap K1 (gmap K2 V) :=
  <[a := <[b := v]> (default ∅ (m !! a))]> m.
End nested.

Section nested3.
Context `{Countable K1, Countable K2, Countable K3} {V : Type}.

Definition lookup3 (m : gmap K1 (gmap K2 (gmap K3 V))) (a : K1) (b : K2) (c : K3) : option V :=
  m !! a ≫= fun n => lookup2 n b c.
Definition insert3 (a : K1) (b : K2) (c : K3) (v : V)
    (m : gmap K1 (gmap K2 (gmap K3 V))) : gmap K1 (gmap K2 (gmap K3 V)) :=
  <[a := insert2 b c v (default ∅ (m !! a))]> m.
End nested3.

(** [if _, ok := m[k]; !ok { m[k] = make(...) }]. *)
Definition ensure1 `{Countable K1, Countable K2} {V} (a : K1)
    (m : gmap K1 (gmap K2 V)) : gmap K1 (gmap K2 V) :=
  match m !! a with Some _ => m | None => <[a := ∅]> m end.
Definition ensure2 `{Countable K1, Countable K2, Countable K3} {V} (a : K1) (b : K2)
    (m : gmap K1 (gmap K2 (gmap K3 V))) : gmap K1 (gmap K2 (gmap K3 V)) :=
  <[a := ensure1 b (default ∅ (m !! a))]> m.
Definition ensure3 `{Countable K1, Countable K2, Countable K3, Countable K4} {V}
    (a : K1) (b : K2) (c : K3)
    (m : gmap K1 (gmap K2 (gmap K3 (gmap K4 V)))) : gmap K1 (gmap K2 (gmap K3 (gmap K4 V))) :=
  <[a := ensure2 b c (default ∅ (m !! a))]> m.

(** ** Iteration order: [range] over a Go map visits the keys in an unspecified
    order; operations that range over a map are stated for every such order. *)
Class MapOrder := {
  order : forall `{Countable K}, gset K -> list K;
  order_perm : forall `{Countable K} (s : gset K), order s ≡ₚ elements s
}.

#[export] Instance elements_order : MapOrder := {|
  order := fun _ _ _ s => elements s;
  order_perm := fun _ _ _ s => reflexivity (elements s)
|}.

(** [get3 m a b c] is the leaf map, empty when absent: what [ensure3] followed by a
    read of the leaf gives. *)
Definition get3 `{Countable K1, Countable K2, Countable K3, Countable K4} {V}
    (m : gmap K1 (gmap K2 (gmap K3 (gmap K4 V)))) (a : K1) (b : K2) (c : K3) : gmap K4 V :=
  default ∅ (lookup3 m a b c).
Definition get2 `{Countable K1, Countable K2, Countable K3} {V}
    (m : gmap K1 (gmap K2 (gmap K3 V))) (a : K1) (b : K2) : gmap K3 V :=
  default ∅ (lookup2 m a b).

#[global] Arguments TrimSpace : simpl never.
#[global] Arguments ToLower : simpl never.
#[global] Arguments Quote : simpl never.
#[global] Arguments wrap64 : simpl never.
#[global] Arguments Sub : simpl never.
#[global] Arguments UnixMilli : simpl never.
#[global] Arguments Milliseconds : simpl never.
#[global] Arguments lookup2 : simpl never.
#[global] Arguments lookup3 : simpl never.
#[global] Arguments insert2 : simpl never.
#[global] Arguments insert3 : simpl never.
#[global] Arguments ensure1 : simpl never.
#[global] Arguments ensure2 : simpl never.
#[global] Arguments ensure3 : simpl never.
#[global] Arguments get2 : simpl never.
#[global] Arguments get3 : simpl never.

(** ** Lemmas *)
Create HintDb go discriminated.

Lemma HasPrefix_spec s p : HasPrefix s p = true <-> exists k, s = p +:+ k.
Proof.
  unfold HasPrefix. revert s. induction p as [|a p IH]; intros s.
  - split; [by exists s|]. by destruct s.
  - destruct s as [|b s]; [split; [done|by intros [k Hk]]|]. cbn [String.prefix]. destruct (ascii_dec a b) as [<-|Hne].
    + rewrite IH. split; intros [k Hk]; exists k; [by rewrite Hk|by injection Hk].
    + split; [done|]. intros [k [= <- _]]. done.
Qed.

Lemma wrap64_id z : int64_ok z -> wrap64 z = z.
Proof. unfold int64_ok, minInt64, maxInt64, wrap64. intros. rewrite Z.mod_small; lia. Qed.

Lemma wrap64_range z : int64_ok (wrap64 z).
Proof.
  unfold int64_ok, minInt64, maxInt64, wrap64.
  pose proof (Z.mod_pos_bound (z + 2 ^ 63) (2 ^ 64)). lia.
Qed.

Lemma Sub_exact t u : int64_ok (t - u) -> Sub t u = t - u.
Proof. unfold Sub, int64_ok, minInt64, maxInt64. lia. Qed.

Lemma lookup2_insert2 `{Countable K1, Countable K2} {V}
    (a a' : K1) (b b' : K2) (v : V) m :
  lookup2 (insert2 a b v m) a' b' = if decide (a = a' /\ b = b') then Some v else lookup2 m a' b'.
Proof.
  unfold lookup2, insert2. destruct (decide (a = a')) as [->|].
  - rewrite lookup_insert_eq. simpl. destruct (decide (b = b')) as [->|].
    + rewrite lookup_insert_eq, decide_True; done.
    + rewrite lookup_insert_ne, decide_False by naive_solver.
      by destruct (m !! a'); simpl; rewrite ?lookup_empty.
  - by rewrite lookup_insert_ne, decide_False by naive_solver.
Qed.

Lemma lookup3_insert3 `{Countable K1, Countable K2, Countable K3} {V}
    (a a' : K1) (b b' : K2) (c c' : K3) (v : V) m :
  lookup3 (insert3 a b c v m) a' b' c' =
  if decide (a = a' /\ b = b' /\ c = c') then Some v else lookup3 m a' b' c'.
Proof.
  unfold lookup3, insert3. destruct (decide (a = a')) as [->|].
  - rewrite lookup_insert_eq. simpl. rewrite lookup2_insert2.
    repeat case_decide; try naive_solver.
    by destruct (m !! a'); simpl; unfold lookup2; rewrite ?lookup_empty.
  - by rewrite lookup_insert_ne, decide_False by naive_solver.
Qed.

Lemma lookup2_ensure1 `{Countable K1, Countable K2} {V}
    (a : K1) (m : gmap K1 (gmap K2 V)) a' :
  ensure1 a m !! a' = if decide (a = a') then Some (default ∅ (m !! a)) else m !! a'.
Proof.
  unfold ensure1. destruct (m !! a) eqn:E; case_decide; simplify_map_eq; done.
Qed.

Lemma lookup_ensure2 `{Countable K1, Countable K2, Countable K3} {V}
    (a : K1) (b : K2) (m : gmap K1 (gmap K2 (gmap K3 V))) a' b' :
  lookup2 (ensure2 a b m) a' b' =
  if decide (a = a' /\ b = b') then Some (get2 m a b) else lookup2 m a' b'.
Proof.
  unfold lookup2, ensure2, get2, lookup2. destruct (decide (a = a')) as [->|].
  - rewrite lookup_insert_eq. simpl. rewrite lookup2_ensure1.
    repeat case_decide; try naive_solver.
    + by destruct (m !! a'); simpl; rewrite ?lookup_empty.
    + by destruct (m !! a'); simpl; rewrite ?lookup_empty.
  - by rewrite lookup_insert_ne, decide_False by naive_solver.
Qed.

Lemma lookup3_ensure2 `{Countable K1, Countable K2, Countable K3} {V}
    (a : K1) (b : K2) (m : gmap K1 (gmap K2 (gmap K3 V))) a' b' c :
  lookup3 (ensure2 a b m) a' b' c = lookup3 m a' b' c.
Proof.
  change (lookup3 (ensure2 a b m) a' b' c) with
    ((ensure2 a b m !! a') ≫= fun n => n !! b' ≫= fun n => n !! c).
  change (lookup3 m a' b' c) with ((m !! a') ≫= fun n => n !! b' ≫= fun n => n !! c).
  unfold ensure2. destruct (decide (a = a')) as [->|]; [|by rewrite lookup_insert_ne].
  rewrite lookup_insert_eq. simpl. rewrite lookup2_ensure1. case_decide; subst.
  - destruct (m !! a'); simpl; rewrite ?lookup_empty; simpl; [|by rewrite lookup_empty].
    destruct (_ !! b'); simpl; by rewrite ?lookup_empty.
  - by destruct (m !! a'); simpl; rewrite ?lookup_empty.
Qed.

Lemma lookup3_ensure3 `{Countable K1, Countable K2, Countable K3, Countable K4} {V}
    (a : K1) (b : K2) (c : K3)
    (m : gmap K1 (gmap K2 (gmap K3 (gmap K4 V)))) a' b' c' :
  lookup3 (ensure3 a b c m) a' b' c' =
  if decide (a = a' /\ b = b' /\ c = c') then Some (get3 m a b c) else lookup3 m a' b' c'.
Proof.
  unfold lookup3 at 1, ensure3. destruct (decide (a = a')) as [->|].
  - rewrite lookup_insert_eq. simpl. rewrite lookup_ensure2.
    unfold get3, lookup3, get2.
    repeat case_decide; try naive_solver.
    + by destruct (m !! a'); simpl; unfold lookup2; rewrite ?lookup_empty.
    + by destruct (m !! a'); simpl; unfold lookup2; rewrite ?lookup_empty.
  - rewrite lookup_insert_ne, decide_False by naive_solver. done.
Qed.

Lemma get3_ensure3 `{Countable K1, Countable K2, Countable K3, Countable K4} {V}
    (a : K1) (b : K2) (c : K3) (m : gmap K1 (gmap K2 (gmap K3 (gmap K4 V)))) a' b' c' :
  get3 (ensure3 a b c m) a' b' c' = get3 m a' b' c'.
Proof. unfold get3 at 1. rewrite lookup3_ensure3. case_decide; [naive_solver|done]. Qed.

Lemma get3_insert3 `{Countable K1, Countable K2, Countable K3, Countable K4} {V}
    (a : K1) (b : K2) (c : K3) v (m : gmap K1 (gmap K2 (gmap K3 (gmap K4 V)))) a' b' c' :
  get3 (insert3 a b c v m) a' b' c' =
  if decide (a = a' /\ b = b' /\ c = c') then v else get3 m a' b' c'.
Proof. unfold get3. rewrite lookup3_insert3. by case_decide. Qed.

Lemma lookup2_insert3 `{Countable K1, Countable K2, Countable K3} {V}
    (a : K1) (b : K2) (c : K3) (v : V) m a' b' :
  get2 (insert3 a b c v m) a' b' =
  if decide (a = a' /\ b = b') then <[c := v]> (get2 m a b) else get2 m a' b'.
Proof.
  unfold get2, insert3, lookup2. destruct (decide (a = a')) as [->|].
  - rewrite lookup_insert_eq. simpl. unfold insert2.
    destruct (decide (b = b')) as [->|].
    + rewrite lookup_insert_eq, decide_True by done. simpl.
      by destruct (m !! a'); simpl; rewrite ?lookup_empty.
    + rewrite lookup_insert_ne, decide_False by naive_solver.
      by destruct (m !! a'); simpl; rewrite ?lookup_empty.
  - by rewrite lookup_insert_ne, decide_False by naive_solver.
Qed.

Lemma lookup3_get3 `{Countable K1, Countable K2, Countable K3, Countable K4} {V}
    (m : gmap K1 (gmap K2 (gmap K3 (gmap K4 V)))) a b c x :
  lookup3 m a b c = Some x -> get3 m a b c = x.
Proof. unfold get3. by intros ->. Qed.

Lemma lookup3_get2 `{Countable K1, Countable K2, Countable K3} {V}
    (m : gmap K1 (gmap K2 (gmap K3 V))) a b c :
  lookup3 m a b c = get2 m a b !! c.
Proof.
  unfold lookup3, get2, lookup2. destruct (m !! a) as [n|]; simpl; [|by rewrite lookup_empty].
  destruct (n !! b); simpl; by rewrite ?lookup_empty.
Qed.

Lemma zlookup_Some_lt {A} (l : list A) i x : zlookup l i = Some x -> 0 <= i < zlen l.
Proof.
  unfold zlookup, zlen. case_decide; [|done]. intros ?%lookup_lt_Some. lia.
Qed.

Lemma zlookup_nil {A} i : zlookup (@nil A) i = None.
Proof. unfold zlookup. by case_decide. Qed.

Lemma zlookup_is_Some {A} (l : list A) i : 0 <= i < zlen l -> is_Some (zlookup l i).
Proof.
  unfold zlookup, zlen. intros. rewrite decide_True by lia. apply lookup_lt_is_Some. lia.
Qed.

Lemma zlookup_zinsert {A} (l : list A) i j x :
  0 <= i -> zlookup (zinsert l i x) j =
  if decide (i = j /\ i < zlen l) then Some x else zlookup l j.
Proof.
  intros. unfold zlookup, zinsert, zlen.
  repeat case_decide; try lia; try done.
  - destruct_and!; subst. apply list_lookup_insert_eq. lia.
  - destruct (decide (i = j)) as [->|].
    + rewrite list_insert_ge by lia. done.
    + apply list_lookup_insert_ne. lia.
Qed.

Lemma zlen_zinsert {A} (l : list A) i x : zlen (zinsert l i x) = zlen l.
Proof. unfold zlen, zinsert. by rewrite length_insert. Qed.

Lemma zlen_app {A} (l k : list A) : zlen (l ++ k) = zlen l + zlen k.
Proof. unfold zlen. rewrite length_app. lia. Qed.

Lemma zlen_nonneg {A} (l : list A) : 0 <= zlen l.
Proof. unfold zlen. lia. Qed.
Lemma zlen_fmap {A B} (f : A -> B) (l : list A) : zlen (f <$> l) = zlen l.
Proof. unfold zlen. by rewrite length_fmap. Qed.
#[export] Instance zlen_Permutation {A} : Proper (Permutation ==> eq) (@zlen A).
Proof. intros l k Hp. unfold zlen. by rewrite Hp. Qed.
Lemma NoDup_subseteq_zlen {A} (l k : list A) : NoDup l -> l ⊆ k -> zlen l <= zlen k.
Proof. intros Hn Hs. unfold zlen. pose proof (submseteq_length _ _ (NoDup_submseteq _ _ Hn Hs)). lia. Qed.

Lemma zlookup_app_l {A} (l k : list A) i : i < zlen l -> zlookup (l ++ k) i = zlookup l i.
Proof. unfold zlookup, zlen. intros. case_decide; [|done]. apply lookup_app_l. lia. Qed.

Lemma zlookup_snoc {A} (l : list A) x : zlookup (l ++ [x]) (zlen l) = Some x.
Proof.
  unfold zlookup, zlen. rewrite decide_True by lia. rewrite Nat2Z.id.
  rewrite lookup_app_r by lia. by rewrite Nat.sub_diag.
Qed.

Lemma zlookup_snoc_Some {A} (l : list A) x i y :
  zlookup (l ++ [x]) i = Some y -> (i < zlen l /\ zlookup l i = Some y) \/ (i = zlen l /\ y = x).
Proof.
  intros Hl. pose proof (zlookup_Some_lt _ _ _ Hl) as Hr.
  rewrite zlen_app in Hr. change (zlen [x]) with 1 in Hr.
  destruct (decide (i = zlen l)) as [->|].
  - right. rewrite zlookup_snoc in Hl. by simplify_eq.
  - left. rewrite zlookup_app_l in Hl by lia. split; [lia|done].
Qed.

(** [TrimSpace] leaves a trimmed string alone. *)
Lemma strip_prefix_Some p l l' : strip_prefix p l = Some l' <-> l = p ++ l'.
Proof.
  revert l. induction p as [|a p IH]; intros [|b l]; simpl; try naive_solver.
  destruct (Ascii.eqb_spec a b) as [->|]; [rewrite IH|]; naive_solver.
Qed.

Lemma first_strip_None ps l : first_strip ps l = None <-> forall p l', p ∈ ps -> l <> p ++ l'.
Proof.
  induction ps as [|p ps IH]; simpl; [set_solver|].
  destruct (strip_prefix p l) as [l'|] eqn:E.
  - apply strip_prefix_Some in E as ->. split; [done|]. intros Hn. exfalso. by apply (Hn p l'); [left|].
  - rewrite IH. setoid_rewrite elem_of_cons. split; [|naive_solver].
    intros Hn p' l' [->|Hp]; [|by apply Hn]. intros ->.
    assert (strip_prefix p (p ++ l') = Some l') by by apply strip_prefix_Some. congruence.
Qed.

Lemma first_strip_Some ps l l' : first_strip ps l = Some l' -> exists p, p ∈ ps /\ l = p ++ l'.
Proof.
  induction ps as [|p ps IH]; simpl; [done|]. destruct (strip_prefix p l) as [l1|] eqn:E.
  - intros [= ->]. apply strip_prefix_Some in E. exists p. split; [left|done].
  - intros (q&Hq&->)%IH. exists q. split; [by right|done].
Qed.

Lemma strip_all_suffix n ps l : exists k, l = k ++ strip_all n ps l.
Proof.
  revert l. induction n as [|n IH]; intros l; simpl; [by exists []|].
  destruct (first_strip ps l) as [l1|] eqn:E; [|by exists []].
  apply first_strip_Some in E as (p&_&->). destruct (IH l1) as [k Hk]. exists (p ++ k).
  by rewrite <- app_assoc, <- Hk.
Qed.

Lemma strip_all_done n ps l :
  Forall (fun p => p <> []) ps -> (length l <= n)%nat -> first_strip ps (strip_all n ps l) = None.
Proof.
  intros Hps. rewrite Forall_forall in Hps. revert l. induction n as [|n IH]; intros l Hl; simpl.
  - destruct l; [|simpl in Hl; lia]. apply first_strip_None. intros p l' Hp Hn. apply (Hps p Hp). by destruct p.
  - destruct (first_strip ps l) as [l1|] eqn:E; [|done]. apply IH.
    apply first_strip_Some in E as (p&Hp&->). specialize (Hps p Hp). rewrite length_app in Hl.
    destruct p; [done|simpl in Hl; lia].
Qed.

Lemma trim_left_fixed ps l : first_strip ps l = None -> trim_left ps l = l.
Proof. intros E. unfold trim_left. destruct (length l); simpl; [done|by rewrite E]. Qed.

Lemma TrimSpace_idem s : TrimSpace (TrimSpace s) = TrimSpace s.
Proof.
  unfold TrimSpace at 1 2. set (rE := map reverse spaceEncodings). set (l1 := trim_left spaceEncodings (chars s)).
  set (l2 := reverse (trim_left rE (reverse l1))).
  assert (chars (unchars l2) = l2) as -> by apply String.list_ascii_of_string_of_list_ascii.
  assert (Forall (fun p => p <> []) spaceEncodings) as HE
    by (apply (bool_decide_eq_true_1 _); vm_compute; reflexivity).
  assert (Forall (fun p => p <> []) rE) as HrE
    by (apply (bool_decide_eq_true_1 _); vm_compute; reflexivity).
  assert (first_strip spaceEncodings l1 = None) as H1 by (unfold l1; by apply strip_all_done).
  assert (first_strip rE (reverse l2) = None) as H2.
  { unfold l2. rewrite reverse_involutive. by apply strip_all_done. }
  destruct (strip_all_suffix (length (reverse l1)) rE (reverse l1)) as [k Hk].
  fold (trim_left rE (reverse l1)) in Hk. rewrite <- (reverse_involutive (trim_left rE _)) in Hk. fold l2 in Hk.
  assert (l1 = l2 ++ reverse k) as Hl1.
  { rewrite <- (reverse_involutive l1), Hk, reverse_app. by rewrite reverse_involutive. }
  assert (first_strip spaceEncodings l2 = None) as H3.
  { apply first_strip_None. intros p l' Hp Hl2. rewrite first_strip_None in H1.
    apply (H1 p (l' ++ reverse k) Hp). by rewrite Hl1, Hl2, <- app_assoc. }
  rewrite (trim_left_fixed _ _ H3), (trim_left_fixed _ _ H2), reverse_involutive.
  unfold TrimSpace. by fold l1 rE l2.
Qed.

Lemma string_le_total s t : string_le s t \/ string_le t s.
Proof.
  unfold string_le, String.leb. rewrite (String.compare_antisym s t).
  destruct (String.compare t s); simpl; auto.
Qed.
