(* ===== verification/Storage.v ===== *)
(** * The write-ahead log (internal/storage/wal.go)

    [Entry] is the record the broker and the idempotency store append; [WAL] is the
    interface of the same name as a class, [WALLaws] what its clients rely on, and
    [FileWAL] the file-backed implementation: a JSON line per entry, a buffered
    writer whose errors are sticky, and an fsync cadence.  The JSON codec and the
    operating system (how much of a write reaches the file, whether fsync fails,
    the clock) are outside the repository and are parameters. *)
From S2P Require Import Prelude.
From Stdlib Require Import Init.Byte.

Abbreviation bytes := (list byte).

(** ** Entries *)
Inductive RecordType : Type :=
| RecordTypeMessage
| RecordTypeOffset
| RecordTypeTopic
| RecordTypeRetryState
| RecordTypeConsumeIdempotency
| RecordTypeUnknown (n : Z).

#[export] Instance RecordType_eq_dec : EqDecision RecordType.
Proof. solve_decision. Defined.

Record Entry : Type := mkEntry {
  Type_ : RecordType;
  Topic : string;
  Partition : Z;
  Offset : Z;
  TopicMode_ : string;
  Group : string;
  Key : bytes;
  Value : bytes;
  RoutingLabel : string;
  RoutingMeta : gmap string string;
  RunID : string;
  StepID : string;
  ParentStepID : string;
  Labels : gmap string string;
  TargetTopic : string;
  PartitionOverride : option Z;
  IdempotencyKey : string;
  Deadline : option Time;
  RetryMaxAttempts : Z;
  RetryBackoffMs : Z;
  RetryMaxBackoffMs : Z;
  TenantID : string;
  DLQOriginalTopic : string;
  DLQOriginalPartition : Z;
  DLQOriginalOffset : Z;
  DLQAttempts : Z;
  DLQLastError : string;
  DLQRoutedAtMs : Z;
  LastError : string;
  LastErrorAt : option Time;
  IdempotencyScope : string;
  IdempotencyStatus_ : string;
  LeaseOwner : string;
  LeaseUntil : option Time;
  Result : bytes;
  UpdatedAt : option Time
}.

(** The zero value of the struct: what a composite literal leaves unset. *)
Definition zeroEntry (ty : RecordType) : Entry :=
  mkEntry ty "" 0 0 "" "" [] [] "" ∅ "" "" "" ∅ "" None "" None 0 0 0 "" "" 0 0 0 "" 0
    "" None "" "" "" None [] None.

(** ** The interface *)
Class WAL (W : Type) : Type := {
  Append : Entry -> W -> W * option error;
  Replay : W -> W * (list Entry + error)
}.

(** What the clients rely on: [wal_log w] is the sequence a replay of [w] returns; a
    successful append adds its entry at the end, a failed one adds it or nothing. *)
Class WALLaws (W : Type) `{WAL W} : Type := {
  representable : Entry -> Prop;
  wal_log : W -> list Entry;
  wal_ok : W -> Prop;
  Append_ok : forall e w w', wal_ok w -> representable e -> Append e w = (w', None) ->
    wal_ok w' /\ wal_log w' = wal_log w ++ [e];
  Append_fail : forall e w w' err, wal_ok w -> representable e -> Append e w = (w', Some err) ->
    wal_ok w' /\ (wal_log w' = wal_log w \/ wal_log w' = wal_log w ++ [e]);
  Replay_ok : forall w w' es, wal_ok w -> Replay w = (w', inl es) ->
    wal_ok w' /\ es = wal_log w /\ wal_log w' = wal_log w
}.

(** ** An in-memory log whose appends follow a script of failures, for examples *)
Record MemWAL : Type := mkMemWAL { mw_entries : list Entry; mw_script : list (option error) }.

#[export] Instance MemWAL_WAL : WAL MemWAL := {|
  Append e w :=
    match mw_script w with
    | Some err :: sc => (mkMemWAL (mw_entries w) sc, Some err)
    | None :: sc => (mkMemWAL (mw_entries w ++ [e]) sc, None)
    | [] => (mkMemWAL (mw_entries w ++ [e]) [], None)
    end;
  Replay w := (w, inl (mw_entries w))
|}.

#[export] Program Instance MemWAL_laws : WALLaws MemWAL := {|
  representable _ := True;
  wal_log := mw_entries;
  wal_ok _ := True
|}.
Next Obligation. intros e w w' _ _ E. simpl in E. repeat case_match; by simplify_eq. Qed.
Next Obligation. intros e w w' err _ _ E. simpl in E. repeat case_match; simplify_eq; auto. Qed.
Next Obligation. intros w w' es _ E. simpl in E. by simplify_eq. Qed.

Lemma MemWAL_clean e (w w' : MemWAL) err :
  wal_ok w -> Type_ e = RecordTypeMessage -> Append e w = (w', Some err) -> wal_log w' = wal_log w.
Proof. intros _ _ E. simpl in *. repeat case_match; by simplify_eq. Qed.

Lemma MemWAL_representable e : representable (W := MemWAL) e.
Proof. exact I. Qed.

(** ** [FileWAL] *)
Definition newline : byte := x0a.
Definition carriageReturn : byte := x0d.

(** One answer of the operating system per flush of the buffer: [wrote = None] when
    the whole write succeeded, [Some n] when only [n] bytes were written and an error
    returned; [sync_err] is the answer of fsync; [os_now] the clock. *)
Record OSAnswer : Type := mkOS { wrote : option nat; sync_err : option error; os_now : Time }.
Definition osDefault : OSAnswer := mkOS None None 0.

Record FileWAL : Type := mkFileWAL {
  f : bytes;                     (* contents of the file *)
  f_synced : nat;                (* how many of its bytes fsync has made durable *)
  bw : bytes;                    (* buffered, not yet written *)
  bw_err : option error;         (* bufio.Writer's sticky error *)
  bw_size : nat;                 (* its buffer size *)
  syncInterval : Duration;
  lastSync : Time;
  os : list OSAnswer             (* answers to come *)
}.

Record FileWALOptions : Type := mkFileWALOptions { SyncInterval : Duration; BufferBytes : Z }.

Definition set_bw (w : FileWAL) (f' : bytes) (bw' : bytes) (e : option error) : FileWAL :=
  mkFileWAL f' (f_synced w) bw' e (bw_size w) (syncInterval w) (lastSync w) (os w).
Definition next_os (w : FileWAL) : OSAnswer * FileWAL :=
  match os w with
  | [] => (osDefault, w)
  | a :: l => (a, mkFileWAL (f w) (f_synced w) (bw w) (bw_err w) (bw_size w) (syncInterval w)
                   (lastSync w) l)
  end.

(** [OpenFileWALWithOptions] on a file that holds [content] at time [now]. *)
Definition OpenFileWALWithOptions (content : bytes) (opts : FileWALOptions) (now : Time)
    (answers : list OSAnswer) : FileWAL :=
  let bufferBytes := if BufferBytes opts <=? 0 then 256 * 1024 else BufferBytes opts in
  let si := if SyncInterval opts <? 0 then 0 else SyncInterval opts in
  mkFileWAL content (length content) [] None (Z.to_nat bufferBytes) si now answers.

Definition errShortWrite : error := ESentinel "io.ErrShortWrite" "short write".

(** [bufio.Writer.Flush]. *)
Definition bw_Flush (w : FileWAL) : FileWAL * option error :=
  match bw_err w with
  | Some e => (w, Some e)
  | None =>
    if decide (bw w = []) then (w, None)
    else
      let '(a, w) := next_os w in
      match wrote a with
      | None => (set_bw w (f w ++ bw w) [] None, None)
      | Some n => (set_bw w (f w ++ take n (bw w)) (drop n (bw w)) (Some errShortWrite),
                   Some errShortWrite)
      end
  end.

(** [bufio.Writer.Write]: fill the buffer, flush it when it overflows, write a block
    larger than an empty buffer directly. *)
Definition bw_WriteDirect (w : FileWAL) (p : bytes) : FileWAL * option error :=
  let '(a, w) := next_os w in
  match wrote a with
  | None => (set_bw w (f w ++ p) [] None, None)
  | Some n => (set_bw w (f w ++ take n p) [] (Some errShortWrite), Some errShortWrite)
  end.

Definition bw_Write (w : FileWAL) (p : bytes) : FileWAL * option error :=
  match bw_err w with
  | Some e => (w, Some e)
  | None =>
    let avail := (bw_size w - length (bw w))%nat in
    if decide (length p <= avail)%nat then (set_bw w (f w) (bw w ++ p) None, None)
    else if decide (bw w = []) then bw_WriteDirect w p
    else
      let '(w, e) := bw_Flush (set_bw w (f w) (bw w ++ take avail p) None) in
      match e with
      | Some err => (w, Some err)
      | None =>
        let p := drop avail p in
        if decide (length p <= bw_size w)%nat then (set_bw w (f w) p None, None)
        else bw_WriteDirect w p
      end
  end.

(** [flushAndSyncLocked]. *)
Definition flushAndSyncLocked (w : FileWAL) : FileWAL * option error :=
  let '(w, e) := bw_Flush w in
  match e with
  | Some err => (w, Some (EWrap ("flush WAL buffer: " +:+ Error err) err))
  | None =>
    let '(a, w) := next_os w in
    match sync_err a with
    | Some err => (w, Some (EWrap ("fsync WAL: " +:+ Error err) err))
    | None =>
      (mkFileWAL (f w) (length (f w)) (bw w) (bw_err w) (bw_size w) (syncInterval w)
         (os_now a) (os w), None)
    end
  end.

(** [bufio.ScanLines]: the lines of a text, the last one possibly without newline; a
    trailing carriage return is dropped from each. *)
Fixpoint split_lines (cur : bytes) (l : bytes) : list bytes :=
  match l with
  | [] => if decide (cur = []) then [] else [cur]
  | b :: l => if decide (b = newline) then cur :: split_lines [] l else split_lines (cur ++ [b]) l
  end.
Definition dropCR (l : bytes) : bytes :=
  match last l with Some b => if decide (b = carriageReturn) then removelast l else l | None => l end.
Definition maxLineBytes : Z := 10 * 1024 * 1024.
Definition errTooLong : error := ESentinel "bufio.ErrTooLong" "bufio.Scanner: token too long".

Section filewal.
Context (json_encode : Entry -> bytes + error) (json_decode : bytes -> Entry + error).

Definition FileWAL_Append (e : Entry) (w : FileWAL) : FileWAL * option error :=
  match json_encode e with
  | inr err => (w, Some (EWrap ("encode WAL entry: " +:+ Error err) err))
  | inl line =>
    match bw_Write w (line ++ [newline]) with
    | (w, Some err) => (w, Some (EWrap ("encode WAL entry: " +:+ Error err) err))
    | (w, None) =>
      if 0 <? syncInterval w then
        let '(a, w') := next_os w in
        if Sub (os_now a) (lastSync w') <? syncInterval w' then (w', None)
        else flushAndSyncLocked w'
      else flushAndSyncLocked w
    end
  end.

(** The decoding loop of [Replay] over the scanned lines: a line of 10 MB or more stops the
    scanner with an error, empty lines are skipped. *)
Fixpoint decode_lines (ls : list bytes) : list Entry + error :=
  match ls with
  | [] => inl []
  | l :: ls =>
    if maxLineBytes <=? zlen l then inr (EWrap ("scan WAL: " +:+ Error errTooLong) errTooLong)
    else if decide (dropCR l = []) then decode_lines ls
    else
      match json_decode (dropCR l) with
      | inr err => inr (EWrap ("decode WAL entry: " +:+ Error err) err)
      | inl e => match decode_lines ls with inl es => inl (e :: es) | inr err => inr err end
      end
  end.

Definition FileWAL_Replay (w : FileWAL) : FileWAL * (list Entry + error) :=
  match bw_Flush w with
  | (w, Some err) => (w, inr (EWrap ("flush WAL buffer before replay: " +:+ Error err) err))
  | (w, None) => (w, decode_lines (split_lines [] (f w)))
  end.

Definition FileWAL_Close (w : FileWAL) : FileWAL * option error := flushAndSyncLocked w.

#[export] Instance FileWAL_WAL : WAL FileWAL :=
  {| Append := FileWAL_Append; Replay := FileWAL_Replay |}.

(** A crash keeps what fsync has made durable. *)
Definition crash (w : FileWAL) : bytes := take (f_synced w) (f w).
End filewal.
