(* ===== verification/Idempotency.v ===== *)
(** * The idempotency store (internal/broker/idempotency.go)

    The store maps (scope, tenant, topic, group, key) to a status.  Producer scope:
    [Begin] / [Commit] / [Fail].  Consumer scope: a lease on the key, taken, renewed,
    committed or failed by its owner, each transition appended to the log before
    memory changes.  [option W] is the store's [wal] field, [None] for nil; every
    operation runs under the store's mutex and reads the clock as [now]. *)
From S2P Require Import Prelude Storage.

Definition IdemScopeProduce : string := "produce".
Definition IdemScopeConsume : string := "consume".
Definition IdemStatusPending : string := "PENDING".
Definition IdemStatusCommitted : string := "COMMITTED".
Definition IdemStatusFailed : string := "FAILED".

Definition ErrIdempotencyInFlight : error :=
  ESentinel "ErrIdempotencyInFlight" "idempotency: key already in-flight".
Definition ErrIdempotencyLeaseHeld : error :=
  ESentinel "ErrIdempotencyLeaseHeld" "idempotency: lease held by another worker".
Definition ErrIdempotencyLeaseLost : error :=
  ESentinel "ErrIdempotencyLeaseLost" "idempotency: lease lost or expired".
Definition ErrIdempotencyNotFound : error :=
  ESentinel "ErrIdempotencyNotFound" "idempotency: key not found".
Definition ErrIdempotencyBadLease : error :=
  ESentinel "ErrIdempotencyBadLease" "idempotency: invalid lease duration".

Record IdempotencyStatus : Type := mkIdem {
  Status : string;
  st_Result : bytes;
  st_LastError : string;
  st_UpdatedAt : Time;
  st_Owner : string;
  st_LeaseUntil : Time
}.

Record idempotencyKey : Type := mkIdemKey {
  ik_Scope : string;
  ik_TenantID : string;
  ik_Topic : string;
  ik_Group : string;
  ik_Key : string
}.

#[export] Instance idempotencyKey_eq_dec : EqDecision idempotencyKey.
Proof. solve_decision. Defined.
#[export] Program Instance idempotencyKey_countable : Countable idempotencyKey :=
  inj_countable' (fun k => (ik_Scope k, ik_TenantID k, ik_Topic k, ik_Group k, ik_Key k))
    (fun '(a, b, c, d, e) => mkIdemKey a b c d e) _.
Next Obligation. by intros []. Qed.

Record IdempotencyStore : Type := mkIdemStore {
  ttl : Duration;
  items : gmap idempotencyKey IdempotencyStatus
}.
Definition set_items (s : IdempotencyStore) (m : gmap idempotencyKey IdempotencyStatus) :=
  mkIdemStore (ttl s) m.

Definition NewIdempotencyStoreWithWAL (ttl : Duration) : IdempotencyStore :=
  mkIdemStore (if ttl <=? 0 then 10 * Minute else ttl) ∅.

(** [validateLease] (consumer_runner.go). *)
Definition validateLease (lease : Duration) : option error :=
  let minLease := 250 * Millisecond in
  let maxLease := 10 * Minute in
  if lease <=? 0 then Some ErrIdempotencyBadLease
  else if lease <? minLease then Some ErrIdempotencyBadLease
  else if maxLease <? lease then Some ErrIdempotencyBadLease
  else None.

(** [leaseActive := !st.LeaseUntil.IsZero() && now.Before(st.LeaseUntil)]. *)
Definition leaseActive (now : Time) (st : IdempotencyStatus) : bool :=
  negb (IsZero (st_LeaseUntil st)) && Before now (st_LeaseUntil st).

(** Whether [cleanupLocked] keeps an entry. *)
Definition cleanup_keeps (ttl : Duration) (now : Time) (k : idempotencyKey)
    (st : IdempotencyStatus) : bool :=
  if decide (ik_Scope k = IdemScopeConsume /\ Status st = IdemStatusCommitted) then true
  else if decide (ik_Scope k = IdemScopeConsume /\ Status st = IdemStatusPending) then
    leaseActive now st || negb (Before (st_UpdatedAt st) (Add now (- ttl)))
  else negb (Before (st_UpdatedAt st) (Add now (- ttl))).

Definition cleanupLocked (now : Time) (s : IdempotencyStore) : IdempotencyStore :=
  if ttl s <=? 0 then s
  else set_items s (filter (fun p => cleanup_keeps (ttl s) now p.1 p.2 = true) (items s)).

Definition produceKey (tenantID topic key : string) : idempotencyKey :=
  mkIdemKey IdemScopeProduce tenantID topic "" key.
Definition consumeKey (tenantID topic group key : string) : idempotencyKey :=
  mkIdemKey IdemScopeConsume tenantID topic group key.

Definition put (k : idempotencyKey) (st : IdempotencyStatus) (s : IdempotencyStore) :=
  set_items s (<[k := st]> (items s)).

(** ** Producer scope *)
Definition Begin (now : Time) (tenantID topic key : string) (s : IdempotencyStore) :
    IdempotencyStore * (bool * option error) :=
  if decide (key = "") then (s, (false, None))
  else
    let s := cleanupLocked now s in
    let k := produceKey tenantID topic key in
    let pending := put k (mkIdem IdemStatusPending [] "" now "" zeroTime) s in
    match items s !! k with
    | Some st =>
      if decide (Status st = IdemStatusCommitted) then (s, (true, None))
      else if decide (Status st = IdemStatusPending) then (s, (false, Some ErrIdempotencyInFlight))
      else (pending, (false, None))
    | None => (pending, (false, None))
    end.

Definition Commit (now : Time) (tenantID topic key : string) (result : bytes)
    (s : IdempotencyStore) : IdempotencyStore :=
  if decide (key = "") then s
  else put (produceKey tenantID topic key)
         (mkIdem IdemStatusCommitted result "" now "" zeroTime) s.

Definition Fail_ (now : Time) (tenantID topic key : string) (cause : option error)
    (s : IdempotencyStore) : IdempotencyStore :=
  if decide (key = "") then s
  else
    let msg := match cause with Some e => Error e | None => "" end in
    put (produceKey tenantID topic key) (mkIdem IdemStatusFailed [] msg now "" zeroTime) s.

Definition Check_ (now : Time) (tenantID topic key : string) (s : IdempotencyStore) :
    IdempotencyStore * option IdempotencyStatus :=
  if decide (key = "") then (s, None)
  else let s := cleanupLocked now s in (s, items s !! produceKey tenantID topic key).

Definition MarkSuccess := Commit.
Definition MarkFailure := Fail_.

(** ** Consumer scope *)
Section consume.
Context {W : Type} `{WAL W}.

(** [if s.wal != nil { s.wal.Append(e) }]. *)
Definition walAppend (e : Entry) (w : option W) : option W * option error :=
  match w with
  | None => (None, None)
  | Some w => let '(w, err) := Append e w in (Some w, err)
  end.

Definition orUnknown (owner : string) : string := if decide (owner = "") then "unknown" else owner.

Definition idemEntry (tenantID topic group key status owner : string)
    (leaseUntil : option Time) (result : bytes) (lastError : string) (updatedAt : Time) : Entry :=
  {| Type_ := RecordTypeConsumeIdempotency;
     Topic := topic; Partition := 0; Offset := 0; TopicMode_ := ""; Group := group;
     Key := []; Value := []; RoutingLabel := ""; RoutingMeta := ∅;
     RunID := ""; StepID := ""; ParentStepID := ""; Labels := ∅; TargetTopic := "";
     PartitionOverride := None; IdempotencyKey := key; Deadline := None;
     RetryMaxAttempts := 0; RetryBackoffMs := 0; RetryMaxBackoffMs := 0; TenantID := tenantID;
     DLQOriginalTopic := ""; DLQOriginalPartition := 0; DLQOriginalOffset := 0;
     DLQAttempts := 0; DLQLastError := ""; DLQRoutedAtMs := 0;
     LastError := lastError; LastErrorAt := None;
     IdempotencyScope := IdemScopeConsume; IdempotencyStatus_ := status;
     LeaseOwner := owner; LeaseUntil := leaseUntil; Result := result;
     UpdatedAt := Some updatedAt |}.

(** The four transitions share the shape "append, then on success change memory". *)
Definition appendThenPut (e : Entry) (k : idempotencyKey) (st : IdempotencyStatus)
    (s : IdempotencyStore) (w : option W) : IdempotencyStore * option W * option error :=
  match walAppend e w with
  | (w, Some err) => (s, w, Some err)
  | (w, None) => (put k st s, w, None)
  end.

Definition ConsumeBeginLease (now : Time) (tenantID topic group key owner : string)
    (lease : Duration) (s : IdempotencyStore) (w : option W) :
    IdempotencyStore * option W * (bool * bytes * option error) :=
  if decide (key = "") then (s, w, (false, [], None))
  else
  match validateLease lease with
  | Some err => (s, w, (false, [], Some err))
  | None =>
    let owner := orUnknown owner in
    let s := cleanupLocked now s in
    let k := consumeKey tenantID topic group key in
    let newUntil := Add now lease in
    let e := idemEntry tenantID topic group key IdemStatusPending owner (Some newUntil) [] "" now in
    let take st :=
      let '(s, w, err) := appendThenPut e k st s w in (s, w, (false, [], err)) in
    match items s !! k with
    | Some st =>
      if decide (Status st = IdemStatusCommitted) then (s, w, (true, st_Result st, None))
      else if decide (Status st = IdemStatusPending) then
        if leaseActive now st && negb (bool_decide (st_Owner st = owner))
        then (s, w, (false, [], Some ErrIdempotencyLeaseHeld))
        else take (mkIdem IdemStatusPending (st_Result st) (st_LastError st) now owner newUntil)
      else take (mkIdem IdemStatusPending (st_Result st) "" now owner newUntil)
    | None => take (mkIdem IdemStatusPending [] "" now owner newUntil)
    end
  end.

(** The ownership checks of renew, commit and fail: the status must be PENDING, held
    by [owner], with an unexpired lease. *)
Definition checkOwner (now : Time) (owner : string) (st : IdempotencyStatus) : option error :=
  if negb (bool_decide (Status st = IdemStatusPending)) then Some ErrIdempotencyLeaseLost
  else if negb (bool_decide (st_Owner st = owner)) then Some ErrIdempotencyLeaseHeld
  else if IsZero (st_LeaseUntil st) || negb (Before now (st_LeaseUntil st))
  then Some ErrIdempotencyLeaseLost
  else None.

Definition ConsumeRenewLease (now : Time) (tenantID topic group key owner : string)
    (lease : Duration) (s : IdempotencyStore) (w : option W) :
    IdempotencyStore * option W * option error :=
  if decide (key = "") then (s, w, None)
  else
  match validateLease lease with
  | Some err => (s, w, Some err)
  | None =>
    let owner := orUnknown owner in
    let s := cleanupLocked now s in
    let k := consumeKey tenantID topic group key in
    match items s !! k with
    | None => (s, w, Some ErrIdempotencyNotFound)
    | Some st =>
      match checkOwner now owner st with
      | Some err => (s, w, Some err)
      | None =>
        let newUntil := Add now lease in
        appendThenPut
          (idemEntry tenantID topic group key IdemStatusPending owner (Some newUntil) [] "" now) k
          (mkIdem (Status st) (st_Result st) (st_LastError st) now (st_Owner st) newUntil) s w
      end
    end
  end.

Definition ConsumeCommitIfOwner (now : Time) (tenantID topic group key owner : string)
    (result : bytes) (s : IdempotencyStore) (w : option W) :
    IdempotencyStore * option W * option error :=
  if decide (key = "") then (s, w, None)
  else
    let owner := orUnknown owner in
    let s := cleanupLocked now s in
    let k := consumeKey tenantID topic group key in
    match items s !! k with
    | None => (s, w, Some ErrIdempotencyNotFound)
    | Some st =>
      if decide (Status st = IdemStatusCommitted) then (s, w, None)
      else
      match checkOwner now owner st with
      | Some err => (s, w, Some err)
      | None =>
        appendThenPut
          (idemEntry tenantID topic group key IdemStatusCommitted owner
             (Some (st_LeaseUntil st)) result "" now) k
          (mkIdem IdemStatusCommitted result "" now "" zeroTime) s w
      end
    end.

Definition ConsumeFailIfOwner (now : Time) (tenantID topic group key owner : string)
    (cause : option error) (s : IdempotencyStore) (w : option W) :
    IdempotencyStore * option W * option error :=
  if decide (key = "") then (s, w, None)
  else
    let owner := orUnknown owner in
    let msg := match cause with Some e => Error e | None => "" end in
    let s := cleanupLocked now s in
    let k := consumeKey tenantID topic group key in
    match items s !! k with
    | None => (s, w, Some ErrIdempotencyNotFound)
    | Some st =>
      match checkOwner now owner st with
      | Some err => (s, w, Some err)
      | None =>
        appendThenPut
          (idemEntry tenantID topic group key IdemStatusFailed owner None [] msg now) k
          (mkIdem IdemStatusFailed [] msg now "" zeroTime) s w
      end
    end.

Definition ConsumeCheck (now : Time) (tenantID topic group key : string) (s : IdempotencyStore) :
    IdempotencyStore * option IdempotencyStatus :=
  if decide (key = "") then (s, None)
  else let s := cleanupLocked now s in (s, items s !! consumeKey tenantID topic group key).
End consume.
