(* ===== verification/BrokerTypes.v ===== *)
(** * Broker data and pure helpers (internal/broker/types.go, errors.go, helper.go,
    router.go, and [computeBackoff], [normalizeTopicConfig] of broker.go) *)
From S2P Require Import Prelude Storage Idempotency.
From Stdlib Require Import Init.Byte.

(** ** Types *)
Definition TopicModeStandard : string := "standard".
Definition TopicModeRealtime : string := "realtime".

Record TopicConfig : Type := mkTopicConfig { Mode : string }.
Record TopicDescription : Type := mkTopicDescription {
  td_Name : string; td_Partitions : Z; td_Config : TopicConfig
}.

Record RoutingMetadata : Type := mkRouting { Label : string; Meta : gmap string string }.

Record RetryPolicy : Type := mkRetryPolicy {
  MaxAttempts : Z; BackoffMs : Z; MaxBackoffMs : Z
}.

Record DLQMetadata : Type := mkDLQ {
  OriginalTopic : string;
  OriginalPartition : Z;
  OriginalOffset : Z;
  dlq_Attempts : Z;
  dlq_LastError : string;
  RoutedAtMs : Z
}.

Record Envelope : Type := mkEnvelope {
  env_RunID : string;
  env_StepID : string;
  env_ParentStepID : string;
  env_Labels : gmap string string;
  env_TargetTopic : string;
  env_PartitionOverride : option Z;
  env_IdempotencyKey : string;
  env_Deadline : option Time;
  env_RetryPolicy : option RetryPolicy;
  env_TenantID : string;
  env_DLQ : option DLQMetadata
}.
Definition emptyEnvelope : Envelope := mkEnvelope "" "" "" ∅ "" None "" None None "" None.

Record Message : Type := mkMessage {
  m_Offset : Z;
  m_Partition : Z;
  m_Key : bytes;
  m_Value : bytes;
  m_Envelope : option Envelope;
  m_Routing : option RoutingMetadata;
  m_Attempts : Z;
  m_LastError : string
}.

Record inflightEntry : Type := mkInflight {
  Msg : Message;
  SentAt : Time;
  Attempts : Z;
  NextDeliverAt : Time;
  ie_LastError : string;
  Owner : string
}.

Record deliverySnapshot : Type := mkDelivery { ds_Owner : string; ds_At : Time }.

Record retryStateEntry : Type := mkRetry { rs_LastError : string; rs_LastErrorAt : Time }.

Record TopicState : Type := mkTopicState {
  partitions : list (list Message);
  partitionByteSums : list (list Z);
  Config : TopicConfig
}.

Record RoutingDecision : Type := mkDecision {
  rd_Label : string;
  rd_TargetTopic : string;
  rd_PartitionOverride : option Z;
  rd_Meta : gmap string string
}.

(** [NoopRouter.Route]. *)
Definition NoopRoute (topic : string) (msg : Message) : RoutingDecision + error :=
  inl (mkDecision "" "" None ∅).

(** ** Errors *)
Definition ErrBackpressure : error := ESentinel "ErrBackpressure" "backpressure: partition is full".
Definition ErrProducerOverloaded : error := ESentinel "ErrProducerOverloaded" "producer overload".
Definition ErrNotOwner : error := ESentinel "ErrNotOwner" "not owner".
Definition ErrTopicExists : error := ESentinel "ErrTopicExists" "topic already exists".

(** [errors.Is]: identity, the [Is] method of the overload error, and unwrapping. *)
Fixpoint errors_Is (e target : error) : bool :=
  bool_decide (e = target) ||
  match e with
  | ENew _ | ESentinel _ _ => false
  | EWrap _ inner => errors_Is inner target
  | ProducerOverloadError _ _ cause =>
    bool_decide (target = ErrProducerOverloaded) || errors_Is cause target
  end.

(** ** Field updates *)
Definition set_m_Attempts (a : Z) (m : Message) : Message :=
  mkMessage (m_Offset m) (m_Partition m) (m_Key m) (m_Value m) (m_Envelope m) (m_Routing m) a
    (m_LastError m).
Definition set_m_LastError (e : string) (m : Message) : Message :=
  mkMessage (m_Offset m) (m_Partition m) (m_Key m) (m_Value m) (m_Envelope m) (m_Routing m)
    (m_Attempts m) e.
Definition set_m_Envelope (e : option Envelope) (m : Message) : Message :=
  mkMessage (m_Offset m) (m_Partition m) (m_Key m) (m_Value m) e (m_Routing m) (m_Attempts m)
    (m_LastError m).
Definition set_m_Routing (r : option RoutingMetadata) (m : Message) : Message :=
  mkMessage (m_Offset m) (m_Partition m) (m_Key m) (m_Value m) (m_Envelope m) r (m_Attempts m)
    (m_LastError m).
Definition set_m_position (p o : Z) (m : Message) : Message :=
  mkMessage o p (m_Key m) (m_Value m) (m_Envelope m) (m_Routing m) (m_Attempts m) (m_LastError m).

(** Tenant and idempotency key of a message, [None] when [m.Envelope != nil &&
    m.Envelope.IdempotencyKey != ""] fails. *)
Definition idemKeyOf (m : Message) : option (string * string) :=
  match m_Envelope m with
  | Some env =>
    if decide (env_IdempotencyKey env = "") then None
    else Some (env_TenantID env, env_IdempotencyKey env)
  | None => None
  end.

Definition retryPolicyOf (m : Message) : option RetryPolicy := m_Envelope m ≫= env_RetryPolicy.

Definition msgBytes (m : Message) : Z := zlen (m_Key m) + zlen (m_Value m).

(** ** helper.go *)
Definition fnvOffset32 : Z := 2166136261.
Definition fnvPrime32 : Z := 16777619.
Definition fnvStep (h : Z) (b : byte) : Z :=
  (Z.lxor h (Z.of_N (Byte.to_N b)) * fnvPrime32) `mod` 2 ^ 32.

Definition pickPartition (key : bytes) (numPartitions : Z) : Z :=
  if decide (key = []) then 0
  else
    let h := fold_left fnvStep key fnvOffset32 in
    h `mod` (numPartitions `mod` 2 ^ 32).

Definition startAfter (slowestAck : Z) : Z :=
  let start := slowestAck +₆₄ 1 in if start <? 0 then 0 else start.

Definition bufferedCount (partMsgs : list Message) (slowestAck : Z) : Z :=
  let start := startAfter slowestAck in
  if zlen partMsgs <=? start then 0 else zlen partMsgs - start.

Definition sumBytes (l : list Message) : Z := foldr (fun m acc => msgBytes m + acc) 0 l.

Definition bufferedBytesCount (partMsgs : list Message) (partByteSums : list Z)
    (slowestAck : Z) : Z :=
  if decide (partMsgs = []) then 0
  else if negb (zlen partByteSums =? zlen partMsgs) then
    sumBytes (drop (Z.to_nat (startAfter slowestAck)) partMsgs)
  else
    let start := startAfter slowestAck in
    if zlen partMsgs <=? start then 0
    else
      let total := default 0 (last partByteSums) in
      if start =? 0 then total
      else total - default 0 (zlookup partByteSums (start - 1)).

Definition appendLastError (existing addition : string) : string :=
  let addition := TrimSpace addition in
  if decide (addition = "") then existing
  else
    let existing := TrimSpace existing in
    if decide (existing = "") then addition
    else existing +:+ " | " +:+ addition.

(** ** [normalizeTopicConfig] *)
Definition normalizeTopicConfig (cfg : TopicConfig) : TopicConfig + error :=
  let mode := ToLower (TrimSpace (Mode cfg)) in
  let mode := if decide (mode = "") then TopicModeStandard else mode in
  if decide (mode = TopicModeStandard \/ mode = TopicModeRealtime) then inl (mkTopicConfig mode)
  else inr (ENew ("invalid topic mode: " +:+ Mode cfg)).

(** ** [computeBackoff]: the loop doubles [retryNumber - 1] times *)
Definition durationMs (ms : Z) : Duration := ms *₆₄ Millisecond.

Fixpoint backoffLoop (n : nat) (p : RetryPolicy) (backoff : Duration) : Duration :=
  match n with
  | O => backoff
  | S n =>
    if (0 <? MaxBackoffMs p) && (durationMs (MaxBackoffMs p) <=? backoff)
    then durationMs (MaxBackoffMs p)
    else
      let backoff := backoff *₆₄ 2 in
      if (0 <? MaxBackoffMs p) && (durationMs (MaxBackoffMs p) <? backoff)
      then durationMs (MaxBackoffMs p)
      else backoffLoop n p backoff
  end.

Definition computeBackoff (p : option RetryPolicy) (retryNumber : Z) : Duration :=
  match p with
  | None => 0
  | Some p =>
    if (BackoffMs p <=? 0) || (retryNumber <=? 0) then 0
    else
      let backoff := durationMs (BackoffMs p) in
      if (0 <? MaxBackoffMs p) && (durationMs (MaxBackoffMs p) <? backoff)
      then durationMs (MaxBackoffMs p)
      else backoffLoop (Z.to_nat (retryNumber - 1)) p backoff
  end.

(** ** Log records of a message (the entry [produceLocked] appends, and
    [envelopeFromEntry] of wal_replay.go, its inverse) *)
Definition messageEntry (topic : string) (msg : Message) : Entry :=
  let env := m_Envelope msg in
  let rp := env ≫= env_RetryPolicy in
  let dlq := env ≫= env_DLQ in
  let fld {A} (d : A) (f : Envelope -> A) : A := match env with Some e => f e | None => d end in
  let rpf (f : RetryPolicy -> Z) := match rp with Some r => f r | None => 0 end in
  let dlqf {A} (d : A) (f : DLQMetadata -> A) : A := match dlq with Some x => f x | None => d end in
  {| Type_ := RecordTypeMessage;
     Topic := topic; Partition := m_Partition msg; Offset := m_Offset msg; TopicMode_ := "";
     Group := ""; Key := m_Key msg; Value := m_Value msg;
     RoutingLabel := match m_Routing msg with Some r => Label r | None => "" end;
     RoutingMeta := match m_Routing msg with Some r => Meta r | None => ∅ end;
     RunID := fld "" env_RunID; StepID := fld "" env_StepID;
     ParentStepID := fld "" env_ParentStepID; Labels := fld ∅ env_Labels;
     TargetTopic := fld "" env_TargetTopic; PartitionOverride := fld None env_PartitionOverride;
     IdempotencyKey := fld "" env_IdempotencyKey; Deadline := fld None env_Deadline;
     RetryMaxAttempts := rpf MaxAttempts; RetryBackoffMs := rpf BackoffMs;
     RetryMaxBackoffMs := rpf MaxBackoffMs; TenantID := fld "" env_TenantID;
     DLQOriginalTopic := dlqf "" OriginalTopic; DLQOriginalPartition := dlqf 0 OriginalPartition;
     DLQOriginalOffset := dlqf 0 OriginalOffset; DLQAttempts := dlqf 0 dlq_Attempts;
     DLQLastError := dlqf "" dlq_LastError; DLQRoutedAtMs := dlqf 0 RoutedAtMs;
     LastError := ""; LastErrorAt := None; IdempotencyScope := ""; IdempotencyStatus_ := "";
     LeaseOwner := ""; LeaseUntil := None; Result := []; UpdatedAt := None |}.

Definition entryHasDLQ (e : Entry) : bool :=
  negb (bool_decide (DLQOriginalTopic e = "")) || negb (DLQRoutedAtMs e =? 0)
  || negb (bool_decide (DLQLastError e = "")).

Definition entryHasRetry (e : Entry) : bool :=
  negb (RetryMaxAttempts e =? 0) || negb (RetryBackoffMs e =? 0) || negb (RetryMaxBackoffMs e =? 0).

Definition entryHasEnvelope (e : Entry) : bool :=
  negb (bool_decide (RunID e = "")) || negb (bool_decide (StepID e = ""))
  || negb (bool_decide (ParentStepID e = "")) || negb (bool_decide (Labels e = ∅))
  || negb (bool_decide (TargetTopic e = "")) || bool_decide (is_Some (PartitionOverride e))
  || negb (bool_decide (IdempotencyKey e = "")) || bool_decide (is_Some (Deadline e))
  || entryHasRetry e || negb (bool_decide (TenantID e = "")) || entryHasDLQ e.

Definition envelopeFromEntry (e : Entry) : option Envelope :=
  if entryHasEnvelope e then
    Some {|
      env_RunID := RunID e; env_StepID := StepID e; env_ParentStepID := ParentStepID e;
      env_Labels := Labels e; env_TargetTopic := TargetTopic e;
      env_PartitionOverride := PartitionOverride e; env_IdempotencyKey := IdempotencyKey e;
      env_Deadline := Deadline e;
      env_RetryPolicy :=
        if entryHasRetry e
        then Some (mkRetryPolicy (RetryMaxAttempts e) (RetryBackoffMs e) (RetryMaxBackoffMs e))
        else None;
      env_TenantID := TenantID e;
      env_DLQ :=
        if entryHasDLQ e
        then Some (mkDLQ (DLQOriginalTopic e) (DLQOriginalPartition e) (DLQOriginalOffset e)
                     (DLQAttempts e) (DLQLastError e) (DLQRoutedAtMs e))
        else None
    |}
  else None.
