(* ===== verification/BrokerState.v ===== *)
(** * The broker's state (internal/broker/broker.go, state_maps.go, retry_state.go)

    [InMemoryBroker] has the fields of the Go struct.  A consumer stream's channel is
    an index into [channels], the store of Go channels (capacity 1024, FIFO buffer,
    closed flag), because the same channel is shared by the broker and the consumer.
    [metrics] records the calls made on the metrics sink, in order; [panicked] is set
    when a send hits a closed channel.  The idempotency store shares the log [wal]. *)
From S2P Require Import Prelude Storage Idempotency BrokerTypes.

Record consumerStream : Type := mkStream {
  cs_Owner : string;
  cs_Lease : Duration;
  cs_Ch : nat;
  cs_Q : nat
}.

Record offsetFlushKey : Type := mkFlushKey { fk_Topic : string; fk_Group : string; fk_Partition : Z }.
#[export] Instance offsetFlushKey_eq_dec : EqDecision offsetFlushKey.
Proof. solve_decision. Defined.
#[export] Program Instance offsetFlushKey_countable : Countable offsetFlushKey :=
  inj_countable' (fun k => (fk_Topic k, fk_Group k, fk_Partition k))
    (fun '(t, g, p) => mkFlushKey t g p) _.
Next Obligation. by intros []. Qed.

(** A buffered Go channel. *)
Record chan : Type := mkChan { ch_buf : list Message; ch_closed : bool }.
Definition chanCap : Z := 1024.

(** Calls on the [MetricsSink] interface. *)
Inductive MetricEvent : Type :=
| IncProduceRejected (reason : string)
| IncDLQ (topic reason : string)
| IncTopicCreated (topic : string)
| IncAck (topic group : string)
| IncNack (topic group reason : string)
| IncLeaseTimeout (topic group : string)
| IncRedelivery (topic group cause : string).

(** The routing hook: an external component. *)
Definition Router : Type := string -> Message -> RoutingDecision + error.

Section state.
Context {W : Type}.

Record InMemoryBroker : Type := mkBroker {
  topics : gmap string TopicState;
  consumerOffsets : gmap string (gmap string (gmap Z Z));
  consumerChans : gmap string (gmap string (list consumerStream));
  rrCursor : gmap string (gmap string Z);
  maxInFlight : Z;
  inFlight : gmap string (gmap string (gmap Z (gmap Z inflightEntry)));
  nextIndex : gmap string (gmap string (gmap Z Z));
  lastDelivery : gmap string (gmap string (gmap Z deliverySnapshot));
  wal : option W;
  router : option Router;
  ackTimeout : Duration;
  redeliverTick : Duration;
  maxPartitionMsgs : Z;
  maxPartitionBytes : Z;
  idem : IdempotencyStore;
  retryState : gmap string (gmap string (gmap Z (gmap Z retryStateEntry)));
  metrics : option (list MetricEvent);
  pendingOffsets : gmap offsetFlushKey Z;
  offsetFlushInterval : Duration;
  offsetFlushRunning : bool;
  closeOnce : bool;
  channels : list chan;
  panicked : bool
}.

Definition set_topics (x : gmap string TopicState) (b : InMemoryBroker) : InMemoryBroker :=
  mkBroker x (consumerOffsets b) (consumerChans b) (rrCursor b) (maxInFlight b) (inFlight b)
    (nextIndex b) (lastDelivery b) (wal b) (router b) (ackTimeout b) (redeliverTick b)
    (maxPartitionMsgs b) (maxPartitionBytes b) (idem b) (retryState b) (metrics b)
    (pendingOffsets b) (offsetFlushInterval b) (offsetFlushRunning b) (closeOnce b) (channels b)
    (panicked b).
Definition set_consumerOffsets (x : gmap string (gmap string (gmap Z Z))) (b : InMemoryBroker) : InMemoryBroker :=
  mkBroker (topics b) x (consumerChans b) (rrCursor b) (maxInFlight b) (inFlight b)
    (nextIndex b) (lastDelivery b) (wal b) (router b) (ackTimeout b) (redeliverTick b)
    (maxPartitionMsgs b) (maxPartitionBytes b) (idem b) (retryState b) (metrics b)
    (pendingOffsets b) (offsetFlushInterval b) (offsetFlushRunning b) (closeOnce b) (channels b)
    (panicked b).
Definition set_consumerChans (x : gmap string (gmap string (list consumerStream))) (b : InMemoryBroker) : InMemoryBroker :=
  mkBroker (topics b) (consumerOffsets b) x (rrCursor b) (maxInFlight b) (inFlight b)
    (nextIndex b) (lastDelivery b) (wal b) (router b) (ackTimeout b) (redeliverTick b)
    (maxPartitionMsgs b) (maxPartitionBytes b) (idem b) (retryState b) (metrics b)
    (pendingOffsets b) (offsetFlushInterval b) (offsetFlushRunning b) (closeOnce b) (channels b)
    (panicked b).
Definition set_rrCursor (x : gmap string (gmap string Z)) (b : InMemoryBroker) : InMemoryBroker :=
  mkBroker (topics b) (consumerOffsets b) (consumerChans b) x (maxInFlight b) (inFlight b)
    (nextIndex b) (lastDelivery b) (wal b) (router b) (ackTimeout b) (redeliverTick b)
    (maxPartitionMsgs b) (maxPartitionBytes b) (idem b) (retryState b) (metrics b)
    (pendingOffsets b) (offsetFlushInterval b) (offsetFlushRunning b) (closeOnce b) (channels b)
    (panicked b).
Definition set_maxInFlight (x : Z) (b : InMemoryBroker) : InMemoryBroker :=
  mkBroker (topics b) (consumerOffsets b) (consumerChans b) (rrCursor b) x (inFlight b)
    (nextIndex b) (lastDelivery b) (wal b) (router b) (ackTimeout b) (redeliverTick b)
    (maxPartitionMsgs b) (maxPartitionBytes b) (idem b) (retryState b) (metrics b)
    (pendingOffsets b) (offsetFlushInterval b) (offsetFlushRunning b) (closeOnce b) (channels b)
    (panicked b).
Definition set_inFlight (x : gmap string (gmap string (gmap Z (gmap Z inflightEntry)))) (b : InMemoryBroker) : InMemoryBroker :=
  mkBroker (topics b) (consumerOffsets b) (consumerChans b) (rrCursor b) (maxInFlight b) x
    (nextIndex b) (lastDelivery b) (wal b) (router b) (ackTimeout b) (redeliverTick b)
    (maxPartitionMsgs b) (maxPartitionBytes b) (idem b) (retryState b) (metrics b)
    (pendingOffsets b) (offsetFlushInterval b) (offsetFlushRunning b) (closeOnce b) (channels b)
    (panicked b).
Definition set_nextIndex (x : gmap string (gmap string (gmap Z Z))) (b : InMemoryBroker) : InMemoryBroker :=
  mkBroker (topics b) (consumerOffsets b) (consumerChans b) (rrCursor b) (maxInFlight b)
    (inFlight b) x (lastDelivery b) (wal b) (router b) (ackTimeout b) (redeliverTick b)
    (maxPartitionMsgs b) (maxPartitionBytes b) (idem b) (retryState b) (metrics b)
    (pendingOffsets b) (offsetFlushInterval b) (offsetFlushRunning b) (closeOnce b) (channels b)
    (panicked b).
Definition set_lastDelivery (x : gmap string (gmap string (gmap Z deliverySnapshot))) (b : InMemoryBroker) : InMemoryBroker :=
  mkBroker (topics b) (consumerOffsets b) (consumerChans b) (rrCursor b) (maxInFlight b)
    (inFlight b) (nextIndex b) x (wal b) (router b) (ackTimeout b) (redeliverTick b)
    (maxPartitionMsgs b) (maxPartitionBytes b) (idem b) (retryState b) (metrics b)
    (pendingOffsets b) (offsetFlushInterval b) (offsetFlushRunning b) (closeOnce b) (channels b)
    (panicked b).
Definition set_wal (x : option W) (b : InMemoryBroker) : InMemoryBroker :=
  mkBroker (topics b) (consumerOffsets b) (consumerChans b) (rrCursor b) (maxInFlight b)
    (inFlight b) (nextIndex b) (lastDelivery b) x (router b) (ackTimeout b) (redeliverTick b)
    (maxPartitionMsgs b) (maxPartitionBytes b) (idem b) (retryState b) (metrics b)
    (pendingOffsets b) (offsetFlushInterval b) (offsetFlushRunning b) (closeOnce b) (channels b)
    (panicked b).
Definition set_router (x : option Router) (b : InMemoryBroker) : InMemoryBroker :=
  mkBroker (topics b) (consumerOffsets b) (consumerChans b) (rrCursor b) (maxInFlight b)
    (inFlight b) (nextIndex b) (lastDelivery b) (wal b) x (ackTimeout b) (redeliverTick b)
    (maxPartitionMsgs b) (maxPartitionBytes b) (idem b) (retryState b) (metrics b)
    (pendingOffsets b) (offsetFlushInterval b) (offsetFlushRunning b) (closeOnce b) (channels b)
    (panicked b).
Definition set_ackTimeout (x : Duration) (b : InMemoryBroker) : InMemoryBroker :=
  mkBroker (topics b) (consumerOffsets b) (consumerChans b) (rrCursor b) (maxInFlight b)
    (inFlight b) (nextIndex b) (lastDelivery b) (wal b) (router b) x (redeliverTick b)
    (maxPartitionMsgs b) (maxPartitionBytes b) (idem b) (retryState b) (metrics b)
    (pendingOffsets b) (offsetFlushInterval b) (offsetFlushRunning b) (closeOnce b) (channels b)
    (panicked b).
Definition set_redeliverTick (x : Duration) (b : InMemoryBroker) : InMemoryBroker :=
  mkBroker (topics b) (consumerOffsets b) (consumerChans b) (rrCursor b) (maxInFlight b)
    (inFlight b) (nextIndex b) (lastDelivery b) (wal b) (router b) (ackTimeout b) x
    (maxPartitionMsgs b) (maxPartitionBytes b) (idem b) (retryState b) (metrics b)
    (pendingOffsets b) (offsetFlushInterval b) (offsetFlushRunning b) (closeOnce b) (channels b)
    (panicked b).
Definition set_maxPartitionMsgs (x : Z) (b : InMemoryBroker) : InMemoryBroker :=
  mkBroker (topics b) (consumerOffsets b) (consumerChans b) (rrCursor b) (maxInFlight b)
    (inFlight b) (nextIndex b) (lastDelivery b) (wal b) (router b) (ackTimeout b)
    (redeliverTick b) x (maxPartitionBytes b) (idem b) (retryState b) (metrics b)
    (pendingOffsets b) (offsetFlushInterval b) (offsetFlushRunning b) (closeOnce b) (channels b)
    (panicked b).
Definition set_maxPartitionBytes (x : Z) (b : InMemoryBroker) : InMemoryBroker :=
  mkBroker (topics b) (consumerOffsets b) (consumerChans b) (rrCursor b) (maxInFlight b)
    (inFlight b) (nextIndex b) (lastDelivery b) (wal b) (router b) (ackTimeout b)
    (redeliverTick b) (maxPartitionMsgs b) x (idem b) (retryState b) (metrics b)
    (pendingOffsets b) (offsetFlushInterval b) (offsetFlushRunning b) (closeOnce b) (channels b)
    (panicked b).
Definition set_idem (x : IdempotencyStore) (b : InMemoryBroker) : InMemoryBroker :=
  mkBroker (topics b) (consumerOffsets b) (consumerChans b) (rrCursor b) (maxInFlight b)
    (inFlight b) (nextIndex b) (lastDelivery b) (wal b) (router b) (ackTimeout b)
    (redeliverTick b) (maxPartitionMsgs b) (maxPartitionBytes b) x (retryState b) (metrics b)
    (pendingOffsets b) (offsetFlushInterval b) (offsetFlushRunning b) (closeOnce b) (channels b)
    (panicked b).
Definition set_retryState (x : gmap string (gmap string (gmap Z (gmap Z retryStateEntry)))) (b : InMemoryBroker) : InMemoryBroker :=
  mkBroker (topics b) (consumerOffsets b) (consumerChans b) (rrCursor b) (maxInFlight b)
    (inFlight b) (nextIndex b) (lastDelivery b) (wal b) (router b) (ackTimeout b)
    (redeliverTick b) (maxPartitionMsgs b) (maxPartitionBytes b) (idem b) x (metrics b)
    (pendingOffsets b) (offsetFlushInterval b) (offsetFlushRunning b) (closeOnce b) (channels b)
    (panicked b).
Definition set_metrics (x : option (list MetricEvent)) (b : InMemoryBroker) : InMemoryBroker :=
  mkBroker (topics b) (consumerOffsets b) (consumerChans b) (rrCursor b) (maxInFlight b)
    (inFlight b) (nextIndex b) (lastDelivery b) (wal b) (router b) (ackTimeout b)
    (redeliverTick b) (maxPartitionMsgs b) (maxPartitionBytes b) (idem b) (retryState b) x
    (pendingOffsets b) (offsetFlushInterval b) (offsetFlushRunning b) (closeOnce b) (channels b)
    (panicked b).
Definition set_pendingOffsets (x : gmap offsetFlushKey Z) (b : InMemoryBroker) : InMemoryBroker :=
  mkBroker (topics b) (consumerOffsets b) (consumerChans b) (rrCursor b) (maxInFlight b)
    (inFlight b) (nextIndex b) (lastDelivery b) (wal b) (router b) (ackTimeout b)
    (redeliverTick b) (maxPartitionMsgs b) (maxPartitionBytes b) (idem b) (retryState b)
    (metrics b) x (offsetFlushInterval b) (offsetFlushRunning b) (closeOnce b) (channels b)
    (panicked b).
Definition set_offsetFlushInterval (x : Duration) (b : InMemoryBroker) : InMemoryBroker :=
  mkBroker (topics b) (consumerOffsets b) (consumerChans b) (rrCursor b) (maxInFlight b)
    (inFlight b) (nextIndex b) (lastDelivery b) (wal b) (router b) (ackTimeout b)
    (redeliverTick b) (maxPartitionMsgs b) (maxPartitionBytes b) (idem b) (retryState b)
    (metrics b) (pendingOffsets b) x (offsetFlushRunning b) (closeOnce b) (channels b)
    (panicked b).
Definition set_offsetFlushRunning (x : bool) (b : InMemoryBroker) : InMemoryBroker :=
  mkBroker (topics b) (consumerOffsets b) (consumerChans b) (rrCursor b) (maxInFlight b)
    (inFlight b) (nextIndex b) (lastDelivery b) (wal b) (router b) (ackTimeout b)
    (redeliverTick b) (maxPartitionMsgs b) (maxPartitionBytes b) (idem b) (retryState b)
    (metrics b) (pendingOffsets b) (offsetFlushInterval b) x (closeOnce b) (channels b)
    (panicked b).
Definition set_closeOnce (x : bool) (b : InMemoryBroker) : InMemoryBroker :=
  mkBroker (topics b) (consumerOffsets b) (consumerChans b) (rrCursor b) (maxInFlight b)
    (inFlight b) (nextIndex b) (lastDelivery b) (wal b) (router b) (ackTimeout b)
    (redeliverTick b) (maxPartitionMsgs b) (maxPartitionBytes b) (idem b) (retryState b)
    (metrics b) (pendingOffsets b) (offsetFlushInterval b) (offsetFlushRunning b) x (channels b)
    (panicked b).
Definition set_channels (x : list chan) (b : InMemoryBroker) : InMemoryBroker :=
  mkBroker (topics b) (consumerOffsets b) (consumerChans b) (rrCursor b) (maxInFlight b)
    (inFlight b) (nextIndex b) (lastDelivery b) (wal b) (router b) (ackTimeout b)
    (redeliverTick b) (maxPartitionMsgs b) (maxPartitionBytes b) (idem b) (retryState b)
    (metrics b) (pendingOffsets b) (offsetFlushInterval b) (offsetFlushRunning b) (closeOnce b)
    x (panicked b).
Definition set_panicked (x : bool) (b : InMemoryBroker) : InMemoryBroker :=
  mkBroker (topics b) (consumerOffsets b) (consumerChans b) (rrCursor b) (maxInFlight b)
    (inFlight b) (nextIndex b) (lastDelivery b) (wal b) (router b) (ackTimeout b)
    (redeliverTick b) (maxPartitionMsgs b) (maxPartitionBytes b) (idem b) (retryState b)
    (metrics b) (pendingOffsets b) (offsetFlushInterval b) (offsetFlushRunning b) (closeOnce b)
    (channels b) x.

(** ** Construction and options *)
Definition NewInMemoryBrokerWithWALAndRouter (w : option W) (r : option Router) : InMemoryBroker :=
  {| topics := ∅; consumerOffsets := ∅; consumerChans := ∅; rrCursor := ∅; maxInFlight := 32;
     inFlight := ∅; nextIndex := ∅; lastDelivery := ∅; wal := w; router := r;
     ackTimeout := 2 * Second; redeliverTick := 1 * Second; maxPartitionMsgs := 1024;
     maxPartitionBytes := 4 * 1024 * 1024; idem := NewIdempotencyStoreWithWAL (10 * Minute);
     retryState := ∅; metrics := None; pendingOffsets := ∅;
     offsetFlushInterval := 100 * Millisecond; offsetFlushRunning := false; closeOnce := false;
     channels := []; panicked := false |}.

Definition BrokerOption : Type := InMemoryBroker -> InMemoryBroker.
Definition clamp0 (n : Z) : Z := if n <? 0 then 0 else n.
Definition WithMaxPartitionBytes (n : Z) : BrokerOption := fun b => set_maxPartitionBytes (clamp0 n) b.
Definition WithMaxPartitionMsgs (n : Z) : BrokerOption := fun b => set_maxPartitionMsgs (clamp0 n) b.
Definition WithMaxInFlight (n : Z) : BrokerOption := fun b => set_maxInFlight (clamp0 n) b.
Definition WithAckTimeout (d : Duration) : BrokerOption :=
  fun b => if d <=? 0 then b else set_ackTimeout d b.
Definition WithRedeliverTick (d : Duration) : BrokerOption :=
  fun b => if d <=? 0 then b else set_redeliverTick d b.
Definition WithRouter (r : option Router) : BrokerOption := fun b => set_router r b.
Definition WithMetricsSink (on : bool) : BrokerOption :=
  fun b => set_metrics (if on then Some [] else None) b.
Definition applyBrokerOptions (b : InMemoryBroker) (opts : list BrokerOption) : InMemoryBroker :=
  foldl (fun b opt => opt b) b opts.
Definition NewInMemoryBrokerWithWAL (w : option W) (opts : list BrokerOption) : InMemoryBroker :=
  applyBrokerOptions (NewInMemoryBrokerWithWALAndRouter w None) opts.
Definition SetRouter (r : option Router) (b : InMemoryBroker) : InMemoryBroker := set_router r b.

(** [if b.metrics != nil { b.metrics.IncX(...) }]. *)
Definition emit (ev : MetricEvent) (b : InMemoryBroker) : InMemoryBroker :=
  match metrics b with
  | None => b
  | Some l => set_metrics (Some (l ++ [ev])) b
  end.

(** ** Maps of maps (state_maps.go) *)
Definition ensureInFlight (topic group : string) (partition : Z) (b : InMemoryBroker) : InMemoryBroker :=
  set_inFlight (ensure3 topic group partition (inFlight b)) b.
(** The map [ensureInFlight] returns. *)
Definition inFlightOf (b : InMemoryBroker) (topic group : string) (partition : Z) :
    gmap Z inflightEntry := get3 (inFlight b) topic group partition.
(** [inflight[off] = e] and [delete(inflight, off)] on that map. *)
Definition putInFlight (topic group : string) (partition off : Z) (e : inflightEntry)
    (b : InMemoryBroker) : InMemoryBroker :=
  set_inFlight (insert3 topic group partition (<[off := e]> (inFlightOf b topic group partition))
                  (inFlight b)) b.
Definition deleteInFlight (topic group : string) (partition off : Z) (b : InMemoryBroker) :
    InMemoryBroker :=
  set_inFlight (insert3 topic group partition (delete off (inFlightOf b topic group partition))
                  (inFlight b)) b.

Definition ensureNextIndex (topic group : string) (b : InMemoryBroker) : InMemoryBroker :=
  set_nextIndex (ensure2 topic group (nextIndex b)) b.
Definition setNextIndex (topic group : string) (partition i : Z) (b : InMemoryBroker) : InMemoryBroker :=
  set_nextIndex (insert3 topic group partition i (nextIndex b)) b.
(** Reading a missing index yields 0. *)
Definition nextIndexOf (b : InMemoryBroker) (topic group : string) (partition : Z) : Z :=
  default 0 (lookup3 (nextIndex b) topic group partition).

Definition recordDeliveryLocked (topic group : string) (partition : Z) (owner : string) (at_ : Time)
    (b : InMemoryBroker) : InMemoryBroker :=
  set_lastDelivery (insert3 topic group partition (mkDelivery owner at_) (lastDelivery b)) b.

Definition streamsOf (b : InMemoryBroker) (topic group : string) : list consumerStream :=
  default [] (lookup2 (consumerChans b) topic group).

Definition ownerLeaseByTopicGroupLocked (topic group : string) (b : InMemoryBroker) :
    gmap string Duration :=
  foldl (fun out st =>
    <[cs_Owner st := if cs_Lease st <=? 0 then ackTimeout b else cs_Lease st]> out)
    ∅ (streamsOf b topic group).

(** ** Retry state (retry_state.go) *)
Definition getRetryState (topic group : string) (partition : Z) (b : InMemoryBroker) :
    option (gmap Z retryStateEntry) := lookup3 (retryState b) topic group partition.

Definition ensureRetryState (topic group : string) (partition : Z) (b : InMemoryBroker) : InMemoryBroker :=
  set_retryState (ensure3 topic group partition (retryState b)) b.

(** [rs := b.ensureRetryState(...); rs[offset] = &retryStateEntry{...}]. *)
Definition putRetryState (topic group : string) (partition offset : Z) (e : retryStateEntry)
    (b : InMemoryBroker) : InMemoryBroker :=
  let b := ensureRetryState topic group partition b in
  set_retryState (insert3 topic group partition
    (<[offset := e]> (get3 (retryState b) topic group partition)) (retryState b)) b.

(** Entries at or below the acknowledged offset go, then empty maps, innermost first. *)
Definition purgeRetry (topic group : string) (partition ackedOffset : Z)
    (m : gmap string (gmap string (gmap Z (gmap Z retryStateEntry)))) :=
  match lookup3 m topic group partition with
  | None => m
  | Some byPart =>
    let byPart := filter (fun p => ackedOffset < p.1) byPart in
    let byTopic := default ∅ (m !! topic) in
    let byGroup := default ∅ (byTopic !! group) in
    if decide (byPart <> ∅) then <[topic := <[group := <[partition := byPart]> byGroup]> byTopic]> m
    else
      let byGroup := delete partition byGroup in
      if decide (byGroup <> ∅) then <[topic := <[group := byGroup]> byTopic]> m
      else
        let byTopic := delete group byTopic in
        if decide (byTopic <> ∅) then <[topic := byTopic]> m
        else delete topic m
  end.
Definition purgeRetryStateLocked (topic group : string) (partition ackedOffset : Z)
    (b : InMemoryBroker) : InMemoryBroker :=
  set_retryState (purgeRetry topic group partition ackedOffset (retryState b)) b.

(** ** Committed offsets *)
Definition committedOf (b : InMemoryBroker) (topic group : string) (partition : Z) : option Z :=
  lookup3 (consumerOffsets b) topic group partition.
(** A missing offset reads as -1. *)
Definition committedRaw (b : InMemoryBroker) (topic group : string) (partition : Z) : Z :=
  default (-1) (committedOf b topic group partition).
Definition setCommitted (topic group : string) (partition off : Z) (b : InMemoryBroker) : InMemoryBroker :=
  set_consumerOffsets (insert3 topic group partition off (consumerOffsets b)) b.
Definition ensureCommitted (topic group : string) (b : InMemoryBroker) : InMemoryBroker :=
  set_consumerOffsets (ensure2 topic group (consumerOffsets b)) b.

Definition ensureOffsetFlushLoopLocked (b : InMemoryBroker) : InMemoryBroker :=
  if bool_decide (wal b = None) || (offsetFlushInterval b <=? 0) || offsetFlushRunning b
  then b else set_offsetFlushRunning true b.
End state.
