(* ===== verification/Dispatch.v ===== *)
(** * Dispatch (internal/broker/dispatch.go and the log helpers of broker.go)

    [dispatchFilteredLocked] walks groups, partitions and messages.  Its loop body is
    cut into [skipCommitted] (idempotency says the message is done), [chooseConsumer]
    (round robin, with the consume-scope lease when the message has an idempotency
    key), [deliverSimple] (lease 0: enqueue and commit) and [deliverLeased] (record in
    flight, enqueue).  [dispatchFilteredLocked] runs under the broker's mutex; the
    clock readings inside one call are the single instant [now]. *)
From S2P Require Import Prelude Storage Idempotency BrokerTypes BrokerState.

Section dispatch.
Context {W : Type} `{WAL W} `{MapOrder}.
Abbreviation broker := (@InMemoryBroker W).

(** ** Log helpers *)
Definition appendWALEntry (e : Entry) (b : broker) : broker * option error :=
  match wal b with
  | None => (b, None)
  | Some w => let '(w, err) := Append e w in (set_wal (Some w) b, err)
  end.

Definition queuePending (k : offsetFlushKey) (offset : Z) (m : gmap offsetFlushKey Z) :
    gmap offsetFlushKey Z :=
  match m !! k with
  | Some cur => if cur <? offset then <[k := offset]> m else m
  | None => <[k := offset]> m
  end.

Definition queueOffsetPersistLocked (topic group : string) (partition offset : Z) (b : broker) : broker :=
  if bool_decide (wal b = None) then b
  else
    let b := ensureOffsetFlushLoopLocked b in
    set_pendingOffsets (queuePending (mkFlushKey topic group partition) offset (pendingOffsets b)) b.

(** An idempotency operation run on the broker's store and log. *)
Definition withIdem {A} (op : IdempotencyStore -> option W -> IdempotencyStore * option W * A)
    (b : broker) : broker * A :=
  let '(s, w, r) := op (idem b) (wal b) in (set_wal w (set_idem s b), r).

Definition idemConsumeCheck (now : Time) (tenantID topic group key : string) (b : broker) :
    broker * option IdempotencyStatus :=
  let '(s, st) := ConsumeCheck now tenantID topic group key (idem b) in (set_idem s b, st).

(** ** Sending on a channel: [select { case q <- m: ... default: ... }] *)
Inductive SendResult : Type :=
| Sent (b : broker)
| SendFull
| SendPanic.

Definition trySend (q : nat) (m : Message) (b : broker) : SendResult :=
  match channels b !! q with
  | None => SendFull
  | Some c =>
    if ch_closed c then SendPanic
    else if zlen (ch_buf c) <? chanCap
    then Sent (set_channels (<[q := mkChan (ch_buf c ++ [m]) false]> (channels b)) b)
    else SendFull
  end.

(** How an iteration of the message loop ends. *)
Inductive LoopStep : Type := LContinue | LBreak | LReturn.

Definition advanceNext (topic group : string) (p : Z) (b : broker) : broker :=
  setNextIndex topic group p (nextIndexOf b topic group p + 1) b.

(** The block that moves the group's offset forward to [off] (it occurs three times). *)
Definition commitForward (topic group : string) (p off : Z) (b : broker) : broker :=
  let b := ensureCommitted topic group b in
  if committedRaw b topic group p <? off
  then queueOffsetPersistLocked topic group p off (setCommitted topic group p off b)
  else b.

Definition skipCommitted (topic group : string) (p : Z) (m : Message) (b : broker) : broker :=
  advanceNext topic group p
    (purgeRetryStateLocked topic group p (m_Offset m) (commitForward topic group p (m_Offset m) b)).

(** ** Choosing a consumer *)
Definition rrOf (b : broker) (topic group : string) : Z := default 0 (lookup2 (rrCursor b) topic group).
Definition setRR (topic group : string) (i : Z) (b : broker) : broker :=
  set_rrCursor (insert2 topic group i (rrCursor b)) b.

Inductive choice : Type :=
| Chosen (cs : consumerStream) (lease : Duration)
| AlreadyDone
| NoCandidate
| BeginFailed (err : error).

Definition leaseDefaultOf (b : broker) : Duration :=
  if ackTimeout b <=? 0 then 2 * Second else ackTimeout b.

(** One candidate of the leasing loop: [None] to try the next one. *)
Definition tryCandidate (now : Time) (topic group tenantID idk : string) (n i : Z)
    (cand : consumerStream) (candLease : Duration) (b : broker) : broker * option choice :=
  let '(b, (alreadyDone, _, err)) :=
    withIdem (ConsumeBeginLease now tenantID topic group idk (cs_Owner cand) candLease) b in
  match err with
  | None =>
    let b := setRR topic group (Z.rem (i + 1) n) b in
    (b, Some (if (alreadyDone : bool) then AlreadyDone else Chosen cand candLease))
  | Some err =>
    if errors_Is err ErrIdempotencyLeaseHeld then (b, None) else (b, Some (BeginFailed err))
  end.

Fixpoint leaseLoop (now : Time) (topic group tenantID idk : string) (chans : list consumerStream)
    (start : Z) (tries : list nat) (simpleFallback : option Z) (b : broker) :
    broker * choice * option Z :=
  match tries with
  | [] => (b, NoCandidate, simpleFallback)
  | t :: tries =>
    let n := zlen chans in
    let i := Z.rem (start + Z.of_nat t) n in
    match zlookup chans i with
    | None => (b, NoCandidate, simpleFallback)
    | Some cand =>
      let candLease := if cs_Lease cand <? 0 then leaseDefaultOf b else cs_Lease cand in
      if candLease =? 0 then
        leaseLoop now topic group tenantID idk chans start tries
          (match simpleFallback with None => Some i | f => f end) b
      else
        let '(b, r) := tryCandidate now topic group tenantID idk n i cand candLease b in
        match r with
        | Some c => (b, c, simpleFallback)
        | None => leaseLoop now topic group tenantID idk chans start tries simpleFallback b
        end
    end
  end.

Definition chooseConsumer (now : Time) (topic group : string) (chans : list consumerStream)
    (m : Message) (b : broker) : broker * choice :=
  let n := zlen chans in
  let start := Z.rem (rrOf b topic group) n in
  match idemKeyOf m with
  | None =>
    match zlookup chans start with
    | None => (b, NoCandidate)
    | Some cs =>
      let b := setRR topic group (Z.rem (start + 1) n) b in
      (b, Chosen cs (if cs_Lease cs <? 0 then leaseDefaultOf b else cs_Lease cs))
    end
  | Some (tenantID, idk) =>
    let '(b, c, fb) := leaseLoop now topic group tenantID idk chans start
                         (seq 0 (length chans)) None b in
    match c, fb with
    | NoCandidate, Some i =>
      match zlookup chans i with
      | None => (b, NoCandidate)
      | Some cs => (setRR topic group (Z.rem (i + 1) n) b, Chosen cs 0)
      end
    | c, _ => (b, c)
    end
  end.

Definition retryEntry (topic group : string) (p offset : Z) (lastErr : string) (at_ : Time) : Entry :=
  {| Type_ := RecordTypeRetryState;
     Topic := topic; Partition := p; Offset := offset; TopicMode_ := ""; Group := group;
     Key := []; Value := []; RoutingLabel := ""; RoutingMeta := ∅; RunID := ""; StepID := "";
     ParentStepID := ""; Labels := ∅; TargetTopic := ""; PartitionOverride := None;
     IdempotencyKey := ""; Deadline := None; RetryMaxAttempts := 0; RetryBackoffMs := 0;
     RetryMaxBackoffMs := 0; TenantID := ""; DLQOriginalTopic := ""; DLQOriginalPartition := 0;
     DLQOriginalOffset := 0; DLQAttempts := 0; DLQLastError := ""; DLQRoutedAtMs := 0;
     LastError := lastErr; LastErrorAt := Some at_; IdempotencyScope := "";
     IdempotencyStatus_ := ""; LeaseOwner := ""; LeaseUntil := None; Result := [];
     UpdatedAt := None |}.

(** Set the retry state of a message in memory and append it to the log, ignoring the
    append's error ([_ = b.appendWALEntry(...)]). *)
Definition recordRetry (now : Time) (topic group : string) (p offset : Z) (lastErr : string)
    (b : broker) : broker :=
  let b := putRetryState topic group p offset (mkRetry lastErr now) b in
  fst (appendWALEntry (retryEntry topic group p offset lastErr now) b).

(** ** Delivering *)
Definition seedLastError (b : broker) (topic group : string) (p off : Z) : string :=
  match getRetryState topic group p b ≫= fun rs => rs !! off with
  | Some st => rs_LastError st
  | None => ""
  end.

Definition deliverSimple (topic group : string) (p : Z) (m : Message) (cs : consumerStream)
    (lastErr : string) (b : broker) : broker * LoopStep :=
  let send := set_m_LastError lastErr (set_m_Attempts 1 m) in
  match trySend (cs_Q cs) send b with
  | Sent b => (skipCommitted topic group p m b, LContinue)
  | SendFull => (b, LReturn)
  | SendPanic => (set_panicked true b, LReturn)
  end.

Definition deliverLeased (now : Time) (topic group : string) (p : Z) (m : Message)
    (cs : consumerStream) (lastErr : string) (b : broker) : broker * LoopStep :=
  if (0 <? maxInFlight b) && (maxInFlight b <=? Z.of_nat (size (inFlightOf b topic group p)))
  then (b, LBreak)
  else
    let e := mkInflight m now 1 zeroTime lastErr (cs_Owner cs) in
    let b := putInFlight topic group p (m_Offset m) e b in
    let b := recordDeliveryLocked topic group p (cs_Owner cs) (SentAt e) b in
    let send := set_m_LastError (ie_LastError e) (set_m_Attempts (Attempts e) m) in
    let b := advanceNext topic group p b in
    match trySend (cs_Q cs) send b with
    | Sent b => (b, LContinue)
    | SendFull =>
      let b := deleteInFlight topic group p (m_Offset m) b in
      (setNextIndex topic group p (nextIndexOf b topic group p - 1) b, LReturn)
    | SendPanic => (set_panicked true b, LReturn)
    end.

(** ** The loops *)
Definition dispatchOne (now : Time) (topic group : string) (p : Z) (chans : list consumerStream)
    (m : Message) (b : broker) : broker * LoopStep :=
  let '(b, st) :=
    match idemKeyOf m with
    | Some (tenantID, idk) => idemConsumeCheck now tenantID topic group idk b
    | None => (b, None)
    end in
  if bool_decide (Status <$> st = Some IdemStatusCommitted)
  then (skipCommitted topic group p m b, LContinue)
  else
  match inFlightOf b topic group p !! m_Offset m with
  | Some _ => (advanceNext topic group p b, LContinue)
  | None =>
    let '(b, c) := chooseConsumer now topic group chans m b in
    match c with
    | BeginFailed err =>
      (recordRetry now topic group p (m_Offset m) ("idem_begin_failed: " +:+ Error err) b, LBreak)
    | NoCandidate => (b, LBreak)
    | AlreadyDone => (skipCommitted topic group p m b, LContinue)
    | Chosen cs lease =>
      let lastErr := seedLastError b topic group p (m_Offset m) in
      if lease =? 0 then deliverSimple topic group p m cs lastErr b
      else deliverLeased now topic group p m cs lastErr b
    end
  end.

(** [for nextByPart[p] < len(ts.partitions[p])]: every iteration that continues moves the
    index one step, so [length msgs] iterations suffice; the boolean is false on [return]. *)
Fixpoint dispatchLoop (n : nat) (now : Time) (topic group : string) (p : Z)
    (chans : list consumerStream) (msgs : list Message) (b : broker) : broker * bool :=
  match n with
  | O => (b, true)
  | S n =>
    match zlookup msgs (nextIndexOf b topic group p) with
    | None => (b, true)
    | Some m =>
      match dispatchOne now topic group p chans m b with
      | (b, LContinue) => dispatchLoop n now topic group p chans msgs b
      | (b, LBreak) => (b, true)
      | (b, LReturn) => (b, false)
      end
    end
  end.

(** The first index whose offset is past the last committed one. *)
Fixpoint firstAfter (msgs : list Message) (last : Z) : Z :=
  match msgs with
  | [] => 0
  | m :: msgs => if m_Offset m <=? last then 1 + firstAfter msgs last else 0
  end.

Definition initNextIndex (topic group : string) (p : Z) (msgs : list Message) (b : broker) : broker :=
  match lookup3 (nextIndex b) topic group p with
  | Some _ => b
  | None => setNextIndex topic group p (firstAfter msgs (committedRaw b topic group p)) b
  end.

Definition dispatchPart (now : Time) (topic group : string) (p : Z) (chans : list consumerStream)
    (msgs : list Message) (b : broker) : broker * bool :=
  let b := ensureInFlight topic group p b in
  let b := initNextIndex topic group p msgs b in
  dispatchLoop (length msgs) now topic group p chans msgs b.

Fixpoint dispatchParts (now : Time) (topic group : string) (onlyPartition : Z)
    (chans : list consumerStream) (p : Z) (parts : list (list Message)) (b : broker) : broker * bool :=
  match parts with
  | [] => (b, true)
  | msgs :: parts =>
    if (0 <=? onlyPartition) && negb (p =? onlyPartition)
    then dispatchParts now topic group onlyPartition chans (p + 1) parts b
    else
      match dispatchPart now topic group p chans msgs b with
      | (b, true) => dispatchParts now topic group onlyPartition chans (p + 1) parts b
      | (b, false) => (b, false)
      end
  end.

Definition dispatchGroup (now : Time) (topic group : string) (onlyPartition : Z)
    (parts : list (list Message)) (b : broker) : broker * bool :=
  let chans := streamsOf b topic group in
  if decide (chans = []) then (b, true)
  else
    let b := set_rrCursor (ensure1 topic (rrCursor b)) b in
    let b := ensureNextIndex topic group b in
    dispatchParts now topic group onlyPartition chans 0 parts b.

Fixpoint dispatchGroups (now : Time) (topic : string) (onlyPartition : Z)
    (parts : list (list Message)) (groups : list string) (b : broker) : broker :=
  match groups with
  | [] => b
  | g :: groups =>
    match dispatchGroup now topic g onlyPartition parts b with
    | (b, true) => dispatchGroups now topic onlyPartition parts groups b
    | (b, false) => b
    end
  end.

Definition dispatchFilteredLocked (now : Time) (topic : string) (onlyPartition : Z) (b : broker) : broker :=
  match topics b !! topic with
  | None => b
  | Some ts =>
    match consumerChans b !! topic with
    | None => b
    | Some groupChans =>
      dispatchGroups now topic onlyPartition (partitions ts) (order (dom groupChans)) b
    end
  end.

Definition dispatchLocked (now : Time) (topic : string) (b : broker) : broker :=
  dispatchFilteredLocked now topic (-1) b.
Definition dispatchPartitionLocked (now : Time) (topic : string) (partition : Z) (b : broker) : broker :=
  dispatchFilteredLocked now topic partition b.
End dispatch.
