(* ===== verification/Produce.v ===== *)
(** * Topics and producing (internal/broker/broker.go: CreateTopic ... Produce,
    createTopicLocked, produceLocked; helper.go: slowestAckLocked; dlq.go)

    [Produce] is cut at its lock boundaries: [prepareProduce] (routing hook, deadline),
    [produceBegin] (idempotency gate), [produceLocked] (the broker's critical section)
    and [produceEnd] (idempotency commit or failure); [Produce] runs them in order, each
    with its own clock reading. *)
From S2P Require Import Prelude Storage Idempotency BrokerTypes BrokerState Dispatch.

Section produce.
Context {W : Type} `{WAL W} `{MapOrder}.
Abbreviation broker := (@InMemoryBroker W).

(** ** Topics *)
Definition createTopicLockedWithConfig (name : string) (nparts : Z) (cfg : TopicConfig) (b : broker) :
    broker * option error :=
  if decide (name = "") then (b, Some (ENew "topic name cannot be empty"))
  else if nparts <=? 0 then (b, Some (ENew "partitions must be > 0"))
  else
  match topics b !! name with
  | Some _ => (b, None)
  | None =>
    match normalizeTopicConfig cfg with
    | inr err => (b, Some err)
    | inl cfg =>
      let n := Z.to_nat nparts in
      (set_topics (<[name := mkTopicState (replicate n []) (replicate n []) cfg]> (topics b)) b, None)
    end
  end.

Definition createTopicLocked (name : string) (nparts : Z) (b : broker) : broker * option error :=
  createTopicLockedWithConfig name nparts (mkTopicConfig "") b.

Definition topicEntry (name : string) (nparts : Z) (cfg : TopicConfig) : Entry :=
  {| Type_ := RecordTypeTopic;
     Topic := name; Partition := nparts; Offset := 0; TopicMode_ := Mode cfg; Group := "";
     Key := []; Value := []; RoutingLabel := ""; RoutingMeta := ∅; RunID := ""; StepID := "";
     ParentStepID := ""; Labels := ∅; TargetTopic := ""; PartitionOverride := None;
     IdempotencyKey := ""; Deadline := None; RetryMaxAttempts := 0; RetryBackoffMs := 0;
     RetryMaxBackoffMs := 0; TenantID := ""; DLQOriginalTopic := ""; DLQOriginalPartition := 0;
     DLQOriginalOffset := 0; DLQAttempts := 0; DLQLastError := ""; DLQRoutedAtMs := 0;
     LastError := ""; LastErrorAt := None; IdempotencyScope := "";
     IdempotencyStatus_ := ""; LeaseOwner := ""; LeaseUntil := None; Result := [];
     UpdatedAt := None |}.

Definition CreateTopicWithConfig (name : string) (nparts : Z) (cfg : TopicConfig) (b : broker) :
    broker * option error :=
  if decide (name = "") then (b, Some (ENew "topic name cannot be empty"))
  else if nparts <=? 0 then (b, Some (ENew "partitions must be > 0"))
  else
  match normalizeTopicConfig cfg with
  | inr err => (b, Some err)
  | inl cfg =>
    match topics b !! name with
    | Some _ => (b, Some (EWrap (Error ErrTopicExists +:+ ": " +:+ name) ErrTopicExists))
    | None =>
      match createTopicLockedWithConfig name nparts cfg b with
      | (b, Some err) => (b, Some err)
      | (b, None) =>
        match appendWALEntry (topicEntry name nparts cfg) b with
        | (b, Some err) => (set_topics (delete name (topics b)) b, Some err)
        | (b, None) => (emit (IncTopicCreated name) b, None)
        end
      end
    end
  end.

Definition CreateTopic (name : string) (nparts : Z) (b : broker) : broker * option error :=
  CreateTopicWithConfig name nparts (mkTopicConfig "") b.

Definition topicNotFound (name : string) : error := ENew ("topic not found: " +:+ name).

Definition DescribeTopic (name : string) (b : broker) : TopicDescription + error :=
  match topics b !! name with
  | None => inr (topicNotFound name)
  | Some ts => inl (mkTopicDescription name (zlen (partitions ts)) (Config ts))
  end.

Definition ListTopics (b : broker) : list string :=
  sortStrings (order (dom (topics b))).

Definition TopicCount (topic : string) (b : broker) : Z + error :=
  match topics b !! topic with
  | None => inr (topicNotFound topic)
  | Some ts => inl (foldl (fun total part => total + zlen part) 0 (partitions ts))
  end.

(** ** The slowest group's last acknowledged offset in a partition *)
Definition slowestAckLocked (topic : string) (partition : Z) (b : broker) : Z :=
  match consumerOffsets b !! topic with
  | None => -1
  | Some byGroup =>
    if decide (byGroup = ∅) then -1
    else
      default (-1)
        (foldl (fun slowest g =>
           let off := default (-1) (byGroup !! g ≫= fun byPart => byPart !! partition) in
           match slowest with
           | None => Some off
           | Some s => if off <? s then Some off else Some s
           end) None (order (dom byGroup)))
  end.

(** ** produceLocked *)
Definition overload (reason : string) : error := ProducerOverloadError reason (1 * Second) ErrBackpressure.

Definition selectPartition (msg : Message) (numPartitions : Z) : Z + error :=
  match m_Envelope msg ≫= env_PartitionOverride with
  | Some po =>
    if (po <? 0) || (numPartitions <=? po) then inr (ENew "partition_override out of range")
    else inl po
  | None => inl (pickPartition (m_Key msg) numPartitions)
  end.

(** The admission test of the two caps: the reason of a rejection. *)
Definition admission (ts : TopicState) (part slowest : Z) (msg : Message) (b : broker) : option string :=
  let log := default [] (zlookup (partitions ts) part) in
  let sums := default [] (zlookup (partitionByteSums ts) part) in
  if (0 <? maxPartitionMsgs b) && (maxPartitionMsgs b <=? bufferedCount log slowest)
  then Some "partition_buffer_full"
  else if (0 <? maxPartitionBytes b)
          && (maxPartitionBytes b <=? bufferedBytesCount log sums slowest + msgBytes msg)
  then Some "partition_buffer_bytes_full"
  else None.

Definition appendSum (sums : list Z) (n : Z) : list Z :=
  match last sums with
  | None => sums ++ [n]
  | Some s => sums ++ [s + n]
  end.

Definition appendMessage (ts : TopicState) (part : Z) (msg : Message) : TopicState :=
  let log := default [] (zlookup (partitions ts) part) in
  let sums := default [] (zlookup (partitionByteSums ts) part) in
  mkTopicState
    (zinsert (partitions ts) part (log ++ [msg]))
    (zinsert (partitionByteSums ts) part (appendSum sums (msgBytes msg)))
    (Config ts).

Definition produceLocked (now : Time) (topic : string) (msg : Message) (b : broker) :
    broker * option error :=
  if decide (topic = "") then (b, Some (ENew "topic cannot be empty"))
  else
  match topics b !! topic with
  | None => (b, Some (ENew "topic does not exist (create it first)"))
  | Some ts =>
    let numPartitions := zlen (partitions ts) in
    if numPartitions <=? 0 then (b, Some (ENew "topic has no partitions"))
    else
    match selectPartition msg numPartitions with
    | inr err => (b, Some err)
    | inl part =>
      let slowest := if (0 <? maxPartitionMsgs b) || (0 <? maxPartitionBytes b)
                     then slowestAckLocked topic part b else -1 in
      match admission ts part slowest msg b with
      | Some reason => (emit (IncProduceRejected reason) b, Some (overload reason))
      | None =>
        let log := default [] (zlookup (partitions ts) part) in
        let msg := set_m_position part (zlen log) msg in
        match appendWALEntry (messageEntry topic msg) b with
        | (b, Some err) => (b, Some err)
        | (b, None) =>
          let b := set_topics (<[topic := appendMessage ts part msg]> (topics b)) b in
          (dispatchPartitionLocked now topic part b, None)
        end
      end
    end
  end.

(** ** Produce *)
Definition applyDecision (d : RoutingDecision) (msg : Message) : Message :=
  if negb (bool_decide (rd_Label d = "")) || negb (bool_decide (rd_TargetTopic d = ""))
     || bool_decide (is_Some (rd_PartitionOverride d)) || negb (bool_decide (rd_Meta d = ∅))
  then
    let msg := set_m_Routing (Some (mkRouting (rd_Label d) (rd_Meta d))) msg in
    if negb (bool_decide (rd_TargetTopic d = "")) || bool_decide (is_Some (rd_PartitionOverride d))
    then
      let env := default emptyEnvelope (m_Envelope msg) in
      let tt := if decide (rd_TargetTopic d = "") then env_TargetTopic env else rd_TargetTopic d in
      let po := match rd_PartitionOverride d with
                | Some p => Some p | None => env_PartitionOverride env end in
      set_m_Envelope (Some (mkEnvelope (env_RunID env) (env_StepID env) (env_ParentStepID env)
        (env_Labels env) tt po (env_IdempotencyKey env) (env_Deadline env) (env_RetryPolicy env)
        (env_TenantID env) (env_DLQ env))) msg
    else msg
  else msg.

Definition isDLQMessage (msg : Message) : bool := bool_decide (is_Some (m_Envelope msg ≫= env_DLQ)).

(** Routing hook, deadline, final topic: the final topic and message, or an error. *)
Definition prepareProduce (now : Time) (topic : string) (msg : Message) (b : broker) :
    (string * Message) + error :=
  if decide (topic = "") then inr (ENew "topic cannot be empty")
  else
  let routed :=
    match router b with
    | Some route =>
      if isDLQMessage msg then inl msg
      else match route topic msg with
           | inr err => inr err
           | inl d => inl (applyDecision d msg)
           end
    | None => inl msg
    end in
  match routed with
  | inr err => inr err
  | inl msg =>
    let expired := match m_Envelope msg ≫= env_Deadline with
                   | Some d => After now d | None => false end in
    if (expired : bool) then inr (ENew "message deadline exceeded")
    else
      let tt := match m_Envelope msg with Some env => env_TargetTopic env | None => "" end in
      inl (if decide (tt = "") then topic else tt, msg)
  end.

(** The gate: [inr] ends the call with this result, [inl started] goes on. *)
Definition produceBegin (now : Time) (finalTopic : string) (msg : Message) (b : broker) :
    broker * (bool + option error) :=
  match idemKeyOf msg with
  | None => (b, inl false)
  | Some (tenantID, idemKey) =>
    let '(s, (alreadyCommitted, err)) := Begin now tenantID finalTopic idemKey (idem b) in
    let b := set_idem s b in
    match err with
    | Some e => (b, inr (Some e))
    | None => if (alreadyCommitted : bool) then (b, inr None) else (b, inl true)
    end
  end.

Definition produceEnd (now : Time) (finalTopic : string) (msg : Message) (started : bool)
    (err : option error) (b : broker) : broker :=
  match idemKeyOf msg with
  | Some (tenantID, idemKey) =>
    if started then
      match err with
      | Some e => set_idem (Fail_ now tenantID finalTopic idemKey (Some e) (idem b)) b
      | None => set_idem (Commit now tenantID finalTopic idemKey [] (idem b)) b
      end
    else b
  | None => b
  end.

Definition Produce (now1 now2 now3 now4 : Time) (topic : string) (msg : Message) (b : broker) :
    broker * option error :=
  match prepareProduce now1 topic msg b with
  | inr err => (b, Some err)
  | inl (finalTopic, msg) =>
    match produceBegin now2 finalTopic msg b with
    | (b, inr res) => (b, res)
    | (b, inl started) =>
      let '(b, err) := produceLocked now3 finalTopic msg b in
      (produceEnd now4 finalTopic msg started err b, err)
    end
  end.

(** ** Dead-letter topics (dlq.go) *)
Definition dlqTopicName (topic : string) : string := "dlq." +:+ topic.

Definition publishToDLQLocked (now : Time) (topic : string) (msg : Message) (b : broker) :
    broker * option error :=
  if decide (topic = "") then (b, Some (ENew "source topic cannot be empty"))
  else if HasPrefix topic "dlq." then (b, None)
  else
    let dlqTopic := dlqTopicName topic in
    let created :=
      match topics b !! dlqTopic with
      | Some _ => (b, None)
      | None =>
        let nparts :=
          match topics b !! topic with
          | Some ts => if 0 <? zlen (partitions ts) then zlen (partitions ts) else 1
          | None => 1
          end in
        createTopicLocked dlqTopic nparts b
      end in
    match created with
    | (b, Some err) => (b, Some err)
    | (b, None) =>
      let env := default emptyEnvelope (m_Envelope msg) in
      let env := mkEnvelope (env_RunID env) (env_StepID env) (env_ParentStepID env)
        (env_Labels env) "" None (env_IdempotencyKey env) (env_Deadline env) None
        (env_TenantID env)
        (Some (mkDLQ topic (m_Partition msg) (m_Offset msg) (m_Attempts msg) (m_LastError msg)
                 (UnixMilli now))) in
      produceLocked now dlqTopic (set_m_Envelope (Some env) msg) b
    end.
End produce.
