(* ===== verification/Redelivery.v ===== *)
(** * Redelivery (internal/broker/redelivery.go; broker.go: advanceOffsetLocked)

    [redeliverExpiredLocked] visits every in-flight entry; [redeliverEntry] is the body
    of its innermost loop, cut into [markTimeout], [routeToDLQ], [pickRedeliveryConsumer]
    and [resend].  The maps it ranges over change during the iteration: each level takes
    the keys at its start and looks the entry up again when it is reached.  An entry the
    body itself adds (it dispatches) is not visited; Go may visit it, with no effect,
    since its lease starts at this very instant. *)
From S2P Require Import Prelude Storage Idempotency BrokerTypes BrokerState Dispatch Produce.

Section redelivery.
Context {W : Type} `{WAL W} `{MapOrder}.
Abbreviation broker := (@InMemoryBroker W).

Definition advanceOffsetLocked (now : Time) (topic group : string) (partition offset : Z) (b : broker) :
    broker * option error :=
  if decide (topic = "") then (b, Some (ENew "topic cannot be empty"))
  else if decide (group = "") then (b, Some (ENew "group cannot be empty"))
  else if partition <? 0 then (b, Some (ENew "partition cannot be negative"))
  else if offset <? 0 then (b, Some (ENew "offset cannot be negative"))
  else
  match topics b !! topic with
  | None => (b, Some (ENew "topic does not exist"))
  | Some ts =>
    if zlen (partitions ts) <=? partition then (b, Some (ENew "partition out of range"))
    else
      let b := ensureCommitted topic group b in
      let stale := match committedOf b topic group partition with
                   | Some cur => offset <=? cur | None => false end in
      if (stale : bool) then (b, None)
      else
        let b := setCommitted topic group partition offset b in
        let b := queueOffsetPersistLocked topic group partition offset b in
        (dispatchPartitionLocked now topic partition b, None)
  end.

(** [delete(inflight, offset); _ = b.advanceOffsetLocked(...); b.purgeRetryStateLocked(...)]. *)
Definition settle (now : Time) (topic group : string) (partition offset : Z) (b : broker) : broker :=
  let b := deleteInFlight topic group partition offset b in
  let b := fst (advanceOffsetLocked now topic group partition offset b) in
  purgeRetryStateLocked topic group partition offset b.

(** [e.LastError = err; m := e.Msg; m.LastError = e.LastError; e.Msg = m]. *)
Definition withLastError (err : string) (e : inflightEntry) : inflightEntry :=
  mkInflight (set_m_LastError err (Msg e)) (SentAt e) (Attempts e) (NextDeliverAt e) err (Owner e).

(** Mutating the entry behind the pointer stored in the map, then recording its error. *)
Definition noteError (now : Time) (topic group : string) (partition offset : Z) (err : string)
    (e : inflightEntry) (b : broker) : broker :=
  recordRetry now topic group partition offset err
    (putInFlight topic group partition offset (withLastError err e) b).

Definition markTimeout (now : Time) (topic group : string) (partition offset : Z)
    (e : inflightEntry) (b : broker) : inflightEntry * broker :=
  if decide (ie_LastError e = "") then
    let b := emit (IncLeaseTimeout topic group) b in
    (withLastError "ack_timeout" e,
     noteError now topic group partition offset "ack_timeout" e b)
  else (e, b).

Definition ownerLeases (chans : list consumerStream) (b : broker) : gmap string Duration :=
  foldl (fun m st =>
    <[cs_Owner st := if 0 <? cs_Lease st then cs_Lease st else ackTimeout b]> m) ∅ chans.
Definition leaseForOwner (leases : gmap string Duration) (owner : string) (b : broker) : Duration :=
  default (ackTimeout b) (leases !! owner).

(** Dead-letter routing of an exhausted message. *)
Definition dlqMessage (now : Time) (topic : string) (partition offset : Z) (e : inflightEntry) : Message :=
  let env := default emptyEnvelope (m_Envelope (Msg e)) in
  let env := mkEnvelope (env_RunID env) (env_StepID env) (env_ParentStepID env) (env_Labels env)
    (env_TargetTopic env) (env_PartitionOverride env) (env_IdempotencyKey env) (env_Deadline env)
    (env_RetryPolicy env) (env_TenantID env)
    (Some (mkDLQ topic partition offset (Attempts e) (ie_LastError e) (UnixMilli now))) in
  set_m_Envelope (Some env) (set_m_LastError (ie_LastError e) (set_m_Attempts (Attempts e) (Msg e))).

Definition routeToDLQ (now : Time) (topic group : string) (partition offset : Z)
    (e : inflightEntry) (b : broker) : broker :=
  match publishToDLQLocked now topic (dlqMessage now topic partition offset e) b with
  | (b, Some err) =>
    let lastErr := appendLastError (ie_LastError e) ("dlq_publish_failed: " +:+ Error err) in
    noteError now topic group partition offset lastErr e b
  | (b, None) =>
    settle now topic group partition offset (emit (IncDLQ topic "max_attempts_reached") b)
  end.

(** The consumer a retry goes to, [None] when the entry is left for the next tick or
    settled. *)
Fixpoint redeliveryLoop (now : Time) (topic group tenantID idk : string) (partition offset : Z)
    (chans : list consumerStream) (leases : gmap string Duration) (start : Z) (tries : list nat)
    (e : inflightEntry) (b : broker) : broker * option consumerStream :=
  match tries with
  | [] => (b, None)
  | t :: tries =>
    let n := zlen chans in
    let idx := Z.rem (start + Z.of_nat t) n in
    match zlookup chans idx with
    | None => (b, None)
    | Some cand =>
      let lease := leaseForOwner leases (cs_Owner cand) b in
      let '(b, (alreadyDone, _, err)) :=
        withIdem (ConsumeBeginLease now tenantID topic group idk (cs_Owner cand) lease) b in
      match err with
      | Some err =>
        if decide (err = ErrIdempotencyLeaseHeld) then
          redeliveryLoop now topic group tenantID idk partition offset chans leases start tries e b
        else
          let lastErr := appendLastError (ie_LastError e) ("idem_begin_failed: " +:+ Error err) in
          (noteError now topic group partition offset lastErr e b, None)
      | None =>
        if (alreadyDone : bool) then (settle now topic group partition offset b, None)
        else (setRR topic group (Z.rem (idx + 1) n) b, Some cand)
      end
    end
  end.

Definition pickRedeliveryConsumer (now : Time) (topic group : string) (partition offset : Z)
    (chans : list consumerStream) (leases : gmap string Duration) (e : inflightEntry) (b : broker) :
    broker * option consumerStream :=
  let n := zlen chans in
  match idemKeyOf (Msg e) with
  | Some (tenantID, idk) =>
    redeliveryLoop now topic group tenantID idk partition offset chans leases
      (Z.rem (rrOf b topic group) n) (seq 0 (length chans)) e b
  | None =>
    let idx := Z.rem (rrOf b topic group) n in
    (setRR topic group (Z.rem (rrOf b topic group + 1) n) b, zlookup chans idx)
  end.

Definition redeliveryCause (lastError : string) : string :=
  if Contains lastError "ack_timeout" then "ack_timeout"
  else if decide (TrimSpace lastError = "") then "retry" else "nack".

Definition nextDelivery (now : Time) (rp : option RetryPolicy) (attempts : Z) : Time :=
  match rp with
  | Some p =>
    if (0 <? BackoffMs p) || (0 <? MaxBackoffMs p)
    then Add now (computeBackoff (Some p) (attempts - 1))
    else zeroTime
  | None => zeroTime
  end.

(** The updated entry of a retry sent to [cs]. *)
Definition retriedEntry (now : Time) (cs : consumerStream) (e : inflightEntry) : inflightEntry :=
  let attempts := Attempts e +₆₄ 1 in
  mkInflight (set_m_LastError (ie_LastError e) (set_m_Attempts attempts (Msg e))) now attempts
    (nextDelivery now (retryPolicyOf (Msg e)) attempts) (ie_LastError e) (cs_Owner cs).

Definition resend (now : Time) (topic group : string) (partition offset : Z) (cs : consumerStream)
    (e : inflightEntry) (b : broker) : broker :=
  let e' := retriedEntry now cs e in
  let b := recordDeliveryLocked topic group partition (cs_Owner cs) now b in
  let b := emit (IncRedelivery topic group (redeliveryCause (ie_LastError e))) b in
  let b := putInFlight topic group partition offset e' b in
  match trySend (cs_Q cs) (Msg e') b with
  | Sent b => b
  | SendFull => b
  | SendPanic => set_panicked true b
  end.

(** ** The body of the innermost loop *)
Definition retryEntryNow (now : Time) (topic group : string) (partition offset : Z)
    (chans : list consumerStream) (leases : gmap string Duration) (e : inflightEntry) (b : broker) :
    broker :=
  let exhausted := match retryPolicyOf (Msg e) with
                   | Some rp => (0 <? MaxAttempts rp) && (MaxAttempts rp <=? Attempts e)
                   | None => false end in
  if (exhausted : bool) then routeToDLQ now topic group partition offset e b
  else
    match pickRedeliveryConsumer now topic group partition offset chans leases e b with
    | (b, None) => b
    | (b, Some cs) => resend now topic group partition offset cs e b
    end.

Definition redeliverEntry (now : Time) (topic group : string) (partition offset : Z)
    (chans : list consumerStream) (leases : gmap string Duration) (b : broker) : broker :=
  match inFlightOf b topic group partition !! offset with
  | None => b
  | Some e =>
    if Sub now (SentAt e) <? leaseForOwner leases (Owner e) b then b
    else
      let '(e, b) := markTimeout now topic group partition offset e b in
      if negb (IsZero (NextDeliverAt e)) && Before now (NextDeliverAt e) then b
      else
        let '(b, st) :=
          match idemKeyOf (Msg e) with
          | Some (tenantID, idk) => idemConsumeCheck now tenantID topic group idk b
          | None => (b, None)
          end in
        if bool_decide (Status <$> st = Some IdemStatusCommitted)
        then settle now topic group partition offset b
        else retryEntryNow now topic group partition offset chans leases e b
  end.

(** ** The loops *)
Definition redeliverPartition (now : Time) (topic group : string) (chans : list consumerStream)
    (leases : gmap string Duration) (b : broker) (partition : Z) : broker :=
  foldl (fun b offset => redeliverEntry now topic group partition offset chans leases b) b
    (order (dom (inFlightOf b topic group partition))).

Definition redeliverGroup (now : Time) (topic : string) (b : broker) (group : string) : broker :=
  let chans := streamsOf b topic group in
  if decide (chans = []) then b
  else
    let leases := ownerLeases chans b in
    foldl (redeliverPartition now topic group chans leases) b
      (order (dom (get2 (inFlight b) topic group))).

Definition redeliverTopic (now : Time) (b : broker) (topic : string) : broker :=
  match consumerChans b !! topic with
  | None => b
  | Some _ =>
    let b := set_rrCursor (ensure1 topic (rrCursor b)) b in
    foldl (redeliverGroup now topic) b (order (dom (default ∅ (inFlight b !! topic))))
  end.

Definition redeliverExpiredLocked (now : Time) (b : broker) : broker :=
  foldl (redeliverTopic now) b (order (dom (inFlight b))).
End redelivery.
