(* ===== verification/Consume.v ===== *)
(** * Consuming, acknowledging, rejecting (internal/broker/broker.go)

    Registration and unregistration of consumer streams, [Ack], [AckIfOwner] (cut at its
    lock boundaries), [AckCumulativeIfOwner], [Nack], and the offset flusher. *)
From S2P Require Import Prelude Storage Idempotency BrokerTypes BrokerState Dispatch Produce.
From S2P Require Import Redelivery.

Section consume.
Context {W : Type} `{WAL W} `{MapOrder}.
Abbreviation broker := (@InMemoryBroker W).

(** ** Consumer streams *)
Definition registerStream (topic group owner : string) (lease : Duration) (b : broker) : broker * nat :=
  let out := length (channels b) in
  let b := set_channels (channels b ++ [mkChan [] false]) b in
  let st := mkStream owner lease out out in
  (set_consumerChans (insert2 topic group (streamsOf b topic group ++ [st]) (consumerChans b)) b, out).

(** Common part of [Consume] and [ConsumeWithLease]; the channel is the result. *)
Definition consumeWith (now : Time) (topic group owner : string) (lease : Duration) (b : broker) :
    broker * (nat + error) :=
  match topics b !! topic with
  | None => (b, inr (topicNotFound topic))
  | Some _ =>
    let '(b, out) := registerStream topic group owner lease b in
    (dispatchLocked now topic b, inl out)
  end.

Definition Consume (now : Time) (topic group owner : string) (b : broker) : broker * (nat + error) :=
  if decide (topic = "" \/ group = "") then (b, inr (ENew "topic and group are required"))
  else
    let owner := TrimSpace owner in
    if decide (owner = "") then (b, inr (ENew "owner is required"))
    else consumeWith now topic group owner 0 b.

Definition ConsumeWithLease (now : Time) (topic group owner : string) (lease : Duration) (b : broker) :
    broker * (nat + error) :=
  if decide (topic = "" \/ group = "") then (b, inr (ENew "topic and group are required"))
  else
    let owner := TrimSpace owner in
    if decide (owner = "") then (b, inr (ENew "owner is required"))
    else
      let lease :=
        if lease <=? 0 then (if ackTimeout b <=? 0 then 2 * Second else ackTimeout b) else lease in
      consumeWith now topic group owner lease b.

(** [streams[i] = streams[len(streams)-1]; streams = streams[:len(streams)-1]]. *)
Definition swapRemove {A} (i : nat) (l : list A) : list A :=
  match last l with
  | Some x => removelast (<[i := x]> l)
  | None => l
  end.

Definition closeChan (q : nat) (b : broker) : broker :=
  match channels b !! q with
  | None => b
  | Some c =>
    if ch_closed c then set_panicked true b
    else set_channels (<[q := mkChan (ch_buf c) true]> (channels b)) b
  end.

Definition clearCursor (topic group : string) (m : gmap string (gmap string Z)) :
    gmap string (gmap string Z) :=
  match m !! topic with
  | None => m
  | Some byGroup =>
    let byGroup := delete group byGroup in
    if decide (byGroup = ∅) then delete topic m else <[topic := byGroup]> m
  end.

(** What the goroutine of a consumer does when its context is cancelled. *)
Definition unregister (topic group : string) (out : nat) (b : broker) : broker :=
  match consumerChans b !! topic with
  | None => b
  | Some groupChans =>
    let streams := default [] (groupChans !! group) in
    let '(b, streams) :=
      match list_find (fun st => cs_Ch st = out) streams with
      | Some (i, st) => (closeChan (cs_Q st) b, swapRemove i streams)
      | None => (b, streams)
      end in
    let '(b, groupChans) :=
      if decide (streams = []) then
        (set_rrCursor (clearCursor topic group (rrCursor b)) b, delete group groupChans)
      else (b, <[group := streams]> groupChans) in
    set_consumerChans
      (if decide (groupChans = ∅) then delete topic (consumerChans b)
       else <[topic := groupChans]> (consumerChans b)) b
  end.

(** The consumer side: receive one message from a channel. *)
Definition recv (q : nat) (b : broker) : broker * option Message :=
  match channels b !! q with
  | Some (mkChan (m :: buf) cl) => (set_channels (<[q := mkChan buf cl]> (channels b)) b, Some m)
  | _ => (b, None)
  end.

(** ** Acknowledging *)
Definition checkArgs (topic group : string) (partition offset : Z) : option error :=
  if decide (topic = "") then Some (ENew "topic cannot be empty")
  else if decide (group = "") then Some (ENew "group cannot be empty")
  else if partition <? 0 then Some (ENew "partition cannot be negative")
  else if offset <? 0 then Some (ENew "offset cannot be negative")
  else None.

(** [ok := b.topics[topic]; partition >= len(ts.partitions)]. *)
Definition checkTopicPartition (topic : string) (partition : Z) (b : broker) : option error :=
  match topics b !! topic with
  | None => Some (ENew "topic does not exist")
  | Some ts =>
    if zlen (partitions ts) <=? partition then Some (ENew "partition out of range") else None
  end.

(** The entry's [LastError] is cleared before it is deleted, which nothing can observe. *)
Definition ackLocked (now : Time) (topic group : string) (partition offset : Z) (b : broker) :
    broker * option error :=
  match checkTopicPartition topic partition b with
  | Some err => (b, Some err)
  | None =>
    let b := ensureCommitted topic group b in
    let stale := match committedOf b topic group partition with
                 | Some cur => offset <=? cur | None => false end in
    let b := deleteInFlight topic group partition offset b in
    let b := if (stale : bool) then b
             else queueOffsetPersistLocked topic group partition offset
                    (setCommitted topic group partition offset b) in
    (dispatchPartitionLocked now topic partition b, None)
  end.

Definition Ack (now : Time) (topic group : string) (partition offset : Z) (b : broker) :
    broker * option error :=
  match checkArgs topic group partition offset with
  | Some err => (b, Some err)
  | None => ackLocked now topic group partition offset b
  end.

(** First critical section of [AckIfOwner]: [inr] is a final result, [inl] the tenant and
    idempotency key to commit before acknowledging. *)
Definition ackCheckOwner (now : Time) (topic group : string) (partition offset : Z) (owner : string)
    (b : broker) : broker * ((string * string) + option error) :=
  match checkTopicPartition topic partition b with
  | Some err => (b, inr (Some err))
  | None =>
    let b := ensureInFlight topic group partition b in
    match inFlightOf b topic group partition !! offset with
    | None => (b, inr (Some (ENew "message is not in-flight")))
    | Some e =>
      if negb (bool_decide (Owner e = owner)) then (b, inr (Some ErrNotOwner))
      else
      match idemKeyOf (Msg e) with
      | Some key => (b, inl key)
      | None =>
        match ackLocked now topic group partition offset b with
        | (b, None) => (emit (IncAck topic group) b, inr None)
        | (b, Some err) => (b, inr (Some err))
        end
      end
    end
  end.

(** Last critical section. *)
Definition ackFinish (now : Time) (topic group : string) (partition offset : Z) (b : broker) :
    broker * option error :=
  match ackLocked now topic group partition offset b with
  | (b, None) => (emit (IncAck topic group) b, None)
  | (b, Some err) => (b, Some err)
  end.

Definition AckIfOwner (now1 now2 now3 : Time) (topic group : string) (partition offset : Z)
    (owner : string) (b : broker) : broker * option error :=
  match checkArgs topic group partition offset with
  | Some err => (b, Some err)
  | None =>
    let owner := TrimSpace owner in
    if decide (owner = "") then (b, Some (ENew "owner cannot be empty"))
    else
    match ackCheckOwner now1 topic group partition offset owner b with
    | (b, inr res) => (b, res)
    | (b, inl (tenantID, idk)) =>
      match withIdem (ConsumeCommitIfOwner now2 tenantID topic group idk owner []) b with
      | (b, Some err) =>
        if decide (err = ErrIdempotencyLeaseHeld) then (b, Some ErrNotOwner)
        else if decide (err = ErrIdempotencyNotFound)
        then ackFinish now3 topic group partition offset b
        else (b, Some err)
      | (b, None) => ackFinish now3 topic group partition offset b
      end
    end
  end.

(** ** Cumulative acknowledgement *)
Fixpoint checkRange (inflight : gmap Z inflightEntry) (owner : string) (off : Z) (n : nat) : option error :=
  match n with
  | O => None
  | S n =>
    match inflight !! off with
    | None => Some (ENew "message range is not fully in-flight")
    | Some e =>
      if negb (bool_decide (Owner e = owner)) then Some ErrNotOwner
      else checkRange inflight owner (off + 1) n
    end
  end.

Fixpoint ackRange (now : Time) (topic group : string) (partition off : Z) (owner : string)
    (n : nat) (b : broker) : broker * option error :=
  match n with
  | O => (b, None)
  | S n =>
    match AckIfOwner now now now topic group partition off owner b with
    | (b, Some err) => (b, Some err)
    | (b, None) => ackRange now topic group partition (off + 1) owner n b
    end
  end.

(** First critical section: [inl (start, n)] asks for the [n] offsets from [start] on,
    [inr] is a final result. *)
Definition ackCumulativeCheck (topic group : string) (partition offset : Z) (owner : string)
    (b : broker) : broker * ((Z * nat) + option error) :=
  match checkTopicPartition topic partition b with
  | Some err => (b, inr (Some err))
  | None =>
    let b := ensureCommitted topic group b in
    let cur := committedRaw b topic group partition in
    if offset <=? cur then (b, inr None)
    else
      let b := ensureInFlight topic group partition b in
      let n := Z.to_nat (offset - cur) in
      match checkRange (inFlightOf b topic group partition) owner (cur + 1) n with
      | Some err => (b, inr (Some err))
      | None => (b, inl (cur + 1, n))
      end
  end.

Definition AckCumulativeIfOwner (now : Time) (topic group : string) (partition offset : Z)
    (owner : string) (b : broker) : broker * option error :=
  match checkArgs topic group partition offset with
  | Some err => (b, Some err)
  | None =>
    let owner := TrimSpace owner in
    if decide (owner = "") then (b, Some (ENew "owner cannot be empty"))
    else
    match ackCumulativeCheck topic group partition offset owner b with
    | (b, inr res) => (b, res)
    | (b, inl (start, n)) => ackRange now topic group partition start owner n b
    end
  end.

(** ** Rejecting *)
Definition nackLease (topic group owner : string) (b : broker) : Duration :=
  match list_find (fun st => cs_Owner st = owner /\ 0 < cs_Lease st) (streamsOf b topic group) with
  | Some (_, st) => cs_Lease st
  | None => ackTimeout b
  end.

(** Step 3: the best-effort failure mark; a failure of the mark is added to the error. *)
Definition nackMarkFailed (now : Time) (topic group : string) (partition offset : Z) (owner reason : string)
    (e : inflightEntry) (b : broker) : inflightEntry * broker :=
  match idemKeyOf (Msg e) with
  | None => (e, b)
  | Some (tenantID, idk) =>
    match withIdem (ConsumeFailIfOwner now tenantID topic group idk owner (Some (ENew reason))) b with
    | (b, Some err) =>
      if decide (err = ErrIdempotencyNotFound) then (e, b)
      else
        let merged2 := appendLastError (ie_LastError e) ("idem_fail_failed: " +:+ Error err) in
        (withLastError merged2 e, recordRetry now topic group partition offset merged2 b)
    | (b, None) => (e, b)
    end
  end.

Definition Nack (now : Time) (topic group : string) (partition offset : Z) (owner reason : string)
    (b : broker) : broker * option error :=
  match checkArgs topic group partition offset with
  | Some err => (b, Some err)
  | None =>
    let owner := TrimSpace owner in
    if decide (owner = "") then (b, Some (ENew "owner cannot be empty"))
    else
    let reason := TrimSpace reason in
    let reason := if decide (reason = "") then "nack" else reason in
    match checkTopicPartition topic partition b with
    | Some err => (b, Some err)
    | None =>
      let b := ensureInFlight topic group partition b in
      match inFlightOf b topic group partition !! offset with
      | None => (b, Some (ENew "message is not in-flight"))
      | Some e =>
        if negb (bool_decide (Owner e = owner)) then (b, Some ErrNotOwner)
        else
          let merged := appendLastError (ie_LastError e) reason in
          let b := putRetryState topic group partition offset (mkRetry merged now) b in
          match appendWALEntry (retryEntry topic group partition offset merged now) b with
          | (b, Some err) => (b, Some err)
          | (b, None) =>
            let e := withLastError merged e in
            let '(e, b) := nackMarkFailed now topic group partition offset owner reason e b in
            let lease := nackLease topic group (Owner e) b in
            let e := mkInflight (Msg e) (Add now (- lease - Millisecond)) (Attempts e) zeroTime
                       (ie_LastError e) (Owner e) in
            let b := putInFlight topic group partition offset e b in
            let b := emit (IncNack topic group reason) b in
            (redeliverExpiredLocked now b, None)
          end
      end
    end
  end.

(** ** The offset flusher *)
Definition offsetEntry (k : offsetFlushKey) (off : Z) : Entry :=
  {| Type_ := RecordTypeOffset;
     Topic := fk_Topic k; Partition := fk_Partition k; Offset := off; TopicMode_ := "";
     Group := fk_Group k; Key := []; Value := []; RoutingLabel := ""; RoutingMeta := ∅;
     RunID := ""; StepID := ""; ParentStepID := ""; Labels := ∅; TargetTopic := "";
     PartitionOverride := None; IdempotencyKey := ""; Deadline := None; RetryMaxAttempts := 0;
     RetryBackoffMs := 0; RetryMaxBackoffMs := 0; TenantID := ""; DLQOriginalTopic := "";
     DLQOriginalPartition := 0; DLQOriginalOffset := 0; DLQAttempts := 0; DLQLastError := "";
     DLQRoutedAtMs := 0; LastError := ""; LastErrorAt := None; IdempotencyScope := "";
     IdempotencyStatus_ := ""; LeaseOwner := ""; LeaseUntil := None; Result := [];
     UpdatedAt := None |}.

Definition flushKey_le (k l : offsetFlushKey) : Prop :=
  if decide (fk_Topic k = fk_Topic l) then
    if decide (fk_Group k = fk_Group l) then fk_Partition k <= fk_Partition l
    else string_le (fk_Group k) (fk_Group l)
  else string_le (fk_Topic k) (fk_Topic l).
#[export] Instance flushKey_le_dec : RelDecision flushKey_le.
Proof. intros k l. unfold flushKey_le. repeat case_decide; apply _. Defined.

(** The append loop: on the first failure that key and the remaining ones are kept. *)
Fixpoint flushKeys (pending : gmap offsetFlushKey Z) (keys : list offsetFlushKey) (b : broker) :
    broker * gmap offsetFlushKey Z * option error :=
  match keys with
  | [] => (b, ∅, None)
  | k :: rest =>
    let off := default 0 (pending !! k) in
    match appendWALEntry (offsetEntry k off) b with
    | (b, Some err) =>
      (b, list_to_map ((fun k => (k, default 0 (pending !! k))) <$> (k :: rest)), Some err)
    | (b, None) => flushKeys pending rest b
    end
  end.

(** Merging what failed back into the pending offsets, keeping the larger of the two. *)
Definition mergePending (failed cur : gmap offsetFlushKey Z) : gmap offsetFlushKey Z :=
  map_fold queuePending cur failed.

(** The three phases of [flushPendingOffsets]; the broker's mutex is held in the first and
    the last only, so other operations can run between them. *)
Definition flushTake (b : broker) : broker * gmap offsetFlushKey Z :=
  (set_pendingOffsets ∅ b, pendingOffsets b).
Definition flushWrite (pending : gmap offsetFlushKey Z) (b : broker) :
    broker * gmap offsetFlushKey Z * option error :=
  flushKeys pending (merge_sort flushKey_le (order (dom pending))) b.
Definition flushRestore (failed : gmap offsetFlushKey Z) (b : broker) : broker :=
  set_pendingOffsets (mergePending failed (pendingOffsets b)) b.

Definition flushPendingOffsets (b : broker) : broker * option error :=
  if bool_decide (wal b = None) then (b, None)
  else if decide (pendingOffsets b = ∅) then (b, None)
  else
    let '(b, pending) := flushTake b in
    match flushWrite pending b with
    | (b, _, None) => (b, None)
    | (b, failed, Some err) => (flushRestore failed b, Some err)
    end.

(** [Close]: stop the flush loop (which flushes once more), then flush; only once. *)
Definition Close (b : broker) : broker * option error :=
  if closeOnce b then (b, None)
  else
    let b := set_closeOnce true b in
    let b := if offsetFlushRunning b then fst (flushPendingOffsets b) else b in
    flushPendingOffsets b.
End consume.
