(* ===== verification/BrokerInv.v ===== *)
(** * The broker's invariant: definition and the primitive updates

    [wf b] says, of a broker state: the offset of a message is its index in its
    partition's log; the byte sums are the prefix sums of the log; a group's next index
    stays within the log; an in-flight entry is a message of the log below the group's
    next index; every message below the next index is in flight or at or below the
    committed offset (none is skipped); a bounded in-flight window is respected;
    registered streams have distinct, open channels, no buffer exceeds its capacity,
    and no send has hit a closed channel.  [evolves b b'] relates the states before and
    after an operation: logs only grow at the end and committed offsets never go back. *)
From S2P Require Import Prelude Storage Idempotency BrokerTypes BrokerState Dispatch.

Definition logOf (tps : gmap string TopicState) (t : string) (p : Z) : list Message :=
  default [] (tps !! t ≫= fun ts => zlookup (partitions ts) p).

Fixpoint prefixSums (acc : Z) (log : list Message) : list Z :=
  match log with
  | [] => []
  | m :: log => (acc + msgBytes m) :: prefixSums (acc + msgBytes m) log
  end.

(** Equal up to the delivery attempt and the error shown to the consumer. *)
Definition same_message (m m' : Message) : Prop :=
  set_m_LastError "" (set_m_Attempts 0 m) = set_m_LastError "" (set_m_Attempts 0 m').

Abbreviation streams_of chs t g := (default [] (lookup2 chs t g)).

Record wfc (tps : gmap string TopicState)
    (offs : gmap string (gmap string (gmap Z Z)))
    (chs : gmap string (gmap string (list consumerStream)))
    (mx : Z)
    (infl : gmap string (gmap string (gmap Z (gmap Z inflightEntry))))
    (nxt : gmap string (gmap string (gmap Z Z)))
    (chl : list chan) (pan : bool)
    (rr : gmap string (gmap string Z)) : Prop := mkWf {
  wf_offsets : forall t ts p log i m, tps !! t = Some ts -> zlookup (partitions ts) p = Some log ->
    zlookup log i = Some m -> m_Offset m = i /\ m_Partition m = p;
  wf_sums : forall t ts p, tps !! t = Some ts ->
    zlookup (partitionByteSums ts) p = prefixSums 0 <$> zlookup (partitions ts) p;
  wf_next : forall t g p n, lookup3 nxt t g p = Some n -> 0 <= n <= zlen (logOf tps t p);
  wf_infl : forall t g p off e, get3 infl t g p !! off = Some e ->
    t <> "" /\ g <> "" /\ 0 <= off < default 0 (lookup3 nxt t g p) /\
    exists m, zlookup (logOf tps t p) off = Some m /\ same_message (Msg e) m;
  wf_acct : forall t g p n i, lookup3 nxt t g p = Some n -> 0 <= i < n ->
    is_Some (get3 infl t g p !! i) \/ i <= default (-1) (lookup3 offs t g p);
  wf_cap : 0 < mx -> forall t g p, Z.of_nat (size (get3 infl t g p)) <= mx;
  wf_names : forall t g st, st ∈ streams_of chs t g -> t <> "" /\ g <> "";
  wf_open : forall t g st, st ∈ streams_of chs t g ->
    cs_Q st = cs_Ch st /\ exists c, chl !! cs_Ch st = Some c /\ ch_closed c = false;
  wf_inj : forall t g i st t' g' i' st', streams_of chs t g !! i = Some st ->
    streams_of chs t' g' !! i' = Some st' -> cs_Ch st = cs_Ch st' -> t = t' /\ g = g' /\ i = i';
  wf_buf : forall q c, chl !! q = Some c -> zlen (ch_buf c) <= chanCap;
  wf_panic : pan = false;
  wf_rr : forall t g i, lookup2 rr t g = Some i -> 0 <= i
}.

#[global] Arguments wf_offsets {_ _ _ _ _ _ _ _ _} _.
#[global] Arguments wf_sums {_ _ _ _ _ _ _ _ _} _.
#[global] Arguments wf_next {_ _ _ _ _ _ _ _ _} _.
#[global] Arguments wf_infl {_ _ _ _ _ _ _ _ _} _.
#[global] Arguments wf_acct {_ _ _ _ _ _ _ _ _} _.
#[global] Arguments wf_cap {_ _ _ _ _ _ _ _ _} _.
#[global] Arguments wf_names {_ _ _ _ _ _ _ _ _} _.
#[global] Arguments wf_open {_ _ _ _ _ _ _ _ _} _.
#[global] Arguments wf_inj {_ _ _ _ _ _ _ _ _} _.
#[global] Arguments wf_buf {_ _ _ _ _ _ _ _ _} _.
#[global] Arguments wf_panic {_ _ _ _ _ _ _ _ _} _.
#[global] Arguments wf_rr {_ _ _ _ _ _ _ _ _} _.

Section inv.
Context {W : Type} `{WAL W}.
Abbreviation broker := (@InMemoryBroker W).
Implicit Types b : @InMemoryBroker W.

Definition wf (b : broker) : Prop :=
  wfc (topics b) (consumerOffsets b) (consumerChans b) (maxInFlight b) (inFlight b) (nextIndex b)
    (channels b) (panicked b) (rrCursor b).

Record evolves (b b' : broker) : Prop := mkEvolves {
  ev_log : forall t p, logOf (topics b) t p `prefix_of` logOf (topics b') t p;
  ev_committed : forall t g p, committedRaw b t g p <= committedRaw b' t g p
}.

(** What dispatching leaves alone: it only adds in-flight entries, at or past the group's
    next index, and moves forward. *)
Record dframe (b b' : broker) : Prop := mkDframe {
  df_topics : topics b' = topics b;
  df_chans : consumerChans b' = consumerChans b;
  df_max : maxInFlight b' = maxInFlight b;
  df_ack : ackTimeout b' = ackTimeout b;
  df_committed : forall t g p, committedRaw b t g p <= committedRaw b' t g p;
  df_infl : forall t g p, inFlightOf b t g p ⊆ inFlightOf b' t g p;
  df_next : forall t g p, nextIndexOf b t g p <= nextIndexOf b' t g p;
  df_new : forall t g p o, is_Some (inFlightOf b' t g p !! o) ->
    is_Some (inFlightOf b t g p !! o) \/ nextIndexOf b t g p <= o
}.

Definition rr_ok (b : broker) : Prop := forall t g i, lookup2 (rrCursor b) t g = Some i -> 0 <= i.

(** Operations that change nothing the invariant speaks of (the log, the idempotency
    store, retry state, metrics, empty maps). *)
Record quiet (b b' : broker) : Prop := mkQuiet {
  q_topics : topics b' = topics b;
  q_chans : consumerChans b' = consumerChans b;
  q_max : maxInFlight b' = maxInFlight b;
  q_ack : ackTimeout b' = ackTimeout b;
  q_channels : channels b' = channels b;
  q_panic : panicked b' = panicked b;
  q_committed : forall t g p, committedOf b' t g p = committedOf b t g p;
  q_infl : forall t g p, inFlightOf b' t g p = inFlightOf b t g p;
  q_next : forall t g p, lookup3 (nextIndex b') t g p = lookup3 (nextIndex b) t g p;
  q_rr : rr_ok b -> rr_ok b'
}.

(** ** Preorders *)
#[export] Instance evolves_preorder : PreOrder evolves.
Proof.
  split.
  - intros b. split; intros; reflexivity.
  - intros b1 b2 b3 [L1 C1] [L2 C2]. split; intros; etrans; eauto.
Qed.

#[export] Instance dframe_preorder : PreOrder dframe.
Proof.
  split.
  - intros b. split; intros; done || by left.
  - intros b1 b2 b3 [] []. split; try congruence; try (intros; etrans; eauto; done).
    intros t g p o [Ho|Ho]%df_new1; [by apply df_new0|right].
    specialize (df_next0 t g p). lia.
Qed.

#[export] Instance quiet_preorder : PreOrder quiet.
Proof.
  split.
  - intros b. split; done.
  - intros b1 b2 b3 [] []. split; try congruence; [intros; etrans; eauto..|auto].
Qed.

Lemma dframe_evolves b b' : dframe b b' -> evolves b b'.
Proof. intros []. split; [|done]. intros t p. by rewrite df_topics0. Qed.

Lemma quiet_dframe b b' : quiet b b' -> dframe b b'.
Proof.
  intros []. split; try done; intros; rewrite ?q_infl0; try done.
  - unfold committedRaw. by rewrite q_committed0.
  - unfold nextIndexOf. by rewrite q_next0.
  - left. by rewrite <- q_infl0.
Qed.

Lemma quiet_wf b b' : quiet b b' -> wf b -> wf b'.
Proof.
  intros [T C M A Ch P O I N R] Hwf. pose proof (R (wf_rr Hwf)) as Hr.
  destruct Hwf. unfold wf. rewrite T, C, M, Ch, P.
  unfold inFlightOf in I. unfold committedOf in O. split; try done.
  - intros t g p n. rewrite N. eauto.
  - intros t g p off e. rewrite I, N. eauto.
  - intros t g p n i. rewrite I, N, O. eauto.
  - intros ? t g p. rewrite I. eauto.
Qed.

Lemma quiet_ok b b' : quiet b b' -> wf b -> wf b' /\ dframe b b'.
Proof. eauto using quiet_wf, quiet_dframe. Qed.

Lemma quiet_nextIndexOf b b' t g p : quiet b b' -> nextIndexOf b' t g p = nextIndexOf b t g p.
Proof. intros []. unfold nextIndexOf. by rewrite q_next0. Qed.
Lemma quiet_committedRaw b b' t g p : quiet b b' -> committedRaw b' t g p = committedRaw b t g p.
Proof. intros []. unfold committedRaw. by rewrite q_committed0. Qed.
Lemma quiet_streamsOf b b' t g : quiet b b' -> streamsOf b' t g = streamsOf b t g.
Proof. intros []. unfold streamsOf. by rewrite q_chans0. Qed.

Lemma wf_rr_range b t g : wf b -> 0 <= rrOf b t g.
Proof. intros []. unfold rrOf. destruct (lookup2 _ _ _) eqn:E; simpl; [eauto|lia]. Qed.

(** ** Quiet operations *)
Lemma quiet_appendWALEntry e b : quiet b (fst (appendWALEntry e b)).
Proof. unfold appendWALEntry. destruct (wal b); [|done]. by destruct (Append e w). Qed.

Lemma quiet_appendWALEntry_eq e b b' err : appendWALEntry e b = (b', err) -> quiet b b'.
Proof. intros E. pose proof (quiet_appendWALEntry e b) as Q. by rewrite E in Q. Qed.

Lemma quiet_queueOffset t g p o b : quiet b (queueOffsetPersistLocked t g p o b).
Proof. unfold queueOffsetPersistLocked, ensureOffsetFlushLoopLocked. by repeat case_match. Qed.

Lemma quiet_setRR t g i b : 0 <= i -> quiet b (setRR t g i b).
Proof.
  intros ?. split; try done. intros Hr t' g' i'. simpl.
  rewrite lookup2_insert2. case_decide; [naive_solver|]. apply Hr.
Qed.

Lemma quiet_putRetryState t g p o e b : quiet b (putRetryState t g p o e b).
Proof. done. Qed.
Lemma quiet_purgeRetryState t g p o b : quiet b (purgeRetryStateLocked t g p o b).
Proof. done. Qed.
Lemma quiet_recordDelivery t g p o at_ b : quiet b (recordDeliveryLocked t g p o at_ b).
Proof. done. Qed.
Lemma quiet_emit ev b : quiet b (emit ev b).
Proof. unfold emit. by destruct (metrics b). Qed.

Lemma quiet_recordRetry now t g p o e b : quiet b (recordRetry now t g p o e b).
Proof. unfold recordRetry. etrans; [apply quiet_putRetryState|apply quiet_appendWALEntry]. Qed.

Lemma quiet_withIdem {A} op b : quiet b (fst (withIdem (A:=A) op b)).
Proof. unfold withIdem. by destruct (op _ _) as [[??]?]. Qed.
Lemma quiet_withIdem_eq {A} op b b' (r : A) : withIdem op b = (b', r) -> quiet b b'.
Proof. intros E. pose proof (quiet_withIdem op b) as Q. by rewrite E in Q. Qed.

Lemma quiet_idemConsumeCheck now a t g k b : quiet b (fst (idemConsumeCheck now a t g k b)).
Proof. unfold idemConsumeCheck. by destruct (ConsumeCheck _ _ _ _ _ _). Qed.

(** The status lookup that both loops start with. *)
Lemma quiet_idemCheckOf now t g m b b' st :
  match idemKeyOf m with
  | Some (tenantID, idk) => idemConsumeCheck now tenantID t g idk b
  | None => (b, None)
  end = (b', st) -> quiet b b'.
Proof.
  destruct (idemKeyOf m) as [[a k]|]; [|by intros [= <- _]].
  intros E. pose proof (quiet_idemConsumeCheck now a t g k b) as Q. by rewrite E in Q.
Qed.

Lemma quiet_ensureInFlight t g p b : quiet b (ensureInFlight t g p b).
Proof. split; try done. intros. unfold inFlightOf. simpl. by rewrite get3_ensure3. Qed.
Lemma quiet_ensureNextIndex t g b : quiet b (ensureNextIndex t g b).
Proof. split; try done. intros. simpl. by rewrite lookup3_ensure2. Qed.
Lemma quiet_ensureCommitted t g b : quiet b (ensureCommitted t g b).
Proof. split; try done. intros. unfold committedOf. simpl. by rewrite lookup3_ensure2. Qed.

Lemma quiet_ensureRR t b : quiet b (set_rrCursor (ensure1 t (rrCursor b)) b).
Proof.
  split; try done. intros Hr t' g' i'. simpl.
  unfold lookup2. rewrite lookup2_ensure1. case_decide; subst; [|apply Hr].
  destruct (rrCursor b !! t') eqn:E; simpl; [|by rewrite lookup_empty].
  intros Hl. apply (Hr t' g' i'). unfold lookup2. by rewrite E.
Qed.

Hint Resolve quiet_appendWALEntry quiet_appendWALEntry_eq quiet_queueOffset quiet_setRR
  quiet_putRetryState quiet_purgeRetryState quiet_recordDelivery quiet_emit quiet_recordRetry
  quiet_withIdem quiet_withIdem_eq quiet_idemConsumeCheck quiet_idemCheckOf
  quiet_ensureInFlight quiet_ensureNextIndex quiet_ensureCommitted quiet_ensureRR
  quiet_wf quiet_dframe : go.

(** ** Committed offsets and next indices *)
Lemma committedRaw_setCommitted t g p o b t' g' p' :
  committedRaw (setCommitted t g p o b) t' g' p' =
  if decide (t = t' /\ g = g' /\ p = p') then o else committedRaw b t' g' p'.
Proof.
  unfold committedRaw, committedOf, setCommitted. simpl. rewrite lookup3_insert3.
  by case_decide.
Qed.

Lemma df_setCommitted t g p o b : committedRaw b t g p <= o -> dframe b (setCommitted t g p o b).
Proof.
  intros. split; try done; [|by left]. intros t' g' p'. rewrite committedRaw_setCommitted.
  case_decide; [naive_solver|lia].
Qed.

(** Raising a committed offset keeps the invariant. *)
Lemma wf_setCommitted' t g p o b :
  wf b -> committedRaw b t g p <= Z.max (-1) o -> wf (setCommitted t g p o b).
Proof.
  intros [] Ho. split; try done. simpl. intros t' g' p' n i Hn Hi.
  destruct (wf_acct0 _ _ _ _ _ Hn Hi) as [|Hc]; [by left|right].
  rewrite lookup3_insert3. case_decide; [|done].
  destruct_and!; subst. simpl. unfold committedRaw, committedOf in Ho. lia.
Qed.

Lemma wf_setCommitted t g p o b : wf b -> committedRaw b t g p <= o -> wf (setCommitted t g p o b).
Proof. intros. apply wf_setCommitted'; [done|lia]. Qed.

(** Forward, the next index may pass what is in flight or committed. *)
Lemma wf_setNextIndex t g p n b :
  wf b ->
  0 <= n <= zlen (logOf (topics b) t p) ->
  nextIndexOf b t g p <= n ->
  (forall i, default 0 (lookup3 (nextIndex b) t g p) <= i < n ->
     is_Some (inFlightOf b t g p !! i) \/ i <= committedRaw b t g p) ->
  wf (setNextIndex t g p n b).
Proof.
  intros [] Hn Hle Hacc. split; try done; simpl.
  - intros t' g' p' n'. rewrite lookup3_insert3. case_decide; [|by apply wf_next0].
    destruct_and!; subst. intros [= <-]. done.
  - intros t' g' p' off e He. destruct (wf_infl0 _ _ _ _ _ He) as (?&?&?&?).
    split_and!; try done; try lia. rewrite lookup3_insert3.
    case_decide; [|lia]. simpl. destruct_and!; subst. unfold nextIndexOf in Hle. lia.
  - intros t' g' p' n' i. rewrite lookup3_insert3. case_decide; [|by apply wf_acct0].
    destruct_and!; subst. intros [= <-] ?.
    destruct (lookup3 (nextIndex b) t' g' p') as [k|] eqn:E; simpl in *.
    + destruct (decide (i < k)); [eapply wf_acct0; [done|lia]|]. apply Hacc. lia.
    + apply Hacc. lia.
Qed.

Lemma nextIndexOf_setNextIndex t g p n b t' g' p' :
  nextIndexOf (setNextIndex t g p n b) t' g' p' =
  if decide (t = t' /\ g = g' /\ p = p') then n else nextIndexOf b t' g' p'.
Proof. unfold nextIndexOf, setNextIndex. simpl. rewrite lookup3_insert3. by case_decide. Qed.

Lemma df_setNextIndex t g p n b : nextIndexOf b t g p <= n -> dframe b (setNextIndex t g p n b).
Proof.
  intros Hn. split; try done; [|by left]. intros t' g' p'. rewrite nextIndexOf_setNextIndex.
  case_decide; [naive_solver|done].
Qed.

(** [commitForward] reaches [o] and touches neither next indices nor what is in flight. *)
Record commits (t g : string) (p o : Z) (b b' : broker) : Prop := mkCommits {
  cm_wf : wf b';
  cm_df : dframe b b';
  cm_reached : o <= committedRaw b' t g p;
  cm_other : forall t' g' p', ~ (t = t' /\ g = g' /\ p = p') ->
    committedOf b' t' g' p' = committedOf b t' g' p';
  cm_next : forall t g p, lookup3 (nextIndex b') t g p = lookup3 (nextIndex b) t g p;
  cm_infl : forall t g p, inFlightOf b' t g p = inFlightOf b t g p;
  cm_channels : channels b' = channels b
}.

Lemma commits_intro t g p o b b0 b' :
  wf b -> quiet b b0 ->
  (o <= committedRaw b t g p /\ b' = b0 \/
   committedRaw b t g p < o /\ quiet (setCommitted t g p o b0) b') ->
  commits t g p o b b'.
Proof.
  intros Hwf Q0 [[Hle ->]|[Hlt Q1]].
  - destruct (quiet_ok _ _ Q0 Hwf). pose proof (quiet_committedRaw _ _ t g p Q0). destruct Q0.
    split; auto. lia.
  - rewrite <- (quiet_committedRaw _ _ t g p Q0) in Hlt.
    assert (wf (setCommitted t g p o b0)) as Hwf1 by (apply wf_setCommitted; eauto with go lia).
    split.
    + by eapply quiet_wf.
    + etrans; [by apply quiet_dframe|]. etrans; [|by apply quiet_dframe].
      apply df_setCommitted. lia.
    + rewrite (quiet_committedRaw _ _ t g p Q1), committedRaw_setCommitted, decide_True by done. lia.
    + intros. rewrite (q_committed _ _ Q1), <- (q_committed _ _ Q0). unfold committedOf. simpl.
      by rewrite lookup3_insert3, decide_False.
    + intros. by rewrite (q_next _ _ Q1), <- (q_next _ _ Q0).
    + intros. by rewrite (q_infl _ _ Q1), <- (q_infl _ _ Q0).
    + by rewrite (q_channels _ _ Q1), <- (q_channels _ _ Q0).
Qed.

Lemma commitForward_commits t g p o b : wf b -> commits t g p o b (commitForward t g p o b).
Proof.
  intros Hwf. unfold commitForward.
  eapply commits_intro; [done|apply (quiet_ensureCommitted t g)|].
  rewrite (quiet_committedRaw _ _ t g p (quiet_ensureCommitted t g b)). destruct (Z.ltb_spec (committedRaw b t g p) o).
  - right. auto with go.
  - left. auto.
Qed.

(** ** In-flight entries *)
Lemma inFlightOf_putInFlight t g p o e b t' g' p' :
  inFlightOf (putInFlight t g p o e b) t' g' p' =
  if decide (t = t' /\ g = g' /\ p = p') then <[o := e]> (inFlightOf b t g p)
  else inFlightOf b t' g' p'.
Proof. unfold inFlightOf, putInFlight. simpl. by rewrite get3_insert3. Qed.

Lemma inFlightOf_deleteInFlight t g p o b t' g' p' :
  inFlightOf (deleteInFlight t g p o b) t' g' p' =
  if decide (t = t' /\ g = g' /\ p = p') then delete o (inFlightOf b t g p)
  else inFlightOf b t' g' p'.
Proof. unfold inFlightOf, deleteInFlight. simpl. by rewrite get3_insert3. Qed.

(** Overwriting an entry by one that carries the same message. *)
Lemma wf_updateInFlight t g p o e0 e b :
  wf b -> inFlightOf b t g p !! o = Some e0 -> same_message (Msg e) (Msg e0) ->
  wf (putInFlight t g p o e b).
Proof.
  intros [] He0 Hsm. split; try done; simpl.
  - intros t' g' p' o' e'. rewrite get3_insert3. case_decide as Hd; [|by apply wf_infl0].
    destruct Hd as (->&->&->). destruct (decide (o = o')) as [->|Hne].
    + rewrite lookup_insert_eq. intros [= ->]. destruct (wf_infl0 _ _ _ _ _ He0) as (?&?&?&m&?&?).
      split_and!; try done; try lia. exists m. split; [done|]. unfold same_message in *. by rewrite Hsm.
    + rewrite lookup_insert_ne by done. apply wf_infl0.
  - intros t' g' p' n i Hn Hi. destruct (wf_acct0 _ _ _ _ _ Hn Hi) as [Hs|]; [left|by right].
    rewrite get3_insert3. case_decide as Hd; [|done]. destruct Hd as (->&->&->).
    rewrite lookup_insert. case_decide; [by eexists|done].
  - intros Hmx t' g' p'. rewrite get3_insert3. case_decide as Hd; [|by apply wf_cap0].
    rewrite map_size_insert. rewrite He0. by apply wf_cap0.
Qed.

(** Removing the entry of a committed offset. *)
Lemma wf_deleteInFlight t g p o b :
  wf b -> o <= committedRaw b t g p -> wf (deleteInFlight t g p o b).
Proof.
  intros [] Ho. split; try done; simpl.
  - intros t' g' p' o' e'. rewrite get3_insert3. case_decide as Hd; [|by apply wf_infl0].
    destruct Hd as (->&->&->). intros [? ?]%lookup_delete_Some. by apply wf_infl0.
  - intros t' g' p' n i Hn Hi. destruct (wf_acct0 _ _ _ _ _ Hn Hi) as [Hs|]; [|by right].
    rewrite get3_insert3. case_decide as Hd; [|by left]. destruct Hd as (->&->&->).
    destruct (decide (o = i)) as [->|]; [by right|left]. by rewrite lookup_delete_ne.
  - intros Hmx t' g' p'. rewrite get3_insert3. case_decide as Hd; [|by apply wf_cap0].
    destruct Hd as (->&->&->). etrans; [|by apply wf_cap0].
    apply Nat2Z.inj_le, map_subseteq_size. apply delete_subseteq.
Qed.

(** A new delivery: the message at the next index becomes in flight. *)
Lemma wf_deliver t g p n m e b :
  wf b -> t <> "" -> g <> "" ->
  lookup3 (nextIndex b) t g p = Some n -> zlookup (logOf (topics b) t p) n = Some m ->
  same_message (Msg e) m -> inFlightOf b t g p !! n = None ->
  (0 < maxInFlight b -> Z.of_nat (size (inFlightOf b t g p)) < maxInFlight b) ->
  wf (setNextIndex t g p (n + 1) (putInFlight t g p n e b)).
Proof.
  intros [] Ht Hg Hn Hm Hsm Hnone Hcap. pose proof (zlookup_Some_lt _ _ _ Hm) as Hlt.
  split; try done; simpl.
  - intros t' g' p' n'. rewrite lookup3_insert3. case_decide as Hd; [|by apply wf_next0].
    destruct Hd as (->&->&->). intros [= <-]. lia.
  - intros t' g' p' o' e'. rewrite get3_insert3, lookup3_insert3.
    case_decide as Hd; [|by apply wf_infl0]. destruct Hd as (->&->&->). simpl.
    rewrite lookup_insert. case_decide as Ho; [|].
    + intros [= ->]. subst. split_and!; try done; try lia. eauto.
    + intros He. destruct (wf_infl0 _ _ _ _ _ He) as (?&?&Hr&?). rewrite Hn in Hr. simpl in Hr.
      split_and!; try done; lia.
  - intros t' g' p' n' i. rewrite get3_insert3, lookup3_insert3.
    case_decide as Hd; [|by apply wf_acct0]. destruct Hd as (->&->&->). intros [= <-] Hi.
    destruct (decide (n = i)) as [->|]; [left; by rewrite lookup_insert_eq|].
    rewrite lookup_insert_ne by done. eapply wf_acct0; [done|lia].
  - intros Hmx t' g' p'. rewrite get3_insert3. case_decide as Hd; [|by apply wf_cap0].
    rewrite map_size_insert, Hnone. simpl. specialize (Hcap Hmx). unfold inFlightOf in *. lia.
Qed.

Lemma df_deliver t g p n n' e b :
  inFlightOf b t g p !! n = None -> nextIndexOf b t g p <= n -> n <= n' ->
  dframe b (setNextIndex t g p n' (putInFlight t g p n e b)).
Proof.
  intros Hn Hle Hle'. split; try done.
  - intros t' g' p'.
    change (inFlightOf b t' g' p' ⊆ inFlightOf (putInFlight t g p n e b) t' g' p').
    rewrite inFlightOf_putInFlight. case_decide as Hd; [|done]. destruct Hd as (->&->&->).
    by apply insert_subseteq.
  - intros t' g' p'. rewrite nextIndexOf_setNextIndex. case_decide as Hd; [|done].
    destruct Hd as (->&->&->). lia.
  - intros t' g' p' o.
    change (is_Some (inFlightOf (putInFlight t g p n e b) t' g' p' !! o) ->
      is_Some (inFlightOf b t' g' p' !! o) \/ nextIndexOf b t' g' p' <= o).
    rewrite inFlightOf_putInFlight. case_decide as Hd; [|by left]. destruct Hd as (->&->&->).
    rewrite lookup_insert. case_decide; [subst; by right|by left].
Qed.

(** Taking a delivery back gives an equivalent state. *)
Lemma quiet_undeliver t g p n e b :
  lookup3 (nextIndex b) t g p = Some n -> inFlightOf b t g p !! n = None ->
  quiet b (setNextIndex t g p n (deleteInFlight t g p n
             (setNextIndex t g p (n + 1) (putInFlight t g p n e b)))).
Proof.
  intros Hn Hnone. split; try done; intros t' g' p'.
  - change (inFlightOf (deleteInFlight t g p n (putInFlight t g p n e b)) t' g' p' = inFlightOf b t' g' p').
    rewrite inFlightOf_deleteInFlight, !inFlightOf_putInFlight.
    case_decide as Hd; [|done]. destruct Hd as (->&->&->).
    rewrite decide_True by done. by rewrite delete_insert_id.
  - simpl. rewrite !lookup3_insert3. case_decide as Hd; [|done]. by destruct Hd as (->&->&->).
Qed.

(** ** Channels *)
Lemma wf_setChannel q c buf b :
  wf b -> channels b !! q = Some c -> zlen buf <= chanCap ->
  wf (set_channels (<[q := mkChan buf (ch_closed c)]> (channels b)) b).
Proof.
  intros [] Hq Hb. split; try done; simpl.
  - intros t g st Hst. destruct (wf_open0 _ _ _ Hst) as (?&c'&?&?). split; [done|].
    destruct (decide (q = cs_Ch st)) as [->|]; [|by exists c'; rewrite list_lookup_insert_ne].
    simplify_eq. eexists. rewrite list_lookup_insert_eq by by eapply lookup_lt_Some. done.
  - intros q' c' Hl. apply list_lookup_insert_Some in Hl as [(->&<-&?)|[? ?]]; [done|eauto].
Qed.

Lemma trySend_Sent q m b b' :
  trySend q m b = Sent b' ->
  exists c, channels b !! q = Some c /\ ch_closed c = false /\ zlen (ch_buf c) < chanCap /\
    b' = set_channels (<[q := mkChan (ch_buf c ++ [m]) false]> (channels b)) b.
Proof.
  unfold trySend. intros E. destruct (channels b !! q) as [c|]; [|done].
  destruct (ch_closed c) eqn:Ec; [done|].
  destruct (Z.ltb_spec (zlen (ch_buf c)) chanCap); [|done]. simplify_eq. eauto 6.
Qed.

Lemma wf_trySend q m b b' : wf b -> trySend q m b = Sent b' -> wf b' /\ dframe b b'.
Proof.
  intros Hwf (c&Hq&Hc&Hl&->)%trySend_Sent. split; [|by split; [..|left]]. rewrite <- Hc at 1.
  apply wf_setChannel; [done..|]. rewrite zlen_app. change (zlen [m]) with 1. lia.
Qed.

Lemma trySend_registered t g st m b :
  wf b -> st ∈ streamsOf b t g -> trySend (cs_Q st) m b <> SendPanic.
Proof.
  intros [] Hst. destruct (wf_open0 _ _ _ Hst) as (Hq&c&Hc&Ho). unfold trySend.
  rewrite Hq, Hc, Ho. by case_match.
Qed.
End inv.

#[export] Hint Resolve quiet_appendWALEntry quiet_appendWALEntry_eq quiet_queueOffset quiet_setRR
  quiet_putRetryState quiet_purgeRetryState quiet_recordDelivery quiet_emit quiet_recordRetry
  quiet_withIdem quiet_withIdem_eq quiet_idemConsumeCheck quiet_idemCheckOf
  quiet_ensureInFlight quiet_ensureNextIndex quiet_ensureCommitted quiet_ensureRR
  quiet_wf quiet_dframe : go.
