(* ===== verification/DispatchInv.v ===== *)
(** * Dispatching keeps the invariant

    One iteration of the message loop ([dispatchOne_spec]), the loop, and
    [dispatchFilteredLocked]: the result satisfies [wf], and [dframe] relates it to the
    state before. *)
From S2P Require Import Prelude Storage Idempotency BrokerTypes BrokerState Dispatch.
From S2P Require Import BrokerInv.

Lemma rem_range a n : 0 <= a -> 0 < n -> 0 <= Z.rem a n < n.
Proof. intros. rewrite Z.rem_mod_nonneg by lia. by apply Z.mod_pos_bound. Qed.

Section dispatch.
Context {W : Type} `{WAL W} `{MapOrder}.
Implicit Types b : @InMemoryBroker W.

(** ** The consumer chosen is one of the group's streams *)
Lemma tryCandidate_spec now t g a k n i cand l b b' r :
  0 <= i -> 0 < n -> tryCandidate now t g a k n i cand l b = (b', r) ->
  quiet b b' /\ (forall cs l', r = Some (Chosen cs l') -> cs = cand /\ l' = l).
Proof.
  intros Hi Hn E. unfold tryCandidate in E.
  destruct (withIdem _ _) as [b1 [[ad res] err]] eqn:E1.
  assert (quiet b b1) as Q1 by eauto with go.
  destruct err as [err|].
  - destruct (errors_Is _ _); simplify_eq; (split; [done|naive_solver]).
  - simplify_eq. split; [|by destruct ad; intros ?? [= <- <-]].
    etrans; [done|]. apply quiet_setRR. by apply rem_range; lia.
Qed.

Lemma leaseLoop_spec now t g a k chans start tries fb b b' c fb' :
  0 <= start -> leaseLoop now t g a k chans start tries fb b = (b', c, fb') ->
  (forall i, fb = Some i -> 0 <= i) ->
  quiet b b' /\ (forall cs l, c = Chosen cs l -> cs ∈ chans) /\ (forall i, fb' = Some i -> 0 <= i).
Proof.
  intros Hs. revert fb b. induction tries as [|x tries IH]; intros fb b E Hfb; simpl in E.
  { by simplify_eq. }
  destruct (zlookup chans (Z.rem (start + Z.of_nat x) (zlen chans))) as [cand|] eqn:Ec;
    [|by simplify_eq].
  pose proof (zlookup_Some_lt _ _ _ Ec) as Hr.
  assert (cand ∈ chans) as Hin.
  { unfold zlookup in Ec. case_decide; [|done]. by eapply list_elem_of_lookup_2. }
  destruct (_ =? 0) eqn:E0.
  - apply IH in E; [done|]. intros i. destruct fb; intros [= <-]; [eauto|lia].
  - destruct (tryCandidate _ _ _ _ _ _ _ _ _ _) as [b1 r] eqn:E1.
    apply tryCandidate_spec in E1 as [Q1 Hch]; [|lia..]. destruct r as [c1|].
    + simplify_eq. split_and!; try done. intros cs l ->. by destruct (Hch _ _ eq_refl) as [-> _].
    + apply IH in E; [|done]. destruct_and!. split_and!; try done. by etrans.
Qed.

Lemma chooseConsumer_spec now t g m b b' c :
  wf b -> chooseConsumer now t g (streamsOf b t g) m b = (b', c) ->
  quiet b b' /\ (forall cs l, c = Chosen cs l -> cs ∈ streamsOf b t g).
Proof.
  intros Hwf E. unfold chooseConsumer in E. set (chans := streamsOf b t g) in *.
  pose proof (wf_rr_range b t g Hwf) as Hr.
  assert (forall i cs, zlookup chans i = Some cs -> cs ∈ chans /\ 0 <= i < zlen chans) as Hz.
  { intros i cs Hl. split; [|by eapply zlookup_Some_lt].
    unfold zlookup in Hl. case_decide; [|done]. by eapply list_elem_of_lookup_2. }
  destruct (idemKeyOf m) as [[a k]|].
  - destruct (leaseLoop _ _ _ _ _ _ _ _ _ _) as [[b1 c1] fb1] eqn:E1.
    assert (0 <= Z.rem (rrOf b t g) (zlen chans)) as Hst.
    { destruct (decide (chans = [])) as [->|]; [change (zlen []) with 0; by rewrite Z.rem_0_r_ext by done|].
      apply rem_range; [done|]. unfold zlen. destruct chans; [done|simpl; lia]. }
    apply leaseLoop_spec in E1 as (Q&Hc&Hf); [|done..].
    destruct c1; simplify_eq; try (split; [done|]; naive_solver).
    destruct fb1 as [i|]; simplify_eq; [|split; [done|naive_solver]].
    destruct (zlookup chans i) as [cs|] eqn:Ei; simplify_eq; [|split; [done|naive_solver]].
    apply Hz in Ei as [? ?]. split; [|naive_solver].
    etrans; [done|]. apply quiet_setRR, rem_range; lia.
  - destruct (zlookup chans _) as [cs|] eqn:Ei; simplify_eq; [|split; [done|naive_solver]].
    apply Hz in Ei as [? ?]. split; [|naive_solver]. apply quiet_setRR, rem_range; lia.
Qed.

(** ** One iteration *)
(** What an iteration at index [n] does: on [LContinue] the index has moved one step,
    otherwise it stays. *)
Record iterates (t g : string) (p n : Z) (b b' : @InMemoryBroker W) (st : LoopStep) : Prop := mkIter {
  it_wf : wf b';
  it_df : dframe b b';
  it_next : lookup3 (nextIndex b') t g p = Some (match st with LContinue => n + 1 | _ => n end)
}.

Lemma iterates_stay t g p n b b' st :
  wf b -> quiet b b' -> lookup3 (nextIndex b) t g p = Some n -> st <> LContinue ->
  iterates t g p n b b' st.
Proof.
  intros Hwf Q Hn Hst. destruct (quiet_ok _ _ Q Hwf). split; [done..|].
  rewrite (q_next _ _ Q), Hn. by destruct st.
Qed.

Lemma skipCommitted_spec t g p n m b :
  wf b -> lookup3 (nextIndex b) t g p = Some n -> zlookup (logOf (topics b) t p) n = Some m ->
  m_Offset m = n -> iterates t g p n b (skipCommitted t g p m b) LContinue.
Proof.
  intros Hwf Hn Hm Ho. pose proof (zlookup_Some_lt _ _ _ Hm) as Hlt.
  pose proof (commitForward_commits t g p (m_Offset m) b Hwf) as [Cwf Cdf Cre _ Cnx Cin _].
  unfold skipCommitted. set (b1 := commitForward _ _ _ _ _) in *.
  assert (wf (purgeRetryStateLocked t g p (m_Offset m) b1)) as Hwf1 by (eapply quiet_wf; eauto with go).
  split; unfold advanceNext.
  - apply wf_setNextIndex; [done|..]; unfold nextIndexOf; simpl; rewrite Cnx, Hn, ?(df_topics _ _ Cdf);
      simpl; [lia..|]. intros i ?. right. assert (i = n) as -> by lia.
    change (n <= committedRaw b1 t g p). by rewrite <- Ho at 1.
  - etrans; [done|]. etrans; [apply quiet_dframe, (quiet_purgeRetryState t g p (m_Offset m))|].
    apply df_setNextIndex. lia.
  - simpl. rewrite lookup3_insert3, decide_True by done. unfold nextIndexOf. simpl.
    by rewrite Cnx, Hn.
Qed.

Lemma deliverLeased_spec now t g p n m cs lastErr b b' st :
  wf b -> lookup3 (nextIndex b) t g p = Some n -> zlookup (logOf (topics b) t p) n = Some m ->
  m_Offset m = n -> inFlightOf b t g p !! n = None -> cs ∈ streamsOf b t g ->
  deliverLeased now t g p m cs lastErr b = (b', st) -> iterates t g p n b b' st.
Proof.
  intros Hwf Hn Hm Ho Hnone Hcs E. unfold deliverLeased in E.
  destruct ((0 <? maxInFlight b) && _) eqn:Ecap.
  { simplify_eq. by apply iterates_stay. }
  rewrite Ho in E. set (e := mkInflight m now 1 zeroTime lastErr (cs_Owner cs)) in *.
  set (b1 := advanceNext _ _ _ _) in E.
  set (b0 := recordDeliveryLocked t g p (cs_Owner cs) (SentAt e) b).
  assert (b1 = setNextIndex t g p (n + 1) (putInFlight t g p n e b0)) as Hb1.
  { unfold b1, advanceNext, nextIndexOf. simpl. by rewrite Hn. }
  destruct (wf_names Hwf _ _ _ Hcs) as [Ht Hg].
  assert (wf b1) as Hwf1.
  { rewrite Hb1. eapply wf_deliver; [done..|]. intros.
    apply andb_false_iff in Ecap as [?%Z.ltb_ge|?%Z.leb_gt]; simpl in *; [lia|done]. }
  assert (dframe b b1) as Hdf1.
  { etrans; [apply quiet_dframe, (quiet_recordDelivery t g p (cs_Owner cs) (SentAt e))|].
    rewrite Hb1. apply df_deliver; [done| |lia]. unfold nextIndexOf. simpl. rewrite Hn. simpl. lia. }
  assert (cs ∈ streamsOf b1 t g) as Hcs1 by (by rewrite Hb1).
  clearbody b1.
  destruct (trySend _ _ _) as [b2| |] eqn:Es; injection E as <- <-.
  - destruct (wf_trySend _ _ _ _ Hwf1 Es) as [Hwf2 Hdf2].
    apply trySend_Sent in Es as (c&_&_&_&->).
    split; [done|by etrans|]. simpl. by rewrite Hb1; simpl; rewrite lookup3_insert3, decide_True by done.
  - apply iterates_stay; [done| |done..]. rewrite Hb1.
    unfold nextIndexOf. simpl. rewrite lookup3_insert3, decide_True by done. simpl.
    replace (n + 1 - 1) with n by lia.
    etrans; [|apply (quiet_undeliver t g p n e b0 Hn Hnone)]. apply quiet_recordDelivery.
  - by destruct (trySend_registered t g cs _ _ Hwf1 Hcs1 Es).
Qed.

Lemma deliverSimple_spec t g p n m cs lastErr b b' st :
  wf b -> lookup3 (nextIndex b) t g p = Some n -> zlookup (logOf (topics b) t p) n = Some m ->
  m_Offset m = n -> cs ∈ streamsOf b t g ->
  deliverSimple t g p m cs lastErr b = (b', st) -> iterates t g p n b b' st.
Proof.
  intros Hwf Hn Hm Ho Hcs E. unfold deliverSimple in E.
  destruct (trySend _ _ _) as [b1| |] eqn:Es; simplify_eq.
  - destruct (wf_trySend _ _ _ _ Hwf Es) as [Hwf1 Hdf1].
    apply trySend_Sent in Es as (c&_&_&_&->).
    destruct (skipCommitted_spec t g p (m_Offset m) m _ Hwf1 Hn Hm eq_refl) as [I1 I2 I3].
    split; [done|by etrans|done].
  - by apply iterates_stay.
  - by destruct (trySend_registered t g cs _ _ Hwf Hcs Es).
Qed.

Lemma logOf_offsets b t p n m :
  wf b -> zlookup (logOf (topics b) t p) n = Some m -> m_Offset m = n.
Proof.
  intros Hwf Hm. unfold logOf in Hm. destruct (topics b !! t) as [ts|] eqn:Et; simpl in Hm.
  - destruct (zlookup (partitions ts) p) as [l|] eqn:El; simpl in Hm; [by eapply (wf_offsets Hwf)|].
    by rewrite zlookup_nil in Hm.
  - by rewrite zlookup_nil in Hm.
Qed.

Lemma dispatchOne_spec now t g p n m b b' st :
  wf b -> lookup3 (nextIndex b) t g p = Some n -> zlookup (logOf (topics b) t p) n = Some m ->
  dispatchOne now t g p (streamsOf b t g) m b = (b', st) -> iterates t g p n b b' st.
Proof.
  intros Hwf Hn Hm E. pose proof (logOf_offsets _ _ _ _ _ Hwf Hm) as Ho.
  unfold dispatchOne in E.
  destruct (match idemKeyOf m with Some _ => _ | None => _ end) as [b1 st1] eqn:E1.
  assert (quiet b b1) as Q1 by eauto with go. clear E1.
  assert (wf b1) as Hwf1 by eauto with go.
  assert (forall b2 st2, iterates t g p n b1 b2 st2 -> iterates t g p n b b2 st2) as Htr.
  { intros b2 st2 []. split; try done. etrans; [by apply quiet_dframe|done]. }
  rewrite <- (q_next _ _ Q1) in Hn. rewrite <- (q_topics _ _ Q1) in Hm.
  rewrite <- (quiet_streamsOf _ _ t g Q1) in E. clear Hwf Q1.
  destruct (bool_decide _).
  { simplify_eq. by apply Htr, skipCommitted_spec. }
  destruct (inFlightOf b1 t g p !! m_Offset m) as [e|] eqn:Ein.
  { simplify_eq. apply Htr. pose proof (zlookup_Some_lt _ _ _ Hm). unfold advanceNext, nextIndexOf. rewrite Hn.
    split; [|apply df_setNextIndex; unfold nextIndexOf; rewrite Hn; simpl; lia|simpl; by rewrite lookup3_insert3, decide_True].
    apply wf_setNextIndex; [done|..]; unfold nextIndexOf; rewrite ?Hn; simpl; [lia..|].
    intros i ?. assert (i = m_Offset m) as -> by lia. left. by eexists. }
  destruct (chooseConsumer _ _ _ _ _ _) as [b2 c] eqn:E2.
  apply chooseConsumer_spec in E2 as [Q2 Hc]; [|done].
  assert (wf b2) as Hwf2 by eauto with go.
  assert (forall b3 st3, iterates t g p n b2 b3 st3 -> iterates t g p n b b3 st3) as Htr2.
  { intros b3 st3 []. apply Htr. split; try done. etrans; [by apply quiet_dframe|done]. }
  rewrite <- (q_next _ _ Q2) in Hn. rewrite <- (q_topics _ _ Q2) in Hm.
  rewrite <- (q_infl _ _ Q2) in Ein. rewrite <- (quiet_streamsOf _ _ t g Q2) in Hc.
  destruct c as [cs l| | |err]; simplify_eq; apply Htr2.
  - destruct (l =? 0).
    + eapply deliverSimple_spec; eauto.
    + eapply deliverLeased_spec; eauto.
  - by apply skipCommitted_spec.
  - by apply iterates_stay.
  - by apply iterates_stay; auto with go.
Qed.

(** ** The loops *)
Lemma dispatchLoop_spec k now t g p n b b' r :
  wf b -> lookup3 (nextIndex b) t g p = Some n ->
  dispatchLoop k now t g p (streamsOf b t g) (logOf (topics b) t p) b = (b', r) ->
  wf b' /\ dframe b b'.
Proof.
  revert n b. induction k as [|k IH]; intros n b Hwf Hn E; simpl in E; [by simplify_eq|].
  unfold nextIndexOf in E. rewrite Hn in E. simpl in E.
  destruct (zlookup (logOf _ _ _) n) as [m|] eqn:Em; [|by simplify_eq].
  destruct (dispatchOne _ _ _ _ _ _ _) as [b1 st] eqn:E1.
  destruct (dispatchOne_spec _ _ _ _ _ _ _ _ _ Hwf Hn Em E1) as [Hwf1 Hdf1 Hn1].
  destruct st; simplify_eq; try done.
  replace (streamsOf b t g) with (streamsOf b1 t g) in E
    by (unfold streamsOf; by rewrite (df_chans _ _ Hdf1)).
  rewrite <- (df_topics _ _ Hdf1) in E.
  destruct (IH _ _ Hwf1 Hn1 E). split; [done|by etrans].
Qed.

(** [length msgs] iterations are enough: more fuel does not change the result. *)
Lemma dispatchLoop_fuel k k' now t g p n b :
  wf b -> lookup3 (nextIndex b) t g p = Some n ->
  zlen (logOf (topics b) t p) - n <= Z.of_nat k -> zlen (logOf (topics b) t p) - n <= Z.of_nat k' ->
  dispatchLoop k now t g p (streamsOf b t g) (logOf (topics b) t p) b =
  dispatchLoop k' now t g p (streamsOf b t g) (logOf (topics b) t p) b.
Proof.
  assert (forall k n b, wf b -> lookup3 (nextIndex b) t g p = Some n ->
    zlen (logOf (topics b) t p) - n <= 0 ->
    dispatchLoop k now t g p (streamsOf b t g) (logOf (topics b) t p) b = (b, true)) as H0'.
  { intros [|k0] n0 b0 Hwf Hn Hle; simpl; [done|]. unfold nextIndexOf. rewrite Hn. simpl.
    destruct (zlookup _ n0) eqn:Em; [|done]. apply zlookup_Some_lt in Em. lia. }
  revert k' n b. induction k as [|k IH]; intros k' n b Hwf Hn Hk Hk'.
  { rewrite (H0' 0%nat n), (H0' k' n); [done|done|done|lia|done|done|lia]. }
  destruct k' as [|k'].
  { rewrite (H0' 0%nat n), (H0' (S k) n); [done|done|done|lia|done|done|lia]. }
  simpl. unfold nextIndexOf. rewrite Hn. simpl.
  destruct (zlookup (logOf _ _ _) n) as [m|] eqn:Em; [|done].
  destruct (dispatchOne _ _ _ _ _ _ _) as [b1 st] eqn:E1.
  destruct (dispatchOne_spec _ _ _ _ _ _ _ _ _ Hwf Hn Em E1) as [Hwf1 Hdf1 Hn1].
  destruct st; try done.
  replace (streamsOf b t g) with (streamsOf b1 t g) by (unfold streamsOf; by rewrite (df_chans _ _ Hdf1)).
  rewrite <- (df_topics _ _ Hdf1) in Hk, Hk' |- *. apply (IH _ (n + 1)); [done..|lia|lia].
Qed.

Lemma firstAfter_range msgs last : 0 <= firstAfter msgs last <= zlen msgs.
Proof.
  induction msgs as [|m msgs IH]; simpl; [done|]. unfold zlen in *. simpl.
  case_match; lia.
Qed.

Lemma firstAfter_le msgs last i m :
  zlookup msgs i = Some m -> i < firstAfter msgs last -> m_Offset m <= last.
Proof.
  revert i. induction msgs as [|m0 msgs IH]; intros i Hl Hi; simpl in *.
  { apply zlookup_Some_lt in Hl. lia. }
  destruct (Z.leb_spec (m_Offset m0) last); [|apply zlookup_Some_lt in Hl; lia].
  destruct (decide (i = 0)) as [->|]; [by injection Hl as ->|].
  apply (IH (i - 1)); [|lia]. unfold zlookup in *. repeat case_decide; try lia; [|done].
  replace (Z.to_nat i) with (S (Z.to_nat (i - 1))) in Hl by lia. done.
Qed.

(** The index it starts from is past everything committed, and before everything else. *)
Lemma firstAfter_gt msgs last m :
  zlookup msgs (firstAfter msgs last) = Some m -> last < m_Offset m.
Proof.
  induction msgs as [|m0 msgs IH]; simpl; [by rewrite zlookup_nil|].
  destruct (Z.leb_spec (m_Offset m0) last); [|by intros [= <-]].
  pose proof (firstAfter_range msgs last). unfold zlookup. repeat case_decide; try lia.
  replace (Z.to_nat (1 + firstAfter msgs last)) with (S (Z.to_nat (firstAfter msgs last))) by lia.
  simpl. intros Hl. apply IH. unfold zlookup. by rewrite decide_True by lia.
Qed.

Lemma initNextIndex_spec t g p b :
  wf b -> let b' := initNextIndex t g p (logOf (topics b) t p) b in
  wf b' /\ dframe b b' /\ exists n, lookup3 (nextIndex b') t g p = Some n.
Proof.
  intros Hwf. simpl. unfold initNextIndex. destruct (lookup3 _ _ _ _) as [n|] eqn:En; [by split_and!; [..|eauto]|].
  pose proof (firstAfter_range (logOf (topics b) t p) (committedRaw b t g p)).
  split_and!; [|apply df_setNextIndex; unfold nextIndexOf; rewrite En; simpl; lia|simpl; rewrite lookup3_insert3, decide_True by done; eauto].
  apply wf_setNextIndex; [done|lia|unfold nextIndexOf; rewrite En; simpl; lia|].
  intros i Hi. rewrite En in Hi. simpl in Hi. right.
  destruct (zlookup_is_Some (logOf (topics b) t p) i) as [m Hm]; [lia|].
  rewrite <- (logOf_offsets _ _ _ _ _ Hwf Hm). eapply firstAfter_le; [done|lia].
Qed.

Lemma logOf_lookup tps t ts p msgs :
  tps !! t = Some ts -> zlookup (partitions ts) p = Some msgs -> logOf tps t p = msgs.
Proof. intros Ht Hp. unfold logOf. by rewrite Ht; simpl; rewrite Hp. Qed.

Lemma dispatchPart_spec now t g p b b' r :
  wf b -> dispatchPart now t g p (streamsOf b t g) (logOf (topics b) t p) b = (b', r) ->
  wf b' /\ dframe b b'.
Proof.
  intros Hwf E. unfold dispatchPart in E.
  pose proof (quiet_ensureInFlight t g p b) as Q. set (b1 := ensureInFlight t g p b) in *.
  destruct (quiet_ok _ _ Q Hwf) as [Hwf1 Hdf1].
  destruct (initNextIndex_spec t g p b1 Hwf1) as (Hwf2&Hdf2&n&Hn). simpl in *.
  change (topics b1) with (topics b) in *. set (b2 := initNextIndex _ _ _ _ _) in *.
  replace (topics b) with (topics b2) in E by apply (df_topics _ _ Hdf2).
  replace (streamsOf b t g) with (streamsOf b2 t g) in E
    by (unfold streamsOf; by rewrite (df_chans _ _ Hdf2), (df_chans _ _ Hdf1)).
  apply (dispatchLoop_spec _ _ _ _ _ n) in E as [? ?]; [|done..].
  split; [done|]. by do 2 (etrans; [done|]).
Qed.

Lemma dispatchParts_spec now t g only ts p parts b b' r :
  wf b -> topics b !! t = Some ts -> (forall i l, zlookup parts i = Some l -> zlookup (partitions ts) (p + i) = Some l) ->
  dispatchParts now t g only (streamsOf b t g) p parts b = (b', r) -> wf b' /\ dframe b b'.
Proof.
  revert p b. induction parts as [|msgs parts IH]; intros p b Hwf Ht Hp E; simpl in E; [by simplify_eq|].
  assert (forall i l, zlookup parts i = Some l -> zlookup (partitions ts) (p + 1 + i) = Some l) as Hp'.
  { intros i l Hl. pose proof (zlookup_Some_lt _ _ _ Hl). replace (p + 1 + i) with (p + (i + 1)) by lia.
    apply Hp. unfold zlookup in *. repeat case_decide; try lia. by rewrite Z2Nat.inj_add by lia; rewrite Nat.add_comm. }
  destruct ((0 <=? only) && _); [by eapply IH|].
  destruct (dispatchPart _ _ _ _ _ _ _) as [b1 r1] eqn:E1.
  assert (wf b1 /\ dframe b b1) as [Hwf1 Hdf1].
  { eapply dispatchPart_spec; [done|]. erewrite logOf_lookup; [done..|].
    specialize (Hp 0 msgs eq_refl). by rewrite Z.add_0_r in Hp. }
  destruct r1; simplify_eq; [|done].
  replace (streamsOf b t g) with (streamsOf b1 t g) in E
    by (unfold streamsOf; by rewrite (df_chans _ _ Hdf1)).
  rewrite <- (df_topics _ _ Hdf1) in Ht. edestruct IH as [? ?]; [done..|]. split; [done|by etrans].
Qed.

Lemma dispatchGroup_spec now t g only ts b b' r :
  wf b -> topics b !! t = Some ts -> dispatchGroup now t g only (partitions ts) b = (b', r) ->
  wf b' /\ dframe b b'.
Proof.
  intros Hwf Ht E. unfold dispatchGroup in E. case_decide; [by simplify_eq|].
  set (b1 := ensureNextIndex _ _ _) in *.
  assert (quiet b b1) as Q by (etrans; [apply quiet_ensureRR|apply quiet_ensureNextIndex]).
  destruct (quiet_ok _ _ Q Hwf) as [Hwf1 Hdf1]. rewrite <- (quiet_streamsOf _ _ t g Q) in E.
  eapply dispatchParts_spec in E as [? ?]; [|done| |by intros].
  - split; [done|by etrans].
  - by rewrite (df_topics _ _ Hdf1).
Qed.

Lemma dispatchFilteredLocked_spec now t only b :
  wf b -> wf (dispatchFilteredLocked now t only b) /\ dframe b (dispatchFilteredLocked now t only b).
Proof.
  intros Hwf. unfold dispatchFilteredLocked. destruct (topics b !! t) as [ts|] eqn:Ht; [|done].
  destruct (consumerChans b !! t) as [gc|]; [|done]. generalize (order (dom gc)) as gs. clear gc.
  intros gs. revert b Hwf Ht. induction gs as [|g gs IH]; intros b Hwf Ht; simpl; [done|].
  destruct (dispatchGroup _ _ _ _ _ _) as [b1 r1] eqn:E1.
  destruct (dispatchGroup_spec _ _ _ _ _ _ _ _ Hwf Ht E1) as [Hwf1 Hdf1].
  destruct r1; [|done]. rewrite <- (df_topics _ _ Hdf1) in Ht.
  destruct (IH _ Hwf1 Ht) as [? ?]. split; [done|by etrans].
Qed.

Lemma dispatchPartitionLocked_wf now t p b : wf b -> wf (dispatchPartitionLocked now t p b).
Proof. apply dispatchFilteredLocked_spec. Qed.
Lemma dispatchPartitionLocked_df now t p b : wf b -> dframe b (dispatchPartitionLocked now t p b).
Proof. apply dispatchFilteredLocked_spec. Qed.
End dispatch.

#[export] Hint Resolve dispatchPartitionLocked_wf dispatchPartitionLocked_df : go.
