(* ===== verification/ProduceInv.v ===== *)
(** * Producing keeps the invariant

    Appending a message keeps offsets dense and the byte sums exact; creating a topic,
    producing and dead-letter publication keep [wf], and what they change is bounded by
    [pframe]: logs grow at their end, nothing in flight is lost. *)
From S2P Require Import Prelude Storage Idempotency BrokerTypes BrokerState Dispatch Produce.
From S2P Require Import BrokerInv DispatchInv.

(** ** Byte sums *)
Lemma prefixSums_snoc acc l m :
  prefixSums acc (l ++ [m]) = prefixSums acc l ++ [acc + sumBytes l + msgBytes m].
Proof.
  revert acc. induction l as [|m0 l IH]; intros acc; simpl; [by rewrite Z.add_0_r|].
  rewrite IH. do 3 f_equal. lia.
Qed.

Lemma length_prefixSums acc l : length (prefixSums acc l) = length l.
Proof. revert acc. induction l; intros; simpl; auto. Qed.

Lemma sumBytes_app l k : sumBytes (l ++ k) = sumBytes l + sumBytes k.
Proof. induction l; simpl; [done|]. rewrite IHl. lia. Qed.

Lemma zlookup_prefixSums acc l i :
  0 <= i < zlen l ->
  zlookup (prefixSums acc l) i = Some (acc + sumBytes (take (Z.to_nat (i + 1)) l)).
Proof.
  revert acc i. induction l as [|m l IH]; intros acc i Hi; unfold zlen in *; simpl in *; [lia|].
  replace (Z.to_nat (i + 1)) with (S (Z.to_nat i)) by lia. simpl.
  destruct (decide (i = 0)) as [->|].
  - unfold zlookup. simpl. f_equal. lia.
  - specialize (IH (acc + msgBytes m) (i - 1)). unfold zlookup in *. repeat case_decide; try lia.
    replace (Z.to_nat i) with (S (Z.to_nat (i - 1))) at 1 by lia. simpl. rewrite IH by lia.
    f_equal. replace (Z.to_nat (i - 1 + 1)) with (Z.to_nat i) by lia. lia.
Qed.

Lemma last_prefixSums acc l :
  last (prefixSums acc l) = if decide (l = []) then None else Some (acc + sumBytes l).
Proof.
  destruct l as [|m l _] using rev_ind; [done|]. rewrite prefixSums_snoc, last_snoc, sumBytes_app.
  rewrite decide_False by by destruct l. simpl. f_equal. lia.
Qed.

Lemma appendSum_prefixSums l m : appendSum (prefixSums 0 l) (msgBytes m) = prefixSums 0 (l ++ [m]).
Proof.
  unfold appendSum. rewrite last_prefixSums, prefixSums_snoc. by case_decide; [subst|].
Qed.

(** ** Logs *)
Lemma logOf_appendMessage tps t ts part m t' p' :
  tps !! t = Some ts -> 0 <= part < zlen (partitions ts) ->
  logOf (<[t := appendMessage ts part m]> tps) t' p' =
  if decide (t = t' /\ part = p') then logOf tps t part ++ [m] else logOf tps t' p'.
Proof.
  intros Ht Hp. unfold logOf. destruct (decide (t = t')) as [<-|].
  - rewrite lookup_insert_eq, Ht. simpl. rewrite zlookup_zinsert by lia.
    destruct (decide (part = p')) as [<-|].
    + by rewrite !decide_True by naive_solver.
    + by rewrite !decide_False by naive_solver.
  - by rewrite lookup_insert_ne, decide_False by naive_solver.
Qed.

Lemma logOf_newTopic tps t n cfg t' p' :
  tps !! t = None ->
  logOf (<[t := mkTopicState (replicate n []) (replicate n []) cfg]> tps) t' p' = logOf tps t' p'.
Proof.
  intros Ht. unfold logOf. destruct (decide (t = t')) as [<-|]; [|by rewrite lookup_insert_ne].
  rewrite lookup_insert_eq, Ht. simpl. unfold zlookup. case_decide; [|done].
  destruct (replicate n [] !! Z.to_nat p') as [l|] eqn:E; simpl; [|done]. by apply lookup_replicate in E as [-> _].
Qed.

Section produce.
Context {W : Type} `{WAL W} `{MapOrder}.
Implicit Types b : @InMemoryBroker W.

(** ** What producing may change *)
Record rframe b b' : Prop := mkRframe {
  rf_ev : evolves b b';
  rf_chans : consumerChans b' = consumerChans b;
  rf_max : maxInFlight b' = maxInFlight b;
  rf_ack : ackTimeout b' = ackTimeout b;
  rf_next : forall t g p, nextIndexOf b t g p <= nextIndexOf b' t g p
}.

Record pframe b b' : Prop := mkPframe {
  pf_rf : rframe b b';
  pf_infl : forall t g p, inFlightOf b t g p ⊆ inFlightOf b' t g p
}.

#[export] Instance rframe_preorder : PreOrder rframe.
Proof.
  split; [by intros b; split|]. intros b1 b2 b3 [] []. split; try congruence; [etrans; eauto|intros; etrans; eauto].
Qed.
#[export] Instance pframe_preorder : PreOrder pframe.
Proof.
  split; [by intros b; split|]. intros b1 b2 b3 [] []. split; intros; etrans; eauto.
Qed.

Lemma dframe_pframe b b' : dframe b b' -> pframe b b'.
Proof. intros Hd. pose proof (dframe_evolves _ _ Hd). destruct Hd. by split. Qed.
Lemma dframe_rframe b b' : dframe b b' -> rframe b b'.
Proof. intros Hd. by apply dframe_pframe. Qed.
Lemma quiet_pframe b b' : quiet b b' -> pframe b b'.
Proof. intros Q. by apply dframe_pframe, quiet_dframe. Qed.
Lemma quiet_rframe b b' : quiet b b' -> rframe b b'.
Proof. intros Q. by apply quiet_pframe. Qed.

(** ** Changing the topics *)
Lemma wf_newTopic t n cfg b :
  wf b -> topics b !! t = None ->
  wf (set_topics (<[t := mkTopicState (replicate n []) (replicate n []) cfg]> (topics b)) b).
Proof.
  intros [] Ht. split; try done; simpl.
  - intros t' ts p log i m. destruct (decide (t = t')) as [<-|]; [|by rewrite lookup_insert_ne; eauto].
    rewrite lookup_insert_eq. intros [= <-]. simpl. unfold zlookup at 1.
    case_decide; [|done]. intros [-> _]%lookup_replicate. by rewrite zlookup_nil.
  - intros t' ts p. destruct (decide (t = t')) as [<-|]; [|by rewrite lookup_insert_ne; eauto].
    rewrite lookup_insert_eq. intros [= <-]. simpl. unfold zlookup. case_decide; [|done].
    destruct (decide (Z.to_nat p < n)%nat).
    + by rewrite !lookup_replicate_2 by done.
    + by rewrite !lookup_ge_None_2 by (rewrite length_replicate; lia).
  - intros. rewrite logOf_newTopic by done. eauto.
  - intros t' g p off e. setoid_rewrite logOf_newTopic; [|done]. apply wf_infl.
Qed.

Lemma pf_newTopic t n cfg b :
  topics b !! t = None ->
  pframe b (set_topics (<[t := mkTopicState (replicate n []) (replicate n []) cfg]> (topics b)) b).
Proof. intros Ht. do 3 (split; try done). intros. simpl. by rewrite logOf_newTopic. Qed.

Lemma createTopicLocked_spec t n cfg b b' err :
  wf b -> createTopicLockedWithConfig t n cfg b = (b', err) -> wf b' /\ pframe b b'.
Proof.
  intros Hwf E. unfold createTopicLockedWithConfig in E. repeat case_match; simplify_eq; try done.
  eauto using wf_newTopic, pf_newTopic.
Qed.

Lemma wf_appendMessage t ts part log m b :
  wf b -> topics b !! t = Some ts -> zlookup (partitions ts) part = Some log ->
  let m' := set_m_position part (zlen log) m in
  let b' := set_topics (<[t := appendMessage ts part m']> (topics b)) b in
  wf b' /\ pframe b b'.
Proof.
  intros [] Ht Hlog m' b'. pose proof (zlookup_Some_lt _ _ _ Hlog) as Hp.
  assert (logOf (topics b) t part = log) as Hlo by (by eapply logOf_lookup).
  assert (forall t p, logOf (topics b) t p `prefix_of` logOf (topics b') t p) as Hpre.
  { intros t' p'. simpl. rewrite (logOf_appendMessage _ _ _ _ _ _ _ Ht Hp).
    case_decide as Hd; [|done]. destruct Hd as [-> ->]. by apply prefix_app_r. }
  assert (zlookup (partitionByteSums ts) part = Some (prefixSums 0 log)) as Hsum
    by (by rewrite (wf_sums _ _ _ Ht), Hlog).
  split; [|by do 3 (split; try done)]. split; try done; simpl.
  - intros t' ts' p l i x. destruct (decide (t = t')) as [<-|]; [|by rewrite lookup_insert_ne; eauto].
    rewrite lookup_insert_eq. intros [= <-]. simpl. rewrite zlookup_zinsert by lia. case_decide as Hd.
    + destruct Hd as [-> _]. intros [= <-]. rewrite Hlog. simpl.
      intros [[? ?]|[-> ->]]%zlookup_snoc_Some; [by eapply wf_offsets|done].
    + intros. by eapply wf_offsets.
  - intros t' ts' p. destruct (decide (t = t')) as [<-|]; [|by rewrite lookup_insert_ne; eauto].
    rewrite lookup_insert_eq. intros [= <-]. simpl. rewrite !zlookup_zinsert by lia.
    rewrite Hlog, Hsum. simpl. apply zlookup_Some_lt in Hsum as ?.
    destruct (decide (part = p)) as [<-|].
    + rewrite !decide_True by naive_solver. simpl. by rewrite appendSum_prefixSums.
    + rewrite !decide_False by naive_solver. by apply (wf_sums _ _ _ Ht).
  - intros t' g p n Hn. destruct (wf_next _ _ _ _ Hn) as [? Hle]. split; [done|]. etrans; [done|].
    unfold zlen. apply Nat2Z.inj_le. by apply prefix_length, (Hpre t' p).
  - intros t' g p off e He. destruct (wf_infl _ _ _ _ _ He) as (?&?&?&x&Hx&?).
    split_and!; try done; try lia. exists x. split; [|done].
    destruct (Hpre t' p) as [k Hk]. simpl in Hk. rewrite Hk, zlookup_app_l; [done|].
    apply zlookup_Some_lt in Hx. lia.
Qed.

(** ** produceLocked *)
Lemma fnvStep_range h c : 0 <= fnvStep h c < 2 ^ 32.
Proof. unfold fnvStep. apply Z.mod_pos_bound. lia. Qed.

Lemma fnv_range key h : 0 <= h < 2 ^ 32 -> 0 <= fold_left fnvStep key h < 2 ^ 32.
Proof. revert h. induction key; intros; simpl; [done|]. apply IHkey, fnvStep_range. Qed.

Lemma pickPartition_range key n : 0 < n -> 0 <= pickPartition key n < n.
Proof.
  intros Hn. unfold pickPartition. case_decide; [lia|].
  pose proof (fnv_range key fnvOffset32) as Hf. unfold fnvOffset32 in *.
  specialize (Hf ltac:(lia)). set (h := fold_left _ _ _) in *.
  pose proof (Z.mod_pos_bound n (2 ^ 32) ltac:(lia)).
  destruct (decide (n `mod` 2 ^ 32 = 0)) as [He|].
  - rewrite He, Z.mod_0_r. split; [lia|].
    destruct (decide (n < 2 ^ 32)); [|lia]. rewrite Z.mod_small in He by lia. lia.
  - pose proof (Z.mod_pos_bound h (n `mod` 2 ^ 32) ltac:(lia)).
    pose proof (Z.mod_le n (2 ^ 32)). lia.
Qed.

Lemma selectPartition_range msg n part :
  0 < n -> selectPartition msg n = inl part -> 0 <= part < n.
Proof.
  intros Hn. unfold selectPartition. destruct (_ ≫= _) as [po|].
  - destruct (_ || _) eqn:E; [done|]. intros [= <-].
    apply orb_false_iff in E as [?%Z.ltb_ge ?%Z.leb_gt]. lia.
  - intros [= <-]. by apply pickPartition_range.
Qed.

Lemma produceLocked_spec now t msg b b' err :
  wf b -> produceLocked now t msg b = (b', err) -> wf b' /\ pframe b b'.
Proof.
  intros Hwf E. unfold produceLocked in E. case_decide; [by simplify_eq|].
  destruct (topics b !! t) as [ts|] eqn:Ht; [|by simplify_eq].
  destruct (Z.leb_spec (zlen (partitions ts)) 0); [by simplify_eq|].
  destruct (selectPartition _ _) as [part|] eqn:Ep; [|by simplify_eq].
  apply selectPartition_range in Ep; [|done].
  destruct (admission _ _ _ _ _).
  { simplify_eq. split; [eauto with go|apply quiet_pframe; auto with go]. }
  destruct (zlookup_is_Some _ _ Ep) as [log Hlog]. rewrite Hlog in E. simpl in E.
  destruct (appendWALEntry _ _) as [b1 err1] eqn:E1. apply quiet_appendWALEntry_eq in E1 as Q.
  destruct err1; simplify_eq; [by eauto using quiet_pframe with go|].
  assert (wf b1) as Hwf1 by eauto with go. rewrite <- (q_topics _ _ Q) in Ht.
  destruct (wf_appendMessage _ _ _ _ msg _ Hwf1 Ht Hlog) as [Hwf2 Hpf2]. split; [by auto with go|].
  etrans; [by apply quiet_pframe|]. etrans; [done|]. apply dframe_pframe. auto with go.
Qed.

Lemma publishToDLQ_spec now t msg b b' err :
  wf b -> publishToDLQLocked now t msg b = (b', err) -> wf b' /\ pframe b b'.
Proof.
  intros Hwf E. unfold publishToDLQLocked in E. case_decide; [by simplify_eq|].
  destruct (HasPrefix _ _); [by simplify_eq|].
  destruct (match topics b !! dlqTopicName t with Some _ => _ | None => _ end) as [b1 err1] eqn:E1.
  assert (wf b1 /\ pframe b b1) as [Hwf1 Hpf1].
  { destruct (topics b !! dlqTopicName t); [by simplify_eq|]. by eapply createTopicLocked_spec. }
  destruct err1; simplify_eq; [done|].
  destruct (produceLocked_spec _ _ _ _ _ _ Hwf1 E). split; [done|by etrans].
Qed.

Lemma CreateTopicWithConfig_spec t n cfg b b' err :
  wf b -> CreateTopicWithConfig t n cfg b = (b', err) -> wf b' /\ pframe b b'.
Proof.
  intros Hwf E. unfold CreateTopicWithConfig in E. case_decide; [by simplify_eq|].
  destruct (n <=? 0) eqn:En; [by simplify_eq|].
  destruct (normalizeTopicConfig cfg) as [c|] eqn:Ec; [|by simplify_eq].
  destruct (topics b !! t) eqn:Ht; [by simplify_eq|].
  destruct (createTopicLockedWithConfig t n c b) as [b1 err1] eqn:E1.
  destruct (createTopicLocked_spec _ _ _ _ _ _ Hwf E1) as [Hwf1 Hpf1].
  destruct err1; [by simplify_eq|].
  destruct (appendWALEntry _ _) as [b2 err2] eqn:E2. apply quiet_appendWALEntry_eq in E2 as Q.
  destruct err2; simplify_eq.
  - (* the topic is taken back *)
    assert (quiet b (set_topics (delete t (topics b2)) b2)) as Q'.
    { unfold createTopicLockedWithConfig in E1. rewrite En, Ht in E1.
      destruct (decide (t = "")); [done|]. destruct (normalizeTopicConfig c); simplify_eq.
      destruct Q. split; try done. simpl. rewrite q_topics. simpl. by rewrite delete_insert_id. }
    eauto using quiet_pframe with go.
  - assert (quiet b1 (emit (IncTopicCreated t) b2)) as Q2 by (etrans; [done|auto with go]).
    split; [by eauto with go|]. etrans; [done|]. by apply quiet_pframe.
Qed.
End produce.
