(* ===== verification/WalReplay.v ===== *)
(** * Recovery (internal/broker/wal_replay.go)

    [NewInMemoryBrokerFromWAL] rebuilds the broker from the entries of the log, one case
    per record type, then purges the retry state of what is already acknowledged. *)
From S2P Require Import Prelude Storage Idempotency BrokerTypes BrokerState Dispatch Produce BrokerInv DispatchInv ProduceInv.

Section replay.
Context {W : Type} `{WAL W} `{MapOrder}.
Abbreviation broker := (@InMemoryBroker W).

(** [for len(parts) < n { parts = append(parts, nil) }]. *)
Definition growTo {A} (n : Z) (l : list (list A)) : list (list A) :=
  l ++ replicate (Z.to_nat (n - zlen l)) [].

Definition growTopic (n : Z) (ts : TopicState) : TopicState :=
  mkTopicState (growTo n (partitions ts)) (growTo n (partitionByteSums ts)) (Config ts).

Definition replayTopic (e : Entry) (b : broker) : broker :=
  if decide (Topic e = "" \/ Partition e <= 0) then b
  else
    let cfg := mkTopicConfig (TopicMode_ e) in
    match topics b !! Topic e with
    | None => fst (createTopicLockedWithConfig (Topic e) (Partition e) cfg b)
    | Some ts =>
      let ts := mkTopicState (growTo (Partition e) (partitions ts))
                  (growTo (Partition e) (partitionByteSums ts))
                  (match normalizeTopicConfig cfg with inl c => c | inr _ => Config ts end) in
      set_topics (<[Topic e := ts]> (topics b)) b
    end.

Definition offsetMismatch (e : Entry) (expected : Z) : error :=
  ENew ("wal replay: unexpected offset for topic=" +:+ Quote (Topic e) +:+ " partition="
        +:+ pretty (Partition e) +:+ ": got=" +:+ pretty (Offset e) +:+ " expected="
        +:+ pretty expected +:+ " (WAL likely from older version; reset it)").
Definition indexPanic : error := ESentinel "runtime.boundsError" "index out of range".

Definition messageFromEntry (e : Entry) : Message :=
  {| m_Offset := Offset e; m_Partition := Partition e; m_Key := Key e; m_Value := Value e;
     m_Envelope := envelopeFromEntry e;
     m_Routing :=
       if decide (RoutingLabel e <> "" \/ RoutingMeta e <> ∅)
       then Some (mkRouting (RoutingLabel e) (RoutingMeta e)) else None;
     m_Attempts := 0; m_LastError := "" |}.

(** The topic is created on the fly and grown to the message's partition; the offset must
    be the next one of that partition. *)
Definition replayMessage (now : Time) (e : Entry) (b : broker) : broker + error :=
  let ts := default (mkTopicState [] [] (mkTopicConfig TopicModeStandard)) (topics b !! Topic e) in
  let ts := growTopic (Partition e + 1) ts in
  match zlookup (partitions ts) (Partition e) with
  | None => inr indexPanic
  | Some log =>
    if negb (Offset e =? zlen log) then inr (offsetMismatch e (zlen log))
    else
      let m := messageFromEntry e in
      let b := match idemKeyOf m with
               | Some (tenantID, key) => set_idem (Commit now tenantID (Topic e) key [] (idem b)) b
               | None => b
               end in
      inl (set_topics (<[Topic e := appendMessage ts (Partition e) m]> (topics b)) b)
  end.

Definition replayOffset (e : Entry) (b : broker) : broker :=
  let b := ensureCommitted (Topic e) (Group e) b in
  match committedOf b (Topic e) (Group e) (Partition e) with
  | Some cur =>
    if cur <? Offset e then setCommitted (Topic e) (Group e) (Partition e) (Offset e) b else b
  | None => setCommitted (Topic e) (Group e) (Partition e) (Offset e) b
  end.

Definition replayRetryState (e : Entry) (b : broker) : broker :=
  if decide (Topic e = "" \/ Group e = "") then b
  else putRetryState (Topic e) (Group e) (Partition e) (Offset e)
         (mkRetry (LastError e) (default zeroTime (LastErrorAt e))) b.

(** PENDING leases are treated as expired: they are not restored. *)
Definition replayConsumeIdem (now : Time) (e : Entry) (b : broker) : broker :=
  if negb (bool_decide (IdempotencyScope e = IdemScopeConsume)) then b
  else if decide (Topic e = "" \/ Group e = "" \/ IdempotencyKey e = "") then b
  else
    let updatedAt := default now (UpdatedAt e) in
    let k := consumeKey (TenantID e) (Topic e) (Group e) (IdempotencyKey e) in
    if decide (IdempotencyStatus_ e = IdemStatusCommitted) then
      set_idem (put k (mkIdem IdemStatusCommitted (Result e) "" updatedAt "" zeroTime) (idem b)) b
    else if decide (IdempotencyStatus_ e = IdemStatusFailed) then
      set_idem (put k (mkIdem IdemStatusFailed [] (LastError e) updatedAt "" zeroTime) (idem b)) b
    else b.

Definition replayEntry (now : Time) (e : Entry) (b : broker) : broker + error :=
  match Type_ e with
  | RecordTypeTopic => inl (replayTopic e b)
  | RecordTypeMessage => replayMessage now e b
  | RecordTypeOffset => inl (replayOffset e b)
  | RecordTypeRetryState => inl (replayRetryState e b)
  | RecordTypeConsumeIdempotency => inl (replayConsumeIdem now e b)
  | RecordTypeUnknown _ => inl b
  end.

Fixpoint replayEntries (now : Time) (es : list Entry) (b : broker) : broker + error :=
  match es with
  | [] => inl b
  | e :: es =>
    match replayEntry now e b with
    | inr err => inr err
    | inl b => replayEntries now es b
    end
  end.

(** Retry state at or below a group's acknowledged offset must not come back. *)
Definition purgeAcked (b : broker) : broker :=
  foldl (fun b topic =>
    foldl (fun b group =>
      foldl (fun b partition =>
        purgeRetryStateLocked topic group partition (committedRaw b topic group partition) b)
        b (order (dom (get2 (consumerOffsets b) topic group))))
      b (order (dom (default ∅ (consumerOffsets b !! topic)))))
    b (order (dom (consumerOffsets b))).

Definition NewInMemoryBrokerFromWAL (now : Time) (w : option W) (opts : list (broker -> broker)) :
    broker + error :=
  let b := NewInMemoryBrokerWithWAL w opts in
  match w with
  | None => inl b
  | Some w =>
    match Replay w with
    | (_, inr err) => inr err
    | (w, inl entries) =>
      match replayEntries now entries (set_wal (Some w) b) with
      | inr err => inr err
      | inl b => inl (purgeAcked b)
      end
    end
  end.
End replay.

(** ** A recovered broker satisfies the invariant *)
Lemma zlookup_growTo {A} n (l : list (list A)) p :
  zlookup (growTo n l) p =
  match zlookup l p with
  | Some x => Some x
  | None => if decide (0 <= p < n) then Some [] else None
  end.
Proof.
  unfold growTo, zlookup, zlen. case_decide; [|case_decide; [lia|done]].
  destruct (l !! Z.to_nat p) as [x|] eqn:E; [by apply lookup_app_l_Some|].
  apply lookup_ge_None_1 in E. rewrite lookup_app_r by done. case_decide.
  - apply lookup_replicate_2. lia.
  - apply lookup_ge_None_2. rewrite length_replicate. lia.
Qed.

Lemma zlen_growTo {A} n (l : list (list A)) : zlen (growTo n l) = Z.max n (zlen l).
Proof. unfold growTo. rewrite zlen_app. unfold zlen. rewrite length_replicate. lia. Qed.

Lemma logOf_grow tps t n cfg sums t' p' :
  logOf (<[t := mkTopicState (growTo n (default [] (partitions <$> tps !! t))) sums cfg]> tps) t' p' =
  logOf tps t' p'.
Proof.
  unfold logOf. destruct (decide (t = t')) as [<-|]; [|by rewrite lookup_insert_ne].
  rewrite lookup_insert_eq. simpl. rewrite zlookup_growTo. destruct (tps !! t) as [ts|]; simpl.
  - destruct (zlookup (partitions ts) p'); [done|]. by case_decide.
  - rewrite zlookup_nil. by case_decide.
Qed.

Section replay.
Context {W : Type} `{WAL W} `{MapOrder}.
Implicit Types b : @InMemoryBroker W.

Lemma wf_growTopic t n cfg b :
  wf b ->
  wf (set_topics (<[t := mkTopicState (growTo n (default [] (partitions <$> topics b !! t)))
                     (growTo n (default [] (partitionByteSums <$> topics b !! t))) cfg]> (topics b)) b).
Proof.
  intros [] . split; try done; simpl.
  - intros t' ts p log i m. destruct (decide (t = t')) as [<-|]; [|by rewrite lookup_insert_ne; eauto].
    rewrite lookup_insert_eq. intros [= <-]. simpl. rewrite zlookup_growTo.
    destruct (topics b !! t) as [ts0|] eqn:Ets; simpl.
    + destruct (zlookup (partitions ts0) p) as [l|] eqn:El; [intros [= <-]; eauto|].
      case_decide; [|done]. intros [= <-]. by rewrite zlookup_nil.
    + rewrite zlookup_nil. case_decide; [|done]. intros [= <-]. by rewrite zlookup_nil.
  - intros t' ts p. destruct (decide (t = t')) as [<-|]; [|by rewrite lookup_insert_ne; eauto].
    rewrite lookup_insert_eq. intros [= <-]. simpl. rewrite !zlookup_growTo.
    destruct (topics b !! t) as [ts0|] eqn:Ets; simpl.
    + rewrite (wf_sums _ _ p Ets). destruct (zlookup (partitions ts0) p); simpl; [done|]. by case_decide.
    + rewrite !zlookup_nil. by case_decide.
  - intros. rewrite logOf_grow. eauto.
  - intros t' g p off e. setoid_rewrite logOf_grow. apply wf_infl.
Qed.

Lemma messageFromEntry_position e :
  set_m_position (Partition e) (Offset e) (messageFromEntry e) = messageFromEntry e.
Proof. done. Qed.

Lemma set_idem_quiet s b : quiet b (set_idem s b).
Proof. done. Qed.

Lemma set_topics_twice t ts ts' b :
  set_topics (<[t := ts']> (topics b)) b =
  set_topics (<[t := ts']> (topics (set_topics (<[t := ts]> (topics b)) b)))
    (set_topics (<[t := ts]> (topics b)) b).
Proof. unfold set_topics. simpl. by rewrite insert_insert_eq. Qed.

Lemma wf_replayMessage now e b b' : wf b -> replayMessage now e b = inl b' -> wf b'.
Proof.
  intros Hwf E. unfold replayMessage in E.
  set (ts0 := default _ (topics b !! Topic e)) in E.
  set (ts := growTopic (Partition e + 1) ts0) in E.
  assert (wf (set_topics (<[Topic e := ts]> (topics b)) b)) as Hwf1.
  { pose proof (wf_growTopic (Topic e) (Partition e + 1) (Config ts0) b Hwf) as Hg.
    unfold ts, growTopic, ts0 in *. by destruct (topics b !! Topic e). }
  destruct (zlookup (partitions ts) (Partition e)) as [log|] eqn:Hlog; [|done].
  destruct (Z.eqb_spec (Offset e) (zlen log)) as [Ho|]; [|done]. simpl in E.
  set (b1 := match idemKeyOf _ with Some _ => _ | None => _ end) in E.
  assert (exists s, b1 = set_idem s b) as [s Hb1].
  { unfold b1. destruct (idemKeyOf _) as [[a k]|]; [by eexists|]. exists (idem b). by destruct b. }
  rewrite Hb1 in E. clearbody b1. simplify_eq.
  assert (wf (set_topics (<[Topic e := ts]> (topics b)) (set_idem s b))) as Hwf2 by apply Hwf1.
  destruct (wf_appendMessage (Topic e) ts (Partition e) log (messageFromEntry e) _ Hwf2) as [Hwf3 _];
    [by simpl; rewrite lookup_insert_eq|done|].
  rewrite <- Ho, messageFromEntry_position in Hwf3.
  change (topics (set_idem s b)) with (topics b) in *.
  simpl in Hwf3. rewrite insert_insert_eq in Hwf3. exact Hwf3.
Qed.

Lemma wf_replayEntry now e b b' : wf b -> replayEntry now e b = inl b' -> wf b'.
Proof.
  intros Hwf E. unfold replayEntry in E. destruct (Type_ e).
  - by eapply wf_replayMessage.
  - simplify_eq. unfold replayOffset.
    pose proof (quiet_ensureCommitted (Topic e) (Group e) b) as Q. set (b1 := ensureCommitted _ _ _) in *.
    assert (wf b1) as Hwf1 by eauto with go. destruct (committedOf b1 _ _ _) as [cur|] eqn:Ec.
    + destruct (Z.ltb_spec cur (Offset e)); [|done]. apply wf_setCommitted; [done|].
      unfold committedRaw. rewrite Ec. simpl. lia.
    + apply wf_setCommitted'; [done|]. unfold committedRaw. rewrite Ec. simpl. lia.
  - simplify_eq. unfold replayTopic. case_decide; [done|]. destruct (topics b !! Topic e) as [ts|] eqn:Ht.
    + pose proof (wf_growTopic (Topic e) (Partition e)
        (match normalizeTopicConfig (mkTopicConfig (TopicMode_ e)) with inl c => c | inr _ => Config ts end)
        b Hwf) as Hg. by rewrite Ht in Hg.
    + destruct (createTopicLockedWithConfig _ _ _ _) as [b1 err] eqn:E1.
      by destruct (createTopicLocked_spec _ _ _ _ _ _ Hwf E1).
  - simplify_eq. unfold replayRetryState. case_decide; [done|]. eauto with go.
  - simplify_eq. unfold replayConsumeIdem. repeat case_match; eauto using set_idem_quiet with go.
  - by simplify_eq.
Qed.

Lemma wf_replayEntries now es b b' : wf b -> replayEntries now es b = inl b' -> wf b'.
Proof.
  revert b. induction es as [|e es IH]; intros b Hwf E; simpl in E; [by simplify_eq|].
  destruct (replayEntry now e b) as [b1|] eqn:E1; [|done]. eapply IH; [|done]. by eapply wf_replayEntry.
Qed.

Lemma quiet_foldl {A} (f : InMemoryBroker -> A -> InMemoryBroker) l b :
  (forall b x, quiet b (f b x)) -> quiet b (foldl f b l).
Proof.
  intros Hf. revert b. induction l as [|x l IH]; intros b; simpl; [done|]. etrans; [apply Hf|apply IH].
Qed.

Lemma quiet_purgeAcked b : quiet b (purgeAcked b).
Proof. unfold purgeAcked. do 3 (apply quiet_foldl; intros). apply quiet_purgeRetryState. Qed.

(** The options of the constructors. *)
Inductive is_option : (@InMemoryBroker W -> @InMemoryBroker W) -> Prop :=
| opt_bytes n : is_option (WithMaxPartitionBytes n)
| opt_msgs n : is_option (WithMaxPartitionMsgs n)
| opt_inflight n : is_option (WithMaxInFlight n)
| opt_ack d : is_option (WithAckTimeout d)
| opt_tick d : is_option (WithRedeliverTick d)
| opt_router r : is_option (WithRouter r)
| opt_metrics on : is_option (WithMetricsSink on).

(** A broker without consumers or deliveries stays so under every option. *)
Definition fresh b : Prop :=
  topics b = ∅ /\ consumerOffsets b = ∅ /\ consumerChans b = ∅ /\ rrCursor b = ∅ /\ inFlight b = ∅ /\
  nextIndex b = ∅ /\ channels b = [] /\ panicked b = false.

Lemma fresh_new w opts : Forall is_option opts -> fresh (NewInMemoryBrokerWithWAL w opts).
Proof.
  unfold NewInMemoryBrokerWithWAL, applyBrokerOptions.
  assert (fresh (NewInMemoryBrokerWithWALAndRouter w None)) as Hf by done.
  revert Hf. generalize (NewInMemoryBrokerWithWALAndRouter w None).
  induction opts as [|o opts IH]; intros b Hf Ho; simpl; [done|]. inv Ho. apply IH; [|done].
  match goal with Hx : is_option o |- _ => destruct Hx end;
    unfold WithAckTimeout, WithRedeliverTick; repeat case_match; done.
Qed.

Lemma fresh_wf b : fresh b -> wf b.
Proof.
  intros (T&O&C&R&I&N&Ch&P). unfold wf. rewrite T, O, C, R, I, N, Ch, P.
  split; try (intros; set_solver); try done.
  intros Hmx t g p. change (get3 ∅ t g p) with (∅ : gmap Z inflightEntry). rewrite map_size_empty. lia.
Qed.

Lemma wf_new w opts : Forall is_option opts -> wf (NewInMemoryBrokerWithWAL w opts).
Proof. intros. by apply fresh_wf, fresh_new. Qed.

Lemma wf_recovered now w opts b :
  Forall is_option opts -> NewInMemoryBrokerFromWAL now w opts = inl b -> wf b.
Proof.
  intros Ho E. unfold NewInMemoryBrokerFromWAL in E. pose proof (wf_new w opts Ho) as Hwf.
  destruct w as [w|]; [|by simplify_eq]. destruct (Replay w) as [w' [es|]]; [|done].
  destruct (replayEntries _ _ _) as [b1|] eqn:E1; [|done]. simplify_eq.
  apply (quiet_wf b1); [apply quiet_purgeAcked|]. eapply wf_replayEntries; [|done]. exact Hwf.
Qed.
End replay.
