(* ===== verification/RedeliveryInv.v ===== *)
(** * Redelivery keeps the invariant

    Settling an entry (committed elsewhere, or dead-lettered), recording an error on it,
    resending it, and the loops of [redeliverExpiredLocked]. *)
From S2P Require Import Prelude Storage Idempotency BrokerTypes BrokerState Dispatch Produce.
From S2P Require Import Redelivery BrokerInv DispatchInv ProduceInv.

Section redelivery.
Context {W : Type} `{WAL W} `{MapOrder}.
Implicit Types b : @InMemoryBroker W.

(** Well-formed, and only changed as redelivery and acknowledgement may. *)
Definition rok b b' : Prop := wf b' /\ rframe b b'.

Lemma rok_trans b1 b2 b3 : rok b1 b2 -> rok b2 b3 -> rok b1 b3.
Proof. intros [? ?] [? ?]. split; [done|by etrans]. Qed.
Lemma rok_refl b : wf b -> rok b b.
Proof. by split. Qed.
Lemma rok_quiet b b' : quiet b b' -> wf b -> rok b b'.
Proof. split; eauto using quiet_rframe with go. Qed.
Lemma rok_quiet_l b1 b2 b3 : quiet b1 b2 -> rok b2 b3 -> rok b1 b3.
Proof. intros Q [? ?]. split; [done|]. etrans; [by apply quiet_rframe|done]. Qed.
Lemma rok_dispatch now t p b : wf b -> rok b (dispatchPartitionLocked now t p b).
Proof. split; [auto with go|]. apply dframe_rframe. auto with go. Qed.

(** ** Acknowledging an offset: the in-flight entry goes, the committed offset rises *)
Definition staleAt t g p o b : bool :=
  match committedOf b t g p with Some cur => o <=? cur | None => false end.

Definition ackCore t g p o b : InMemoryBroker :=
  let b1 := deleteInFlight t g p o (ensureCommitted t g b) in
  if staleAt t g p o b then b1 else queueOffsetPersistLocked t g p o (setCommitted t g p o b1).

Lemma rf_deleteInFlight t g p o b : rframe b (deleteInFlight t g p o b).
Proof. done. Qed.
Lemma rf_putInFlight t g p o e b : rframe b (putInFlight t g p o e b).
Proof. done. Qed.

Lemma commitDelete_spec t g p o b :
  wf b -> committedRaw b t g p <= o ->
  let b' := queueOffsetPersistLocked t g p o (setCommitted t g p o (deleteInFlight t g p o b)) in
  rok b b' /\ committedRaw b' t g p = o.
Proof.
  intros Hwf Ho b'. split.
  - assert (wf (setCommitted t g p o b)) as Hwf1 by by apply wf_setCommitted.
    apply (rok_trans _ (setCommitted t g p o b)).
    { split; [done|]. by apply dframe_rframe, df_setCommitted. }
    apply (rok_trans _ (deleteInFlight t g p o (setCommitted t g p o b))).
    { split; [|done]. apply wf_deleteInFlight; [done|].
      by rewrite committedRaw_setCommitted, decide_True. }
    apply rok_quiet; [apply quiet_queueOffset|]. apply wf_deleteInFlight; [done|].
    by rewrite committedRaw_setCommitted, decide_True.
  - unfold b'. rewrite (quiet_committedRaw _ _ t g p (quiet_queueOffset t g p o _)).
    by rewrite committedRaw_setCommitted, decide_True.
Qed.

Lemma ackCore_spec t g p o b :
  wf b -> 0 <= o ->
  rok b (ackCore t g p o b) /\ committedRaw (ackCore t g p o b) t g p = Z.max o (committedRaw b t g p).
Proof.
  intros Hwf Ho. unfold ackCore.
  pose proof (quiet_ensureCommitted t g b) as Q. set (b1 := ensureCommitted t g b) in *.
  assert (wf b1) as Hwf1 by eauto with go.
  pose proof (quiet_committedRaw _ _ t g p Q) as Hc1.
  assert (staleAt t g p o b = (o <=? committedRaw b t g p)) as ->.
  { unfold staleAt, committedRaw. destruct (committedOf b t g p); simpl; [done|]. lia. }
  destruct (Z.leb_spec o (committedRaw b t g p)).
  - split.
    + apply (rok_quiet_l _ b1); [done|]. split; [|done]. apply wf_deleteInFlight; [done|lia].
    + change (committedRaw b1 t g p = Z.max o (committedRaw b t g p)). lia.
  - destruct (commitDelete_spec t g p o b1) as [Hok ->]; [done|lia|].
    split; [by apply (rok_quiet_l _ b1)|lia].
Qed.

(** What is in flight afterwards. *)
Lemma inFlightOf_ackCore t g p o b t' g' p' :
  inFlightOf (ackCore t g p o b) t' g' p' =
  if decide (t = t' /\ g = g' /\ p = p') then delete o (inFlightOf b t g p)
  else inFlightOf b t' g' p'.
Proof.
  unfold ackCore. destruct (staleAt _ _ _ _ _).
  - by rewrite inFlightOf_deleteInFlight.
  - rewrite (q_infl _ _ (quiet_queueOffset t g p o _)).
    change (inFlightOf (deleteInFlight t g p o (ensureCommitted t g b)) t' g' p' =
      if decide (t = t' /\ g = g' /\ p = p') then delete o (inFlightOf b t g p)
      else inFlightOf b t' g' p').
    by rewrite inFlightOf_deleteInFlight.
Qed.

(** An in-flight entry is at a valid position. *)
Lemma inflight_valid t g p o e b :
  wf b -> inFlightOf b t g p !! o = Some e ->
  t <> "" /\ g <> "" /\ 0 <= o /\
  exists ts, topics b !! t = Some ts /\ 0 <= p < zlen (partitions ts).
Proof.
  intros Hwf He. destruct (wf_infl Hwf _ _ _ _ _ He) as (?&?&[? _]&m&Hm&_).
  split_and!; try done. unfold logOf in Hm. destruct (topics b !! t) as [ts|]; simpl in Hm;
    [|by rewrite zlookup_nil in Hm].
  destruct (zlookup (partitions ts) p) as [l|] eqn:El; simpl in Hm; [|by rewrite zlookup_nil in Hm].
  exists ts. split; [done|]. by eapply zlookup_Some_lt.
Qed.

(** [advanceOffsetLocked] never refuses an in-flight position. *)
Lemma settle_eq now t g p o e b :
  wf b -> inFlightOf b t g p !! o = Some e ->
  settle now t g p o b =
  purgeRetryStateLocked t g p o
    (if staleAt t g p o b then ackCore t g p o b
     else dispatchPartitionLocked now t p (ackCore t g p o b)).
Proof.
  intros Hwf He. destruct (inflight_valid _ _ _ _ _ _ Hwf He) as (Ht&Hg&Ho&ts&Hts&Hp).
  unfold settle, advanceOffsetLocked, ackCore. rewrite !decide_False by done.
  destruct (Z.ltb_spec p 0); [lia|]. destruct (Z.ltb_spec o 0); [lia|].
  simpl. rewrite Hts. destruct (Z.leb_spec (zlen (partitions ts)) p); [lia|].
  assert (committedOf (ensureCommitted t g (deleteInFlight t g p o b)) t g p = committedOf b t g p) as ->.
  { unfold committedOf. simpl. by rewrite lookup3_ensure2. }
  unfold staleAt. destruct (committedOf b t g p) as [cur|]; [|done]. by destruct (o <=? cur).
Qed.

Lemma settle_rok now t g p o e b :
  wf b -> inFlightOf b t g p !! o = Some e -> rok b (settle now t g p o b).
Proof.
  intros Hwf He. rewrite (settle_eq _ _ _ _ _ _ _ Hwf He).
  destruct (inflight_valid _ _ _ _ _ _ Hwf He) as (_&_&Ho&_).
  destruct (ackCore_spec t g p o b Hwf Ho) as [[Hwf1 Hrf1] _].
  assert (rok b (if staleAt t g p o b then ackCore t g p o b
                 else dispatchPartitionLocked now t p (ackCore t g p o b))) as [Hwf2 Hrf2].
  { destruct (staleAt _ _ _ _ _); [done|]. eapply rok_trans; [done|]. by apply rok_dispatch. }
  apply (rok_trans _ _ _ (conj Hwf2 Hrf2)), rok_quiet; auto with go.
Qed.

(** ** Recording an error on an entry, resending it *)
Lemma putInFlight_rok t g p o e0 e b :
  wf b -> inFlightOf b t g p !! o = Some e0 -> same_message (Msg e) (Msg e0) ->
  rok b (putInFlight t g p o e b).
Proof. intros. split; [|done]. by eapply wf_updateInFlight. Qed.

Lemma noteError_rok now t g p o err e0 e b :
  wf b -> inFlightOf b t g p !! o = Some e0 -> same_message (Msg e) (Msg e0) ->
  rok b (noteError now t g p o err e b).
Proof.
  intros Hwf He Hsm. unfold noteError.
  destruct (putInFlight_rok t g p o e0 (withLastError err e) b Hwf He Hsm) as [Hwf1 Hrf1].
  apply (rok_trans _ _ _ (conj Hwf1 Hrf1)), rok_quiet; auto with go.
Qed.

Lemma inFlightOf_noteError now t g p o err e b :
  inFlightOf (noteError now t g p o err e b) t g p !! o = Some (withLastError err e).
Proof.
  unfold noteError. rewrite (q_infl _ _ (quiet_recordRetry _ _ _ _ _ _ _)).
  rewrite inFlightOf_putInFlight, decide_True by done. by rewrite lookup_insert_eq.
Qed.

Lemma markTimeout_spec now t g p o e b e' b' :
  wf b -> inFlightOf b t g p !! o = Some e -> markTimeout now t g p o e b = (e', b') ->
  rok b b' /\ inFlightOf b' t g p !! o = Some e'.
Proof.
  intros Hwf He E. unfold markTimeout in E. case_decide; simplify_eq.
  - pose proof (quiet_emit (IncLeaseTimeout t g) b) as Q. split; [|apply inFlightOf_noteError].
    eapply rok_quiet_l; [done|]. eapply noteError_rok; [by eauto with go| |done].
    by rewrite (q_infl _ _ Q).
  - split; [by apply rok_refl|done].
Qed.

Lemma resend_rok now t g p o cs e b :
  wf b -> inFlightOf b t g p !! o = Some e -> cs ∈ streamsOf b t g ->
  rok b (resend now t g p o cs e b).
Proof.
  intros Hwf He Hcs. unfold resend. set (e' := retriedEntry now cs e).
  set (b1 := emit _ _).
  assert (quiet b b1) as Q by (etrans; [apply quiet_recordDelivery|apply quiet_emit]).
  apply (rok_quiet_l _ b1); [done|]. rewrite <- (q_infl _ _ Q) in He.
  rewrite <- (quiet_streamsOf _ _ t g Q) in Hcs. assert (wf b1) as Hwf1 by eauto with go.
  destruct (putInFlight_rok t g p o e e' b1 Hwf1 He eq_refl) as [Hwf2 Hrf2].
  apply (rok_trans _ _ _ (conj Hwf2 Hrf2)). set (b2 := putInFlight _ _ _ _ _ _) in *.
  destruct (trySend (cs_Q cs) (Msg e') b2) as [b3| |] eqn:Es.
  - destruct (wf_trySend _ _ _ _ Hwf2 Es). split; [done|by apply dframe_rframe].
  - by apply rok_refl.
  - destruct (trySend_registered t g cs _ b2 Hwf2 Hcs Es).
Qed.

Lemma routeToDLQ_rok now t g p o e b :
  wf b -> inFlightOf b t g p !! o = Some e -> rok b (routeToDLQ now t g p o e b).
Proof.
  intros Hwf He. unfold routeToDLQ.
  destruct (publishToDLQLocked _ _ _ _) as [b1 err] eqn:E1.
  destruct (publishToDLQ_spec _ _ _ _ _ _ Hwf E1) as [Hwf1 [Hrf1 Hin1]].
  assert (inFlightOf b1 t g p !! o = Some e) as He1 by (by eapply lookup_weaken).
  destruct err as [err|]; apply (rok_trans _ _ _ (conj Hwf1 Hrf1)).
  - by eapply noteError_rok.
  - pose proof (quiet_emit (IncDLQ t "max_attempts_reached") b1) as Q.
    apply (rok_quiet_l _ _ _ Q). rewrite <- (q_infl _ _ Q) in He1. eapply settle_rok; eauto with go.
Qed.

(** ** The consumer of a retry *)
Definition picked t g b b' (r : option consumerStream) : Prop :=
  rok b b' /\ (forall cs, r = Some cs -> quiet b b' /\ cs ∈ streamsOf b t g).

Lemma redeliveryLoop_spec now t g a k p o leases start tries e b b' r :
  wf b -> inFlightOf b t g p !! o = Some e -> 0 <= start ->
  redeliveryLoop now t g a k p o (streamsOf b t g) leases start tries e b = (b', r) ->
  picked t g b b' r.
Proof.
  intros Hwf He Hs E. revert b Hwf He E. induction tries as [|x tries IH]; intros b Hwf He E; simpl in E.
  { simplify_eq. split; [by apply rok_refl|done]. }
  destruct (zlookup (streamsOf b t g) _) as [cand|] eqn:Ec; [|simplify_eq; split; [by apply rok_refl|done]].
  pose proof (zlookup_Some_lt _ _ _ Ec) as Hr.
  assert (cand ∈ streamsOf b t g) as Hin.
  { unfold zlookup in Ec. case_decide; [|done]. by eapply list_elem_of_lookup_2. }
  destruct (withIdem _ _) as [b1 [[ad res] err]] eqn:E1.
  assert (quiet b b1) as Q1 by eauto with go. assert (wf b1) as Hwf1 by eauto with go.
  pose proof He as He1. rewrite <- (q_infl _ _ Q1) in He1.
  destruct err as [err|]; [case_decide|destruct ad]; simplify_eq.
  - rewrite <- (quiet_streamsOf _ _ t g Q1) in E. destruct (IH _ Hwf1 He1 E) as [Hok Hcs].
    split; [by eapply rok_quiet_l|]. intros cs Hr'. destruct (Hcs cs Hr') as [Q2 ?].
    rewrite <- (quiet_streamsOf _ _ t g Q1). split; [by etrans|done].
  - split; [|done]. apply (rok_quiet_l _ _ _ Q1). by eapply noteError_rok.
  - split; [|done]. apply (rok_quiet_l _ _ _ Q1). by eapply settle_rok.
  - set (b2 := setRR _ _ _ _).
    assert (quiet b b2) as Q2 by (etrans; [done|]; apply quiet_setRR, rem_range; lia).
    split; [by apply rok_quiet|]. by intros cs [= <-].
Qed.

Lemma zrem_nonneg x n : 0 <= x -> 0 <= n -> 0 <= Z.rem x n.
Proof.
  intros. destruct (decide (n = 0)) as [->|]; [by rewrite Z.rem_0_r_ext by done|].
  apply rem_range; lia.
Qed.

Lemma pickRedeliveryConsumer_spec now t g p o leases e b b' r :
  wf b -> inFlightOf b t g p !! o = Some e ->
  pickRedeliveryConsumer now t g p o (streamsOf b t g) leases e b = (b', r) ->
  picked t g b b' r.
Proof.
  intros Hwf He E. unfold pickRedeliveryConsumer in E. pose proof (wf_rr_range b t g Hwf) as Hr.
  destruct (idemKeyOf (Msg e)) as [[a k]|].
  - eapply redeliveryLoop_spec; [done..| |done]. apply zrem_nonneg; [done|apply zlen_nonneg].
  - simplify_eq. set (b1 := setRR _ _ _ _).
    assert (quiet b b1) as Q by (apply quiet_setRR, zrem_nonneg; [lia|apply zlen_nonneg]).
    split; [by apply rok_quiet|]. intros cs Hcs. split; [done|].
    unfold zlookup in Hcs. case_decide; [|done]. by eapply list_elem_of_lookup_2.
Qed.

(** ** The loops *)
Lemma retryEntryNow_rok now t g p o leases e b :
  wf b -> inFlightOf b t g p !! o = Some e ->
  rok b (retryEntryNow now t g p o (streamsOf b t g) leases e b).
Proof.
  intros Hwf He. unfold retryEntryNow.
  destruct (match retryPolicyOf _ with Some _ => _ | None => _ end); [by apply routeToDLQ_rok|].
  destruct (pickRedeliveryConsumer _ _ _ _ _ _ _ _ _) as [b1 r] eqn:E1.
  destruct (pickRedeliveryConsumer_spec _ _ _ _ _ _ _ _ _ _ Hwf He E1) as [Hok Hcs].
  destruct r as [cs|]; [|done]. destruct (Hcs cs eq_refl) as [Q Hin].
  apply (rok_trans _ _ _ Hok). destruct Hok as [Hwf1 _].
  rewrite <- (q_infl _ _ Q) in He. rewrite <- (quiet_streamsOf _ _ t g Q) in Hin. by apply resend_rok.
Qed.

Lemma redeliverEntry_rok now t g p o leases b :
  wf b -> rok b (redeliverEntry now t g p o (streamsOf b t g) leases b).
Proof.
  intros Hwf. unfold redeliverEntry. destruct (_ !! o) as [e|] eqn:He; [|by apply rok_refl].
  destruct (_ <? _); [by apply rok_refl|].
  destruct (markTimeout _ _ _ _ _ _ _) as [e1 b1] eqn:E1.
  destruct (markTimeout_spec _ _ _ _ _ _ _ _ _ Hwf He E1) as [Hok1 He1].
  destruct (_ && _); [done|]. apply (rok_trans _ _ _ Hok1). destruct Hok1 as [Hwf1 Hrf1].
  assert (streamsOf b t g = streamsOf b1 t g) as -> by (unfold streamsOf; by rewrite (rf_chans _ _ Hrf1)).
  destruct (match idemKeyOf _ with Some _ => _ | None => _ end) as [b2 st] eqn:E2.
  assert (quiet b1 b2) as Q2 by eauto with go. assert (wf b2) as Hwf2 by eauto with go.
  apply (rok_quiet_l _ _ _ Q2). rewrite <- (q_infl _ _ Q2) in He1.
  rewrite <- (quiet_streamsOf _ _ t g Q2).
  destruct (bool_decide _); [by eapply settle_rok|by apply retryEntryNow_rok].
Qed.

(** Folding a body that keeps [rok]. *)
Lemma rok_foldl {A} (f : InMemoryBroker -> A -> InMemoryBroker) (I : InMemoryBroker -> Prop) l b :
  (forall b x, wf b -> I b -> rok b (f b x)) -> (forall b b', I b -> rframe b b' -> I b') ->
  wf b -> I b -> rok b (foldl f b l).
Proof.
  intros Hf HI. revert b. induction l as [|x l IH]; intros b Hwf Hb; simpl; [by apply rok_refl|].
  destruct (Hf b x Hwf Hb) as [Hwf1 Hrf1]. apply (rok_trans _ _ _ (conj Hwf1 Hrf1)).
  apply IH; [done|]. by eapply HI.
Qed.

Lemma redeliverPartition_rok now t g leases p b :
  wf b -> rok b (redeliverPartition now t g (streamsOf b t g) leases b p).
Proof.
  intros Hwf. unfold redeliverPartition. set (chans := streamsOf b t g).
  apply (rok_foldl _ (fun b => streamsOf b t g = chans)); [| |done..].
  - intros b' o Hwf' <-. by apply redeliverEntry_rok.
  - intros b1 b2 <- Hrf. unfold streamsOf. by rewrite (rf_chans _ _ Hrf).
Qed.

Lemma redeliverGroup_rok now t g b : wf b -> rok b (redeliverGroup now t b g).
Proof.
  intros Hwf. unfold redeliverGroup. case_decide; [by apply rok_refl|]. set (chans := streamsOf b t g).
  apply (rok_foldl _ (fun b => streamsOf b t g = chans)); [| |done..].
  - intros b' p Hwf' <-. by apply redeliverPartition_rok.
  - intros b1 b2 <- Hrf. unfold streamsOf. by rewrite (rf_chans _ _ Hrf).
Qed.

Lemma redeliverTopic_rok now t b : wf b -> rok b (redeliverTopic now b t).
Proof.
  intros Hwf. unfold redeliverTopic. destruct (consumerChans b !! t); [|by apply rok_refl].
  pose proof (quiet_ensureRR t b) as Q. apply (rok_quiet_l _ _ _ Q).
  apply (rok_foldl _ (fun _ => True)); eauto using redeliverGroup_rok with go.
Qed.

Lemma redeliverExpired_rok now b : wf b -> rok b (redeliverExpiredLocked now b).
Proof.
  intros Hwf. apply (rok_foldl _ (fun _ => True)); eauto using redeliverTopic_rok.
Qed.
End redelivery.
