(* ===== verification/ConsumeInv.v ===== *)
(** * Consuming, acknowledging and rejecting keep the invariant *)
From S2P Require Import Prelude Storage Idempotency BrokerTypes BrokerState Dispatch Produce.
From S2P Require Import Redelivery Consume BrokerInv DispatchInv ProduceInv RedeliveryInv.

(** ** Removing a stream from the middle of the slice *)
Lemma swapRemove_lookup {A} i (l : list A) j x :
  (i < length l)%nat -> swapRemove i l !! j = Some x ->
  (j < length l - 1)%nat /\ l !! (if decide (j = i) then (length l - 1)%nat else j) = Some x.
Proof.
  intros Hi Hj. unfold swapRemove in Hj.
  destruct l as [|y l _] using rev_ind; [by simpl in Hi|]. rewrite last_snoc in Hj.
  rewrite length_app in *. simpl in *. replace (length l + 1 - 1)%nat with (length l) by lia.
  assert (removelast (<[i:=y]> (l ++ [y])) = <[i:=y]> l) as Hrl.
  { destruct (decide (i < length l)%nat).
    - by rewrite insert_app_l, removelast_last by done.
    - replace i with (length l + 0)%nat by lia. rewrite insert_app_r. simpl.
      rewrite removelast_last. by rewrite list_insert_ge by lia. }
  rewrite Hrl in Hj. pose proof (lookup_lt_Some _ _ _ Hj) as Hlt. rewrite length_insert in Hlt.
  split; [done|]. case_decide as Hji.
  - subst. rewrite list_lookup_insert_eq in Hj by done. simplify_eq.
    rewrite lookup_app_r by lia. by rewrite Nat.sub_diag.
  - rewrite list_lookup_insert_ne in Hj by done. by rewrite lookup_app_l.
Qed.

Section consume.
Context {W : Type} `{WAL W} `{MapOrder}.
Implicit Types b : @InMemoryBroker W.

(** ** Registering and unregistering streams *)
Definition streams_ok (chs : gmap string (gmap string (list consumerStream))) (chl : list chan) : Prop :=
  (forall t g st, st ∈ streams_of chs t g -> t <> "" /\ g <> "") /\
  (forall t g st, st ∈ streams_of chs t g ->
     cs_Q st = cs_Ch st /\ exists c, chl !! cs_Ch st = Some c /\ ch_closed c = false) /\
  (forall t g i st t' g' i' st', streams_of chs t g !! i = Some st ->
     streams_of chs t' g' !! i' = Some st' -> cs_Ch st = cs_Ch st' -> t = t' /\ g = g' /\ i = i') /\
  (forall q c, chl !! q = Some c -> zlen (ch_buf c) <= chanCap).

Lemma wf_setStreams chs chl b :
  wf b -> streams_ok chs chl -> wf (set_consumerChans chs (set_channels chl b)).
Proof. intros [] (?&?&?&?). by split. Qed.

Lemma streams_of_lt b t g i st :
  wf b -> streamsOf b t g !! i = Some st -> (cs_Ch st < length (channels b))%nat.
Proof.
  intros Hwf Hi. destruct (wf_open Hwf t g st) as (_&c&Hc&_); [by eapply list_elem_of_lookup_2|].
  by eapply lookup_lt_Some.
Qed.

Lemma wf_registerStream t g owner lease b :
  wf b -> t <> "" -> g <> "" -> wf (fst (registerStream t g owner lease b)).
Proof.
  intros Hwf Ht Hg. apply wf_setStreams; [done|].
  set (st0 := mkStream owner lease (length (channels b)) (length (channels b))).
  assert (forall t' g', streams_of (insert2 t g (streamsOf b t g ++ [st0]) (consumerChans b)) t' g' =
    if decide (t = t' /\ g = g') then streamsOf b t g ++ [st0] else streamsOf b t' g') as Hs.
  { intros. rewrite lookup2_insert2. by case_decide. }
  assert (forall t' g' i st, streams_of (insert2 t g (streamsOf b t g ++ [st0]) (consumerChans b)) t' g' !! i
    = Some st -> streamsOf b t' g' !! i = Some st \/
      (t = t' /\ g = g' /\ i = length (streamsOf b t g) /\ st = st0)) as Hl.
  { intros t' g' i st. rewrite Hs. case_decide as Hd; [|by left]. destruct Hd as [<- <-].
    intros [?|[? ?]]%lookup_app_Some; [by left|right].
    destruct (i - _)%nat eqn:Ei; [|done]. simplify_eq/=. split_and!; try done; lia. }
  assert (forall t' g' i st, streamsOf b t' g' !! i = Some st -> cs_Ch st <> cs_Ch st0) as Hne.
  { intros t' g' i st Hi%streams_of_lt; [|done]. simpl. lia. }
  split_and!.
  - intros t' g' st (i&Hi)%list_elem_of_lookup_1. apply Hl in Hi as [Hi|(<-&<-&_)]; [|done].
    eapply (wf_names Hwf). by eapply list_elem_of_lookup_2.
  - intros t' g' st (i&Hi)%list_elem_of_lookup_1. apply Hl in Hi as [Hi|(_&_&_&->)].
    + destruct (wf_open Hwf t' g' st) as (?&c&?&?); [by eapply list_elem_of_lookup_2|].
      split; [done|]. exists c. by rewrite lookup_app_l by by eapply lookup_lt_Some.
    + split; [done|]. exists (mkChan [] false). simpl. by rewrite lookup_app_r, Nat.sub_diag by lia.
  - intros t1 g1 i1 st1 t2 g2 i2 st2 H1 H2 Heq.
    apply Hl in H1 as [H1|(<-&<-&->&->)], H2 as [H2|(<-&<-&->&->)]; try done.
    + by eapply (wf_inj Hwf).
    + by apply Hne in H1.
    + by apply Hne in H2.
  - intros q c [Hc|[_ Hc]]%lookup_app_Some; [by eapply (wf_buf Hwf)|].
    apply list_lookup_singleton_Some in Hc as [_ <-]. done.
Qed.

Lemma closeChan_open q c b :
  channels b !! q = Some c -> ch_closed c = false ->
  closeChan q b = set_channels (<[q := mkChan (ch_buf c) true]> (channels b)) b.
Proof. intros Hq Hc. unfold closeChan. by rewrite Hq, Hc. Qed.

(** The registry after the streams of (t, g) are replaced by [l]. *)
Definition replaceStreams t g (l : list consumerStream)
    (chs : gmap string (gmap string (list consumerStream))) :=
  let gc := default ∅ (chs !! t) in
  let gc := if decide (l = []) then delete g gc else <[g := l]> gc in
  if decide (gc = ∅) then delete t chs else <[t := gc]> chs.

Lemma streams_of_replace t g l chs t' g' :
  streams_of (replaceStreams t g l chs) t' g' =
  if decide (t = t' /\ g = g') then l else streams_of chs t' g'.
Proof.
  unfold replaceStreams. cbv zeta. set (gc := if decide (l = []) then _ else _).
  assert (forall g', default [] (gc !! g') = if decide (g = g') then l else
    default [] (default ∅ (chs !! t) !! g')) as Hgc.
  { intros g0. unfold gc. case_decide; subst; destruct (decide (g = g0)) as [<-|];
      by rewrite ?lookup_delete_eq, ?lookup_delete_ne, ?lookup_insert_eq, ?lookup_insert_ne. }
  unfold lookup2. destruct (decide (t = t')) as [<-|].
  - assert (default [] ((if decide (gc = ∅) then delete t chs else <[t := gc]> chs) !! t
      ≫= λ n, n !! g') = default [] (gc !! g')) as ->.
    { case_decide as He; [rewrite lookup_delete_eq, He; simpl; by rewrite lookup_empty|].
      by rewrite lookup_insert_eq. }
    rewrite Hgc. destruct (decide (g = g')); [by rewrite decide_True|].
    rewrite (decide_False (P := t = t /\ g = g')) by (by intros [_ ?]). by destruct (chs !! t); simpl; rewrite ?lookup_empty.
  - rewrite (decide_False (P := t = t' /\ g = g')) by (by intros [? _]). f_equal. f_equal.
    by case_decide; rewrite ?lookup_delete_ne, ?lookup_insert_ne.
Qed.

Definition removeStream (out : nat) (l : list consumerStream) : list consumerStream :=
  match list_find (fun st => cs_Ch st = out) l with
  | Some (i, _) => swapRemove i l
  | None => l
  end.

Lemma wf_clearRR t g b : wf b -> wf (set_rrCursor (clearCursor t g (rrCursor b)) b).
Proof.
  intros Hwf. eapply quiet_wf, Hwf. split; try done. intros Hr t' g' i. simpl.
  unfold clearCursor. destruct (rrCursor b !! t) as [m|] eqn:Em; [|apply Hr].
  assert (forall j, delete g m !! g' = Some j -> m !! g' = Some j) as Hdel
    by (intros j; rewrite lookup_delete_Some; naive_solver).
  unfold lookup2. destruct (decide (t = t')) as [<-|].
  - case_decide; [by rewrite lookup_delete_eq|]. rewrite lookup_insert_eq. simpl.
    intros ?%Hdel. apply (Hr t g'). unfold lookup2. by rewrite Em.
  - case_decide; [rewrite lookup_delete_ne by done|rewrite lookup_insert_ne by done]; apply Hr.
Qed.

(** The streams left are old ones, each at one position, none of them the removed one. *)
Lemma removed_lookup t g i b t' g' j x :
  (i < length (streamsOf b t g))%nat ->
  streams_of (replaceStreams t g (swapRemove i (streamsOf b t g)) (consumerChans b)) t' g' !! j = Some x ->
  exists j', streamsOf b t' g' !! j' = Some x /\ ~ (t = t' /\ g = g' /\ i = j') /\
    (t = t' /\ g = g' -> j = j' /\ j < length (streamsOf b t g) - 1 \/
                        j = i /\ j' = length (streamsOf b t g) - 1)%nat /\
    (~ (t = t' /\ g = g') -> j = j').
Proof.
  intros Hi. rewrite streams_of_replace. case_decide as Hd.
  - destruct Hd as [<- <-]. intros [Hj Hl]%swapRemove_lookup; [|done].
    eexists. split; [done|]. case_decide as Hji; subst; split_and!; try (intros; naive_solver lia);
      intros (_&_&?); lia.
  - intros Hl. exists j. split_and!; try done; naive_solver.
Qed.

Lemma wf_unregister t g out b : wf b -> wf (unregister t g out b).
Proof.
  intros Hwf. unfold unregister. destruct (consumerChans b !! t) as [gc|] eqn:Hgc; [|done].
  assert (default [] (gc !! g) = streamsOf b t g) as ->.
  { unfold streamsOf, lookup2. by rewrite Hgc. }
  set (l := streamsOf b t g).
  assert (forall l' b1, wf (set_consumerChans (replaceStreams t g l' (consumerChans b)) b1) ->
    consumerChans b1 = consumerChans b ->
    wf (let '(b, groupChans) :=
      if decide (l' = []) then
        (set_rrCursor (clearCursor t g (rrCursor b1)) b1, delete g gc)
      else (b1, <[g := l']> gc) in
    set_consumerChans
      (if decide (groupChans = ∅) then delete t (consumerChans b)
       else <[t := groupChans]> (consumerChans b)) b)) as Hfin.
  { intros l' b1 Hwf1 Hch. unfold replaceStreams in Hwf1. rewrite Hgc in Hwf1. simpl in Hwf1.
    rewrite <- Hch in Hwf1.
    destruct (decide (l' = [])); [by apply (wf_clearRR t g) in Hwf1|done]. }
  destruct (list_find _ l) as [[i st]|] eqn:Ef.
  - apply list_find_Some in Ef as (Hi&Hst&_).
    destruct (wf_open Hwf t g st) as (Hq&c&Hc&Ho); [by eapply list_elem_of_lookup_2|].
    rewrite Hq, (closeChan_open _ c) by done. apply Hfin; [|done..].
    assert (i < length l)%nat as Hlt by by eapply lookup_lt_Some.
    set (q := cs_Ch st) in *.
    change (wf (set_consumerChans (replaceStreams t g (swapRemove i l) (consumerChans b))
      (set_channels (<[q:=mkChan (ch_buf c) true]> (channels b)) b))).
    assert (forall t' g' j x, streams_of (replaceStreams t g (swapRemove i l) (consumerChans b)) t' g' !! j = Some x ->
      x ∈ streamsOf b t' g' /\ cs_Ch x <> q) as Hold.
    { intros t' g' j x Hx. apply removed_lookup in Hx as (j'&Hx&Hne&_); [|done].
      split; [by eapply list_elem_of_lookup_2|]. intros He. apply Hne.
      by destruct (wf_inj Hwf t g i st t' g' j' x Hi Hx) as (?&?&?). }
    apply wf_setStreams; [done|]. split_and!.
    + intros t' g' x (j&Hx)%list_elem_of_lookup_1. apply Hold in Hx as [Hx _]. by eapply (wf_names Hwf).
    + intros t' g' x (j&Hx)%list_elem_of_lookup_1. apply Hold in Hx as [Hx Hne].
      destruct (wf_open Hwf _ _ _ Hx) as (?&c'&?&?). split; [done|]. exists c'.
      by rewrite list_lookup_insert_ne.
    + intros t1 g1 j1 x1 t2 g2 j2 x2 H1 H2 Heq.
      apply removed_lookup in H1 as (k1&H1&_&Ha1&Hb1); [|done].
      apply removed_lookup in H2 as (k2&H2&_&Ha2&Hb2); [|done].
      destruct (wf_inj Hwf _ _ _ _ _ _ _ _ H1 H2 Heq) as (<-&<-&<-). split_and!; try done.
      destruct (decide (t = t1 /\ g = g1)) as [Hd|Hd].
      * destruct (Ha1 Hd) as [[? ?]|[? ?]], (Ha2 Hd) as [[? ?]|[? ?]]; lia.
      * by rewrite (Hb1 Hd), (Hb2 Hd).
    + intros q' c' [(->&<-&_)|[_ ?]]%list_lookup_insert_Some; [|by eapply (wf_buf Hwf)].
      by apply (wf_buf Hwf _ _ Hc).
  - apply Hfin; [|done..].
    assert (forall t' g', streams_of (replaceStreams t g l (consumerChans b)) t' g' = streamsOf b t' g') as Hs.
    { intros. rewrite streams_of_replace. case_decide as Hd; [by destruct Hd as [<- <-]|done]. }
    apply (wf_setStreams _ (channels b) b); [done|]. destruct Hwf.
    split_and!; [..|done]; setoid_rewrite Hs; done.
Qed.

Lemma wf_recv q b : wf b -> wf (fst (recv q b)).
Proof.
  intros Hwf. unfold recv. destruct (channels b !! q) as [[[|m buf] cl]|] eqn:Eq; [done| |done].
  apply (wf_setChannel q (mkChan (m :: buf) cl) buf); [done..|].
  pose proof (wf_buf Hwf _ _ Eq) as Hb. unfold zlen in *. simpl in *. lia.
Qed.

Lemma ev_registerStream t g owner lease b : evolves b (fst (registerStream t g owner lease b)).
Proof. by split. Qed.

Lemma ev_recv q b : evolves b (fst (recv q b)).
Proof. unfold recv. by destruct (channels b !! q) as [[[|m buf] cl]|]. Qed.

Lemma ev_closeChan q b : evolves b (closeChan q b).
Proof. unfold closeChan. destruct (channels b !! q) as [c|]; [|done]. by destruct (ch_closed c). Qed.

Lemma ev_unregister t g out b : evolves b (unregister t g out b).
Proof.
  unfold unregister. destruct (consumerChans b !! t); [|done].
  destruct (list_find _ _) as [[i st]|].
  - destruct (ev_closeChan (cs_Q st) b) as [E1 E2]. by destruct (decide (swapRemove _ _ = [])).
  - by destruct (decide (_ = [])).
Qed.

(** ** Acknowledging *)
Lemma ackLocked_eq now t g p o b :
  ackLocked now t g p o b =
  match checkTopicPartition t p b with
  | Some err => (b, Some err)
  | None => (dispatchPartitionLocked now t p (ackCore t g p o b), None)
  end.
Proof.
  unfold ackLocked, ackCore, staleAt. destruct (checkTopicPartition t p b); [done|].
  assert (committedOf (ensureCommitted t g b) t g p = committedOf b t g p) as ->
    by apply (q_committed _ _ (quiet_ensureCommitted t g b)).
  done.
Qed.

Lemma ackLocked_rok now t g p o b b' err :
  wf b -> 0 <= o -> ackLocked now t g p o b = (b', err) -> rok b b'.
Proof.
  rewrite ackLocked_eq. intros Hwf Ho E. destruct (checkTopicPartition t p b).
  { simplify_eq. by apply rok_refl. }
  simplify_eq. destruct (ackCore_spec t g p o b Hwf Ho) as [Hok _].
  apply (rok_trans _ _ _ Hok). destruct Hok. by apply rok_dispatch.
Qed.

Lemma checkArgs_None t g p o :
  checkArgs t g p o = None -> t <> "" /\ g <> "" /\ 0 <= p /\ 0 <= o.
Proof.
  unfold checkArgs. repeat case_decide; try done.
  destruct (Z.ltb_spec p 0); [done|]. by destruct (Z.ltb_spec o 0).
Qed.

Lemma Ack_rok now t g p o b b' err : wf b -> Ack now t g p o b = (b', err) -> rok b b'.
Proof.
  intros Hwf E. unfold Ack in E. destruct (checkArgs t g p o) eqn:Ea.
  - simplify_eq. by apply rok_refl.
  - apply checkArgs_None in Ea. eapply ackLocked_rok; [done| |done]. naive_solver.
Qed.

Lemma ackFinish_rok now t g p o b b' err :
  wf b -> 0 <= o -> ackFinish now t g p o b = (b', err) -> rok b b'.
Proof.
  intros Hwf Ho E. unfold ackFinish in E. destruct (ackLocked _ _ _ _ _ _) as [b1 err1] eqn:E1.
  apply ackLocked_rok in E1 as Hok; [|done..]. destruct err1; simplify_eq; [done|].
  apply (rok_trans _ _ _ Hok), rok_quiet; auto with go. by destruct Hok.
Qed.

Lemma ackCheckOwner_rok now t g p o owner b b' r :
  wf b -> 0 <= o -> ackCheckOwner now t g p o owner b = (b', r) -> rok b b'.
Proof.
  intros Hwf Ho E. unfold ackCheckOwner in E.
  destruct (checkTopicPartition t p b); [simplify_eq; by apply rok_refl|].
  set (b1 := ensureInFlight t g p b) in *. assert (quiet b b1) as Q by apply quiet_ensureInFlight.
  assert (wf b1) as Hwf1 by eauto with go. pose proof (rok_quiet _ _ Q Hwf) as Hok.
  destruct (inFlightOf b1 t g p !! o) as [e|]; [|by simplify_eq].
  destruct (negb _); [by simplify_eq|]. destruct (idemKeyOf (Msg e)); [by simplify_eq|].
  destruct (ackLocked now t g p o b1) as [b2 err2] eqn:E2.
  assert (ackFinish now t g p o b1 = (b', match r with inr err => err | inl _ => None end)) as E3.
  { unfold ackFinish. rewrite E2. by destruct err2; simplify_eq. }
  apply (rok_trans _ _ _ Hok). by eapply ackFinish_rok.
Qed.

Lemma withIdem_rok {A} op b b' (r : A) : wf b -> withIdem op b = (b', r) -> rok b b'.
Proof. intros. apply rok_quiet; eauto with go. Qed.

Lemma AckIfOwner_rok n1 n2 n3 t g p o owner b b' err :
  wf b -> AckIfOwner n1 n2 n3 t g p o owner b = (b', err) -> rok b b'.
Proof.
  intros Hwf E. unfold AckIfOwner in E.
  destruct (checkArgs t g p o) eqn:Ea; [simplify_eq; by apply rok_refl|].
  apply checkArgs_None in Ea as (_&_&_&Ho). case_decide; [simplify_eq; by apply rok_refl|].
  destruct (ackCheckOwner _ _ _ _ _ _ _) as [b1 r1] eqn:E1.
  apply ackCheckOwner_rok in E1 as Hok1; [|done..]. destruct r1 as [[a k]|res]; [|by simplify_eq].
  destruct (withIdem _ b1) as [b2 err2] eqn:E2. destruct Hok1 as [Hwf1 Hrf1].
  pose proof (withIdem_rok _ _ _ _ Hwf1 E2) as Hok2.
  assert (rok b b2) as Hok by (by eapply rok_trans; [split|]). destruct Hok2 as [Hwf2 _].
  destruct err2 as [err2|].
  - repeat case_decide; simplify_eq; try done.
    apply (rok_trans _ _ _ Hok). by eapply ackFinish_rok.
  - apply (rok_trans _ _ _ Hok). by eapply ackFinish_rok.
Qed.

Lemma quiet_ackCumulativeCheck t g p o owner b : quiet b (fst (ackCumulativeCheck t g p o owner b)).
Proof.
  unfold ackCumulativeCheck. destruct (checkTopicPartition t p b); [done|].
  pose proof (quiet_ensureCommitted t g b) as Q1.
  pose proof (quiet_ensureInFlight t g p (ensureCommitted t g b)) as Q2.
  destruct (_ <=? _); [done|]. destruct (checkRange _ _ _ _); by etrans.
Qed.

Lemma ackRange_rok now t g p off owner n b b' err :
  wf b -> ackRange now t g p off owner n b = (b', err) -> rok b b'.
Proof.
  revert b off. induction n as [|n IH]; intros b off Hwf E; simpl in E.
  { simplify_eq. by apply rok_refl. }
  destruct (AckIfOwner _ _ _ _ _ _ _ _ _) as [b3 err3] eqn:E3.
  pose proof (AckIfOwner_rok _ _ _ _ _ _ _ _ _ _ _ Hwf E3) as Hok. destruct err3; [by simplify_eq|].
  apply (rok_trans _ _ _ Hok). destruct Hok. by eapply IH.
Qed.

Lemma AckCumulative_rok now t g p o owner b b' err :
  wf b -> AckCumulativeIfOwner now t g p o owner b = (b', err) -> rok b b'.
Proof.
  intros Hwf E. unfold AckCumulativeIfOwner in E.
  destruct (checkArgs t g p o); [simplify_eq; by apply rok_refl|].
  case_decide; [simplify_eq; by apply rok_refl|].
  pose proof (quiet_ackCumulativeCheck t g p o (TrimSpace owner) b) as Q.
  destruct (ackCumulativeCheck _ _ _ _ _ _) as [b1 [[start n]|res]]; simpl in Q.
  - apply (rok_quiet_l _ _ _ Q). eapply ackRange_rok; [|done]. eauto with go.
  - simplify_eq. by apply rok_quiet.
Qed.

(** ** Rejecting *)
Lemma nackMarkFailed_spec now t g p o owner reason e b e' b' :
  nackMarkFailed now t g p o owner reason e b = (e', b') ->
  quiet b b' /\ same_message (Msg e') (Msg e).
Proof.
  intros E. unfold nackMarkFailed in E. destruct (idemKeyOf (Msg e)) as [[a k]|]; [|by simplify_eq].
  destruct (withIdem _ b) as [b1 [err|]] eqn:E1; apply quiet_withIdem_eq in E1; [case_decide|]; simplify_eq.
  - done.
  - split; [|done]. etrans; [done|]. apply quiet_recordRetry.
  - done.
Qed.

Lemma Nack_rok now t g p o owner reason b b' err :
  wf b -> Nack now t g p o owner reason b = (b', err) -> rok b b'.
Proof.
  intros Hwf E. unfold Nack in E.
  destruct (checkArgs t g p o); [simplify_eq; by apply rok_refl|].
  case_decide; [simplify_eq; by apply rok_refl|].
  destruct (checkTopicPartition t p b); [simplify_eq; by apply rok_refl|].
  pose proof (quiet_ensureInFlight t g p b) as Q1. set (b1 := ensureInFlight t g p b) in *.
  destruct (inFlightOf b1 t g p !! o) as [e|] eqn:He; [|simplify_eq; by apply rok_quiet].
  destruct (negb _); [simplify_eq; by apply rok_quiet|].
  destruct (appendWALEntry _ _) as [b2 err2] eqn:E2. apply quiet_appendWALEntry_eq in E2 as Q2.
  assert (quiet b b2) as Q by (etrans; [done|]; etrans; [apply quiet_putRetryState|done]).
  destruct err2; [simplify_eq; by apply rok_quiet|].
  destruct (nackMarkFailed _ _ _ _ _ _ _ _ _) as [e3 b3] eqn:E3.
  apply nackMarkFailed_spec in E3 as [Q3 Hsm].
  assert (quiet b b3) as Q' by by etrans. assert (wf b3) as Hwf3 by eauto with go.
  rewrite (q_infl _ _ Q1), <- (q_infl _ _ Q') in He. set (e4 := mkInflight _ _ _ _ _ _) in E.
  destruct (putInFlight_rok t g p o e e4 b3 Hwf3 He Hsm) as [Hwf4 Hrf4].
  simplify_eq. apply (rok_quiet_l _ _ _ Q'). apply (rok_trans _ _ _ (conj Hwf4 Hrf4)).
  pose proof (quiet_emit (IncNack t g (if decide (TrimSpace reason = "") then "nack" else TrimSpace reason))
    (putInFlight t g p o e4 b3)) as Q4.
  apply (rok_quiet_l _ _ _ Q4). apply redeliverExpired_rok. eauto with go.
Qed.

(** ** The offset flusher *)
Lemma quiet_flushTake b : quiet b (fst (flushTake b)).
Proof. done. Qed.
Lemma quiet_flushRestore failed b : quiet b (flushRestore failed b).
Proof. done. Qed.
Lemma quiet_flushKeys pending keys b : quiet b (fst (fst (flushKeys pending keys b))).
Proof.
  revert b. induction keys as [|k keys IH]; intros b; simpl; [done|].
  destruct (appendWALEntry _ b) as [b1 err] eqn:E1. apply quiet_appendWALEntry_eq in E1.
  destruct err; [done|]. by etrans.
Qed.
Lemma quiet_flushWrite pending b : quiet b (fst (fst (flushWrite pending b))).
Proof. apply quiet_flushKeys. Qed.
End consume.
