(* ===== verification/BrokerSteps.v ===== *)
(** * The broker as a transition system

    [bstep] has one constructor per critical section of the broker's mutex (or of the
    idempotency store's), with its own clock reading and its own iteration order of the
    maps it ranges over; any interleaving of clients, consumers, the redelivery loop and
    the offset flusher is a sequence of such steps. *)
From stdpp Require Import relations.
From S2P Require Import Prelude Storage Idempotency BrokerTypes BrokerState Dispatch Produce Redelivery Consume BrokerInv DispatchInv ProduceInv.
From S2P Require Import WalReplay RedeliveryInv ConsumeInv.
From Stdlib Require Import Init.Byte.

Section steps.
Context {W : Type} `{WAL W}.
Abbreviation broker := (@InMemoryBroker W).
Implicit Types b : broker.

Inductive bstep : broker -> broker -> Prop :=
| step_create name n cfg b : bstep b (fst (CreateTopicWithConfig name n cfg b))
| step_set_router r b : bstep b (SetRouter r b)
| step_produce_begin now t m b : bstep b (fst (produceBegin now t m b))
| step_produce `{MapOrder} now t m b : bstep b (fst (produceLocked now t m b))
| step_produce_end now t m started err b : bstep b (produceEnd now t m started err b)
| step_consume `{MapOrder} now t g owner b : bstep b (fst (Consume now t g owner b))
| step_consume_lease `{MapOrder} now t g owner lease b :
    bstep b (fst (ConsumeWithLease now t g owner lease b))
| step_register t g owner lease b :
    t <> "" -> g <> "" -> is_Some (topics b !! t) -> bstep b (fst (registerStream t g owner lease b))
| step_dispatch `{MapOrder} now t b : bstep b (dispatchLocked now t b)
| step_unregister t g out b : bstep b (unregister t g out b)
| step_recv q b : bstep b (fst (recv q b))
| step_ack `{MapOrder} now t g p o b : bstep b (fst (Ack now t g p o b))
| step_ack_check `{MapOrder} now t g p o owner b :
    checkArgs t g p o = None -> bstep b (fst (ackCheckOwner now t g p o owner b))
| step_ack_finish `{MapOrder} now t g p o b :
    checkArgs t g p o = None -> bstep b (fst (ackFinish now t g p o b))
| step_ack_cumulative `{MapOrder} now t g p o owner b :
    bstep b (fst (AckCumulativeIfOwner now t g p o owner b))
| step_ack_cumulative_check t g p o owner b :
    bstep b (fst (ackCumulativeCheck t g p o owner b))
| step_nack `{MapOrder} now t g p o owner reason b :
    bstep b (fst (Nack now t g p o owner reason b))
| step_redeliver `{MapOrder} now b : bstep b (redeliverExpiredLocked now b)
| step_flush_take b : bstep b (fst (flushTake b))
| step_flush_write `{MapOrder} pending b : bstep b (fst (fst (flushWrite pending b)))
| step_flush_restore failed b : bstep b (flushRestore failed b)
| step_close b : bstep b (set_closeOnce true b)
| step_idem_begin now a t g k owner lease b :
    bstep b (fst (withIdem (ConsumeBeginLease now a t g k owner lease) b))
| step_idem_renew now a t g k owner lease b :
    bstep b (fst (withIdem (ConsumeRenewLease now a t g k owner lease) b))
| step_idem_commit now a t g k owner result b :
    bstep b (fst (withIdem (ConsumeCommitIfOwner now a t g k owner result) b))
| step_idem_fail now a t g k owner cause b :
    bstep b (fst (withIdem (ConsumeFailIfOwner now a t g k owner cause) b)).

(** The brokers a program can hold: built by the constructors, then any steps. *)
Inductive initial : broker -> Prop :=
| initial_new w opts : Forall is_option opts -> initial (NewInMemoryBrokerWithWAL w opts)
| initial_recovered `{MapOrder} now w opts b :
    Forall is_option opts -> NewInMemoryBrokerFromWAL now w opts = inl b -> initial b.

Definition reachable b : Prop := exists b0, initial b0 /\ rtc bstep b0 b.

(** ** Every step keeps the invariant and moves forward *)
Lemma quiet_set_idem s b : quiet b (set_idem s b).
Proof. done. Qed.

Lemma quiet_produceBegin now t m b : quiet b (fst (produceBegin now t m b)).
Proof.
  unfold produceBegin. destruct (idemKeyOf m) as [[a k]|]; [|done].
  destruct (Begin _ _ _ _ _) as [s [ac err]]. by destruct err; [|destruct ac].
Qed.

Lemma quiet_produceEnd now t m started err b : quiet b (produceEnd now t m started err b).
Proof.
  unfold produceEnd. destruct (idemKeyOf m) as [[a k]|]; [|done]. by destruct started, err.
Qed.

(** A step's effect: the invariant is kept and the state evolves. *)
Definition good b b' : Prop := wf b -> wf b' /\ evolves b b'.

Lemma good_quiet b b' : quiet b b' -> good b b'.
Proof. intros Q Hwf. split; [by eauto with go|]. by apply dframe_evolves, quiet_dframe. Qed.
Lemma good_rok b b' : (wf b -> rok b b') -> good b b'.
Proof. intros Hr Hwf. by destruct (Hr Hwf) as [? []]. Qed.
Lemma good_pframe b b' : (wf b -> wf b' /\ pframe b b') -> good b b'.
Proof. intros Hr Hwf. by destruct (Hr Hwf) as [? [[] _]]. Qed.

Lemma consumeWith_good `{MapOrder} now t g owner lease b :
  t <> "" -> g <> "" -> good b (fst (consumeWith now t g owner lease b)).
Proof.
  intros Ht Hg Hwf. unfold consumeWith. destruct (topics b !! t); [|done].
  pose proof (wf_registerStream t g owner lease b Hwf Ht Hg) as Hwf1.
  pose proof (ev_registerStream t g owner lease b) as Hev.
  destruct (registerStream t g owner lease b) as [b1 out]. simpl in *.
  destruct (dispatchFilteredLocked_spec now t (-1) b1 Hwf1) as [Hwf2 Hdf].
  split; [done|]. etrans; [done|by apply dframe_evolves].
Qed.

Lemma bstep_good b b' : bstep b b' -> good b b'.
Proof.
  intros Hs. destruct Hs.
  - apply good_pframe. intros Hwf. destruct (CreateTopicWithConfig _ _ _ _) eqn:E.
    by eapply CreateTopicWithConfig_spec.
  - by apply good_quiet.
  - apply good_quiet, quiet_produceBegin.
  - apply good_pframe. intros Hwf. destruct (produceLocked _ _ _ _) eqn:E. by eapply produceLocked_spec.
  - apply good_quiet, quiet_produceEnd.
  - unfold Consume. case_decide as Hd; [done|]. case_decide; [done|]. apply consumeWith_good; naive_solver.
  - unfold ConsumeWithLease. case_decide as Hd; [done|]. case_decide; [done|].
    apply consumeWith_good; naive_solver.
  - intros Hwf. split; [by apply wf_registerStream|apply ev_registerStream].
  - intros Hwf. destruct (dispatchFilteredLocked_spec now t (-1) b Hwf). split; [done|].
    by apply dframe_evolves.
  - intros Hwf. split; [by apply wf_unregister|apply ev_unregister].
  - intros Hwf. split; [by apply wf_recv|apply ev_recv].
  - apply good_rok. intros Hwf. destruct (Ack _ _ _ _ _ _) eqn:E. by eapply Ack_rok.
  - apply good_rok. intros Hwf. destruct (ackCheckOwner _ _ _ _ _ _ _) eqn:E.
    apply checkArgs_None in H1 as (_&_&_&?). by eapply ackCheckOwner_rok.
  - apply good_rok. intros Hwf. destruct (ackFinish _ _ _ _ _ _) eqn:E.
    apply checkArgs_None in H1 as (_&_&_&?). by eapply ackFinish_rok.
  - apply good_rok. intros Hwf. destruct (AckCumulativeIfOwner _ _ _ _ _ _ _) eqn:E.
    by eapply AckCumulative_rok.
  - apply good_quiet, quiet_ackCumulativeCheck.
  - apply good_rok. intros Hwf. destruct (Nack _ _ _ _ _ _ _ _) eqn:E. by eapply Nack_rok.
  - apply good_rok, redeliverExpired_rok.
  - apply good_quiet, quiet_flushTake.
  - apply good_quiet, quiet_flushWrite.
  - apply good_quiet, quiet_flushRestore.
  - by apply good_quiet.
  - apply good_quiet, quiet_withIdem.
  - apply good_quiet, quiet_withIdem.
  - apply good_quiet, quiet_withIdem.
  - apply good_quiet, quiet_withIdem.
Qed.

Lemma steps_good b b' : rtc bstep b b' -> good b b'.
Proof.
  induction 1 as [b|b b1 b' Hs _ IH]; intros Hwf; [done|].
  destruct (bstep_good _ _ Hs Hwf) as [Hwf1 He1], (IH Hwf1) as [Hwf2 He2].
  split; [done|by etrans].
Qed.

Lemma initial_wf b : initial b -> wf b.
Proof. intros []; [by apply wf_new|by eapply wf_recovered]. Qed.

Lemma reachable_wf' b : reachable b -> wf b.
Proof. intros (b0&Hi&Hr). by apply (steps_good _ _ Hr), initial_wf. Qed.

(** C1: in every state the broker can reach, whatever the interleaving of operations, the
    invariant [wf] holds: offsets are the indices of a dense log, byte sums are exact, every
    in-flight entry carries the message its offset names, no message below a group's next
    index is skipped (it is in flight or committed), the in-flight window is bounded, and no
    send has hit a closed channel. *)
Theorem reachable_wf b : reachable b -> wf b.
Proof. apply reachable_wf'. Qed.

(** steps only move forward: a partition's log grows at its end and never changes what
    it holds, and the committed offset of every group never goes back. *)
Theorem steps_evolve b b' : reachable b -> rtc bstep b b' -> evolves b b'.
Proof. intros Hr Hs. by apply (steps_good _ _ Hs), reachable_wf'. Qed.

(** at-least-once within the process: once a group has been offered a message (its next
    index is past it), the message is in flight, unchanged, or at or below the group's
    committed offset; it is never dropped silently. *)
Theorem no_message_skipped b t g p i m :
  reachable b -> zlookup (logOf (topics b) t p) i = Some m -> i < nextIndexOf b t g p ->
  (exists e, inFlightOf b t g p !! i = Some e /\ same_message (Msg e) m) \/ i <= committedRaw b t g p.
Proof.
  intros Hr Hm Hi. pose proof (reachable_wf' b Hr) as Hwf. pose proof (zlookup_Some_lt _ _ _ Hm).
  unfold nextIndexOf in Hi. destruct (lookup3 (nextIndex b) t g p) as [n|] eqn:Hn; simpl in Hi; [|lia].
  destruct (wf_acct Hwf t g p n i Hn) as [[e He]|]; [lia| |by right]. left. exists e. split; [done|].
  destruct (wf_infl Hwf _ _ _ _ _ He) as (_&_&_&m'&Hm'&Hsm). by simplify_eq.
Qed.
End steps.

(** ** A concrete run of the broker, used to instantiate the properties *)
(** A topic with two partitions, a leased consumer and a simple one, and four messages:
    plain, with an idempotency key, with an exhausted retry policy, and one in the
    simple group's topic.  The log is the in-memory one. *)
Abbreviation exBroker := (@InMemoryBroker MemWAL).

Definition T0 : Time := Add unixEpoch (1000 * Second).
Definition exMsg (env : option Envelope) (key value : bytes) : Message :=
  mkMessage 0 0 key value env None 0 "".
Definition exEnv (idk : string) (po : option Z) (rp : option RetryPolicy) : Envelope :=
  mkEnvelope "run-1" "step-1" "" ∅ "" po idk None rp "tenant" None.

Definition plainMsg : Message := exMsg (Some (exEnv "" (Some 0) None)) [x61] [x01; x02].
Definition idemMsg : Message := exMsg (Some (exEnv "key-1" (Some 0) None)) [x62] [x03].
Definition retryMsg : Message :=
  exMsg (Some (exEnv "" (Some 1) (Some (mkRetryPolicy 1 1000 8000)))) [x63] [x04].

Definition ex0 : exBroker :=
  NewInMemoryBrokerWithWAL (Some (mkMemWAL [] []))
    [WithMetricsSink true; WithMaxInFlight 4; WithMaxPartitionMsgs 3].
Definition ex1 : exBroker := fst (CreateTopic "orders" 2 ex0).
Definition ex2 : exBroker := fst (ConsumeWithLease T0 "orders" "workers" "alice" (1 * Second) ex1).
Definition ex3 : exBroker := fst (produceLocked T0 "orders" plainMsg ex2).
Definition ex4 : exBroker := fst (produceLocked T0 "orders" idemMsg ex3).
Definition ex5 : exBroker := fst (produceLocked T0 "orders" retryMsg ex4).

Lemma reachable_step {W} `{WAL W} (b b' : @InMemoryBroker W) :
  reachable b -> bstep b b' -> reachable b'.
Proof. intros (b0&Hi&Hr) Hs. exists b0. split; [done|]. by eapply rtc_r. Qed.

Lemma reachable_ex0 : reachable ex0.
Proof.
  exists ex0. split; [|by apply rtc_refl]. apply initial_new. repeat constructor.
Qed.
Lemma reachable_ex1 : reachable ex1.
Proof. apply (reachable_step ex0); [apply reachable_ex0|]. apply step_create. Qed.
Lemma reachable_ex2 : reachable ex2.
Proof. apply (reachable_step ex1); [apply reachable_ex1|]. apply step_consume_lease. Qed.
Lemma reachable_ex3 : reachable ex3.
Proof. apply (reachable_step ex2); [apply reachable_ex2|]. apply step_produce. Qed.
Lemma reachable_ex4 : reachable ex4.
Proof. apply (reachable_step ex3); [apply reachable_ex3|]. apply step_produce. Qed.
Lemma reachable_ex5 : reachable ex5.
Proof. apply (reachable_step ex4); [apply reachable_ex4|]. apply step_produce. Qed.

Lemma wf_ex2 : wf ex2. Proof. apply reachable_wf', reachable_ex2. Qed.
Lemma wf_ex4 : wf ex4. Proof. apply reachable_wf', reachable_ex4. Qed.
Lemma wf_ex5 : wf ex5. Proof. apply reachable_wf', reachable_ex5. Qed.

Definition exTs5 : TopicState := default (mkTopicState [] [] (mkTopicConfig "")) (topics ex5 !! "orders").

(** *** The properties of BrokerSteps.v on this run *)
Lemma reachable_wf_witness : wf ex5 /\ Z.of_nat (size (inFlightOf ex5 "orders" "workers" 0)) = 2.
Proof. split; [apply reachable_wf, reachable_ex5|by vm_compute]. Defined.

Lemma steps_evolve_witness :
  evolves ex2 ex4 /\ zlen (logOf (topics ex2) "orders" 0) = 0 /\ zlen (logOf (topics ex4) "orders" 0) = 2.
Proof.
  split; [|by vm_compute]. apply steps_evolve; [apply reachable_ex2|].
  eapply rtc_l; [apply step_produce|]. eapply rtc_l; [apply step_produce|]. apply rtc_refl.
Defined.

Lemma no_message_skipped_witness :
  (exists e, inFlightOf ex5 "orders" "workers" 0 !! 1 = Some e /\
     same_message (Msg e) (set_m_position 0 1 idemMsg)) \/ 1 <= committedRaw ex5 "orders" "workers" 0.
Proof. apply no_message_skipped; [apply reachable_ex5|by vm_compute|by vm_compute]. Defined.
