(* ===== verification/ProduceSpec.v ===== *)
(** * What producing does (properties of Produce.v and BrokerTypes.v) *)
From S2P Require Import Prelude Storage Idempotency BrokerTypes BrokerState Dispatch Produce.
From S2P Require Import BrokerInv DispatchInv ProduceInv BrokerSteps.
From Stdlib Require Import Init.Byte.

(** ** Unacknowledged messages: the reference the two caps are measured against *)
Definition unacked (slowestAck : Z) (log : list Message) : list Message :=
  drop (Z.to_nat (slowestAck + 1)) log.

Lemma startAfter_eq s : -1 <= s < maxInt64 -> startAfter s = s + 1.
Proof.
  intros. unfold startAfter, maxInt64 in *. rewrite wrap64_id by (unfold int64_ok, minInt64, maxInt64; lia).
  destruct (Z.ltb_spec (s + 1) 0); lia.
Qed.

Lemma sumBytes_take_drop n l : sumBytes l = sumBytes (take n l) + sumBytes (drop n l).
Proof. by rewrite <- sumBytes_app, take_drop. Qed.

Lemma bufferedCount_unacked log s :
  -1 <= s < maxInt64 -> bufferedCount log s = zlen (unacked s log).
Proof.
  intros Hs. unfold bufferedCount, unacked. rewrite startAfter_eq by done.
  destruct (Z.leb_spec (zlen log) (s + 1)); unfold zlen in *; rewrite length_drop; lia.
Qed.

Lemma bufferedBytes_unacked log s :
  -1 <= s < maxInt64 -> bufferedBytesCount log (prefixSums 0 log) s = sumBytes (unacked s log).
Proof.
  intros Hs. unfold bufferedBytesCount, unacked. rewrite startAfter_eq by done.
  case_decide as Hl; [subst; by rewrite drop_nil|].
  replace (zlen (prefixSums 0 log) =? zlen log) with true
    by (unfold zlen; rewrite length_prefixSums; lia). simpl.
  destruct (Z.leb_spec (zlen log) (s + 1)).
  - unfold zlen in *. by rewrite drop_ge by lia.
  - rewrite last_prefixSums, decide_False by done. simpl.
    destruct (Z.eqb_spec (s + 1) 0) as [->|]; [done|].
    rewrite zlookup_prefixSums by lia. simpl. rewrite (sumBytes_take_drop (Z.to_nat (s + 1)) log).
    replace (s + 1 - 1 + 1) with (s + 1) by lia. lia.
Qed.

Section spec.
Context {W : Type} `{WAL W}.
Implicit Types b : @InMemoryBroker W.

(** ** The slowest group *)
(** The groups whose offsets in a topic have been touched. *)
Definition offsetGroups b t : gset string := dom (default ∅ (consumerOffsets b !! t)).

Lemma foldl_min {A} (f : A -> Z) l acc :
  foldl (fun slowest x => match slowest with
    | None => Some (f x)
    | Some s => if f x <? s then Some (f x) else Some s end) (Some acc) l =
  Some (foldr (fun x m => Z.min (f x) m) acc l).
Proof.
  revert acc. induction l as [|x l IH]; intros acc; simpl; [done|].
  assert ((if f x <? acc then Some (f x) else Some acc) = Some (Z.min (f x) acc)) as ->.
  { destruct (Z.ltb_spec (f x) acc); f_equal; lia. }
  rewrite IH. f_equal. clear. induction l as [|y l IH]; simpl; lia.
Qed.

Lemma foldr_min_spec {A} (f : A -> Z) l acc :
  let m := foldr (fun x m => Z.min (f x) m) acc l in
  m <= acc /\ (forall x, x ∈ l -> m <= f x) /\ (m = acc \/ exists x, x ∈ l /\ m = f x).
Proof.
  induction l as [|x l (IH1&IH2&IH3)]; simpl.
  { split_and!; [lia|by intros ? ?%elem_of_nil|by left]. }
  split_and!; [lia| |].
  - intros y [->|Hy]%elem_of_cons; [lia|]. specialize (IH2 y Hy). lia.
  - destruct (Z.min_spec (f x) (foldr (fun x m => Z.min (f x) m) acc l)) as [[? ->]|[? ->]].
    + right. exists x. split; [apply elem_of_cons; by left|done].
    + destruct IH3 as [->|(y&?&->)]; [by left|right]. exists y. split; [apply elem_of_cons; by right|done].
Qed.

Lemma slowestAck_spec `{MapOrder} t p b :
  (offsetGroups b t = ∅ -> slowestAckLocked t p b = -1) /\
  (forall g, g ∈ offsetGroups b t -> slowestAckLocked t p b <= committedRaw b t g p) /\
  (offsetGroups b t <> ∅ -> exists g, g ∈ offsetGroups b t /\ slowestAckLocked t p b = committedRaw b t g p).
Proof.
  unfold slowestAckLocked, offsetGroups. destruct (consumerOffsets b !! t) as [byGroup|] eqn:Et; simpl;
    [|split_and!; [done|set_solver|set_solver]].
  assert (forall g, default (-1) (byGroup !! g ≫= (fun byPart => byPart !! p)) = committedRaw b t g p) as Hc.
  { intros g. unfold committedRaw, committedOf. unfold lookup3, lookup2. by rewrite Et. }
  destruct (decide (byGroup = ∅)) as [->|Hne].
  { split_and!; [done|set_solver|set_solver]. }
  assert (forall g, g ∈ order (dom byGroup) <-> g ∈ dom byGroup) as Hin.
  { intros g. rewrite (order_perm (dom byGroup)). apply elem_of_elements. }
  destruct (order (dom byGroup)) as [|g0 gs] eqn:Eo.
  { exfalso. apply Hne, dom_empty_inv_L. apply set_eq. intros g. rewrite <- Hin. set_solver. }
  simpl. rewrite foldl_min. simpl.
  pose proof (foldr_min_spec (fun g => default (-1) (byGroup !! g ≫= fun byPart => byPart !! p)) gs
    (default (-1) (byGroup !! g0 ≫= fun byPart => byPart !! p))) as (H1&H2&H3).
  cbv zeta in *. set (m := foldr _ _ _) in *. split_and!.
  - intros He. by apply dom_empty_inv_L in He.
  - intros g Hg. rewrite <- Hc. apply Hin, elem_of_cons in Hg as [->|Hg]; [done|by apply H2].
  - intros _. destruct H3 as [->|(g&Hg&->)].
    + exists g0. split; [apply Hin, elem_of_cons; by left|apply Hc].
    + exists g. split; [apply Hin, elem_of_cons; by right|apply Hc].
Qed.
End spec.

Section properties.
Context {W : Type} `{WAL W} `{MapOrder}.
Implicit Types b : @InMemoryBroker W.

(** ** produceLocked *)
(** The two caps, stated on the messages the slowest group has not acknowledged. *)
Definition overMsgs b t part log : Prop :=
  0 < maxPartitionMsgs b /\ maxPartitionMsgs b <= zlen (unacked (slowestAckLocked t part b) log).
Definition overBytes b t part log msg : Prop :=
  0 < maxPartitionBytes b /\
  maxPartitionBytes b <= sumBytes (unacked (slowestAckLocked t part b) log) + msgBytes msg.

Definition slowestFor b t part : Z :=
  if (0 <? maxPartitionMsgs b) || (0 <? maxPartitionBytes b) then slowestAckLocked t part b else -1.

Lemma admission_spec b t ts part log msg :
  wf b -> topics b !! t = Some ts -> zlookup (partitions ts) part = Some log ->
  -1 <= slowestAckLocked t part b < maxInt64 ->
  match admission ts part (slowestFor b t part) msg b with
  | Some r => r = "partition_buffer_full" /\ overMsgs b t part log \/
              r = "partition_buffer_bytes_full" /\ ~ overMsgs b t part log /\ overBytes b t part log msg
  | None => ~ overMsgs b t part log /\ ~ overBytes b t part log msg
  end.
Proof.
  intros Hwf Ht Hlog Hs. unfold admission, slowestFor, overMsgs, overBytes.
  rewrite (wf_sums Hwf _ _ part Ht), Hlog. simpl.
  destruct (Z.ltb_spec 0 (maxPartitionMsgs b)) as [Hm|Hm]; simpl.
  - rewrite bufferedCount_unacked, bufferedBytes_unacked by done.
    destruct (Z.leb_spec (maxPartitionMsgs b) (zlen (unacked (slowestAckLocked t part b) log))); [by left|].
    destruct (Z.ltb_spec 0 (maxPartitionBytes b)); simpl; [|split; lia].
    destruct (Z.leb_spec (maxPartitionBytes b)
      (sumBytes (unacked (slowestAckLocked t part b) log) + msgBytes msg)); [right|]; split_and?; lia || done.
  - destruct (Z.ltb_spec 0 (maxPartitionBytes b)); simpl; [|split; lia].
    rewrite bufferedBytes_unacked by done.
    destruct (Z.leb_spec (maxPartitionBytes b)
      (sumBytes (unacked (slowestAckLocked t part b) log) + msgBytes msg)); [right|]; split_and?; lia || done.
Qed.

(** The body after the partition has been selected. *)
Definition produceInto now t ts part msg b : InMemoryBroker * option error :=
  match admission ts part (slowestFor b t part) msg b with
  | Some reason => (emit (IncProduceRejected reason) b, Some (overload reason))
  | None =>
    let m := set_m_position part (zlen (logOf (topics b) t part)) msg in
    match appendWALEntry (messageEntry t m) b with
    | (b, Some err) => (b, Some err)
    | (b, None) =>
      (dispatchPartitionLocked now t part (set_topics (<[t := appendMessage ts part m]> (topics b)) b), None)
    end
  end.

Lemma produceLocked_eq now t msg b ts part :
  t <> "" -> topics b !! t = Some ts -> 0 < zlen (partitions ts) ->
  selectPartition msg (zlen (partitions ts)) = inl part ->
  produceLocked now t msg b = produceInto now t ts part msg b.
Proof.
  intros Ht Hts Hn Hp. unfold produceLocked, produceInto, slowestFor, logOf. rewrite decide_False by done.
  rewrite Hts. destruct (Z.leb_spec (zlen (partitions ts)) 0); [lia|]. rewrite Hp. done.
Qed.

(** C38: backpressure is exact: with [s] the slowest group's last acknowledged offset, a
    message for partition [part] is refused, with the reason of the cap and nothing changed
    but a metric, if and only if the messages past [s] reach the message cap, or their bytes
    plus the new ones reach the byte cap; every other failure comes from the log. *)
Theorem backpressure_exact now t msg b ts part log :
  wf b -> t <> "" -> topics b !! t = Some ts ->
  selectPartition msg (zlen (partitions ts)) = inl part ->
  zlookup (partitions ts) part = Some log ->
  -1 <= slowestAckLocked t part b < maxInt64 ->
  (overMsgs b t part log ->
     produceLocked now t msg b =
     (emit (IncProduceRejected "partition_buffer_full") b, Some (overload "partition_buffer_full"))) /\
  (~ overMsgs b t part log -> overBytes b t part log msg ->
     produceLocked now t msg b =
     (emit (IncProduceRejected "partition_buffer_bytes_full") b,
      Some (overload "partition_buffer_bytes_full"))) /\
  (~ overMsgs b t part log -> ~ overBytes b t part log msg ->
     snd (produceLocked now t msg b) =
     snd (appendWALEntry (messageEntry t (set_m_position part (zlen log) msg)) b)).
Proof.
  intros Hwf Ht Hts Hp Hlog Hs. pose proof (zlookup_Some_lt _ _ _ Hlog).
  rewrite (produceLocked_eq _ _ _ _ _ part) by (done || lia). unfold produceInto.
  pose proof (admission_spec b t ts part log msg Hwf Hts Hlog Hs) as Ha.
  rewrite (logOf_lookup _ _ _ _ _ Hts Hlog).
  destruct (admission _ _ _ _ _) as [r|].
  - split_and!; intros; destruct Ha as [[-> ?]|(->&?&?)]; done.
  - destruct Ha. split_and!; intros; try done. by destruct (appendWALEntry _ _) as [? [?|]].
Qed.

Lemma produceLocked_effect' now t msg b b' err :
  wf b -> produceLocked now t msg b = (b', err) ->
  match err with
  | Some _ => quiet b b'
  | None => exists ts part, topics b !! t = Some ts /\
      selectPartition msg (zlen (partitions ts)) = inl part /\ 0 <= part < zlen (partitions ts) /\
      let m := set_m_position part (zlen (logOf (topics b) t part)) msg in
      snd (appendWALEntry (messageEntry t m) b) = None /\
      forall t' p', logOf (topics b') t' p' =
        if decide (t = t' /\ part = p') then logOf (topics b) t part ++ [m] else logOf (topics b) t' p'
  end.
Proof.
  intros Hwf E. unfold produceLocked in E. case_decide as Ht; [by simplify_eq|].
  destruct (topics b !! t) as [ts|] eqn:Hts; [|by simplify_eq].
  destruct (Z.leb_spec (zlen (partitions ts)) 0); [by simplify_eq|].
  destruct (selectPartition _ _) as [part|] eqn:Ep; [|by simplify_eq].
  pose proof (selectPartition_range _ _ _ ltac:(done) Ep) as Hr.
  destruct (admission _ _ _ _ _); [simplify_eq; apply quiet_emit|].
  destruct (zlookup_is_Some _ _ Hr) as [log Hlog]. rewrite Hlog in E. simpl in E.
  pose proof (logOf_lookup _ _ _ _ _ Hts Hlog) as Hlo.
  destruct (appendWALEntry _ _) as [b1 err1] eqn:E1. apply quiet_appendWALEntry_eq in E1 as Q.
  destruct err1; injection E as <- <-; [done|]. exists ts, part. cbv zeta. rewrite Hlo.
  split_and!; try done; try lia; [by rewrite E1|].
  intros t' p'. pose proof (wf_appendMessage t ts part log msg b1 (quiet_wf _ _ Q Hwf)) as Hwf2.
  rewrite (q_topics _ _ Q) in *. destruct (Hwf2 Hts Hlog) as [Hwf3 _].
  rewrite (df_topics _ _ (dispatchPartitionLocked_df now t part _ Hwf3)). simpl.
  by rewrite (logOf_appendMessage _ _ _ _ _ _ _ Hts Hr), Hlo.
Qed.
(** C7: what [produceLocked] does: on success the message, stamped with the selected
    partition and the next offset, is the new last element of that partition's log and no
    other log changes; its record was accepted by the write-ahead log first.  On an error
    no log, committed offset, in-flight entry or stream changes. *)
Theorem produceLocked_effect now t msg b b' err :
  wf b -> produceLocked now t msg b = (b', err) ->
  match err with
  | Some _ => quiet b b'
  | None => exists ts part, topics b !! t = Some ts /\
      selectPartition msg (zlen (partitions ts)) = inl part /\ 0 <= part < zlen (partitions ts) /\
      let m := set_m_position part (zlen (logOf (topics b) t part)) msg in
      snd (appendWALEntry (messageEntry t m) b) = None /\
      forall t' p', logOf (topics b') t' p' =
        if decide (t = t' /\ part = p') then logOf (topics b) t part ++ [m] else logOf (topics b) t' p'
  end.
Proof. apply produceLocked_effect'. Qed.

(** the slowest acknowledged offset, which the caps are measured from, is the least
    committed offset over the groups of the topic (-1 when there is none), whatever the
    order in which the map is visited. *)
Theorem slowestAck_is_least t p b :
  (offsetGroups b t = ∅ -> slowestAckLocked t p b = -1) /\
  (forall g, g ∈ offsetGroups b t -> slowestAckLocked t p b <= committedRaw b t g p) /\
  (offsetGroups b t <> ∅ -> exists g, g ∈ offsetGroups b t /\ slowestAckLocked t p b = committedRaw b t g p).
Proof. apply slowestAck_spec. Qed.

(** creating a topic: an error changes no topic; success means the name was free, the
    mode valid and the record logged, and adds the topic with that many empty partitions. *)
Theorem CreateTopicWithConfig_effect name n cfg b b' err :
  CreateTopicWithConfig name n cfg b = (b', err) ->
  match err with
  | Some _ => topics b' = topics b
  | None => name <> "" /\ 0 < n /\ topics b !! name = None /\
      exists cfg', normalizeTopicConfig cfg = inl cfg' /\
        snd (appendWALEntry (topicEntry name n cfg') b) = None /\
        topics b' = <[name := mkTopicState (replicate (Z.to_nat n) []) (replicate (Z.to_nat n) []) cfg']>
                      (topics b)
  end.
Proof.
  intros E. unfold CreateTopicWithConfig in E. case_decide; [by simplify_eq|].
  destruct (Z.leb_spec n 0); [by simplify_eq|].
  destruct (normalizeTopicConfig cfg) as [c|] eqn:Ec; [|by simplify_eq].
  destruct (topics b !! name) eqn:Ht; [by simplify_eq|].
  assert (normalizeTopicConfig c = inl c) as Hc.
  { unfold normalizeTopicConfig in Ec. case_decide; [|done].
    injection Ec as <-. destruct (decide (_ = "")) eqn:E0; [done|].
    match goal with Hd : _ \/ _ |- _ => destruct Hd as [-> | ->] end; done. }
  unfold createTopicLockedWithConfig in E. rewrite decide_False, Ht, Hc in E by done.
  destruct (Z.leb_spec n 0); [lia|].
  set (b1 := set_topics _ b) in E.
  destruct (appendWALEntry (topicEntry name n c) b1) as [b2 err2] eqn:E2.
  pose proof (quiet_appendWALEntry_eq _ _ _ _ E2) as Q.
  destruct err2; simplify_eq; simpl.
  - rewrite (q_topics _ _ Q). simpl. by rewrite delete_insert_id.
  - split_and!; try done. exists c. split_and!; [done| |].
    + unfold appendWALEntry in *. simpl in E2. destruct (wal b); [|done]. destruct (Append _ _) as [? [?|]]; simplify_eq/=; done.
    + pose proof (quiet_emit (IncTopicCreated name) b2) as Q2. by rewrite (q_topics _ _ Q2), (q_topics _ _ Q).
Qed.
End properties.

(** ** Instances *)
Lemma backpressure_exact_witness :
  snd (produceLocked T0 "orders" plainMsg ex5) = None /\
  snd (produceLocked T0 "orders" plainMsg (fst (produceLocked T0 "orders" plainMsg ex5))) =
  Some (overload "partition_buffer_full").
Proof.
  split; [by vm_compute|]. set (b := fst (produceLocked T0 "orders" plainMsg ex5)).
  assert (wf b) as Hwf.
  { apply reachable_wf', (reachable_step ex5), step_produce. apply reachable_ex5. }
  destruct (backpressure_exact T0 "orders" plainMsg b
    (default (mkTopicState [] [] (mkTopicConfig "")) (topics b !! "orders")) 0
    (logOf (topics b) "orders" 0) Hwf) as [Hover _]; [by vm_compute..|].
  rewrite Hover; [done|]. split; vm_compute; [reflexivity|discriminate].
Defined.

Lemma produceLocked_effect_witness :
  exists ts part, topics ex4 !! "orders" = Some ts /\
    selectPartition retryMsg (zlen (partitions ts)) = inl part /\ 0 <= part < zlen (partitions ts) /\
    let m := set_m_position part (zlen (logOf (topics ex4) "orders" part)) retryMsg in
    snd (appendWALEntry (messageEntry "orders" m) ex4) = None /\
    forall t' p', logOf (topics ex5) t' p' =
      if decide ("orders" = t' /\ part = p') then logOf (topics ex4) "orders" part ++ [m]
      else logOf (topics ex4) t' p'.
Proof.
  apply (produceLocked_effect T0 "orders" retryMsg ex4 ex5 None wf_ex4).
  unfold ex5. assert (snd (produceLocked T0 "orders" retryMsg ex4) = None) as Hn by by vm_compute.
  revert Hn. destruct (produceLocked _ _ _ _). simpl. by intros ->.
Defined.

Lemma CreateTopicWithConfig_effect_witness :
  topics (fst (CreateTopicWithConfig "orders" 1 (mkTopicConfig "realtime") ex5)) = topics ex5.
Proof.
  destruct (CreateTopicWithConfig "orders" 1 (mkTopicConfig "realtime") ex5) as [b' err] eqn:E.
  pose proof (CreateTopicWithConfig_effect _ _ _ _ _ _ E) as Hc.
  assert (snd (CreateTopicWithConfig "orders" 1 (mkTopicConfig "realtime") ex5) <> None) as Hn by by vm_compute.
  rewrite E in Hn. destruct err; [exact Hc|]. by destruct Hn.
Defined.
