(* ===== verification/Inspect.v ===== *)
(** * Inspection (broker.go: ConsumerLag, MessageStates, Peek; state_maps.go:
    partitionLeaseSnapshotLocked; metrics_snapshot.go; metrics.go)

    Read-only views of the broker's state. *)
From S2P Require Import Prelude Storage Idempotency BrokerTypes BrokerState Dispatch Produce Redelivery Consume BrokerInv DispatchInv BrokerSteps.
From S2P Require Import ProduceSpec.
From Stdlib Require Import Init.Byte.

(** ** debugtypes *)
Record ConsumerLagRow : Type := mkLagRow {
  lr_Group : string;
  lr_Topic : string;
  lr_Partition : Z;
  HeadOffset : Z;
  CommittedOffset : Z;
  Inflight : Z;
  Lag : Z;
  LeaseOwners : list string;
  LastOwner : string;
  LastDeliveredAt : Z;
  OldestLeaseAge : Z;
  LeaseDurationMs : Z;
  LeaseExpiresAt : Z;
  Stalled : bool
}.

Record MessageStateRow : Type := mkStateRow {
  sr_Group : string;
  sr_Topic : string;
  sr_Partition : Z;
  sr_Offset : Z;
  State : string;
  sr_Owner : string;
  sr_Key : string;
  sr_Value : string;
  sr_Attempts : Z;
  sr_LastError : string;
  sr_LastDeliveredAt : Z;
  sr_LeaseAgeMs : Z;
  sr_LeaseDurationMs : Z;
  sr_LeaseExpiresAtMs : Z;
  sr_Stalled : bool;
  sr_Envelope : option Envelope;
  sr_Routing : option RoutingMetadata
}.

Record PartitionMetric : Type := mkPM { pm_Topic : string; pm_Group : string; pm_Partition : Z; pm_Value : Z }.
Record MetricsSnapshotT : Type := mkSnapshot { ms_InFlight : list PartitionMetric; ms_ConsumerLag : list PartitionMetric }.
Record InflightCount : Type := mkIC { ic_Topic : string; ic_Group : string; ic_Partition : Z; ic_Count : Z }.

Definition string_of_bytes (b : bytes) : string := String.string_of_list_byte b.

Section inspect.
Context {W : Type} `{MapOrder}.
Abbreviation broker := (@InMemoryBroker W).

(** ** partitionLeaseSnapshotLocked *)
Record LeaseSnapshot : Type := mkLS {
  ls_owners : list string; ls_oldestAgeMs : Z; ls_leaseDurationMs : Z;
  ls_leaseExpiresAtMs : Z; ls_stalled : bool
}.

Definition oldestEntry (byOff : gmap Z inflightEntry) : option inflightEntry :=
  foldl (fun oldest off =>
    match byOff !! off with
    | None => oldest
    | Some e =>
      match oldest with
      | None => Some e
      | Some o => if Before (SentAt e) (SentAt o) then Some e else Some o
      end
    end) None (order (dom byOff)).

Definition ownerSet (byOff : gmap Z inflightEntry) : gset string :=
  map_fold (fun _ e s => if decide (Owner e = "") then s else {[Owner e]} ∪ s) ∅ byOff.

Definition partitionLeaseSnapshotLocked (now : Time) (topic group : string) (partition : Z) (b : broker) :
    LeaseSnapshot :=
  let byOff := inFlightOf b topic group partition in
  if decide (byOff = ∅) then mkLS [] 0 0 0 false
  else
    let ownerLease := ownerLeaseByTopicGroupLocked topic group b in
    let owners := sortStrings (order (ownerSet byOff)) in
    match oldestEntry byOff with
    | None => mkLS owners 0 0 0 false
    | Some o =>
      if IsZero (SentAt o) then mkLS owners 0 0 0 false
      else
        let age := Milliseconds (Sub now (SentAt o)) in
        let d := default 0 (ownerLease !! Owner o) in
        let d := if d <=? 0 then ackTimeout b else d in
        let ms := Milliseconds d in
        mkLS owners age ms (UnixMilli (Add (SentAt o) d)) ((0 <? ms) && (ms <? age))
    end.

(** ** ConsumerLag *)
(** Internal offsets are "last acked"; the debug view exposes "next to deliver". *)
Definition committedNext (b : broker) (topic group : string) (partition : Z) : Z :=
  let c := committedRaw b topic group partition +₆₄ 1 in if c <? 0 then 0 else c.

Definition lagRow (now : Time) (group topic : string) (partition : Z) (part : list Message) (b : broker) :
    ConsumerLagRow :=
  let committed := committedNext b topic group partition in
  let ls := partitionLeaseSnapshotLocked now topic group partition b in
  let last := lookup3 (lastDelivery b) topic group partition in
  let head := zlen part in
  let lag := head - committed in
  {| lr_Group := group; lr_Topic := topic; lr_Partition := partition; HeadOffset := head;
     CommittedOffset := committed;
     Inflight := Z.of_nat (size (inFlightOf b topic group partition));
     Lag := if lag <? 0 then 0 else lag;
     LeaseOwners := ls_owners ls;
     LastOwner := match last with Some s => ds_Owner s | None => "" end;
     LastDeliveredAt :=
       match last with
       | Some s => if IsZero (ds_At s) then 0 else UnixMilli (ds_At s)
       | None => 0
       end;
     OldestLeaseAge := ls_oldestAgeMs ls; LeaseDurationMs := ls_leaseDurationMs ls;
     LeaseExpiresAt := ls_leaseExpiresAtMs ls; Stalled := ls_stalled ls |}.

Definition selectTopics (topic : string) (b : broker) : list string :=
  if decide (topic = "") then sortStrings (order (dom (topics b)))
  else match topics b !! topic with Some _ => [topic] | None => [] end.

Definition partitionsOf (b : broker) (topic : string) : list (list Message) :=
  match topics b !! topic with Some ts => partitions ts | None => [] end.

Definition ConsumerLag (now : Time) (group topic : string) (b : broker) : list ConsumerLagRow :=
  mjoin ((fun name => imap (fun p part => lagRow now group name (Z.of_nat p) part b)
                       (partitionsOf b name)) <$> selectTopics topic b).

(** ** MessageStates *)
Definition clampLimit (limit : Z) : Z :=
  let limit := if limit <? 1 then 1 else limit in if 1000 <? limit then 1000 else limit.

Definition baseRow (group topic : string) (partition : Z) (m : Message) (state : string) : MessageStateRow :=
  mkStateRow group topic partition (m_Offset m) state "" (string_of_bytes (m_Key m))
    (string_of_bytes (m_Value m)) 1 "" 0 0 0 0 false (m_Envelope m) (m_Routing m).

Definition messageRow (now : Time) (group topic : string) (partition : Z) (m : Message) (b : broker) :
    MessageStateRow :=
  let r := baseRow group topic partition m in
  if HasPrefix topic "dlq." then
    mkStateRow group topic partition (m_Offset m) "dead_lettered" "" (string_of_bytes (m_Key m))
      (string_of_bytes (m_Value m)) (m_Attempts m) (m_LastError m) 0 0 0 0 false
      (m_Envelope m) (m_Routing m)
  else
  match inFlightOf b topic group partition !! m_Offset m with
  | Some e =>
    let lease := default 0 (ownerLeaseByTopicGroupLocked topic group b !! Owner e) in
    let lease := if lease <=? 0 then ackTimeout b else lease in
    let z := IsZero (SentAt e) in
    let age := if z then 0 else Milliseconds (Sub now (SentAt e)) in
    let dur := Milliseconds lease in
    mkStateRow group topic partition (m_Offset m) "in_flight" (Owner e) (string_of_bytes (m_Key m))
      (string_of_bytes (m_Value m)) (Attempts e) (ie_LastError e)
      (if z then 0 else UnixMilli (SentAt e)) age dur
      (if z then 0 else UnixMilli (Add (SentAt e) lease)) ((0 <? dur) && (dur <? age))
      (m_Envelope m) (m_Routing m)
  | None =>
    let retry := getRetryState topic group partition b ≫= fun rs => rs !! m_Offset m in
    match retry with
    | Some rs =>
      if decide (rs_LastError rs = "") then
        r (if m_Offset m <? committedNext b topic group partition then "acked" else "queued")
      else
        mkStateRow group topic partition (m_Offset m) "retried" "" (string_of_bytes (m_Key m))
          (string_of_bytes (m_Value m)) 1 (rs_LastError rs) 0 0 0 0 false
          (m_Envelope m) (m_Routing m)
    | None => r (if m_Offset m <? committedNext b topic group partition then "acked" else "queued")
    end
  end.

Definition rowMatches (status owner : string) (row : MessageStateRow) : bool :=
  (bool_decide (status = "") || bool_decide (status = "all") || bool_decide (State row = status))
  && (bool_decide (owner = "") || bool_decide (sr_Owner row = owner)).

(** The rows of a topic in visiting order: partitions upwards, offsets downwards. *)
Definition topicRows (now : Time) (group topic : string) (b : broker) : list MessageStateRow :=
  mjoin (imap (fun p part =>
    (fun m => messageRow now group topic (Z.of_nat p) m b) <$> reverse part) (partitionsOf b topic)).

(** The visit stops ([goto done]) as soon as [limit] rows have been collected. *)
Definition collectRows (status owner : string) (limit : Z) (rows : list MessageStateRow) :
    list MessageStateRow :=
  take (Z.to_nat limit) (filter (fun r => rowMatches status owner r = true) rows).

Definition stateRow_le (r s : MessageStateRow) : Prop :=
  if decide (sr_Topic r = sr_Topic s) then
    if decide (sr_Partition r = sr_Partition s) then sr_Offset s <= sr_Offset r
    else sr_Partition r <= sr_Partition s
  else string_le (sr_Topic r) (sr_Topic s).
#[export] Instance stateRow_le_dec : RelDecision stateRow_le.
Proof. intros r s. unfold stateRow_le. repeat case_decide; apply _. Defined.

Definition MessageStates (now : Time) (group topic status owner : string) (limit : Z) (b : broker) :
    list MessageStateRow :=
  let limit := clampLimit limit in
  let status := ToLower (TrimSpace status) in
  let owner := TrimSpace owner in
  let rows := mjoin ((fun t => topicRows now group t b) <$> selectTopics topic b) in
  merge_sort stateRow_le (collectRows status owner limit rows).

(** ** Peek *)
Record peekMsg : Type := mkPeek { pk_Partition : Z; pk_Message : Message }.
Definition peek_le (x y : peekMsg) : Prop :=
  if decide (m_Offset (pk_Message x) = m_Offset (pk_Message y))
  then pk_Partition x <= pk_Partition y
  else m_Offset (pk_Message y) <= m_Offset (pk_Message x).
#[export] Instance peek_le_dec : RelDecision peek_le.
Proof. intros x y. unfold peek_le. case_decide; apply _. Defined.

Definition flatten (parts : list (list Message)) : list peekMsg :=
  mjoin (imap (fun p part => mkPeek (Z.of_nat p) <$> part) parts).

Definition Peek (topic : string) (limit : Z) (b : broker) : list peekMsg + error :=
  let limit := clampLimit limit in
  match topics b !! topic with
  | None => inr (topicNotFound topic)
  | Some ts => inl (take (Z.to_nat limit) (merge_sort peek_le (flatten (partitions ts))))
  end.

(** ** MetricsSnapshot *)
(** [sort.Search]: the least index of [0, n) where [f] holds (n if none), by bisection. *)
Fixpoint searchLoop (fuel : nat) (i j : Z) (f : Z -> bool) : Z :=
  match fuel with
  | O => i
  | S fuel =>
    if i <? j then
      let h := (i + j) `div` 2 in
      if f h then searchLoop fuel i h f else searchLoop fuel (h + 1) j f
    else i
  end.
Definition sortSearch (n : nat) (f : Z -> bool) : Z := searchLoop n 0 (Z.of_nat n) f.

Definition lagForPartition (part : list Message) (committed : Z) : Z :=
  if decide (part = []) then 0
  else
    let i := sortSearch (length part)
               (fun i => match zlookup part i with Some m => committed <? m_Offset m | None => false end) in
    zlen part - i.

Definition metricGroups (topic : string) (b : broker) : gset string :=
  dom (default ∅ (consumerOffsets b !! topic)) ∪ dom (default ∅ (inFlight b !! topic))
  ∪ dom (default ∅ (consumerChans b !! topic)).

Definition MetricsSnapshot (b : broker) : MetricsSnapshotT :=
  let rows (f : string -> string -> Z -> list Message -> Z) :=
    mjoin ((fun topic =>
      mjoin ((fun group =>
        imap (fun p part => mkPM topic group (Z.of_nat p) (f topic group (Z.of_nat p) part))
          (partitionsOf b topic)) <$> order (metricGroups topic b)))
      <$> order (dom (topics b))) in
  mkSnapshot (rows (fun t g p part => Z.of_nat (size (inFlightOf b t g p))))
    (rows (fun t g p part => lagForPartition part (committedRaw b t g p))).

(** ** SnapshotInflightCounts *)
Definition SnapshotInflightCounts (b : broker) : list InflightCount :=
  mjoin ((fun topic =>
    mjoin ((fun group =>
      (fun part => mkIC topic group part (Z.of_nat (size (inFlightOf b topic group part))))
        <$> order (dom (get2 (inFlight b) topic group)))
      <$> order (dom (default ∅ (inFlight b !! topic)))))
    <$> order (dom (inFlight b))).
End inspect.

(** ** What the read-only views show (properties of Inspect.v) *)
(** ** sort.Search *)
(** [sort.Search] by bisection: for a predicate that stays true once it is true, the
    result is the least index of [0, n) at which it holds, [n] if there is none, and [n]
    rounds are always enough to find it. *)
Lemma sortSearch_least n f :
  (forall i j, 0 <= i <= j -> j < Z.of_nat n -> f i = true -> f j = true) ->
  let r := sortSearch n f in
  0 <= r <= Z.of_nat n /\ (forall i, 0 <= i < r -> f i = false) /\ (r < Z.of_nat n -> f r = true).
Proof.
  intros Hmono. unfold sortSearch.
  assert (forall fuel i j, 0 <= i <= j -> j <= Z.of_nat n -> j - i <= Z.of_nat fuel ->
    (forall x, 0 <= x < i -> f x = false) -> (j < Z.of_nat n -> f j = true) ->
    let r := searchLoop fuel i j f in
    0 <= r <= Z.of_nat n /\ (forall x, 0 <= x < r -> f x = false) /\ (r < Z.of_nat n -> f r = true)) as Hl.
  { induction fuel as [|fuel IH]; intros i j Hij Hj Hf Hlo Hhi; cbn [searchLoop].
    { assert (i = j) as -> by lia. split_and!; [lia|lia|done..]. }
    destruct (Z.ltb_spec i j); [|assert (i = j) as -> by lia; by split_and!; [lia|lia|..]].
    pose proof (Z.div_mod (i + j) 2). pose proof (Z.mod_pos_bound (i + j) 2).
    set (h := (i + j) `div` 2) in *. assert (i <= h < j) as Hh by lia.
    destruct (f h) eqn:Efh.
    - apply IH; [lia|lia|lia|done|done].
    - apply IH; [lia|lia|lia| |done]. intros x Hx. destruct (decide (x < i)); [apply Hlo; lia|].
      destruct (f x) eqn:Efx; [|done]. rewrite (Hmono x h) in Efh by (done || lia). done. }
  apply Hl; [lia..|intros; lia|intros; lia].
Qed.

Lemma searchLoop_unique n f r :
  0 <= r <= Z.of_nat n -> (forall i, 0 <= i < r -> f i = false) -> (forall i, r <= i < Z.of_nat n -> f i = true) ->
  sortSearch n f = r.
Proof.
  intros Hr Hlo Hhi. unfold sortSearch.
  assert (forall fuel i j, 0 <= i <= r -> r <= j <= Z.of_nat n -> j - i <= Z.of_nat fuel ->
    searchLoop fuel i j f = r) as Hl.
  { induction fuel as [|fuel IH]; intros i j Hi Hj Hf; cbn [searchLoop]; [lia|].
    destruct (Z.ltb_spec i j); [|lia]. pose proof (Z.div_mod (i + j) 2). pose proof (Z.mod_pos_bound (i + j) 2).
    set (h := (i + j) `div` 2) in *. destruct (f h) eqn:Efh.
    - apply IH; [lia| |lia]. destruct (decide (h < r)); [by rewrite Hlo in Efh by lia|lia].
    - apply IH; [|lia..]. destruct (decide (h < r)); [lia|by rewrite Hhi in Efh by lia]. }
  apply Hl; lia.
Qed.

Section lag.
Context {W : Type} `{WAL W} `{MapOrder}.
Implicit Types b : @InMemoryBroker W.

(** The messages a group has not committed. *)
Definition pastCommitted (c : Z) (log : list Message) : list Message := drop (Z.to_nat (Z.max 0 (c + 1))) log.

(** the lag the metrics show for a partition, found by bisection, is the number of
    messages whose offset is past the committed one. *)
Theorem lagForPartition_exact b t p c :
  wf b -> lagForPartition (logOf (topics b) t p) c = zlen (filter (fun m => c < m_Offset m) (logOf (topics b) t p)).
Proof.
  intros Hwf. set (log := logOf (topics b) t p).
  assert (forall i m, zlookup log i = Some m -> m_Offset m = i) as Hoff.
  { intros i m Hm. by eapply logOf_offsets. }
  assert (zlen (filter (fun m => c < m_Offset m) log) = zlen (pastCommitted c log)) as ->.
  { f_equal. unfold pastCommitted. clearbody log. clear Hwf.
    assert (forall k l, (forall i m, l !! i = Some m -> m_Offset m = Z.of_nat (k + i)) ->
      filter (fun m => c < m_Offset m) l = drop (Z.to_nat (Z.max 0 (c + 1)) - k) l) as Hf.
    { intros k l. revert k. induction l as [|m l IH]; intros k Hl; [by rewrite drop_nil|].
      pose proof (Hl 0%nat m eq_refl) as Hm. rewrite filter_cons.
      rewrite (IH (S k)) by (intros i x Hx; rewrite (Hl (S i) x Hx); f_equal; lia).
      case_decide.
      - replace (Z.to_nat (Z.max 0 (c + 1)) - S k)%nat with 0%nat by lia.
        by replace (Z.to_nat (Z.max 0 (c + 1)) - k)%nat with 0%nat by lia.
      - by replace (Z.to_nat (Z.max 0 (c + 1)) - k)%nat with (S (Z.to_nat (Z.max 0 (c + 1)) - S k)) by lia. }
    rewrite (Hf 0%nat); [by rewrite Nat.sub_0_r|]. intros i m Hm. apply (Hoff (Z.of_nat i)).
    unfold zlookup. rewrite decide_True by lia. by rewrite Nat2Z.id. }
  unfold lagForPartition. case_decide as Hnil; [by rewrite Hnil; unfold pastCommitted; rewrite drop_nil|].
  rewrite (searchLoop_unique (length log) _ (Z.min (zlen log) (Z.max 0 (c + 1)))).
  - unfold pastCommitted, zlen. rewrite length_drop. lia.
  - unfold zlen. lia.
  - intros i Hi. destruct (zlookup log i) as [m|] eqn:Em; [|done]. rewrite (Hoff _ _ Em). lia.
  - intros i Hi. fold (zlen log) in Hi. destruct (zlookup_is_Some log i) as [m Hm]; [unfold zlen in *; lia|].
    rewrite Hm, (Hoff _ _ Hm). lia.
Qed.

(** the lag row of a group: with the committed offset a valid one, the head offset is the
    length of the log, the committed offset shown is the next one to deliver, the lag is the
    number of messages past the committed offset, and the in-flight count never exceeds the
    configured window. *)
Theorem lagRow_exact now g t p b :
  wf b -> -1 <= committedRaw b t g p < maxInt64 ->
  let r := lagRow now g t p (logOf (topics b) t p) b in
  HeadOffset r = zlen (logOf (topics b) t p) /\
  CommittedOffset r = committedRaw b t g p + 1 /\
  Lag r = zlen (unacked (committedRaw b t g p) (logOf (topics b) t p)) /\
  Inflight r = Z.of_nat (size (inFlightOf b t g p)) /\
  (0 < maxInFlight b -> Inflight r <= maxInFlight b).
Proof.
  intros Hwf Hc. cbv zeta. unfold lagRow. simpl.
  assert (committedNext b t g p = committedRaw b t g p + 1) as Hn.
  { unfold committedNext. rewrite wrap64_id by (unfold int64_ok, minInt64, maxInt64 in *; lia).
    destruct (Z.ltb_spec (committedRaw b t g p + 1) 0); lia. }
  rewrite Hn. split_and!; try done.
  - unfold unacked, zlen. rewrite length_drop.
    destruct (Z.ltb_spec (Z.of_nat (length (logOf (topics b) t p)) - (committedRaw b t g p + 1)) 0); lia.
  - intros Hm. apply (wf_cap Hwf Hm).
Qed.

(** *** Listings *)
Lemma clampLimit_range l : 1 <= clampLimit l <= 1000.
Proof. unfold clampLimit. destruct (Z.ltb_spec l 1); [done|]. destruct (Z.ltb_spec 1000 l); lia. Qed.

#[local] Instance peek_le_total : Total peek_le.
Proof. intros x y. unfold peek_le. repeat case_decide; lia. Qed.
#[local] Instance peek_le_trans : Transitive peek_le.
Proof. intros x y z. unfold peek_le. repeat case_decide; lia. Qed.

(** [Peek] returns the most recent messages: with the limit clamped to [1, 1000], the
    result is sorted by descending offset (ties by partition), holds every message of the
    topic when there are no more than the limit, and nothing left out comes before anything
    returned; an unknown topic is the only error. *)
Theorem Peek_effect topic limit b :
  match topics b !! topic, Peek topic limit b with
  | None, r => r = inr (topicNotFound topic)
  | Some ts, inr _ => False
  | Some ts, inl l =>
    Sorted peek_le l /\ zlen l = Z.min (clampLimit limit) (zlen (flatten (partitions ts))) /\
    exists rest, l ++ rest ≡ₚ flatten (partitions ts) /\ forall x y, x ∈ l -> y ∈ rest -> peek_le x y
  end.
Proof.
  unfold Peek. destruct (topics b !! topic) as [ts|]; [|done].
  set (all := flatten (partitions ts)). set (n := Z.to_nat (clampLimit limit)).
  pose proof (clampLimit_range limit) as Hr.
  pose proof (StronglySorted_merge_sort peek_le all) as Hs.
  rewrite <- (take_drop n (merge_sort peek_le all)) in Hs. split_and!.
  - apply StronglySorted_Sorted. by eapply StronglySorted_app_1_l.
  - unfold zlen. rewrite length_take. rewrite (Permutation_length (merge_sort_Permutation peek_le all)). lia.
  - exists (drop n (merge_sort peek_le all)). split; [by rewrite take_drop, merge_sort_Permutation|].
    intros x y Hx Hy. by eapply StronglySorted_app_1_elem_of.
Qed.

#[local] Instance stateRow_le_total : Total stateRow_le.
Proof.
  intros x y. unfold stateRow_le. repeat case_decide; try congruence; try lia. apply string_le_total.
Qed.

(** [MessageStates]: at most 1000 rows and at most the limit, sorted by topic, partition
    and descending offset, every one the row of a message of a selected topic that passes
    the status and owner filters; all of those when they fit in the limit. *)
Theorem MessageStates_effect now group topic status owner limit b :
  let rows := filter (fun r => rowMatches (ToLower (TrimSpace status)) (TrimSpace owner) r = true)
    (mjoin ((fun t => topicRows now group t b) <$> selectTopics topic b)) in
  let out := MessageStates now group topic status owner limit b in
  zlen out = Z.min (clampLimit limit) (zlen rows) /\ zlen out <= 1000 /\
  Sorted stateRow_le out /\ (forall r, r ∈ out -> r ∈ rows) /\ (zlen rows <= clampLimit limit -> out ≡ₚ rows).
Proof.
  intros rows out. pose proof (clampLimit_range limit) as Hr.
  assert (out ≡ₚ take (Z.to_nat (clampLimit limit)) rows) as Hp by (apply merge_sort_Permutation).
  assert (zlen out = Z.min (clampLimit limit) (zlen rows)) as Hlen.
  { unfold zlen. rewrite (Permutation_length Hp), length_take. lia. }
  split_and!; [done|lia| | |].
  - apply (Sorted_merge_sort stateRow_le).
  - intros r Hin. rewrite Hp in Hin. by eapply elem_of_take in Hin as (i&Hi%list_elem_of_lookup_2&_).
  - intros Hle. rewrite Hp, take_ge; [done|]. unfold zlen in Hle. lia.
Qed.
End lag.

(** *** Instances *)
Lemma lagForPartition_exact_witness :
  lagForPartition (logOf (topics ex5) "orders" 0) 0 =
    zlen (filter (fun m => 0 < m_Offset m) (logOf (topics ex5) "orders" 0)) /\
  lagForPartition (logOf (topics ex5) "orders" 0) 0 = 1.
Proof. split; [exact (lagForPartition_exact ex5 "orders" 0 0 wf_ex5)|vm_compute; reflexivity]. Defined.

Lemma lagRow_exact_witness :
  let r := lagRow T0 "workers" "orders" 0 (logOf (topics ex5) "orders" 0) ex5 in
  Lag r = zlen (unacked (-1) (logOf (topics ex5) "orders" 0)) /\ Lag r = 2 /\ Inflight r <= 4.
Proof.
  cbv zeta. destruct (lagRow_exact T0 "workers" "orders" 0 ex5 wf_ex5) as (_&_&Hl&_&Hi).
  - vm_compute. split; [discriminate|reflexivity].
  - split; [exact Hl|]. split; [vm_compute; reflexivity|]. apply Hi. reflexivity.
Defined.

(** A message that was rejected once and then acknowledged is shown as "retried", not as
    "acked": acknowledging does not purge the retry state. *)
Definition exRejected : exBroker := fst (Nack (T0 + 1) "orders" "workers" 0 0 "alice" "boom" ex5).
Definition exAcked : exBroker := fst (AckIfOwner (T0 + 2) (T0 + 2) (T0 + 2) "orders" "workers" 0 0 "alice" exRejected).
Lemma acked_message_shown_as_retried :
  committedRaw exAcked "orders" "workers" 0 = 0 /\
  (fun r => (sr_Partition r, sr_Offset r, State r)) <$>
    MessageStates (T0 + 3) "workers" "orders" "retried" "" 10 exAcked = [(0, 0, "retried")].
Proof. split; vm_compute; reflexivity. Qed.

(** ** The lag tracker (internal/broker/lag_tracker.go) *)
(** Head offsets per (topic, partition); committed offsets and in-flight sets per
    (group, topic, partition). *)
Abbreviation lagKey := (string * Z)%type.
Abbreviation inflightKey := (string * string * Z)%type.

Record LagTracker : Type := mkLagTracker {
  head : gmap lagKey Z;
  committed : gmap inflightKey Z;
  inflight : gmap inflightKey (gset Z)
}.

Definition NewLagTracker : LagTracker := mkLagTracker ∅ ∅ ∅.

(** [if cur := m[k]; next > cur { m[k] = next }]: a missing key reads as 0. *)
Definition raise `{Countable K} (k : K) (next : Z) (m : gmap K Z) : gmap K Z :=
  if default 0 (m !! k) <? next then <[k := next]> m else m.

Definition OnProduced (topic : string) (partition offset : Z) (t : LagTracker) : LagTracker :=
  mkLagTracker (raise (topic, partition) (offset +₆₄ 1) (head t)) (committed t) (inflight t).

Definition OnLeased (group topic : string) (partition offset : Z) (t : LagTracker) : LagTracker :=
  let k := (group, topic, partition) in
  mkLagTracker (head t) (committed t) (<[k := {[offset]} ∪ default ∅ (inflight t !! k)]> (inflight t)).

Definition dropInflight (k : inflightKey) (offset : Z) (m : gmap inflightKey (gset Z)) :
    gmap inflightKey (gset Z) :=
  match m !! k with
  | None => m
  | Some s => let s := s ∖ {[offset]} in if decide (s = ∅) then delete k m else <[k := s]> m
  end.

Definition OnAcked (group topic : string) (partition offset : Z) (t : LagTracker) : LagTracker :=
  let k := (group, topic, partition) in
  mkLagTracker (head t) (raise k (offset +₆₄ 1) (committed t)) (dropInflight k offset (inflight t)).

Definition OnNacked (group topic : string) (partition offset : Z) (t : LagTracker) : LagTracker :=
  mkLagTracker (head t) (committed t) (dropInflight (group, topic, partition) offset (inflight t)).

Definition Snapshot `{MapOrder} (group topic : string) (t : LagTracker) : list ConsumerLagRow :=
  omap (fun hk : lagKey =>
    if negb (bool_decide (topic = "")) && negb (bool_decide (hk.1 = topic)) then None
    else
      let ik := (group, hk.1, hk.2) in
      Some {| lr_Group := group; lr_Topic := hk.1; lr_Partition := hk.2;
              HeadOffset := default 0 (head t !! hk);
              CommittedOffset := default 0 (committed t !! ik);
              Inflight := Z.of_nat (size (default ∅ (inflight t !! ik)));
              Lag := 0; LeaseOwners := []; LastOwner := ""; LastDeliveredAt := 0;
              OldestLeaseAge := 0; LeaseDurationMs := 0; LeaseExpiresAt := 0; Stalled := false |})
    (order (dom (head t))).

(** *** Properties *)
(** The tracker's lag of a group in a partition, as the snapshot's reader computes it. *)
Definition trackedLag (group topic : string) (partition : Z) (t : LagTracker) : Z :=
  default 0 (head t !! (topic, partition)) - default 0 (committed t !! (group, topic, partition)).

(** *** The lag tracker against the history of events (properties of LagTracker.v) *)
(** *** Histories *)
Inductive levent : Type :=
| EProduced (t : string) (p o : Z)
| ELeased (g t : string) (p o : Z)
| EAcked (g t : string) (p o : Z)
| ENacked (g t : string) (p o : Z).

Definition track (s : LagTracker) (ev : levent) : LagTracker :=
  match ev with
  | EProduced t p o => OnProduced t p o s
  | ELeased g t p o => OnLeased g t p o s
  | EAcked g t p o => OnAcked g t p o s
  | ENacked g t p o => OnNacked g t p o s
  end.
Definition trackAll (evs : list levent) : LagTracker := foldl track NewLagTracker evs.

Definition ev_offset (ev : levent) : Z :=
  match ev with EProduced _ _ o | ELeased _ _ _ o | EAcked _ _ _ o | ENacked _ _ _ o => o end.

(** What a history says, with no state: one past the largest offset produced (acknowledged),
    and whether the last event of an offset in a group was a lease. *)
Definition headStep (k : lagKey) (acc : Z) (ev : levent) : Z :=
  match ev with
  | EProduced t p o => if decide ((t, p) = k) then Z.max acc (o + 1) else acc
  | _ => acc
  end.
Definition headOf (k : lagKey) (evs : list levent) : Z := foldl (headStep k) 0 evs.
Definition ackedStep (k : inflightKey) (acc : Z) (ev : levent) : Z :=
  match ev with
  | EAcked g t p o => if decide ((g, t, p) = k) then Z.max acc (o + 1) else acc
  | _ => acc
  end.
Definition ackedOf (k : inflightKey) (evs : list levent) : Z := foldl (ackedStep k) 0 evs.
Definition leasedStep (k : inflightKey) (o : Z) (acc : bool) (ev : levent) : bool :=
  match ev with
  | ELeased g t p o' => if decide ((g, t, p) = k /\ o' = o) then true else acc
  | EAcked g t p o' | ENacked g t p o' => if decide ((g, t, p) = k /\ o' = o) then false else acc
  | EProduced _ _ _ => acc
  end.
Definition leasedIn (k : inflightKey) (o : Z) (evs : list levent) : bool := foldl (leasedStep k o) false evs.

(** *** One event *)
Lemma raise_lookup `{Countable K} (k k' : K) next m :
  default 0 (raise k next m !! k') = if decide (k = k') then Z.max (default 0 (m !! k')) next else default 0 (m !! k').
Proof.
  unfold raise. destruct (Z.ltb_spec (default 0 (m !! k)) next).
  - destruct (decide (k = k')) as [->|]; simplify_map_eq; [simpl; lia|done].
  - destruct (decide (k = k')) as [->|]; [lia|done].
Qed.

Definition inSet (k : inflightKey) (o : Z) (m : gmap inflightKey (gset Z)) : Prop := o ∈ default ∅ (m !! k).

Lemma inSet_drop k o m k' o' : inSet k' o' (dropInflight k o m) <-> inSet k' o' m /\ ~ (k = k' /\ o = o').
Proof.
  unfold inSet, dropInflight. destruct (m !! k) as [s|] eqn:E.
  - case_decide as Hs; destruct (decide (k = k')) as [->|]; simplify_map_eq; set_solver.
  - split; [|tauto]. intros Hin. split; [done|]. intros [<- <-]. rewrite E in Hin. set_solver.
Qed.

Lemma drop_nonempty k o m : (forall k, m !! k <> Some ∅) -> forall k', dropInflight k o m !! k' <> Some ∅.
Proof.
  intros Hm k'. unfold dropInflight. destruct (m !! k) as [s|] eqn:E; [|done].
  case_decide; destruct (decide (k = k')) as [->|]; simplify_map_eq; naive_solver.
Qed.

Definition tracks (s : LagTracker) (evs : list levent) : Prop :=
  (forall k, default 0 (head s !! k) = headOf k evs) /\
  (forall k, default 0 (committed s !! k) = ackedOf k evs) /\
  (forall k o, inSet k o (inflight s) <-> leasedIn k o evs = true) /\
  (forall k, inflight s !! k <> Some ∅).

Lemma tracks_step s evs ev :
  tracks s evs -> 0 <= ev_offset ev < maxInt64 -> tracks (track s ev) (evs ++ [ev]).
Proof.
  intros (Hh&Hc&Hi&Hn) Ho. unfold tracks, headOf, ackedOf, leasedIn. setoid_rewrite foldl_app. simpl.
  fold (headOf) (ackedOf) (leasedIn).
  assert (ev_offset ev +₆₄ 1 = ev_offset ev + 1) as Hw.
  { apply wrap64_id. unfold int64_ok, minInt64, maxInt64 in *. lia. }
  destruct ev as [t p o|g t p o|g t p o|g t p o]; simpl in *; rewrite ?Hw.
  - split_and!; [|done..]. intros k. rewrite raise_lookup. case_decide; [|apply Hh]. by rewrite Hh.
  - split_and!; [done|done| |].
    + intros k o'. unfold inSet in *. destruct (decide ((g, t, p) = k)) as [<-|].
      * rewrite lookup_insert_eq. simpl. rewrite elem_of_union, elem_of_singleton, Hi. case_decide; naive_solver.
      * rewrite lookup_insert_ne by done. rewrite Hi. case_decide; naive_solver.
    + intros k. destruct (decide ((g, t, p) = k)) as [<-|]; [|by rewrite lookup_insert_ne].
      rewrite lookup_insert_eq. intros [= He]. set_solver.
  - split_and!; [done| | |by apply drop_nonempty].
    + intros k. rewrite raise_lookup. case_decide; [|apply Hc]. by rewrite Hc.
    + intros k o'. rewrite inSet_drop, Hi. case_decide; naive_solver.
  - split_and!; [done|done| |by apply drop_nonempty].
    intros k o'. rewrite inSet_drop, Hi. case_decide; naive_solver.
Qed.

Lemma tracks_all evs : Forall (fun ev => 0 <= ev_offset ev < maxInt64) evs -> tracks (trackAll evs) evs.
Proof.
  induction evs as [|ev evs IH] using rev_ind; intros Ho.
  - unfold tracks, inSet. simpl. split_and!; intros; by rewrite ?lookup_empty.
  - apply Forall_app in Ho as [Ho Hev]. unfold trackAll in *. rewrite foldl_app. apply tracks_step; [by apply IH|].
    by inv Hev.
Qed.

(** after any history of events the tracker's head is one past the largest offset
    produced, its committed offset one past the largest acknowledged, its in-flight set the
    offsets whose last event is a lease, and no empty set is kept in the map. *)
Theorem lag_tracker_history evs :
  Forall (fun ev => 0 <= ev_offset ev < maxInt64) evs ->
  let s := foldl track NewLagTracker evs in
  (forall t p, default 0 (head s !! (t, p)) = headOf (t, p) evs) /\
  (forall g t p, default 0 (committed s !! (g, t, p)) = ackedOf (g, t, p) evs) /\
  (forall g t p o, o ∈ default ∅ (inflight s !! (g, t, p)) <-> leasedIn (g, t, p) o evs = true) /\
  (forall k, inflight s !! k <> Some ∅).
Proof.
  intros Ho. destruct (tracks_all evs Ho) as (Hh&Hc&Hi&Hn). split_and!; [intros; apply Hh|intros; apply Hc| |exact Hn].
  intros. apply Hi.
Qed.

(** *** Instances *)
Lemma lag_tracker_history_witness :
  let evs := [EProduced "t" 0 0; EProduced "t" 0 1; ELeased "g" "t" 0 0; ELeased "g" "t" 0 1; EAcked "g" "t" 0 0] in
  let s := foldl track NewLagTracker evs in
  default 0 (head s !! ("t", 0)) = 2 /\ default 0 (committed s !! ("g", "t", 0)) = 1 /\
  1 ∈ default ∅ (inflight s !! ("g", "t", 0)).
Proof.
  cbv zeta.
  destruct (lag_tracker_history [EProduced "t" 0 0; EProduced "t" 0 1; ELeased "g" "t" 0 0; ELeased "g" "t" 0 1;
    EAcked "g" "t" 0 0]) as (Hh&Hc&Hi&_).
  - repeat (constructor; [simpl; unfold maxInt64; lia|]). constructor.
  - split; [rewrite Hh; reflexivity|]. split; [rewrite Hc; reflexivity|]. apply Hi. reflexivity.
Defined.
