(* ===== verification/IdemSpec.v ===== *)
(** * What the idempotency store promises

    Runs of the store are sequences of operations ([iop]) with their clock readings.  A
    lease excludes every other owner until it expires; a committed key stays committed; a
    commit is in the log before it is in memory, and survives a restart. *)
From S2P Require Import Prelude Storage Idempotency BrokerTypes BrokerState Dispatch Produce BrokerInv WalReplay BrokerSteps.
From Stdlib Require Import Init.Byte.

Section store.
Context {W : Type} `{WAL W}.
Abbreviation state := (IdempotencyStore * option W)%type.

(** ** Operations as data *)
Inductive iop : Type :=
| OBegin (now : Time) (tenantID topic key : string)
| OCommit (now : Time) (tenantID topic key : string) (result : bytes)
| OFail (now : Time) (tenantID topic key : string) (cause : option error)
| OCheck (now : Time) (tenantID topic key : string)
| OConsumeBegin (now : Time) (tenantID topic group key owner : string) (lease : Duration)
| ORenew (now : Time) (tenantID topic group key owner : string) (lease : Duration)
| OConsumeCommit (now : Time) (tenantID topic group key owner : string) (result : bytes)
| OConsumeFail (now : Time) (tenantID topic group key owner : string) (cause : option error)
| OConsumeCheck (now : Time) (tenantID topic group key : string).

Definition istep (op : iop) (x : state) : state :=
  let '(s, w) := x in
  match op with
  | OBegin now a t k => (fst (Begin now a t k s), w)
  | OCommit now a t k r => (Commit now a t k r s, w)
  | OFail now a t k c => (Fail_ now a t k c s, w)
  | OCheck now a t k => (fst (Check_ now a t k s), w)
  | OConsumeBegin now a t g k o l => fst (ConsumeBeginLease now a t g k o l s w)
  | ORenew now a t g k o l => fst (ConsumeRenewLease now a t g k o l s w)
  | OConsumeCommit now a t g k o r => fst (ConsumeCommitIfOwner now a t g k o r s w)
  | OConsumeFail now a t g k o c => fst (ConsumeFailIfOwner now a t g k o c s w)
  | OConsumeCheck now a t g k => (fst (ConsumeCheck now a t g k s), w)
  end.
Definition irun (ops : list iop) (x : state) : state := foldl (fun x op => istep op x) x ops.

Definition op_time (op : iop) : Time :=
  match op with
  | OBegin n _ _ _ | OCommit n _ _ _ _ | OFail n _ _ _ _ | OCheck n _ _ _
  | OConsumeBegin n _ _ _ _ _ _ | ORenew n _ _ _ _ _ _ | OConsumeCommit n _ _ _ _ _ _
  | OConsumeFail n _ _ _ _ _ _ | OConsumeCheck n _ _ _ _ => n
  end.
(** The consume-scope key an operation acts on, and for whom. *)
Definition op_actor (op : iop) : option (idempotencyKey * string) :=
  match op with
  | OConsumeBegin _ a t g k o _ | ORenew _ a t g k o _ | OConsumeCommit _ a t g k o _
  | OConsumeFail _ a t g k o _ => Some (consumeKey a t g k, orUnknown o)
  | _ => None
  end.

(** ** How the operations change one entry *)
Lemma items_cleanup now s k :
  items (cleanupLocked now s) !! k =
  match items s !! k with
  | Some st => if decide (0 < ttl s /\ cleanup_keeps (ttl s) now k st = false) then None else Some st
  | None => None
  end.
Proof.
  unfold cleanupLocked. destruct (Z.leb_spec (ttl s) 0).
  - destruct (items s !! k); [|done]. rewrite decide_False by lia. done.
  - simpl. destruct (items s !! k) as [st|] eqn:E.
    + destruct (cleanup_keeps (ttl s) now k st) eqn:Ek.
      * rewrite decide_False by naive_solver. by apply map_lookup_filter_Some.
      * rewrite decide_True by done. apply map_lookup_filter_None. right. intros st' ?.
        simplify_eq/=. by rewrite Ek.
    + apply map_lookup_filter_None. by left.
Qed.

Lemma ttl_cleanup now s : ttl (cleanupLocked now s) = ttl s.
Proof. unfold cleanupLocked. by case_match. Qed.

Lemma items_put k st s k' : items (put k st s) !! k' = if decide (k = k') then Some st else items s !! k'.
Proof. unfold put. simpl. by rewrite lookup_insert. Qed.

Lemma items_appendThenPut e k st s w s' w' err :
  appendThenPut e k st s w = (s', w', err) ->
  match err with Some _ => s' = s | None => s' = put k st s end.
Proof. unfold appendThenPut. destruct (walAppend e w) as [? [?|]]; intros; by simplify_eq. Qed.

(** Entries other than the ones an operation acts on are only ever dropped by the
    cleanup. *)
Definition op_keys (op : iop) : idempotencyKey :=
  match op with
  | OBegin _ a t k | OCommit _ a t k _ | OFail _ a t k _ | OCheck _ a t k => produceKey a t k
  | OConsumeBegin _ a t g k _ _ | ORenew _ a t g k _ _ | OConsumeCommit _ a t g k _ _
  | OConsumeFail _ a t g k _ _ | OConsumeCheck _ a t g k => consumeKey a t g k
  end.

Definition kept (now : Time) (s : IdempotencyStore) (k : idempotencyKey) (st : IdempotencyStatus) : Prop :=
  ttl s <= 0 \/ cleanup_keeps (ttl s) now k st = true.

Lemma items_cleanup_kept now s k st :
  items s !! k = Some st -> kept now s k st -> items (cleanupLocked now s) !! k = Some st.
Proof.
  intros Hk Hkept. rewrite items_cleanup, Hk. rewrite decide_False; [done|].
  intros [? Hf]. destruct Hkept as [?|Ht]; [lia|]. by rewrite Ht in Hf.
Qed.

(** Every operation cleans up or not, then changes at most the entry of its own key. *)
Lemma istep_shape op s w :
  exists s1, (s1 = s \/ s1 = cleanupLocked (op_time op) s) /\
    (fst (istep op (s, w)) = s1 \/ exists st, fst (istep op (s, w)) = put (op_keys op) st s1).
Proof.
  destruct op; simpl;
    unfold Begin, Commit, Fail_, Check_, ConsumeBeginLease, ConsumeRenewLease, ConsumeCommitIfOwner,
      ConsumeFailIfOwner, ConsumeCheck;
    repeat first
      [ progress simpl
      | match goal with
        | |- context [appendThenPut ?e ?k ?st ?s ?w] =>
          let E := fresh in destruct (appendThenPut e k st s w) as [[? ?] err] eqn:E;
          apply items_appendThenPut in E; destruct err; subst
        end
      | case_decide | case_match ];
    first [ exists s; split; [by left|]; first [by left | right; by eexists]
          | eexists (cleanupLocked _ s); split; [by right|]; first [by left | right; by eexists] ].
Qed.

Lemma istep_other op x k st :
  items (fst x) !! k = Some st -> op_keys op <> k -> kept (op_time op) (fst x) k st ->
  items (fst (istep op x)) !! k = Some st.
Proof.
  intros Hk Hne Hkept. destruct x as [s w].
  destruct (istep_shape op s w) as (s1&Hs1&Hput). simpl in *.
  assert (items s1 !! k = Some st) as Hk1.
  { destruct Hs1 as [-> | ->]; [done|]. by apply items_cleanup_kept. }
  destruct Hput as [->|[st' ->]]; [done|]. by rewrite items_put, decide_False.
Qed.

Lemma ttl_istep op x : ttl (fst (istep op x)) = ttl (fst x).
Proof.
  destruct x as [s w]. destruct (istep_shape op s w) as (s1&Hs1&Hput).
  change (ttl (fst (istep op (s, w))) = ttl s).
  assert (ttl s1 = ttl s) by (destruct Hs1 as [-> | ->]; [done|apply ttl_cleanup]).
  by destruct Hput as [->|[st' ->]].
Qed.

(** ** Leases *)
Definition holds (s : IdempotencyStore) (k : idempotencyKey) (o : string) (u : Time) : Prop :=
  exists st, items s !! k = Some st /\ Status st = IdemStatusPending /\ st_Owner st = o /\
    st_LeaseUntil st = u /\ u <> 0.

Lemma leaseActive_before now st u :
  st_LeaseUntil st = u -> u <> 0 -> now < u -> leaseActive now st = true.
Proof.
  intros <- ? ?. unfold leaseActive, IsZero, Before.
  destruct (Z.eqb_spec (st_LeaseUntil st) 0); [done|]. simpl. by apply Z.ltb_lt.
Qed.

Lemma pending_kept now s a t g key st u :
  Status st = IdemStatusPending -> st_LeaseUntil st = u -> u <> 0 -> now < u ->
  kept now s (consumeKey a t g key) st.
Proof.
  intros Hst Hu Hu0 Hn. right. unfold cleanup_keeps. rewrite Hst.
  case_decide; [done|]. rewrite decide_True by done. by rewrite (leaseActive_before _ _ u).
Qed.

Lemma committed_kept now s a t g key st :
  Status st = IdemStatusCommitted -> kept now s (consumeKey a t g key) st.
Proof. intros Hst. right. unfold cleanup_keeps. by rewrite decide_True. Qed.

Lemma op_keys_consume op a t g key :
  op_keys op = consumeKey a t g key ->
  match op with
  | OBegin _ _ _ _ | OCommit _ _ _ _ _ | OFail _ _ _ _ _ | OCheck _ _ _ _ => False
  | _ => True
  end.
Proof. by destruct op. Qed.

Lemma checkOwner_other now o st :
  Status st = IdemStatusPending -> st_Owner st <> o -> checkOwner now o st = Some ErrIdempotencyLeaseHeld.
Proof.
  intros Hs Ho. unfold checkOwner. rewrite bool_decide_eq_true_2 by done. simpl.
  by rewrite bool_decide_eq_false_2.
Qed.

(** Another owner's operations on a held key are refused and change nothing but the cleanup. *)
Lemma begin_held now a t g key o o' u lease s (w : option W) :
  holds s (consumeKey a t g key) o u -> now < u -> orUnknown o' <> o -> key <> "" ->
  validateLease lease = None ->
  ConsumeBeginLease now a t g key o' lease s w =
  (cleanupLocked now s, w, (false, [], Some ErrIdempotencyLeaseHeld)).
Proof.
  intros (st&Hk&Hst&Ho&Hu&Hu0) Hn Hne Hkey Hl. unfold ConsumeBeginLease. rewrite decide_False, Hl by done.
  cbv zeta. rewrite (items_cleanup_kept _ _ _ _ Hk) by by eapply pending_kept.
  rewrite decide_False by by rewrite Hst. rewrite decide_True by done.
  rewrite (leaseActive_before _ _ u) by done. rewrite bool_decide_eq_false_2 by congruence. done.
Qed.

Lemma holds_step op x a t g key o u :
  holds (fst x) (consumeKey a t g key) o u -> op_time op < u ->
  op_actor op <> Some (consumeKey a t g key, o) -> holds (fst (istep op x)) (consumeKey a t g key) o u.
Proof.
  intros Hh Hn Hact. pose proof Hh as (st&Hk&Hst&Ho&Hu&Hu0).
  destruct (decide (op_keys op = consumeKey a t g key)) as [He|Hne]; [|exists st; split_and!; try done;
    apply istep_other; [done..|]; by eapply pending_kept].
  pose proof (op_keys_consume _ _ _ _ _ He) as Hc. destruct x as [s w]; simpl in Hk.
  pose proof (items_cleanup_kept (op_time op) s _ _ Hk ltac:(by eapply pending_kept)) as Hk'.
  assert (holds (cleanupLocked (op_time op) s) (consumeKey a t g key) o u) as Hh' by by exists st.
  destruct op; try done; simpl in *; injection He as -> -> -> ->;
    unfold ConsumeRenewLease, ConsumeCommitIfOwner, ConsumeFailIfOwner, ConsumeCheck;
    try (assert (st_Owner st <> orUnknown owner) as Hno by congruence);
    try rewrite Hk'; cbv zeta; try rewrite (checkOwner_other _ _ _ Hst Hno);
    try (repeat case_match; done).
  unfold ConsumeBeginLease. case_decide as Hkey; [done|].
  destruct (validateLease lease) eqn:Hl; [done|].
  rewrite <- Ho in *. pose proof (begin_held now a t g key (st_Owner st) owner u lease s w Hh Hn) as Hb.
  unfold ConsumeBeginLease in Hb. rewrite decide_False, Hl in Hb by done.
  rewrite Hb; [done|congruence|done|done].
Qed.

Lemma holds_run ops x a t g key o u :
  holds (fst x) (consumeKey a t g key) o u ->
  Forall (fun op => op_time op < u /\ op_actor op <> Some (consumeKey a t g key, o)) ops ->
  holds (fst (irun ops x)) (consumeKey a t g key) o u.
Proof.
  intros Hh Hops. revert x Hh. induction Hops as [|op ops [Hn Ha] _ IH]; intros x Hh; simpl; [done|].
  apply IH. by apply holds_step.
Qed.

Lemma begin_success now a t g key o lease s (w : option W) s' w' res :
  key <> "" -> 0 <= now -> ConsumeBeginLease now a t g key o lease s w = (s', w', (false, res, None)) ->
  0 < lease /\ holds s' (consumeKey a t g key) (orUnknown o) (Add now lease).
Proof.
  intros Hkey Hn E. unfold ConsumeBeginLease in E. rewrite decide_False in E by done.
  destruct (validateLease lease) as [e|] eqn:Hl; [by simplify_eq|].
  assert (0 < lease) as Hl0.
  { unfold validateLease in Hl. destruct (Z.leb_spec lease 0); [done|lia]. }
  split; [done|]. cbv zeta in E.
  assert (forall st, Status st = IdemStatusPending -> st_Owner st = orUnknown o ->
    st_LeaseUntil st = Add now lease -> forall e s1,
    (let '(s, w, err) := appendThenPut e (consumeKey a t g key) st s1 w in (s, w, (false, [], err))) =
    (s', w', (false, res, None)) -> holds s' (consumeKey a t g key) (orUnknown o) (Add now lease)) as Hput.
  { intros st H1 H2 H3 e s1 E1.
    destruct (appendThenPut e (consumeKey a t g key) st s1 w) as [[s2 w2] err] eqn:Ea.
    apply items_appendThenPut in Ea. destruct err; [discriminate E1|]. injection E1 as <- _ _.
    rewrite Ea. exists st. rewrite items_put, decide_True by done.
    split_and!; try done. unfold Add. lia. }
  destruct (items _ !! _) as [st|]; [|by eapply Hput in E].
  case_decide; [by simplify_eq|]. case_decide; [|by eapply Hput in E].
  destruct (_ && _); [by simplify_eq|]. by eapply Hput in E.
Qed.

(** The other operations that ask for the owner. *)
Lemma others_held now a t g key o o' u lease result cause s (w : option W) :
  holds s (consumeKey a t g key) o u -> now < u -> orUnknown o' <> o -> key <> "" -> validateLease lease = None ->
  let kept := (cleanupLocked now s, w, Some ErrIdempotencyLeaseHeld) in
  ConsumeRenewLease now a t g key o' lease s w = kept /\
  ConsumeCommitIfOwner now a t g key o' result s w = kept /\
  ConsumeFailIfOwner now a t g key o' cause s w = kept.
Proof.
  intros (st&Hk&Hst&Ho&Hu&Hu0) Hn Hne Hkey Hl. unfold ConsumeRenewLease, ConsumeCommitIfOwner, ConsumeFailIfOwner.
  rewrite !(decide_False (P := key = "")), Hl by done. cbv zeta.
  rewrite (items_cleanup_kept _ _ _ _ Hk) by by eapply pending_kept.
  rewrite (checkOwner_other _ (orUnknown o') st Hst) by congruence. rewrite decide_False by by rewrite Hst. done.
Qed.
(** The owner's own commit of a held key fails only when its record is not accepted. *)
Lemma owner_commits now a t g key o u result s (w : option W) s' w' err :
  holds s (consumeKey a t g key) (orUnknown o) u -> now < u -> key <> "" ->
  ConsumeCommitIfOwner now a t g key o result s w = (s', w', err) ->
  match err with
  | None => exists st, items s' !! consumeKey a t g key = Some st /\ Status st = IdemStatusCommitted /\ st_Result st = result
  | Some err => s' = cleanupLocked now s /\ exists e, walAppend e w = (w', Some err)
  end.
Proof.
  intros (st&Hk&Hst&Ho&Hu&Hu0) Hn Hkey. unfold ConsumeCommitIfOwner. rewrite decide_False by done. cbv zeta.
  rewrite (items_cleanup_kept _ _ _ _ Hk) by by eapply pending_kept. rewrite decide_False by by rewrite Hst.
  assert (checkOwner now (orUnknown o) st = None) as ->.
  { unfold checkOwner. rewrite !bool_decide_eq_true_2 by done. cbn. unfold IsZero, Before. rewrite Hu.
    destruct (Z.eqb_spec u 0); [done|]. destruct (Z.ltb_spec now u); [done|lia]. }
  unfold appendThenPut. destruct (walAppend _ w) as [w2 [er|]] eqn:Ew; intros [= <- <- <-]; [split; [done|by eexists]|].
  eexists. rewrite items_put, decide_True by done. done.
Qed.

(** C5: A consume-scope lease is exclusive.  Once an owner has taken it on a key, then, whatever
    operations run on the store before it expires, by anyone on other keys and by other owners on
    this one, the owner still holds it; before it expires the claim, the renewal, the commit and
    the failure of any other owner are refused with "lease held" and change nothing but expired
    entries; and the owner's commit fails only when the log refuses its record, and otherwise
    leaves the key committed with its result. *)
Theorem lease_exclusive now a t g key o lease s (w : option W) s1 w1 res ops n' o' l' result cause :
  key <> "" -> 0 <= now ->
  ConsumeBeginLease now a t g key o lease s w = (s1, w1, (false, res, None)) ->
  Forall (fun op => op_time op < Add now lease /\
    op_actor op <> Some (consumeKey a t g key, orUnknown o)) ops ->
  n' < Add now lease -> orUnknown o' <> orUnknown o -> validateLease l' = None ->
  let x := irun ops (s1, w1) in
  holds (fst x) (consumeKey a t g key) (orUnknown o) (Add now lease) /\
  (let refused := (cleanupLocked n' (fst x), snd x, Some ErrIdempotencyLeaseHeld) in
   ConsumeBeginLease n' a t g key o' l' (fst x) (snd x) =
     (cleanupLocked n' (fst x), snd x, (false, [], Some ErrIdempotencyLeaseHeld)) /\
   ConsumeRenewLease n' a t g key o' l' (fst x) (snd x) = refused /\
   ConsumeCommitIfOwner n' a t g key o' result (fst x) (snd x) = refused /\
   ConsumeFailIfOwner n' a t g key o' cause (fst x) (snd x) = refused) /\
  match ConsumeCommitIfOwner n' a t g key o result (fst x) (snd x) with
  | (s2, _, None) => exists st, items s2 !! consumeKey a t g key = Some st /\
                       Status st = IdemStatusCommitted /\ st_Result st = result
  | (s2, w2, Some err) => s2 = cleanupLocked n' (fst x) /\ exists e, walAppend e (snd x) = (w2, Some err)
  end.
Proof.
  intros Hkey Hn E Hops Hn' Ho' Hl' x. destruct (begin_success _ _ _ _ _ _ _ _ _ _ _ _ Hkey Hn E) as [_ Hh].
  pose proof (holds_run ops (s1, w1) _ _ _ _ _ _ Hh Hops) as Hh'. fold x in Hh'. split; [done|]. split.
  - split; [exact (begin_held _ _ _ _ _ _ _ _ _ _ _ Hh' Hn' Ho' Hkey Hl')|].
    exact (others_held _ _ _ _ _ _ _ _ _ _ _ _ _ Hh' Hn' Ho' Hkey Hl').
  - destruct (ConsumeCommitIfOwner n' a t g key o result (fst x) (snd x)) as [[s2 w2] err] eqn:Ec.
    exact (owner_commits _ _ _ _ _ _ _ _ _ _ _ _ _ Hh' Hn' Hkey Ec).
Qed.

(** ** Commits *)
Lemma committed_step op x a t g key st :
  items (fst x) !! consumeKey a t g key = Some st -> Status st = IdemStatusCommitted ->
  items (fst (istep op x)) !! consumeKey a t g key = Some st.
Proof.
  intros Hk Hst. pose proof (committed_kept (op_time op) (fst x) a t g key st Hst) as Hkept.
  destruct (decide (op_keys op = consumeKey a t g key)) as [He|Hne]; [|by apply istep_other].
  pose proof (op_keys_consume _ _ _ _ _ He) as Hc. destruct x as [s w]; simpl in *.
  pose proof (items_cleanup_kept (op_time op) s _ _ Hk Hkept) as Hk'.
  assert (forall now o, checkOwner now o st = Some ErrIdempotencyLeaseLost) as Hco.
  { intros. unfold checkOwner. by rewrite Hst. }
  destruct op; try done; simpl in *; injection He as -> -> -> ->;
    unfold ConsumeBeginLease, ConsumeRenewLease, ConsumeCommitIfOwner, ConsumeFailIfOwner, ConsumeCheck;
    case_decide; try done; cbv zeta; rewrite ?Hk', ?Hco; repeat case_match; try done.
Qed.

(** fencing of the commit, on every branch: with an empty key nothing happens; otherwise
    a key that is already committed succeeds without effect; an unknown key, a key whose
    lease is lost or expired, and a lease held by someone else are refused without effect; a
    refusal of the log is returned and memory is unchanged; else the record becomes COMMITTED
    with the given result, after its log entry was accepted. *)
Theorem ConsumeCommitIfOwner_fenced now a t g key o result s (w : option W) s' w' err :
  key <> "" -> ConsumeCommitIfOwner now a t g key o result s w = (s', w', err) ->
  let k := consumeKey a t g key in
  match items (cleanupLocked now s) !! k with
  | None => s' = cleanupLocked now s /\ w' = w /\ err = Some ErrIdempotencyNotFound
  | Some st =>
    if decide (Status st = IdemStatusCommitted) then s' = cleanupLocked now s /\ w' = w /\ err = None
    else if decide (Status st <> IdemStatusPending) then
      s' = cleanupLocked now s /\ w' = w /\ err = Some ErrIdempotencyLeaseLost
    else if decide (st_Owner st <> orUnknown o) then
      s' = cleanupLocked now s /\ w' = w /\ err = Some ErrIdempotencyLeaseHeld
    else if decide (st_LeaseUntil st = 0 \/ st_LeaseUntil st <= now) then
      s' = cleanupLocked now s /\ w' = w /\ err = Some ErrIdempotencyLeaseLost
    else
      let e := idemEntry a t g key IdemStatusCommitted (orUnknown o) (Some (st_LeaseUntil st)) result "" now in
      (w', err) = walAppend e w /\
      s' = match err with
           | None => put k (mkIdem IdemStatusCommitted result "" now "" zeroTime) (cleanupLocked now s)
           | Some _ => cleanupLocked now s
           end
  end.
Proof.
  intros Hkey E k. unfold ConsumeCommitIfOwner in E. rewrite decide_False in E by done. cbv zeta in E.
  destruct (items (cleanupLocked now s) !! _) as [st|] eqn:Hk; [|by simplify_eq].
  case_decide as Hc; [by simplify_eq|].
  unfold checkOwner, IsZero, Before in E. destruct (decide (Status st <> IdemStatusPending)) as [Hp|Hp].
  { rewrite bool_decide_eq_false_2 in E by done. by simplify_eq/=. }
  apply dec_stable in Hp. rewrite bool_decide_eq_true_2 in E by done. simpl in E.
  destruct (decide (st_Owner st <> orUnknown o)) as [Ho|Ho].
  { rewrite bool_decide_eq_false_2 in E by done. by simplify_eq/=. }
  apply dec_stable in Ho. rewrite bool_decide_eq_true_2 in E by done. simpl in E.
  destruct (Z.eqb_spec (st_LeaseUntil st) 0); simpl in E.
  { rewrite decide_True by (by left). by simplify_eq. }
  destruct (Z.ltb_spec now (st_LeaseUntil st)); simpl in E.
  - rewrite decide_False by lia. unfold appendThenPut in E.
    destruct (walAppend _ w) as [w1 err1] eqn:Ew. destruct err1; simplify_eq; done.
  - rewrite decide_True by lia. by simplify_eq.
Qed.
End store.

(** ** Survival of commits *)
(** What a log says about a consume-scope key: its last COMMITTED or FAILED record. *)
Definition idemOfEntry (k : idempotencyKey) (acc : option (string * bytes)) (e : Entry) :
    option (string * bytes) :=
  if decide (Type_ e = RecordTypeConsumeIdempotency /\ IdempotencyScope e = IdemScopeConsume /\
             consumeKey (TenantID e) (Topic e) (Group e) (IdempotencyKey e) = k)
  then
    if decide (IdempotencyStatus_ e = IdemStatusCommitted) then Some (IdemStatusCommitted, Result e)
    else if decide (IdempotencyStatus_ e = IdemStatusFailed) then Some (IdemStatusFailed, [])
    else acc
  else acc.
Definition lastIdem (k : idempotencyKey) (es : list Entry) : option (string * bytes) :=
  foldl (idemOfEntry k) None es.

Section survive.
Context {W : Type} `{WALLaws W}.

Definition isCommitted (s : IdempotencyStore) (k : idempotencyKey) (r : bytes) : Prop :=
  exists st, items s !! k = Some st /\ Status st = IdemStatusCommitted /\ st_Result st = r.

(** Every committed consume-scope record in memory is the log's last word on its key. *)
Definition durable (s : IdempotencyStore) (w : W) : Prop :=
  wal_ok w /\ forall a t g key r, isCommitted s (consumeKey a t g key) r ->
    lastIdem (consumeKey a t g key) (wal_log w) = Some (IdemStatusCommitted, r).

Lemma isCommitted_cleanup now s k r : isCommitted (cleanupLocked now s) k r -> isCommitted s k r.
Proof.
  intros (st&Hk&?). exists st. split; [|done]. rewrite items_cleanup in Hk.
  destruct (items s !! k); [|done]. by case_decide; simplify_eq.
Qed.

Lemma isCommitted_put now s k st k' r :
  isCommitted (put k st (cleanupLocked now s)) k' r ->
  k = k' /\ Status st = IdemStatusCommitted /\ st_Result st = r \/ k <> k' /\ isCommitted s k' r.
Proof.
  intros (st'&Hk&?&?). rewrite items_put in Hk. case_decide; [left; naive_solver|right].
  split; [done|]. apply (isCommitted_cleanup now). by exists st'.
Qed.

Lemma durable_mono s s' w :
  durable s w -> (forall a t g key r, isCommitted s' (consumeKey a t g key) r ->
    isCommitted s (consumeKey a t g key) r) -> durable s' w.
Proof. intros [? Hd] Hs. split; [done|]. eauto. Qed.

Lemma lastIdem_snoc k es e : lastIdem k (es ++ [e]) = idemOfEntry k (lastIdem k es) e.
Proof. unfold lastIdem. by rewrite foldl_app. Qed.

(** One append-then-put transition. *)
Lemma durable_append now a t g key status o lu r le upd st s (w : W) s' w' err :
  durable s w -> representable (idemEntry a t g key status o lu r le upd) ->
  (forall r0, ~ isCommitted s (consumeKey a t g key) r0) ->
  (Status st = IdemStatusCommitted -> status = IdemStatusCommitted /\ st_Result st = r) ->
  appendThenPut (idemEntry a t g key status o lu r le upd) (consumeKey a t g key) st
    (cleanupLocked now s) (Some w) = (s', Some w', err) ->
  durable s' w'.
Proof.
  intros [Hok Hd] Hrep Hnc Hst E. set (e := idemEntry _ _ _ _ _ _ _ _ _ _) in *.
  assert (forall k acc, k <> consumeKey a t g key -> idemOfEntry k acc e = acc) as Hother.
  { intros k acc Hk. unfold idemOfEntry. rewrite decide_False; [done|]. intros (_&_&He). by destruct Hk. }
  unfold appendThenPut in E. simpl in E. destruct (Append e w) as [w1 [er|]] eqn:Ea; simplify_eq.
  - destruct (Append_fail _ _ _ _ Hok Hrep Ea) as [Hok' Hl]. split; [done|].
    intros a' t' g' k' r' Hc%isCommitted_cleanup. specialize (Hd _ _ _ _ _ Hc).
    destruct Hl as [-> | ->]; [done|]. rewrite lastIdem_snoc, Hother; [done|].
    intros He. rewrite He in Hc. by apply Hnc in Hc.
  - destruct (Append_ok _ _ _ Hok Hrep Ea) as [Hok' Hl]. split; [done|].
    intros a' t' g' k' r' Hc. rewrite Hl, lastIdem_snoc.
    apply isCommitted_put in Hc as [(He&Hs&Hr)|[He Hc]].
    + apply Hst in Hs as [Hs1 Hs2]. unfold idemOfEntry. rewrite decide_True by by rewrite <- He.
      unfold e. simpl. rewrite Hs1, decide_True by done. congruence.
    + rewrite Hother by congruence. by apply Hd.
Qed.

Hypothesis entries_representable : forall a t g key status o lu r le upd,
  representable (idemEntry a t g key status o lu r le upd).

Lemma not_committed_cleaned now s k st :
  items (cleanupLocked now s) !! k = Some st -> ik_Scope k = IdemScopeConsume ->
  Status st <> IdemStatusCommitted -> forall r, ~ isCommitted s k r.
Proof.
  intros Hk Hsc Hst r (st'&Hk'&Hc&_). apply Hst.
  rewrite (items_cleanup_kept now _ _ _ Hk') in Hk; [by simplify_eq|].
  right. unfold cleanup_keeps. by rewrite decide_True.
Qed.

Lemma not_committed_missing now s k :
  items (cleanupLocked now s) !! k = None -> ik_Scope k = IdemScopeConsume ->
  forall r, ~ isCommitted s k r.
Proof.
  intros Hk Hsc r (st'&Hk'&Hc&_). rewrite (items_cleanup_kept now _ _ _ Hk') in Hk; [done|].
  right. unfold cleanup_keeps. by rewrite decide_True.
Qed.

Lemma walAppend_Some e (w : W) w' err : walAppend e (Some w) = (w', err) -> exists w1, w' = Some w1.
Proof. simpl. destruct (Append e w). intros. simplify_eq. by eexists. Qed.

Lemma appendThenPut_Some e k st s (w : W) s' w' err :
  appendThenPut e k st s (Some w) = (s', w', err) -> exists w1, w' = Some w1.
Proof.
  unfold appendThenPut. destruct (walAppend e (Some w)) as [w1 er] eqn:E.
  apply walAppend_Some in E as [w2 ->]. destruct er; intros; simplify_eq; by eexists.
Qed.

Lemma durable_cleanup now s w : durable s w -> durable (cleanupLocked now s) w.
Proof. intros Hd. eapply durable_mono; [done|]. intros. by eapply isCommitted_cleanup. Qed.

(** A put of a produce-scope record changes no consume-scope one. *)
Lemma durable_put_produce a t key st s w : durable s w -> durable (put (produceKey a t key) st s) w.
Proof.
  intros Hd. eapply durable_mono; [done|]. intros a' t' g' k' r (st'&Hk&?).
  rewrite items_put in Hk. case_decide; [done|]. by exists st'.
Qed.

(** A transition, or none, on a cleaned-up store. *)
Ltac transition :=
  match goal with
  | |- context [appendThenPut ?e ?k ?st ?s ?w] =>
    let E := fresh "E" in destruct (appendThenPut e k st s w) as [[s1 w1] err] eqn:E;
    destruct (appendThenPut_Some _ _ _ _ _ _ _ _ E) as [w2 ->]; exists w2; split; [done|];
    eapply durable_append; [eassumption|apply entries_representable| | |exact E]; [|done]
  end.

Ltac stay := eexists; split; [reflexivity|]; simpl; auto.

Lemma durable_step op s w :
  durable s w -> exists w', snd (istep op (s, Some w)) = Some w' /\ durable (fst (istep op (s, Some w))) w'.
Proof using All.
  intros Hd. assert (forall now, durable (cleanupLocked now s) w) as Hc by (intros; by apply durable_cleanup).
  destruct op; simpl.
  - exists w. split; [done|]. unfold Begin. case_decide; [done|]. cbv zeta.
    destruct (items _ !! _); repeat case_decide; simpl; eauto using durable_put_produce.
  - exists w. split; [done|]. unfold Commit. case_decide; eauto using durable_put_produce.
  - exists w. split; [done|]. unfold Fail_. case_decide; eauto using durable_put_produce.
  - exists w. split; [done|]. unfold Check_. case_decide; simpl; eauto.
  - unfold ConsumeBeginLease. case_decide; [stay|]. destruct (validateLease lease); [stay|].
    cbv zeta. destruct (items _ !! _) as [st|] eqn:Hk.
    + destruct (decide (Status st = IdemStatusCommitted)) as [|Hst]; [stay|].
      pose proof (not_committed_cleaned _ _ _ _ Hk eq_refl Hst).
      case_decide; [destruct (_ && _); [stay|]|]; transition; done.
    + pose proof (not_committed_missing _ _ _ Hk eq_refl). transition; done.
  - unfold ConsumeRenewLease. case_decide; [stay|]. destruct (validateLease lease); [stay|].
    cbv zeta. destruct (items _ !! _) as [st|] eqn:Hk; [|stay].
    destruct (checkOwner _ _ _) eqn:Ho; [stay|].
    assert (Status st <> IdemStatusCommitted) as Hst.
    { intros Hs. unfold checkOwner in Ho. by rewrite Hs in Ho. }
    pose proof (not_committed_cleaned _ _ _ _ Hk eq_refl Hst). transition; done.
  - unfold ConsumeCommitIfOwner. case_decide; [stay|].
    cbv zeta. destruct (items _ !! _) as [st|] eqn:Hk; [|stay].
    destruct (decide (Status st = IdemStatusCommitted)) as [|Hst]; [stay|].
    destruct (checkOwner _ _ _) eqn:Ho; [stay|].
    pose proof (not_committed_cleaned _ _ _ _ Hk eq_refl Hst). transition; done.
  - unfold ConsumeFailIfOwner. case_decide; [stay|].
    cbv zeta. destruct (items _ !! _) as [st|] eqn:Hk; [|stay].
    destruct (checkOwner _ _ _) eqn:Ho; [stay|].
    assert (Status st <> IdemStatusCommitted) as Hst.
    { intros Hs. unfold checkOwner in Ho. by rewrite Hs in Ho. }
    pose proof (not_committed_cleaned _ _ _ _ Hk eq_refl Hst). transition; done.
  - exists w. split; [done|]. unfold ConsumeCheck. case_decide; simpl; eauto.
Qed.

Lemma durable_run ops s w :
  durable s w -> exists w', snd (irun ops (s, Some w)) = Some w' /\ durable (fst (irun ops (s, Some w))) w'.
Proof using All.
  revert s w. induction ops as [|op ops IH]; intros s w Hd; [by exists w|].
  destruct (durable_step op s w Hd) as (w1&Hw1&Hd1).
  change (irun (op :: ops) (s, Some w)) with (irun ops (istep op (s, Some w))).
  destruct (istep op (s, Some w)) as [s1 w1']. simpl in Hw1. subst w1'. by apply IH.
Qed.

(** ** Recovery restores them *)
Context `{MapOrder}.

(** The store agrees with the log's last word where that is a commit. *)
Definition agrees (k : idempotencyKey) (acc : option (string * bytes)) (b : @InMemoryBroker W) : Prop :=
  forall r, acc = Some (IdemStatusCommitted, r) -> isCommitted (idem b) k r.

Lemma agrees_other k acc b b' :
  (forall st, items (idem b) !! k = Some st -> items (idem b') !! k = Some st) ->
  agrees k acc b -> agrees k acc b'.
Proof. intros Hi Ha r Hr. destruct (Ha r Hr) as (st&?&?). exists st. auto. Qed.

Lemma agrees_replayConsumeIdem now k acc e b a t g key :
  k = consumeKey a t g key -> t <> "" -> g <> "" -> key <> "" ->
  Type_ e = RecordTypeConsumeIdempotency ->
  agrees k acc b -> agrees k (idemOfEntry k acc e) (replayConsumeIdem now e b).
Proof.
  intros -> Ht Hg Hkey Hty Ha. unfold replayConsumeIdem, idemOfEntry.
  destruct (decide (IdempotencyScope e = IdemScopeConsume)) as [Hsc|Hsc].
  2:{ rewrite bool_decide_eq_false_2 by done. by rewrite (decide_False (P := Type_ e = _ /\ _)) by (by intros (_&?&_)). }
  rewrite bool_decide_eq_true_2 by done. simpl.
  destruct (decide (consumeKey (TenantID e) (Topic e) (Group e) (IdempotencyKey e) = consumeKey a t g key))
    as [Hk|Hk].
  - rewrite (decide_True (P := Type_ e = _ /\ _)) by done. pose proof Hk as Hk'.
    injection Hk' as -> -> -> ->. rewrite (decide_False (P := t = "" \/ _)) by (by intros [?|[?|?]]).
    case_decide as Hs.
    + intros r [= <-]. eexists. simpl. rewrite lookup_insert_eq. done.
    + case_decide as Hf; [by intros r|done].
  - rewrite (decide_False (P := Type_ e = _ /\ _)) by (by intros (_&_&?)).
    repeat case_decide; try done; (eapply agrees_other; [|done]; intros st Hst; simpl;
      by rewrite lookup_insert_ne).
Qed.

Lemma agrees_replayEntry now k acc e b b' a t g key :
  k = consumeKey a t g key -> t <> "" -> g <> "" -> key <> "" ->
  agrees k acc b -> replayEntry now e b = inl b' -> agrees k (idemOfEntry k acc e) b'.
Proof.
  intros Hk Ht Hg Hkey Ha E.
  destruct (decide (Type_ e = RecordTypeConsumeIdempotency)) as [Hty|Hty].
  { unfold replayEntry in E. rewrite Hty in E. simplify_eq. by eapply agrees_replayConsumeIdem. }
  unfold idemOfEntry. rewrite (decide_False (P := Type_ e = _ /\ _)) by (by intros (?&_&_)).
  unfold replayEntry in E. destruct (Type_ e); try done; simplify_eq.
  - unfold replayMessage in E. destruct (zlookup _ _); [|done]. destruct (negb _); [done|].
    simplify_eq. destruct (idemKeyOf _) as [[a' k']|]; [|done].
    eapply agrees_other; [|done]. intros st Hst. simpl. unfold Commit. case_decide; [done|].
    rewrite items_put. by case_decide.
  - unfold replayOffset. destruct (committedOf _ _ _ _); [|done]. by destruct (_ <? _).
  - unfold replayTopic. case_decide; [done|]. destruct (topics b !! _); [done|].
    unfold createTopicLockedWithConfig. repeat case_match; done.
  - unfold replayRetryState. by case_decide.
  - done.
Qed.

Lemma agrees_replayEntries now k es acc b b' a t g key :
  k = consumeKey a t g key -> t <> "" -> g <> "" -> key <> "" ->
  agrees k acc b -> replayEntries now es b = inl b' -> agrees k (foldl (idemOfEntry k) acc es) b'.
Proof.
  intros Hk Ht Hg Hkey. revert acc b. induction es as [|e es IH]; intros acc b Ha E; simpl in *.
  { by simplify_eq. }
  destruct (replayEntry now e b) as [b1|] eqn:E1; [|done]. eapply IH; [|done].
  by eapply agrees_replayEntry.
Qed.

Lemma idem_purgeAcked (b : @InMemoryBroker W) : idem (purgeAcked b) = idem b.
Proof.
  assert (forall {A} (f : InMemoryBroker -> A -> @InMemoryBroker W) l b,
    (forall b x, idem (f b x) = idem b) -> idem (foldl f b l) = idem b) as Hf.
  { intros A f l b0 Hf. revert b0. induction l as [|x l IH]; intros b0; simpl; [done|]. by rewrite IH, Hf. }
  unfold purgeAcked. by do 3 (apply Hf; intros).
Qed.

(** Recovery from a log that has every commit restores them. *)
Lemma durable_recovered s w a t g key st now opts b :
  durable s w -> t <> "" -> g <> "" -> key <> "" ->
  items s !! consumeKey a t g key = Some st -> Status st = IdemStatusCommitted ->
  NewInMemoryBrokerFromWAL now (Some w) opts = inl b ->
  isCommitted (idem b) (consumeKey a t g key) (st_Result st).
Proof using All.
  intros [Hok Hd] Ht Hg Hkey Hk Hst Eb. specialize (Hd a t g key (st_Result st) ltac:(by exists st)).
  unfold NewInMemoryBrokerFromWAL in Eb. destruct (Replay w) as [w2 [es|]] eqn:Erp; [|done].
  destruct (Replay_ok _ _ _ Hok Erp) as (_&->&_).
  destruct (replayEntries _ _ _) as [b1|] eqn:E1; [|done]. simplify_eq.
  eapply (agrees_replayEntries now (consumeKey a t g key) _ None) in E1; [|done..].
  unfold lastIdem in Hd. rewrite idem_purgeAcked. by apply E1.
Qed.
End survive.

(** ** The producer's gate *)
Section produce.
Context {W : Type} `{WAL W} `{MapOrder}.
Implicit Types b : @InMemoryBroker W.

Lemma cleanup_keeps_recent ttl now k st :
  ik_Scope k = IdemScopeProduce -> now <= st_UpdatedAt st + ttl -> cleanup_keeps ttl now k st = true.
Proof.
  intros Hk Hn. unfold cleanup_keeps, Before, Add. rewrite Hk.
  do 2 (rewrite decide_False by (by intros [? _])).
  destruct (Z.ltb_spec (st_UpdatedAt st) (now + - ttl)); [lia|done].
Qed.

(** producer-side deduplication: after a [Produce] with an idempotency key went through,
    a second one for the same tenant, final topic and key, within the store's time to live,
    reports success and produces nothing. *)
Theorem produce_dedupe n1 n2 n3 n4 topic msg b b1 ft m a k m1 m2 m3 m4 topic' msg' m' :
  prepareProduce n1 topic msg b = inl (ft, m) -> idemKeyOf m = Some (a, k) ->
  snd (produceBegin n2 ft m b) = inl true -> Produce n1 n2 n3 n4 topic msg b = (b1, None) ->
  prepareProduce m1 topic' msg' b1 = inl (ft, m') -> idemKeyOf m' = Some (a, k) ->
  m2 <= n4 + ttl (idem b1) ->
  exists b2, Produce m1 m2 m3 m4 topic' msg' b1 = (b2, None) /\ quiet b1 b2.
Proof.
  intros Hp Hk Hb E Hp' Hk' Hm. unfold Produce in E |- *. rewrite Hp in E. rewrite Hp'.
  assert (k <> "") as Hk0.
  { unfold idemKeyOf in Hk. destruct (m_Envelope m); [|done]. case_decide; [done|]. by simplify_eq. }
  destruct (produceBegin n2 ft m b) as [b0 [started|res]]; simpl in Hb; [|done]. simplify_eq.
  destruct (produceLocked n3 ft m b0) as [b3 err]. simplify_eq.
  assert (items (idem (produceEnd n4 ft m true None b3)) !! produceKey a ft k =
    Some (mkIdem IdemStatusCommitted [] "" n4 "" zeroTime)) as Hit.
  { unfold produceEnd. rewrite Hk. simpl. unfold Commit. rewrite decide_False by done.
    by rewrite items_put, decide_True. }
  set (b1 := produceEnd n4 ft m true None b3) in *. clearbody b1.
  unfold produceBegin. rewrite Hk'. unfold Begin. rewrite decide_False by done. cbv zeta.
  rewrite items_cleanup, Hit. rewrite decide_False.
  - rewrite decide_True by done. eexists. split; [done|]. done.
  - intros [_ Hf]. rewrite cleanup_keeps_recent in Hf; [done..|]. simpl. lia.
Qed.
End produce.

(** ** Instances *)
Definition exStore : IdempotencyStore := NewIdempotencyStoreWithWAL 0.
Definition exLog : option MemWAL := Some (mkMemWAL [] []).
Definition exClaim := ConsumeBeginLease T0 "tenant" "orders" "workers" "key-1" "alice" Second exStore exLog.
Definition exOps : list iop :=
  [ OConsumeBegin (T0 + 1) "tenant" "orders" "workers" "key-1" "bob" Second;
    OConsumeCommit (T0 + 2) "tenant" "orders" "workers" "key-1" "bob" [x07];
    OBegin (T0 + 3) "tenant" "orders" "key-1" ].

Lemma lease_exclusive_witness :
  let x := irun exOps (fst exClaim) in
  holds (fst x) (consumeKey "tenant" "orders" "workers" "key-1") "alice" (Add T0 Second) /\
  snd (ConsumeBeginLease (T0 + 9) "tenant" "orders" "workers" "key-1" "bob" Second (fst x) (snd x)) =
  (false, [], Some ErrIdempotencyLeaseHeld).
Proof.
  destruct (fst exClaim) as [s1 w1] eqn:Ec.
  destruct (lease_exclusive T0 "tenant" "orders" "workers" "key-1" "alice" Second exStore exLog s1 w1 [] exOps
              (T0 + 9) "bob" Second [] None) as (Hh&(Hb&_)&_);
    [done|vm_compute; discriminate| | |vm_compute; reflexivity|done|by vm_compute|].
  - change (exClaim = (s1, w1, (false, [], None))). rewrite <- Ec. vm_compute. reflexivity.
  - repeat constructor; vm_compute; intros; try reflexivity; discriminate.
  - split; [exact Hh|exact (f_equal snd Hb)].
Defined.

Lemma ConsumeCommitIfOwner_fenced_witness :
  let r := ConsumeCommitIfOwner (T0 + 5) "tenant" "orders" "workers" "key-1" "bob" [x07]
             (fst (fst exClaim)) (snd (fst exClaim)) in
  snd r = Some ErrIdempotencyLeaseHeld /\ fst (fst r) = cleanupLocked (T0 + 5) (fst (fst exClaim)).
Proof.
  intros r. destruct r as [[s' w'] err] eqn:Er.
  pose proof (ConsumeCommitIfOwner_fenced (T0 + 5) "tenant" "orders" "workers" "key-1" "bob" [x07]
    _ _ s' w' err ltac:(done) Er) as Hf.
  cbv zeta in Hf. match type of Hf with context [items ?s !! ?k] =>
    replace (items s !! k) with (Some (mkIdem IdemStatusPending [] "" T0 "alice" (Add T0 Second))) in Hf
      by (by vm_compute) end.
  simpl in Hf. destruct Hf as (->&_&->). split; reflexivity.
Defined.

Definition exProduced : exBroker := fst (Produce T0 T0 T0 T0 "orders" idemMsg ex3).

Lemma produce_dedupe_witness :
  exists b2, Produce (T0 + 5) (T0 + 5) (T0 + 5) (T0 + 5) "orders" idemMsg exProduced = (b2, None) /\
    quiet exProduced b2.
Proof.
  apply (produce_dedupe T0 T0 T0 T0 "orders" idemMsg ex3 exProduced "orders" idemMsg "tenant" "key-1"
    (T0 + 5) (T0 + 5) (T0 + 5) (T0 + 5) "orders" idemMsg idemMsg).
  - vm_compute. reflexivity.
  - vm_compute. reflexivity.
  - vm_compute. reflexivity.
  - vm_compute. reflexivity.
  - vm_compute. reflexivity.
  - vm_compute. reflexivity.
  - vm_compute. discriminate.
Defined.

(** ** Backoff and log records (properties of BrokerTypes.v) *)
(** [computeBackoff] against its closed form, and the round trip of a message through its
    log record: [messageFromEntry] undoes [messageEntry] up to [normMessage], which drops
    what a record cannot represent (empty policies, empty metadata, delivery state). *)
(** ** Backoff *)
Lemma wrap64_Millisecond ms : 0 <= ms * Millisecond <= maxInt64 -> durationMs ms = ms * Millisecond.
Proof. intros. unfold durationMs. apply wrap64_id. unfold int64_ok, minInt64, maxInt64 in *. lia. Qed.

Lemma backoffLoop_capped n p x :
  0 < MaxBackoffMs p -> 2 * (MaxBackoffMs p * Millisecond) <= maxInt64 ->
  0 < x <= MaxBackoffMs p * Millisecond ->
  backoffLoop n p x = Z.min (MaxBackoffMs p * Millisecond) (x * 2 ^ Z.of_nat n).
Proof.
  intros Hm Hc. pose proof (wrap64_Millisecond (MaxBackoffMs p)) as Hd.
  unfold Millisecond in *. revert x. induction n as [|n IH]; intros x Hx; cbn [backoffLoop]; [lia|].
  rewrite Hd by lia. destruct (Z.ltb_spec 0 (MaxBackoffMs p)); [|lia]. simpl.
  pose proof (Z.pow_pos_nonneg 2 (Z.of_nat n)).
  rewrite Nat2Z.inj_succ, Z.pow_succ_r by lia.
  destruct (Z.leb_spec (MaxBackoffMs p * 1000000) x); [nia|].
  rewrite wrap64_id by (unfold int64_ok, minInt64, maxInt64 in *; lia).
  destruct (Z.ltb_spec (MaxBackoffMs p * 1000000) (x * 2)); [nia|]. rewrite IH by lia.
  f_equal. lia.
Qed.

Lemma backoffLoop_uncapped n p x :
  MaxBackoffMs p <= 0 -> 0 < x -> x * 2 ^ Z.of_nat n <= maxInt64 ->
  backoffLoop n p x = x * 2 ^ Z.of_nat n.
Proof.
  intros Hm. revert x. induction n as [|n IH]; intros x Hx Hle; cbn [backoffLoop]; [lia|].
  destruct (Z.ltb_spec 0 (MaxBackoffMs p)); [lia|]. simpl.
  rewrite Nat2Z.inj_succ, Z.pow_succ_r in * by lia.
  pose proof (Z.pow_pos_nonneg 2 (Z.of_nat n)).
  rewrite wrap64_id by (unfold int64_ok, minInt64, maxInt64 in *; nia).
  rewrite IH by lia. lia.
Qed.

(** the backoff before retry [n] is [BackoffMs * 2^(n-1)] milliseconds, cut at
    [MaxBackoffMs] when that is positive, as long as twice the cap (or, without a cap, the
    product itself) fits the 64-bit duration; it is 0 without a policy, without a base or
    for a retry number below 1. *)
Theorem computeBackoff_exact p n :
  computeBackoff None n = 0 /\
  (BackoffMs p <= 0 \/ n <= 0 -> computeBackoff (Some p) n = 0) /\
  (0 < BackoffMs p -> 0 < n -> 0 < MaxBackoffMs p ->
   BackoffMs p * Millisecond <= maxInt64 -> 2 * (MaxBackoffMs p * Millisecond) <= maxInt64 ->
   computeBackoff (Some p) n =
     Z.min (MaxBackoffMs p * Millisecond) (BackoffMs p * Millisecond * 2 ^ (n - 1))) /\
  (0 < BackoffMs p -> 0 < n -> MaxBackoffMs p <= 0 ->
   BackoffMs p * Millisecond * 2 ^ (n - 1) <= maxInt64 ->
   computeBackoff (Some p) n = BackoffMs p * Millisecond * 2 ^ (n - 1)).
Proof.
  unfold computeBackoff. split; [done|]. split; [|split].
  - intros Hn. destruct (Z.leb_spec (BackoffMs p) 0), (Z.leb_spec n 0); done || lia.
  - intros Hb Hn Hm Hb2 Hc. destruct (Z.leb_spec (BackoffMs p) 0), (Z.leb_spec n 0); try lia. simpl.
    pose proof (wrap64_Millisecond (MaxBackoffMs p)) as Hd.
    pose proof (wrap64_Millisecond (BackoffMs p)) as Hd2.
    pose proof (Z.pow_pos_nonneg 2 (n - 1)).
    unfold Millisecond in *. rewrite Hd, Hd2 by lia. destruct (Z.ltb_spec 0 (MaxBackoffMs p)); [|lia]. simpl.
    destruct (Z.ltb_spec (MaxBackoffMs p * 1000000) (BackoffMs p * 1000000)); [nia|].
    rewrite backoffLoop_capped by (unfold Millisecond; lia). unfold Millisecond. by rewrite Z2Nat.id by lia.
  - intros Hb Hn Hm Hle. destruct (Z.leb_spec (BackoffMs p) 0), (Z.leb_spec n 0); try lia. simpl.
    pose proof (wrap64_Millisecond (BackoffMs p)) as Hd2. pose proof (Z.pow_pos_nonneg 2 (n - 1)).
    unfold Millisecond in *. rewrite Hd2 by nia. destruct (Z.ltb_spec 0 (MaxBackoffMs p)); [lia|]. simpl.
    rewrite backoffLoop_uncapped by (rewrite ?Z2Nat.id; lia). by rewrite Z2Nat.id by lia.
Qed.

(** Without a cap the product wraps around: a base of one second is negative at retry 35, so
    the next delivery instant lies in the past. *)
Lemma computeBackoff_overflow : computeBackoff (Some (mkRetryPolicy 100 1000 0)) 35 < 0.
Proof. by vm_compute. Qed.

(** *** Round trip of a message through its record *)
Definition normPolicy (rp : option RetryPolicy) : option RetryPolicy :=
  match rp with
  | Some (mkRetryPolicy 0 0 0) => None
  | rp => rp
  end.
Definition normDLQ (d : option DLQMetadata) : option DLQMetadata :=
  match d with
  | Some d => if decide (OriginalTopic d = "" /\ RoutedAtMs d = 0 /\ dlq_LastError d = "") then None else Some d
  | None => None
  end.
Definition normEnvelope (e : option Envelope) : option Envelope :=
  match e with
  | None => None
  | Some (mkEnvelope r s ps l tgt po k dl rp ten d) =>
    let e := mkEnvelope r s ps l tgt po k dl (normPolicy rp) ten (normDLQ d) in
    if decide (r = "" /\ s = "" /\ ps = "" /\ l = ∅ /\ tgt = "" /\ po = None /\ k = "" /\ dl = None /\
               normPolicy rp = None /\ ten = "" /\ normDLQ d = None)
    then None else Some e
  end.
Definition normRouting (r : option RoutingMetadata) : option RoutingMetadata :=
  match r with
  | Some r => if decide (Label r = "" /\ Meta r = ∅) then None else Some r
  | None => None
  end.
Definition normMessage (m : Message) : Message :=
  mkMessage (m_Offset m) (m_Partition m) (m_Key m) (m_Value m) (normEnvelope (m_Envelope m))
    (normRouting (m_Routing m)) 0 "".

Lemma hasRetry_messageEntry t m :
  entryHasRetry (messageEntry t m) = bool_decide (is_Some (normPolicy (m_Envelope m ≫= env_RetryPolicy))).
Proof.
  unfold entryHasRetry, messageEntry. simpl. destruct (m_Envelope m ≫= _) as [[a b c]|]; [|done]. simpl.
  by destruct a, b, c.
Qed.

Lemma policy_messageEntry t m :
  let e := messageEntry t m in
  (if entryHasRetry e
   then Some (mkRetryPolicy (RetryMaxAttempts e) (RetryBackoffMs e) (RetryMaxBackoffMs e))
   else None) = normPolicy (m_Envelope m ≫= env_RetryPolicy).
Proof.
  cbv zeta. rewrite hasRetry_messageEntry. case_bool_decide as Hd.
  - simpl. destruct (m_Envelope m ≫= _) as [[a b c]|]; [|by destruct Hd]. by destruct a, b, c; try by destruct Hd.
  - symmetry. by apply eq_None_not_Some.
Qed.

Lemma hasDLQ_messageEntry t m :
  entryHasDLQ (messageEntry t m) = bool_decide (is_Some (normDLQ (m_Envelope m ≫= env_DLQ))).
Proof.
  unfold entryHasDLQ, messageEntry. simpl. destruct (m_Envelope m ≫= _) as [d|]; [|done]. simpl.
  case_decide as Hd.
  - destruct Hd as (->&->&->). done.
  - rewrite (bool_decide_eq_true_2 (is_Some (Some d))) by done.
    destruct (bool_decide (OriginalTopic d = "")) eqn:E1, (Z.eqb_spec (RoutedAtMs d) 0),
      (bool_decide (dlq_LastError d = "")) eqn:E2; try done.
    apply bool_decide_eq_true in E1, E2. by destruct Hd.
Qed.

Lemma dlq_messageEntry t m :
  let e := messageEntry t m in
  (if entryHasDLQ e
   then Some (mkDLQ (DLQOriginalTopic e) (DLQOriginalPartition e) (DLQOriginalOffset e)
                (DLQAttempts e) (DLQLastError e) (DLQRoutedAtMs e))
   else None) = normDLQ (m_Envelope m ≫= env_DLQ).
Proof.
  cbv zeta. rewrite hasDLQ_messageEntry. case_bool_decide as Hd.
  - simpl. destruct (m_Envelope m ≫= _) as [d|]; [|by destruct Hd]. simpl in *.
    case_decide; [by destruct Hd|]. by destruct d.
  - symmetry. by apply eq_None_not_Some.
Qed.

Lemma message_entry_roundtrip' t m : messageFromEntry (messageEntry t m) = normMessage m.
Proof.
  assert (envelopeFromEntry (messageEntry t m) = normEnvelope (m_Envelope m)) as Henv.
  { unfold envelopeFromEntry. cbv zeta. rewrite policy_messageEntry, dlq_messageEntry.
    unfold entryHasEnvelope. rewrite hasRetry_messageEntry, hasDLQ_messageEntry.
    destruct (m_Envelope m) as [[r s ps l tgt po k dl rp ten d]|] eqn:Em; simpl; rewrite ?Em; simpl; [|done].
    generalize (normPolicy rp) (normDLQ d). intros rp' d'.
    destruct (decide _) as [(->&->&->&->&->&->&->&->&->&->&->)|Hn]; [done|].
    match goal with |- (if ?c then _ else _) = _ => destruct c eqn:E; [done|] end.
    exfalso. apply Hn. rewrite !orb_false_iff in E. destruct_and!.
    repeat match goal with
    | Hx : negb (bool_decide _) = false |- _ => apply negb_false_iff, bool_decide_eq_true in Hx; subst
    | Hx : bool_decide (is_Some ?o) = false |- _ =>
        apply bool_decide_eq_false, eq_None_not_Some in Hx; subst
    end. done. }
  unfold messageFromEntry, normMessage. rewrite Henv. f_equal.
  unfold normRouting. simpl. destruct (m_Routing m) as [[l me]|]; simpl; [|done].
  repeat case_decide; try done; tauto.
Qed.

(** a message comes back from its log record unchanged, except that empty retry
    policies, empty dead-letter and routing metadata and entirely empty envelopes become
    absent, and the delivery state (attempts, last error) is reset. *)
Theorem message_entry_roundtrip t m : messageFromEntry (messageEntry t m) = normMessage m.
Proof. apply message_entry_roundtrip'. Qed.

(** *** Instances *)
Lemma computeBackoff_exact_witness :
  computeBackoff (Some (mkRetryPolicy 5 1000 8000)) 3 = 4 * Second /\
  computeBackoff (Some (mkRetryPolicy 5 1000 8000)) 9 = 8 * Second /\
  computeBackoff (Some (mkRetryPolicy 5 1000 0)) 4 = 8 * Second.
Proof.
  split; [|split].
  - rewrite (proj1 (proj2 (proj2 (computeBackoff_exact (mkRetryPolicy 5 1000 8000) 3))));
      [reflexivity|simpl; unfold Millisecond, maxInt64; lia..].
  - rewrite (proj1 (proj2 (proj2 (computeBackoff_exact (mkRetryPolicy 5 1000 8000) 9))));
      [reflexivity|simpl; unfold Millisecond, maxInt64; lia..].
  - rewrite (proj2 (proj2 (proj2 (computeBackoff_exact (mkRetryPolicy 5 1000 0) 4))));
      [reflexivity|simpl; unfold Millisecond, maxInt64; lia..].
Defined.
