(* ===== verification/StepInv.v ===== *)
(** * Invariants of the log, the topics and the idempotency store

    A predicate [Q] of the write-ahead log, the topics and the idempotency store that is
    closed under the few primitive changes of these three (a record of another type, an
    idempotency operation, a new topic, a message with its record) is kept by every
    operation of the broker and every step.  Instances: the agreement of the message logs
    with the write-ahead log, the permanence of commits, the durability of commits. *)
From stdpp Require Import relations.
From S2P Require Import Prelude Storage Idempotency BrokerTypes BrokerState Dispatch Produce Redelivery Consume WalReplay BrokerInv DispatchInv.
From S2P Require Import ProduceInv BrokerSteps IdemSpec.

Create HintDb lg discriminated.

(** Records that are neither messages nor idempotency records. *)
Definition otherType (ty : RecordType) : Prop :=
  ty <> RecordTypeMessage /\ ty <> RecordTypeConsumeIdempotency.

(** What [Q] must be closed under. *)
Record closed {W : Type} `{WAL W}
    (Q : option W -> gmap string TopicState -> IdempotencyStore -> Prop) : Prop := mkClosed {
  cl_other : forall e w w' err tps s, otherType (Type_ e) -> Append e w = (w', err) ->
    Q (Some w) tps s -> Q (Some w') tps s;
  cl_idem : forall op w tps s, Q w tps s -> Q (snd (istep op (s, w))) tps (fst (istep op (s, w)));
  cl_topic : forall w tps s t n cfg, tps !! t = None -> Q w tps s ->
    Q w (<[t := mkTopicState (replicate n []) (replicate n []) cfg]> tps) s;
  cl_refused : forall t m w w' err tps s, Append (messageEntry t m) w = (w', Some err) ->
    Q (Some w) tps s -> Q (Some w') tps s;
  cl_message : forall w w' tps s t ts part msg, tps !! t = Some ts -> 0 <= part < zlen (partitions ts) ->
    let m := set_m_position part (zlen (logOf tps t part)) msg in
    match w with None => w' = None | Some w0 => exists w1, Append (messageEntry t m) w0 = (w1, None) /\ w' = Some w1 end ->
    Q w tps s -> Q w' (<[t := appendMessage ts part m]> tps) s
}.

Section invariant.
Context {W : Type} `{WAL W} `{MapOrder}.
Context (Q : option W -> gmap string TopicState -> IdempotencyStore -> Prop) (Hcl : closed Q).
Implicit Types b : @InMemoryBroker W.

Definition inv b : Prop := Q (wal b) (topics b) (idem b).

Lemma inv_append_other e b : otherType (Type_ e) -> inv b -> inv (fst (appendWALEntry e b)).
Proof using All.
  intros Hty Hi. unfold appendWALEntry. destruct (wal b) as [w|] eqn:Hw; [|done].
  destruct (Append e w) as [w' err] eqn:E. unfold inv in *. rewrite Hw in Hi.
  by apply (cl_other _ Hcl _ _ _ _ _ _ Hty E).
Qed.
Lemma inv_append_other_eq e b b' err :
  otherType (Type_ e) -> inv b -> appendWALEntry e b = (b', err) -> inv b'.
Proof using All.
  intros Hty Hl E. pose proof (inv_append_other e b Hty Hl) as Hl'. by rewrite E in Hl'.
Qed.

(** Idempotency operations of the broker are operations of the store. *)
Definition idemOp {A} (op : IdempotencyStore -> option W -> IdempotencyStore * option W * A) : Prop :=
  exists i, forall s w, fst (op s w) = istep i (s, w).

Lemma idemOp_begin now a t g k o l : idemOp (ConsumeBeginLease now a t g k o l).
Proof. by exists (OConsumeBegin now a t g k o l). Qed.
Lemma idemOp_renew now a t g k o l : idemOp (ConsumeRenewLease now a t g k o l).
Proof. by exists (ORenew now a t g k o l). Qed.
Lemma idemOp_commit now a t g k o r : idemOp (ConsumeCommitIfOwner now a t g k o r).
Proof. by exists (OConsumeCommit now a t g k o r). Qed.
Lemma idemOp_fail now a t g k o c : idemOp (ConsumeFailIfOwner now a t g k o c).
Proof. by exists (OConsumeFail now a t g k o c). Qed.

Lemma inv_withIdem {A} op b : idemOp (A:=A) op -> inv b -> inv (fst (withIdem op b)).
Proof using All.
  intros [i Hop] Hi. unfold withIdem. specialize (Hop (idem b) (wal b)).
  destruct (op (idem b) (wal b)) as [[s w] r]. cbn [fst] in Hop.
  pose proof (cl_idem _ Hcl i _ _ _ Hi) as Hi'. rewrite <- Hop in Hi'. exact Hi'.
Qed.
Lemma inv_withIdem_eq {A} op b b' (r : A) : idemOp op -> inv b -> withIdem op b = (b', r) -> inv b'.
Proof using All.
  intros Hop Hl E. pose proof (inv_withIdem op b Hop Hl) as Hl'. by rewrite E in Hl'.
Qed.

Lemma inv_same b b' : wal b' = wal b -> topics b' = topics b -> idem b' = idem b -> inv b -> inv b'.
Proof. unfold inv. by intros -> -> ->. Qed.

(** ** Small operations *)
Lemma inv_emit ev b : inv b -> inv (emit ev b).
Proof. apply inv_same; unfold emit; by case_match. Qed.
Lemma inv_queueOffset t g p o b : inv b -> inv (queueOffsetPersistLocked t g p o b).
Proof. apply inv_same; unfold queueOffsetPersistLocked, ensureOffsetFlushLoopLocked; by repeat case_match. Qed.
Lemma inv_commitForward t g p o b : inv b -> inv (commitForward t g p o b).
Proof. intros. unfold commitForward. case_match; [by apply inv_queueOffset|done]. Qed.
Lemma inv_skipCommitted t g p m b : inv b -> inv (skipCommitted t g p m b).
Proof. intros Hl. exact (inv_commitForward t g p (m_Offset m) b Hl). Qed.
Lemma inv_recordRetry now t g p o e b : inv b -> inv (recordRetry now t g p o e b).
Proof using All. intros. apply inv_append_other; [by split|done]. Qed.
Lemma inv_trySend q m b b' : trySend q m b = Sent b' -> inv b -> inv b'.
Proof. unfold trySend. intros E. repeat case_match; by simplify_eq. Qed.
Lemma inv_idemCheck now t g m b b' st :
  match idemKeyOf m with
  | Some (tenantID, idk) => idemConsumeCheck now tenantID t g idk b
  | None => (b, None)
  end = (b', st) -> inv b -> inv b'.
Proof using All.
  destruct (idemKeyOf m) as [[a k]|]; [|by intros; simplify_eq].
  unfold idemConsumeCheck. intros E Hi. pose proof (cl_idem _ Hcl (OConsumeCheck now a t g k) _ _ _ Hi) as Hi'.
  simpl in Hi'. destruct (ConsumeCheck _ _ _ _ _ _). by simplify_eq.
Qed.

Hint Resolve inv_emit inv_queueOffset inv_commitForward inv_skipCommitted
  inv_recordRetry inv_trySend inv_idemCheck idemOp_begin idemOp_renew idemOp_commit idemOp_fail
  inv_withIdem_eq inv_append_other_eq : lg.

(** ** Dispatch *)
Lemma inv_leaseLoop now t g a k chans start tries fb b b' c fb' :
  leaseLoop now t g a k chans start tries fb b = (b', c, fb') -> inv b -> inv b'.
Proof using All.
  revert fb b. induction tries as [|x tries IH]; intros fb b E Hl; simpl in E; [by simplify_eq|].
  destruct (zlookup _ _) as [cand|]; [|by simplify_eq]. destruct (_ =? 0); [by eauto|].
  unfold tryCandidate in E. destruct (withIdem _ b) as [b1 [[ad res] err]] eqn:E1.
  assert (inv b1) by eauto with lg.
  destruct err as [err|]; [destruct (errors_Is _ _)|]; simplify_eq; by eauto.
Qed.

Lemma inv_chooseConsumer now t g chans m b b' c :
  chooseConsumer now t g chans m b = (b', c) -> inv b -> inv b'.
Proof using All.
  unfold chooseConsumer. intros E Hl. destruct (idemKeyOf m) as [[a k]|].
  - destruct (leaseLoop _ _ _ _ _ _ _ _ _ _) as [[b1 c1] fb1] eqn:E1.
    apply inv_leaseLoop in E1; [|done]. repeat case_match; by simplify_eq.
  - repeat case_match; by simplify_eq.
Qed.

Lemma inv_deliver now t g p m cs err l b b' st :
  (if l =? 0 then deliverSimple t g p m cs err b else deliverLeased now t g p m cs err b) = (b', st) ->
  inv b -> inv b'.
Proof.
  intros E Hl. destruct (l =? 0).
  - unfold deliverSimple in E. destruct (trySend _ _ _) as [b1| |] eqn:Es; simplify_eq; try done.
    apply inv_skipCommitted. by eapply inv_trySend.
  - unfold deliverLeased in E. destruct (_ && _); [by simplify_eq|]. cbv zeta in E.
    destruct (trySend _ _ _) as [b1| |] eqn:Es; simplify_eq; try done.
    by eapply inv_trySend.
Qed.

Lemma inv_dispatchOne now t g p chans m b b' st :
  dispatchOne now t g p chans m b = (b', st) -> inv b -> inv b'.
Proof using All.
  unfold dispatchOne. intros E Hl.
  destruct (match idemKeyOf m with Some _ => _ | None => _ end) as [b1 s1] eqn:E1.
  apply inv_idemCheck in E1; [|done]. destruct (bool_decide _); [simplify_eq; auto with lg|].
  destruct (inFlightOf _ _ _ _ !! _); [by simplify_eq|].
  destruct (chooseConsumer _ _ _ _ _ _) as [b2 c] eqn:E2. apply inv_chooseConsumer in E2; [|done].
  destruct c; simplify_eq; try (by auto with lg). by eapply inv_deliver.
Qed.

Lemma inv_dispatchLoop k now t g p chans msgs b :
  inv b -> inv (fst (dispatchLoop k now t g p chans msgs b)).
Proof using All.
  revert b. induction k as [|k IH]; intros b Hl; simpl; [done|].
  destruct (zlookup _ _) as [m|]; [|done]. destruct (dispatchOne _ _ _ _ _ _ _) as [b1 st] eqn:E1.
  apply inv_dispatchOne in E1; [|done]. destruct st; [by apply IH|done..].
Qed.

Lemma inv_dispatchParts now t g only chans p parts b :
  inv b -> inv (fst (dispatchParts now t g only chans p parts b)).
Proof using All.
  revert p b. induction parts as [|msgs parts IH]; intros p b Hl; simpl; [done|].
  destruct (_ && _); [by apply IH|].
  assert (inv (fst (dispatchPart now t g p chans msgs b))) as Hl1.
  { apply inv_dispatchLoop. unfold initNextIndex. by case_match. }
  destruct (dispatchPart _ _ _ _ _ _ _) as [b1 [|]]; [by apply IH|done].
Qed.

Lemma inv_dispatchGroups now t only parts gs b :
  inv b -> inv (dispatchGroups now t only parts gs b).
Proof using All.
  revert b. induction gs as [|g gs IH]; intros b Hl; simpl; [done|].
  assert (inv (fst (dispatchGroup now t g only parts b))) as Hl1.
  { unfold dispatchGroup. case_decide; [done|]. by apply inv_dispatchParts. }
  destruct (dispatchGroup _ _ _ _ _ _) as [b1 [|]]; [by apply IH|done].
Qed.

Lemma inv_dispatch now t only b : inv b -> inv (dispatchFilteredLocked now t only b).
Proof using All.
  intros. unfold dispatchFilteredLocked. repeat case_match; [by apply inv_dispatchGroups|done..].
Qed.

Hint Resolve inv_dispatch : lg.

(** ** Topics and producing *)
Lemma inv_createTopic t n cfg b : inv b -> inv (fst (createTopicLockedWithConfig t n cfg b)).
Proof using All.
  intros Hi. unfold createTopicLockedWithConfig. case_decide; [done|]. destruct (n <=? 0); [done|].
  destruct (topics b !! t) eqn:Ht; [done|]. destruct (normalizeTopicConfig cfg); [|done].
  by apply (cl_topic _ Hcl).
Qed.

Lemma inv_CreateTopic t n cfg b : inv b -> inv (fst (CreateTopicWithConfig t n cfg b)).
Proof using All.
  intros Hi. unfold CreateTopicWithConfig. case_decide; [done|]. destruct (n <=? 0) eqn:En; [done|].
  destruct (normalizeTopicConfig cfg) as [c|] eqn:Ec; [|done]. destruct (topics b !! t) eqn:Ht; [done|].
  destruct (createTopicLockedWithConfig t n c b) as [b1 err1] eqn:E1. destruct err1 as [err1|].
  { pose proof (inv_createTopic t n c b Hi) as Hi1. by rewrite E1 in Hi1. }
  unfold createTopicLockedWithConfig in E1. rewrite En, Ht in E1.
  destruct (decide (t = "")); [done|]. destruct (normalizeTopicConfig c) as [c'|] eqn:Ec'; [|done].
  injection E1 as <-. unfold appendWALEntry. simpl wal.
  assert (forall b', wal b' = wal b \/ (exists w w' err, wal b = Some w /\
      Append (topicEntry t n c) w = (w', err) /\ wal b' = Some w') ->
    topics b' = topics b -> idem b' = idem b -> inv b') as Hkeep.
  { intros b' Hw Ht' Hs'. unfold inv in *. rewrite Ht', Hs'. destruct Hw as [->|(w&w'&err&Hw&Ea&->)]; [done|].
    rewrite Hw in Hi. eapply (cl_other _ Hcl (topicEntry t n c)); [by split|done|done]. }
  destruct (wal b) as [w|] eqn:Hw.
  - destruct (Append (topicEntry t n c) w) as [w' [err|]] eqn:Ea; simpl.
    + apply Hkeep; simpl; [right; by eexists _, _, _|by rewrite delete_insert_id|done].
    + apply inv_emit. apply (cl_topic _ Hcl (Some w') (topics b) (idem b) t (Z.to_nat n) c' Ht).
      assert (inv (set_wal (Some w') b)) as Hi2; [|exact Hi2].
      apply Hkeep; [right; by eexists _, _, _|done|done].
  - simpl. apply inv_emit. assert (inv (set_topics (<[t := mkTopicState (replicate (Z.to_nat n) []) (replicate (Z.to_nat n) []) c']> (topics b)) b))
      as Hi2; [|exact Hi2]. by apply (cl_topic _ Hcl).
Qed.

(** The append of a message record, then the append of the message itself. *)
Lemma inv_appendMessage t ts part msg b b' err :
  let m := set_m_position part (zlen (logOf (topics b) t part)) msg in
  topics b !! t = Some ts -> 0 <= part < zlen (partitions ts) ->
  appendWALEntry (messageEntry t m) b = (b', err) -> inv b ->
  match err with
  | Some _ => inv b'
  | None => inv (set_topics (<[t := appendMessage ts part m]> (topics b')) b')
  end.
Proof using All.
  intros m Ht Hp E Hi. unfold appendWALEntry in E. unfold inv in Hi. destruct (wal b) as [w|] eqn:Hw.
  - destruct (Append _ w) as [w' err'] eqn:Ea. injection E as <- ->. destruct err as [err|].
    + by apply (cl_refused _ Hcl _ _ _ _ _ _ _ Ea).
    + eapply (cl_message _ Hcl (Some w) (Some w')); [done|done| |exact Hi]. by eexists.
  - injection E as <- <-. unfold inv. simpl. rewrite Hw.
    by apply (cl_message _ Hcl None None).
Qed.

Lemma inv_produceLocked now t msg b : inv b -> inv (fst (produceLocked now t msg b)).
Proof using All.
  intros Hl. unfold produceLocked. case_decide; [done|]. destruct (topics b !! t) as [ts|] eqn:Ht; [|done].
  destruct (Z.leb_spec (zlen (partitions ts)) 0); [done|].
  destruct (selectPartition _ _) as [part|] eqn:Ep; [|done]. apply selectPartition_range in Ep; [|done].
  destruct (admission _ _ _ _ _); [by apply inv_emit|].
  destruct (zlookup_is_Some _ _ Ep) as [log Hlog]. rewrite Hlog. simpl default.
  rewrite <- (logOf_lookup _ _ _ _ _ Ht Hlog).
  destruct (appendWALEntry _ b) as [b1 err1] eqn:E1.
  pose proof (inv_appendMessage t ts part msg b b1 err1 Ht Ep E1 Hl) as Hl1.
  destruct err1; [done|]. by apply inv_dispatch.
Qed.

Lemma inv_publishToDLQ now t msg b : inv b -> inv (fst (publishToDLQLocked now t msg b)).
Proof using All.
  intros Hl. unfold publishToDLQLocked. case_decide; [done|]. destruct (HasPrefix _ _); [done|].
  destruct (topics b !! dlqTopicName t); [by apply inv_produceLocked|].
  unfold createTopicLocked. set (n := match topics b !! t with Some _ => _ | None => _ end).
  pose proof (inv_createTopic (dlqTopicName t) n (mkTopicConfig "") b Hl) as Hl1.
  destruct (createTopicLockedWithConfig _ _ _ _) as [b1 [err|]]; [done|]. by apply inv_produceLocked.
Qed.

(** ** Redelivery *)
Lemma inv_settle now t g p o b : inv b -> inv (settle now t g p o b).
Proof using All.
  intros Hl. unfold settle. cbv zeta.
  assert (inv (fst (advanceOffsetLocked now t g p o (deleteInFlight t g p o b)))) as Hl1; [|exact Hl1].
  unfold advanceOffsetLocked. do 2 (case_decide; [done|]). do 2 (destruct (_ <? _); [done|]).
  destruct (topics _ !! t); [|done]. destruct (_ <=? p); [done|]. cbv zeta.
  destruct (match committedOf _ t g p with Some _ => _ | None => _ end); [done|].
  by apply inv_dispatch, inv_queueOffset.
Qed.
Lemma inv_noteError now t g p o err e b : inv b -> inv (noteError now t g p o err e b).
Proof using All. intros. by apply inv_recordRetry. Qed.
Lemma inv_markTimeout now t g p o e b : inv b -> inv (snd (markTimeout now t g p o e b)).
Proof using All.
  intros. unfold markTimeout. case_match; [|done]. by apply inv_noteError, inv_emit.
Qed.
Lemma inv_resend now t g p o cs e b : inv b -> inv (resend now t g p o cs e b).
Proof.
  intros Hl. unfold resend. cbv zeta. set (b1 := putInFlight _ _ _ _ _ _).
  assert (inv b1) as Hl1 by by apply inv_emit.
  destruct (trySend _ _ _) as [b2| |] eqn:Es; [by eapply inv_trySend|done..].
Qed.
Lemma inv_routeToDLQ now t g p o e b : inv b -> inv (routeToDLQ now t g p o e b).
Proof using All.
  intros Hl. unfold routeToDLQ.
  pose proof (inv_publishToDLQ now t (dlqMessage now t p o e) b Hl) as Hl1.
  destruct (publishToDLQLocked _ _ _ _) as [b1 [err|]]; [by apply inv_noteError|].
  by apply inv_settle, inv_emit.
Qed.

Lemma inv_redeliveryLoop now t g a k p o chans leases start tries e b :
  inv b -> inv (fst (redeliveryLoop now t g a k p o chans leases start tries e b)).
Proof using All.
  revert b. induction tries as [|x tries IH]; intros b Hl; simpl; [done|].
  destruct (zlookup chans _) as [cand|]; [|done].
  destruct (withIdem _ b) as [b1 [[ad res] err]] eqn:E1. assert (inv b1) by eauto with lg.
  destruct err as [err|]; [case_decide|destruct ad]; simpl;
    eauto using inv_noteError, inv_settle.
Qed.

Lemma inv_redeliverEntry now t g p o chans leases b :
  inv b -> inv (redeliverEntry now t g p o chans leases b).
Proof using All.
  intros Hl. unfold redeliverEntry. destruct (_ !! o) as [e|]; [|done]. destruct (_ <? _); [done|].
  pose proof (inv_markTimeout now t g p o e b Hl) as Hl1.
  destruct (markTimeout _ _ _ _ _ _ _) as [e1 b1]. destruct (_ && _); [done|].
  destruct (match idemKeyOf _ with Some _ => _ | None => _ end) as [b2 st] eqn:E2.
  apply inv_idemCheck in E2; [|done]. destruct (bool_decide _); [by apply inv_settle|].
  unfold retryEntryNow. destruct (match retryPolicyOf _ with Some _ => _ | None => _ end);
    [by apply inv_routeToDLQ|].
  assert (inv (fst (pickRedeliveryConsumer now t g p o chans leases e1 b2))) as Hl3.
  { unfold pickRedeliveryConsumer. destruct (idemKeyOf _) as [[a k]|]; [|done]. by apply inv_redeliveryLoop. }
  destruct (pickRedeliveryConsumer _ _ _ _ _ _ _ _ _) as [b3 [cs|]]; [by apply inv_resend|done].
Qed.

Lemma inv_foldl {A} (f : InMemoryBroker -> A -> InMemoryBroker) l b :
  (forall b x, inv b -> inv (f b x)) -> inv b -> inv (foldl f b l).
Proof. intros Hf. revert b. induction l; intros; simpl; eauto. Qed.

Lemma inv_redeliverExpired now b : inv b -> inv (redeliverExpiredLocked now b).
Proof using All.
  apply inv_foldl. intros b1 t Hl1. unfold redeliverTopic. destruct (consumerChans b1 !! t) as [gc|]; [|done].
  apply inv_foldl; [|done]. intros b2 g Hl2. unfold redeliverGroup. case_decide; [done|].
  apply inv_foldl; [|done]. intros b3 p Hl3. apply inv_foldl; [|done].
  intros. by apply inv_redeliverEntry.
Qed.

(** ** Acknowledging, rejecting, flushing *)
Lemma inv_ackLocked now t g p o b : inv b -> inv (fst (ackLocked now t g p o b)).
Proof using All.
  intros Hl. unfold ackLocked. destruct (checkTopicPartition t p b); [done|]. cbv zeta. cbn [fst].
  apply inv_dispatch.
  destruct (match committedOf _ t g p with Some _ => _ | None => _ end); [done|].
  by apply inv_queueOffset.
Qed.

Lemma inv_ackFinish now t g p o b : inv b -> inv (fst (ackFinish now t g p o b)).
Proof using All.
  intros Hl. unfold ackFinish. pose proof (inv_ackLocked now t g p o b Hl) as Hl1.
  destruct (ackLocked _ _ _ _ _ _) as [b1 [err|]]; [done|]. by apply inv_emit.
Qed.

Lemma inv_ackCheckOwner now t g p o owner b :
  inv b -> inv (fst (ackCheckOwner now t g p o owner b)).
Proof using All.
  intros Hl. unfold ackCheckOwner. destruct (checkTopicPartition t p b); [done|]. cbv zeta.
  destruct (inFlightOf _ _ _ _ !! o) as [e|]; [|done]. destruct (negb _); [done|].
  destruct (idemKeyOf (Msg e)); [done|].
  pose proof (inv_ackLocked now t g p o (ensureInFlight t g p b) Hl) as Hl1.
  destruct (ackLocked _ _ _ _ _ _) as [b1 [err|]]; [done|]. by apply inv_emit.
Qed.

Lemma inv_AckIfOwner n1 n2 n3 t g p o owner b :
  inv b -> inv (fst (AckIfOwner n1 n2 n3 t g p o owner b)).
Proof using All.
  intros Hl. unfold AckIfOwner. destruct (checkArgs t g p o); [done|]. case_decide; [done|].
  pose proof (inv_ackCheckOwner n1 t g p o (TrimSpace owner) b Hl) as Hl1.
  destruct (ackCheckOwner _ _ _ _ _ _ _) as [b1 [[a k]|res]]; [|done].
  destruct (withIdem _ b1) as [b2 [err|]] eqn:E2;
    (assert (inv b2) by (eapply inv_withIdem_eq; [|exact Hl1|exact E2]; auto with lg));
    repeat case_decide; try done; by apply inv_ackFinish.
Qed.

Lemma inv_ackCumulativeCheck t g p o owner b :
  inv b -> inv (fst (ackCumulativeCheck t g p o owner b)).
Proof. intros Hl. unfold ackCumulativeCheck. repeat (case_match; try done). Qed.

Lemma inv_ackRange now t g p off owner n b :
  inv b -> inv (fst (ackRange now t g p off owner n b)).
Proof using All.
  revert off b. induction n as [|n IH]; intros off b Hl; cbn [ackRange]; [done|].
  pose proof (inv_AckIfOwner now now now t g p off owner b Hl) as Hl1.
  destruct (AckIfOwner _ _ _ _ _ _ _ _ _) as [b1 [err|]]; [done|by apply IH].
Qed.

Lemma inv_AckCumulative now t g p o owner b :
  inv b -> inv (fst (AckCumulativeIfOwner now t g p o owner b)).
Proof using All.
  intros Hl. unfold AckCumulativeIfOwner. destruct (checkArgs t g p o); [done|]. case_decide; [done|].
  pose proof (inv_ackCumulativeCheck t g p o (TrimSpace owner) b Hl) as Hl1.
  destruct (ackCumulativeCheck _ _ _ _ _ _) as [b1 [[s n]|res]]; [by apply inv_ackRange|done].
Qed.

Lemma inv_nackMarkFailed now t g p o owner reason e b :
  inv b -> inv (snd (nackMarkFailed now t g p o owner reason e b)).
Proof using All.
  intros Hl. unfold nackMarkFailed. destruct (idemKeyOf (Msg e)) as [[a k]|]; [|done].
  destruct (withIdem _ b) as [b2 [err|]] eqn:E2;
    (assert (inv b2) by (eapply inv_withIdem_eq; [|exact Hl|exact E2]; auto with lg)); [|done].
  case_decide; [done|]. by apply inv_recordRetry.
Qed.

Lemma inv_Nack now t g p o owner reason b :
  inv b -> inv (fst (Nack now t g p o owner reason b)).
Proof using All.
  intros Hl. unfold Nack. destruct (checkArgs t g p o); [done|]. case_decide; [done|]. cbv zeta.
  destruct (checkTopicPartition t p b); [done|]. destruct (inFlightOf _ _ _ _ !! o) as [e|]; [|done].
  destruct (negb _); [done|]. destruct (appendWALEntry _ _) as [b2 [err|]] eqn:E2;
    (assert (inv b2) by (eapply inv_append_other_eq; [| |exact E2]; [by split|exact Hl])); [done|].
  set (e2 := withLastError _ e).
  pose proof (inv_nackMarkFailed now t g p o (TrimSpace owner)
    (if decide (TrimSpace reason = "") then "nack" else TrimSpace reason) e2 b2 ltac:(done)) as Hl3.
  destruct (nackMarkFailed _ _ _ _ _ _ _ _ _) as [e3 b3].
  by apply inv_redeliverExpired, inv_emit.
Qed.

Lemma inv_flushWrite pending b : inv b -> inv (fst (fst (flushWrite pending b))).
Proof using All.
  unfold flushWrite. generalize (merge_sort flushKey_le (order (dom pending))). intros ks.
  revert b. induction ks as [|k ks IH]; intros b Hl; cbn [flushKeys]; [done|].
  destruct (appendWALEntry _ b) as [b2 [err|]] eqn:E2;
    (assert (inv b2) by (eapply inv_append_other_eq; [|exact Hl|exact E2]; by split)); [done|].
  by apply IH.
Qed.

Lemma inv_unregister t g out b : inv b -> inv (unregister t g out b).
Proof.
  intros Hl. unfold unregister, closeChan. destruct (consumerChans b !! t); [|done].
  destruct (list_find _ _) as [[i st]|]; repeat (case_match; simplify_eq/=; try done).
Qed.

Lemma inv_consumeWith now t g owner lease b :
  inv b -> inv (fst (consumeWith now t g owner lease b)).
Proof using All.
  intros Hl. unfold consumeWith. destruct (topics b !! t); [|done]. by apply inv_dispatch.
Qed.

End invariant.

Section steps.
Context {W : Type} `{WAL W}.
Context (Q : option W -> gmap string TopicState -> IdempotencyStore -> Prop) (Hcl : closed Q).
Implicit Types b : @InMemoryBroker W.
Abbreviation inv := (inv Q).

(** Every step keeps the invariant. *)
Lemma inv_step b b' : bstep b b' -> inv b -> inv b'.
Proof using All.
  intros Hs Hl. destruct Hs;
    try (apply inv_withIdem; by auto using idemOp_begin, idemOp_renew, idemOp_commit, idemOp_fail).
  - by apply inv_CreateTopic.
  - done.
  - unfold produceBegin. destruct (idemKeyOf m) as [[a k]|]; [|done].
    pose proof (cl_idem _ Hcl (OBegin now a t k) _ _ _ Hl) as Hi. simpl in Hi.
    destruct (Begin _ _ _ _ _) as [s [ac err]]. by destruct err; [|destruct ac].
  - by apply inv_produceLocked.
  - unfold produceEnd. destruct (idemKeyOf m) as [[a k]|]; [|done].
    destruct started, err as [err|]; try done.
    + exact (cl_idem _ Hcl (OFail now a t k (Some err)) _ _ _ Hl).
    + exact (cl_idem _ Hcl (OCommit now a t k []) _ _ _ Hl).
  - unfold Consume. case_decide; [done|]. case_decide; [done|]. by apply inv_consumeWith.
  - unfold ConsumeWithLease. case_decide; [done|]. case_decide; [done|]. by apply inv_consumeWith.
  - done.
  - by apply inv_dispatch.
  - by apply inv_unregister.
  - unfold recv. by repeat case_match.
  - unfold Ack. destruct (checkArgs t g p o); [done|]. by apply inv_ackLocked.
  - by apply inv_ackCheckOwner.
  - by apply inv_ackFinish.
  - by apply inv_AckCumulative.
  - by apply inv_ackCumulativeCheck.
  - by apply inv_Nack.
  - by apply inv_redeliverExpired.
  - done.
  - by apply inv_flushWrite.
  - done.
  - done.
Qed.

Lemma inv_steps b b' : rtc bstep b b' -> inv b -> inv b'.
Proof using All. induction 1; eauto using inv_step. Qed.

End steps.

(** ** The log and the message logs in memory agree *)
(** [logged b]: for every topic and partition the message records of the write-ahead log
    are, in order, those of the messages in memory.  An instance of StepInv.v. *)
(** The message records of a partition, in log order. *)
Definition isMessageOf (t : string) (p : Z) (e : Entry) : Prop :=
  Type_ e = RecordTypeMessage /\ Topic e = t /\ Partition e = p.
#[export] Instance isMessageOf_dec t p e : Decision (isMessageOf t p e).
Proof. unfold isMessageOf. apply _. Defined.
Definition msgsOf (es : list Entry) (t : string) (p : Z) : list Entry := filter (isMessageOf t p) es.

Lemma msgsOf_snoc es e t p :
  msgsOf (es ++ [e]) t p = if decide (isMessageOf t p e) then msgsOf es t p ++ [e] else msgsOf es t p.
Proof.
  unfold msgsOf. rewrite filter_app. unfold filter at 2. simpl.
  case_decide; [done|]. by rewrite app_nil_r.
Qed.

(** ** Watching the calls of a log *)
(** [Audited W] is the log [W] with a history variable: what each append was asked and answered.  It
    behaves as [W] does; the history lets a theorem speak of the calls a run has made. *)
Record Call (W : Type) : Type := mkCall { c_entry : Entry; c_before : W; c_after : W; c_err : option error }.
#[global] Arguments mkCall {W}. #[global] Arguments c_entry {W}. #[global] Arguments c_before {W}.
#[global] Arguments c_after {W}. #[global] Arguments c_err {W}.
Record Audited (W : Type) : Type := mkAudited { au_log : W; au_calls : list (Call W) }.
#[global] Arguments mkAudited {W}. #[global] Arguments au_log {W}. #[global] Arguments au_calls {W}.
Definition audit {W} (w : W) : Audited W := mkAudited w [].

#[export] Instance Audited_WAL {W} `{WAL W} : WAL (Audited W) := {|
  Append e a :=
    let '(w, err) := Append e (au_log a) in (mkAudited w (au_calls a ++ [mkCall e (au_log a) w err]), err);
  Replay a := let '(w, r) := Replay (au_log a) in (mkAudited w (au_calls a), r)
|}.

Section logged.
Context {W : Type} `{WALLaws W}.
Implicit Types b : @InMemoryBroker W.

Definition logged b : Prop :=
  exists w, wal b = Some w /\ wal_ok w /\
    forall t p, messageFromEntry <$> msgsOf (wal_log w) t p = normMessage <$> logOf (topics b) t p.

(** The log can represent the record, or refused it and stayed as it was. *)
Definition answered (c : Call W) : Prop :=
  representable (c_entry c) \/ is_Some (c_err c) /\ c_after c = c_before c.
(** No record of a message that was refused has stayed in the log. *)
Definition clean (c : Call W) : Prop :=
  is_Some (c_err c) -> Type_ (c_entry c) = RecordTypeMessage -> wal_log (c_after c) = wal_log (c_before c).

(** The messages in memory are recorded in order; and nothing else is, if every call was clean. *)
Definition recorded (w : W) (calls : list (Call W)) (tps : gmap string TopicState) : Prop :=
  wal_ok w /\ (forall t p, normMessage <$> logOf tps t p `sublist_of` messageFromEntry <$> msgsOf (wal_log w) t p) /\
  (Forall clean calls -> forall t p, messageFromEntry <$> msgsOf (wal_log w) t p = normMessage <$> logOf tps t p).
Definition records (w : option (Audited W)) (tps : gmap string TopicState) (s : IdempotencyStore) : Prop :=
  exists a, w = Some a /\ (Forall answered (au_calls a) -> recorded (au_log a) (au_calls a) tps).

(** One append: what it does to a well-formed log, and to the records of a partition. *)
Lemma append_answered e (w w' : W) err :
  wal_ok w -> answered (mkCall e w w' err) -> Append e w = (w', err) ->
  wal_ok w' /\ (wal_log w' = wal_log w /\ is_Some err \/ wal_log w' = wal_log w ++ [e]).
Proof.
  intros Hok [Hr|[He Hw]] E; simpl in *; [|subst w'; split; [done|by left]].
  destruct err as [err|]; [|by destruct (Append_ok _ _ _ Hok Hr E); split; [|right]].
  destruct (Append_fail _ _ _ _ Hok Hr E) as [? [?|?]]; (split; [done|]); [by left|by right].
Qed.
Lemma msgsOf_grown e (w w' : W) (err : option error) t p :
  wal_log w' = wal_log w /\ is_Some err \/ wal_log w' = wal_log w ++ [e] ->
  msgsOf (wal_log w') t p = msgsOf (wal_log w) t p \/
  isMessageOf t p e /\ msgsOf (wal_log w') t p = msgsOf (wal_log w) t p ++ [e].
Proof. intros [[-> _]| ->]; [by left|]. rewrite msgsOf_snoc. case_decide; [by right|by left]. Qed.

(** An append that adds no message of memory: of another record, or refused. *)
Lemma recorded_append e (w w' : W) err calls tps :
  Append e w = (w', err) -> answered (mkCall e w w' err) -> Type_ e <> RecordTypeMessage \/ is_Some err ->
  recorded w calls tps -> recorded w' (calls ++ [mkCall e w w' err]) tps.
Proof.
  intros E Ha Hty (Hok&Hs&Hc). destruct (append_answered _ _ _ _ Hok Ha E) as [Hok' Hl]. split; [done|]. split.
  - intros t p. destruct (msgsOf_grown e w w' err t p Hl) as [->|[_ ->]]; [done|].
    rewrite fmap_app. by apply sublist_inserts_r.
  - intros [Hcl Hc1%Forall_inv]%Forall_app t p. specialize (Hc Hcl t p).
    destruct (decide (Type_ e = RecordTypeMessage)) as [Hm|Hm].
    + destruct Hty as [?|He]; [done|]. assert (wal_log w' = wal_log w) as -> by exact (Hc1 He Hm). done.
    + by destruct (msgsOf_grown e w w' err t p Hl) as [->|[[? _] _]].
Qed.

(** An idempotency operation appends an idempotency record or nothing. *)
Lemma istep_appends {V} `{WAL V} op s (w : V) :
  snd (istep op (s, Some w)) = Some w \/
  exists e w' err, Type_ e = RecordTypeConsumeIdempotency /\ Append e w = (w', err) /\
    snd (istep op (s, Some w)) = Some w'.
Proof.
  destruct op; simpl; try (by left);
    unfold ConsumeBeginLease, ConsumeRenewLease, ConsumeCommitIfOwner, ConsumeFailIfOwner, appendThenPut, walAppend;
    repeat (case_decide || case_match); simplify_eq/=;
    first [by left | right; eexists _, _, _; split; [|split; [eassumption|]]; done].
Qed.

Lemma records_append e (a a' : Audited W) err tps s :
  Append e a = (a', err) -> Type_ e <> RecordTypeMessage \/ is_Some err -> records (Some a) tps s -> records (Some a') tps s.
Proof.
  intros E Hty (a0&[= <-]&Hr). simpl in E. destruct (Append e (au_log a)) as [w' err'] eqn:Ea. injection E as <- <-.
  eexists. split; [done|]. simpl. intros [Hall Hc%Forall_inv]%Forall_app. by apply recorded_append; auto.
Qed.

Lemma closed_records : closed records.
Proof.
  split.
  - intros e a a' err tps s [Hty _] E. by apply (records_append _ _ _ _ _ _ E); left.
  - intros op w tps s Hr. pose proof Hr as (a&->&_).
    destruct (istep_appends op s a) as [->|(e&a'&err&Hty&E&->)]; [done|].
    apply (records_append _ _ _ _ _ _ E); [left; by rewrite Hty|done].
  - intros w tps s t n cfg Ht (a&->&Hr). exists a. split; [done|]. intros Ha. destruct (Hr Ha) as (Hok&Hs&Hc).
    split; [done|]. split; intros; rewrite logOf_newTopic by done; auto.
  - intros t m a a' err tps s E. by apply (records_append _ _ _ _ _ _ E); right.
  - intros w w' tps s t ts part msg Ht Hp m Hw (a&->&Hr). destruct Hw as (a1&Ea&->). simpl in Ea.
    destruct (Append (messageEntry t m) (au_log a)) as [w1 err] eqn:E. injection Ea as <- ->. eexists. split; [done|]. simpl.
    intros [Hall Hc1%Forall_inv]%Forall_app. destruct (Hr Hall) as (Hok&Hs&Hc).
    destruct (append_answered _ _ _ _ Hok Hc1 E) as [Hok' [[_ []]|Hl]]; [done|]. split; [done|].
    assert (forall t' p', isMessageOf t' p' (messageEntry t m) <-> t = t' /\ part = p') as Hiff.
    { intros. unfold isMessageOf. simpl. tauto. }
    split; [|intros Hcl%Forall_app; destruct Hcl as [Hcl _]]; intros t' p';
      rewrite Hl, msgsOf_snoc, (logOf_appendMessage _ _ _ _ _ _ _ Ht Hp);
      (destruct (decide (t = t' /\ part = p')) as [Hd|Hd];
        [rewrite decide_True by (by apply Hiff); destruct Hd as [<- <-]|rewrite decide_False by (by rewrite Hiff); by auto]).
    + rewrite !fmap_app. simpl. rewrite message_entry_roundtrip'. by apply sublist_app.
    + rewrite !fmap_app, Hc by done. simpl. by rewrite message_entry_roundtrip'.
Qed.
End logged.
