(* ===== verification/AckSpec.v ===== *)
(** * What acknowledging and rejecting do (properties of Consume.v) *)
From S2P Require Import Prelude Storage Idempotency BrokerTypes BrokerState Dispatch Produce.
From S2P Require Import Redelivery Consume WalReplay BrokerInv DispatchInv ProduceInv RedeliveryInv.
From S2P Require Import ConsumeInv BrokerSteps.
From Stdlib Require Import Init.Byte.

Section ack.
Context {W : Type} `{WAL W} `{MapOrder}.
Implicit Types b : @InMemoryBroker W.

(** An acknowledged offset below the next index does not come back by dispatching. *)
Lemma dframe_gone b b' t g p o :
  dframe b b' -> inFlightOf b t g p !! o = None -> o < nextIndexOf b t g p ->
  inFlightOf b' t g p !! o = None.
Proof.
  intros Hd Hn Ho. apply eq_None_not_Some. intros [Hs|?]%(df_new _ _ Hd); [|lia].
  by rewrite Hn in Hs; destruct Hs.
Qed.

Lemma inflight_below_next b t g p o e :
  wf b -> inFlightOf b t g p !! o = Some e -> o < nextIndexOf b t g p.
Proof. intros Hwf He. destruct (wf_infl Hwf _ _ _ _ _ He) as (_&_&?&_). unfold nextIndexOf. lia. Qed.

Lemma next_ackCore t g p o b t' g' p' : nextIndexOf (ackCore t g p o b) t' g' p' = nextIndexOf b t' g' p'.
Proof.
  unfold ackCore. destruct (staleAt _ _ _ _ _); [done|].
  by rewrite (quiet_nextIndexOf _ _ t' g' p' (quiet_queueOffset t g p o _)).
Qed.

Lemma checkTopicPartition_quiet t p b b' :
  quiet b b' -> checkTopicPartition t p b' = checkTopicPartition t p b.
Proof. intros []. unfold checkTopicPartition. by rewrite q_topics. Qed.

(** The effect of a successful acknowledgement of an in-flight offset. *)
Record acked t g p o b b' : Prop := mkAcked {
  ak_committed : o <= committedRaw b' t g p;
  ak_gone : inFlightOf b' t g p !! o = None;
  ak_log : topics b' = topics b
}.

Lemma ackLocked_acked now t g p o b b' e :
  wf b -> 0 <= o -> inFlightOf b t g p !! o = Some e -> ackLocked now t g p o b = (b', None) ->
  acked t g p o b b'.
Proof.
  intros Hwf Ho He E. rewrite ackLocked_eq in E. destruct (checkTopicPartition t p b); [done|].
  injection E as <-. destruct (ackCore_spec t g p o b Hwf Ho) as [[Hwf1 _] Hc].
  pose proof (dispatchPartitionLocked_df now t p _ Hwf1) as Hd. split.
  - etrans; [|apply (df_committed _ _ Hd)]. lia.
  - apply (dframe_gone _ _ _ _ _ _ Hd).
    + rewrite inFlightOf_ackCore, decide_True by done. apply lookup_delete_eq.
    + rewrite next_ackCore. by eapply inflight_below_next.
  - rewrite (df_topics _ _ Hd). unfold ackCore. destruct (staleAt _ _ _ _ _); [done|].
    by rewrite (q_topics _ _ (quiet_queueOffset t g p o _)).
Qed.

Lemma ackFinish_acked now t g p o b b' err e :
  wf b -> 0 <= o -> inFlightOf b t g p !! o = Some e -> ackFinish now t g p o b = (b', err) ->
  match err with Some _ => quiet b b' | None => acked t g p o b b' end.
Proof.
  intros Hwf Ho He E. unfold ackFinish in E.
  destruct (ackLocked now t g p o b) as [b1 [err1|]] eqn:E1; injection E as <- <-.
  - rewrite ackLocked_eq in E1. destruct (checkTopicPartition t p b); [|done]. by injection E1 as <- _.
  - destruct (ackLocked_acked _ _ _ _ _ _ _ _ Hwf Ho He E1) as [Hc Hg Hl].
    pose proof (quiet_emit (IncAck t g) b1) as Q. split.
    + by rewrite (quiet_committedRaw _ _ t g p Q).
    + by rewrite (q_infl _ _ Q).
    + by rewrite (q_topics _ _ Q).
Qed.

Lemma acked_quiet_l t g p o b b1 b' : quiet b b1 -> acked t g p o b1 b' -> acked t g p o b b'.
Proof. intros [] []. split; [done..|congruence]. Qed.

(** [AckIfOwner] is fenced and effective: an error changes nothing but the idempotency
    record; a success means the offset was in flight for this very owner, and leaves it
    committed and no longer in flight, the logs untouched; an offset in flight for another
    owner is refused with [ErrNotOwner]. *)
Theorem AckIfOwner_effect n1 n2 n3 t g p o owner b b' err :
  wf b -> AckIfOwner n1 n2 n3 t g p o owner b = (b', err) ->
  match err with
  | Some _ => quiet b b'
  | None => exists e, inFlightOf b t g p !! o = Some e /\ Owner e = TrimSpace owner /\ acked t g p o b b'
  end /\
  (forall e, checkArgs t g p o = None -> TrimSpace owner <> "" -> checkTopicPartition t p b = None ->
     inFlightOf b t g p !! o = Some e -> Owner e <> TrimSpace owner -> err = Some ErrNotOwner).
Proof.
  intros Hwf E. unfold AckIfOwner in E.
  destruct (checkArgs t g p o) eqn:Ea; [by simplify_eq|].
  destruct (decide (TrimSpace owner = "")) as [Hown|Hown]; [by simplify_eq|].
  apply checkArgs_None in Ea as (_&_&_&Ho).
  unfold ackCheckOwner in E. destruct (checkTopicPartition t p b) eqn:Ec; [by simplify_eq|].
  pose proof (quiet_ensureInFlight t g p b) as Q. set (b1 := ensureInFlight t g p b) in *.
  rewrite (q_infl _ _ Q) in E.
  destruct (inFlightOf b t g p !! o) as [e|] eqn:He; [|simplify_eq; split; [done|by intros ? _ _ _]].
  destruct (decide (Owner e = TrimSpace owner)) as [Hoe|Hoe].
  2:{ rewrite bool_decide_eq_false_2 in E by done. by simplify_eq/=. }
  rewrite bool_decide_eq_true_2 in E by done. simpl in E.
  split; [|intros e' _ _ _ [= <-]; by intros].
  assert (wf b1) as Hwf1 by eauto with go. pose proof He as He1. rewrite <- (q_infl _ _ Q) in He1.
  destruct (idemKeyOf (Msg e)) as [[a k]|].
  - destruct (withIdem _ b1) as [b2 err2] eqn:E2. assert (quiet b b2) as Q2 by (etrans; eauto with go).
    assert (wf b2) as Hwf2 by eauto with go. pose proof He as He2. rewrite <- (q_infl _ _ Q2) in He2.
    assert (forall bb ee, ackFinish n3 t g p o b2 = (bb, ee) ->
      match ee with Some _ => quiet b bb | None => exists e0, Some e = Some e0 /\
        Owner e0 = TrimSpace owner /\ acked t g p o b bb end) as Hfin.
    { intros bb ee Ef. pose proof (ackFinish_acked _ _ _ _ _ _ _ _ _ Hwf2 Ho He2 Ef) as Hf.
      destruct ee; [by etrans|]. exists e. split_and!; [done|done|by eapply acked_quiet_l]. }
    destruct err2 as [err2|]; [|by apply Hfin].
    repeat case_decide; simplify_eq; try done. by apply Hfin.
  - assert (ackFinish n1 t g p o b1 = (b', err)) as Ef.
    { unfold ackFinish. by destruct (ackLocked n1 t g p o b1) as [b2 [?|]]; simplify_eq/=. }
    pose proof (ackFinish_acked _ _ _ _ _ _ _ _ _ Hwf1 Ho He1 Ef) as Hf.
    destruct err; [by etrans|]. exists e. split_and!; [done|done|by eapply acked_quiet_l].
Qed.

(** ** Cumulative acknowledgement *)
Lemma checkRange_None infl owner off n :
  checkRange infl owner off n = None ->
  forall i, off <= i < off + Z.of_nat n -> exists e, infl !! i = Some e /\ Owner e = owner.
Proof.
  revert off. induction n as [|n IH]; intros off E i Hi; simpl in E; [lia|].
  destruct (infl !! off) as [e|] eqn:He; [|done].
  destruct (decide (Owner e = owner)) as [Ho|Ho].
  - rewrite bool_decide_eq_true_2 in E by done. simpl in E.
    destruct (decide (i = off)) as [->|]; [by exists e|]. apply (IH (off + 1)); [done|lia].
  - by rewrite bool_decide_eq_false_2 in E by done.
Qed.

Lemma ackRange_committed now t g p off owner n b b' :
  wf b -> off - 1 <= committedRaw b t g p -> ackRange now t g p off owner n b = (b', None) ->
  off + Z.of_nat n - 1 <= committedRaw b' t g p /\ committedRaw b t g p <= committedRaw b' t g p.
Proof.
  revert b off. induction n as [|n IH]; intros b off Hwf Hc E; cbn [ackRange] in E.
  { simplify_eq. lia. }
  destruct (AckIfOwner now now now t g p off owner b) as [b1 [err1|]] eqn:E1; [done|].
  pose proof (AckIfOwner_rok _ _ _ _ _ _ _ _ _ _ _ Hwf E1) as [Hwf1 Hrf1].
  assert (off <= committedRaw b1 t g p) as Hc1.
  { unfold AckIfOwner in E1. destruct (checkArgs t g p off) eqn:Ea; [done|].
    apply checkArgs_None in Ea as (_&_&_&Ho). case_decide; [done|].
    assert (forall n0 b0, wf b0 -> ackFinish n0 t g p off b0 = (b1, None) -> off <= committedRaw b1 t g p) as Hf.
    { intros n0 b0 Hwf0 Ef. unfold ackFinish in Ef. rewrite ackLocked_eq in Ef.
      destruct (checkTopicPartition t p b0); [done|]. injection Ef as <-.
      rewrite (quiet_committedRaw _ _ t g p (quiet_emit _ _)).
      destruct (ackCore_spec t g p off b0 Hwf0 Ho) as [[Hwf2 _] Hmax].
      etrans; [|apply (df_committed _ _ (dispatchPartitionLocked_df n0 t p _ Hwf2))]. lia. }
    unfold ackCheckOwner in E1. destruct (checkTopicPartition t p b); [done|].
    pose proof (quiet_wf _ _ (quiet_ensureInFlight t g p b) Hwf) as Hwf0.
    set (b0 := ensureInFlight t g p b) in *. destruct (inFlightOf b0 t g p !! off) as [e|]; [|done].
    destruct (negb _); [done|]. destruct (idemKeyOf (Msg e)) as [[a k]|].
    - destruct (withIdem _ b0) as [b2 err2] eqn:E2. assert (wf b2) as Hwf2 by eauto with go.
      destruct err2 as [err2|]; [repeat case_decide; try done; by eapply Hf|by eapply Hf].
    - eapply (Hf now b0); [done|]. unfold ackFinish.
      by destruct (ackLocked now t g p off b0) as [? [?|]]; simplify_eq/=. }
  destruct (IH b1 (off + 1) Hwf1 ltac:(lia) E) as [? ?].
  pose proof (ev_committed _ _ (rf_ev _ _ Hrf1) t g p). lia.
Qed.

(** a cumulative acknowledgement that succeeds past the committed offset found every
    offset of the range in flight for this owner before touching any, and leaves the whole
    range committed. *)
Theorem AckCumulativeIfOwner_effect now t g p o owner b b' :
  wf b -> AckCumulativeIfOwner now t g p o owner b = (b', None) ->
  o <= committedRaw b' t g p /\
  forall i, committedRaw b t g p < i <= o ->
    exists e, inFlightOf b t g p !! i = Some e /\ Owner e = TrimSpace owner.
Proof.
  intros Hwf E. unfold AckCumulativeIfOwner in E. destruct (checkArgs t g p o); [done|].
  case_decide; [done|].
  pose proof (quiet_ackCumulativeCheck t g p o (TrimSpace owner) b) as Q.
  destruct (ackCumulativeCheck _ _ _ _ _ _) as [b1 r] eqn:E1. simpl in Q.
  unfold ackCumulativeCheck in E1. destruct (checkTopicPartition t p b); [by simplify_eq/=|].
  pose proof (quiet_ensureCommitted t g b) as Q1. set (bc := ensureCommitted t g b) in *.
  rewrite (quiet_committedRaw _ _ t g p Q1) in E1.
  destruct (Z.leb_spec o (committedRaw b t g p)).
  { injection E1 as <- <-. simplify_eq. split; [|lia]. by rewrite (quiet_committedRaw _ _ t g p Q1). }
  pose proof (quiet_ensureInFlight t g p bc) as Q2. set (bi := ensureInFlight t g p bc) in *.
  destruct (checkRange _ _ _ _) eqn:Er; [injection E1 as <- <-; done|]. injection E1 as <- <-.
  assert (wf bi) as Hwfi by eauto with go. split.
  - pose proof (quiet_committedRaw _ _ t g p Q) as Hc.
    eapply ackRange_committed in E as [? ?]; [lia|done|lia].
  - intros i Hi. destruct (checkRange_None _ _ _ _ Er i) as (e&He&Hoe); [lia|].
    exists e. by rewrite <- (q_infl _ _ Q).
Qed.

(** ** Rejecting *)
Lemma below_next_accounted b t g p o :
  wf b -> 0 <= o < nextIndexOf b t g p ->
  is_Some (inFlightOf b t g p !! o) \/ o <= committedRaw b t g p.
Proof.
  intros Hwf Ho. unfold nextIndexOf in Ho.
  destruct (lookup3 (nextIndex b) t g p) as [n|] eqn:Hn; simpl in Ho; [|lia].
  apply (wf_acct Hwf t g p n o Hn). lia.
Qed.

Definition nackReason (reason : string) : string :=
  if decide (TrimSpace reason = "") then "nack" else TrimSpace reason.

(** [Nack]: an error changes nothing but retry state; success means the offset was in
    flight for this owner, its error with the reason appended was accepted by the log first,
    and the message is not lost: it is still in flight, or settled at or below the committed
    offset (committed elsewhere or dead-lettered). *)
Theorem Nack_effect now t g p o owner reason b b' err :
  wf b -> Nack now t g p o owner reason b = (b', err) ->
  match err with
  | Some _ => quiet b b'
  | None => exists e, inFlightOf b t g p !! o = Some e /\ Owner e = TrimSpace owner /\
      snd (appendWALEntry (retryEntry t g p o (appendLastError (ie_LastError e) (nackReason reason)) now) b)
        = None /\
      (is_Some (inFlightOf b' t g p !! o) \/ o <= committedRaw b' t g p)
  end.
Proof.
  intros Hwf E. pose proof (Nack_rok _ _ _ _ _ _ _ _ _ _ Hwf E) as [Hwf' Hrf].
  unfold Nack in E. destruct (checkArgs t g p o) eqn:Ea; [by simplify_eq|].
  apply checkArgs_None in Ea as (_&_&_&Ho). case_decide; [by simplify_eq|].
  destruct (checkTopicPartition t p b); [by simplify_eq|].
  pose proof (quiet_ensureInFlight t g p b) as Q1. set (b1 := ensureInFlight t g p b) in *.
  rewrite (q_infl _ _ Q1) in E.
  destruct (inFlightOf b t g p !! o) as [e|] eqn:He; [|by simplify_eq].
  destruct (decide (Owner e = TrimSpace owner)) as [Hoe|Hoe].
  2:{ rewrite bool_decide_eq_false_2 in E by done. by simplify_eq/=. }
  rewrite bool_decide_eq_true_2 in E by done. simpl negb in E. cbv iota in E.
  destruct (appendWALEntry _ _) as [b2 [err2|]] eqn:E2; pose proof (quiet_appendWALEntry_eq _ _ _ _ E2) as Q2.
  { simplify_eq. etrans; [done|]. etrans; [apply quiet_putRetryState|done]. }
  destruct (nackMarkFailed _ _ _ _ _ _ _ _ _) as [e3 b3]. injection E as <- <-.
  exists e. split_and!; [done|done| |].
  - unfold appendWALEntry in E2 |- *. fold (nackReason reason) in E2. simpl in E2.
    destruct (wal b) as [w|]; [|done]. by destruct (Append _ w) as [? [?|]].
  - apply below_next_accounted; [done|].
    pose proof (inflight_below_next _ _ _ _ _ _ Hwf He). pose proof (rf_next _ _ Hrf t g p). lia.
Qed.
End ack.

(** ** Acknowledging out of order *)
(** Two messages in flight; the second is acknowledged, the offsets are flushed, the broker
    is recovered from its log and the consumer comes back. *)
Definition ooAcked : exBroker := fst (AckIfOwner T0 T0 T0 "orders" "workers" 0 1 "alice" ex5).
Definition ooFlushed : exBroker := fst (flushPendingOffsets ooAcked).
Definition ooRestarted : exBroker :=
  match NewInMemoryBrokerFromWAL (T0 + 60 * Second) (wal ooFlushed) [] with
  | inl b => fst (ConsumeWithLease (T0 + 60 * Second) "orders" "workers" "alice" Second b)
  | inr _ => ex0
  end.

(** The committed offset is a high-water mark: acknowledging message 1 while message 0 is in
    flight commits past message 0; after a restart message 0 is neither in flight nor
    deliverable, though nobody acknowledged it. *)
Lemma out_of_order_ack_loses_message :
  bool_decide (is_Some (inFlightOf ooFlushed "orders" "workers" 0 !! 0)) = true /\
  zlen (logOf (topics ooRestarted) "orders" 0) = 2 /\
  size (inFlightOf ooRestarted "orders" "workers" 0) = 0%nat /\
  nextIndexOf ooRestarted "orders" "workers" 0 = 2.
Proof. repeat split; vm_compute; reflexivity. Qed.

(** A cumulative acknowledgement that is refused still registers its group: with a mistyped
    group name the slowest acknowledged offset, which admission is measured from, falls back
    to -1. *)
Lemma refused_ack_resets_slowest :
  slowestAckLocked "orders" 0 ooAcked = 1 /\
  snd (AckCumulativeIfOwner T0 "orders" "wrokers" 0 1 "alice" ooAcked) <> None /\
  slowestAckLocked "orders" 0 (fst (AckCumulativeIfOwner T0 "orders" "wrokers" 0 1 "alice" ooAcked)) = -1.
Proof. split; [vm_compute; reflexivity|]. split; [vm_compute; discriminate|vm_compute; reflexivity]. Qed.

(** ** Instances *)
Lemma AckIfOwner_effect_witness :
  let r := AckIfOwner T0 T0 T0 "orders" "workers" 0 1 " alice " ex5 in
  snd r = None /\ acked "orders" "workers" 0 1 ex5 (fst r) /\
  snd (AckIfOwner T0 T0 T0 "orders" "workers" 0 1 "bob" ex5) = Some ErrNotOwner.
Proof.
  cbv zeta. split; [vm_compute; reflexivity|]. split.
  - destruct (AckIfOwner T0 T0 T0 "orders" "workers" 0 1 " alice " ex5) as [b' err] eqn:E.
    assert (err = snd (AckIfOwner T0 T0 T0 "orders" "workers" 0 1 " alice " ex5)) as He by by rewrite E.
    vm_compute in He. subst err.
    destruct (AckIfOwner_effect _ _ _ _ _ _ _ _ _ _ _ wf_ex5 E) as [(e&_&_&Hack) _]. exact Hack.
  - vm_compute; reflexivity.
Defined.

Lemma AckCumulativeIfOwner_effect_witness :
  let r := AckCumulativeIfOwner T0 "orders" "workers" 0 1 "alice" ex5 in
  snd r = None /\ 1 <= committedRaw (fst r) "orders" "workers" 0.
Proof.
  cbv zeta. split; [vm_compute; reflexivity|].
  destruct (AckCumulativeIfOwner T0 "orders" "workers" 0 1 "alice" ex5) as [b' err] eqn:E.
  assert (err = snd (AckCumulativeIfOwner T0 "orders" "workers" 0 1 "alice" ex5)) as He by by rewrite E.
  vm_compute in He. subst err.
  exact (proj1 (AckCumulativeIfOwner_effect _ _ _ _ _ _ _ _ wf_ex5 E)).
Defined.

Lemma Nack_effect_witness :
  exists b', Nack (T0 + 1) "orders" "workers" 0 0 "alice" "boom" ex5 = (b', None) /\
    (is_Some (inFlightOf b' "orders" "workers" 0 !! 0) \/ 0 <= committedRaw b' "orders" "workers" 0).
Proof.
  destruct (Nack (T0 + 1) "orders" "workers" 0 0 "alice" "boom" ex5) as [b' err] eqn:E.
  assert (err = snd (Nack (T0 + 1) "orders" "workers" 0 0 "alice" "boom" ex5)) as He by by rewrite E.
  vm_compute in He. subst err. exists b'. split; [reflexivity|].
  destruct (Nack_effect _ _ _ _ _ _ _ _ _ _ wf_ex5 E) as (e&_&_&_&Hn). exact Hn.
Defined.
