(* ===== verification/RedeliverySpec.v ===== *)
(** * What redelivery does to an expired entry (properties of Redelivery.v)

    [outcome] lists the only things [redeliverEntry] can do with an entry whose lease has
    expired: leave it for a later tick (with the reason), drop it because it was committed
    elsewhere, drop it after dead-lettering it, drop it on a topic of dead letters, or write it
    to the channel of a consumer again. *)
From S2P Require Import Prelude Storage Idempotency BrokerTypes BrokerState Dispatch Produce.
From S2P Require Import Redelivery Consume BrokerInv DispatchInv ProduceInv RedeliveryInv.
From S2P Require Import BrokerSteps ProduceSpec IdemSpec AckSpec.
From Stdlib Require Import Init.Byte.

Section redelivery.
Context {W : Type} `{WAL W} `{MapOrder}.
Implicit Types b : @InMemoryBroker W.

(** The consume-scope record of the message is committed. *)
Definition doneElsewhere (s : IdempotencyStore) t g (m : Message) : Prop :=
  exists a k r, idemKeyOf m = Some (a, k) /\ isCommitted s (consumeKey a t g k) r.

Definition exhausted (e : inflightEntry) : Prop :=
  exists rp, retryPolicyOf (Msg e) = Some rp /\ 0 < MaxAttempts rp <= Attempts e.

(** The error an entry carries once its lease has run out. *)
Definition timeoutError (e : inflightEntry) : string :=
  if decide (ie_LastError e = "") then "ack_timeout" else ie_LastError e.

(** The entry with that error. *)
Definition markedEntry (e : inflightEntry) : inflightEntry :=
  if decide (ie_LastError e = "") then withLastError "ack_timeout" e else e.

(** A copy of the message, with where it comes from, is in the log of the dead-letter topic. *)
Definition deadLettered now t p o (e : inflightEntry) b : Prop :=
  exists part i m env, zlookup (logOf (topics b) (dlqTopicName t) part) i = Some m /\
    m_Key m = m_Key (Msg e) /\ m_Value m = m_Value (Msg e) /\ m_Envelope m = Some env /\
    env_DLQ env = Some (mkDLQ t p o (Attempts e) (timeoutError e) (UnixMilli now)).

Definition settled t g p o b : Prop :=
  inFlightOf b t g p !! o = None /\ o <= committedRaw b t g p.

(** A consume lease on the key is held by another owner than [owner]. *)
Definition heldByOther now (s : IdempotencyStore) (k : idempotencyKey) (owner : string) : Prop :=
  exists st, items s !! k = Some st /\ Status st = IdemStatusPending /\ leaseActive now st = true /\
    st_Owner st <> orUnknown owner.

(** Why a lease was not granted, other than being held: it is out of bounds, or the log refused it. *)
Definition beginFails (lease : Duration) (err : error) : Prop :=
  validateLease lease = Some err \/ exists en (w w' : W), Append en w = (w', Some err).

(** A lease on the key is refused with [err]. *)
Definition refusedLease now (s : IdempotencyStore) (k : idempotencyKey) (owner : string) (lease : Duration) (err : error) : Prop :=
  err = ErrIdempotencyLeaseHeld /\ heldByOther now s k owner \/ beginFails lease err.

(** Why an entry whose lease has expired is left as [e']: its backoff has not elapsed, its copy could
    not be published, every consumer found the key leased to another one, or a lease was refused. *)
Inductive kept now t g leases (e : inflightEntry) b (e' : inflightEntry) : Prop :=
| kept_backoff : NextDeliverAt e <> 0 -> now < NextDeliverAt e -> kept now t g leases e b e'
| kept_unpublished p o err b1 : exhausted e -> HasPrefix t "dlq." = false ->
    snd (publishToDLQLocked now t (dlqMessage now t p o (markedEntry e)) b1) = Some err -> topics b1 = topics b ->
    ie_LastError e' = appendLastError (timeoutError e) ("dlq_publish_failed: " +:+ Error err) ->
    kept now t g leases e b e'
| kept_leased a k : ~ exhausted e -> idemKeyOf (Msg e) = Some (a, k) ->
    (forall cs, cs ∈ streamsOf b t g -> refusedLease now (idem b) (consumeKey a t g k) (cs_Owner cs)
       (leaseForOwner leases (cs_Owner cs) b) ErrIdempotencyLeaseHeld) ->
    kept now t g leases e b e'
| kept_refused a k cs err : ~ exhausted e -> idemKeyOf (Msg e) = Some (a, k) -> cs ∈ streamsOf b t g ->
    beginFails (leaseForOwner leases (cs_Owner cs) b) err ->
    ie_LastError e' = appendLastError (timeoutError e) ("idem_begin_failed: " +:+ Error err) ->
    kept now t g leases e b e'.

(** The message is written at the end of the channel, unless the channel is full; no other channel changes. *)
Definition written (q : nat) (m : Message) b b' : Prop :=
  exists c, channels b !! q = Some c /\ ch_closed c = false /\
    channels b' = if zlen (ch_buf c) <? chanCap then <[q := mkChan (ch_buf c ++ [m]) false]> (channels b) else channels b.

Inductive outcome now t g p o leases (e : inflightEntry) b b' : Prop :=
| out_left e' :
    inFlightOf b' t g p !! o = Some e' -> same_message (Msg e') (Msg e) ->
    SentAt e' = SentAt e -> Attempts e' = Attempts e -> Owner e' = Owner e ->
    channels b' = channels b ->
    kept now t g leases e b e' -> outcome now t g p o leases e b b'
| out_done :
    settled t g p o b' -> doneElsewhere (idem b) t g (Msg e) -> outcome now t g p o leases e b b'
| out_dead :
    settled t g p o b' -> exhausted e -> HasPrefix t "dlq." = false -> deadLettered now t p o e b' ->
    outcome now t g p o leases e b b'
| out_dropped :
    settled t g p o b' -> exhausted e -> HasPrefix t "dlq." = true -> outcome now t g p o leases e b b'
| out_retried e' cs :
    inFlightOf b' t g p !! o = Some e' -> same_message (Msg e') (Msg e) -> cs ∈ streamsOf b t g ->
    SentAt e' = now -> Attempts e' = Attempts e +₆₄ 1 -> m_Attempts (Msg e') = Attempts e' ->
    Owner e' = cs_Owner cs ->
    NextDeliverAt e' = nextDelivery now (retryPolicyOf (Msg e)) (Attempts e') ->
    ie_LastError e' = timeoutError e -> written (cs_Q cs) (Msg e') b b' ->
    (forall a k, idemKeyOf (Msg e) = Some (a, k) -> 0 <= now ->
       holds (idem b') (consumeKey a t g k) (orUnknown (cs_Owner cs)) (Add now (leaseForOwner leases (cs_Owner cs) b))) ->
    ~ exhausted e -> (NextDeliverAt e = 0 \/ NextDeliverAt e <= now) -> outcome now t g p o leases e b b'.

(** ** The idempotency store along the way *)
Lemma begin_done now a t g k o l s (w : option W) s' w' res err :
  ConsumeBeginLease now a t g k o l s w = (s', w', (true, res, err)) -> isCommitted s (consumeKey a t g k) res.
Proof.
  unfold ConsumeBeginLease, appendThenPut. intros E.
  repeat (case_decide || case_match); simplify_eq.
  apply (isCommitted_cleanup now). by eexists.
Qed.

Lemma begin_refused now a t g k o l s (w : option W) s' w' d res err :
  ConsumeBeginLease now a t g k o l s w = (s', w', (d, res, Some err)) ->
  s' = s \/ s' = cleanupLocked now s.
Proof. unfold ConsumeBeginLease, appendThenPut. intros E. repeat (case_decide || case_match); simplify_eq; auto. Qed.

Lemma heldByOther_cleanup now now' s k o : heldByOther now (cleanupLocked now' s) k o -> heldByOther now s k o.
Proof. intros (st&Hk&?). exists st. split; [|done]. rewrite items_cleanup in Hk. destruct (items s !! k); [|done]. by case_decide; simplify_eq. Qed.
Lemma refusedLease_cleanup now now' s k o l err : refusedLease now (cleanupLocked now' s) k o l err -> refusedLease now s k o l err.
Proof. intros [[-> ?]|?]; [left|by right]. split; [done|by eapply heldByOther_cleanup]. Qed.
Lemma begin_error now a t g k o l s (w : option W) s' w' d res err :
  ConsumeBeginLease now a t g k o l s w = (s', w', (d, res, Some err)) ->
  refusedLease now s (consumeKey a t g k) o l err.
Proof.
  intros E. unfold ConsumeBeginLease in E. case_decide; [done|]. destruct (validateLease l) as [er|] eqn:Hl.
  { simplify_eq. right. by left. }
  assert (forall en k st s0, (let '(s, w, err) := appendThenPut en k st s0 w in (s, w, (false, [], err))) =
    (s', w', (d, res, Some err)) -> beginFails l err) as Hput.
  { intros en k0 st s0 E0. unfold appendThenPut, walAppend in E0. destruct w as [w|]; [|done].
    destruct (Append en w) as [w1 [er|]] eqn:Ea; simplify_eq. right. by exists en, w, w1. }
  cbv zeta in E. destruct (items _ !! _) as [st|] eqn:Hk; [|right; by eapply Hput].
  case_decide; [done|]. case_decide; [|right; by eapply Hput].
  destruct (leaseActive now st && _) eqn:Hb; [|right; by eapply Hput]. simplify_eq. left. split; [done|].
  apply andb_true_iff in Hb as [Hb Hne]. apply (heldByOther_cleanup _ now). exists st. split_and!; try done.
  intros Ho. by rewrite bool_decide_eq_true_2 in Hne.
Qed.

Lemma doneElsewhere_sub s s' t g m :
  (forall k r, isCommitted s' k r -> isCommitted s k r) -> doneElsewhere s' t g m -> doneElsewhere s t g m.
Proof. intros Hs (a&k&r&?&?). exists a, k, r. auto. Qed.

Lemma check_done now t g m b b' st :
  match idemKeyOf m with
  | Some (tenantID, idk) => idemConsumeCheck now tenantID t g idk b
  | None => (b, None)
  end = (b', st) ->
  (forall k r, isCommitted (idem b') k r -> isCommitted (idem b) k r) /\
  (Status <$> st = Some IdemStatusCommitted -> doneElsewhere (idem b) t g m).
Proof.
  unfold doneElsewhere. destruct (idemKeyOf m) as [[a k]|]; [|by intros; simplify_eq].
  unfold idemConsumeCheck, ConsumeCheck. case_decide; [by intros; simplify_eq|].
  intros E. injection E as <- <-. simpl. split; [by intros; eapply isCommitted_cleanup|].
  intros Hs. destruct (items _ !! _) as [st|] eqn:Hk; [|done]. injection Hs as Hs.
  exists a, k, (st_Result st). split; [done|]. eapply isCommitted_cleanup. by exists st.
Qed.

Lemma check_idem now t g m b b' st :
  match idemKeyOf m with
  | Some (tenantID, idk) => idemConsumeCheck now tenantID t g idk b
  | None => (b, None)
  end = (b', st) -> idem b' = idem b \/ idem b' = cleanupLocked now (idem b).
Proof.
  destruct (idemKeyOf m) as [[a k]|]; [|intros; simplify_eq; by left]. unfold idemConsumeCheck, ConsumeCheck.
  case_decide; intros; simplify_eq; [by left|by right].
Qed.

(** ** Settling *)
Lemma settle_settled now t g p o e b :
  wf b -> inFlightOf b t g p !! o = Some e -> settled t g p o (settle now t g p o b).
Proof.
  intros Hwf He. rewrite (settle_eq _ _ _ _ _ _ _ Hwf He).
  destruct (inflight_valid _ _ _ _ _ _ Hwf He) as (_&_&Ho&_).
  destruct (ackCore_spec t g p o b Hwf Ho) as [[Hwf1 _] Hc].
  assert (settled t g p o (ackCore t g p o b)) as [Hs1 Hs2].
  { split; [|lia]. rewrite inFlightOf_ackCore, decide_True by done. apply lookup_delete_eq. }
  set (b2 := if staleAt t g p o b then _ else _).
  assert (settled t g p o b2) as Hb2.
  { unfold b2. destruct (staleAt _ _ _ _ _); [done|].
    pose proof (dispatchPartitionLocked_df now t p _ Hwf1) as Hd. split.
    - apply (dframe_gone _ _ _ _ _ _ Hd Hs1). rewrite next_ackCore. by eapply inflight_below_next.
    - etrans; [exact Hs2|apply (df_committed _ _ Hd)]. }
  exact Hb2.
Qed.

(** ** Dead-lettering *)
Lemma markTimeout_fst now t g p o e b : fst (markTimeout now t g p o e b) = markedEntry e.
Proof. unfold markTimeout, markedEntry. by case_decide. Qed.
Lemma idem_markTimeout now t g p o e b : idem (snd (markTimeout now t g p o e b)) = idem b.
Proof.
  unfold markTimeout, noteError, recordRetry, emit, appendWALEntry. case_decide; [|done]. simpl.
  destruct (metrics b); simpl; destruct (wal b); try done; by destruct (Append _ _).
Qed.
Lemma marked_error e : ie_LastError (markedEntry e) = timeoutError e.
Proof. unfold markedEntry, timeoutError. by case_decide. Qed.
Lemma marked_same e :
  same_message (Msg (markedEntry e)) (Msg e) /\ Attempts (markedEntry e) = Attempts e /\
  SentAt (markedEntry e) = SentAt e /\ Owner (markedEntry e) = Owner e /\
  NextDeliverAt (markedEntry e) = NextDeliverAt e /\
  m_Envelope (Msg (markedEntry e)) = m_Envelope (Msg e).
Proof. unfold markedEntry. by case_decide. Qed.

Lemma publish_logged now t msg b b' :
  wf b -> publishToDLQLocked now t msg b = (b', None) -> HasPrefix t "dlq." = false ->
  exists part i m env, zlookup (logOf (topics b') (dlqTopicName t) part) i = Some m /\
    m_Key m = m_Key msg /\ m_Value m = m_Value msg /\ m_Envelope m = Some env /\
    env_DLQ env = Some (mkDLQ t (m_Partition msg) (m_Offset msg) (m_Attempts msg) (m_LastError msg)
                          (UnixMilli now)).
Proof.
  intros Hwf E Hp. unfold publishToDLQLocked in E. case_decide; [done|]. rewrite Hp in E.
  destruct (match topics b !! dlqTopicName t with Some _ => _ | None => _ end) as [b1 err1] eqn:E1.
  assert (wf b1) as Hwf1.
  { destruct (topics b !! dlqTopicName t); [by simplify_eq|]. by apply createTopicLocked_spec in E1 as [? _]. }
  destruct err1; [done|].
  destruct (produceLocked_effect' _ _ _ _ _ _ Hwf1 E) as (ts&part&_&_&_&_&Hlog).
  eexists part, (zlen (logOf (topics b1) (dlqTopicName t) part)), _, _.
  rewrite Hlog, decide_True, zlookup_snoc by done. split_and!; done.
Qed.

Lemma publish_quiet now t msg b b' err :
  wf b -> publishToDLQLocked now t msg b = (b', Some err) -> channels b' = channels b.
Proof.
  intros Hwf E. unfold publishToDLQLocked in E. case_decide; [by simplify_eq|]. case_match; [done|].
  destruct (match topics b !! dlqTopicName t with Some _ => _ | None => _ end) as [b1 err1] eqn:E1.
  assert (wf b1 /\ channels b1 = channels b) as [Hwf1 Hc1].
  { destruct (topics b !! dlqTopicName t); [by simplify_eq|]. split; [by apply createTopicLocked_spec in E1 as [? _]|].
    unfold createTopicLocked, createTopicLockedWithConfig in E1. by repeat (case_decide || case_match); simplify_eq. }
  destruct err1; [by simplify_eq|]. rewrite <- Hc1. apply (q_channels _ _ (produceLocked_effect' _ _ _ _ _ _ Hwf1 E)).
Qed.

Lemma deadLettered_mono now t p o e b b' :
  (forall t p, logOf (topics b) t p `prefix_of` logOf (topics b') t p) ->
  deadLettered now t p o e b -> deadLettered now t p o e b'.
Proof.
  intros Hp (part&i&m&env&Hm&?). exists part, i, m, env. split; [|done].
  destruct (Hp (dlqTopicName t) part) as [k ->]. rewrite zlookup_app_l; [done|].
  apply zlookup_Some_lt in Hm. lia.
Qed.

Lemma inflight_position b t g p o e :
  wf b -> inFlightOf b t g p !! o = Some e -> m_Partition (Msg e) = p /\ m_Offset (Msg e) = o.
Proof.
  intros Hwf He. destruct (wf_infl Hwf _ _ _ _ _ He) as (_&_&_&m&Hm&Hsm).
  unfold logOf in Hm. destruct (topics b !! t) as [ts|] eqn:Ht; simpl in Hm; [|by rewrite zlookup_nil in Hm].
  destruct (zlookup (partitions ts) p) as [l|] eqn:El; simpl in Hm; [|by rewrite zlookup_nil in Hm].
  destruct (wf_offsets Hwf _ _ _ _ _ _ Ht El Hm) as [<- <-].
  unfold same_message, set_m_LastError, set_m_Attempts in Hsm. simpl in Hsm. by injection Hsm.
Qed.

Lemma channels_noteError now t g p o err e b : channels (noteError now t g p o err e b) = channels b.
Proof. unfold noteError. by rewrite (q_channels _ _ (quiet_recordRetry now t g p o err _)). Qed.
Lemma channels_markTimeout now t g p o e b : channels (snd (markTimeout now t g p o e b)) = channels b.
Proof. unfold markTimeout. case_decide; [|done]. simpl. rewrite channels_noteError. apply (q_channels _ _ (quiet_emit _ _)). Qed.
Lemma topics_markTimeout now t g p o e b : topics (snd (markTimeout now t g p o e b)) = topics b.
Proof.
  unfold markTimeout. case_decide; [|done]. simpl.
  unfold noteError. rewrite (q_topics _ _ (quiet_recordRetry now t g p o "ack_timeout" _)). apply (q_topics _ _ (quiet_emit _ _)).
Qed.

(** An entry that stays, with an error noted or not. *)
Lemma marked_left now t g p o leases e b0 b err :
  channels b = channels b0 ->
  kept now t g leases e b0 (withLastError err (markedEntry e)) ->
  outcome now t g p o leases e b0 (noteError now t g p o err (markedEntry e) b).
Proof.
  intros Hc Hk. destruct (marked_same e) as (Hsm&Ha&Hs&Ho&_&_).
  eapply out_left; [apply inFlightOf_noteError|done..|by rewrite channels_noteError|done].
Qed.

Lemma routeToDLQ_outcome now t g p o leases e b0 b :
  wf b -> inFlightOf b t g p !! o = Some (markedEntry e) -> exhausted e ->
  channels b = channels b0 -> topics b = topics b0 ->
  outcome now t g p o leases e b0 (routeToDLQ now t g p o (markedEntry e) b).
Proof.
  intros Hwf He Hex Hc Ht. unfold routeToDLQ. destruct (marked_same e) as (Hsm&Ha&Hs&Ho&_&_).
  destruct (publishToDLQLocked _ _ _ _) as [b1 err] eqn:E1.
  destruct (publishToDLQ_spec _ _ _ _ _ _ Hwf E1) as [Hwf1 [Hrf1 Hin1]].
  assert (inFlightOf b1 t g p !! o = Some (markedEntry e)) as He1 by (by eapply lookup_weaken).
  assert (HasPrefix t "dlq." = true -> t <> "") as Hpre by (intros Hp ->; discriminate Hp).
  destruct err as [err|].
  { apply marked_left; [by rewrite (publish_quiet _ _ _ _ _ _ Hwf E1)|].
    eapply (kept_unpublished _ _ _ _ _ _ _ p o err b); [done| |by rewrite E1|done|by rewrite marked_error].
    destruct (HasPrefix t "dlq.") eqn:Hp; [|done]. exfalso. unfold publishToDLQLocked in E1.
    rewrite decide_False, Hp in E1 by auto. by simplify_eq. }
  pose proof (quiet_emit (IncDLQ t "max_attempts_reached") b1) as Q.
  set (b2 := emit _ b1) in *. assert (wf b2) as Hwf2 by eauto with go.
  rewrite <- (q_infl _ _ Q) in He1. assert (settled t g p o (settle now t g p o b2)) as Hst by by eapply settle_settled.
  destruct (HasPrefix t "dlq.") eqn:Hp; [by apply out_dropped|]. apply out_dead; [done..|].
  destruct (settle_rok now t g p o _ _ Hwf2 He1) as [_ Hrf2].
  apply (deadLettered_mono _ _ _ _ _ b2); [apply (ev_log _ _ (rf_ev _ _ Hrf2))|].
  destruct (publish_logged _ _ _ _ _ Hwf E1 Hp) as (part&i&m&env&Hm&Hk&Hv&Hen&Hd).
  exists part, i, m, env. rewrite (q_topics _ _ Q). destruct (inflight_position _ _ _ _ _ _ Hwf He) as [Hpp Hoo].
  unfold same_message, set_m_LastError, set_m_Attempts in Hsm. simpl in Hsm. injection Hsm as ? ? ? ? ? ?.
  simpl in Hk, Hv, Hd. rewrite Hpp, Hoo, Ha, marked_error in Hd. split_and!; try done; congruence.
Qed.

(** ** Choosing a consumer *)
(** What has been found when no consumer is chosen: every lease tried is held, or one was refused for another
    reason, or the message was committed elsewhere. *)
Definition unpicked now t g p o a k leases e (cands : list consumerStream) (s : IdempotencyStore) b b' : Prop :=
  quiet b b' /\ (forall cs, cs ∈ cands ->
     refusedLease now s (consumeKey a t g k) (cs_Owner cs) (leaseForOwner leases (cs_Owner cs) b) ErrIdempotencyLeaseHeld) \/
  (exists b0 cs err, b' = noteError now t g p o (appendLastError (ie_LastError e) ("idem_begin_failed: " +:+ Error err)) e b0 /\
     quiet b b0 /\ cs ∈ streamsOf b t g /\ err <> ErrIdempotencyLeaseHeld /\
     beginFails (leaseForOwner leases (cs_Owner cs) b) err) \/
  settled t g p o b' /\ doneElsewhere s t g (Msg e).

Lemma leaseForOwner_quiet leases o b b' : quiet b b' -> leaseForOwner leases o b' = leaseForOwner leases o b.
Proof. intros Q. unfold leaseForOwner. by rewrite (q_ack _ _ Q). Qed.

(** The candidates the loop visits. *)
Definition visited (chans : list consumerStream) (start : Z) (tries : list nat) : list consumerStream :=
  omap (fun x => zlookup chans (Z.rem (start + Z.of_nat x) (zlen chans))) tries.

(** A full round visits everyone. *)
Lemma visited_all chans start cs : 0 <= start -> cs ∈ chans -> cs ∈ visited chans start (seq 0 (length chans)).
Proof.
  intros Hs [i Hi]%list_elem_of_lookup. pose proof (lookup_lt_Some _ _ _ Hi) as Hl. set (n := zlen chans).
  assert (0 <= Z.of_nat i < n) as Hr by (unfold n, zlen; lia).
  assert (0 <= (Z.of_nat i - start) mod n < n) as Hm by (apply Z.mod_pos_bound; lia).
  apply list_elem_of_omap. exists (Z.to_nat ((Z.of_nat i - start) mod n)). split.
  - apply elem_of_seq. assert (n = Z.of_nat (length chans)) by done. lia.
  - fold n. rewrite Z2Nat.id by lia. rewrite Z.rem_mod_nonneg by lia.
    rewrite Zplus_mod_idemp_r, Zplus_minus, Z.mod_small by lia.
    unfold zlookup. rewrite decide_True by lia. by rewrite Nat2Z.id.
Qed.

Lemma unpicked_step now t g p o a k leases e cand cands b b1 b' :
  quiet b b1 -> idem b1 = idem b \/ idem b1 = cleanupLocked now (idem b) ->
  refusedLease now (idem b) (consumeKey a t g k) (cs_Owner cand) (leaseForOwner leases (cs_Owner cand) b) ErrIdempotencyLeaseHeld ->
  unpicked now t g p o a k leases e cands (idem b1) b1 b' -> unpicked now t g p o a k leases e (cand :: cands) (idem b) b b'.
Proof.
  intros Q1 Hi Hc [[Q2 Hall]|[(b0&cs&err&->&Q2&Hcs&He2&Hf)|[Hst Hd]]].
  - left. split; [by etrans|]. intros cs [->|Hcs]%elem_of_cons; [done|]. specialize (Hall cs Hcs).
    rewrite (leaseForOwner_quiet _ _ _ _ Q1) in Hall. destruct Hi as [Hx|Hx]; rewrite Hx in Hall; [done|].
    by eapply refusedLease_cleanup.
  - right; left. exists b0, cs, err. rewrite <- (leaseForOwner_quiet leases _ _ _ Q1), <- (quiet_streamsOf _ _ t g Q1).
    split_and!; [done|by etrans|done..].
  - right; right. split; [done|]. eapply doneElsewhere_sub; [|done]. intros k' r'.
    destruct Hi as [Hx|Hx]; rewrite Hx; [done|]. apply isCommitted_cleanup.
Qed.

Lemma redeliveryLoop_unpicked now t g a k p o leases start tries e b b' :
  wf b -> inFlightOf b t g p !! o = Some e -> idemKeyOf (Msg e) = Some (a, k) -> 0 <= start -> streamsOf b t g <> [] ->
  redeliveryLoop now t g a k p o (streamsOf b t g) leases start tries e b = (b', None) ->
  unpicked now t g p o a k leases e (visited (streamsOf b t g) start tries) (idem b) b b'.
Proof.
  intros Hwf He Hk Hs Hne. revert b Hwf He Hne. induction tries as [|x tries IH]; intros b Hwf He Hne E; simpl in E.
  { simplify_eq. left. split; [reflexivity|]. by intros cs Hcs%elem_of_nil. }
  unfold visited. simpl. destruct (zlookup_is_Some (streamsOf b t g) (Z.rem (start + Z.of_nat x) (zlen (streamsOf b t g)))) as [cand Hc].
  { apply Z.rem_bound_pos; [lia|]. unfold zlen. destruct (streamsOf b t g); simpl; [done|lia]. }
  rewrite Hc in E |- *. assert (cand ∈ streamsOf b t g) as Hin.
  { unfold zlookup in Hc. case_decide; [|done]. by eapply list_elem_of_lookup_2. }
  destruct (withIdem _ _) as [b1 [[ad res] err]] eqn:E1.
  assert (quiet b b1) as Q1 by eauto with go. assert (wf b1) as Hwf1 by eauto with go.
  pose proof He as He1. rewrite <- (q_infl _ _ Q1) in He1.
  unfold withIdem in E1. destruct (ConsumeBeginLease _ _ _ _ _ _ _ _ _) as [[s1 w1] r1] eqn:Eb.
  injection E1 as Eb1 ->. assert (idem b1 = s1) as Hs1 by by rewrite <- Eb1.
  destruct err as [err|].
  - pose proof (begin_error _ _ _ _ _ _ _ _ _ _ _ _ _ _ Eb) as Href. case_decide as Herr; simplify_eq.
    + rewrite <- (quiet_streamsOf _ _ t g Q1) in Hne, E |- *.
      apply (unpicked_step _ _ _ _ _ _ _ _ _ _ _ _ b1); [done|by eapply begin_refused|done|].
      by apply IH.
    + right; left. eexists _, cand, err. split_and!; [reflexivity|done|done|done|]. by destruct Href as [[? _]|?].
  - destruct ad; simplify_eq. right; right. split; [by eapply settle_settled|].
    exists a, k, res. split; [done|]. by eapply begin_done.
Qed.

(** The consumer the loop ends with has taken the lease. *)
Lemma redeliveryLoop_holds now t g a k p o chans leases start tries e b b' cs :
  0 <= now -> idemKeyOf (Msg e) = Some (a, k) ->
  redeliveryLoop now t g a k p o chans leases start tries e b = (b', Some cs) ->
  holds (idem b') (consumeKey a t g k) (orUnknown (cs_Owner cs)) (Add now (leaseForOwner leases (cs_Owner cs) b)).
Proof.
  intros Hn Hk. revert b. induction tries as [|x tries IH]; intros b E; simpl in E; [done|].
  destruct (zlookup chans _) as [cand|]; [|done].
  destruct (withIdem _ _) as [b1 [[ad res] err]] eqn:E1. pose proof (quiet_withIdem_eq _ _ _ _ E1) as Q1.
  destruct err as [err|].
  - case_decide; [|done]. rewrite <- (leaseForOwner_quiet leases _ _ _ Q1). by apply IH.
  - destruct ad; simplify_eq. unfold withIdem in E1.
    destruct (ConsumeBeginLease _ _ _ _ _ _ _ _ _) as [[s1 w1] r1] eqn:Eb. injection E1 as <- ->.
    apply begin_success in Eb as [_ Hh]; [exact Hh| |done]. unfold idemKeyOf in Hk. repeat case_match; naive_solver.
Qed.

(** The choice: nobody, for one of the reasons above, or a consumer who holds the lease of a keyed message. *)
Lemma pick_cases now t g p o leases e b b' r :
  wf b -> inFlightOf b t g p !! o = Some e -> streamsOf b t g <> [] ->
  pickRedeliveryConsumer now t g p o (streamsOf b t g) leases e b = (b', r) ->
  match r with
  | None => exists a k, idemKeyOf (Msg e) = Some (a, k) /\ unpicked now t g p o a k leases e (streamsOf b t g) (idem b) b b'
  | Some cs => quiet b b' /\ cs ∈ streamsOf b t g /\ forall a k, idemKeyOf (Msg e) = Some (a, k) -> 0 <= now ->
      holds (idem b') (consumeKey a t g k) (orUnknown (cs_Owner cs)) (Add now (leaseForOwner leases (cs_Owner cs) b))
  end.
Proof.
  intros Hwf He Hne E. destruct (pickRedeliveryConsumer_spec _ _ _ _ _ _ _ _ _ _ Hwf He E) as [_ Hcs].
  pose proof (wf_rr_range b t g Hwf) as Hr. unfold pickRedeliveryConsumer in E.
  assert (0 < zlen (streamsOf b t g)) as Hn by (unfold zlen; destruct (streamsOf b t g); [done|simpl; lia]).
  destruct (idemKeyOf (Msg e)) as [[a k]|] eqn:Hk.
  - assert (0 <= Z.rem (rrOf b t g) (zlen (streamsOf b t g))) by (apply Z.rem_nonneg; lia). destruct r as [cs|].
    + destruct (Hcs cs eq_refl) as [Q Hin]. split_and!; [done..|]. intros a' k' [= <- <-] Hnow. by eapply redeliveryLoop_holds.
    + exists a, k. split; [done|]. apply redeliveryLoop_unpicked in E; [|done..].
      destruct E as [[Q Hall]|E]; [|by right]. left. split; [done|]. intros cs Hin. by apply Hall, visited_all.
  - destruct r as [cs|]; [destruct (Hcs cs eq_refl); by split_and!|]. exfalso. injection E as <- Hz.
    destruct (zlookup_is_Some (streamsOf b t g) (Z.rem (rrOf b t g) (zlen (streamsOf b t g)))) as [x Hx]; [apply Z.rem_bound_pos; lia|].
    by rewrite Hz in Hx.
Qed.

(** ** Sending again *)
Lemma inFlightOf_resend now t g p o cs e b :
  inFlightOf (resend now t g p o cs e b) t g p !! o = Some (retriedEntry now cs e).
Proof.
  unfold resend. set (b1 := emit _ _).
  assert (inFlightOf (putInFlight t g p o (retriedEntry now cs e) b1) t g p !! o =
    Some (retriedEntry now cs e)) as Hp.
  { rewrite inFlightOf_putInFlight, decide_True by done. apply lookup_insert_eq. }
  unfold trySend. by repeat (case_match; simplify_eq/=).
Qed.

Definition isExhausted (e : inflightEntry) : bool :=
  match retryPolicyOf (Msg e) with
  | Some rp => (0 <? MaxAttempts rp) && (MaxAttempts rp <=? Attempts e)
  | None => false
  end.
Lemma isExhausted_spec e : isExhausted e = true <-> exhausted e.
Proof.
  unfold isExhausted, exhausted. destruct (retryPolicyOf (Msg e)) as [rp|]; [|naive_solver].
  rewrite andb_true_iff, Z.ltb_lt, Z.leb_le. naive_solver.
Qed.

Lemma envelope_exhausted e : exhausted (markedEntry e) <-> exhausted e.
Proof.
  unfold exhausted, retryPolicyOf. destruct (marked_same e) as (_&Ha&_&_&_&He). by rewrite Ha, He.
Qed.
Lemma envelope_done s t g m m' : m_Envelope m = m_Envelope m' -> doneElsewhere s t g m -> doneElsewhere s t g m'.
Proof. unfold doneElsewhere, idemKeyOf. by intros ->. Qed.

Lemma resend_written now t g p o cs e b :
  wf b -> cs ∈ streamsOf b t g -> written (cs_Q cs) (Msg (retriedEntry now cs e)) b (resend now t g p o cs e b).
Proof.
  intros Hwf Hin. destruct (wf_open Hwf _ _ _ Hin) as (Hq&c&Hc&Ho). rewrite <- Hq in Hc. exists c. split_and!; [done..|].
  unfold resend, trySend. set (b1 := putInFlight _ _ _ _ _ _).
  assert (channels b1 = channels b) as Hb1.
  { unfold b1, putInFlight. simpl. etrans; [apply (q_channels _ _ (quiet_emit _ _))|apply (q_channels _ _ (quiet_recordDelivery _ _ _ _ _ _))]. }
  rewrite Hb1, Hc, Ho. destruct (_ <? chanCap); done.
Qed.
Lemma idem_resend now t g p o cs e b : idem (resend now t g p o cs e b) = idem b.
Proof.
  unfold resend, trySend, emit, recordDeliveryLocked, putInFlight.
  repeat (case_match; simplify_eq/=); done.
Qed.

Lemma retryEntryNow_outcome now t g p o leases e b0 b :
  wf b -> inFlightOf b t g p !! o = Some (markedEntry e) -> streamsOf b t g <> [] ->
  streamsOf b t g = streamsOf b0 t g -> channels b = channels b0 -> topics b = topics b0 -> ackTimeout b = ackTimeout b0 ->
  idem b = idem b0 \/ idem b = cleanupLocked now (idem b0) ->
  (NextDeliverAt e = 0 \/ NextDeliverAt e <= now) ->
  outcome now t g p o leases e b0 (retryEntryNow now t g p o (streamsOf b t g) leases (markedEntry e) b).
Proof.
  intros Hwf He Hne Hst Hc Ht Hat Hid Hdue. unfold retryEntryNow. fold (isExhausted (markedEntry e)).
  destruct (marked_same e) as (Hsm&Ha&Hs&Ho&Hnd&Henv).
  destruct (isExhausted (markedEntry e)) eqn:Hex.
  { apply routeToDLQ_outcome; [done..| |done|done]. by apply envelope_exhausted, isExhausted_spec. }
  assert (~ exhausted e) as Hnex.
  { rewrite <- envelope_exhausted, <- isExhausted_spec. by rewrite Hex. }
  assert (forall o, leaseForOwner leases o b = leaseForOwner leases o b0) as Hl by (intros; unfold leaseForOwner; by rewrite Hat).
  assert (forall a k, idemKeyOf (Msg (markedEntry e)) = Some (a, k) -> idemKeyOf (Msg e) = Some (a, k)) as Hkey.
  { intros a k. unfold idemKeyOf. by rewrite Henv. }
  destruct (pickRedeliveryConsumer _ _ _ _ _ _ _ _ _) as [b1 r] eqn:E1. apply pick_cases in E1; [|done..].
  destruct r as [cs|].
  - destruct E1 as (Q&Hin&Hh). rewrite Hst in Hin.
    eapply (out_retried _ _ _ _ _ _ _ _ _ (retriedEntry now cs (markedEntry e)) cs);
      [apply inFlightOf_resend|done|done|done| |done|done| | | | |done|done]; simpl.
    + by rewrite Ha.
    + unfold retryPolicyOf. by rewrite Ha, Henv.
    + apply marked_error.
    + unfold written. rewrite <- Hc, <- (q_channels _ _ Q). apply resend_written; [by eauto with go|].
      by rewrite (quiet_streamsOf _ _ _ _ Q), Hst.
    + intros a k Hk Hn. rewrite idem_resend, <- Hl. apply Hh; [|done]. revert Hk. unfold idemKeyOf. by rewrite Henv.
  - destruct E1 as (a&k&Hk%Hkey&[[Q Hall]|[(b2&cs&err&->&Q&Hcs&He2&Hf)|[Hst' Hd]]]).
    + eapply out_left; [by rewrite (q_infl _ _ Q)|done..|by rewrite (q_channels _ _ Q)|].
      eapply kept_leased; [done..|]. intros cs Hcs. rewrite <- Hl. rewrite <- Hst in Hcs. specialize (Hall cs Hcs).
      destruct Hid as [Hx|Hx]; rewrite Hx in Hall; [done|]. by eapply refusedLease_cleanup.
    + apply marked_left; [by rewrite (q_channels _ _ Q)|]. eapply (kept_refused _ _ _ _ _ _ _ a k cs err);
        [done|done|by rewrite <- Hst|by rewrite <- Hl|]. simpl. by rewrite marked_error.
    + apply out_done; [done|]. eapply envelope_done; [exact Henv|]. eapply doneElsewhere_sub; [|done]. intros k' r'.
      destruct Hid as [Hx|Hx]; rewrite Hx; [done|]. apply isCommitted_cleanup.
Qed.

(** C12: redelivery of one in-flight entry.  While its owner's lease runs nothing happens.  Once it
    has run out the entry is sent again: written to the channel of a registered consumer (unless the
    channel is full), with one more attempt, a fresh lease start and the next backoff, and, when the
    message has an idempotency key, under a lease that consumer has just taken.  It is left for a
    later tick, with its attempts unchanged, only while its backoff runs, when its dead letter could
    not be published, or when every consumer found its key leased to another one or a lease was
    refused.  It is removed and its offset committed only because the message was committed
    elsewhere, or because its attempts are exhausted and either a copy with its origin is in the
    dead-letter topic or, against the comment in the code, without any copy when the topic itself is
    named as one of dead letters. *)
Theorem redeliverEntry_effect now t g p o leases b e :
  wf b -> inFlightOf b t g p !! o = Some e -> streamsOf b t g <> [] ->
  let b' := redeliverEntry now t g p o (streamsOf b t g) leases b in
  if Sub now (SentAt e) <? leaseForOwner leases (Owner e) b then b' = b
  else outcome now t g p o leases e b b'.
Proof.
  intros Hwf He Hne b'. unfold b', redeliverEntry. clear b'. rewrite He.
  destruct (_ <? _); [done|].
  pose proof (markTimeout_fst now t g p o e b) as Hm. pose proof (idem_markTimeout now t g p o e b) as Hi.
  pose proof (channels_markTimeout now t g p o e b) as Hc. pose proof (topics_markTimeout now t g p o e b) as Ht.
  destruct (markTimeout now t g p o e b) as [e1 b1] eqn:E1. simpl in Hm, Hi, Hc, Ht. subst e1.
  destruct (markTimeout_spec _ _ _ _ _ _ _ _ _ Hwf He E1) as [[Hwf1 Hrf1] He1].
  destruct (marked_same e) as (Hsm&Ha&Hs&Ho&Hnd&Henv). rewrite Hnd.
  destruct (negb (IsZero (NextDeliverAt e)) && Before now (NextDeliverAt e)) eqn:Hdue.
  { eapply out_left; [done..|]. unfold IsZero, Before in Hdue. apply kept_backoff; lia. }
  assert (NextDeliverAt e = 0 \/ NextDeliverAt e <= now) as Hdue'.
  { unfold IsZero, Before in Hdue. lia. }
  destruct (match idemKeyOf _ with Some _ => _ | None => _ end) as [b2 st] eqn:E2.
  assert (quiet b1 b2) as Q2 by eauto with go. assert (wf b2) as Hwf2 by eauto with go.
  destruct (check_done _ _ _ _ _ _ _ E2) as [Hsub Hdone]. rewrite Hi in Hsub, Hdone.
  rewrite <- (q_infl _ _ Q2) in He1.
  assert (streamsOf b2 t g = streamsOf b t g) as Hst.
  { rewrite (quiet_streamsOf _ _ t g Q2). unfold streamsOf. by rewrite (rf_chans _ _ Hrf1). }
  case_bool_decide as Hd.
  - apply out_done; [by eapply settle_settled|]. eapply envelope_done; [exact Henv|by apply Hdone].
  - rewrite <- Hst. apply retryEntryNow_outcome; rewrite ?(q_channels _ _ Q2), ?(q_topics _ _ Q2), ?(q_ack _ _ Q2); try done.
    + by rewrite Hst.
    + apply (rf_ack _ _ Hrf1).
    + rewrite <- Hi. by eapply check_idem.
Qed.
End redelivery.

(** ** Instances *)
(** The message with an exhausted policy, one lease later. *)
Lemma redeliverEntry_effect_witness :
  exists e, inFlightOf ex5 "orders" "workers" 1 !! 0 = Some e /\
    let b' := redeliverEntry (T0 + 2 * Second) "orders" "workers" 1 0 (streamsOf ex5 "orders" "workers")
                (ownerLeases (streamsOf ex5 "orders" "workers") ex5) ex5 in
    outcome (T0 + 2 * Second) "orders" "workers" 1 0 (ownerLeases (streamsOf ex5 "orders" "workers") ex5) e ex5 b' /\
    zlen (logOf (topics b') "dlq.orders" 0) = 1.
Proof.
  destruct (inFlightOf ex5 "orders" "workers" 1 !! 0) as [e|] eqn:He; [|vm_compute in He; discriminate].
  exists e. split; [reflexivity|]. cbv zeta. split; [|vm_compute; reflexivity].
  pose proof (redeliverEntry_effect (T0 + 2 * Second) "orders" "workers" 1 0
    (ownerLeases (streamsOf ex5 "orders" "workers") ex5) ex5 e wf_ex5 He) as Hr.
  vm_compute in He. injection He as <-. apply Hr. vm_compute. discriminate.
Defined.

(** On a topic of dead letters an exhausted message is dropped, and no log holds a copy of it but its own. *)
Definition dead0 : exBroker :=
  fst (produceLocked T0 "dlq.orders" retryMsg
    (fst (ConsumeWithLease T0 "dlq.orders" "ops" "bob" (1 * Second) (fst (CreateTopic "dlq.orders" 2 ex0))))).
Definition dead1 : exBroker := redeliverExpiredLocked (T0 + 2 * Second) dead0.
Lemma exhausted_dead_letter_dropped :
  is_Some (inFlightOf dead0 "dlq.orders" "ops" 1 !! 0) /\
  inFlightOf dead1 "dlq.orders" "ops" 1 !! 0 = None /\ committedRaw dead1 "dlq.orders" "ops" 1 = 0 /\
  topics dead1 = topics dead0.
Proof. split; [eexists; vm_compute; reflexivity|]. split_and!; vm_compute; reflexivity. Qed.
