(* ===== verification/FileWalSpec.v ===== *)
(** * The file log implements the log interface (properties of Storage.v)

    [FileWAL] refines [WALLaws]: a replay returns exactly the entries that were appended
    successfully, plus possibly those whose append failed after their record had been
    written.  With a sync interval of 0 a successful append survives a crash. *)
From S2P Require Import Prelude Storage Idempotency BrokerTypes BrokerState Dispatch Produce Redelivery Consume BrokerInv BrokerSteps AckSpec.
From Stdlib Require Import Init.Byte.

(** ** Lines *)
(** The complete lines of a text: what follows the last newline is left out. *)
Fixpoint complete_lines (cur : bytes) (l : bytes) : list bytes :=
  match l with
  | [] => []
  | b :: l => if decide (b = newline) then cur :: complete_lines [] l else complete_lines (cur ++ [b]) l
  end.

Fixpoint unlines (ls : list bytes) : bytes :=
  match ls with [] => [] | l :: ls => l ++ newline :: unlines ls end.

Lemma unlines_snoc ls l : unlines (ls ++ [l]) = unlines ls ++ l ++ [newline].
Proof. induction ls as [|x ls IH]; simpl; [done|]. by rewrite IH, <- app_assoc. Qed.

Lemma complete_lines_line cur l rest :
  newline ∉ l -> complete_lines cur (l ++ newline :: rest) = (cur ++ l) :: complete_lines [] rest.
Proof.
  revert cur. induction l as [|c l IH]; intros cur Hl; simpl.
  - by rewrite app_nil_r.
  - rewrite not_elem_of_cons in Hl. destruct Hl. rewrite decide_False by congruence.
    rewrite IH by done. by rewrite <- app_assoc.
Qed.
Lemma complete_lines_partial cur rest : newline ∉ rest -> complete_lines cur rest = [].
Proof.
  revert cur. induction rest as [|c l IH]; intros cur Hl; simpl; [done|].
  rewrite not_elem_of_cons in Hl. destruct Hl. rewrite decide_False by congruence. by apply IH.
Qed.
Lemma complete_lines_unlines ls rest :
  Forall (fun l => newline ∉ l) ls -> newline ∉ rest -> complete_lines [] (unlines ls ++ rest) = ls.
Proof.
  intros Hls Hr. induction Hls as [|l ls Hl _ IH]; simpl; [by apply complete_lines_partial|].
  rewrite <- app_assoc. simpl. rewrite complete_lines_line by done.
  by rewrite IH.
Qed.

Lemma split_lines_line cur l rest :
  newline ∉ l -> split_lines cur (l ++ newline :: rest) = (cur ++ l) :: split_lines [] rest.
Proof.
  revert cur. induction l as [|c l IH]; intros cur Hl; simpl.
  - by rewrite app_nil_r.
  - rewrite not_elem_of_cons in Hl. destruct Hl. rewrite decide_False by congruence.
    rewrite IH by done. by rewrite <- app_assoc.
Qed.
Lemma split_lines_partial cur rest :
  newline ∉ rest -> split_lines cur rest = if decide (cur ++ rest = []) then [] else [cur ++ rest].
Proof.
  revert cur. induction rest as [|c l IH]; intros cur Hl; simpl; [by rewrite app_nil_r|].
  rewrite not_elem_of_cons in Hl. destruct Hl. rewrite decide_False by congruence.
  rewrite IH by done. by rewrite <- app_assoc.
Qed.
Lemma split_lines_unlines ls rest :
  Forall (fun l => newline ∉ l) ls -> newline ∉ rest ->
  split_lines [] (unlines ls ++ rest) = ls ++ (if decide (rest = []) then [] else [rest]).
Proof.
  intros Hls Hr. induction Hls as [|l ls Hl _ IH]; simpl; [by apply split_lines_partial|].
  rewrite <- app_assoc. simpl. rewrite split_lines_line by done.
  by rewrite IH.
Qed.

Lemma take_line_no_newline n l : newline ∉ l -> newline ∉ take n l.
Proof. intros Hl [i Hi]%list_elem_of_lookup. apply Hl. rewrite lookup_take_Some in Hi. by eapply list_elem_of_lookup_2, Hi. Qed.

(** ** The buffered writer *)
Definition content (w : FileWAL) : bytes := f w ++ bw w.

(** Writing adds the text to the contents, or a prefix of it and an error that sticks. *)
Definition writes (p : bytes) (w w' : FileWAL) (err : option error) : Prop :=
  syncInterval w' = syncInterval w /\ f w `prefix_of` f w' /\ f_synced w' = f_synced w /\
  match err with
  | None => content w' = content w ++ p /\ bw_err w' = None
  | Some _ => is_Some (bw_err w') /\ exists k, content w' = content w ++ take k p
  end.

Lemma next_os_spec w a w' :
  next_os w = (a, w') -> f w' = f w /\ bw w' = bw w /\ bw_err w' = bw_err w /\ bw_size w' = bw_size w /\
    syncInterval w' = syncInterval w /\ lastSync w' = lastSync w /\ f_synced w' = f_synced w.
Proof. unfold next_os. destruct (os w); intros; by simplify_eq. Qed.

Lemma bw_Flush_spec w w' err :
  bw_Flush w = (w', err) ->
  writes [] w w' err /\ bw_size w' = bw_size w /\ (err = None -> bw w' = [] /\ f w' = content w) /\
  (is_Some (bw_err w) -> is_Some err).
Proof.
  unfold bw_Flush, writes, content. intros E. destruct (bw_err w) as [e|] eqn:Hs.
  { simplify_eq. split_and!; try done. exists 0%nat. by rewrite take_0, app_nil_r. }
  case_decide as Hb.
  { simplify_eq. rewrite Hb, !app_nil_r, Hs. split_and!; done. }
  destruct (next_os w) as [a w1] eqn:Eo. apply next_os_spec in Eo as (Hf&Hbw&Herr&Hsz&Hsi&_&Hsy).
  destruct (wrote a) as [n|]; simplify_eq/=; rewrite Hf, Hbw, ?Hsy, ?Hsz, ?Hsi.
  - split_and!; try done; try (by apply prefix_app_r).
    exists 0%nat. by rewrite take_0, app_nil_r, <- app_assoc, take_drop.
  - split_and!; try done; try (by apply prefix_app_r); by rewrite ?app_nil_r.
Qed.

Lemma bw_WriteDirect_spec w p w' err :
  bw w = [] -> bw_err w = None -> bw_WriteDirect w p = (w', err) -> writes p w w' err.
Proof.
  unfold bw_WriteDirect, writes, content. intros Hb Hs E. destruct (next_os w) as [a w1] eqn:Eo.
  apply next_os_spec in Eo as (Hf&Hbw&Herr&Hsz&Hsi&_&Hsy). rewrite Hb, app_nil_r in *.
  destruct (wrote a) as [n|]; simplify_eq/=; rewrite Hf, Hsy, Hsi.
  - split_and!; try done; try (by apply prefix_app_r). exists n. by rewrite app_nil_r.
  - split_and!; try done; try (by apply prefix_app_r); by rewrite ?app_nil_r.
Qed.

Lemma bw_Write_spec w p w' err : bw_Write w p = (w', err) -> writes p w w' err.
Proof.
  unfold bw_Write. intros E. destruct (bw_err w) as [e|] eqn:Hs.
  { simplify_eq. unfold writes. rewrite Hs. split_and!; try done. exists 0%nat.
    by rewrite take_0, app_nil_r. }
  set (avail := (bw_size w - length (bw w))%nat) in *. case_decide as Hl.
  { simplify_eq. unfold writes, content. simpl. split_and!; try done. by rewrite app_assoc. }
  destruct (decide (bw w = [])) as [Hb|Hb]; [by eapply bw_WriteDirect_spec|].
  set (w0 := set_bw w (f w) (bw w ++ take avail p) None) in *.
  destruct (bw_Flush w0) as [w1 e1] eqn:Ef. apply bw_Flush_spec in Ef as ((Hsi&Hpre&Hsy&Hc)&Hsz&He&_).
  assert (content w0 = content w ++ take avail p) as Hc0 by (unfold content; simpl; by rewrite app_assoc).
  destruct e1 as [e1|].
  { simplify_eq. destruct Hc as [? [k Hc]]. unfold writes. split_and!; try done.
    exists avail. by rewrite Hc, take_nil, app_nil_r. }
  destruct (He eq_refl) as [Hbw1 Hf1]. destruct Hc as [Hc Herr]. rewrite app_nil_r, Hc0 in Hc.
  case_decide as Hl2.
  - simplify_eq. unfold writes, content in *. simpl. rewrite Hbw1, app_nil_r in Hc. split_and!; try done.
    rewrite Hc. by rewrite <- !app_assoc, take_drop.
  - destruct (bw_WriteDirect w1 (drop avail p)) as [w2 e2] eqn:Ed.
    apply bw_WriteDirect_spec in Ed as (Hsi2&Hpre2&Hsy2&Hc2); [|done..]. simplify_eq.
    unfold writes. split; [by rewrite Hsi2, Hsi|]. split; [by etrans|]. split; [by rewrite Hsy2, Hsy|].
    destruct err as [err|].
    + destruct Hc2 as [? [k Hc2]]. split; [done|]. exists (length (take avail p) + k)%nat.
      rewrite Hc2, Hc, <- app_assoc. pose proof (take_app_add (take avail p) (drop avail p) k) as Ht. rewrite take_drop in Ht. by rewrite Ht.
    + destruct Hc2 as [Hc2 ?]. split; [|done]. by rewrite Hc2, Hc, <- app_assoc, take_drop.
Qed.

(** ** Entries *)
Section codec.
Context (json_encode : Entry -> bytes + error) (json_decode : bytes -> Entry + error).
Abbreviation append := (FileWAL_Append json_encode).
Abbreviation replay := (FileWAL_Replay json_decode).

(** The line of an entry: what the encoder writes for it is one line that decodes to it and
    that the scanner accepts. *)
Record coded (e : Entry) (l : bytes) : Prop := mkCoded {
  cd_encode : json_encode e = inl l;
  cd_decode : json_decode l = inl e;
  cd_line : newline ∉ l;
  cd_nonempty : l <> [];
  cd_cr : dropCR l = l;
  cd_size : zlen l < maxLineBytes
}.
Definition file_representable (e : Entry) : Prop := exists l, coded e l.

Definition decodeLine (l : bytes) : option Entry :=
  match json_decode l with inl e => Some e | inr _ => None end.
(** The entries of the complete lines written so far, buffered ones included. *)
Definition file_log (w : FileWAL) : list Entry := omap decodeLine (complete_lines [] (content w)).

Record holds_lines (w : FileWAL) (es : list Entry) (ls : list bytes) (rest : bytes) : Prop := mkHolds {
  hl_content : content w = unlines ls ++ rest;
  hl_coded : Forall2 coded es ls;
  hl_rest : newline ∉ rest;
  hl_sound : bw_err w = None -> rest = []
}.
(** Complete lines of entries; something else at the end only after a write error. *)
Definition file_ok (w : FileWAL) : Prop := exists es ls rest, holds_lines w es ls rest.

Lemma coded_lines es ls : Forall2 coded es ls -> Forall (fun l => newline ∉ l) ls.
Proof. induction 1 as [|e l es ls []]; constructor; done. Qed.

Lemma decode_coded es ls : Forall2 coded es ls -> decode_lines json_decode ls = inl es.
Proof.
  induction 1 as [|e l es ls [_ Hd _ Hne Hcr Hsz] _ IH]; simpl; [done|].
  destruct (Z.leb_spec maxLineBytes (zlen l)); [lia|]. rewrite Hcr, decide_False by done.
  by rewrite Hd, IH.
Qed.
Lemma omap_coded es ls : Forall2 coded es ls -> omap decodeLine ls = es.
Proof.
  induction 1 as [|e l es ls [_ Hd _ Hne Hcr Hsz] _ IH]; simpl; [done|]. unfold decodeLine at 1.
  rewrite Hd. f_equal. apply IH.
Qed.

Lemma file_log_eq w es ls rest : holds_lines w es ls rest -> file_log w = es.
Proof.
  intros [Hc Hf Hr _]. unfold file_log. rewrite Hc, complete_lines_unlines by eauto using coded_lines.
  by apply omap_coded.
Qed.

(** Replaying a text of complete lines of entries. *)
Lemma replay_lines es ls : Forall2 coded es ls -> decode_lines json_decode (split_lines [] (unlines ls)) = inl es.
Proof.
  intros Hf. rewrite <- (app_nil_r (unlines ls)), split_lines_unlines by
    (eauto using coded_lines || apply not_elem_of_nil).
  rewrite decide_True, app_nil_r by done. by apply decode_coded.
Qed.

(** ** Appending *)
(** The contents after writing a prefix of one more line. *)
Lemma holds_partial w w' es ls rest e l k err :
  holds_lines w es ls rest -> coded e l -> bw_err w = None -> bw_err w' = Some err ->
  content w' = content w ++ take k (l ++ [newline]) ->
  file_ok w' /\ (file_log w' = es \/ file_log w' = es ++ [e]).
Proof.
  intros [Hc Hf Hr Hs] Hcd Hn He Hc'. rewrite (Hs Hn), app_nil_r in Hc. rewrite Hc in Hc'.
  destruct (decide (k <= length l)%nat) as [Hk|Hk].
  - rewrite take_app_le in Hc' by done.
    assert (holds_lines w' es ls (take k l)) as Hh.
    { split; [done|done| |by rewrite He]. apply take_line_no_newline, Hcd. }
    split; [by eexists _, _, _|left; by eapply file_log_eq].
  - rewrite take_ge in Hc' by (rewrite length_app; simpl; lia). rewrite <- unlines_snoc in Hc'.
    assert (holds_lines w' (es ++ [e]) (ls ++ [l]) []) as Hh.
    { split; [by rewrite app_nil_r|by apply Forall2_app; [|constructor]|apply not_elem_of_nil|done]. }
    split; [by eexists _, _, _|right; by eapply file_log_eq].
Qed.

Lemma holds_complete w w' es ls rest e l :
  holds_lines w es ls rest -> coded e l -> bw_err w = None -> content w' = content w ++ l ++ [newline] ->
  holds_lines w' (es ++ [e]) (ls ++ [l]) [].
Proof.
  intros [Hc Hf Hr Hs] Hcd Hn Hc'. rewrite (Hs Hn), app_nil_r in Hc.
  split; [by rewrite app_nil_r, unlines_snoc, Hc', Hc|by apply Forall2_app; [|constructor]| |done].
  apply not_elem_of_nil.
Qed.

Lemma holds_flush w w' err es ls :
  holds_lines w es ls [] -> writes [] w w' err -> holds_lines w' es ls [].
Proof.
  intros [Hc Hf Hr Hs] (_&_&_&Hw). assert (content w' = content w) as Hc'.
  { destruct err; [destruct Hw as [_ [k Hw]]; by rewrite Hw, take_nil, app_nil_r|].
    destruct Hw as [Hw _]. by rewrite Hw, app_nil_r. }
  split; [by rewrite Hc'|done..].
Qed.

Lemma flushAndSync_spec w w' err es ls :
  holds_lines w es ls [] -> flushAndSyncLocked w = (w', err) ->
  holds_lines w' es ls [] /\ f w `prefix_of` f w' /\ syncInterval w' = syncInterval w /\
  match err with
  | None => bw w' = [] /\ bw_err w' = None /\ f_synced w' = length (f w')
  | Some _ => f_synced w' = f_synced w
  end.
Proof.
  unfold flushAndSyncLocked. intros Hh E. destruct (bw_Flush w) as [w1 e1] eqn:Ef.
  apply bw_Flush_spec in Ef as (Hw&_&Hok&_). pose proof (holds_flush _ _ _ _ _ Hh Hw) as Hh1.
  destruct Hw as (Hsi&Hpre&Hsy&Hc). destruct e1 as [e1|]; [by simplify_eq|].
  destruct (Hok eq_refl) as [Hb _]. destruct Hc as [_ Herr].
  destruct (next_os w1) as [a w2] eqn:Eo. apply next_os_spec in Eo as (Hf2&Hbw2&Herr2&_&Hsi2&_&Hsy2).
  destruct Hh1 as [Hc1 Hf1 Hr1 Hs1]. unfold content in Hc1.
  destruct (sync_err a) as [e2|]; simplify_eq/=.
  - split; [by split; unfold content; rewrite ?Hf2, ?Hbw2|]. rewrite Hf2, Hsi2, Hsy2. done.
  - split; [by split; unfold content; simpl; rewrite ?Hf2, ?Hbw2|]. rewrite Hf2, Hsi2, Hbw2, Herr2. done.
Qed.

Lemma append_spec e l w w' err es ls rest :
  holds_lines w es ls rest -> coded e l -> append e w = (w', err) ->
  f w `prefix_of` f w' /\ syncInterval w' = syncInterval w /\
  match err with
  | None => holds_lines w' (es ++ [e]) (ls ++ [l]) [] /\
      (syncInterval w <= 0 -> bw w' = [] /\ f_synced w' = length (f w'))
  | Some _ => file_ok w' /\ (file_log w' = es \/ file_log w' = es ++ [e]) /\ f_synced w' = f_synced w
  end.
Proof.
  intros Hh Hcd E. unfold FileWAL_Append in E. rewrite (cd_encode _ _ Hcd) in E.
  destruct (bw_Write w (l ++ [newline])) as [w1 e1] eqn:Ew. pose proof (bw_Write_spec _ _ _ _ Ew) as (Hsi&Hpre&Hsy&Hc).
  destruct e1 as [e1|].
  { simplify_eq. destruct Hc as [[er Her] [k Hc]]. split_and!; try done.
    - destruct (bw_err w) as [er0|] eqn:Hn; [|by eapply holds_partial].
      unfold bw_Write in Ew. rewrite Hn in Ew. simplify_eq. by eexists _, _, _.
    - destruct (bw_err w) as [er0|] eqn:Hn; [|by eapply holds_partial].
      unfold bw_Write in Ew. rewrite Hn in Ew. simplify_eq. left. by eapply file_log_eq. }
  destruct Hc as [Hc Herr]. assert (bw_err w = None) as Hn.
  { destruct (bw_err w) eqn:Hn; [|done]. unfold bw_Write in Ew. rewrite Hn in Ew. by simplify_eq. }
  pose proof (holds_complete _ _ _ _ _ _ _ Hh Hcd Hn Hc) as Hh1.
  assert (forall w2 er, f w2 = f w1 -> f_synced w2 = f_synced w1 -> syncInterval w2 = syncInterval w1 ->
    holds_lines w2 (es ++ [e]) (ls ++ [l]) [] -> flushAndSyncLocked w2 = (w', er) ->
    f w `prefix_of` f w' /\ syncInterval w' = syncInterval w /\
    match er with
    | None => holds_lines w' (es ++ [e]) (ls ++ [l]) [] /\
        (syncInterval w <= 0 -> bw w' = [] /\ f_synced w' = length (f w'))
    | Some _ => file_ok w' /\ (file_log w' = es \/ file_log w' = es ++ [e]) /\ f_synced w' = f_synced w
    end) as Hsync.
  { intros w2 er Hf2 Hs2 Hi2 Hh2 E2. destruct (flushAndSync_spec _ _ _ _ _ Hh2 E2) as (Hh3&Hp3&Hi3&H3).
    split; [rewrite Hf2 in Hp3; by etrans|]. split; [congruence|]. destruct er as [er|].
    - split; [by eexists _, _, _|]. split; [right; by eapply file_log_eq|congruence].
    - split; [done|]. intros _. by destruct H3 as (?&_&?). }
  destruct (Z.ltb_spec 0 (syncInterval w1)) as [Hpos|Hpos]; [|by eapply Hsync].
  destruct (next_os w1) as [a w2] eqn:Eo. apply next_os_spec in Eo as (Hf2&Hbw2&Herr2&_&Hsi2&_&Hsy2).
  assert (holds_lines w2 (es ++ [e]) (ls ++ [l]) []) as Hh2.
  { destruct Hh1. split; [|done..]. unfold content in *. by rewrite Hf2, Hbw2. }
  destruct (_ <? _); [|by eapply Hsync]. simplify_eq. rewrite Hf2, Hsi2. split; [done|].
  split; [done|]. split; [done|]. lia.
Qed.

Lemma replay_spec w w2 es :
  file_ok w -> replay w = (w2, inl es) -> file_ok w2 /\ es = file_log w /\ file_log w2 = file_log w.
Proof.
  intros (es1&ls1&rest1&Hh1) Er. unfold FileWAL_Replay in Er.
  destruct (bw_Flush w) as [w3 e3] eqn:Ef. apply bw_Flush_spec in Ef as (Hw&_&Hfl&Hst).
  destruct e3 as [e3|]; [done|]. assert (bw_err w = None) as Hn.
  { destruct (bw_err w); [|done]. by destruct (Hst ltac:(by eexists)). }
  rewrite (hl_sound _ _ _ _ Hh1 Hn) in Hh1. pose proof (holds_flush _ _ _ _ _ Hh1 Hw) as Hh3.
  destruct (Hfl eq_refl) as [_ Hf3]. rewrite Hf3, (hl_content _ _ _ _ Hh1), app_nil_r in Er.
  rewrite (replay_lines _ _ (hl_coded _ _ _ _ Hh1)) in Er. simplify_eq.
  rewrite (file_log_eq _ _ _ _ Hh1). split; [by eexists _, _, _|]. split; [done|by eapply file_log_eq].
Qed.

(** C36: the file log refines the log interface: in every state its operations can reach
    from complete lines of entries, an append that succeeds adds its entry at the end of the
    sequence, one that fails adds it or nothing, and a replay that succeeds returns exactly
    the sequence.  The entry must be one the codec represents on a line the scanner reads. *)
Theorem FileWAL_refines e w w' err :
  file_ok w -> file_representable e -> append e w = (w', err) ->
  file_ok w' /\
  match err with
  | None => file_log w' = file_log w ++ [e]
  | Some _ => file_log w' = file_log w \/ file_log w' = file_log w ++ [e]
  end /\
  (forall w2 es, replay w' = (w2, inl es) -> file_ok w2 /\ es = file_log w' /\ file_log w2 = file_log w').
Proof.
  intros (es&ls&rest&Hh) [l Hcd] E. pose proof (append_spec _ _ _ _ _ _ _ _ Hh Hcd E) as (_&_&Ha).
  rewrite (file_log_eq _ _ _ _ Hh). assert (file_ok w') as Hok'.
  { destruct err; [apply Ha|]. destruct Ha. by eexists _, _, _. }
  split; [done|]. split.
  - destruct err; [apply Ha|]. destruct Ha. by eapply file_log_eq.
  - intros w2 es2 Er. by apply replay_spec.
Qed.

(** strict durability: with a sync interval of 0, what a crash leaves after a successful
    append replays to all entries up to and including the new one, and a failed append does
    not change what a crash would leave. *)
Theorem strict_append_durable e w w' err opts now answers :
  file_ok w -> file_representable e -> syncInterval w = 0 -> (f_synced w <= length (f w))%nat ->
  append e w = (w', err) ->
  match err with
  | None => snd (replay (OpenFileWALWithOptions (crash w') opts now answers)) = inl (file_log w ++ [e])
  | Some _ => crash w' = crash w
  end.
Proof.
  intros (es&ls&rest&Hh) [l Hcd] Hsi Hsy E. pose proof (append_spec _ _ _ _ _ _ _ _ Hh Hcd E) as (Hpre&_&Ha).
  rewrite (file_log_eq _ _ _ _ Hh). destruct err as [err|].
  - destruct Ha as (_&_&Hs). unfold crash. rewrite Hs. destruct Hpre as [k ->]. by rewrite take_app_le.
  - destruct Ha as [Hh' Hd]. destruct (Hd ltac:(lia)) as [Hb Hs]. unfold crash. rewrite Hs.
    rewrite (take_ge (f w')) by done. destruct Hh' as [Hc Hf _ _]. unfold content in Hc.
    rewrite Hb, !app_nil_r in Hc. unfold FileWAL_Replay, bw_Flush, OpenFileWALWithOptions. simpl.
    rewrite Hc. by apply replay_lines.
Qed.

(** A torn last line, which a crash during a write can leave, makes the replay fail. *)
Lemma torn_tail_refused ls es rest err opts now answers :
  Forall2 coded es ls -> newline ∉ rest -> zlen rest < maxLineBytes -> dropCR rest <> [] ->
  json_decode (dropCR rest) = inr err ->
  snd (replay (OpenFileWALWithOptions (unlines ls ++ rest) opts now answers)) =
  inr (EWrap ("decode WAL entry: " +:+ Error err) err).
Proof.
  intros Hf Hr Hsz Hcr Hd. unfold FileWAL_Replay, bw_Flush, OpenFileWALWithOptions. simpl.
  rewrite split_lines_unlines by eauto using coded_lines.
  assert (rest <> []) as Hne by (by intros ->). rewrite decide_False by done. clear Hne.
  induction Hf as [|e l es ls [_ Hd' _ Hne Hcr' Hsz'] _ IH]; simpl.
  - destruct (Z.leb_spec maxLineBytes (zlen rest)); [lia|]. by rewrite decide_False, Hd.
  - destruct (Z.leb_spec maxLineBytes (zlen l)); [lia|]. by rewrite Hcr', decide_False, Hd', IH by done.
Qed.

(** A failed fsync leaves the record in the file although the append is reported failed. *)
Lemma fsync_error_keeps_record e l w w' err :
  file_ok w -> coded e l -> bw_err w = None -> syncInterval w = 0 ->
  bw_Write w (l ++ [newline]) = (w', None) -> forall w2, flushAndSyncLocked w' = (w2, Some err) ->
  append e w = (w2, Some err) /\ file_log w2 = file_log w ++ [e].
Proof.
  intros (es&ls&rest&Hh) Hcd Hn Hsi Ew w2 Ef.
  pose proof (bw_Write_spec _ _ _ _ Ew) as (Hsi'&_&_&Hc&_).
  pose proof (holds_complete _ _ _ _ _ _ _ Hh Hcd Hn Hc) as Hh1. split.
  - unfold FileWAL_Append. rewrite (cd_encode _ _ Hcd), Ew, Hsi', Hsi. done.
  - destruct (flushAndSync_spec _ _ _ _ _ Hh1 Ef) as [Hh2 _].
    by rewrite (file_log_eq _ _ _ _ Hh2), (file_log_eq _ _ _ _ Hh).
Qed.

(** The interface, discharged. *)
#[export] Program Instance FileWAL_laws : @WALLaws FileWAL (FileWAL_WAL json_encode json_decode) := {|
  representable := file_representable;
  wal_log := file_log;
  wal_ok := file_ok
|}.
Next Obligation.
  intros e w w' (es&ls&rest&Hh) [l Hcd] E. destruct (append_spec _ _ _ _ _ _ _ _ Hh Hcd E) as (_&_&Hh'&_).
  rewrite (file_log_eq _ _ _ _ Hh), (file_log_eq _ _ _ _ Hh'). split; [by eexists _, _, _|done].
Qed.
Next Obligation.
  intros e w w' err (es&ls&rest&Hh) [l Hcd] E. destruct (append_spec _ _ _ _ _ _ _ _ Hh Hcd E) as (_&_&Hok&Hl&_).
  by rewrite (file_log_eq _ _ _ _ Hh).
Qed.
Next Obligation. intros w w' es Hok Er. by apply replay_spec. Qed.
End codec.

(** ** Instances *)
(** A codec of two entries, and a log whose third flush fails. *)
Definition exEntry (n : Z) : Entry :=
  mkEntry RecordTypeOffset "orders" 0 n "" "workers" [] [] "" ∅ "" "" "" ∅ "" None "" None 0 0 0 "" "" 0 0 0
    "" 0 "" None "" "" "" None [] None.
Definition exEncode (e : Entry) : bytes + error :=
  if Offset e =? 1 then inl [x31] else if Offset e =? 2 then inl [x32] else inr (ENew "unsupported").
Definition exDecode (l : bytes) : Entry + error :=
  if decide (l = [x31]) then inl (exEntry 1) else if decide (l = [x32]) then inl (exEntry 2)
  else inr (ENew "unexpected end of JSON input").
Definition exFile : FileWAL :=
  OpenFileWALWithOptions [] (mkFileWALOptions 0 0) 0 [osDefault; osDefault; mkOS (Some 1%nat) None 0].
Definition exFile1 : FileWAL := fst (FileWAL_Append exEncode (exEntry 1) exFile).
Definition exFile2 : FileWAL := fst (FileWAL_Append exEncode (exEntry 2) exFile1).

Lemma exCoded1 : coded exEncode exDecode (exEntry 1) [x31].
Proof. split; [reflexivity|reflexivity| |discriminate|reflexivity|reflexivity]. set_solver. Qed.
Lemma exCoded2 : coded exEncode exDecode (exEntry 2) [x32].
Proof. split; [reflexivity|reflexivity| |discriminate|reflexivity|reflexivity]. set_solver. Qed.
Lemma exFile_ok : file_ok exEncode exDecode exFile.
Proof. exists [], [], []. split; [reflexivity|constructor|apply not_elem_of_nil|reflexivity]. Qed.
Lemma exFile1_ok : file_ok exEncode exDecode exFile1.
Proof.
  exists [exEntry 1], [[x31]], []. split; [reflexivity| |apply not_elem_of_nil|reflexivity].
  constructor; [apply exCoded1|constructor].
Qed.

Lemma FileWAL_refines_witness :
  file_ok exEncode exDecode exFile1 /\ file_log exDecode exFile1 = [exEntry 1].
Proof.
  destruct (FileWAL_refines exEncode exDecode (exEntry 1) exFile exFile1 None exFile_ok
    ltac:(eexists; apply exCoded1) eq_refl) as (Hok&Hl&_).
  split; [exact Hok|exact Hl].
Defined.

(** The second append tears: a crash still leaves the first entry. *)
Lemma strict_append_durable_witness :
  snd (FileWAL_Replay exDecode (OpenFileWALWithOptions (crash exFile1) (mkFileWALOptions 0 0) 0 [])) =
    inl [exEntry 1] /\
  snd (FileWAL_Append exEncode (exEntry 2) exFile1) <> None /\ crash exFile2 = crash exFile1.
Proof.
  split; [|split; [vm_compute; discriminate|]].
  - refine (strict_append_durable exEncode exDecode (exEntry 1) exFile exFile1 None (mkFileWALOptions 0 0) 0 []
      exFile_ok _ eq_refl _ eq_refl); [eexists; apply exCoded1|vm_compute; lia].
  - refine (strict_append_durable exEncode exDecode (exEntry 2) exFile1 exFile2 (Some _) (mkFileWALOptions 0 0) 0 []
      exFile1_ok _ eq_refl _ eq_refl); [eexists; apply exCoded2|vm_compute; lia].
Defined.

(** A torn second record: one byte of it is in the file. *)
Lemma torn_tail_example :
  snd (FileWAL_Replay exDecode (OpenFileWALWithOptions ([x31; newline] ++ [x33]) (mkFileWALOptions 0 0) 0 [])) =
  inr (EWrap "decode WAL entry: unexpected end of JSON input" (ENew "unexpected end of JSON input")).
Proof. reflexivity. Qed.

(** ** The offset flusher loses no offset (properties of Consume.v: flushPendingOffsets) *)
(** ** Merging what failed with what became pending meanwhile *)
Definition maxOption (x y : option Z) : option Z :=
  match x, y with
  | Some a, Some c => Some (Z.max a c)
  | Some a, None => Some a
  | None, y => y
  end.

Lemma lookup_queuePending k o m k' :
  queuePending k o m !! k' = if decide (k = k') then maxOption (Some o) (m !! k) else m !! k'.
Proof.
  unfold queuePending, maxOption. destruct (m !! k) as [c|] eqn:E.
  - destruct (Z.ltb_spec c o); case_decide; subst; simplify_map_eq; rewrite ?E; f_equal; lia || done.
  - case_decide; subst; by simplify_map_eq.
Qed.

Lemma mergePending_lookup failed cur k :
  mergePending failed cur !! k = maxOption (failed !! k) (cur !! k).
Proof.
  unfold mergePending. apply (map_fold_weak_ind (fun r m => r !! k = maxOption (m !! k) (cur !! k))).
  - by rewrite lookup_empty.
  - intros j x m r Hj Hr. rewrite lookup_queuePending. case_decide; subst.
    + rewrite Hr, Hj, lookup_insert_eq. done.
    + by rewrite lookup_insert_ne.
Qed.

Section flush.
Context {W : Type} `{WALLaws W} `{MapOrder}.
Implicit Types b : @InMemoryBroker W.

(** putting back what could not be written keeps, for every key, the larger of the
    failed offset and the one that became pending while the lock was released. *)
Theorem flushRestore_keeps_max failed b k :
  pendingOffsets (flushRestore failed b) !! k = maxOption (failed !! k) (pendingOffsets b !! k).
Proof. apply mergePending_lookup. Qed.

Context (all_representable : forall k o, representable (offsetEntry k o)).

(** The entries the append loop adds: those of the keys it went through. *)
Lemma flushKeys_spec pending keys b b' failed err w :
  wal b = Some w -> wal_ok w -> flushKeys pending keys b = (b', failed, err) ->
  pendingOffsets b' = pendingOffsets b /\
  exists w' es, wal b' = Some w' /\ wal_ok w' /\ wal_log w' = wal_log w ++ es /\
    (forall e, e ∈ es -> exists k, k ∈ keys /\ e = offsetEntry k (default 0 (pending !! k))) /\
    (forall k, k ∈ keys -> offsetEntry k (default 0 (pending !! k)) ∈ es \/
                           failed !! k = Some (default 0 (pending !! k))) /\
    (forall k o, failed !! k = Some o -> k ∈ keys /\ o = default 0 (pending !! k)) /\
    (err = None -> failed = ∅).
Proof using all_representable.
  revert b w. induction keys as [|k keys IH]; intros b w Hw Hok E; cbn [flushKeys] in E.
  { simplify_eq. split; [done|]. exists w, []. rewrite app_nil_r.
    split_and!; try done; intros ? ?; try set_solver. }
  unfold appendWALEntry in E. rewrite Hw in E.
  destruct (Append _ w) as [w1 [err1|]] eqn:Ea.
  - destruct (Append_fail _ _ _ _ Hok (all_representable _ _) Ea) as [Hok1 Hlog]. injection E as <- <- <-.
    assert (forall k', k' ∈ k :: keys ->
      (list_to_map ((fun k => (k, default 0 (pending !! k))) <$> k :: keys) : gmap _ Z) !! k' =
      Some (default 0 (pending !! k'))) as Hin.
    { intros k' Hk'. induction (k :: keys) as [|x l IHl]; [by apply elem_of_nil in Hk'|]. simpl.
      destruct (decide (x = k')) as [->|]; [by rewrite lookup_insert_eq|]. rewrite lookup_insert_ne by done.
      apply IHl. set_solver. }
    assert (forall k' o, (list_to_map ((fun k => (k, default 0 (pending !! k))) <$> k :: keys) : gmap _ Z) !! k' =
      Some o -> k' ∈ k :: keys) as Hout.
    { intros k' o Hk'. apply elem_of_list_to_map_2, list_elem_of_fmap in Hk' as (y&[= -> _]&?). done. }
    split; [done|]. destruct Hlog as [Hlog|Hlog].
    + exists w1, []. rewrite app_nil_r. split_and!; try done; [set_solver| |].
      * intros k' Hk'. right. by apply Hin.
      * intros k' o Hk'. pose proof (Hout _ _ Hk') as Hk2. split; [done|]. rewrite Hin in Hk' by done. by simplify_eq.
    + exists w1, [offsetEntry k (default 0 (pending !! k))]. split_and!; try done.
      * intros e ->%list_elem_of_singleton. exists k. set_solver.
      * intros k' Hk'. right. by apply Hin.
      * intros k' o Hk'. pose proof (Hout _ _ Hk') as Hk2. split; [done|]. rewrite Hin in Hk' by done. by simplify_eq.
  - destruct (Append_ok _ _ _ Hok (all_representable _ _) Ea) as [Hok1 Hlog].
    destruct (IH (set_wal (Some w1) b) w1 eq_refl Hok1 E) as (Hp&w'&es&Hw'&Hok'&Hlog'&He&Hk&Hf&Hn).
    split; [done|]. exists w', (offsetEntry k (default 0 (pending !! k)) :: es). split_and!; try done.
    + by rewrite Hlog', Hlog, <- app_assoc.
    + intros e [->|Hin]%elem_of_cons; [exists k; set_solver|]. destruct (He e Hin) as (k'&?&->). exists k'. set_solver.
    + intros k' [->|Hin]%elem_of_cons; [left; set_solver|]. destruct (Hk k' Hin); [left; set_solver|by right].
    + intros k' o Hk'. destruct (Hf k' o Hk'). set_solver.
Qed.

(** flushing the pending offsets loses nothing: the log grows by records of pending
    offsets only; every pending offset is in the log or still pending with the same value;
    and when the flush reports success all are in the log and none is pending. *)
Theorem flushPendingOffsets_effect b b' err w :
  wal b = Some w -> wal_ok w -> flushPendingOffsets b = (b', err) ->
  exists w' es, wal b' = Some w' /\ wal_ok w' /\ wal_log w' = wal_log w ++ es /\
    (forall e, e ∈ es -> exists k o, pendingOffsets b !! k = Some o /\ e = offsetEntry k o) /\
    (forall k o, pendingOffsets b !! k = Some o ->
       offsetEntry k o ∈ es \/ pendingOffsets b' !! k = Some o) /\
    (err = None -> pendingOffsets b' = ∅ /\
       forall k o, pendingOffsets b !! k = Some o -> offsetEntry k o ∈ es).
Proof using all_representable.
  intros Hw Hok E. unfold flushPendingOffsets in E. rewrite bool_decide_eq_false_2 in E by by rewrite Hw.
  case_decide as Hp.
  { simplify_eq. exists w, []. rewrite app_nil_r, Hp. split_and!; try done; intros; try set_solver. }
  unfold flushTake in E. cbv iota beta in E.
  destruct (flushWrite (pendingOffsets b) (set_pendingOffsets ∅ b)) as [[b1 failed] err1] eqn:E1.
  unfold flushWrite in E1. set (keys := merge_sort _ _) in E1.
  assert (forall k, k ∈ keys <-> is_Some (pendingOffsets b !! k)) as Hkeys.
  { intros k. unfold keys. rewrite merge_sort_Permutation, order_perm, elem_of_elements. apply elem_of_dom. }
  destruct (flushKeys_spec _ _ (set_pendingOffsets ∅ b) _ _ _ w Hw Hok E1) as (Hpe&w'&es&Hw'&Hok'&Hlog&He&Hk&Hf&Hn).
  simpl in Hpe. exists w', es.
  assert (forall k, pendingOffsets b' !! k = failed !! k) as Hb'.
  { intros k. destruct err1 as [err1|]; injection E as <- <-.
    - unfold flushRestore. simpl. rewrite mergePending_lookup, Hpe, lookup_empty. by destruct (failed !! k).
    - by rewrite Hpe, (Hn eq_refl). }
  assert (wal b' = wal b1) as Hwb by (destruct err1; injection E as <- <-; done).
  split_and!; [by rewrite Hwb|done|done| | |].
  - intros e Hin. destruct (He e Hin) as (k&Hk1&->). apply Hkeys in Hk1 as [o Ho]. exists k, o.
    by rewrite Ho.
  - intros k o Ho. rewrite Hb'. destruct (Hk k) as [Hin|Hin]; [by apply Hkeys; eexists| |]; rewrite Ho in Hin; auto.
  - intros ->. assert (failed = ∅) as -> by (apply Hn; destruct err1; by simplify_eq).
    split; [apply map_eq; intros k; by rewrite Hb'|]. intros k o Ho.
    destruct (Hk k) as [Hin|Hin]; [by apply Hkeys; eexists|by rewrite Ho in Hin|by rewrite lookup_empty in Hin].
Qed.
End flush.

(** *** Instances *)
Lemma flushPendingOffsets_effect_witness :
  exists w' es, wal ooFlushed = Some w' /\ pendingOffsets ooFlushed = ∅ /\
    offsetEntry (mkFlushKey "orders" "workers" 0) 1 ∈ es /\
    mw_entries w' = mw_entries (default (mkMemWAL [] []) (wal ooAcked)) ++ es.
Proof.
  destruct (flushPendingOffsets_effect (fun _ _ => MemWAL_representable _) ooAcked ooFlushed None (default (mkMemWAL [] []) (wal ooAcked)))
    as (w'&es&Hw&_&Hlog&_&_&Hn).
  - vm_compute. reflexivity.
  - exact I.
  - vm_compute. reflexivity.
  - exists w', es. destruct (Hn eq_refl) as [Hp Hin]. split; [exact Hw|]. split; [exact Hp|].
    split; [apply Hin; vm_compute; reflexivity|exact Hlog].
Defined.
