(* ===== verification/DurableSpec.v ===== *)
(** * Messages survive a restart

    Every step of the broker keeps its messages recorded in the write-ahead log ([records],
    StepInv.v), and recovery rebuilds the message logs from the records. *)
From stdpp Require Import relations.
From S2P Require Import Prelude Storage Idempotency BrokerTypes BrokerState Dispatch Produce Redelivery Consume BrokerInv DispatchInv ProduceInv.
From S2P Require Import WalReplay RedeliveryInv ConsumeInv BrokerSteps IdemSpec StepInv AckSpec RedeliverySpec FileWalSpec.
From Stdlib Require Import Init.Byte.

Section steps.
Context {W : Type} `{WALLaws W}.
Implicit Types b : @InMemoryBroker W.

(** A broker whose watched log has not been called yet and holds just its messages: a fresh one on an
    empty log, or one that was recovered. *)
Definition begins (b0 : @InMemoryBroker (Audited W)) : Prop :=
  exists w0, wal b0 = Some (audit w0) /\ wal_ok w0 /\
    forall t p, messageFromEntry <$> msgsOf (wal_log w0) t p = normMessage <$> logOf (topics b0) t p.

Lemma begins_new w opts :
  Forall is_option opts -> wal_ok w -> wal_log w = [] -> begins (NewInMemoryBrokerWithWAL (Some (audit w)) opts).
Proof.
  intros Ho Hok Hlog. exists w. pose proof (fresh_new (Some (audit w)) opts Ho) as (Ht&_). split_and!; [|done|].
  - unfold NewInMemoryBrokerWithWAL, applyBrokerOptions.
    assert (forall x : @InMemoryBroker (Audited W), wal x = Some (audit w) ->
      wal (foldl (fun (x : @InMemoryBroker (Audited W)) opt => opt x) x opts) = Some (audit w)) as Hf; [|by apply Hf].
    clear Ht. induction Ho as [|o os Ho _ IH]; intros x Hx; simpl; [done|]. apply IH.
    destruct Ho; unfold WithAckTimeout, WithRedeliverTick; repeat case_match; exact Hx.
  - intros t p. by rewrite Ht, Hlog.
Qed.
Lemma records_steps (b0 b : @InMemoryBroker (Audited W)) a :
  rtc bstep b0 b -> begins b0 -> wal b = Some a -> Forall answered (au_calls a) -> recorded (au_log a) (au_calls a) (topics b).
Proof.
  intros Hs (w0&Hw0&Hok&Hl) Hw Ha. destruct (inv_steps _ closed_records _ _ Hs) as (a'&Hw'&Hr).
  - exists (audit w0). split; [done|]. intros _. split; [done|]. split; [intros; by rewrite Hl|done].
  - rewrite Hw in Hw'. injection Hw' as <-. by apply Hr.
Qed.

(** ** Recovery *)
Lemma replayMessage_log now e b :
  0 <= Partition e -> Offset e = zlen (logOf (topics b) (Topic e) (Partition e)) ->
  exists b', replayMessage now e b = inl b' /\ wal b' = wal b /\
    forall t p, logOf (topics b') t p =
      if decide (Topic e = t /\ Partition e = p) then logOf (topics b) t p ++ [messageFromEntry e]
      else logOf (topics b) t p.
Proof.
  intros Hp Ho. unfold replayMessage. set (ts0 := default _ (topics b !! Topic e)).
  set (ts := growTopic (Partition e + 1) ts0).
  assert (forall q, default [] (zlookup (partitions ts) q) = logOf (topics b) (Topic e) q) as Hts.
  { intros q. unfold ts, growTopic, logOf, ts0. simpl. rewrite zlookup_growTo.
    destruct (topics b !! Topic e) as [x|]; simpl.
    - destruct (zlookup (partitions x) q); [done|]. by case_decide.
    - rewrite zlookup_nil. by case_decide. }
  assert (0 <= Partition e < zlen (partitions ts)) as Hr.
  { unfold ts, growTopic. simpl. rewrite zlen_growTo. lia. }
  destruct (zlookup_is_Some _ _ Hr) as [log Hlog]. rewrite Hlog.
  pose proof (Hts (Partition e)) as Hl. rewrite Hlog in Hl. simpl in Hl. subst log.
  rewrite Ho, Z.eqb_refl. simpl.
  set (b1 := match idemKeyOf _ with Some _ => _ | None => _ end).
  assert (topics b1 = topics b /\ wal b1 = wal b) as [Ht1 Hw1].
  { unfold b1. by destruct (idemKeyOf _) as [[a k]|]. }
  eexists. split; [done|]. split; [by simpl|]. intros t p. simpl. rewrite Ht1.
  destruct (decide (Topic e = t)) as [<-|Hne].
  - unfold logOf at 1. rewrite lookup_insert_eq. simpl. rewrite zlookup_zinsert by lia. change (growTo (Partition e + 1) (partitions ts0)) with (partitions ts). rewrite Hlog. simpl default.
    destruct (decide (Partition e = p)) as [<-|].
    + by rewrite !decide_True by naive_solver.
    + rewrite !decide_False by naive_solver. apply Hts.
  - unfold logOf at 1. rewrite lookup_insert_ne, decide_False by naive_solver. done.
Qed.

Lemma replayOther_log now e b :
  Type_ e <> RecordTypeMessage ->
  exists b', replayEntry now e b = inl b' /\ wal b' = wal b /\
    forall t p, logOf (topics b') t p = logOf (topics b) t p.
Proof.
  intros Hty. unfold replayEntry. destruct (Type_ e); try done; eexists; (split; [done|]).
  - unfold replayOffset. repeat case_match; done.
  - unfold replayTopic. case_decide; [done|]. destruct (topics b !! Topic e) as [ts|] eqn:Ht.
    + split; [done|]. intros t p. simpl.
      pose proof (logOf_grow (topics b) (Topic e) (Partition e)
        (match normalizeTopicConfig (mkTopicConfig (TopicMode_ e)) with inl c => c | inr _ => Config ts end)
        (growTo (Partition e) (partitionByteSums ts)) t p) as Hg. by rewrite Ht in Hg.
    + unfold createTopicLockedWithConfig. rewrite Ht. do 2 (case_match; [done|]).
      destruct (normalizeTopicConfig _); [|done]. split; [done|]. intros. simpl. by apply logOf_newTopic.
  - unfold replayRetryState. by case_decide.
  - unfold replayConsumeIdem. repeat case_match; done.
  - done.
Qed.

(** The records of each partition continue the log in memory. *)
Definition continues (es : list Entry) b : Prop :=
  forall t p i e, msgsOf es t p !! i = Some e ->
    0 <= p /\ Offset e = zlen (logOf (topics b) t p) + Z.of_nat i.

Lemma replayEntries_log now es b :
  continues es b ->
  exists b', replayEntries now es b = inl b' /\ wal b' = wal b /\
    forall t p, logOf (topics b') t p = logOf (topics b) t p ++ (messageFromEntry <$> msgsOf es t p).
Proof.
  revert b. induction es as [|e es IH]; intros b Hc; cbn [replayEntries].
  { exists b. split_and!; [done..|]. intros. by rewrite app_nil_r. }
  assert (forall t p, msgsOf (e :: es) t p = if decide (isMessageOf t p e) then e :: msgsOf es t p else msgsOf es t p)
    as Hcons by (intros; apply filter_cons).
  destruct (decide (Type_ e = RecordTypeMessage)) as [Hty|Hty].
  - assert (0 <= Partition e /\ Offset e = zlen (logOf (topics b) (Topic e) (Partition e)) + 0) as [Hp Ho].
    { apply (Hc (Topic e) (Partition e) 0%nat e). rewrite Hcons, decide_True by done. done. }
    destruct (replayMessage_log now e b Hp ltac:(lia)) as (b1&E1&Hw1&Hl1).
    unfold replayEntry. rewrite Hty, E1. destruct (IH b1) as (b2&E2&Hw2&Hl2).
    { intros t p i e' He'. rewrite Hl1. destruct (decide (Topic e = t /\ Partition e = p)) as [[<- <-]|Hd].
      - destruct (Hc (Topic e) (Partition e) (S i) e') as [? ?].
        { by rewrite Hcons, decide_True by done. }
        rewrite zlen_app. change (zlen [messageFromEntry e]) with 1. split; [done|lia].
      - apply Hc. rewrite Hcons, decide_False; [done|]. intros (_&?&?). by apply Hd. }
    exists b2. split_and!; [done|congruence|]. intros t p. rewrite Hl2, Hl1, Hcons.
    destruct (decide (Topic e = t /\ Partition e = p)) as [Hd|Hd].
    + rewrite decide_True by done. by rewrite <- app_assoc.
    + rewrite decide_False; [done|]. intros (_&?&?). by apply Hd.
  - assert (forall t p, msgsOf (e :: es) t p = msgsOf es t p) as Hs.
    { intros. rewrite Hcons, decide_False; [done|]. by intros []. }
    destruct (replayOther_log now e b Hty) as (b1&E1&Hw1&Hl1). rewrite E1.
    destruct (IH b1) as (b2&E2&Hw2&Hl2).
    { intros t p i e' He'. rewrite Hl1. apply Hc. by rewrite Hs. }
    exists b2. split_and!; [done|congruence|]. intros. by rewrite Hl2, Hl1, Hs.
Qed.

Lemma normMessage_idem m : normMessage (normMessage m) = normMessage m.
Proof.
  unfold normMessage. simpl. f_equal.
  - destruct (m_Envelope m) as [[r s ps l tgt po k dl rp ten d]|]; simpl; [|done].
    assert (normPolicy (normPolicy rp) = normPolicy rp) as Hp
      by (by destruct rp as [[a b c]|]; [destruct a, b, c|]).
    assert (normDLQ (normDLQ d) = normDLQ d) as Hd.
    { destruct d as [d|]; simpl; [|done]. case_decide as Hx; simpl; [done|]. by rewrite decide_False. }
    case_decide as Hx; simpl; [done|]. rewrite Hp, Hd. by rewrite decide_False.
  - destruct (m_Routing m); simpl; [|done]. case_decide as Hx; simpl; [done|]. by rewrite decide_False.
Qed.

(** Whatever a recovery that succeeds was given, its logs are the message records. *)
Lemma replayEntries_inl now es b b' :
  replayEntries now es b = inl b' ->
  forall t p, logOf (topics b') t p = logOf (topics b) t p ++ (messageFromEntry <$> msgsOf es t p).
Proof.
  revert b. induction es as [|e es IH]; intros b E t p; cbn [replayEntries] in E.
  { simplify_eq. by rewrite app_nil_r. }
  destruct (replayEntry now e b) as [b1|] eqn:E1; [|done]. rewrite (IH _ E t p).
  assert (msgsOf (e :: es) t p = if decide (isMessageOf t p e) then e :: msgsOf es t p else msgsOf es t p) as ->
    by (apply filter_cons).
  destruct (decide (Type_ e = RecordTypeMessage)) as [Hty|Hty].
  - unfold replayEntry in E1. rewrite Hty in E1.
    assert (0 <= Partition e /\ Offset e = zlen (logOf (topics b) (Topic e) (Partition e))) as [Hp Ho].
    { pose proof E1 as E2. unfold replayMessage in E2. destruct (zlookup _ (Partition e)) as [log|] eqn:Hz; [|done].
      assert (0 <= Partition e) as Hp by (apply zlookup_Some_lt in Hz; lia). split; [done|].
      destruct (Offset e =? zlen log) eqn:Ho; [|done]. apply Z.eqb_eq in Ho. rewrite Ho. f_equal.
      unfold growTopic, logOf in *. simpl in Hz. rewrite zlookup_growTo in Hz.
      destruct (topics b !! Topic e) as [x|]; simpl in *.
      - destruct (zlookup (partitions x) (Partition e)); [by simplify_eq|]. by case_decide; simplify_eq.
      - rewrite zlookup_nil in Hz. by case_decide; simplify_eq. }
    destruct (replayMessage_log now e b Hp Ho) as (b2&E2&_&Hl). rewrite E1 in E2. injection E2 as <-. rewrite Hl.
    destruct (decide (Topic e = t /\ Partition e = p)) as [Hd|Hd].
    + rewrite decide_True by (destruct Hd; by split_and!). by rewrite <- app_assoc.
    + rewrite decide_False; [done|]. intros (_&?&?). by apply Hd.
  - destruct (replayOther_log now e b Hty) as (b2&E2&_&Hl). rewrite E1 in E2. injection E2 as <-.
    rewrite decide_False by (by intros (?&_)). by rewrite Hl.
Qed.

Lemma wal_purgeAcked `{MapOrder} b : wal (purgeAcked b) = wal b.
Proof.
  assert (forall {A} (f : InMemoryBroker -> A -> @InMemoryBroker W) l b,
    (forall b x, wal (f b x) = wal b) -> wal (foldl f b l) = wal b) as Hf.
  { intros A f l b2 Hf. revert b2. induction l as [|x l IH]; intros b2; simpl; [done|]. by rewrite IH, Hf. }
  unfold purgeAcked. by do 3 (apply Hf; intros).
Qed.

(** The records of the messages of a well-formed broker, in order, are read back as they were. *)
Lemma recover_messages (tps : gmap string TopicState) w now opts es `{MapOrder} :
  (forall t p i m, zlookup (logOf tps t p) i = Some m -> m_Offset m = i /\ 0 <= p) ->
  wal_ok w -> (forall t p, messageFromEntry <$> msgsOf (wal_log w) t p = normMessage <$> logOf tps t p) ->
  snd (Replay w) = inl es -> Forall is_option opts ->
  exists br, NewInMemoryBrokerFromWAL now (Some w) opts = inl br /\ logged br /\
    forall t p, logOf (topics br) t p = normMessage <$> logOf tps t p.
Proof.
  intros Hoff Hok Hl Hes Ho. unfold NewInMemoryBrokerFromWAL. destruct (Replay w) as [w2 r] eqn:Er. simpl in Hes. subst r.
  destruct (Replay_ok _ _ _ Hok Er) as (Hok2&->&Hlog2). pose proof (fresh_new (Some w) opts Ho) as (Ht&_).
  destruct (replayEntries_log now (wal_log w) (set_wal (Some w2) (NewInMemoryBrokerWithWAL (Some w) opts)))
    as (b1&E1&Hw1&Hlg).
  { intros t p i e He. simpl. rewrite Ht. change (zlen (logOf ∅ t p)) with 0.
    assert ((normMessage <$> logOf tps t p) !! i = Some (messageFromEntry e)) as Hm.
    { rewrite <- Hl, list_lookup_fmap, He. done. }
    rewrite list_lookup_fmap in Hm. destruct (logOf tps t p !! i) as [m|] eqn:Em; [|done].
    injection Hm as Hoffm Hpart _ _ _ _.
    destruct (Hoff t p (Z.of_nat i) m) as [Hmo Hp]; [unfold zlookup; rewrite decide_True by lia; by rewrite Nat2Z.id|].
    split; [done|]. rewrite <- Hoffm, Hmo. lia. }
  rewrite E1. exists (purgeAcked b1). pose proof (quiet_purgeAcked b1) as Q.
  assert (forall t p, logOf (topics (purgeAcked b1)) t p = normMessage <$> logOf tps t p) as Hfin.
  { intros. rewrite (q_topics _ _ Q), Hlg. simpl. rewrite Ht. apply Hl. }
  split_and!; [done| |done]. exists w2. split_and!; [by rewrite wal_purgeAcked, Hw1|done|].
  intros t p. rewrite Hlog2, Hfin, Hl, <- list_fmap_compose. apply list_fmap_ext. intros ? m _. simpl. symmetry. apply normMessage_idem.
Qed.


Lemma logOf_positions b : wf b ->
  forall t p i m, zlookup (logOf (topics b) t p) i = Some m -> m_Offset m = i /\ 0 <= p.
Proof.
  intros Hwf t p i m Hz. split; [by apply (logOf_offsets _ _ _ _ _ Hwf Hz)|].
  unfold logOf in Hz. destruct (topics b !! t) as [ts|]; simpl in Hz; [|by rewrite zlookup_nil in Hz].
  destruct (zlookup (partitions ts) p) as [l|] eqn:El; [|simpl in Hz; by rewrite zlookup_nil in Hz].
  apply zlookup_Some_lt in El. lia.
Qed.
End steps.

Section restart.
Context {W : Type} `{WALLaws W}.

(** C3: messages survive a restart.  A broker starts with a log that holds its messages (a new broker on
    an empty log does) and runs any sequence of steps, in which appends may fail at any point; each
    record the log took it could represent, and what is in the log can be read.  Then every message
    the broker has accepted is in the log, and a broker that is recovered from it has them all, in
    the same order; and unless a message that was refused has left its record in the log, recovery
    succeeds and gives exactly the same messages in every partition, up to what a record cannot
    represent, and a broker whose log again holds just its messages. *)
Theorem messages_survive_restart (b0 b : @InMemoryBroker (Audited W)) a now opts es :
  wf b0 -> begins b0 -> rtc bstep b0 b -> wal b = Some a -> Forall answered (au_calls a) ->
  snd (Replay (au_log a)) = inl es -> forall ord : MapOrder, Forall is_option opts ->
  (forall br, NewInMemoryBrokerFromWAL now (Some (au_log a)) opts = inl br ->
     forall t p, normMessage <$> logOf (topics b) t p `sublist_of` logOf (topics br) t p) /\
  (Forall clean (au_calls a) ->
     exists br, NewInMemoryBrokerFromWAL now (Some (au_log a)) opts = inl br /\ logged br /\
       forall t p, logOf (topics br) t p = normMessage <$> logOf (topics b) t p).
Proof.
  intros Hwf0 Hb0 Hs Hw Ha Hes ord Ho. destruct (records_steps _ _ _ Hs Hb0 Hw Ha) as (Hok&Hsub&Heq).
  assert (wf b) as Hwf.
  { clear -Hwf0 Hs. induction Hs as [|x y z Hxy _ IH]; [done|]. apply IH. by apply (bstep_good _ _ Hxy). }
  split.
  - intros br Er t p. unfold NewInMemoryBrokerFromWAL in Er.
    destruct (Replay (au_log a)) as [w2 r] eqn:Erp. simpl in Hes. subst r.
    destruct (Replay_ok _ _ _ Hok Erp) as (_&->&_). destruct (replayEntries now _ _) as [b1|] eqn:E1; [|done].
    injection Er as <-. rewrite (q_topics _ _ (quiet_purgeAcked b1)), (replayEntries_inl _ _ _ _ E1). simpl.
    pose proof (fresh_new (Some (au_log a)) opts Ho) as (Ht&_). rewrite Ht. apply Hsub.
  - intros Hc. eapply recover_messages; [by apply logOf_positions|done|by apply Heq|done|done].
Qed.
End restart.

(** ** Instances *)
Lemma steps_ex0_ex5 : rtc bstep ex0 ex5.
Proof.
  eapply rtc_l; [apply (step_create "orders" 2 (mkTopicConfig ""))|].
  eapply rtc_l; [apply (step_consume_lease T0 "orders" "workers" "alice" (1 * Second))|].
  do 3 (eapply rtc_l; [apply step_produce|]). apply rtc_refl.
Qed.

(** A codec that writes an entry as its place in a table, and cannot encode the others. *)
#[local] Instance Entry_eq_dec : EqDecision Entry.
Proof. solve_decision. Defined.
Section table.
Context (tbl : list Entry).
Definition tableEncode (e : Entry) : bytes + error :=
  match list_find (fun x => e = x) tbl with
  | Some (i, _) => inl [default x30 (Byte.of_nat (48 + i))]
  | None => inr (ENew "json: unsupported value")
  end.
Definition tableDecode (l : bytes) : Entry + error :=
  match l with
  | [c] => match tbl !! (Byte.to_nat c - 48)%nat with Some e => inl e | None => inr (ENew "unexpected end of JSON input") end
  | _ => inr (ENew "unexpected end of JSON input")
  end.
Lemma table_coded e l : (length tbl <= 10)%nat -> tableEncode e = inl l -> coded tableEncode tableDecode e l.
Proof.
  intros Hl E. pose proof E as E0. unfold tableEncode in E0. destruct (list_find _ tbl) as [[i x]|] eqn:Hf; [|done].
  apply list_find_Some in Hf as (Hi&<-&_). injection E0 as <-. pose proof (lookup_lt_Some _ _ _ Hi) as Hlt.
  assert (i < 10)%nat as Hi10 by lia. clear Hlt.
  split; [done|unfold tableDecode| | | |];
    do 10 (destruct i as [|i]; [cbn; rewrite ?Hi; (done || discriminate || (apply not_elem_of_cons; split; [discriminate|apply not_elem_of_nil]))|]); lia.
Qed.
End table.

(** The run of [ex5] over a file log with that codec, and one more message, which the codec refuses. *)
Definition exTable : list Entry := mw_entries (default (mkMemWAL [] []) (wal ex5)).
Definition exTableWAL : WAL FileWAL := FileWAL_WAL (tableEncode exTable) (tableDecode exTable).
#[local] Existing Instance exTableWAL.
#[local] Instance exTableLaws : WALLaws FileWAL := FileWAL_laws (tableEncode exTable) (tableDecode exTable).

Definition exFileLog : FileWAL := OpenFileWALWithOptions [] (mkFileWALOptions 0 64) 0 [].
Definition fileBroker := @InMemoryBroker (Audited FileWAL).
Definition fb0 : fileBroker := NewInMemoryBrokerWithWAL (Some (audit exFileLog)) [].
Definition fb1 : fileBroker := fst (CreateTopic "orders" 2 fb0).
Definition fb2 : fileBroker := fst (ConsumeWithLease T0 "orders" "workers" "alice" (1 * Second) fb1).
Definition fb3 : fileBroker := fst (produceLocked T0 "orders" plainMsg fb2).
Definition fb4 : fileBroker := fst (produceLocked T0 "orders" idemMsg fb3).
Definition fb5 : fileBroker := fst (produceLocked T0 "orders" retryMsg fb4).
Definition fb6 : fileBroker := fst (produceLocked T0 "orders" plainMsg fb5).

Lemma steps_fb0_fb6 : rtc bstep fb0 fb6.
Proof.
  eapply rtc_l; [apply (step_create "orders" 2 (mkTopicConfig ""))|].
  eapply rtc_l; [apply (step_consume_lease T0 "orders" "workers" "alice" (1 * Second))|].
  do 4 (eapply rtc_l; [apply step_produce|]). apply rtc_refl.
Qed.
Definition exFileEnd : Audited FileWAL := default (audit exFileLog) (wal fb6).

#[local] Instance OSAnswer_eq_dec : EqDecision OSAnswer.
Proof. solve_decision. Defined.
#[local] Instance FileWAL_eq_dec : EqDecision FileWAL.
Proof. solve_decision. Defined.
(** Taken as encoded, or refused without a trace. *)
Definition tableCall (c : Call FileWAL) : bool :=
  match tableEncode exTable (c_entry c) with
  | inl _ => bool_decide (c_err c = None)
  | inr _ => bool_decide (c_err c <> None) && bool_decide (c_after c = c_before c)
  end.
Lemma exFile_answered : Forall answered (au_calls exFileEnd) /\ Forall clean (au_calls exFileEnd).
Proof.
  assert (forallb tableCall (au_calls exFileEnd) = true) as Hall by (vm_compute; reflexivity).
  rewrite forallb_forall in Hall. apply Forall_and, Forall_forall. intros c Hin. apply list_elem_of_In, Hall in Hin.
  unfold tableCall in Hin. destruct (tableEncode exTable (c_entry c)) as [l|] eqn:E.
  - apply bool_decide_eq_true in Hin. split; [left; exists l; apply table_coded; [vm_compute; lia|done]|].
    intros He. rewrite Hin in He. by destruct He.
  - apply andb_true_iff in Hin as [He Ha]. apply bool_decide_eq_true in He, Ha. split; [right; by split; [apply not_eq_None_Some|]|].
    intros _ _. by rewrite Ha.
Qed.

Lemma messages_survive_restart_witness :
  snd (produceLocked T0 "orders" plainMsg fb5) <> None /\
  exists br, NewInMemoryBrokerFromWAL (T0 + Minute) (Some (au_log exFileEnd)) [] = inl br /\ logged br /\
    (forall t p, logOf (topics br) t p = normMessage <$> logOf (topics fb6) t p) /\
    zlen (logOf (topics br) "orders" 0) = 2.
Proof.
  split; [vm_compute; discriminate|].
  destruct (messages_survive_restart fb0 fb6 exFileEnd (T0 + Minute) [] exTable) with (ord := elements_order)
    as [_ Hexact].
  - apply fresh_wf, fresh_new. constructor.
  - apply begins_new; [by apply Forall_nil| |reflexivity].
    exists [], [], []. split; [reflexivity|constructor|apply not_elem_of_nil|reflexivity].
  - apply steps_fb0_fb6.
  - vm_compute. reflexivity.
  - apply exFile_answered.
  - vm_compute. reflexivity.
  - constructor.
  - destruct (Hexact (proj2 exFile_answered)) as (br&E&Hl&Hm). exists br. split; [exact E|]. split; [exact Hl|].
    split; [exact Hm|]. rewrite Hm. vm_compute. reflexivity.
Defined.

(** ** What the hypotheses and the records leave out *)
(** A log that keeps the records of appends it reports as failed, as the file log does when
    only the fsync fails (FileWalSpec.v: [fsync_error_keeps_record]). *)
Record DirtyWAL : Type := mkDirty { dw_entries : list Entry; dw_script : list (option error) }.
#[local] Instance DirtyWAL_WAL : WAL DirtyWAL := {|
  Append e w :=
    match dw_script w with
    | r :: sc => (mkDirty (dw_entries w ++ [e]) sc, r)
    | [] => (mkDirty (dw_entries w ++ [e]) [], None)
    end;
  Replay w := (w, inl (dw_entries w))
|}.
Definition dirty0 : @InMemoryBroker DirtyWAL :=
  fst (CreateTopic "orders" 1
    (NewInMemoryBrokerWithWAL (Some (mkDirty [] [None; Some (ENew "fsync WAL: input/output error")])) [])).
Definition dirtyMsg : Message := exMsg None [x61] [x01].
Definition dirty1 := produceLocked T0 "orders" dirtyMsg dirty0.
Definition dirty2 := produceLocked T0 "orders" dirtyMsg (fst dirty1).

(** The first produce is refused, the second succeeds with the same offset, and the log can
    no longer be replayed. *)
Lemma refused_record_blocks_recovery :
  snd dirty1 <> None /\ snd dirty2 = None /\
  match NewInMemoryBrokerFromWAL T0 (wal (fst dirty2)) [] with inl _ => false | inr _ => true end = true.
Proof. split; [vm_compute; discriminate|]. split; vm_compute; reflexivity. Qed.

(** The topic of dead letters is created without a topic record: the broker recovered after
    one dead letter has it with fewer partitions than before. *)
Definition exDead : exBroker := redeliverExpiredLocked (T0 + 2 * Second) ex5.
Definition exDeadRestarted : exBroker :=
  match NewInMemoryBrokerFromWAL (T0 + Minute) (wal exDead) [] with inl b => b | inr _ => ex0 end.
Lemma dlq_topic_shrinks :
  (fun ts => zlen (partitions ts)) <$> topics exDead !! "dlq.orders" = Some 2 /\
  (fun ts => zlen (partitions ts)) <$> topics exDeadRestarted !! "dlq.orders" = Some 1.
Proof. split; vm_compute; reflexivity. Qed.

(** ** Commits of the consumer side, over whole runs of the broker *)
(** A committed key stays committed whatever the broker does, survives a restart, and its
    message is neither dispatched nor sent again to the group. *)
(** ** Permanence *)
Section permanent.
Context {W : Type} `{WAL W}.
Implicit Types b : @InMemoryBroker W.

Lemma closed_committed a t g k r :
  closed (W := W) (fun _ _ s => isCommitted s (consumeKey a t g k) r).
Proof.
  split; try done. intros op w tps s (st&Hk&Hst&Hr). exists st. split; [|done].
  exact (committed_step op (s, w) _ _ _ _ _ Hk Hst).
Qed.

(** C16: a commit is permanent over every run of the broker: once the consume-scope record
    of a key is committed, no sequence of steps of clients, consumers, redelivery and
    flushing changes that, nor the committed result. *)
Theorem commits_permanent b b' a t g k r :
  isCommitted (idem b) (consumeKey a t g k) r -> rtc bstep b b' ->
  isCommitted (idem b') (consumeKey a t g k) r.
Proof. intros Hc Hs. exact (inv_steps _ (closed_committed a t g k r) _ _ Hs Hc). Qed.

(** *** A committed message is not delivered again *)
Context `{MapOrder}.

Lemma check_committed now a t g k r b :
  isCommitted (idem b) (consumeKey a t g k) r -> k <> "" ->
  exists b1 st, idemConsumeCheck now a t g k b = (b1, Some st) /\ Status st = IdemStatusCommitted /\
    quiet b b1.
Proof.
  intros (st&Hk&Hst&_) Hne. pose proof (quiet_idemConsumeCheck now a t g k b) as Q.
  unfold idemConsumeCheck, ConsumeCheck in *. rewrite decide_False in * by done.
  rewrite (items_cleanup_kept now _ _ _ Hk) in * by by apply committed_kept.
  eexists _, st. split; [done|]. split; [done|exact Q].
Qed.

Lemma idemKeyOf_nonempty m a k : idemKeyOf m = Some (a, k) -> k <> "".
Proof. unfold idemKeyOf. repeat case_match; naive_solver. Qed.

(** effectively once: when the message's key is already committed for the group, the
    dispatcher passes over it (its offset is committed, nothing is put in flight, no channel
    is written), and redelivery never sends it again: it stays as it is or is settled. *)
Theorem committed_not_redelivered now t g p m a k r chans b :
  wf b -> idemKeyOf m = Some (a, k) -> isCommitted (idem b) (consumeKey a t g k) r ->
  (let '(b', st) := dispatchOne now t g p chans m b in
   st = LContinue /\ m_Offset m <= committedRaw b' t g p /\ channels b' = channels b /\
   forall t' g' p', inFlightOf b' t' g' p' = inFlightOf b t' g' p') /\
  (forall o e leases, inFlightOf b t g p !! o = Some e -> m_Envelope (Msg e) = m_Envelope m ->
   let b' := redeliverEntry now t g p o chans leases b in
   (exists e', inFlightOf b' t g p !! o = Some e' /\ Attempts e' = Attempts e /\ SentAt e' = SentAt e) \/
   settled t g p o b').
Proof.
  intros Hwf Hk Hc. pose proof (idemKeyOf_nonempty _ _ _ Hk) as Hne. split.
  - destruct (check_committed now a t g k r b Hc Hne) as (b1&st&E&Hst&Q).
    unfold dispatchOne. rewrite Hk, E. simpl. rewrite Hst, bool_decide_eq_true_2 by done.
    assert (wf b1) as Hwf1 by eauto with go.
    pose proof (commitForward_commits t g p (m_Offset m) b1 Hwf1) as Cm. split; [done|].
    split; [exact (cm_reached _ _ _ _ _ _ Cm)|]. split.
    + transitivity (channels b1); [exact (cm_channels _ _ _ _ _ _ Cm)|apply (q_channels _ _ Q)].
    + intros. rewrite <- (q_infl _ _ Q). exact (cm_infl _ _ _ _ _ _ Cm t' g' p').
  - intros o e leases He Henv. cbv zeta. unfold redeliverEntry. rewrite He.
    destruct (_ <? _); [left; by exists e|].
    pose proof (markTimeout_fst now t g p o e b) as Hm. pose proof (idem_markTimeout now t g p o e b) as Hi.
    destruct (markTimeout now t g p o e b) as [e1 b1] eqn:E1. simpl in Hm, Hi. subst e1.
    destruct (markTimeout_spec _ _ _ _ _ _ _ _ _ Hwf He E1) as [[Hwf1 Hrf1] He1].
    destruct (marked_same e) as (_&Ha&Hs&_&_&Henv').
    destruct (_ && _); [left; by exists (markedEntry e)|].
    assert (idemKeyOf (Msg (markedEntry e)) = Some (a, k)) as Hk1.
    { rewrite <- Hk. unfold idemKeyOf. by rewrite Henv', Henv. }
    rewrite <- Hi in Hc. destruct (check_committed now a t g k r b1 Hc Hne) as (b2&st&E2&Hst&Q2).
    rewrite Hk1, E2. simpl. rewrite Hst, bool_decide_eq_true_2 by done. right.
    eapply settle_settled; [by eauto with go|]. by rewrite (q_infl _ _ Q2).
Qed.
End permanent.

(** *** Survival of a restart *)
Section survive.
Context {W : Type} `{WALLaws W}.
Implicit Types b : @InMemoryBroker W.
Context (all_representable : forall e, representable e).

Definition durable_in (w : option W) (tps : gmap string TopicState) (s : IdempotencyStore) : Prop :=
  exists w0, w = Some w0 /\ durable s w0.

Lemma durable_other e (w w' : W) err s :
  Type_ e <> RecordTypeConsumeIdempotency -> Append e w = (w', err) -> durable s w -> durable s w'.
Proof using all_representable.
  intros Hty E [Hok Hd]. assert (forall k, idemOfEntry k (lastIdem k (wal_log w)) e = lastIdem k (wal_log w)) as Hs.
  { intros k. unfold idemOfEntry. rewrite decide_False; [done|]. by intros (?&_). }
  destruct err as [err|].
  - destruct (Append_fail _ _ _ _ Hok (all_representable e) E) as [Hok' [Hl|Hl]]; split; try done;
      intros ????? Hc; rewrite Hl, ?lastIdem_snoc, ?Hs; by apply Hd.
  - destruct (Append_ok _ _ _ Hok (all_representable e) E) as [Hok' Hl]. split; [done|].
    intros ????? Hc. rewrite Hl, lastIdem_snoc, Hs. by apply Hd.
Qed.

Lemma closed_durable : closed durable_in.
Proof using all_representable.
  split.
  - intros e w w' err tps s [_ Hty] E (w0&[= <-]&Hd). exists w'. split; [done|]. by eapply durable_other.
  - intros op w tps s (w0&->&Hd).
    destruct (durable_step (fun _ _ _ _ _ _ _ _ _ _ => all_representable _) op s w0 Hd) as (w1&Hw&Hd1).
    by exists w1.
  - done.
  - intros t m w w' err tps s E (w0&[= <-]&Hd). exists w'. split; [done|]. by eapply (durable_other (messageEntry t m)).
  - intros w w' tps s t ts part msg _ _ m Hw (w0&->&Hd). destruct Hw as (w1&E&->). exists w1.
    split; [done|]. by eapply (durable_other (messageEntry t m)).
Qed.

(** commits survive a restart: run any steps from a broker whose commits are in its log
    (a new broker in particular), with appends that may fail at any point; a broker
    recovered from the resulting log has every key that was committed in memory committed,
    with the same result. *)
Theorem committed_survives_restart b0 b w a t g key st now opts br :
  (exists w0, wal b0 = Some w0 /\ durable (idem b0) w0) -> rtc bstep b0 b -> wal b = Some w ->
  t <> "" -> g <> "" -> key <> "" ->
  items (idem b) !! consumeKey a t g key = Some st -> Status st = IdemStatusCommitted ->
  forall ord : MapOrder, NewInMemoryBrokerFromWAL now (Some w) opts = inl br ->
  isCommitted (idem br) (consumeKey a t g key) (st_Result st).
Proof using all_representable.
  intros Hd0 Hs Hw Ht Hg Hkey Hk Hst ord Eb.
  destruct (inv_steps _ closed_durable _ _ Hs Hd0) as (w0&Hw0&Hd). rewrite Hw in Hw0. injection Hw0 as <-.
  by eapply durable_recovered.
Qed.
End survive.

(** *** Instances *)
(** The worker commits message 1 of [ex5] without acknowledging it. *)
Definition ex6 : exBroker :=
  fst (withIdem (ConsumeCommitIfOwner (T0 + 5) "tenant" "orders" "workers" "key-1" "alice" [x07]) ex5).
Definition ex7 : exBroker := redeliverExpiredLocked (T0 + 2 * Second) ex6.
Definition exKey : idempotencyKey := consumeKey "tenant" "orders" "workers" "key-1".
Definition exLog7 : MemWAL := default (mkMemWAL [] []) (wal ex7).
Definition ex8 : exBroker :=
  match NewInMemoryBrokerFromWAL (T0 + Minute) (Some exLog7) [] with inl b => b | inr _ => ex0 end.
Definition exDone : IdempotencyStatus := mkIdem IdemStatusCommitted [x07] "" (T0 + 5) "" zeroTime.

Lemma ex6_committed : items (idem ex6) !! exKey = Some exDone.
Proof. vm_compute. reflexivity. Qed.
Lemma wf_ex6 : wf ex6.
Proof. apply reachable_wf', (reachable_step ex5); [apply reachable_ex5|]. apply step_idem_commit. Qed.
Lemma steps_ex6_ex7 : rtc bstep ex6 ex7.
Proof. apply rtc_once, step_redeliver. Qed.
Lemma steps_ex0_ex7 : rtc bstep ex0 ex7.
Proof.
  etrans; [apply steps_ex0_ex5|]. etrans; [|apply steps_ex6_ex7]. apply rtc_once, step_idem_commit.
Qed.

Lemma commits_permanent_witness : isCommitted (idem ex7) exKey [x07].
Proof.
  apply (commits_permanent ex6 ex7 "tenant" "orders" "workers" "key-1" [x07]).
  - exists exDone. split; [apply ex6_committed|]. split; reflexivity.
  - apply steps_ex6_ex7.
Defined.

Lemma committed_not_redelivered_witness :
  settled "orders" "workers" 0 1
    (redeliverEntry (T0 + 2 * Second) "orders" "workers" 0 1 (streamsOf ex6 "orders" "workers")
       (ownerLeases (streamsOf ex6 "orders" "workers") ex6) ex6).
Proof.
  destruct (committed_not_redelivered (T0 + 2 * Second) "orders" "workers" 0 idemMsg "tenant" "key-1" [x07]
    (streamsOf ex6 "orders" "workers") ex6 wf_ex6) as [_ Hr].
  - reflexivity.
  - exists exDone. split; [apply ex6_committed|]. split; reflexivity.
  - destruct (inFlightOf ex6 "orders" "workers" 0 !! 1) as [e|] eqn:He; [|vm_compute in He; discriminate].
    assert (m_Envelope (Msg e) = m_Envelope idemMsg) as Henv.
    { vm_compute in He. injection He as <-. vm_compute. reflexivity. }
    destruct (Hr 1 e (ownerLeases (streamsOf ex6 "orders" "workers") ex6) He Henv) as [(e'&He'&_)|Hs]; [|exact Hs].
    exfalso. vm_compute in He'. discriminate.
Defined.

Lemma committed_survives_restart_witness : isCommitted (idem ex8) exKey [x07].
Proof.
  apply (committed_survives_restart MemWAL_representable ex0 ex7 exLog7 "tenant" "orders" "workers" "key-1"
    exDone (T0 + Minute) [] ex8) with (ord := elements_order).
  - exists (mkMemWAL [] []). split; [reflexivity|]. split; [exact I|]. intros a t g key r (st&Hst&_). discriminate Hst.
  - apply steps_ex0_ex7.
  - vm_compute. reflexivity.
  - discriminate.
  - discriminate.
  - discriminate.
  - vm_compute. reflexivity.
  - reflexivity.
  - vm_compute. reflexivity.
Defined.
