(* ===== verification/ConsumerRunner.v ===== *)
(** * The idempotent consumer loop (internal/broker/consumer_runner.go, and the
    consumer helper of idempotency.go)

    [runMessage] is the body of the loop of [RunConsumerWithIdempotency] for one received
    message.  The handler is the client's: its result, the instants at which the renewal
    ticker fires while it runs and the clock readings of the other steps are the
    argument [r]. *)
From stdpp Require Import relations.
From S2P Require Import Prelude Storage Idempotency BrokerTypes BrokerState Dispatch Produce Redelivery Consume BrokerInv DispatchInv ProduceInv.
From S2P Require Import RedeliveryInv ConsumeInv BrokerSteps IdemSpec StepInv AckSpec RedeliverySpec DurableSpec.
From Stdlib Require Import Init.Byte.

(** ** IdempotencyConsumerHelper *)
Definition HelperBegin (now : Time) (topic : string) (msg : Message) (s : IdempotencyStore) :
    IdempotencyStore * (bool * bytes * option error) :=
  match idemKeyOf msg with
  | None => (s, (false, [], None))
  | Some (tenantID, key) =>
    match Check_ now tenantID topic key s with
    | (s, Some st) =>
      if decide (Status st = IdemStatusCommitted) then (s, (true, st_Result st, None))
      else (s, (false, [], None))
    | (s, None) => (s, (false, [], None))
    end
  end.

Definition HelperMarkSuccess (now : Time) (topic : string) (msg : Message) (result : bytes)
    (s : IdempotencyStore) : IdempotencyStore :=
  match idemKeyOf msg with
  | None => s
  | Some (tenantID, key) => MarkSuccess now tenantID topic key result s
  end.

Definition HelperMarkFailure (now : Time) (topic : string) (msg : Message) (cause : option error)
    (s : IdempotencyStore) : IdempotencyStore :=
  match idemKeyOf msg with
  | None => s
  | Some (tenantID, key) => MarkFailure now tenantID topic key cause s
  end.

(** ** The renewal period *)
Definition minRenew : Duration := 100 * Millisecond.
Definition renewPeriod (lease : Duration) : Duration :=
  let renewEvery := Z.quot lease 3 in
  let renewEvery := if renewEvery <? minRenew then minRenew else renewEvery in
  if lease <=? renewEvery then
    let renewEvery := Z.quot lease 2 in
    let renewEvery := if renewEvery <=? 0 then minRenew else renewEvery in
    if lease <=? renewEvery then minRenew else renewEvery
  else renewEvery.

(** One run of the handler. *)
Record HandlerRun : Type := mkRun {
  hr_claim : Time;            (* claiming the lease *)
  hr_ticks : list Time;       (* renewal ticks while the handler runs *)
  hr_finish : Time;           (* commit or failure *)
  hr_ack : Time;              (* acknowledgement or rejection *)
  hr_result : bytes;
  hr_error : option error
}.

Section runner.
Context {W : Type} `{WAL W} `{MapOrder}.
Abbreviation broker := (@InMemoryBroker W).

(** The renewal goroutine: stops at the first error. *)
Fixpoint renewLoop (ticks : list Time) (tenantID topic group key owner : string) (lease : Duration)
    (b : broker) : broker * option error :=
  match ticks with
  | [] => (b, None)
  | t :: ticks =>
    match withIdem (ConsumeRenewLease t tenantID topic group key owner lease) b with
    | (b, Some err) => (b, Some err)
    | (b, None) => renewLoop ticks tenantID topic group key owner lease b
    end
  end.

Definition runMessage (topic group owner : string) (lease : Duration) (msg : Message) (r : HandlerRun)
    (b : broker) : broker :=
  let nack reason b := fst (Nack (hr_ack r) topic group (m_Partition msg) (m_Offset msg) owner reason b) in
  let ack b := fst (AckIfOwner (hr_ack r) (hr_ack r) (hr_ack r) topic group (m_Partition msg)
                      (m_Offset msg) owner b) in
  match idemKeyOf msg with
  | None =>
    match hr_error r with
    | Some herr => nack (Error herr) b
    | None => ack b
    end
  | Some (tenantID, idKey) =>
    let '(b, (alreadyDone, _, berr)) :=
      withIdem (ConsumeBeginLease (hr_claim r) tenantID topic group idKey owner lease) b in
    match berr with
    | Some err =>
      if decide (err = ErrIdempotencyLeaseHeld) then nack "idem_lease_held" b
      else nack ("idem_begin_failed: " +:+ Error err) b
    | None =>
      if (alreadyDone : bool) then ack b
      else
      match renewLoop (hr_ticks r) tenantID topic group idKey owner lease b with
      | (b, Some rerr) => nack ("idem_lease_lost: " +:+ Error rerr) b
      | (b, None) =>
        match hr_error r with
        | Some herr =>
          match withIdem (ConsumeFailIfOwner (hr_finish r) tenantID topic group idKey owner (Some herr)) b with
          | (b, Some ferr) => nack ("idem_fail_failed: " +:+ Error ferr) b
          | (b, None) => nack (Error herr) b
          end
        | None =>
          match withIdem (ConsumeCommitIfOwner (hr_finish r) tenantID topic group idKey owner
                            (hr_result r)) b with
          | (b, Some cerr) => nack ("idem_commit_failed: " +:+ Error cerr) b
          | (b, None) => ack b
          end
        end
      end
    end
  end.

(** Start of the loop: lease validation, default owner, registration. *)
Definition startRunner (now : Time) (topic group owner : string) (lease : Duration) (b : broker) :
    broker * ((string * nat) + error) :=
  match validateLease lease with
  | Some err => (b, inr err)
  | None =>
    let owner := TrimSpace owner in
    let owner := if decide (owner = "") then "consumer-runner" else owner in
    match ConsumeWithLease now topic group owner lease b with
    | (b, inr err) => (b, inr err)
    | (b, inl ch) => (b, inl (owner, ch))
    end
  end.

(** The loop: receive the next message of the channel, process it; it ends when the
    channel is empty and closed (or, here, when no message is left to receive). *)
Fixpoint runLoop (topic group owner : string) (lease : Duration) (ch : nat) (runs : list HandlerRun)
    (b : broker) : broker :=
  match runs with
  | [] => b
  | r :: runs =>
    match recv ch b with
    | (b, None) => b
    | (b, Some msg) => runLoop topic group owner lease ch runs (runMessage topic group owner lease msg r b)
    end
  end.
End runner.

(** ** The idempotent consumer loop (properties of ConsumerRunner.v) *)
(** ** The renewal period *)
(** for every lease the validation accepts, the renewal period is at least 100 ms and at
    most half the lease, so a lease is renewed at least once before it can expire. *)
Theorem renewPeriod_bounds lease :
  validateLease lease = None -> minRenew <= renewPeriod lease /\ 2 * renewPeriod lease <= lease.
Proof.
  unfold validateLease, renewPeriod, minRenew, Minute, Second, Millisecond. intros Hv.
  destruct (Z.leb_spec lease 0); [done|]. destruct (Z.ltb_spec lease (250 * 1000000)); [done|].
  pose proof (Z.quot_le_lower_bound lease 3) as _.
  rewrite (Z.quot_div_nonneg lease 3) by lia.
  pose proof (Z.div_mod lease 3). pose proof (Z.mod_pos_bound lease 3).
  destruct (Z.ltb_spec (lease `div` 3) (100 * 1000000)).
  - destruct (Z.leb_spec lease (100 * 1000000)); lia.
  - destruct (Z.leb_spec lease (lease `div` 3)); lia.
Qed.

Section runner.
Context {W : Type} `{WAL W}.
Implicit Types b : @InMemoryBroker W.

(** The log accepts every record (a nil log does, trivially). *)
Context (accepts : forall (e : Entry) (w : W), snd (Append e w) = None).

Lemma appendThenPut_ok e k st s (w : option W) :
  exists w', appendThenPut e k st s w = (put k st s, w', None).
Proof using accepts.
  unfold appendThenPut, walAppend. destruct w as [w|]; [|by eexists].
  specialize (accepts e w). destruct (Append e w) as [w' err]. simpl in *. subst. by eexists.
Qed.

Lemma orUnknown_id o : o <> "" -> orUnknown o = o.
Proof. intros. unfold orUnknown. by rewrite decide_False. Qed.

Lemma holds_cleaned now s a t g k o u :
  holds s (consumeKey a t g k) o u -> now < u ->
  exists st, items (cleanupLocked now s) !! consumeKey a t g k = Some st /\
    checkOwner now o st = None /\ Status st = IdemStatusPending /\ st_Owner st = o.
Proof.
  intros (st&Hk&Hst&Ho&Hu&Hu0) Hn. exists st. split; [apply items_cleanup_kept; [done|by eapply pending_kept]|].
  split; [|done]. unfold checkOwner, IsZero, Before. rewrite !bool_decide_eq_true_2 by done. simpl.
  destruct (Z.eqb_spec (st_LeaseUntil st) 0); [lia|]. destruct (Z.ltb_spec now (st_LeaseUntil st)); [done|lia].
Qed.

Lemma renew_ok now a t g k o u lease s (w : option W) :
  holds s (consumeKey a t g k) o u -> now < u -> 0 <= now -> k <> "" -> o <> "" -> validateLease lease = None ->
  exists s' w', ConsumeRenewLease now a t g k o lease s w = (s', w', None) /\
    holds s' (consumeKey a t g k) o (now + lease).
Proof using accepts.
  intros Hh Hn Hnow Hk Ho Hl. destruct (holds_cleaned now s a t g k o u Hh Hn) as (st&Hit&Hc&Hst&Hso).
  unfold ConsumeRenewLease. rewrite decide_False, Hl, (orUnknown_id o) by done. cbv zeta. rewrite Hit, Hc.
  set (st' := mkIdem _ _ _ _ _ _). set (e := idemEntry _ _ _ _ _ _ _ _ _ _).
  destruct (appendThenPut_ok e (consumeKey a t g k) st' (cleanupLocked now s) w) as [w' ->].
  eexists _, w'. split; [done|]. exists st'. rewrite items_put, decide_True by done.
  split_and!; try done. assert (0 < lease) by (unfold validateLease in Hl; destruct (Z.leb_spec lease 0); [done|lia]). lia.
Qed.

Lemma commit_ok now a t g k o u r s (w : option W) :
  holds s (consumeKey a t g k) o u -> now < u -> k <> "" -> o <> "" ->
  exists s' w', ConsumeCommitIfOwner now a t g k o r s w = (s', w', None) /\
    isCommitted s' (consumeKey a t g k) r.
Proof using accepts.
  intros Hh Hn Hk Ho. destruct (holds_cleaned now s a t g k o u Hh Hn) as (st&Hit&Hc&Hst&Hso).
  unfold ConsumeCommitIfOwner. rewrite decide_False, (orUnknown_id o) by done. cbv zeta. rewrite Hit.
  rewrite decide_False by by rewrite Hst. rewrite Hc.
  set (st' := mkIdem _ _ _ _ _ _). set (e := idemEntry _ _ _ _ _ _ _ _ _ _).
  destruct (appendThenPut_ok e (consumeKey a t g k) st' (cleanupLocked now s) w) as [w' ->].
  eexists _, w'. split; [done|]. exists st'. by rewrite items_put, decide_True.
Qed.

Lemma commit_again now a t g k o r r' s (w : option W) :
  isCommitted s (consumeKey a t g k) r -> k <> "" ->
  ConsumeCommitIfOwner now a t g k o r' s w = (cleanupLocked now s, w, None).
Proof.
  intros (st&Hit&Hst&_) Hk. unfold ConsumeCommitIfOwner. rewrite decide_False by done. cbv zeta.
  rewrite (items_cleanup_kept now _ _ _ Hit) by by apply committed_kept. by rewrite decide_True.
Qed.

Lemma isCommitted_cleaned now s a t g k r :
  isCommitted s (consumeKey a t g k) r -> isCommitted (cleanupLocked now s) (consumeKey a t g k) r.
Proof.
  intros (st&Hit&Hst&Hr). exists st. split; [|done]. apply items_cleanup_kept; [done|by apply committed_kept].
Qed.

(** The renewals and the commit come while the lease taken before them runs. *)
Fixpoint timely (u : Time) (ticks : list Time) (finish : Time) (lease : Duration) : Prop :=
  match ticks with
  | [] => finish < u
  | t :: ticks => 0 <= t < u /\ timely (t + lease) ticks finish lease
  end.

Lemma renewLoop_ok ticks finish a t g k o lease u b :
  holds (idem b) (consumeKey a t g k) o u -> timely u ticks finish lease -> k <> "" -> o <> "" ->
  validateLease lease = None ->
  exists b' u', renewLoop ticks a t g k o lease b = (b', None) /\ quiet b b' /\
    holds (idem b') (consumeKey a t g k) o u' /\ finish < u'.
Proof using accepts.
  intros Hh Ht Hk Ho Hl. revert u b Hh Ht. induction ticks as [|x ticks IH]; intros u b Hh Ht; cbn [renewLoop timely] in *.
  { by exists b, u. }
  destruct Ht as [Hx Ht]. destruct (renew_ok x a t g k o u lease (idem b) (wal b)) as (s'&w'&E&Hh'); [done|lia|lia|done..|].
  unfold withIdem. rewrite E. destruct (IH (x + lease) (set_wal w' (set_idem s' b)) Hh' Ht) as (b'&u'&E'&Q&?&?).
  exists b', u'. split; [done|]. split; [|done]. etrans; [|exact Q]. done.
Qed.

Context `{MapOrder}.

(** The acknowledgement of an in-flight message whose key is committed. *)
Lemma ack_committed n t g p o owner a k r e b :
  wf b -> inFlightOf b t g p !! o = Some e -> Owner e = owner -> TrimSpace owner = owner -> owner <> "" ->
  idemKeyOf (Msg e) = Some (a, k) -> isCommitted (idem b) (consumeKey a t g k) r ->
  let b' := fst (AckIfOwner n n n t g p o owner b) in
  snd (AckIfOwner n n n t g p o owner b) = None /\
  acked t g p o b b' /\ isCommitted (idem b') (consumeKey a t g k) r.
Proof.
  intros Hwf He Hoe Htr Hown Hk Hc. pose proof (idemKeyOf_nonempty _ _ _ Hk) as Hne.
  destruct (inflight_valid _ _ _ _ _ _ Hwf He) as (Ht&Hg&Ho&ts&Hts&Hp).
  unfold AckIfOwner, checkArgs. rewrite !decide_False by done.
  destruct (Z.ltb_spec p 0); [lia|]. destruct (Z.ltb_spec o 0); [lia|]. rewrite Htr, decide_False by done.
  unfold ackCheckOwner, checkTopicPartition. rewrite Hts. destruct (Z.leb_spec (zlen (partitions ts)) p); [lia|].
  pose proof (quiet_ensureInFlight t g p b) as Q1. set (b1 := ensureInFlight t g p b) in *.
  rewrite (q_infl _ _ Q1), He, bool_decide_eq_true_2, Hk by done. simpl negb. cbv iota.
  change (idem b) with (idem b1) in Hc. unfold withIdem. rewrite (commit_again n a t g k owner r [] _ _ Hc Hne).
  set (b2 := set_wal _ _). assert (quiet b b2) as Q2 by (etrans; [exact Q1|done]).
  assert (isCommitted (idem b2) (consumeKey a t g k) r) as Hc2 by by apply isCommitted_cleaned.
  assert (wf b2) as Hwf2 by eauto with go. rewrite <- (q_infl _ _ Q2) in He.
  assert (snd (ackFinish n t g p o b2) = None) as Hn.
  { unfold ackFinish. rewrite ackLocked_eq. unfold checkTopicPartition. rewrite (q_topics _ _ Q2), Hts.
    by destruct (Z.leb_spec (zlen (partitions ts)) p); [lia|]. }
  pose proof (ackFinish_acked n t g p o b2 _ _ _ Hwf2 Ho He (surjective_pairing _)) as Ha. rewrite Hn in Ha.
  split_and!; [done|exact (acked_quiet_l _ _ _ _ _ _ _ Q2 Ha)|].
  exact (inv_ackFinish _ (closed_committed a t g k r) n t g p o b2 Hc2).
Qed.

(** one round of the consumer loop for a message in flight for this owner whose handler
    succeeds: if the lease can be taken and every renewal and the commit come before the
    lease taken last expires, then the handler's result is committed, and the message is
    acknowledged: its offset committed, no longer in flight. *)
Theorem runMessage_commits_and_acks t g owner lease msg r a k e res b :
  wf b -> inFlightOf b t g (m_Partition msg) !! m_Offset msg = Some e -> Owner e = owner ->
  TrimSpace owner = owner -> owner <> "" ->
  idemKeyOf msg = Some (a, k) -> idemKeyOf (Msg e) = Some (a, k) -> validateLease lease = None ->
  snd (ConsumeBeginLease (hr_claim r) a t g k owner lease (idem b) (wal b)) = (false, res, None) ->
  hr_error r = None -> 0 <= hr_claim r -> timely (hr_claim r + lease) (hr_ticks r) (hr_finish r) lease ->
  let b' := runMessage t g owner lease msg r b in
  isCommitted (idem b') (consumeKey a t g k) (hr_result r) /\
  acked t g (m_Partition msg) (m_Offset msg) b b'.
Proof using accepts.
  intros Hwf He Hoe Htr Hown Hk Hke Hl Hb Herr H0' Ht b'. pose proof (idemKeyOf_nonempty _ _ _ Hk) as Hne.
  assert (exists b3, quiet b b3 /\ isCommitted (idem b3) (consumeKey a t g k) (hr_result r) /\
    b' = fst (AckIfOwner (hr_ack r) (hr_ack r) (hr_ack r) t g (m_Partition msg) (m_Offset msg) owner b3))
    as (b3&Q3&Hc3&->).
  { unfold b', runMessage. clear b'. rewrite Hk. unfold withIdem at 1.
    destruct (ConsumeBeginLease _ _ _ _ _ _ _ _ _) as [[s1 w1] r1] eqn:E1. simpl in Hb. subst r1.
    destruct (begin_success _ _ _ _ _ _ _ _ _ _ _ _ Hne H0' E1) as [_ Hh]. rewrite (orUnknown_id owner Hown) in Hh.
    set (b1 := set_wal w1 (set_idem s1 b)). cbv iota.
    destruct (renewLoop_ok (hr_ticks r) (hr_finish r) a t g k owner lease (hr_claim r + lease) b1 Hh Ht Hne Hown Hl)
      as (b2&u&E2&Q2&Hh2&Hf).
    rewrite E2, Herr. destruct (commit_ok (hr_finish r) a t g k owner u (hr_result r) (idem b2) (wal b2) Hh2 Hf Hne Hown)
      as (s3&w3&E3&Hc3).
    unfold withIdem. rewrite E3. exists (set_wal w3 (set_idem s3 b2)).
    split; [|done]. etrans; [|etrans; [exact Q2|]]; done. }
  assert (wf b3) as Hwf3 by eauto with go. rewrite <- (q_infl _ _ Q3) in He.
  destruct (ack_committed (hr_ack r) t g (m_Partition msg) (m_Offset msg) owner a k (hr_result r) e b3) as (_&Ha&Hc);
    try done.
  split; [exact Hc|exact (acked_quiet_l _ _ _ _ _ _ _ Q3 Ha)].
Qed.

(** a message that was already committed is not handled again: the round does not depend
    on what the handler would do, and acknowledges the message. *)
Theorem runMessage_skips_committed t g owner lease msg r r' a k result e b :
  wf b -> inFlightOf b t g (m_Partition msg) !! m_Offset msg = Some e -> Owner e = owner ->
  TrimSpace owner = owner -> owner <> "" ->
  idemKeyOf msg = Some (a, k) -> idemKeyOf (Msg e) = Some (a, k) -> validateLease lease = None ->
  isCommitted (idem b) (consumeKey a t g k) result -> hr_claim r' = hr_claim r -> hr_ack r' = hr_ack r ->
  let b' := runMessage t g owner lease msg r b in
  runMessage t g owner lease msg r' b = b' /\
  isCommitted (idem b') (consumeKey a t g k) result /\ acked t g (m_Partition msg) (m_Offset msg) b b'.
Proof.
  intros Hwf He Hoe Htr Hown Hk Hke Hl Hc Hcl Hak b'. pose proof (idemKeyOf_nonempty _ _ _ Hk) as Hne.
  destruct Hc as (st&Hit&Hst&Hr).
  assert (forall n, ConsumeBeginLease n a t g k owner lease (idem b) (wal b) =
    (cleanupLocked n (idem b), wal b, (true, st_Result st, None))) as Hb.
  { intros n. unfold ConsumeBeginLease. rewrite decide_False, Hl by done. cbv zeta.
    rewrite (items_cleanup_kept n _ _ _ Hit) by by apply committed_kept. by rewrite decide_True. }
  set (b1 := set_wal (wal b) (set_idem (cleanupLocked (hr_claim r) (idem b)) b)).
  assert (forall r0, hr_claim r0 = hr_claim r -> hr_ack r0 = hr_ack r -> runMessage t g owner lease msg r0 b =
    fst (AckIfOwner (hr_ack r) (hr_ack r) (hr_ack r) t g (m_Partition msg) (m_Offset msg) owner b1)) as Hrun.
  { intros r0 E1 E2. unfold runMessage. rewrite Hk. unfold withIdem at 1. by rewrite Hb, E1, E2. }
  unfold b'. rewrite !Hrun by done. split; [done|]. assert (quiet b b1) as Q1 by done.
  assert (wf b1) as Hwf1 by eauto with go. rewrite <- (q_infl _ _ Q1) in He.
  destruct (ack_committed (hr_ack r) t g (m_Partition msg) (m_Offset msg) owner a k result e b1) as (_&Ha&Hc1); try done.
  { apply isCommitted_cleaned. by exists st. }
  split; [exact Hc1|exact (acked_quiet_l _ _ _ _ _ _ _ Q1 Ha)].
Qed.
End runner.

(** *** Instances *)
Lemma renewPeriod_bounds_witness : renewPeriod (250 * Millisecond) = 100 * Millisecond /\ 2 * (100 * Millisecond) <= 250 * Millisecond.
Proof.
  split; [vm_compute; reflexivity|].
  exact (proj2 (renewPeriod_bounds (250 * Millisecond) eq_refl)).
Defined.

(** A log that never fails, and a worker whose first message has an idempotency key. *)
#[local] Instance ListWAL : WAL (list Entry) := {|
  Append e w := (w ++ [e], None);
  Replay w := (w, inl w)
|}.
Lemma ListWAL_accepts (e : Entry) (w : list Entry) : snd (Append e w) = None.
Proof. reflexivity. Qed.
Definition run0 : @InMemoryBroker (list Entry) :=
  fst (CreateTopic "orders" 2 (NewInMemoryBrokerWithWAL (Some []) [])).
Definition run1 : @InMemoryBroker (list Entry) :=
  fst (ConsumeWithLease T0 "orders" "workers" "alice" (1 * Second) run0).
Definition run2 : @InMemoryBroker (list Entry) := fst (produceLocked T0 "orders" idemMsg run1).
Definition runMsg : Message := set_m_Attempts 1 (set_m_position 0 0 idemMsg).
Definition runOk : HandlerRun :=
  mkRun (T0 + 10) [T0 + 400 * Millisecond; T0 + 1300 * Millisecond] (T0 + 2 * Second) (T0 + 2 * Second) [x2a] None.
Definition run3 : @InMemoryBroker (list Entry) := runMessage "orders" "workers" "alice" Second runMsg runOk run2.

Lemma wf_run2 : wf run2.
Proof.
  apply reachable_wf', (reachable_step run1); [|apply step_produce].
  apply (reachable_step run0); [|apply step_consume_lease].
  exists (NewInMemoryBrokerWithWAL (Some []) []). split; [by apply initial_new|].
  apply rtc_once. apply (step_create "orders" 2 (mkTopicConfig "")).
Qed.
Lemma run2_inflight :
  inFlightOf run2 "orders" "workers" 0 !! 0 = Some (mkInflight (set_m_position 0 0 idemMsg) T0 1 0 "" "alice").
Proof. vm_compute. reflexivity. Qed.

Lemma runMessage_commits_and_acks_witness :
  isCommitted (idem run3) (consumeKey "tenant" "orders" "workers" "key-1") [x2a] /\
  acked "orders" "workers" 0 0 run2 run3.
Proof.
  apply (runMessage_commits_and_acks ListWAL_accepts "orders" "workers" "alice" Second runMsg runOk
    "tenant" "key-1" (mkInflight (set_m_position 0 0 idemMsg) T0 1 0 "" "alice") [] run2 wf_run2 run2_inflight).
  - reflexivity.
  - reflexivity.
  - discriminate.
  - reflexivity.
  - reflexivity.
  - reflexivity.
  - vm_compute. reflexivity.
  - reflexivity.
  - vm_compute. discriminate.
  - vm_compute. repeat split; discriminate.
Defined.

(** The key is committed, then the same message is handled again. *)
Definition run4 : @InMemoryBroker (list Entry) :=
  fst (withIdem (ConsumeCommitIfOwner (T0 + 5) "tenant" "orders" "workers" "key-1" "alice" [x2a]) run2).
Definition runFail : HandlerRun := mkRun (T0 + 10) [] (T0 + 20) (T0 + 2 * Second) [] (Some (ENew "boom")).

Lemma runMessage_skips_committed_witness :
  runMessage "orders" "workers" "alice" Second runMsg runFail run4 =
    runMessage "orders" "workers" "alice" Second runMsg runOk run4 /\
  acked "orders" "workers" 0 0 run4 (runMessage "orders" "workers" "alice" Second runMsg runOk run4).
Proof.
  destruct (runMessage_skips_committed "orders" "workers" "alice" Second runMsg runOk runFail
    "tenant" "key-1" [x2a] (mkInflight (set_m_position 0 0 idemMsg) T0 1 0 "" "alice") run4) as (E&_&Ha).
  - exact (quiet_wf _ _ (quiet_withIdem _ run2) wf_run2).
  - vm_compute. reflexivity.
  - reflexivity.
  - reflexivity.
  - discriminate.
  - reflexivity.
  - reflexivity.
  - reflexivity.
  - exists (mkIdem IdemStatusCommitted [x2a] "" (T0 + 5) "" zeroTime). vm_compute. repeat split.
  - reflexivity.
  - reflexivity.
  - split; [exact E|exact Ha].
Defined.

(** A handler error marks the key failed, then [Nack] tries to mark it failed again and adds
    a spurious error to the message's. *)
Definition run5 : @InMemoryBroker (list Entry) := runMessage "orders" "workers" "alice" Second runMsg runFail run2.
Lemma handler_error_marked_twice :
  (fun e : inflightEntry => ie_LastError e) <$> inFlightOf run5 "orders" "workers" 0 !! 0 =
  Some "boom | idem_fail_failed: idempotency: lease lost or expired".
Proof. vm_compute. reflexivity. Qed.
