(* ===== verification/DispatchSpec.v ===== *)
(** * What dispatching does (properties of Dispatch.v)

    The fuelled message loop against the relation of its iterations, where a group starts
    reading a partition, and the messages a simple consumer receives. *)
From stdpp Require Import relations.
From S2P Require Import Prelude Storage Idempotency BrokerTypes BrokerState Dispatch Produce.
From S2P Require Import Consume BrokerInv DispatchInv ConsumeInv BrokerSteps.
From Stdlib Require Import Init.Byte.

Section dispatch.
Context {W : Type} `{WAL W} `{MapOrder}.
Implicit Types b : @InMemoryBroker W.

(** ** The loop as a relation *)
(** One iteration that goes on, and the ways the loop ends: nothing left, or an iteration
    that breaks ([true]) or returns ([false]). *)
Definition iter now t g p chans msgs b b' : Prop :=
  exists m, zlookup msgs (nextIndexOf b t g p) = Some m /\
    dispatchOne now t g p chans m b = (b', LContinue).
Inductive stops now t g p chans msgs b : InMemoryBroker -> bool -> Prop :=
| stops_end : zlookup msgs (nextIndexOf b t g p) = None -> stops now t g p chans msgs b b true
| stops_break m b' : zlookup msgs (nextIndexOf b t g p) = Some m ->
    dispatchOne now t g p chans m b = (b', LBreak) -> stops now t g p chans msgs b b' true
| stops_return m b' : zlookup msgs (nextIndexOf b t g p) = Some m ->
    dispatchOne now t g p chans m b = (b', LReturn) -> stops now t g p chans msgs b b' false.

Lemma dispatchLoop_runs k now t g p n b :
  wf b -> lookup3 (nextIndex b) t g p = Some n -> zlen (logOf (topics b) t p) - n <= Z.of_nat k ->
  let chans := streamsOf b t g in
  let msgs := logOf (topics b) t p in
  exists b1, rtc (iter now t g p chans msgs) b b1 /\
    stops now t g p chans msgs b1 (fst (dispatchLoop k now t g p chans msgs b))
      (snd (dispatchLoop k now t g p chans msgs b)).
Proof.
  intros Hwf Hn Hk. simpl. revert n b Hwf Hn Hk. induction k as [|k IH]; intros n b Hwf Hn Hk; cbn [dispatchLoop].
  { exists b. split; [done|]. apply stops_end. unfold nextIndexOf. simpl fst. rewrite Hn. simpl.
    destruct (zlookup _ n) eqn:Em; [|done]. apply zlookup_Some_lt in Em. lia. }
  destruct (zlookup (logOf (topics b) t p) (nextIndexOf b t g p)) as [m|] eqn:Em;
    [|exists b; split; [done|by apply stops_end]].
  pose proof Em as Em'. unfold nextIndexOf in Em'. rewrite Hn in Em'. simpl in Em'.
  destruct (dispatchOne _ _ _ _ _ _ _) as [b1 st] eqn:E1.
  destruct (dispatchOne_spec _ _ _ _ _ _ _ _ _ Hwf Hn Em' E1) as [Hwf1 Hdf1 Hn1].
  destruct st; [|by exists b; split; [done|by eapply stops_break]|by exists b; split; [done|by eapply stops_return]].
  pose proof (df_topics _ _ Hdf1) as Ht. pose proof (df_chans _ _ Hdf1) as Hc.
  assert (streamsOf b1 t g = streamsOf b t g) as Hs by (unfold streamsOf; by rewrite Hc).
  destruct (IH _ b1 Hwf1 Hn1) as (b2&Hr&Hst); [rewrite Ht; lia|]. rewrite Hs, Ht in Hr, Hst.
  exists b2. split; [|done]. eapply rtc_l; [|done]. by exists m.
Qed.

(** the message loop terminates and is complete: started in any well-formed state, its
    [length msgs] rounds are iterations of the loop body up to the first that stops it, so
    the bound never cuts it short (the result is that of any larger bound). *)
Theorem dispatchLoop_complete now t g p n b k :
  wf b -> lookup3 (nextIndex b) t g p = Some n ->
  let chans := streamsOf b t g in
  let msgs := logOf (topics b) t p in
  let r := dispatchLoop (length msgs) now t g p chans msgs b in
  (exists b1, rtc (iter now t g p chans msgs) b b1 /\ stops now t g p chans msgs b1 (fst r) (snd r)) /\
  dispatchLoop (length msgs + k) now t g p chans msgs b = r.
Proof.
  intros Hwf Hn chans msgs r. pose proof (wf_next Hwf _ _ _ _ Hn) as Hr0.
  fold msgs in Hr0. unfold zlen in Hr0. split.
  - apply (dispatchLoop_runs _ _ _ _ _ n); [done..|]. fold msgs. unfold zlen. lia.
  - apply (dispatchLoop_fuel _ _ _ _ _ _ n); [done..| |]; fold msgs; unfold zlen; lia.
Qed.

(** ** Where a group starts *)
Lemma firstAfter_eq t p b last :
  wf b -> firstAfter (logOf (topics b) t p) last =
  Z.min (zlen (logOf (topics b) t p)) (Z.max 0 (last + 1)).
Proof.
  intros Hwf. set (msgs := logOf (topics b) t p). pose proof (firstAfter_range msgs last) as Hr.
  set (i := firstAfter msgs last) in *.
  assert (i < zlen msgs -> last < i) as Hgt.
  { intros Hi. destruct (zlookup_is_Some msgs i) as [m Hm]; [lia|].
    pose proof (logOf_offsets _ _ _ _ _ Hwf Hm) as Ho. pose proof (firstAfter_gt _ _ _ Hm). lia. }
  assert (0 < i -> i - 1 <= last) as Hle.
  { intros Hi. destruct (zlookup_is_Some msgs (i - 1)) as [m Hm]; [lia|].
    pose proof (logOf_offsets _ _ _ _ _ Hwf Hm) as Ho.
    pose proof (firstAfter_le msgs last (i - 1) m Hm ltac:(unfold i; lia)). lia. }
  lia.
Qed.

(** The index a group reads a partition from: where it was, or right after what it has
    committed. *)
Definition startIndex b t g p : Z :=
  match lookup3 (nextIndex b) t g p with
  | Some n => n
  | None => Z.min (zlen (logOf (topics b) t p)) (Z.max 0 (committedRaw b t g p + 1))
  end.

(** ** A simple consumer *)
Definition delivered (m' m : Message) : Prop := same_message m' m /\ m_Attempts m' = 1.

Record served t g p q (buf : list Message) (n : Z) b b' : Prop := mkServed {
  sv_next : nextIndexOf b' t g p = zlen (logOf (topics b) t p);
  sv_sent : exists ms, channels b' !! q = Some (mkChan (buf ++ ms) false) /\
    Forall2 delivered ms (drop (Z.to_nat n) (logOf (topics b) t p));
  sv_committed : n < zlen (logOf (topics b) t p) ->
    zlen (logOf (topics b) t p) - 1 <= committedRaw b' t g p
}.

Lemma channels_skipCommitted t g p m b : wf b -> channels (skipCommitted t g p m b) = channels b.
Proof. intros Hwf. exact (cm_channels _ _ _ _ _ _ (commitForward_commits t g p (m_Offset m) b Hwf)). Qed.
Lemma committed_skipCommitted t g p m b :
  wf b -> m_Offset m <= committedRaw (skipCommitted t g p m b) t g p.
Proof. intros Hwf. exact (cm_reached _ _ _ _ _ _ (commitForward_commits t g p (m_Offset m) b Hwf)). Qed.

(** One round for a message without idempotency key. *)
Lemma dispatchOne_simple now t g p n m cs buf b :
  wf b -> lookup3 (nextIndex b) t g p = Some n -> zlookup (logOf (topics b) t p) n = Some m ->
  cs_Lease cs = 0 -> idemKeyOf m = None ->
  channels b !! cs_Q cs = Some (mkChan buf false) -> zlen buf < chanCap ->
  exists b' m', dispatchOne now t g p [cs] m b = (b', LContinue) /\ delivered m' m /\
    channels b' !! cs_Q cs = Some (mkChan (buf ++ [m']) false) /\ n <= committedRaw b' t g p.
Proof.
  intros Hwf Hn Hm Hl Hk Hc Hb. pose proof (logOf_offsets _ _ _ _ _ Hwf Hm) as Ho.
  unfold dispatchOne. rewrite Hk. rewrite bool_decide_eq_false_2 by done.
  assert (inFlightOf b t g p !! m_Offset m = None) as ->.
  { apply eq_None_not_Some. intros [e He].
    destruct (wf_infl Hwf _ _ _ _ _ He) as (_&_&Hlt&_). rewrite Hn in Hlt. simpl in Hlt. lia. }
  unfold chooseConsumer. rewrite Hk. change (zlen [cs]) with 1. pose proof (wf_rr_range b t g Hwf).
  rewrite (Z.rem_1_r (rrOf b t g)).
  change (zlookup [cs] 0) with (Some cs). cbv iota beta. rewrite Hl. simpl (0 <? 0). cbv iota.
  set (b1 := setRR t g _ b). set (err := seedLastError b1 t g p (m_Offset m)). simpl (0 =? 0). cbv iota.
  assert (quiet b b1) as Q by (apply quiet_setRR; done).
  assert (wf b1) as Hwf1 by eauto with go. unfold deliverSimple.
  set (m' := set_m_LastError err (set_m_Attempts 1 m)).
  set (b2 := set_channels (<[cs_Q cs := mkChan (buf ++ [m']) false]> (channels b1)) b1).
  assert (trySend (cs_Q cs) m' b1 = Sent b2) as Hsend.
  { unfold trySend. rewrite (q_channels _ _ Q), Hc. cbn [ch_closed ch_buf].
    by destruct (Z.ltb_spec (zlen buf) chanCap); [|lia]. }
  rewrite Hsend. destruct (wf_trySend _ _ _ _ Hwf1 Hsend) as [Hwf2 Hdf2].
  eexists _, m'. split_and!; [done|done| |].
  - rewrite channels_skipCommitted by done. apply list_lookup_insert_eq.
    rewrite (q_channels _ _ Q). by eapply lookup_lt_Some.
  - rewrite <- Ho at 1. by apply committed_skipCommitted.
Qed.

Lemma dispatchLoop_simple k now t g p n cs buf b :
  wf b -> lookup3 (nextIndex b) t g p = Some n -> streamsOf b t g = [cs] -> cs_Lease cs = 0 ->
  (forall i m, n <= i -> zlookup (logOf (topics b) t p) i = Some m -> idemKeyOf m = None) ->
  channels b !! cs_Q cs = Some (mkChan buf false) ->
  zlen (logOf (topics b) t p) - n <= Z.of_nat k ->
  zlen buf + (zlen (logOf (topics b) t p) - n) <= chanCap ->
  exists b', dispatchLoop k now t g p [cs] (logOf (topics b) t p) b = (b', true) /\
    served t g p (cs_Q cs) buf n b b'.
Proof.
  revert n buf b. induction k as [|k IH]; intros n buf b Hwf Hn Hs Hl Hks Hc Hk Hb;
    pose proof (wf_next Hwf _ _ _ _ Hn) as Hr; cbn [dispatchLoop].
  { exists b. split; [done|]. split; [unfold nextIndexOf; rewrite Hn; simpl; lia| |lia].
    exists []. rewrite app_nil_r, drop_ge by (unfold zlen in *; lia). done. }
  assert (nextIndexOf b t g p = n) as Hnx by (unfold nextIndexOf; by rewrite Hn). rewrite Hnx.
  destruct (zlookup (logOf (topics b) t p) n) as [m|] eqn:Em.
  2:{ assert (~ n < zlen (logOf (topics b) t p)).
      { intros Hlt. destruct (zlookup_is_Some (logOf (topics b) t p) n) as [? ?]; [lia|congruence]. }
      exists b. split; [done|]. split; [lia| |lia].
      exists []. rewrite app_nil_r, drop_ge by (unfold zlen in *; lia). done. }
  pose proof (zlookup_Some_lt _ _ _ Em) as Hlt.
  destruct (dispatchOne_simple now t g p n m cs buf b) as (b1&m'&E1&Hd&Hc1&Hcm); try done; [by eapply Hks|lia|].
  rewrite E1. rewrite <- Hs in E1.
  destruct (dispatchOne_spec _ _ _ _ _ _ _ _ _ Hwf Hn Em E1) as [Hwf1 Hdf1 Hn1].
  pose proof (df_topics _ _ Hdf1) as Ht.
  assert (streamsOf b1 t g = [cs]) as Hs1 by (unfold streamsOf in *; by rewrite (df_chans _ _ Hdf1)).
  destruct (IH (n + 1) (buf ++ [m']) b1) as (b'&E'&[Hsn [ms [Hcs Hf]] Hsc]); rewrite ?Ht; try done.
  { intros. eapply Hks; [|done]. lia. }
  { lia. }
  { rewrite zlen_app. change (zlen [m']) with 1. lia. }
  rewrite Ht in *. exists b'. split; [done|]. split; [done| |].
  - exists (m' :: ms). rewrite <- app_assoc in Hcs. split; [done|].
    unfold zlookup in Em. case_decide; [|lia]. rewrite (drop_S _ m) by done.
    constructor; [done|]. by replace (S (Z.to_nat n)) with (Z.to_nat (n + 1)) by lia.
  - intros _. destruct (decide (n + 1 < zlen (logOf (topics b) t p))); [by apply Hsc|].
    assert (wf b' /\ dframe b1 b') as [_ Hdf'].
    { eapply (dispatchLoop_spec k now t g p (n + 1) b1 b' true); [done..|]. by rewrite Hs1, Ht. }
    pose proof (df_committed _ _ Hdf' t g p). lia.
Qed.

(** delivery to a group's only consumer, a simple one whose channel has room: it receives
    every message of the partition from the group's start index on (right after the
    committed offset when the group is new), each once and in offset order, as a first
    attempt; the group's next index is the end of the log and everything is committed. *)
Theorem simple_consumer_served now t g p cs buf b :
  wf b -> streamsOf b t g = [cs] -> cs_Lease cs = 0 ->
  (forall i m, startIndex b t g p <= i -> zlookup (logOf (topics b) t p) i = Some m -> idemKeyOf m = None) ->
  channels b !! cs_Q cs = Some (mkChan buf false) ->
  zlen buf + (zlen (logOf (topics b) t p) - startIndex b t g p) <= chanCap ->
  exists b', dispatchPart now t g p [cs] (logOf (topics b) t p) b = (b', true) /\
    served t g p (cs_Q cs) buf (startIndex b t g p) b b'.
Proof.
  intros Hwf Hs Hl Hks Hc Hb. unfold dispatchPart.
  pose proof (quiet_ensureInFlight t g p b) as Q. set (b1 := ensureInFlight t g p b) in *.
  assert (wf b1) as Hwf1 by eauto with go.
  destruct (initNextIndex_spec t g p b1 Hwf1) as (Hwf2&Hdf2&n&Hn). change (topics b1) with (topics b) in *.
  set (b2 := initNextIndex _ _ _ _ _) in *.
  assert (n = startIndex b t g p) as Hst.
  { unfold startIndex, b2, initNextIndex in *. change (nextIndex b1) with (nextIndex b) in Hn.
    destruct (lookup3 (nextIndex b) t g p) as [n'|] eqn:En; [change (nextIndex b1) with (nextIndex b) in Hn; congruence|].
    simpl in Hn. rewrite lookup3_insert3, decide_True in Hn by done. injection Hn as <-.
    by rewrite (firstAfter_eq t p b). }
  assert (channels b2 = channels b) as Hch by (unfold b2, initNextIndex; by case_match).
  assert (topics b2 = topics b) as Ht by apply (df_topics _ _ Hdf2).
  pose proof (wf_next Hwf2 _ _ _ _ Hn) as Hr. rewrite <- Hst in *.
  destruct (dispatchLoop_simple (length (logOf (topics b2) t p)) now t g p n cs buf b2) as (b'&E&[S1 S2 S3]);
    rewrite ?Hch, ?Ht; try done.
  - unfold streamsOf in *. by rewrite (df_chans _ _ Hdf2).
  - rewrite Ht in Hr. unfold zlen in *. lia.
  - rewrite Ht in *. exists b'. split; [done|]. by split.
Qed.
End dispatch.

(** ** Instances *)
(** A simple consumer has just registered in a group of its own. *)
Definition exS : exBroker := fst (registerStream "orders" "audit" "carol" 0 ex5).
Definition exCarol : consumerStream := mkStream "carol" 0 1 1.
Definition exI : exBroker := initNextIndex "orders" "audit" 1 (logOf (topics exS) "orders" 1) exS.

Lemma wf_exS : wf exS.
Proof.
  apply reachable_wf', (reachable_step ex5); [apply reachable_ex5|].
  apply step_register; [done|done|]. by vm_compute; eexists.
Qed.

Lemma simple_consumer_served_witness :
  exists b', dispatchPart T0 "orders" "audit" 1 [exCarol] (logOf (topics exS) "orders" 1) exS = (b', true) /\
    served "orders" "audit" 1 1 [] 0 exS b' /\ zlen (logOf (topics exS) "orders" 1) = 1.
Proof.
  destruct (simple_consumer_served T0 "orders" "audit" 1 exCarol [] exS wf_exS) as (b'&E&Hs).
  - vm_compute. reflexivity.
  - reflexivity.
  - intros i m Hi Hm. pose proof (zlookup_Some_lt _ _ _ Hm) as Hr. vm_compute in Hr, Hi.
    destruct i as [|i|i]; [|destruct i; destruct Hr as [_ Hr]; discriminate Hr|by destruct Hi].
    vm_compute in Hm. injection Hm as <-. reflexivity.
  - vm_compute. reflexivity.
  - vm_compute. discriminate.
  - exists b'. split; [exact E|]. split; [exact Hs|vm_compute; reflexivity].
Defined.

Lemma dispatchLoop_complete_witness :
  let r := dispatchLoop 1 T0 "orders" "audit" 1 [exCarol] (logOf (topics exI) "orders" 1) exI in
  (exists b1, rtc (iter T0 "orders" "audit" 1 [exCarol] (logOf (topics exI) "orders" 1)) exI b1 /\
     stops T0 "orders" "audit" 1 [exCarol] (logOf (topics exI) "orders" 1) b1 (fst r) (snd r)) /\
  nextIndexOf (fst r) "orders" "audit" 1 = 1.
Proof.
  cbv zeta. split; [|vm_compute; reflexivity].
  destruct (initNextIndex_spec "orders" "audit" 1 exS wf_exS) as (Hwf&_&n&Hn).
  exact (proj1 (dispatchLoop_complete T0 "orders" "audit" 1 n exI 0 Hwf Hn)).
Defined.
