(* ===== verification/Graph.v ===== *)
(** * Workflow graphs (internal/engine/dag.go, spec.go, spec_parse.go, registry.go, and the
    human step of human.go)

    [WorkflowGraph] with its validation, cycle detection and topological order; the
    specification a graph is parsed from, and its compilation against a handler registry.
    Handlers are function values of the caller: the type [F] of a handler is a parameter. *)
From S2P Require Import Prelude Storage.

(** ** Data *)
Record NodeEdge : Type := mkEdge { From : string; To : string }.

#[export] Instance NodeEdge_eq_dec : EqDecision NodeEdge.
Proof. solve_decision. Defined.

Definition HumanStepModeApproval : string := "approval".
Definition HumanStepModeEdit : string := "edit".
Definition HumanTimeoutReject : string := "reject".
Definition HumanTimeoutApprove : string := "approve".
Definition HumanTimeoutCancel : string := "cancel".

Record HumanStepSpec : Type := mkHumanStep {
  hs_Mode : string; hs_Prompt : string; hs_TimeoutMS : Z; hs_OnTimeout : string
}.

Record NodeDef {F : Type} : Type := mkNode {
  NodeID : string;
  nd_Topic : string;
  RequiredCapability : string;
  Human : option HumanStepSpec;
  InputSchema : bytes;
  OutputSchema : bytes;
  nd_Run : option F;
  TimeoutMS : Z
}.
Arguments NodeDef : clear implicits.

Record WorkflowGraph {F : Type} : Type := mkGraph {
  g_ID : string; Nodes : list (NodeDef F); Edges : list NodeEdge; g_TimeoutMS : Z
}.
Arguments WorkflowGraph : clear implicits.

(** [NodeDef{NodeID: id}]. *)
Definition bareNode {F} (id : string) : NodeDef F := mkNode _ id "" "" None [] [] None 0.

Section graph.
Context {F : Type} `{MapOrder}.
Implicit Types g : WorkflowGraph F.

(** ** Validation *)
Fixpoint validateNodes (nodes : list (NodeDef F)) (nodeSet : gset string) : gset string + error :=
  match nodes with
  | [] => inl nodeSet
  | n :: nodes =>
    if decide (NodeID n = "") then inr (ENew "node has empty id")
    else if decide (NodeID n ∈ nodeSet) then inr (ENew ("duplicate node id: " +:+ NodeID n))
    else validateNodes nodes ({[NodeID n]} ∪ nodeSet)
  end.

Fixpoint validateEdges (edges : list NodeEdge) (nodeSet : gset string) : option error :=
  match edges with
  | [] => None
  | e :: edges =>
    if decide (From e ∉ nodeSet) then Some (ENew ("edge references unknown node: " +:+ From e))
    else if decide (To e ∉ nodeSet) then Some (ENew ("edge references unknown node: " +:+ To e))
    else validateEdges edges nodeSet
  end.

(** [m[k] = append(m[k], v)]. *)
Definition appendTo (m : gmap string (list string)) (k v : string) : gmap string (list string) :=
  <[k := default [] (m !! k) ++ [v]]> m.
Definition childrenOf (edges : list NodeEdge) : gmap string (list string) :=
  foldl (fun m e => appendTo m (From e) (To e)) ∅ edges.
Definition parentsOf (edges : list NodeEdge) : gmap string (list string) :=
  foldl (fun m e => appendTo m (To e) (From e)) ∅ edges.

(** ** hasCycle: depth-first search; the state is the maps [visited] and [stack]. *)
Definition dfsState : Type := (gset string * gset string)%type.

(** [for _, x := range l { if dfs(x) { return true } }]. *)
Fixpoint anyDfs (dfs : string -> dfsState -> bool * dfsState) (l : list string) (s : dfsState) :
    bool * dfsState :=
  match l with
  | [] => (false, s)
  | x :: l =>
    match dfs x s with
    | (true, s) => (true, s)
    | (false, s) => anyDfs dfs l s
    end
  end.

(** Nested calls are on nodes not visited before, so the nesting is at most one deeper than
    the number of node names; see [hasCycle_spec]. *)
Fixpoint dfs (fuel : nat) (children : gmap string (list string)) (node : string) (s : dfsState) :
    bool * dfsState :=
  match fuel with
  | O => (true, s)
  | S fuel =>
    if decide (node ∈ s.2) then (true, s)
    else if decide (node ∈ s.1) then (false, s)
    else
      match anyDfs (dfs fuel children) (default [] (children !! node))
              ({[node]} ∪ s.1, {[node]} ∪ s.2) with
      | (true, s) => (true, s)
      | (false, s) => (false, (s.1, s.2 ∖ {[node]}))
      end
  end.

Definition hasCycle g : bool :=
  (anyDfs (dfs (S (length (Nodes g) + length (Edges g))) (childrenOf (Edges g)))
    (NodeID <$> Nodes g) (∅, ∅)).1.

Definition Validate g : option error :=
  match validateNodes (Nodes g) ∅ with
  | inr err => Some err
  | inl nodeSet =>
    match validateEdges (Edges g) nodeSet with
    | Some err => Some err
    | None => if hasCycle g then Some (ENew "workflow graph contains a cycle") else None
    end
  end.

(** ** TopologicalOrder *)
Definition incDegree (m : gmap string Z) (k : string) : gmap string Z :=
  <[k := default 0 (m !! k) + 1]> m.
Definition zeroDegrees (nodes : list (NodeDef F)) : gmap string Z :=
  foldl (fun m n => <[NodeID n := 0]> m) ∅ nodes.
Definition inDegrees g : gmap string Z :=
  foldl (fun m e => incDegree m (To e)) (zeroDegrees (Nodes g)) (Edges g).

(** The loop over the children of a node: the degree goes down, a child without
    unprocessed parents joins the queue. *)
Fixpoint releaseChildren (l : list string) (deg : gmap string Z) (queue : list string) :
    gmap string Z * list string :=
  match l with
  | [] => (deg, queue)
  | child :: l =>
    let d := default 0 (deg !! child) - 1 in
    releaseChildren l (<[child := d]> deg) (if decide (d = 0) then queue ++ [child] else queue)
  end.

Definition findNode (nodes : list (NodeDef F)) (id : string) : option (NodeDef F) :=
  List.find (fun n => bool_decide (NodeID n = id)) nodes.

(** Every node name enters the queue at most once, so as many rounds as there are nodes and
    edges empty it. *)
Fixpoint kahn (fuel : nat) (nodes : list (NodeDef F)) (children : gmap string (list string))
    (queue : list string) (deg : gmap string Z) (ordered : list (NodeDef F)) : list (NodeDef F) :=
  match fuel, queue with
  | S fuel, id :: queue =>
    let ordered := match findNode nodes id with Some n => ordered ++ [n] | None => ordered end in
    let '(deg, queue) := releaseChildren (default [] (children !! id)) deg queue in
    kahn fuel nodes children queue deg ordered
  | _, _ => ordered
  end.

Definition roots (deg : gmap string Z) : list string :=
  filter (fun id => deg !! id = Some 0) (order (dom deg)).

Definition TopologicalOrder g : list (NodeDef F) + error :=
  let deg := inDegrees g in
  let ordered := kahn (length (Nodes g) + length (Edges g)) (Nodes g) (childrenOf (Edges g))
                   (roots deg) deg [] in
  if decide (length ordered <> length (Nodes g))
  then inr (ENew "graph has cycles or disconnected nodes")
  else inl ordered.
End graph.

(** ** Specifications (spec.go, spec_parse.go) *)
Record SpecRetryPolicy : Type := mkSpecRetry { srp_MaxAttempts : Z }.
Record NodeSpec : Type := mkNodeSpec {
  ns_ID : string;
  ns_Topic : string;
  ns_Capability : string;
  ns_Human : option HumanStepSpec;
  ns_Deps : list string;
  ns_Input : bytes;
  ns_Output : bytes;
  ns_Retry : SpecRetryPolicy
}.
Record WorkflowSpec : Type := mkSpec { ws_ID : string; ws_Nodes : list NodeSpec }.

Section spec.
Context {F : Type} `{MapOrder}.

(** The loop over the specified nodes: one bare node each, one edge per dependency. *)
Fixpoint buildGraph (nodes : list NodeSpec) (seen : gset string) (g : WorkflowGraph F) :
    WorkflowGraph F + error :=
  match nodes with
  | [] => inl g
  | ns :: nodes =>
    if decide (ns_ID ns = "") then inr (ENew "node id is required")
    else if decide (ns_ID ns ∈ seen) then inr (ENew ("duplicate node id: " +:+ ns_ID ns))
    else
      buildGraph nodes ({[ns_ID ns]} ∪ seen)
        (mkGraph _ (g_ID g) (Nodes g ++ [bareNode (ns_ID ns)])
           (Edges g ++ ((fun dep => mkEdge dep (ns_ID ns)) <$> ns_Deps ns)) (g_TimeoutMS g))
  end.

Definition graphOfSpec (spec : WorkflowSpec) : WorkflowGraph F + error :=
  if decide (ws_ID spec = "") then inr (ENew "spec id is required")
  else if decide (ws_Nodes spec = []) then inr (ENew "spec must have nodes")
  else
    match buildGraph (ws_Nodes spec) ∅ (mkGraph _ (ws_ID spec) [] [] 0) with
    | inr err => inr err
    | inl g => match Validate g with Some err => inr err | None => inl g end
    end.

(** The JSON decoder is outside the repository. *)
Definition ParseWorkflowSpecJSON (json_decode : bytes -> WorkflowSpec + error) (b : bytes) :
    (WorkflowGraph F * WorkflowSpec) + error :=
  match json_decode b with
  | inr err => inr err
  | inl spec => match graphOfSpec spec with inr err => inr err | inl g => inl (g, spec) end
  end.

(** ** Handler registry (registry.go) *)
Record HandlerRegistry : Type := mkRegistry { byTopic : gmap string F }.
Definition NewHandlerRegistry : HandlerRegistry := mkRegistry ∅.
Definition Register (topic : string) (fn : option F) (r : HandlerRegistry) : HandlerRegistry :=
  match fn with
  | None => r
  | Some fn => if decide (topic = "") then r else mkRegistry (<[topic := fn]> (byTopic r))
  end.
Definition Lookup (topic : string) (r : HandlerRegistry) : option F := byTopic r !! topic.

(** [HumanStepSpec.NormalizeAndValidate] on a non-nil receiver: the normalised step. *)
Definition NormalizeHumanStep (s : HumanStepSpec) : HumanStepSpec + error :=
  let mode := TrimSpace (hs_Mode s) in
  let mode := if decide (mode = "") then HumanStepModeApproval else mode in
  let onTimeout := TrimSpace (hs_OnTimeout s) in
  if decide (mode <> HumanStepModeApproval /\ mode <> HumanStepModeEdit)
  then inr (ENew ("invalid human step mode " +:+ Quote mode))
  else
    let onTimeout := if decide (onTimeout = "") then HumanTimeoutReject else onTimeout in
    if decide (onTimeout <> HumanTimeoutReject /\ onTimeout <> HumanTimeoutApprove /\
               onTimeout <> HumanTimeoutCancel)
    then inr (ENew ("invalid human on_timeout " +:+ Quote onTimeout))
    else inl (mkHumanStep mode (TrimSpace (hs_Prompt s))
                (if hs_TimeoutMS s <? 0 then 0 else hs_TimeoutMS s) onTimeout).

(** The maps by node name: the last node of a name wins. *)
Definition specByNode (nodes : list NodeSpec) : gmap string NodeSpec :=
  foldl (fun m n => <[ns_ID n := n]> m) ∅ nodes.

Definition compileNode (byNode : gmap string NodeSpec) (reg : HandlerRegistry) (nd : NodeDef F) :
    NodeDef F + error :=
  let spec := byNode !! NodeID nd in
  let topic := default "" (ns_Topic <$> spec) in
  let human := spec ≫= ns_Human in
  if decide (topic = "" /\ human = None) then inr (ENew ("node " +:+ NodeID nd +:+ " missing topic"))
  else
    match match human with
          | None => inl None
          | Some h => match NormalizeHumanStep h with inl h => inl (Some h) | inr err => inr err end
          end with
    | inr err =>
      inr (EWrap ("node " +:+ NodeID nd +:+ " invalid human config: " +:+ Error err) err)
    | inl human =>
      let fn := Lookup topic reg in
      if decide (topic <> "" /\ fn = None)
      then inr (ENew ("no handler registered for topic " +:+ Quote topic +:+ " (node " +:+
                      NodeID nd +:+ ")"))
      else
        inl (mkNode _ (NodeID nd) topic (default "" (TrimSpace ∘ ns_Capability <$> spec)) human
               (default [] (ns_Input <$> spec)) (default [] (ns_Output <$> spec))
               (if decide (topic = "") then None else fn) 0)
    end.

Fixpoint compileNodes (byNode : gmap string NodeSpec) (reg : HandlerRegistry)
    (nodes : list (NodeDef F)) : list (NodeDef F) + error :=
  match nodes with
  | [] => inl []
  | nd :: nodes =>
    match compileNode byNode reg nd with
    | inr err => inr err
    | inl n =>
      match compileNodes byNode reg nodes with inr err => inr err | inl ns => inl (n :: ns) end
    end
  end.

Definition CompileSpecToExecutable (spec : WorkflowSpec) (g : WorkflowGraph F)
    (reg : option HandlerRegistry) : WorkflowGraph F + error :=
  match reg with
  | None => inr (ENew "handler registry is required")
  | Some reg =>
    match compileNodes (specByNode (ws_Nodes spec)) reg (Nodes g) with
    | inr err => inr err
    | inl nodes =>
      let out := mkGraph _ (g_ID g) nodes (Edges g) 0 in
      match Validate out with Some err => inr err | None => inl out end
    end
  end.
End spec.
Arguments HandlerRegistry : clear implicits.
