(* ===== verification/GraphSpec.v ===== *)
(** * Workflow graphs are validated and ordered correctly (properties of Graph.v) *)
From stdpp Require Import relations.
From S2P Require Import Prelude Storage Graph.

(** ** The relation a list of edges stands for *)
Definition edge (es : list NodeEdge) : relation string := fun u v => mkEdge u v ∈ es.
Definition cyclic (es : list NodeEdge) : Prop := exists u, tc (edge es) u u.
Definition ids {F} (nodes : list (NodeDef F)) : list string := NodeID <$> nodes.
(** Both ends of every edge are nodes. *)
Definition closedEdges (es : list NodeEdge) (N : list string) : Prop :=
  forall u v, edge es u v -> u ∈ N /\ v ∈ N.
(** [u] comes before [v] in [l]. *)
Definition before (u v : string) (l : list string) : Prop :=
  exists l1 l2 l3, l = l1 ++ u :: l2 ++ v :: l3.

Lemma children_list es u : default [] (childrenOf es !! u) = To <$> filter (fun e => From e = u) es.
Proof.
  unfold childrenOf. induction es as [|e es IH] using rev_ind; [simpl; by rewrite lookup_empty|].
  rewrite foldl_app, filter_app, fmap_app, <- IH. simpl. unfold appendTo at 1. destruct e as [a b].
  rewrite filter_cons, filter_nil. simpl. destruct (decide (a = u)) as [->|Hne].
  - by rewrite lookup_insert_eq.
  - rewrite lookup_insert_ne by done. simpl. by rewrite app_nil_r.
Qed.

Lemma edge_children es u v : v ∈ default [] (childrenOf es !! u) <-> edge es u v.
Proof.
  rewrite children_list, list_elem_of_fmap. unfold edge. setoid_rewrite list_elem_of_filter. split.
  - intros ([a b]&->&Ha&Hin). by simpl in *; subst.
  - intros Hin. by exists (mkEdge u v).
Qed.

(** ** Depth-first search *)
Section dfs.
Context (es : list NodeEdge).
Let E := edge es.
Let ch := childrenOf es.

(** Finished nodes: visited and off the stack. *)
Definition finished (s : dfsState) : gset string := s.1 ∖ s.2.
(** The finished nodes are closed under edges and on no cycle. *)
Definition dfs_inv (s : dfsState) : Prop :=
  s.2 ⊆ s.1 /\ forall v, v ∈ finished s -> ~ tc E v v /\ forall c, E v c -> c ∈ finished s.

Lemma closed_rtc s v w : dfs_inv s -> v ∈ finished s -> rtc E v w -> w ∈ finished s.
Proof. intros [_ Hi] Hv Hr. induction Hr as [|x y z Hxy _ IH]; [done|]. apply IH, (Hi x); done. Qed.

(** What a call that found no cycle leaves behind. *)
Definition dfs_done (xs : list string) (s s' : dfsState) : Prop :=
  dfs_inv s' /\ s'.2 = s.2 /\ s.1 ⊆ s'.1 /\ forall x, x ∈ xs -> x ∈ finished s'.

Context (U : gset string).

Definition dfs_ok (xs : list string) (s : dfsState) (r : bool * dfsState) : Prop :=
  if r.1 then cyclic es else r.2.1 ⊆ U /\ dfs_done xs s r.2.

(** The callers' side: in a good state with [V] visited and the stack above [xs]. *)
Definition dfs_pre (V : gset string) (xs : list string) (s : dfsState) : Prop :=
  dfs_inv s /\ V ⊆ s.1 /\ s.1 ⊆ U /\ forall x y, x ∈ xs -> y ∈ s.2 -> tc E y x.

Lemma anyDfs_spec f V xs s :
  (forall x s, x ∈ xs -> dfs_pre V [x] s -> dfs_ok [x] s (f x s)) ->
  dfs_pre V xs s -> dfs_ok xs s (anyDfs f xs s).
Proof.
  revert s. induction xs as [|x xs IH]; intros s Hf (Hi&HV&HU&Hst); simpl.
  { split; [done|]. split_and!; try done. set_solver. }
  assert (dfs_ok [x] s (f x s)) as Hx by (apply Hf; [|split_and!]; set_solver).
  destruct (f x s) as [[] s1]; [done|]. destruct Hx as (HU1&Hi1&Hs1&Hv1&Hfin1). simpl in *.
  assert (dfs_ok xs s1 (anyDfs f xs s1)) as Hr.
  { apply IH; [intros; apply Hf; set_solver|]. split_and!; [done|set_solver|done|].
    intros y z Hy Hz. apply Hst; set_solver. }
  unfold dfs_ok in *. destruct (anyDfs f xs s1) as [[] s2]; [done|]. simpl in *.
  destruct Hr as (HU2&Hi2&Hs2&Hv2&Hfin2). split; [done|]. split_and!; [done|congruence|set_solver|].
  intros y [->|Hy]%elem_of_cons; [|by apply Hfin2].
  specialize (Hfin1 x). unfold finished in *. rewrite Hs2. set_solver.
Qed.

(** Leaving a node whose children are all finished. *)
Lemma leave_done x s s1 :
  x ∉ s.1 -> s.2 ⊆ s.1 ->
  dfs_done (default [] (ch !! x)) ({[x]} ∪ s.1, {[x]} ∪ s.2) s1 ->
  dfs_done [x] s (s1.1, s1.2 ∖ {[x]}).
Proof.
  intros Hx Hsub ([Hsub1 Hi1]&Hs1&Hv1&Hfin1). simpl in *. unfold dfs_done, finished in *. simpl.
  assert (x ∈ s1.1) as Hxv by set_solver.
  assert (forall v, v ∈ s1.1 ∖ s1.2 -> v ∈ s1.1 ∖ (s1.2 ∖ {[x]})) as Hmono by set_solver.
  assert (forall c, E x c -> c ∈ s1.1 ∖ s1.2) as Hch by (intros c Hc; by apply Hfin1, edge_children).
  split_and!; [|set_solver|set_solver|set_solver].
  split; simpl; [set_solver|]. intros v Hv. unfold finished in *. simpl in *.
  destruct (decide (v = x)) as [->|Hne].
  - split; [|auto]. intros Hc.
    assert (exists c, E x c /\ rtc E c x) as (c&Hxc&Hcx).
    { inversion Hc as [? ? Hone|? y ? Hone Htl]; subst.
      - exists x. split; [done|apply rtc_refl].
      - exists y. split; [done|]. by apply tc_rtc. }
    assert (x ∈ finished s1) as Hin by (eapply (closed_rtc s1 c); [by split|by apply Hch|done]).
    unfold finished in Hin. set_solver.
  - destruct (Hi1 v) as [Hc Hcl]; [set_solver|]. split; [done|]. intros c Hvc. apply Hmono. by apply Hcl.
Qed.

Context (U_closed : forall u v, E u v -> v ∈ U).

Lemma dfs_spec fuel x s :
  (size (U ∖ s.1) < fuel)%nat -> x ∈ U -> dfs_pre s.1 [x] s -> dfs_ok [x] s (dfs fuel ch x s).
Proof using U_closed.
  revert x s. induction fuel as [|fuel IH]; intros x s Hn HxU (Hi&_&HU&Hst); [lia|].
  simpl. case_decide as Hs2. { exists x. apply Hst; [set_solver|done]. }
  case_decide as Hs1.
  { split; [done|]. split_and!; try done.
    intros y ->%list_elem_of_singleton. unfold finished. set_solver. }
  set (s0 := ({[x]} ∪ s.1, {[x]} ∪ s.2)). set (k := default [] (ch !! x)).
  assert (size (U ∖ s0.1) < size (U ∖ s.1))%nat as Hlt.
  { apply subset_size. simpl. split; [set_solver|]. intros Hsub. specialize (Hsub x). set_solver. }
  assert (forall c, c ∈ k -> E x c) as Hk by (intros c; apply edge_children).
  assert (dfs_ok k s0 (anyDfs (dfs fuel ch) k s0)) as Hr.
  { apply (anyDfs_spec _ s0.1).
    - intros c s' Hc (Hi'&HV'&HU'&Hst'). apply IH; [|by eapply U_closed, Hk|by split_and!].
      assert (size (U ∖ s'.1) <= size (U ∖ s0.1))%nat by (apply subseteq_size; set_solver). lia.
    - split_and!; [|done|set_solver|].
      + destruct Hi as [Hsub Hi]. split; simpl; [set_solver|]. intros v Hv.
        unfold finished in *. simpl in Hv. destruct (Hi v) as [Hc Hcl]; [set_solver|].
        split; [done|]. intros c Hvc. specialize (Hcl c Hvc). simpl. set_solver.
      + intros c y Hc Hy. simpl in Hy. apply elem_of_union in Hy as [->%elem_of_singleton|Hy].
        * by apply tc_once, Hk.
        * eapply tc_r; [apply (Hst x y); [set_solver|done]|by apply Hk]. }
  unfold dfs_ok in *. destruct (anyDfs (dfs fuel ch) k s0) as [[] s1]; [done|]. simpl in *.
  destruct Hr as [HU1 Hd]. split; [done|]. apply leave_done; [done|apply Hi|done].
Qed.
End dfs.

Section graph.
Context {F : Type} `{MapOrder}.
Implicit Types g : WorkflowGraph F.

Lemma size_list_le (l : list string) : (size (list_to_set l : gset string) <= length l)%nat.
Proof.
  induction l as [|x l IH]; [done|]. rewrite list_to_set_cons, size_union_alt, size_singleton. simpl.
  pose proof (subseteq_size (list_to_set l ∖ {[x]} : gset string) (list_to_set l)) as Hs.
  ospecialize (Hs _); [set_solver|]. lia.
Qed.

Lemma closed_no_cycle_outside es N u : closedEdges es N -> tc (edge es) u u -> u ∈ N.
Proof.
  intros Hc Ht. assert (exists v, edge es u v) as [v Hv] by (inversion Ht; eauto).
  by apply (Hc u v).
Qed.

Lemma hasCycle_spec g :
  closedEdges (Edges g) (ids (Nodes g)) -> hasCycle g = true <-> cyclic (Edges g).
Proof.
  intros Hc. set (U := list_to_set (ids (Nodes g)) : gset string).
  assert (forall u v, edge (Edges g) u v -> v ∈ U) as HU.
  { intros u v Huv. apply elem_of_list_to_set. by apply (Hc u v). }
  assert (size U <= length (Nodes g))%nat as Hsz.
  { unfold U. rewrite <- (length_fmap NodeID (Nodes g)). apply size_list_le. }
  assert (dfs_ok (Edges g) U (ids (Nodes g)) (∅, ∅)
    (anyDfs (dfs (S (length (Nodes g) + length (Edges g))) (childrenOf (Edges g))) (ids (Nodes g)) (∅, ∅))) as Hr.
  { apply (anyDfs_spec _ _ _ ∅).
    - intros x s Hx (Hi&_&HUs&Hst). apply dfs_spec; [done| | |by split_and!].
      + assert (size (U ∖ s.1) <= size U)%nat by (apply subseteq_size; set_solver). lia.
      + by apply elem_of_list_to_set.
    - split_and!; [|done|set_solver|set_solver]. split; [set_solver|]. unfold finished. set_solver. }
  unfold hasCycle. fold (ids (Nodes g)). destruct (anyDfs _ _ _) as [[] s]; [by unfold dfs_ok in Hr|].
  simpl in *. split; [done|]. intros [u Hu]. destruct Hr as (_&[_ Hi]&_&_&Hfin).
  exfalso. apply (Hi u); [|done]. apply Hfin. by eapply closed_no_cycle_outside.
Qed.

Lemma validateNodes_spec nodes S :
  match validateNodes (F:=F) nodes S with
  | inl S' => NoDup (ids nodes) /\ ~ ("" ∈ ids nodes) /\ (forall x, x ∈ ids nodes -> x ∉ S) /\
              S' = list_to_set (ids nodes) ∪ S
  | inr _ => ~ (NoDup (ids nodes) /\ ~ ("" ∈ ids nodes) /\ forall x, x ∈ ids nodes -> x ∉ S)
  end.
Proof.
  revert S. induction nodes as [|n nodes IH]; intros S; simpl.
  { split_and!; [constructor|set_solver|set_solver|set_solver]. }
  case_decide as H1. { rewrite H1. set_solver. }
  case_decide as H2. { intros (_&_&Hd). apply (Hd (NodeID n)); set_solver. }
  specialize (IH ({[NodeID n]} ∪ S)). destruct (validateNodes nodes _) as [S'|err].
  - destruct IH as (Hnd&He&Hd&->). split_and!; [|set_solver|set_solver|set_solver].
    constructor; [|done]. intros Hin. specialize (Hd _ Hin). set_solver.
  - intros (Hnd&He&Hd). apply IH. apply NoDup_cons in Hnd as [Hni Hnd]. split_and!; [done|set_solver|].
    intros x Hx. specialize (Hd x). set_solver.
Qed.

Lemma validateEdges_spec es (S : gset string) :
  validateEdges es S = None <-> forall u v, edge es u v -> u ∈ S /\ v ∈ S.
Proof.
  unfold edge. induction es as [|[a b] es IH]; simpl.
  { split; [intros _ u v Huv; set_solver|done]. }
  case_decide as H1. { split; [done|]. intros He. destruct (He a b); [by left|done]. }
  case_decide as H2. { split; [done|]. intros He. destruct (He a b); [by left|done]. }
  rewrite IH. split; intros He u v; [|intros; apply He; by right].
  intros [[= -> ->]|Huv]%elem_of_cons; [|by apply He]. done.
Qed.

(** A valid workflow: distinct non-empty node names, edges between them, no cycle. *)
Definition valid g : Prop :=
  NoDup (ids (Nodes g)) /\ ~ ("" ∈ ids (Nodes g)) /\ closedEdges (Edges g) (ids (Nodes g)) /\
  ~ cyclic (Edges g).

Lemma Validate_valid g : Validate g = None <-> valid g.
Proof.
  unfold Validate, valid. pose proof (validateNodes_spec (Nodes g) ∅) as Hn.
  destruct (validateNodes (Nodes g) ∅) as [S|err].
  2: { split; [done|]. intros (H1&H2&_). exfalso. apply Hn. split_and!; [done|done|set_solver]. }
  destruct Hn as (Hnd&Hne&_&->). rewrite union_empty_r_L.
  pose proof (validateEdges_spec (Edges g) (list_to_set (ids (Nodes g)))) as He.
  assert (validateEdges (Edges g) (list_to_set (ids (Nodes g))) = None <->
    closedEdges (Edges g) (ids (Nodes g))) as He'.
  { rewrite He. unfold closedEdges. by setoid_rewrite elem_of_list_to_set. }
  destruct (validateEdges _ _) as [err|].
  { split; [done|]. intros (_&_&Hc&_). by apply He' in Hc. }
  assert (closedEdges (Edges g) (ids (Nodes g))) as Hc by by apply He'.
  pose proof (hasCycle_spec g Hc) as Hcy. destruct (hasCycle g).
  - split; [done|]. intros (_&_&_&Hn). exfalso. by apply Hn, Hcy.
  - split; [|done]. intros _. split_and!; [done..|]. intros Hn. by apply Hcy in Hn.
Qed.

(** validation is exact: a graph is accepted if and only if its node names are distinct
    and non-empty, its edges join nodes, and no node can reach itself along edges. *)
Theorem Validate_exact g : Validate g = None <-> valid g.
Proof. apply Validate_valid. Qed.
End graph.

(** ** Kahn's algorithm *)
Definition degree (deg : gmap string Z) (v : string) : Z := default 0 (deg !! v).
Definition count (v : string) (l : list string) : Z := zlen (filter (fun x => x = v) l).
(** The edges into [v] from nodes not processed yet. *)
Definition pending (es : list NodeEdge) (P : list string) (v : string) : Z :=
  zlen (filter (fun e => To e = v /\ From e ∉ P) es).

Lemma count_cons v x l : count v (x :: l) = (if decide (x = v) then 1 else 0) + count v l.
Proof. unfold count, zlen. rewrite filter_cons. case_decide; simpl; lia. Qed.
Lemma count_nonneg v l : 0 <= count v l.
Proof. apply zlen_nonneg. Qed.
Lemma count_0 v l : v ∉ l -> count v l = 0.
Proof.
  induction l as [|x l IH]; [done|]. intros Hv. rewrite count_cons, IH by set_solver.
  case_decide; [set_solver|done].
Qed.
Lemma count_pos v l : v ∈ l -> 0 < count v l.
Proof.
  induction l as [|x l IH]; [set_solver|]. rewrite count_cons. pose proof (count_nonneg v l).
  case_decide; [lia|]. intros [->|Hv]%elem_of_cons; [done|]. specialize (IH Hv). lia.
Qed.
Lemma degree_insert deg x d v : degree (<[x := d]> deg) v = if decide (x = v) then d else degree deg v.
Proof. unfold degree. case_decide; subst; [by rewrite lookup_insert_eq|by rewrite lookup_insert_ne]. Qed.

Lemma releaseChildren_spec l deg queue :
  (forall v, count v l <= degree deg v) ->
  exists new, (releaseChildren l deg queue).2 = queue ++ new /\ NoDup new /\
    (forall v, v ∈ new <-> v ∈ l /\ degree deg v = count v l) /\
    forall v, degree (releaseChildren l deg queue).1 v = degree deg v - count v l.
Proof.
  revert deg queue. induction l as [|x l IH]; intros deg queue Hle; simpl.
  { exists []. rewrite app_nil_r. split_and!; [done|constructor|set_solver|]. intros. unfold count, zlen. simpl. lia. }
  fold (degree deg x). set (d := degree deg x - 1). set (deg1 := <[x := d]> deg).
  assert (forall v, degree deg1 v = degree deg v - (if decide (x = v) then 1 else 0)) as H1.
  { intros v. unfold deg1. rewrite degree_insert. case_decide; subst; unfold d; lia. }
  assert (forall v, count v l <= degree deg1 v) as Hle1.
  { intros v. specialize (Hle v). rewrite count_cons in Hle. rewrite H1. lia. }
  destruct (IH deg1 (if decide (d = 0) then queue ++ [x] else queue) Hle1) as (new&Hq&Hnd&Hin&Hdeg).
  rewrite Hq. setoid_rewrite Hdeg. setoid_rewrite H1. setoid_rewrite count_cons.
  assert (d = 0 -> x ∉ l) as Hxl.
  { intros Hd Hx. apply count_pos in Hx. specialize (Hle1 x). rewrite H1, decide_True in Hle1 by done. lia. }
  exists ((if decide (d = 0) then [x] else []) ++ new). split_and!; [| | |intros; lia].
  - case_decide; [by rewrite <- app_assoc|done].
  - case_decide; [|done]. simpl. constructor; [|done]. rewrite Hin. intros [Hx _]. by apply Hxl.
  - intros v. rewrite elem_of_app, elem_of_cons, Hin, H1. pose proof (count_nonneg v l) as Hnn.
    assert (d = degree deg x - 1) as Hd0 by done.
    destruct (decide (x = v)) as [<-|Hne].
    + specialize (Hle1 x). rewrite H1, decide_True in Hle1 by done. case_decide as Hd.
      * split; [|intros _; left; by left]. intros _. split; [by left|lia].
      * split; [intros [Hx|[? ?]]; [by inversion Hx|split; [by left|lia]]|].
        intros [_ Hx]. right. split; [|lia]. destruct (decide (x ∈ l)) as [|Hn]; [done|].
        apply count_0 in Hn. lia.
    + assert (v ∈ (if decide (d = 0) then [x] else []) <-> False) as -> by (case_decide; set_solver).
      split; [intros [[]|[? ?]]; split; [by right|lia]|]. intros [[->|?] ?]; [done|]. right. split; [done|lia].
Qed.

(** ** A finite set in which everyone has a predecessor holds a cycle *)
Lemma not_NoDup_split (l : list string) :
  ~ NoDup l -> exists x l1 l2 l3, l = l1 ++ x :: l2 ++ x :: l3.
Proof.
  induction l as [|x l IH]; intros Hn; [destruct Hn; constructor|].
  destruct (decide (x ∈ l)) as [(l2&l3&->)%list_elem_of_split|Hx]; [by exists x, [], l2, l3|].
  destruct IH as (y&l1&l2&l3&->); [by intros ?; apply Hn; constructor|]. by exists y, (x :: l1), l2, l3.
Qed.

Lemma chain_cycle es l : Sorted (edge es) l -> ~ NoDup l -> cyclic es.
Proof.
  intros Hs (x&l1&l2&l3&->)%not_NoDup_split. exists x.
  assert (Sorted (tc (edge es)) (l1 ++ x :: l2 ++ x :: l3)) as Ht.
  { induction Hs as [|y l _ IH Hd]; constructor; [done|]. destruct Hd; constructor. by apply tc_once. }
  apply Sorted_StronglySorted in Ht; [|intros ???; apply tc_transitive]. clear Hs.
  induction l1 as [|y l1 IH]; simpl in Ht; inversion Ht as [|? ? Hss Hall]; subst; [|by apply IH].
  rewrite Forall_forall in Hall. apply Hall. set_solver.
Qed.

Lemma cycle_of_preds es (Q : string -> Prop) (N : list string) v :
  (forall v, Q v -> exists u, Q u /\ edge es u v) -> (forall v, Q v -> v ∈ N) -> Q v -> cyclic es.
Proof.
  intros Hp HN Hv.
  assert (forall k, exists l, length l = S k /\ Sorted (edge es) l /\ Forall Q l) as Hk.
  { induction k as [|k (l&Hl&Hs&HQ)]; [by exists [v]; repeat constructor|].
    destruct l as [|x l]; [done|]. inversion HQ as [|? ? HQx HQl]; subst.
    destruct (Hp x HQx) as (u&Hu&Hux). exists (u :: x :: l). simpl in *. split_and!; [lia| |by constructor].
    constructor; [done|by constructor]. }
  destruct (Hk (length N)) as (l&Hl&Hs&HQ). apply (chain_cycle es l); [done|]. intros Hnd.
  assert (l ⊆+ N) as Hsub.
  { apply NoDup_submseteq; [done|]. intros x Hx. rewrite Forall_forall in HQ. by apply HN, HQ. }
  apply submseteq_length in Hsub. lia.
Qed.

(** ** Degrees *)
Lemma pending_cons a b es P v :
  pending (mkEdge a b :: es) P v = (if decide (b = v /\ a ∉ P) then 1 else 0) + pending es P v.
Proof. unfold pending, zlen. rewrite filter_cons. simpl. case_decide; simpl; lia. Qed.

Lemma pending_snoc es P x v :
  x ∉ P -> pending es P v = pending es (P ++ [x]) v + count v (To <$> filter (fun e => From e = x) es).
Proof.
  intros Hx. induction es as [|[a b] es IH]; [done|]. rewrite !pending_cons, filter_cons. simpl.
  destruct (decide (a = x)) as [->|Hne]; rewrite ?fmap_cons, ?count_cons; simpl.
  - rewrite (decide_False (P := b = v /\ x ∉ P ++ [x])) by set_solver.
    destruct (decide (b = v)) as [->|]; [rewrite decide_True by done|rewrite decide_False by naive_solver]; lia.
  - destruct (decide (b = v /\ a ∉ P)) as [[-> Ha]|Hn].
    + rewrite decide_True by set_solver. lia.
    + rewrite decide_False by set_solver. lia.
Qed.

Lemma pending_pos es P v : pending es P v <> 0 -> exists u, (u ∉ P) /\ edge es u v.
Proof.
  unfold pending. destruct (filter _ es) as [|[a b] l] eqn:E; [done|]. intros _.
  assert (mkEdge a b ∈ filter (fun e => To e = v /\ From e ∉ P) es) as Hin by (rewrite E; left).
  apply list_elem_of_filter in Hin as [[<- Ha] Hin]. by exists a.
Qed.

Lemma pending_0 es P u v : pending es P v = 0 -> edge es u v -> u ∈ P.
Proof.
  intros Hp Hin. destruct (decide (u ∈ P)) as [|Hn]; [done|]. exfalso. unfold pending, zlen in Hp.
  assert (mkEdge u v ∈ filter (fun e => To e = v /\ From e ∉ P) es) as Hf by by apply list_elem_of_filter.
  destruct (filter _ es); [by apply not_elem_of_nil in Hf|simpl in Hp; lia].
Qed.

Lemma zeroDegrees_lookup {F} (nodes : list (NodeDef F)) v :
  zeroDegrees nodes !! v = if decide (v ∈ ids nodes) then Some 0 else None.
Proof.
  unfold zeroDegrees. induction nodes as [|n nodes IH] using rev_ind; [done|].
  rewrite foldl_app. simpl. unfold ids in *. rewrite fmap_app. simpl.
  destruct (decide (NodeID n = v)) as [<-|Hne].
  - by rewrite lookup_insert_eq, decide_True by set_solver.
  - rewrite lookup_insert_ne, IH by done. repeat case_decide; try done; set_solver.
Qed.

Lemma incDegrees_degree es m v :
  degree (foldl (fun m e => incDegree m (To e)) m es) v = degree m v + pending es [] v.
Proof.
  revert m. induction es as [|[a b] es IH]; intros m; simpl; [by unfold pending, zlen; simpl; lia|].
  rewrite IH, pending_cons. unfold incDegree. rewrite degree_insert. fold (degree m b).
  repeat case_decide; subst; try lia; set_solver.
Qed.

Lemma incDegrees_dom es m v :
  is_Some (foldl (fun m e => incDegree m (To e)) m es !! v) <-> is_Some (m !! v) \/ exists u, edge es u v.
Proof.
  unfold edge. revert m. induction es as [|[a b] es IH]; intros m; simpl.
  { split; [by left|]. intros [?|(u&Hu)]; [done|]. by apply not_elem_of_nil in Hu. }
  rewrite IH. unfold incDegree. destruct (decide (b = v)) as [->|Hne].
  - rewrite lookup_insert_eq. split; [|by intros _; left; eexists]. intros _. right. exists a. left.
  - rewrite lookup_insert_ne by done. setoid_rewrite elem_of_cons. naive_solver.
Qed.

(** ** The loop of [TopologicalOrder] *)
Section kahn.
Context {F : Type} `{MapOrder} (nodes : list (NodeDef F)) (es : list NodeEdge).
Let N := ids nodes.
Context (es_closed : closedEdges es N).

(** Every node of [P] comes after all its predecessors. *)
Definition topo (P : list string) : Prop :=
  forall P1 v P2, P = P1 ++ v :: P2 -> forall u, edge es u v -> u ∈ P1.

(** [P] is processed, [q] the queue, [deg] counts the unprocessed predecessors. *)
Record kinv (P q : list string) (deg : gmap string Z) : Prop := {
  k_nodup : NoDup (P ++ q);
  k_nodes : forall x, x ∈ P ++ q -> x ∈ N;
  k_degree : forall v, degree deg v = pending es P v;
  k_ready : forall v, v ∈ N -> degree deg v = 0 -> v ∈ P ++ q;
  k_free : forall v, v ∈ P ++ q -> degree deg v = 0;
  k_topo : topo P
}.

Lemma topo_snoc P x : topo P -> pending es P x = 0 -> topo (P ++ [x]).
Proof.
  intros Ht Hx P1 v P2 HP u Huv. destruct P2 as [|y P2 _] using rev_ind.
  - apply app_inj_tail in HP as [-> ->]. by eapply pending_0.
  - rewrite app_comm_cons, app_assoc in HP. apply app_inj_tail in HP as [-> _]. by eapply Ht.
Qed.

Lemma kinv_step P x q deg :
  kinv P (x :: q) deg ->
  let r := releaseChildren (default [] (childrenOf es !! x)) deg q in kinv (P ++ [x]) r.2 r.1.
Proof using es_closed.
  intros [Hnd HN Hdeg Hrdy Hfree Ht]. rewrite children_list.
  set (l := To <$> filter (fun e => From e = x) es). intros r.
  assert (x ∉ P) as HxP.
  { apply NoDup_app in Hnd as (_&Hd&_). intros Hx. apply (Hd x Hx). left. }
  assert (forall v, degree deg v = pending es (P ++ [x]) v + count v l) as Hsn.
  { intros v. rewrite Hdeg. by apply pending_snoc. }
  assert (forall v, 0 <= pending es (P ++ [x]) v) as Hnn by (intros; apply zlen_nonneg).
  assert (forall v, v ∈ l -> v ∈ N) as HlN.
  { intros v ([a b]&->&[_ Hin]%list_elem_of_filter)%list_elem_of_fmap. by apply (es_closed a b). }
  destruct (releaseChildren_spec l deg q) as (new&Hq&Hnew&Hin&Hdeg'). { intros v. rewrite Hsn. specialize (Hnn v). lia. }
  fold r in Hq, Hdeg'. rewrite Hq.
  assert (Permutation ((P ++ [x]) ++ q ++ new) ((P ++ x :: q) ++ new)) as Hperm.
  { by rewrite <- !app_assoc. }
  assert (forall v, v ∈ new -> ~ v ∈ P ++ x :: q) as Hdis.
  { intros v [Hvl Hvc]%Hin Hv. apply Hfree in Hv. apply count_pos in Hvl. lia. }
  constructor.
  - rewrite Hperm. apply NoDup_app. split_and!; [done| |done]. intros v Hv Hvn. by apply (Hdis v).
  - intros v. rewrite Hperm, elem_of_app. intros [Hv|[Hv _]%Hin]; auto.
  - intros v. rewrite Hdeg', Hsn. lia.
  - intros v Hv. rewrite Hdeg'. intros H0. rewrite Hperm, elem_of_app.
    destruct (decide (degree deg v = 0)) as [|Hne]; [left; by apply Hrdy|]. right. apply Hin. split; [|lia].
    destruct (decide (v ∈ l)) as [|Hn]; [done|]. apply count_0 in Hn. lia.
  - intros v. rewrite Hperm, elem_of_app, Hdeg'. intros [Hv|[_ Hv]%Hin]; [|lia].
    apply Hfree in Hv. specialize (Hnn v). pose proof (count_nonneg v l). rewrite Hsn in Hv. rewrite Hsn. lia.
  - apply topo_snoc; [done|]. rewrite <- Hdeg. apply Hfree. set_solver.
Qed.

Lemma findNode_Some x : x ∈ N -> exists n, findNode nodes x = Some n /\ NodeID n = x /\ n ∈ nodes.
Proof.
  intros (n&->&Hn)%list_elem_of_fmap. unfold findNode.
  destruct (List.find _ nodes) as [n'|] eqn:E.
  - apply find_some in E as [Hin Hb]. apply bool_decide_eq_true in Hb. exists n'.
    split_and!; [done..|by apply list_elem_of_In].
  - eapply find_none in E; [|by apply list_elem_of_In]. by rewrite bool_decide_eq_true_2 in E.
Qed.

Lemma kinv_length P q deg : kinv P q deg -> (length P + length q <= length nodes)%nat.
Proof.
  intros [Hnd HN _ _ _ _]. rewrite <- length_app.
  assert (P ++ q ⊆+ N) as Hs%submseteq_length by by apply NoDup_submseteq.
  unfold N, ids in Hs. by rewrite length_fmap in Hs.
Qed.

Lemma kahn_spec fuel q deg ordered :
  kinv (ids ordered) q deg -> (forall n, n ∈ ordered -> n ∈ nodes) ->
  (length nodes <= fuel + length ordered)%nat ->
  let r := kahn fuel nodes (childrenOf es) q deg ordered in
  (forall n, n ∈ r -> n ∈ nodes) /\ exists deg', kinv (ids r) [] deg'.
Proof using es_closed.
  revert q deg ordered. induction fuel as [|fuel IH]; intros q deg ordered Hk Hsub Hfuel; simpl.
  - split; [done|]. exists deg. apply kinv_length in Hk as Hl. unfold ids in Hl. rewrite length_fmap in Hl.
    destruct q; [done|simpl in Hl; lia].
  - destruct q as [|x q]; [by split; [|eexists]|].
    destruct (findNode_Some x) as (n&->&Hn&Hin). { apply (k_nodes _ _ _ Hk). set_solver. }
    pose proof (kinv_step _ _ _ _ Hk) as Hk'. destruct (releaseChildren _ deg q) as [deg' q']. simpl in Hk'.
    apply IH; [|set_solver|rewrite length_app; simpl; lia]. unfold ids. rewrite fmap_app. simpl. by rewrite Hn.
Qed.

(** When nothing is left in the queue, all nodes are processed or there is a cycle. *)
Lemma kinv_stuck P deg : kinv P [] deg -> (exists v, v ∈ N /\ v ∉ P) -> cyclic es.
Proof using es_closed.
  intros [_ _ Hdeg Hrdy _ _] (v&HvN&HvP).
  apply (cycle_of_preds es (fun v => v ∈ N /\ v ∉ P) N v); [|by intros ? []|done].
  intros w [HwN HwP]. destruct (pending_pos es P w) as (u&Hu&Huw).
  - rewrite <- Hdeg. intros H0. apply Hrdy in H0; [|done]. by rewrite app_nil_r in H0.
  - exists u. split; [|done]. split; [by apply (es_closed u w)|done].
Qed.
End kahn.

Section order.
Context {F : Type} `{MapOrder}.
Implicit Types g : WorkflowGraph F.

Lemma topo_tc es P : topo es P -> forall P1 u v P2, P = P1 ++ v :: P2 -> tc (edge es) u v -> u ∈ P1.
Proof.
  intros Ht P1 u v P2 HP Huv. revert P1 P2 HP.
  induction Huv as [u v Huv|u w v Huw _ IH]; intros P1 P2 HP; [by eapply Ht|].
  pose proof (IH _ _ HP) as (Q1&Q2&->)%list_elem_of_split. rewrite <- app_assoc in HP. simpl in HP.
  assert (u ∈ Q1) by by eapply Ht. set_solver.
Qed.

Lemma tc_last {A} (R : relation A) x y : tc R x y -> exists z, R z y.
Proof. induction 1; eauto. Qed.

Lemma kinv_init g :
  closedEdges (Edges g) (ids (Nodes g)) ->
  kinv (Nodes g) (Edges g) [] (roots (inDegrees g)) (inDegrees g).
Proof.
  intros Hc. set (deg := inDegrees g).
  assert (forall v, degree deg v = pending (Edges g) [] v) as Hdeg.
  { intros v. unfold deg, inDegrees. rewrite incDegrees_degree. unfold degree. rewrite zeroDegrees_lookup.
    by case_decide. }
  assert (forall v, is_Some (deg !! v) <-> v ∈ ids (Nodes g)) as Hdom.
  { intros v. unfold deg, inDegrees. rewrite incDegrees_dom, zeroDegrees_lookup. split.
    - intros [Hs|(u&Hu)]; [by case_decide; [|destruct Hs]|]. by apply (Hc u v).
    - intros Hv. left. rewrite decide_True by done. by eexists. }
  assert (forall v, v ∈ roots deg <-> deg !! v = Some 0) as Hroots.
  { intros v. unfold roots. rewrite list_elem_of_filter, order_perm, elem_of_elements, elem_of_dom.
    split; [by intros []|]. intros E. split; [done|by eexists]. }
  constructor; simpl.
  - apply NoDup_filter. rewrite order_perm. apply NoDup_elements.
  - intros x Hx%Hroots. apply Hdom. by eexists.
  - done.
  - intros v [d Hd]%Hdom. unfold degree. rewrite Hd. simpl. intros ->. by apply Hroots.
  - intros v Hv%Hroots. unfold degree. by rewrite Hv.
  - intros P1 v P2 HP. by destruct P1.
Qed.

(** Kahn's algorithm, on a graph with distinct node names and edges between nodes: in
    whatever order the map of degrees is visited, the result is a permutation of the nodes
    in which the source of every edge comes before its target; an error is returned only
    when some node can reach itself. *)
Theorem TopologicalOrder_correct g :
  NoDup (ids (Nodes g)) -> closedEdges (Edges g) (ids (Nodes g)) ->
  match TopologicalOrder g with
  | inl l => l ≡ₚ Nodes g /\ (forall e, e ∈ Edges g -> before (From e) (To e) (ids l)) /\
             ~ cyclic (Edges g)
  | inr _ => cyclic (Edges g)
  end.
Proof.
  intros Hnd Hc. pose proof (kinv_init g Hc) as Hk.
  destruct (kahn_spec (Nodes g) (Edges g) Hc (length (Nodes g) + length (Edges g)) _ _ [] Hk)
    as (Hsub&deg'&Hk'); [by intros ? ?%not_elem_of_nil|simpl; lia|].
  unfold TopologicalOrder. set (r := kahn _ _ _ _ _ _) in *. clearbody r. case_decide as Hl.
  - apply (kinv_stuck (Nodes g) (Edges g) Hc (ids r) deg' Hk').
    assert (~ ids (Nodes g) ⊆ ids r) as Hns.
    { intros Hs. apply NoDup_submseteq in Hs; [|done]. apply submseteq_length in Hs.
      apply kinv_length in Hk'. unfold ids in *. rewrite !length_fmap in *. lia. }
    destruct (decide (Exists (fun v => v ∉ ids r) (ids (Nodes g)))) as [He|Hn].
    { apply Exists_exists in He as (v&Hv&Hv'). by exists v. }
    exfalso. apply Hns. intros v Hv. destruct (decide (v ∈ ids r)) as [|Hv']; [done|].
    exfalso. apply Hn, Exists_exists. by exists v.
  - pose proof (k_nodup _ _ _ _ _ Hk') as Hndr. rewrite app_nil_r in Hndr.
    assert (r ≡ₚ Nodes g) as Hp.
    { apply submseteq_length_Permutation; [|lia]. apply NoDup_submseteq; [|done].
      by apply (NoDup_fmap_1 NodeID). }
    assert (forall u v, edge (Edges g) u v -> v ∈ ids r) as Hin.
    { intros u v Huv. unfold ids. rewrite Hp. by apply (Hc u v). }
    split_and!; [done| |].
    + intros [u v] Huv. destruct (list_elem_of_split (ids r) v) as (P1&P2&HP); [by eapply Hin|].
      pose proof (k_topo _ _ _ _ _ Hk' P1 v P2 HP u Huv) as (l1&l2&->)%list_elem_of_split.
      exists l1, l2, P2. by rewrite HP, <- app_assoc.
    + intros [u Hu]. assert (exists w, edge (Edges g) w u) as [w Hw].
      { by apply tc_last in Hu. }
      destruct (list_elem_of_split (ids r) u) as (P1&P2&HP); [by eapply Hin|].
      pose proof (topo_tc _ _ (k_topo _ _ _ _ _ Hk') P1 u u P2 HP Hu) as HuP. rewrite HP in Hndr.
      apply NoDup_app in Hndr as (_&Hd&_). apply (Hd u HuP). left.
Qed.
End order.

(** ** From a specification to an executable graph *)
Section spec.
Context {F : Type} `{MapOrder}.
Implicit Types g : WorkflowGraph F.

(** A node the runner can run: a registered handler for its topic, or a human step whose mode
    and timeout action are known. *)
Definition human_ok (h : HumanStepSpec) : Prop :=
  hs_Mode h ∈ [HumanStepModeApproval; HumanStepModeEdit] /\
  hs_OnTimeout h ∈ [HumanTimeoutReject; HumanTimeoutApprove; HumanTimeoutCancel] /\ 0 <= hs_TimeoutMS h.
Definition executable (reg : HandlerRegistry F) (n : NodeDef F) : Prop :=
  (if decide (nd_Topic n = "") then nd_Run n = None /\ is_Some (Human n)
   else is_Some (nd_Run n) /\ nd_Run n = Lookup (nd_Topic n) reg) /\
  forall h, Human n = Some h -> human_ok h.

Lemma NormalizeHumanStep_ok s h : NormalizeHumanStep s = inl h -> human_ok h.
Proof.
  unfold NormalizeHumanStep, human_ok.
  set (mode := if decide (TrimSpace (hs_Mode s) = "") then _ else _).
  set (tmo := if decide (TrimSpace (hs_OnTimeout s) = "") then _ else _).
  case_decide as Hm; [done|]. case_decide as Ht; [done|]. intros [= <-]. simpl. split_and!.
  - destruct (decide (mode = HumanStepModeApproval)) as [->|]; [left|].
    destruct (decide (mode = HumanStepModeEdit)) as [->|]; [right; left|by destruct Hm].
  - destruct (decide (tmo = HumanTimeoutReject)) as [->|]; [left|].
    destruct (decide (tmo = HumanTimeoutApprove)) as [->|]; [right; left|].
    destruct (decide (tmo = HumanTimeoutCancel)) as [->|]; [right; right; left|by destruct Ht].
  - case_match; lia.
Qed.

Lemma compileNode_ok byNode reg nd n :
  compileNode byNode reg nd = inl n -> NodeID n = NodeID nd /\ executable reg n.
Proof.
  unfold compileNode. set (topic := default "" _). case_decide as Ht; [done|].
  set (hum := match byNode !! NodeID nd ≫= ns_Human with Some h => _ | None => _ end).
  assert (match hum with
          | inl (Some h) => human_ok h
          | inl None => byNode !! NodeID nd ≫= ns_Human = None
          | inr _ => True end) as Hh.
  { unfold hum. destruct (_ ≫= _) as [h|]; [|done]. destruct (NormalizeHumanStep h) eqn:E; [|done].
    by eapply NormalizeHumanStep_ok. }
  destruct hum as [human|err]; [|done]. case_decide as Hl; [done|]. intros [= <-].
  split; [done|]. unfold executable. simpl. split.
  - destruct (decide (topic = "")) as [Hn|Hn].
    + split; [done|]. destruct human; [by eexists|]. exfalso. by apply Ht.
    + split; [|done]. destruct (Lookup topic reg); [by eexists|]. exfalso. by apply Hl.
  - intros h ->. done.
Qed.

Lemma compileNodes_ok byNode reg nodes out :
  compileNodes byNode reg nodes = inl out -> ids out = ids nodes /\ Forall (executable reg) out.
Proof.
  revert out. induction nodes as [|nd nodes IH]; intros out E; simpl in E; [by simplify_eq|].
  destruct (compileNode byNode reg nd) as [n|] eqn:En; [|done].
  destruct (compileNodes byNode reg nodes) as [ns|]; [|done]. simplify_eq.
  destruct (IH ns eq_refl) as [Hid Hall]. apply compileNode_ok in En as [Hn Hex].
  unfold ids in *. rewrite !fmap_cons, Hid, Hn. split; [done|by constructor].
Qed.

Lemma buildGraph_ok nodes seen g g' :
  buildGraph (F:=F) nodes seen g = inl g' ->
  ids (Nodes g') = ids (Nodes g) ++ (ns_ID <$> nodes) /\
  forall u v, edge (Edges g') u v <->
    edge (Edges g) u v \/ exists ns, ns ∈ nodes /\ v = ns_ID ns /\ u ∈ ns_Deps ns.
Proof.
  revert seen g. induction nodes as [|ns nodes IH]; intros seen g E; simpl in E.
  { simplify_eq. split; [by rewrite app_nil_r|]. intros u v. split; [by left|].
    intros [?|(?&?%not_elem_of_nil&_)]; done. }
  repeat (case_decide; [done|]). apply IH in E as [Hid He]. clear IH. simpl in *. split.
  - rewrite Hid. unfold ids. rewrite fmap_app. simpl. by rewrite <- app_assoc.
  - intros u v. rewrite He. unfold edge. rewrite elem_of_app, list_elem_of_fmap.
    setoid_rewrite elem_of_cons. split.
    + intros [[Hg|(d&[= -> ->]&Hd)]|(ns'&Hin&Hv&Hu)]; [by left|right; eauto..].
    + intros [Hg|(ns'&[->|Hin]&->&Hu)]; [by left; left|left; right; eauto|right; eauto].
Qed.

(** C37: what the specification parser and the compiler accept can be run: the graph has one
    node per specified node, in order, and an edge from every dependency; it is valid, and
    every node has the handler registered for its topic or else a well-formed human step. *)
Theorem compiled_executable json_decode bs reg g spec out :
  ParseWorkflowSpecJSON (F:=F) json_decode bs = inl (g, spec) ->
  CompileSpecToExecutable spec g (Some reg) = inl out ->
  valid out /\ ids (Nodes out) = ns_ID <$> ws_Nodes spec /\
  (forall u v, edge (Edges out) u v <->
     exists ns, ns ∈ ws_Nodes spec /\ v = ns_ID ns /\ u ∈ ns_Deps ns) /\
  Forall (executable reg) (Nodes out).
Proof.
  unfold ParseWorkflowSpecJSON, graphOfSpec. intros Hp Hc.
  destruct (json_decode bs) as [spec'|]; [|done]. repeat (case_decide; [done|]).
  destruct (buildGraph _ _ _) as [g'|] eqn:Eb; [|done]. destruct (Validate g'); [done|]. simplify_eq.
  apply buildGraph_ok in Eb as [Hid He]. simpl in *.
  destruct (compileNodes _ _ _) as [nodes|] eqn:En; [|done]. destruct (Validate _) eqn:Ev; [done|].
  simplify_eq. apply compileNodes_ok in En as [Hid' Hall]. split_and!; [|simpl; congruence| |done].
  - by apply Validate_valid.
  - intros u v. simpl. rewrite He. split; [|by right]. intros [Hn|]; [|done]. by apply not_elem_of_nil in Hn.
Qed.
End spec.

(** ** Instances *)
(** A diamond: a before b and c, both before d. *)
Definition exNodes : list (NodeDef nat) := bareNode <$> ["a"; "b"; "c"; "d"].
Definition exDiamond : WorkflowGraph nat :=
  mkGraph _ "wf" exNodes [mkEdge "a" "b"; mkEdge "a" "c"; mkEdge "b" "d"; mkEdge "c" "d"] 0.
Definition exLoop : WorkflowGraph nat :=
  mkGraph _ "wf" exNodes [mkEdge "a" "b"; mkEdge "b" "c"; mkEdge "c" "b"] 0.

Lemma closed_ex es : Forall (fun e => From e ∈ ids exNodes /\ To e ∈ ids exNodes) es -> closedEdges es (ids exNodes).
Proof. rewrite Forall_forall. intros Hf u v Huv. apply (Hf _ Huv). Qed.

Lemma TopologicalOrder_correct_witness :
  (exists l, TopologicalOrder exDiamond = inl l /\ before "a" "d" (ids l)) /\
  Validate exDiamond = None /\ is_Some (Validate exLoop) /\ cyclic (Edges exLoop).
Proof.
  assert (NoDup (ids exNodes)) as Hnd by (vm_compute; repeat constructor; set_solver).
  assert (closedEdges (Edges exDiamond) (ids exNodes)) as Hd.
  { apply closed_ex. repeat constructor; vm_compute; set_solver. }
  assert (closedEdges (Edges exLoop) (ids exNodes)) as Hl.
  { apply closed_ex. repeat constructor; vm_compute; set_solver. }
  pose proof (TopologicalOrder_correct exDiamond Hnd Hd) as Ht.
  pose proof (TopologicalOrder_correct exLoop Hnd Hl) as Ht'.
  split_and!; [|reflexivity|by eexists|exact Ht'].
  destruct (TopologicalOrder exDiamond) as [l|err] eqn:E; [|done]. exists l. split; [done|].
  injection E as <-. exists [], ["b"; "c"], []. reflexivity.
Defined.

Definition exSpec : WorkflowSpec :=
  mkSpec "wf" [mkNodeSpec "a" "fetch" "" None [] [] [] (mkSpecRetry 0);
               mkNodeSpec "b" "" "" (Some (mkHumanStep "" "check" 0 "")) ["a"] [] [] (mkSpecRetry 0)].
Definition exReg : HandlerRegistry nat := Register "fetch" (Some 7%nat) NewHandlerRegistry.

Definition exGraph : WorkflowGraph nat := match graphOfSpec exSpec with inl g => g | inr _ => exDiamond end.
Definition exOut : WorkflowGraph nat :=
  match CompileSpecToExecutable exSpec exGraph (Some exReg) with inl g => g | inr _ => exDiamond end.

Lemma compiled_executable_witness :
  valid exOut /\ Forall (executable exReg) (Nodes exOut) /\ nd_Run <$> Nodes exOut = [Some 7%nat; None].
Proof.
  assert (ParseWorkflowSpecJSON (F:=nat) (fun _ => inl exSpec) [] = inl (exGraph, exSpec)) as Hp
    by (vm_compute; reflexivity).
  assert (CompileSpecToExecutable exSpec exGraph (Some exReg) = inl exOut) as Hc by (vm_compute; reflexivity).
  destruct (compiled_executable (fun _ => inl exSpec) [] exReg exGraph exSpec exOut Hp Hc) as (Hv&_&_&Hx).
  split; [exact Hv|]. split; [exact Hx|vm_compute; reflexivity].
Defined.
