(* ===== verification/EngineStore.v ===== *)
(** * The run store (internal/engine/types.go, memstore.go)

    Runs, node executions, events and timers; the [Store] interface as a class, and its
    in-memory implementation.  An instant is compared by [Time.Equal], so [UTC()] is the
    identity; cloning a value is the identity. *)
From S2P Require Import Prelude Storage.
From Stdlib Require Import Floats.SpecFloat.

(** ** float64, for dollars *)
Abbreviation float64 := spec_float.
Definition fzero : float64 := S754_zero false.
Definition fadd (x y : float64) : float64 := SFadd 53 1024 x y.
Definition fltb (x y : float64) : bool := SFltb x y.
Definition fleb (x y : float64) : bool := SFleb x y.
Definition feqb (x y : float64) : bool := SFeqb x y.

(** ** Data (types.go, budget.go) *)
Record BudgetPolicy : Type := mkBudget {
  MaxTokens : Z; MaxDollars : float64; WallClockTimeoutMS : Z; bp_MaxAttempts : Z
}.
Record BudgetUsage : Type := mkUsage {
  bu_Tokens : Z; bu_Dollars : float64; bu_Attempts : Z; bu_WallClock : Z
}.
Definition noBudget : BudgetPolicy := mkBudget 0 fzero 0 0.
Definition noUsage : BudgetUsage := mkUsage 0 fzero 0 0.

Definition RunStatusQueued : string := "queued".
Definition RunStatusRunning : string := "running".
Definition RunStatusWaiting : string := "waiting".
Definition RunStatusSucceeded : string := "succeeded".
Definition RunStatusFailed : string := "failed".
Definition RunStatusCanceled : string := "canceled".
Definition NodeStatusRunning : string := "running".
Definition NodeStatusWaiting : string := "waiting".
Definition NodeStatusSucceeded : string := "succeeded".
Definition NodeStatusFailed : string := "failed".
Definition NodeStatusCanceled : string := "canceled".
Definition TimerScheduled : string := "scheduled".
Definition TimerFired : string := "fired".
Definition TimerCanceled : string := "canceled".

Definition EventTimerScheduled : string := "timer_scheduled".
Definition EventTimerFired : string := "timer_fired".
Definition EventTimerCanceled : string := "timer_canceled".
Definition EventRunCreated : string := "run_created".
Definition EventRunStarted : string := "run_started".
Definition EventRunFinished : string := "run_finished".
Definition EventNodeStarted : string := "node_started".
Definition EventNodeFinished : string := "node_finished".
Definition EventNodeFailed : string := "node_failed".
Definition EventThrottled : string := "throttled".
Definition EventBudgetExceeded : string := "budget_exceeded".
Definition EventRiskAssessed : string := "risk_assessed".
Definition EventHumanTaskCreated : string := "human_task_created".
Definition EventHumanTaskResolved : string := "human_task_resolved".

(** [RunStatus.Valid] and [NodeStatus.Valid] accept the same six words. *)
Definition statusValid (s : string) : bool :=
  bool_decide (s ∈ [RunStatusQueued; RunStatusRunning; RunStatusWaiting; RunStatusSucceeded;
                    RunStatusFailed; RunStatusCanceled]).

Record Run : Type := mkRun {
  r_RunID : string;
  r_WorkflowID : string;
  r_Status : string;
  r_StartedAt : option Time;
  r_EndedAt : option Time;
  r_Spec : bytes;
  r_InitialInput : bytes;
  r_TenantID : string;
  r_TerminalReason : string;
  r_TerminalMeta : bytes;
  r_RunBudget : BudgetPolicy;
  r_BudgetUsage : BudgetUsage
}.

Record NodeExecution : Type := mkNodeExec {
  n_RunID : string;
  n_WorkflowID : string;
  n_NodeID : string;
  n_Attempt : Z;
  n_Status : string;
  n_StartedAt : option Time;
  n_EndedAt : option Time;
  n_Input : bytes;
  n_Output : bytes;
  n_Error : string
}.

Record RunEvent : Type := mkEvent {
  e_RunID : string;
  e_Seq : Z;
  e_Type : string;
  e_At : Time;
  e_WorkflowID : string;
  e_NodeID : string;
  e_Attempt : Z;
  e_Payload : bytes
}.

Record Timer : Type := mkTimer {
  t_RunID : string;
  t_WorkflowID : string;
  t_NodeID : string;
  t_Attempt : Z;
  t_Status : string;
  t_FireAt : Time;
  t_CreatedAt : Time;
  t_FiredAt : option Time;
  t_Reason : string
}.

#[export] Instance float64_eq_dec : EqDecision float64.
Proof. solve_decision. Defined.
#[export] Instance BudgetPolicy_eq_dec : EqDecision BudgetPolicy.
Proof. solve_decision. Defined.
#[export] Instance BudgetUsage_eq_dec : EqDecision BudgetUsage.
Proof. solve_decision. Defined.
#[export] Instance Run_eq_dec : EqDecision Run.
Proof. solve_decision. Defined.
#[export] Instance NodeExecution_eq_dec : EqDecision NodeExecution.
Proof. solve_decision. Defined.
#[export] Instance RunEvent_eq_dec : EqDecision RunEvent.
Proof. solve_decision. Defined.
#[export] Instance Timer_eq_dec : EqDecision Timer.
Proof. solve_decision. Defined.

Definition validateRun (r : Run) : option error :=
  if decide (r_RunID r = "") then Some (ENew "run_id is required")
  else if decide (r_WorkflowID r = "") then Some (ENew "workflow_id is required")
  else if negb (statusValid (r_Status r))
  then Some (ENew ("invalid run status: " +:+ Quote (r_Status r)))
  else None.

Definition validateNodeExecution (n : NodeExecution) : option error :=
  if decide (n_RunID n = "") then Some (ENew "run_id is required")
  else if decide (n_WorkflowID n = "") then Some (ENew "workflow_id is required")
  else if decide (n_NodeID n = "") then Some (ENew "node_id is required")
  else if n_Attempt n <? 1 then Some (ENew "attempt must be >= 1")
  else if negb (statusValid (n_Status n))
  then Some (ENew ("invalid node status: " +:+ Quote (n_Status n)))
  else None.

Definition validateEvent (e : RunEvent) : option error :=
  if decide (e_RunID e = "") then Some (ENew "run_id is required")
  else if e_Seq e <? 1 then Some (ENew "seq must be >= 1")
  else if decide (e_Type e = "") then Some (ENew "type is required")
  else if IsZero (e_At e) then Some (ENew "at is required")
  else None.

Definition set_e_Seq (seq : Z) (e : RunEvent) : RunEvent :=
  mkEvent (e_RunID e) seq (e_Type e) (e_At e) (e_WorkflowID e) (e_NodeID e) (e_Attempt e) (e_Payload e).
Definition set_e_At (at_ : Time) (e : RunEvent) : RunEvent :=
  mkEvent (e_RunID e) (e_Seq e) (e_Type e) at_ (e_WorkflowID e) (e_NodeID e) (e_Attempt e) (e_Payload e).

Definition ErrRunAlreadyExists : error := ESentinel "ErrRunAlreadyExists" "run already exists".
Definition ErrRunNotFound : error := ESentinel "ErrRunNotFound" "run not found".

(** ** The interface *)
Class Store (S : Type) : Type := {
  CreateRun : Run -> S -> S * option error;
  UpdateRun : Run -> S -> S * option error;
  GetRun : string -> S -> option Run;
  UpsertNodeExecution : NodeExecution -> S -> S * option error;
  GetNodeExecution : string -> string -> Z -> S -> option NodeExecution;
  ListNodeExecutions : string -> S -> list NodeExecution;
  AppendEvent : Time -> RunEvent -> S -> S * (RunEvent + error);
  ListEvents : string -> S -> list RunEvent;
  UpsertTimer : Timer -> S -> S * option error;
  GetTimer : string -> string -> Z -> S -> option Timer;
  ListTimers : string -> S -> list Timer;
  ListDueTimers : Time -> S -> list Timer;
  ListRuns : S -> list string;
  PutKV : string -> string -> S -> S * option error;
  GetKV : string -> S -> option string
}.

(** ** The maps of a store *)
Record nodeKey : Type := mkNodeKey { nk_RunID : string; nk_NodeID : string; nk_Attempt : Z }.
#[export] Instance nodeKey_eq_dec : EqDecision nodeKey.
Proof. solve_decision. Defined.
#[export] Program Instance nodeKey_countable : Countable nodeKey :=
  inj_countable' (fun k => (nk_RunID k, nk_NodeID k, nk_Attempt k))
    (fun '(r, n, a) => mkNodeKey r n a) _.
Next Obligation. by intros []. Qed.

Record MemoryStore : Type := mkStore {
  runs : gmap string Run;
  nodes : gmap nodeKey NodeExecution;
  events : gmap string (list RunEvent);
  nextSeq : gmap string Z;
  timers : gmap string Timer;
  kv : gmap string string
}.
Definition NewMemoryStore : MemoryStore := mkStore ∅ ∅ ∅ ∅ ∅ ∅.

Definition set_runs x (s : MemoryStore) : MemoryStore :=
  mkStore x (nodes s) (events s) (nextSeq s) (timers s) (kv s).
Definition set_nodes x (s : MemoryStore) : MemoryStore :=
  mkStore (runs s) x (events s) (nextSeq s) (timers s) (kv s).
Definition set_events x (s : MemoryStore) : MemoryStore :=
  mkStore (runs s) (nodes s) x (nextSeq s) (timers s) (kv s).
Definition set_nextSeq x (s : MemoryStore) : MemoryStore :=
  mkStore (runs s) (nodes s) (events s) x (timers s) (kv s).
Definition set_timers x (s : MemoryStore) : MemoryStore :=
  mkStore (runs s) (nodes s) (events s) (nextSeq s) x (kv s).
Definition set_kv x (s : MemoryStore) : MemoryStore :=
  mkStore (runs s) (nodes s) (events s) (nextSeq s) (timers s) x.

(** Storing a run also starts its event numbers at 1. *)
Definition putRun (r : Run) (s : MemoryStore) : MemoryStore :=
  let s := set_runs (<[r_RunID r := r]> (runs s)) s in
  match nextSeq s !! r_RunID r with
  | Some _ => s
  | None => set_nextSeq (<[r_RunID r := 1]> (nextSeq s)) s
  end.
Definition nodeKeyOf (n : NodeExecution) : nodeKey := mkNodeKey (n_RunID n) (n_NodeID n) (n_Attempt n).
Definition putNode (n : NodeExecution) (s : MemoryStore) : MemoryStore :=
  set_nodes (<[nodeKeyOf n := n]> (nodes s)) s.
Definition eventsOf (s : MemoryStore) (runID : string) : list RunEvent := default [] (events s !! runID).
Definition addEvent (e : RunEvent) (s : MemoryStore) : MemoryStore :=
  set_events (<[e_RunID e := eventsOf s (e_RunID e) ++ [e]]> (events s)) s.
Definition timerKey (runID nodeID : string) (attempt : Z) : string :=
  runID +:+ "|" +:+ nodeID +:+ "|" +:+ pretty attempt.
Definition timerKeyOf (t : Timer) : string := timerKey (t_RunID t) (t_NodeID t) (t_Attempt t).
Definition putTimer (t : Timer) (s : MemoryStore) : MemoryStore :=
  set_timers (<[timerKeyOf t := t]> (timers s)) s.
Definition putKV (key value : string) (s : MemoryStore) : MemoryStore :=
  set_kv (<[key := value]> (kv s)) s.

(** The sequence number the next event of a run gets. *)
Definition seqFor (s : MemoryStore) (runID : string) : Z :=
  let seq := default 0 (nextSeq s !! runID) in if seq <? 1 then 1 else seq.

(** ** Sorting *)
(** [sort.Slice] by a [less] function; the orders used are total on the lists sorted. *)
Definition le_of {A} (less : A -> A -> bool) (x y : A) : Prop := less y x = false.
#[export] Instance le_of_dec {A} (less : A -> A -> bool) : RelDecision (le_of less).
Proof. intros x y. unfold le_of. apply _. Defined.
Definition sortSlice {A} (less : A -> A -> bool) (l : list A) : list A := merge_sort (le_of less) l.

(** The time a run is listed under: its end, else its start, else the zero time. *)
Definition runTime (s : MemoryStore) (id : string) : Time :=
  match runs s !! id with
  | None => zeroTime
  | Some r => match r_EndedAt r with
              | Some t => t
              | None => default zeroTime (r_StartedAt r)
              end
  end.
Definition run_less (s : MemoryStore) (a b : string) : bool :=
  let ti := runTime s a in
  let tj := runTime s b in
  if ti =? tj then string_lt a b
  else if IsZero ti then false
  else if IsZero tj then true
  else After ti tj.
Definition node_less (a b : NodeExecution) : bool :=
  if decide (n_NodeID a <> n_NodeID b) then string_lt (n_NodeID a) (n_NodeID b)
  else n_Attempt a <? n_Attempt b.
Definition timer_less (a b : Timer) : bool :=
  if t_FireAt a =? t_FireAt b then
    if decide (t_NodeID a = t_NodeID b) then t_Attempt a <? t_Attempt b
    else string_lt (t_NodeID a) (t_NodeID b)
  else Before (t_FireAt a) (t_FireAt b).
Definition due_less (a b : Timer) : bool :=
  if t_FireAt a =? t_FireAt b then
    if decide (t_RunID a = t_RunID b) then
      if decide (t_NodeID a = t_NodeID b) then t_Attempt a <? t_Attempt b
      else string_lt (t_NodeID a) (t_NodeID b)
    else string_lt (t_RunID a) (t_RunID b)
  else Before (t_FireAt a) (t_FireAt b).

(** ** Reads, shared by the two implementations *)
Section reads.
Context `{MapOrder}.
Implicit Types s : MemoryStore.

(** [for _, v := range m]. *)
Definition values `{Countable K} {V} (m : gmap K V) : list V := omap (fun k => m !! k) (order (dom m)).

Definition listNodes (runID : string) s : list NodeExecution :=
  sortSlice node_less
    (omap (fun k => nodes s !! k) (filter (fun k => nk_RunID k = runID) (order (dom (nodes s))))).
Definition listTimers (runID : string) s : list Timer :=
  sortSlice timer_less (filter (fun t => t_RunID t = runID) (values (timers s))).
Definition isDue (now : Time) (t : Timer) : bool :=
  bool_decide (t_Status t = TimerScheduled) && negb (After (t_FireAt t) now).
Definition listDueTimers (now : Time) s : list Timer :=
  sortSlice due_less (filter (fun t => isDue now t = true) (values (timers s))).
Definition listRuns s : list string := sortSlice (run_less s) (order (dom (runs s))).
Definition getKV (key : string) s : option string :=
  let key := TrimSpace key in if decide (key = "") then None else kv s !! key.

(** ** MemoryStore *)
Definition MemoryStore_CreateRun (r : Run) s : MemoryStore * option error :=
  match validateRun r with
  | Some err => (s, Some err)
  | None => if decide (is_Some (runs s !! r_RunID r)) then (s, Some ErrRunAlreadyExists)
            else (putRun r s, None)
  end.
Definition MemoryStore_UpdateRun (r : Run) s : MemoryStore * option error :=
  match validateRun r with
  | Some err => (s, Some err)
  | None => if decide (runs s !! r_RunID r = None) then (s, Some ErrRunNotFound)
            else (set_runs (<[r_RunID r := r]> (runs s)) s, None)
  end.
Definition MemoryStore_UpsertNodeExecution (n : NodeExecution) s : MemoryStore * option error :=
  match validateNodeExecution n with
  | Some err => (s, Some err)
  | None => if decide (runs s !! n_RunID n = None) then (s, Some ErrRunNotFound)
            else (putNode n s, None)
  end.
(** The number is taken before the event is validated. *)
Definition MemoryStore_AppendEvent (now : Time) (e : RunEvent) s : MemoryStore * (RunEvent + error) :=
  let e := if IsZero (e_At e) then set_e_At now e else e in
  if decide (runs s !! e_RunID e = None) then (s, inr ErrRunNotFound)
  else
    let seq := seqFor s (e_RunID e) in
    let s := set_nextSeq (<[e_RunID e := seq +₆₄ 1]> (nextSeq s)) s in
    let e := set_e_Seq seq e in
    match validateEvent e with
    | Some err => (s, inr err)
    | None => (addEvent e s, inl e)
    end.
Definition MemoryStore_UpsertTimer (t : Timer) s : MemoryStore * option error :=
  if decide (runs s !! t_RunID t = None) then (s, Some ErrRunNotFound) else (putTimer t s, None).
Definition MemoryStore_PutKV (key value : string) s : MemoryStore * option error :=
  let key := TrimSpace key in
  if decide (key = "") then (s, Some (ENew "PutKV: key required")) else (putKV key value s, None).

#[export] Instance MemoryStore_Store : Store MemoryStore := {|
  CreateRun := MemoryStore_CreateRun;
  UpdateRun := MemoryStore_UpdateRun;
  GetRun id s := runs s !! id;
  UpsertNodeExecution := MemoryStore_UpsertNodeExecution;
  GetNodeExecution r n a s := nodes s !! mkNodeKey r n a;
  ListNodeExecutions := listNodes;
  AppendEvent := MemoryStore_AppendEvent;
  ListEvents r s := eventsOf s r;
  UpsertTimer := MemoryStore_UpsertTimer;
  GetTimer r n a s := timers s !! timerKey r n a;
  ListTimers := listTimers;
  ListDueTimers := listDueTimers;
  ListRuns := listRuns;
  PutKV := MemoryStore_PutKV;
  GetKV := getKV
|}.
End reads.
