(* ===== verification/FileStore.v ===== *)
(** * The durable run store (internal/engine/store_file.go)

    [FileStore] keeps the maps of [MemoryStore] and appends a JSON line per change to a file,
    synced every time, before it changes the maps; opening it replays the file.  The JSON
    codec is outside the repository ([EngineCodec]); so is the operating system, whose
    answers (how much of a write reaches the file, whether fsync fails, the clock) are a
    script. *)
From S2P Require Import Prelude Storage EngineStore.
From Stdlib Require Import Init.Byte.

Definition opCreateRun : string := "create_run".
Definition opUpdateRun : string := "update_run".
Definition opUpsertNode : string := "upsert_node".
Definition opAppendEvent : string := "append_event".
Definition opUpsertTimer : string := "upsert_timer".
Definition opPutKV : string := "put_kv".

Record walRecord : Type := mkWalRecord { wr_Op : string; wr_At : Time; wr_Value : bytes }.
Record kvPayload : Type := mkKV { kp_Key : string; kp_Value : string }.

#[export] Instance walRecord_eq_dec : EqDecision walRecord.
Proof. solve_decision. Defined.
#[export] Instance kvPayload_eq_dec : EqDecision kvPayload.
Proof. solve_decision. Defined.

(** ** The codec *)
Class EngineCodec : Type := {
  marshalRun : Run -> bytes + error;
  unmarshalRun : bytes -> Run + error;
  marshalNode : NodeExecution -> bytes + error;
  unmarshalNode : bytes -> NodeExecution + error;
  marshalEvent : RunEvent -> bytes + error;
  unmarshalEvent : bytes -> RunEvent + error;
  marshalTimer : Timer -> bytes + error;
  unmarshalTimer : bytes -> Timer + error;
  marshalKV : kvPayload -> bytes + error;
  unmarshalKV : bytes -> kvPayload + error;
  marshalRecord : walRecord -> bytes + error;
  unmarshalRecord : bytes -> walRecord + error
}.

(** ** engineWAL *)
Record engineWAL : Type := mkEngineWAL { ew_file : bytes; ew_os : list OSAnswer }.
Definition ew_next (w : engineWAL) : OSAnswer * engineWAL :=
  match ew_os w with [] => (osDefault, w) | a :: l => (a, mkEngineWAL (ew_file w) l) end.

Record FileStore : Type := mkFileStore { view : MemoryStore; fwal : engineWAL }.
Definition set_view v (s : FileStore) : FileStore := mkFileStore v (fwal s).
Definition set_fwal w (s : FileStore) : FileStore := mkFileStore (view s) w.

Section filestore.
Context `{EngineCodec} `{MapOrder}.
Implicit Types s : FileStore.

Definition engineWAL_Append (op : string) (v : bytes + error) (w : engineWAL) : engineWAL * option error :=
  match v with
  | inr err => (w, Some (EWrap ("marshal wal value: " +:+ Error err) err))
  | inl vb =>
    let '(a, w) := ew_next w in
    match marshalRecord (mkWalRecord op (os_now a) vb) with
    | inr err => (w, Some (EWrap ("marshal wal record: " +:+ Error err) err))
    | inl line =>
      let p := line ++ [newline] in
      match wrote a with
      | Some n =>
        (mkEngineWAL (ew_file w ++ take n p) (ew_os w),
         Some (EWrap ("write wal record: " +:+ Error errShortWrite) errShortWrite))
      | None =>
        (mkEngineWAL (ew_file w ++ p) (ew_os w),
         match sync_err a with
         | Some err => Some (EWrap ("fsync wal: " +:+ Error err) err)
         | None => None
         end)
      end
    end
  end.

(** The scanning loop of [Replay]. *)
Fixpoint decodeRecords (ls : list bytes) : list walRecord + error :=
  match ls with
  | [] => inl []
  | l :: ls =>
    if maxLineBytes <=? zlen l then inr (EWrap ("scan wal: " +:+ Error errTooLong) errTooLong)
    else if decide (dropCR l = []) then decodeRecords ls
    else
      match unmarshalRecord (dropCR l) with
      | inr err => inr (EWrap ("decode wal record: " +:+ Error err) err)
      | inl r => match decodeRecords ls with inl rs => inl (r :: rs) | inr err => inr err end
      end
  end.
Definition engineWAL_Replay (w : engineWAL) : list walRecord + error :=
  decodeRecords (split_lines [] (ew_file w)).

(** ** Replaying *)
Definition replayErr (op : string) (err : error) : error :=
  EWrap ("replay " +:+ op +:+ ": " +:+ Error err) err.
Definition replayInvalid (op : string) (err : error) : error :=
  EWrap ("replay " +:+ op +:+ " validate: " +:+ Error err) err.

Definition applyRun (op : string) (v : bytes) (m : MemoryStore) : MemoryStore + error :=
  match unmarshalRun v with
  | inr err => inr (replayErr op err)
  | inl r => match validateRun r with
             | Some err => inr (replayInvalid op err)
             | None => inl (putRun r m)
             end
  end.
Definition applyNode (v : bytes) (m : MemoryStore) : MemoryStore + error :=
  match unmarshalNode v with
  | inr err => inr (replayErr opUpsertNode err)
  | inl n => match validateNodeExecution n with
             | Some err => inr (replayInvalid opUpsertNode err)
             | None => inl (putNode n m)
             end
  end.
(** The next number is one past the largest replayed. *)
Definition bumpSeq (e : RunEvent) (m : MemoryStore) : MemoryStore :=
  let next := e_Seq e +₆₄ 1 in
  match nextSeq m !! e_RunID e with
  | Some cur => if cur <? next then set_nextSeq (<[e_RunID e := next]> (nextSeq m)) m else m
  | None => set_nextSeq (<[e_RunID e := next]> (nextSeq m)) m
  end.
Definition applyEvent (v : bytes) (m : MemoryStore) : MemoryStore + error :=
  match unmarshalEvent v with
  | inr err => inr (replayErr opAppendEvent err)
  | inl e => match validateEvent e with
             | Some err => inr (replayInvalid opAppendEvent err)
             | None => inl (bumpSeq e (addEvent e m))
             end
  end.
Definition timerInvalid (t : Timer) : bool :=
  bool_decide (t_RunID t = "") || bool_decide (t_NodeID t = "") || (t_Attempt t <? 1).
Definition applyTimer (v : bytes) (m : MemoryStore) : MemoryStore + error :=
  match unmarshalTimer v with
  | inr err => inr (replayErr opUpsertTimer err)
  | inl t => if timerInvalid t then inr (ENew "replay upsert_timer: invalid timer fields")
             else inl (putTimer t m)
  end.
Definition applyKV (v : bytes) (m : MemoryStore) : MemoryStore + error :=
  match unmarshalKV v with
  | inr err => inr (replayErr opPutKV err)
  | inl p => let k := TrimSpace (kp_Key p) in
             if decide (k = "") then inr (ENew "replay put_kv: key required")
             else inl (putKV k (kp_Value p) m)
  end.

Definition applyRecord (rec : walRecord) (m : MemoryStore) : MemoryStore + error :=
  if decide (wr_Op rec = opCreateRun) then applyRun opCreateRun (wr_Value rec) m
  else if decide (wr_Op rec = opUpdateRun) then applyRun opUpdateRun (wr_Value rec) m
  else if decide (wr_Op rec = opUpsertNode) then applyNode (wr_Value rec) m
  else if decide (wr_Op rec = opAppendEvent) then applyEvent (wr_Value rec) m
  else if decide (wr_Op rec = opUpsertTimer) then applyTimer (wr_Value rec) m
  else if decide (wr_Op rec = opPutKV) then applyKV (wr_Value rec) m
  else inr (ENew ("unknown wal op: " +:+ Quote (wr_Op rec))).

Fixpoint applyRecords (rs : list walRecord) (m : MemoryStore) : MemoryStore + error :=
  match rs with
  | [] => inl m
  | r :: rs => match applyRecord r m with inl m => applyRecords rs m | inr err => inr err end
  end.

(** Every run has a next number. *)
Definition initSeqs (m : MemoryStore) : MemoryStore :=
  set_nextSeq (nextSeq m ∪ ((fun _ => 1) <$> runs m)) m.

Definition OpenFileStore (content : bytes) (answers : list OSAnswer) : FileStore + error :=
  let w := mkEngineWAL content answers in
  match engineWAL_Replay w with
  | inr err => inr err
  | inl records =>
    match applyRecords records NewMemoryStore with
    | inr err => inr err
    | inl m => inl (mkFileStore (initSeqs m) w)
    end
  end.

(** ** Operations: log, then memory *)
Definition logThen (op : string) (v : bytes + error) (upd : MemoryStore -> MemoryStore) s :
    FileStore * option error :=
  match engineWAL_Append op v (fwal s) with
  | (w, Some err) => (set_fwal w s, Some err)
  | (w, None) => (set_view (upd (view s)) (set_fwal w s), None)
  end.

Definition FileStore_CreateRun (r : Run) s : FileStore * option error :=
  match validateRun r with
  | Some err => (s, Some err)
  | None => if decide (is_Some (runs (view s) !! r_RunID r)) then (s, Some ErrRunAlreadyExists)
            else logThen opCreateRun (marshalRun r) (putRun r) s
  end.
Definition FileStore_UpdateRun (r : Run) s : FileStore * option error :=
  match validateRun r with
  | Some err => (s, Some err)
  | None => if decide (runs (view s) !! r_RunID r = None) then (s, Some ErrRunNotFound)
            else logThen opUpdateRun (marshalRun r) (fun m => set_runs (<[r_RunID r := r]> (runs m)) m) s
  end.
Definition FileStore_UpsertNodeExecution (n : NodeExecution) s : FileStore * option error :=
  match validateNodeExecution n with
  | Some err => (s, Some err)
  | None => if decide (runs (view s) !! n_RunID n = None) then (s, Some ErrRunNotFound)
            else logThen opUpsertNode (marshalNode n) (putNode n) s
  end.
Definition FileStore_AppendEvent (now : Time) (e : RunEvent) s : FileStore * (RunEvent + error) :=
  let e := if IsZero (e_At e) then set_e_At now e else e in
  if decide (runs (view s) !! e_RunID e = None) then (s, inr ErrRunNotFound)
  else
    let seq := seqFor (view s) (e_RunID e) in
    let e := set_e_Seq seq e in
    let setSeq n m := set_nextSeq (<[e_RunID e := n]> (nextSeq m)) m in
    let s := set_view (setSeq (seq +₆₄ 1) (view s)) s in
    match validateEvent e with
    | Some err => (s, inr err)
    | None =>
      match engineWAL_Append opAppendEvent (marshalEvent e) (fwal s) with
      | (w, Some err) => (set_view (setSeq seq (view s)) (set_fwal w s), inr err)
      | (w, None) => (set_view (addEvent e (view s)) (set_fwal w s), inl e)
      end
    end.
Definition FileStore_UpsertTimer (t : Timer) s : FileStore * option error :=
  if timerInvalid t then (s, Some (ENew "invalid timer"))
  else if decide (runs (view s) !! t_RunID t = None) then (s, Some ErrRunNotFound)
  else logThen opUpsertTimer (marshalTimer t) (putTimer t) s.
(** The value is set in memory before it is logged. *)
Definition FileStore_PutKV (key value : string) s : FileStore * option error :=
  let key := TrimSpace key in
  if decide (key = "") then (s, Some (ENew "PutKV: key required"))
  else
    let s := set_view (putKV key value (view s)) s in
    let '(w, err) := engineWAL_Append opPutKV (marshalKV (mkKV key value)) (fwal s) in
    (set_fwal w s, err).

#[export] Instance FileStore_Store : Store FileStore := {|
  CreateRun := FileStore_CreateRun;
  UpdateRun := FileStore_UpdateRun;
  GetRun id s := runs (view s) !! id;
  UpsertNodeExecution := FileStore_UpsertNodeExecution;
  GetNodeExecution r n a s := nodes (view s) !! mkNodeKey r n a;
  ListNodeExecutions r s := listNodes r (view s);
  AppendEvent := FileStore_AppendEvent;
  ListEvents r s := eventsOf (view s) r;
  UpsertTimer := FileStore_UpsertTimer;
  GetTimer r n a s := timers (view s) !! timerKey r n a;
  ListTimers r s := listTimers r (view s);
  ListDueTimers now s := listDueTimers now (view s);
  ListRuns s := listRuns (view s);
  PutKV := FileStore_PutKV;
  GetKV k s := getKV k (view s)
|}.
End filestore.
