(* ===== verification/StoreSpec.v ===== *)
(** * The run stores are consistent, agree with each other, and survive a restart
    (properties of EngineStore.v and FileStore.v) *)
From stdpp Require Import relations.
From S2P Require Import Prelude Storage EngineStore FileStore FileWalSpec.
From Stdlib Require Import Init.Byte Floats.SpecFloat.

(** ** Operations as data *)
Inductive store_op : Type :=
| OpCreateRun (r : Run)
| OpUpdateRun (r : Run)
| OpUpsertNode (n : NodeExecution)
| OpAppendEvent (now : Time) (e : RunEvent)
| OpUpsertTimer (t : Timer)
| OpPutKV (key value : string).

Definition do_op {S} `{Store S} (op : store_op) (s : S) : S * option error :=
  match op with
  | OpCreateRun r => CreateRun r s
  | OpUpdateRun r => UpdateRun r s
  | OpUpsertNode n => UpsertNodeExecution n s
  | OpAppendEvent now e =>
    let '(s, r) := AppendEvent now e s in (s, match r with inl _ => None | inr err => Some err end)
  | OpUpsertTimer t => UpsertTimer t s
  | OpPutKV k v => PutKV k v s
  end.

(** The operations of the two instances. *)
Tactic Notation "store_simpl" :=
  cbn [CreateRun UpdateRun GetRun UpsertNodeExecution GetNodeExecution ListNodeExecutions AppendEvent
       ListEvents UpsertTimer GetTimer ListTimers ListDueTimers ListRuns PutKV GetKV
       FileStore_Store MemoryStore_Store].
Tactic Notation "store_simpl" "in" hyp(H) :=
  cbn [CreateRun UpdateRun GetRun UpsertNodeExecution GetNodeExecution ListNodeExecutions AppendEvent
       ListEvents UpsertTimer GetTimer ListTimers ListDueTimers ListRuns PutKV GetKV
       FileStore_Store MemoryStore_Store] in H.

(** ** Consistency of the maps *)
Record store_wf (m : MemoryStore) : Prop := {
  sw_runs : forall id r, runs m !! id = Some r -> r_RunID r = id /\ validateRun r = None;
  sw_nodes : forall k n, nodes m !! k = Some n ->
    nodeKeyOf n = k /\ validateNodeExecution n = None /\ is_Some (runs m !! n_RunID n);
  sw_events : forall id e, e ∈ eventsOf m id ->
    e_RunID e = id /\ validateEvent e = None /\ is_Some (runs m !! id) /\ e_Seq e < seqFor m id;
  sw_sorted : forall id, StronglySorted Z.lt (e_Seq <$> eventsOf m id);
  sw_timers : forall k t, timers m !! k = Some t -> timerKeyOf t = k /\ is_Some (runs m !! t_RunID t);
  sw_seq : forall id, is_Some (runs m !! id) -> is_Some (nextSeq m !! id);
  sw_pos : forall id n, nextSeq m !! id = Some n -> 1 <= n;
  sw_kv : kv m !! "" = None
}.

(** Fewer than [2^63 - 1] events per run. *)
Definition seq_room (m : MemoryStore) : Prop := forall id, seqFor m id < maxInt64.

Lemma store_wf_new : store_wf NewMemoryStore.
Proof.
  constructor; unfold eventsOf; simpl.
  - done.
  - done.
  - intros id e He. rewrite lookup_empty in He. by apply not_elem_of_nil in He.
  - intros id. rewrite lookup_empty. constructor.
  - done.
  - by intros id [? ?].
  - done.
  - done.
Qed.

Lemma seqFor_pos m id : 1 <= seqFor m id.
Proof. unfold seqFor. destruct (Z.ltb_spec (default 0 (nextSeq m !! id)) 1); lia. Qed.

Lemma seqFor_lookup m id n : store_wf m -> nextSeq m !! id = Some n -> seqFor m id = n.
Proof.
  intros Hw E. unfold seqFor. rewrite E. simpl. pose proof (sw_pos _ Hw id n E).
  destruct (Z.ltb_spec n 1); lia.
Qed.

(** Changing only the runs, never forgetting one. *)
Lemma wf_set_runs r m :
  store_wf m -> validateRun r = None -> is_Some (nextSeq m !! r_RunID r) ->
  store_wf (set_runs (<[r_RunID r := r]> (runs m)) m).
Proof.
  intros [W1 W2 W3 W4 W5 W6 W7 W8] Hv Hq.
  assert (forall id, is_Some (runs m !! id) -> is_Some (<[r_RunID r := r]> (runs m) !! id)) as Hs.
  { intros id Hx. destruct (decide (r_RunID r = id)) as [<-|]; by simplify_map_eq. }
  constructor; simpl; try done.
  - intros id r'. destruct (decide (r_RunID r = id)) as [<-|]; simplify_map_eq; [by intros [= <-]|apply W1].
  - intros k n Hkn. destruct (W2 k n Hkn) as (?&?&?). by auto.
  - intros id e Hin. destruct (W3 id e Hin) as (?&?&?&?). by auto.
  - intros k t Hkt. destruct (W5 k t Hkt). by auto.
  - intros id. destruct (decide (r_RunID r = id)) as [<-|]; simplify_map_eq; [done|apply W6].
Qed.

(** Changing only the numbers, never going back. *)
Lemma wf_set_nextSeq id n m :
  store_wf m -> seqFor m id <= n -> store_wf (set_nextSeq (<[id := n]> (nextSeq m)) m).
Proof.
  intros Hw Hn. pose proof (seqFor_pos m id) as Hp. destruct Hw as [W1 W2 W3 W4 W5 W6 W7 W8].
  constructor; simpl; try done.
  - intros id' e Hin. destruct (W3 id' e Hin) as (?&?&?&Hlt). split_and!; try done.
    unfold seqFor in *. simpl. destruct (decide (id = id')) as [<-|]; simplify_map_eq; [|done].
    destruct (Z.ltb_spec n 1); lia.
  - intros id' Hr. destruct (decide (id = id')) as [<-|]; simplify_map_eq; [by eexists|by apply W6].
  - intros id' n'. destruct (decide (id = id')) as [<-|]; simplify_map_eq; [|apply W7]. intros [= <-]. lia.
Qed.

Lemma wf_putRun r m : store_wf m -> validateRun r = None -> store_wf (putRun r m).
Proof.
  intros Hw Hv. unfold putRun. simpl. destruct (nextSeq m !! r_RunID r) as [x|] eqn:E.
  - by apply wf_set_runs.
  - assert (seqFor m (r_RunID r) <= 1) as H1 by (unfold seqFor; by rewrite E).
    pose proof (wf_set_nextSeq _ _ _ Hw H1) as Hw1.
    change (set_nextSeq _ _) with
      (set_runs (<[r_RunID r := r]> (runs (set_nextSeq (<[r_RunID r := 1]> (nextSeq m)) m)))
        (set_nextSeq (<[r_RunID r := 1]> (nextSeq m)) m)).
    apply wf_set_runs; [done..|]. simpl. by simplify_map_eq.
Qed.

Lemma wf_putNode n m :
  store_wf m -> validateNodeExecution n = None -> is_Some (runs m !! n_RunID n) -> store_wf (putNode n m).
Proof.
  intros [W1 W2 W3 W4 W5 W6 W7 W8] Hv Hr. constructor; simpl; try done.
  intros k n'. destruct (decide (nodeKeyOf n = k)) as [<-|]; simplify_map_eq; [by intros [= <-]|apply W2].
Qed.

Lemma wf_putTimer t m : store_wf m -> is_Some (runs m !! t_RunID t) -> store_wf (putTimer t m).
Proof.
  intros [W1 W2 W3 W4 W5 W6 W7 W8] Hr. constructor; simpl; try done.
  intros k t'. destruct (decide (timerKeyOf t = k)) as [<-|]; simplify_map_eq; [by intros [= <-]|apply W5].
Qed.

Lemma wf_putKV k v m : store_wf m -> k <> "" -> store_wf (putKV k v m).
Proof. intros [W1 W2 W3 W4 W5 W6 W7 W8] Hk. constructor; simpl; try done. by rewrite lookup_insert_ne. Qed.

Lemma eventsOf_addEvent e m id :
  eventsOf (addEvent e m) id = if decide (e_RunID e = id) then eventsOf m id ++ [e] else eventsOf m id.
Proof. unfold addEvent, eventsOf. simpl. case_decide; subst; by simplify_map_eq. Qed.

(** Adding an event numbered past all others, below the next number. *)
Lemma wf_addEvent e m :
  store_wf m -> validateEvent e = None -> is_Some (runs m !! e_RunID e) ->
  (forall e', e' ∈ eventsOf m (e_RunID e) -> e_Seq e' < e_Seq e) -> e_Seq e < seqFor m (e_RunID e) ->
  store_wf (addEvent e m).
Proof.
  intros [W1 W2 W3 W4 W5 W6 W7 W8] Hv Hr Hlast Hlt. constructor; try done.
  - intros id e'. rewrite eventsOf_addEvent. case_decide; [|apply W3]. subst id.
    intros [Hin| ->%list_elem_of_singleton]%elem_of_app; [by apply W3|by split_and!].
  - intros id. rewrite eventsOf_addEvent. case_decide; [|apply W4]. subst id.
    rewrite fmap_app. simpl. apply StronglySorted_app_2; [|apply W4|by repeat constructor].
    intros x y (e'&->&Hin)%list_elem_of_fmap ->%list_elem_of_singleton. by apply Hlast.
Qed.

(** ** The in-memory store *)
Section memory.
Context `{MapOrder}.

Lemma wf_appendEvent now e m m' r :
  store_wf m -> seqFor m (e_RunID e) < maxInt64 -> MemoryStore_AppendEvent now e m = (m', r) ->
  store_wf m' /\
  match r with
  | inl e' => m' = addEvent e' (set_nextSeq (<[e_RunID e := seqFor m (e_RunID e) + 1]> (nextSeq m)) m) /\
              e_RunID e' = e_RunID e /\ e_Seq e' = seqFor m (e_RunID e)
  | inr _ => runs m' = runs m /\ nodes m' = nodes m /\ events m' = events m /\ timers m' = timers m
  end.
Proof.
  intros Hw Hroom E. unfold MemoryStore_AppendEvent in E.
  set (e1 := if IsZero (e_At e) then set_e_At now e else e) in E.
  assert (e_RunID e1 = e_RunID e) as Hid by (unfold e1; by destruct (IsZero _)).
  rewrite !Hid in E. case_decide as Hr; [by simplify_eq|].
  pose proof (seqFor_pos m (e_RunID e)) as Hp.
  rewrite wrap64_id in E by (unfold int64_ok, minInt64, maxInt64 in *; lia).
  set (q := seqFor m (e_RunID e)) in *.
  set (m1 := set_nextSeq (<[e_RunID e := q + 1]> (nextSeq m)) m) in *.
  assert (store_wf m1) as Hw1 by (apply wf_set_nextSeq; [done|lia]).
  assert (seqFor m1 (e_RunID e) = q + 1) as Hq1.
  { unfold seqFor, m1. simpl. simplify_map_eq. destruct (Z.ltb_spec (q + 1) 1); lia. }
  destruct (validateEvent (set_e_Seq q e1)) eqn:Ev; simplify_eq; [done|].
  split; [|by rewrite <- Hid]. apply wf_addEvent; [done|done| | |].
  - simpl. rewrite Hid. by apply not_eq_None_Some.
  - simpl. rewrite Hid. intros e' He'. by apply (sw_events _ Hw).
  - simpl. rewrite Hid, Hq1. lia.
Qed.

Lemma wf_do_op op m : store_wf m -> seq_room m -> store_wf (do_op op m).1.
Proof.
  intros Hw Hroom. destruct op as [r|r|n|now e|t|k v]; unfold do_op; store_simpl.
  - unfold MemoryStore_CreateRun. destruct (validateRun r) eqn:Ev; [done|].
    case_decide; [done|]. by apply wf_putRun.
  - unfold MemoryStore_UpdateRun. destruct (validateRun r) eqn:Ev; [done|]. case_decide as Hr; [done|].
    apply wf_set_runs; [done..|]. apply (sw_seq _ Hw). by apply not_eq_None_Some.
  - unfold MemoryStore_UpsertNodeExecution. destruct (validateNodeExecution n) eqn:Ev; [done|].
    case_decide as Hr; [done|]. apply wf_putNode; [done..|]. by apply not_eq_None_Some.
  - destruct (MemoryStore_AppendEvent now e m) as [m' r] eqn:E.
    by destruct (wf_appendEvent _ _ _ _ _ Hw (Hroom _) E) as [? _].
  - unfold MemoryStore_UpsertTimer. case_decide as Hr; [done|].
    apply wf_putTimer; [done|]. by apply not_eq_None_Some.
  - unfold MemoryStore_PutKV. case_decide; [done|]. by apply wf_putKV.
Qed.
End memory.

(** ** The file store agrees with it *)
Section file.
Context `{EngineCodec} `{MapOrder}.
Implicit Types s : FileStore.

Definition is_kv (op : store_op) : bool := match op with OpPutKV _ _ => true | _ => false end.

Lemma logThen_view op v upd s s' err :
  logThen op v upd s = (s', err) ->
  match err with None => view s' = upd (view s) | Some _ => view s' = view s end.
Proof. unfold logThen. destruct (engineWAL_Append op v (fwal s)) as [w []]; intros; by simplify_eq. Qed.

Lemma logThen_refines op v upd s (Q : FileStore -> Prop) :
  let '(s', err) := logThen op v upd s in
  (view s', err) = (upd (view s), None) \/ (err <> None /\ (view s' = view s \/ Q s')).
Proof.
  destruct (logThen op v upd s) as [s' err] eqn:E. apply logThen_view in E.
  destruct err; [right; split; [done|by left]|left; by rewrite E].
Qed.

Lemma rollback_nextSeq m id x : store_wf m -> is_Some (runs m !! id) ->
  set_nextSeq (<[id := seqFor m id]> (<[id := x]> (nextSeq m))) (set_nextSeq (<[id := x]> (nextSeq m)) m) = m.
Proof.
  intros Hw Hr. destruct (sw_seq _ Hw id Hr) as [n Hn].
  rewrite insert_insert_eq, (seqFor_lookup _ _ _ Hw Hn), insert_id by done. by destruct m.
Qed.

Lemma appendEvent_refines now e s :
  store_wf (view s) ->
  let '(s', r) := FileStore_AppendEvent now e s in
  (view s', r) = MemoryStore_AppendEvent now e (view s) \/
  (exists err, r = inr err) /\ view s' = view s.
Proof.
  intros Hw. unfold FileStore_AppendEvent, MemoryStore_AppendEvent.
  set (e1 := if IsZero (e_At e) then set_e_At now e else e). case_decide as Hr; [by left|].
  destruct (validateEvent _) eqn:Ev; [by left|].
  destruct (engineWAL_Append _ _ _) as [w [err|]]; [|by left]. right. split; [by eexists|].
  simpl. apply rollback_nextSeq; [done|by apply not_eq_None_Some].
Qed.

Lemma refines_op op s :
  store_wf (view s) ->
  let '(s', err) := do_op op s in
  (view s', err) = do_op op (view s) \/
  (err <> None /\ (view s' = view s \/ (is_kv op = true /\ view s' = (do_op op (view s)).1))).
Proof.
  intros Hw. destruct op as [r|r|n|now e|t|k v]; unfold do_op; store_simpl.
  - unfold FileStore_CreateRun, MemoryStore_CreateRun. destruct (validateRun r); [by left|].
    destruct (decide _); [by left|]. apply (logThen_refines _ _ _ s (fun s' => _ /\ view s' = _)).
  - unfold FileStore_UpdateRun, MemoryStore_UpdateRun. destruct (validateRun r); [by left|].
    destruct (decide _); [by left|].
    apply (logThen_refines _ _ (fun m => set_runs (<[r_RunID r := r]> (runs m)) m) s (fun s' => _ /\ view s' = _)).
  - unfold FileStore_UpsertNodeExecution, MemoryStore_UpsertNodeExecution.
    destruct (validateNodeExecution n); [by left|]. destruct (decide _); [by left|].
    apply (logThen_refines _ _ _ s (fun s' => _ /\ view s' = _)).
  - pose proof (appendEvent_refines now e s Hw) as Ha. destruct (FileStore_AppendEvent now e s) as [s' r].
    destruct Ha as [Ha|[[err ->] Hv]]; [left|right; split; [done|by left]].
    by rewrite <- Ha.
  - unfold FileStore_UpsertTimer, MemoryStore_UpsertTimer.
    destruct (timerInvalid t); [right; split; [done|by left]|]. destruct (decide _); [by left|].
    apply (logThen_refines _ _ _ s (fun s' => _ /\ view s' = _)).
  - unfold FileStore_PutKV, MemoryStore_PutKV. destruct (decide _); [by left|]. simpl.
    destruct (engineWAL_Append _ _ _) as [w err]. simpl. destruct err; [|by left].
    right. split; [done|by right].
Qed.

(** C17: [FileStore] refines [MemoryStore]: seen through its maps, every operation does what
    the in-memory store does and returns the same, or it fails and changes no map; only
    storing a key-value pair may be visible although its logging failed. *)
Theorem FileStore_refines op s :
  store_wf (view s) ->
  let '(s', err) := do_op op s in
  (view s', err) = do_op op (view s) \/
  (err <> None /\ (view s' = view s \/ (is_kv op = true /\ view s' = (do_op op (view s)).1))).
Proof. apply refines_op. Qed.

Lemma wf_file_op op s : store_wf (view s) -> seq_room (view s) -> store_wf (view (do_op op s).1).
Proof.
  intros Hw Hroom. pose proof (refines_op op s Hw) as Hr.
  pose proof (wf_do_op op (view s) Hw Hroom) as Hm. destruct (do_op op s) as [s' err]. simpl.
  destruct Hr as [E|(_&[->|[_ ->]])]; [by rewrite <- E in Hm|done..].
Qed.

(** the stores stay consistent: whatever operation runs, on either store, succeeding or
    failing, every execution, event and timer belongs to a stored run, keys match values, and
    the event numbers of a run start at 1, strictly increase, and stay below the next one. *)
Theorem stores_consistent op :
  (forall m, store_wf m -> seq_room m -> store_wf (do_op op m).1) /\
  (forall s, store_wf (view s) -> seq_room (view s) -> store_wf (view (do_op op s).1)).
Proof.
  split; intros; [by apply wf_do_op|by apply wf_file_op].
Qed.
End file.

(** ** Restart *)
(** What is relied on of the codec: a marshalled value is decoded again, a record is one
    non-empty line.  [op_repr] singles out the values JSON represents exactly. *)
Class CodecLaws `{EngineCodec} : Type := {
  run_repr : Run -> Prop;
  node_repr : NodeExecution -> Prop;
  event_repr : RunEvent -> Prop;
  timer_repr : Timer -> Prop;
  kv_repr : kvPayload -> Prop;
  value_ok : bytes -> Prop;
  run_codec : forall r v, run_repr r -> marshalRun r = inl v -> value_ok v /\ unmarshalRun v = inl r;
  node_codec : forall n v, node_repr n -> marshalNode n = inl v -> value_ok v /\ unmarshalNode v = inl n;
  event_codec : forall e v, event_repr e -> marshalEvent e = inl v -> value_ok v /\ unmarshalEvent v = inl e;
  timer_codec : forall t v, timer_repr t -> marshalTimer t = inl v -> value_ok v /\ unmarshalTimer v = inl t;
  kv_codec : forall p v, kv_repr p -> marshalKV p = inl v -> value_ok v /\ unmarshalKV v = inl p;
  record_codec : forall rec l, value_ok (wr_Value rec) -> marshalRecord rec = inl l ->
    (newline ∉ l) /\ l <> [] /\ dropCR l = l /\ unmarshalRecord l = inl rec
}.

Section restart.
Context `{EngineCodec} `{!CodecLaws} `{MapOrder}.
Implicit Types s : FileStore.

(** The values an operation logs are representable; an event is logged with the number and
    time it is given. *)
Definition op_repr (op : store_op) : Prop :=
  match op with
  | OpCreateRun r | OpUpdateRun r => run_repr r
  | OpUpsertNode n => node_repr n
  | OpAppendEvent now e => forall q, event_repr (set_e_Seq q (if IsZero (e_At e) then set_e_At now e else e))
  | OpUpsertTimer t => timer_repr t
  | OpPutKV k v => kv_repr (mkKV (TrimSpace k) v)
  end.

(** A record and the line that holds it. *)
Definition line_of (rec : walRecord) (l : bytes) : Prop :=
  (newline ∉ l) /\ l <> [] /\ dropCR l = l /\ zlen l < maxLineBytes /\ unmarshalRecord l = inl rec.

(** The file holds complete lines that replay to [m]. *)
Definition replays (file : bytes) (m : MemoryStore) : Prop :=
  exists ls rs, file = unlines ls /\ Forall2 line_of rs ls /\ applyRecords rs NewMemoryStore = inl m.

(** The same data, except that numbers taken by events never logged are free again. *)
Definition same_data (m v : MemoryStore) : Prop :=
  runs m = runs v /\ nodes m = nodes v /\ events m = events v /\ timers m = timers v /\ kv m = kv v /\
  forall id, seqFor m id <= seqFor v id.

Definition durable_store s : Prop :=
  exists m, replays (ew_file (fwal s)) m /\ store_wf m /\ same_data m (view s).

Lemma applyRecords_snoc rs rec m m' m0 :
  applyRecords rs m0 = inl m -> applyRecord rec m = inl m' -> applyRecords (rs ++ [rec]) m0 = inl m'.
Proof.
  revert m0. induction rs as [|r rs IH]; intros m0; simpl.
  - intros [= ->] ->. done.
  - destruct (applyRecord r m0); [|done]. apply IH.
Qed.

Lemma append_inv op v w w' :
  engineWAL_Append op v w = (w', None) ->
  exists vb at_ l, v = inl vb /\ marshalRecord (mkWalRecord op at_ vb) = inl l /\
    ew_file w' = ew_file w ++ l ++ [newline].
Proof.
  unfold engineWAL_Append. destruct v as [vb|err]; [|done].
  destruct (ew_next w) as [a w1] eqn:En. assert (ew_file w1 = ew_file w) as Hf.
  { unfold ew_next in En. destruct (ew_os w); by simplify_eq. }
  destruct (marshalRecord _) as [l|] eqn:El; [|done]. destruct (wrote a); [done|].
  destruct (sync_err a); [done|]. intros [= <-]. exists vb, (os_now a), l. simpl. by rewrite Hf.
Qed.

Lemma replays_append op v w w' m m' :
  replays (ew_file w) m -> engineWAL_Append op v w = (w', None) ->
  zlen (ew_file w') - zlen (ew_file w) <= maxLineBytes ->
  (forall vb at_, v = inl vb -> value_ok vb /\ applyRecord (mkWalRecord op at_ vb) m = inl m') ->
  replays (ew_file w') m'.
Proof.
  intros (ls&rs&Hf&Hall&Ha) (vb&at_&l&->&Hm&Hf')%append_inv Hsz Hv.
  destruct (Hv vb at_ eq_refl) as [Hok Happ].
  destruct (record_codec (mkWalRecord op at_ vb) l Hok Hm) as (Hnl&Hne&Hcr&Hu).
  exists (ls ++ [l]), (rs ++ [mkWalRecord op at_ vb]). split_and!.
  - by rewrite unlines_snoc, Hf', Hf.
  - apply Forall2_app; [done|]. constructor; [|constructor]. unfold line_of. split_and!; try done.
    rewrite Hf', !zlen_app in Hsz. change (zlen [newline]) with 1 in Hsz. lia.
  - by eapply applyRecords_snoc.
Qed.

Lemma same_putRun r m v : same_data m v -> same_data (putRun r m) (putRun r v).
Proof.
  intros (E1&E2&E3&E4&E5&E6). unfold same_data.
  assert (forall x id, seqFor (putRun r x) id = seqFor x id) as Hs.
  { intros x id. unfold seqFor, putRun. simpl. destruct (nextSeq x !! r_RunID r) eqn:E; [done|]. simpl.
    destruct (decide (r_RunID r = id)) as [<-|]; [by rewrite lookup_insert_eq, E|by rewrite lookup_insert_ne]. }
  assert (forall x, runs (putRun r x) = <[r_RunID r := r]> (runs x) /\ nodes (putRun r x) = nodes x /\
    events (putRun r x) = events x /\ timers (putRun r x) = timers x /\ kv (putRun r x) = kv x) as Hp.
  { intros x. unfold putRun. simpl. by destruct (nextSeq x !! _). }
  destruct (Hp m) as (->&->&->&->&->), (Hp v) as (->&->&->&->&->). setoid_rewrite Hs.
  split_and!; congruence || done.
Qed.

(** Logging a change and applying it keeps the store durable. *)
Lemma durable_logThen op v (upd upd' : MemoryStore -> MemoryStore) s s' :
  durable_store s -> logThen op v upd s = (s', None) ->
  zlen (ew_file (fwal s')) - zlen (ew_file (fwal s)) <= maxLineBytes ->
  (forall m vb at_, store_wf m -> same_data m (view s) -> v = inl vb ->
     value_ok vb /\ applyRecord (mkWalRecord op at_ vb) m = inl (upd' m) /\ store_wf (upd' m) /\
     same_data (upd' m) (upd (view s))) ->
  durable_store s'.
Proof.
  intros (m&Hr&Hw&Hs) E Hsz Hv. unfold logThen in E.
  destruct (engineWAL_Append op v (fwal s)) as [w [err|]] eqn:Ea; simplify_eq. simpl in *.
  destruct (append_inv _ _ _ _ Ea) as (vb&at_&l&Hvb&_).
  destruct (Hv m vb at_ Hw Hs Hvb) as (_&_&Hw'&Hs'). exists (upd' m). split; [|by split].
  eapply replays_append; [done..|]. intros vb' at' ->. by destruct (Hv m vb' at' Hw Hs eq_refl) as (?&?&_).
Qed.

Lemma seqFor_bump e m :
  store_wf m -> e_Seq e < maxInt64 -> 1 <= e_Seq e -> seqFor m (e_RunID e) <= e_Seq e ->
  bumpSeq e (addEvent e m) = addEvent e (set_nextSeq (<[e_RunID e := e_Seq e + 1]> (nextSeq m)) m).
Proof.
  intros Hw Hroom Hp Hle. unfold bumpSeq. rewrite wrap64_id by (unfold int64_ok, minInt64, maxInt64 in *; lia).
  simpl. destruct (nextSeq m !! e_RunID e) as [cur|] eqn:E; [|done].
  rewrite (seqFor_lookup _ _ _ Hw E) in Hle. destruct (Z.ltb_spec cur (e_Seq e + 1)); [done|lia].
Qed.

Lemma same_eventsOf m v id : same_data m v -> eventsOf m id = eventsOf v id.
Proof. intros (_&_&E&_). unfold eventsOf. by rewrite E. Qed.

(** Replaying a logged event. *)
Lemma event_replayed e m v :
  store_wf m -> store_wf v -> same_data m v -> seqFor v (e_RunID e) < maxInt64 ->
  e_Seq e = seqFor v (e_RunID e) -> validateEvent e = None -> is_Some (runs v !! e_RunID e) ->
  let m' := bumpSeq e (addEvent e m) in
  store_wf m' /\ same_data m' (addEvent e (set_nextSeq (<[e_RunID e := e_Seq e + 1]> (nextSeq v)) v)).
Proof.
  intros Hw Hwv Hs Hroom Hq Hv Hr. pose proof Hs as (E1&E2&E3&E4&E5&E6).
  pose proof (seqFor_pos v (e_RunID e)) as Hp. pose proof (E6 (e_RunID e)) as Hle. rewrite <- Hq in Hroom, Hp, Hle.
  cbv zeta. rewrite seqFor_bump by done. set (m1 := set_nextSeq _ m).
  assert (store_wf m1) as Hw1 by (apply wf_set_nextSeq; [done|lia]).
  assert (forall x id, seqFor (addEvent e (set_nextSeq (<[e_RunID e := e_Seq e + 1]> (nextSeq x)) x)) id =
    if decide (e_RunID e = id) then e_Seq e + 1 else seqFor x id) as Hsq.
  { intros x id. unfold seqFor. simpl. case_decide; simplify_map_eq; [|done].
    destruct (Z.ltb_spec (e_Seq e + 1) 1); lia. }
  split.
  - apply wf_addEvent; [done|done|by rewrite <- E1 in Hr| |].
    + intros e' He'. change (eventsOf m1 (e_RunID e)) with (eventsOf m (e_RunID e)) in He'.
      destruct (sw_events _ Hw _ _ He') as (_&_&_&Hlt). lia.
    + unfold seqFor, m1. simpl. simplify_map_eq. destruct (Z.ltb_spec (e_Seq e + 1) 1); lia.
  - unfold same_data, m1. setoid_rewrite Hsq. unfold addEvent, eventsOf. simpl. rewrite E1, E2, E3, E4, E5.
    split_and!; try done. intros id. case_decide; [done|apply E6].
Qed.

Lemma durable_appendEvent now e s s' :
  durable_store s -> store_wf (view s) -> seqFor (view s) (e_RunID e) < maxInt64 ->
  op_repr (OpAppendEvent now e) -> do_op (OpAppendEvent now e) s = (s', None) ->
  zlen (ew_file (fwal s')) - zlen (ew_file (fwal s)) <= maxLineBytes -> durable_store s'.
Proof.
  intros (m&Hr&Hw&Hs) Hwv Hroom Hrep E Hsz. unfold do_op in E. store_simpl in E.
  unfold FileStore_AppendEvent in E. simpl in Hrep.
  set (e1 := if IsZero (e_At e) then set_e_At now e else e) in *.
  assert (e_RunID e1 = e_RunID e) as Hid by (unfold e1; by destruct (IsZero _)).
  rewrite Hid in E. case_decide as Hn; [done|]. set (q := seqFor (view s) (e_RunID e)) in *.
  destruct (validateEvent (set_e_Seq q e1)) eqn:Ev; [done|]. simpl in E.
  destruct (engineWAL_Append opAppendEvent _ (fwal s)) as [w [err|]] eqn:Ea; simplify_eq. simpl in *.
  set (e2 := set_e_Seq q e1) in *. assert (e_RunID e2 = e_RunID e) as Hid2 by done.
  assert (q +₆₄ 1 = e_Seq e2 + 1) as Hq2.
  { pose proof (seqFor_pos (view s) (e_RunID e)) as Hp. change (e_Seq e2) with q. fold q in Hp. rewrite wrap64_id; [done|].
    unfold int64_ok, minInt64, maxInt64 in *. lia. }
  apply not_eq_None_Some in Hn.
  pose proof (event_replayed e2 m (view s) Hw Hwv Hs) as Hx. rewrite Hid2 in Hx. fold q in Hx.
  destruct (Hx Hroom eq_refl Ev Hn) as [Hw' Hs']. clear Hx.
  exists (bumpSeq e2 (addEvent e2 m)). split; [|split; [done|simpl; by rewrite Hid, Hq2]].
  eapply replays_append; [done..|]. intros vb at_ Hvb.
  destruct (event_codec _ _ (Hrep q) Hvb) as [Hok Hu]. split; [done|].
  unfold applyRecord. simpl. unfold applyEvent. rewrite Hu. fold e2. by rewrite Ev.
Qed.

Lemma durable_do_op op s s' :
  durable_store s -> store_wf (view s) -> seq_room (view s) -> op_repr op -> do_op op s = (s', None) ->
  zlen (ew_file (fwal s')) - zlen (ew_file (fwal s)) <= maxLineBytes -> durable_store s'.
Proof.
  intros Hd Hwv Hroom Hrep E Hsz. destruct op as [r|r|n|now e|t|k v];
    [| | |by eapply durable_appendEvent| |]; unfold do_op in E; store_simpl in E.
  - unfold FileStore_CreateRun in E. destruct (validateRun r) eqn:Ev; [done|]. case_decide; [done|].
    eapply (durable_logThen _ _ _ (putRun r)); [done..|]. intros m vb at_ Hw Hs Hvb.
    destruct (run_codec _ _ Hrep Hvb) as [Hok Hu]. split; [done|]. split; [|split; [by apply wf_putRun|by apply same_putRun]].
    unfold applyRecord. simpl. unfold applyRun. by rewrite Hu, Ev.
  - unfold FileStore_UpdateRun in E. destruct (validateRun r) eqn:Ev; [done|]. case_decide as Hn; [done|].
    eapply (durable_logThen _ _ _ (putRun r)); [done..|]. intros m vb at_ Hw Hs Hvb.
    destruct (run_codec _ _ Hrep Hvb) as [Hok Hu]. split; [done|]. split; [|split; [by apply wf_putRun|]].
    + unfold applyRecord. simpl. unfold applyRun. by rewrite Hu, Ev.
    + apply not_eq_None_Some, (sw_seq _ Hwv) in Hn as [q Hq]. pose proof (same_putRun r _ _ Hs) as Hs'.
      unfold putRun in Hs' at 2. simpl in Hs'. by rewrite Hq in Hs'.
  - unfold FileStore_UpsertNodeExecution in E. destruct (validateNodeExecution n) eqn:Ev; [done|].
    case_decide as Hn; [done|]. eapply (durable_logThen _ _ _ (putNode n)); [done..|].
    intros m vb at_ Hw Hs Hvb. destruct (node_codec _ _ Hrep Hvb) as [Hok Hu].
    pose proof Hs as (E1&E2&E3&E4&E5&E6). split; [done|]. split; [|split].
    + unfold applyRecord. simpl. unfold applyNode. by rewrite Hu, Ev.
    + apply wf_putNode; [done..|]. rewrite E1. by apply not_eq_None_Some.
    + unfold same_data. simpl. by rewrite E1, E2, E3, E4, E5.
  - unfold FileStore_UpsertTimer in E. destruct (timerInvalid t) eqn:Ev; [done|].
    case_decide as Hn; [done|]. eapply (durable_logThen _ _ _ (putTimer t)); [done..|].
    intros m vb at_ Hw Hs Hvb. destruct (timer_codec _ _ Hrep Hvb) as [Hok Hu].
    pose proof Hs as (E1&E2&E3&E4&E5&E6). split; [done|]. split; [|split].
    + unfold applyRecord. simpl. unfold applyTimer. by rewrite Hu, Ev.
    + apply wf_putTimer; [done..|]. rewrite E1. by apply not_eq_None_Some.
    + unfold same_data. simpl. by rewrite E1, E2, E3, E4, E5.
  - unfold FileStore_PutKV in E. case_decide as Hk; [done|].
    eapply (durable_logThen opPutKV (marshalKV (mkKV (TrimSpace k) v)) (putKV (TrimSpace k) v)
      (putKV (TrimSpace k) v)); [done| |done|].
    { unfold logThen. simpl in E. destruct (engineWAL_Append _ _ _) as [w [err|]]; by simplify_eq. }
    intros m vb at_ Hw Hs Hvb. destruct (kv_codec _ _ Hrep Hvb) as [Hok Hu].
    pose proof Hs as (E1&E2&E3&E4&E5&E6). split; [done|]. split; [|split; [by apply wf_putKV|]].
    + unfold applyRecord. simpl. unfold applyKV. rewrite Hu. simpl. rewrite TrimSpace_idem. by rewrite decide_False.
    + unfold same_data. simpl. by rewrite E1, E2, E3, E4, E5.
Qed.

(** One operation of the running store: it succeeds, or it fails without leaving anything in
    the file (an invalid value, a missing run). *)
Inductive store_step (s s' : FileStore) : Prop :=
| step_ok op : seq_room (view s) -> op_repr op -> do_op op s = (s', None) ->
    zlen (ew_file (fwal s')) - zlen (ew_file (fwal s)) <= maxLineBytes -> store_step s s'
| step_refused op err : seq_room (view s) -> is_kv op = false -> do_op op s = (s', Some err) ->
    ew_file (fwal s') = ew_file (fwal s) -> store_step s s'.

Lemma refused_same op s s' err m :
  store_wf (view s) -> seq_room (view s) -> is_kv op = false -> do_op op s = (s', Some err) ->
  same_data m (view s) -> same_data m (view s').
Proof.
  intros Hw Hroom Hkv E (E1&E2&E3&E4&E5&E6). pose proof (refines_op op s Hw) as Hr. rewrite E in Hr.
  destruct Hr as [Hr|(_&[->|[? _]])]; [|done|congruence].
  assert (runs (view s') = runs (view s) /\ nodes (view s') = nodes (view s) /\
    events (view s') = events (view s) /\ timers (view s') = timers (view s) /\ kv (view s') = kv (view s) /\
    forall id, seqFor (view s) id <= seqFor (view s') id) as (F1&F2&F3&F4&F5&Hsq).
  2: { split_and!; try congruence. intros id. etrans; [apply E6|apply Hsq]. }
  clear E. destruct op as [r|r|n|now e|t|k v]; [| | | | |done]; unfold do_op in Hr; store_simpl in Hr.
  - unfold MemoryStore_CreateRun in Hr. repeat case_match; try done; injection Hr as Hv _; by rewrite Hv.
  - unfold MemoryStore_UpdateRun in Hr. repeat case_match; try done; injection Hr as Hv _; by rewrite Hv.
  - unfold MemoryStore_UpsertNodeExecution in Hr. repeat case_match; try done; injection Hr as Hv _; by rewrite Hv.
  - unfold MemoryStore_AppendEvent in Hr. set (e1 := if IsZero _ then _ else e) in Hr.
    case_decide as Hn; [injection Hr as Hv _; by rewrite Hv|].
    destruct (validateEvent _) eqn:Ev; [|done]. injection Hr as Hv _. rewrite Hv.
    split_and!; try done. intros id. unfold seqFor at 2. simpl.
    pose proof (seqFor_pos (view s) (e_RunID e1)) as Hp. specialize (Hroom (e_RunID e1)).
    rewrite wrap64_id by (unfold int64_ok, minInt64, maxInt64 in *; lia).
    destruct (decide (e_RunID e1 = id)) as [<-|]; [rewrite lookup_insert_eq|by rewrite lookup_insert_ne].
    simpl. destruct (Z.ltb_spec (seqFor (view s) (e_RunID e1) + 1) 1); lia.
  - unfold MemoryStore_UpsertTimer in Hr. repeat case_match; try done; injection Hr as Hv _; by rewrite Hv.
Qed.

Lemma store_step_durable s s' :
  store_step s s' -> durable_store s /\ store_wf (view s) -> durable_store s' /\ store_wf (view s').
Proof.
  intros Hst [Hd Hw]. pose proof (fun op => wf_file_op op s Hw) as Hwf.
  destruct Hst as [op Hroom Hrep E Hsz|op err Hroom Hkv E Hf]; specialize (Hwf op Hroom); rewrite E in Hwf.
  - split; [by eapply durable_do_op|done].
  - split; [|done]. destruct Hd as (m&Hr&Hm&Hs). exists m. rewrite Hf. split; [done|]. split; [done|]. exact (refused_same op s s' err m Hw Hroom Hkv E Hs).
Qed.

Lemma decodeRecords_lines rs ls : Forall2 line_of rs ls -> decodeRecords ls = inl rs.
Proof.
  induction 1 as [|rec l rs ls (_&Hne&Hcr&Hsz&Hu) _ IH]; [done|]. simpl.
  destruct (Z.leb_spec maxLineBytes (zlen l)); [lia|]. by rewrite Hcr, decide_False, Hu, IH by done.
Qed.

Lemma initSeqs_id m : store_wf m -> initSeqs m = m.
Proof.
  intros Hw. unfold initSeqs. assert (nextSeq m ∪ ((fun _ => 1) <$> runs m) = nextSeq m) as ->; [|by destruct m].
  apply map_eq. intros id. rewrite lookup_union, lookup_fmap.
  destruct (nextSeq m !! id) as [q|] eqn:Eq; [by destruct (_ <$> _)|].
  destruct (runs m !! id) eqn:Er; [|done].
  destruct (sw_seq _ Hw id) as [q Hq]; [by eexists|]. congruence.
Qed.

Lemma reopen s answers :
  durable_store s -> exists s2, OpenFileStore (ew_file (fwal s)) answers = inl s2 /\
    same_data (view s2) (view s) /\ store_wf (view s2) /\ durable_store s2.
Proof.
  intros (m&(ls&rs&Hf&Hall&Ha)&Hw&Hs).
  assert (Forall (fun l => newline ∉ l) ls) as Hnl.
  { clear -Hall. induction Hall as [|rec l rs ls (Hl&_) _ IH]; by constructor. }
  exists (mkFileStore m (mkEngineWAL (ew_file (fwal s)) answers)).
  assert (OpenFileStore (ew_file (fwal s)) answers =
    inl (mkFileStore m (mkEngineWAL (ew_file (fwal s)) answers))) as ->.
  { unfold OpenFileStore, engineWAL_Replay. simpl. rewrite Hf. rewrite <- (app_nil_r (unlines ls)) at 1.
    rewrite split_lines_unlines by (done || set_solver).
    rewrite decide_True by done. rewrite app_nil_r, (decodeRecords_lines _ _ Hall), Ha, initSeqs_id by done. done. }
  split; [done|]. split; [done|]. split; [done|]. exists m. split; [by exists ls, rs|]. split; [done|]. by split_and!.
Qed.

(** C15: a run store survives a restart: after any operations that succeeded, or were refused
    without touching the file, opening the file again gives a store with the same runs,
    executions, events, timers and metadata, whose next event numbers are past all recorded
    ones, and which can go on in the same way. *)
Theorem store_survives_restart s0 s answers :
  durable_store s0 -> store_wf (view s0) -> rtc store_step s0 s ->
  exists s2, OpenFileStore (ew_file (fwal s)) answers = inl s2 /\
    same_data (view s2) (view s) /\ store_wf (view s2) /\ durable_store s2.
Proof.
  intros Hd Hw Hr. apply reopen. clear answers.
  assert (durable_store s /\ store_wf (view s)) as [? _]; [|done].
  induction Hr as [|x y z Hxy _ IH]; [done|]. destruct (store_step_durable _ _ Hxy); [done|]. by apply IH.
Qed.
End restart.

(** ** Instances *)
Definition exRun : Run :=
  mkRun "run-1" "wf" RunStatusQueued None None [] [] "tenant" "" [] noBudget noUsage.
Definition exRun2 : Run :=
  mkRun "run-1" "wf" RunStatusRunning (Some 5) None [] [] "tenant" "" [] noBudget noUsage.
Definition exEvent : RunEvent := mkEvent "run-1" 1 EventRunStarted 7 "wf" "" 0 [].

(** A codec for the few values of the example. *)
Fixpoint tableEncode {A} `{EqDecision A} (t : list (A * bytes)) (x : A) : bytes + error :=
  match t with
  | [] => inr (ENew "unsupported value")
  | (y, l) :: t => if decide (x = y) then inl l else tableEncode t x
  end.
Fixpoint tableDecode {A} (t : list (A * bytes)) (l : bytes) : A + error :=
  match t with
  | [] => inr (ENew "invalid character")
  | (y, l') :: t => if decide (l = l') then inl y else tableDecode t l
  end.

Lemma table_roundtrip {A} `{EqDecision A} (t : list (A * bytes)) x l :
  NoDup t.*2 -> tableEncode t x = inl l -> l ∈ t.*2 /\ tableDecode t l = inl x.
Proof.
  induction t as [|[y l'] t IH]; simpl; [done|]. intros [Hl Hnd]%NoDup_cons. case_decide as Hx.
  - intros [= ->]. split; [left|]. rewrite decide_True by done. by subst.
  - intros E. destruct (IH Hnd E) as [Hin Hd]. split; [by right|]. rewrite decide_False; [done|]. by intros ->.
Qed.

Definition exRuns : list (Run * bytes) := [(exRun, [x31]); (exRun2, [x32])].
Definition exEvents : list (RunEvent * bytes) := [(exEvent, [x33])].
Definition exKVs : list (kvPayload * bytes) := [(mkKV "index" "v1", [x34])].
Definition exRecords : list (walRecord * bytes) :=
  [(mkWalRecord opCreateRun 0 [x31], [x41]); (mkWalRecord opUpdateRun 0 [x32], [x42]);
   (mkWalRecord opAppendEvent 0 [x33], [x43]); (mkWalRecord opPutKV 0 [x34], [x44])].

#[export] Instance exCodec : EngineCodec := {|
  marshalRun := tableEncode exRuns; unmarshalRun := tableDecode exRuns;
  marshalNode _ := inr (ENew "unsupported value"); unmarshalNode _ := inr (ENew "invalid character");
  marshalEvent := tableEncode exEvents; unmarshalEvent := tableDecode exEvents;
  marshalTimer _ := inr (ENew "unsupported value"); unmarshalTimer _ := inr (ENew "invalid character");
  marshalKV := tableEncode exKVs; unmarshalKV := tableDecode exKVs;
  marshalRecord := tableEncode exRecords; unmarshalRecord := tableDecode exRecords
|}.

#[export] Program Instance exCodec_laws : CodecLaws := {|
  run_repr _ := True; node_repr _ := True; event_repr _ := True; timer_repr _ := True; kv_repr _ := True;
  value_ok _ := True
|}.
Next Obligation. intros r v _ E. split; [done|]. apply table_roundtrip; [|done]. repeat constructor; set_solver. Qed.
Next Obligation. done. Qed.
Next Obligation. intros r v _ E. split; [done|]. apply table_roundtrip; [|done]. repeat constructor; set_solver. Qed.
Next Obligation. done. Qed.
Next Obligation. intros r v _ E. split; [done|]. apply table_roundtrip; [|done]. repeat constructor; set_solver. Qed.
Next Obligation.
  intros rec l _ E. apply table_roundtrip in E as [Hl Hd]; [|repeat constructor; set_solver].
  assert ((newline ∉ l) /\ l <> [] /\ dropCR l = l) as (?&?&?); [|by split_and!].
  simpl in Hl. rewrite !elem_of_cons in Hl. destruct Hl as [->|[->|[->|[->|[]%not_elem_of_nil]]]];
    (split; [apply (bool_decide_eq_true_1 _); vm_compute; reflexivity|by split]).
Qed.

Definition exStore0 : FileStore := mkFileStore NewMemoryStore (mkEngineWAL [] []).
Definition exStore1 : FileStore := (do_op (OpCreateRun exRun) exStore0).1.
Definition exStore2 : FileStore := (do_op (OpUpdateRun exRun2) exStore1).1.
Definition exStore3 : FileStore := (do_op (OpAppendEvent 7 (mkEvent "run-1" 0 EventRunStarted 0 "wf" "" 0 [])) exStore2).1.
Definition exStore4 : FileStore := (do_op (OpCreateRun exRun) exStore3).1.

Lemma exStore0_ok : durable_store exStore0 /\ store_wf (view exStore0).
Proof.
  split; [|apply store_wf_new]. exists NewMemoryStore. split; [by exists [], []|].
  split; [apply store_wf_new|by split_and!].
Qed.

Lemma exRoom s : (forall id q, nextSeq (view s) !! id = Some q -> q < 100) -> seq_room (view s).
Proof.
  intros Hs id. unfold seqFor. destruct (nextSeq (view s) !! id) as [q|] eqn:E; simpl.
  - specialize (Hs _ _ E). destruct (Z.ltb_spec q 1); unfold maxInt64; lia.
  - unfold maxInt64. lia.
Qed.

Lemma exSeq s q0 : nextSeq (view s) = {["run-1" := q0]} -> q0 < 100 -> seq_room (view s).
Proof. intros E Hq. apply exRoom. intros id q. rewrite E. intros [_ <-]%lookup_singleton_Some. done. Qed.

Lemma exSteps : rtc store_step exStore0 exStore4.
Proof.
  eapply rtc_l. { eapply (step_ok exStore0 exStore1 (OpCreateRun exRun)); [|done|vm_compute; reflexivity|vm_compute; discriminate].
    apply exRoom. simpl. by intros id q ?%lookup_empty_Some. }
  eapply rtc_l. { eapply (step_ok exStore1 exStore2 (OpUpdateRun exRun2)); [|done|vm_compute; reflexivity|vm_compute; discriminate].
    by apply (exSeq exStore1 1). }
  eapply rtc_l. { eapply (step_ok exStore2 exStore3 (OpAppendEvent 7 (mkEvent "run-1" 0 EventRunStarted 0 "wf" "" 0 [])));
      [|done|vm_compute; reflexivity|vm_compute; discriminate].
    by apply (exSeq exStore2 1). }
  eapply rtc_l; [|apply rtc_refl].
  eapply (step_refused exStore3 exStore4 (OpCreateRun exRun) ErrRunAlreadyExists); [|done|vm_compute; reflexivity|reflexivity].
  by apply (exSeq exStore3 2).
Qed.

Lemma store_survives_restart_witness :
  exists s2, OpenFileStore (ew_file (fwal exStore4)) [] = inl s2 /\ same_data (view s2) (view exStore4) /\
    r_Status <$> runs (view s2) !! "run-1" = Some RunStatusRunning /\
    e_Seq <$> eventsOf (view s2) "run-1" = [1].
Proof.
  destruct (store_survives_restart exStore0 exStore4 [] (proj1 exStore0_ok) (proj2 exStore0_ok) exSteps)
    as (s2&E&Hs&_). exists s2. split; [exact E|]. split; [exact Hs|].
  destruct Hs as (Hr&_&He&_). unfold eventsOf. rewrite Hr, He. split; vm_compute; reflexivity.
Defined.

Lemma FileStore_refines_witness :
  (view (do_op (OpCreateRun exRun) exStore0).1, None) = do_op (OpCreateRun exRun) (view exStore0).
Proof.
  pose proof (FileStore_refines (OpCreateRun exRun) exStore0 (proj2 exStore0_ok)) as Hr.
  destruct (do_op (OpCreateRun exRun) exStore0) as [s' err] eqn:E.
  assert (err = None) as -> by (vm_compute in E; congruence). simpl.
  destruct Hr as [Hr|[Hn _]]; [exact Hr|by destruct Hn].
Defined.

Lemma stores_consistent_witness : store_wf (view exStore1).
Proof.
  refine (proj2 (stores_consistent (OpCreateRun exRun)) exStore0 (proj2 exStore0_ok) _).
  apply exRoom. simpl. by intros id q ?%lookup_empty_Some.
Defined.

(** ** What the model shows *)
(** Keys of timers are ambiguous: timers of different runs can have the same key, and the
    second replaces the first. *)
Definition exTimer (run node : string) : Timer := mkTimer run "wf" node 1 TimerScheduled 9 1 None "".
Definition exTwoRuns : MemoryStore :=
  let run id := mkRun id "wf" RunStatusWaiting None None [] [] "" "" [] noBudget noUsage in
  (do_op (OpCreateRun (run "a|b")) (do_op (OpCreateRun (run "a")) NewMemoryStore).1).1.
Lemma timer_overwritten :
  let s := (do_op (OpUpsertTimer (exTimer "a|b" "c")) (do_op (OpUpsertTimer (exTimer "a" "b|c")) exTwoRuns).1).1 in
  length (listTimers "a" s) = 0%nat /\ length (listTimers "a|b" s) = 1%nat /\
  length (listTimers "a" (do_op (OpUpsertTimer (exTimer "a" "b|c")) exTwoRuns).1) = 1%nat.
Proof. split_and!; vm_compute; reflexivity. Qed.

(** A key-value pair is visible although storing it failed. *)
Lemma kv_visible_unlogged :
  let s0 := mkFileStore NewMemoryStore (mkEngineWAL [] [mkOS (Some 0%nat) None 0]) in
  let r := FileStore_PutKV "index" "v1" s0 in
  r.2 <> None /\ GetKV "index" r.1 = Some "v1" /\ ew_file (fwal r.1) = [].
Proof. split_and!; [vm_compute; discriminate|vm_compute; reflexivity..]. Qed.
