(* ===== verification/Throttle.v ===== *)
(** * Budgets and concurrency caps (internal/engine/budget.go, config.go, throttle.go,
    throttle_config.go, delay.go)

    [Caps] is the runner's throttling state: the caps by topic and by tenant and topic, and
    the number of slots in use per cap key; it is shared by all runs of the runner. *)
From S2P Require Import Prelude Storage EngineStore.
From Stdlib Require Import Ascii.

(** ** Budgets *)
Definition WallClockTimeout (p : BudgetPolicy) : Duration :=
  if WallClockTimeoutMS p <=? 0 then 0 else WallClockTimeoutMS p *₆₄ Millisecond.

(** The least positive value, 0 when there is none; [minPosI64] and [minPosInt]. *)
Definition minPosI64 (vals : list Z) : Z :=
  foldl (fun out v => if v <=? 0 then out else if (out =? 0) || (v <? out) then v else out) 0 vals.
Definition minPosF64 (vals : list float64) : float64 :=
  foldl (fun out v => if fleb v fzero then out
                      else if feqb out fzero || fltb v out then v else out) fzero vals.
Definition effectiveBudget (def tenant perRun : BudgetPolicy) : BudgetPolicy :=
  mkBudget
    (minPosI64 [MaxTokens def; MaxTokens tenant; MaxTokens perRun])
    (minPosF64 [MaxDollars def; MaxDollars tenant; MaxDollars perRun])
    (minPosI64 [WallClockTimeoutMS def; WallClockTimeoutMS tenant; WallClockTimeoutMS perRun])
    (minPosI64 [bp_MaxAttempts def; bp_MaxAttempts tenant; bp_MaxAttempts perRun]).

(** ** Caps *)
Definition ThrottleScopeTopic : string := "topic".
Definition ThrottleScopeTenantTopic : string := "tenant_topic".

Record Caps : Type := mkCaps {
  topicCaps : gmap string Z;
  tenantTopicCaps : gmap string (gmap string Z);
  inflightCaps : gmap string Z
}.
Definition noCaps : Caps := mkCaps ∅ ∅ ∅.
Definition set_inflightCaps x (c : Caps) : Caps := mkCaps (topicCaps c) (tenantTopicCaps c) x.

Definition capKey (scope tenantID topic : string) : string :=
  if decide (scope = ThrottleScopeTenantTopic)
  then "tenant:" +:+ tenantID +:+ "|topic:" +:+ topic
  else "topic:" +:+ topic.

Definition SetTopicConcurrencyCap (topic : string) (cap : Z) (c : Caps) : Caps :=
  if decide (topic = "") then c
  else if cap <? 0 then c
  else mkCaps (if cap =? 0 then delete topic (topicCaps c) else <[topic := cap]> (topicCaps c))
         (tenantTopicCaps c) (inflightCaps c).

Definition SetTenantTopicConcurrencyCap (tenantID topic : string) (cap : Z) (c : Caps) : Caps :=
  if decide (tenantID = "") then c
  else if decide (topic = "") then c
  else if cap <? 0 then c
  else
    let m := default ∅ (tenantTopicCaps c !! tenantID) in
    let m' := if cap =? 0 then delete topic m else <[topic := cap]> m in
    mkCaps (topicCaps c)
      (if decide (cap = 0 /\ m' = ∅) then delete tenantID (tenantTopicCaps c)
       else <[tenantID := m']> (tenantTopicCaps c))
      (inflightCaps c).

(** [strings.SplitN(s, ":", 2)] in two parts. *)
Fixpoint splitColon (l : list ascii) : option (list ascii * list ascii) :=
  match l with
  | [] => None
  | a :: l => if Ascii.eqb a (ascii_of_nat 58) then Some ([], l)
              else match splitColon l with Some (p, q) => Some (a :: p, q) | None => None end
  end.
Definition parseTenantTopicKey (s : string) : string * string :=
  let s := TrimSpace s in
  if decide (s = "") then ("", "")
  else match splitColon (chars s) with
       | Some (p, q) => (TrimSpace (unchars p), TrimSpace (unchars q))
       | None => ("*", s)
       end.

Record ThrottleConfig : Type := mkThrottleConfig {
  tc_TopicCaps : gmap string Z; tc_TenantTopicCaps : gmap string Z
}.

Section config.
Context `{MapOrder}.
Definition applyTenantTopicCap (cfg : ThrottleConfig) (c : Caps) (k : string) : Caps :=
  let cap := default 0 (tc_TenantTopicCaps cfg !! k) in
  let '(tenant, topic) := parseTenantTopicKey k in
  if decide (topic = "") then c
  else if decide (tenant = "*" \/ tenant = "") then SetTopicConcurrencyCap topic cap c
  else SetTenantTopicConcurrencyCap tenant topic cap c.
Definition WithThrottleConfig (cfg : ThrottleConfig) (c : Caps) : Caps :=
  let c := foldl (fun c topic => SetTopicConcurrencyCap topic (default 0 (tc_TopicCaps cfg !! topic)) c)
             c (order (dom (tc_TopicCaps cfg))) in
  foldl (applyTenantTopicCap cfg) c (order (dom (tc_TenantTopicCaps cfg))).
End config.

(** The cap that applies to a tenant and topic, with its scope and key; cap 0 is none. *)
Definition concurrencyCapFor (tenantID topic : string) (c : Caps) : Z * string * string :=
  if decide (topic = "") then (0, "", "")
  else
    let byTopic :=
      match topicCaps c !! topic with
      | Some cap => if 0 <? cap then (cap, ThrottleScopeTopic, capKey ThrottleScopeTopic "" topic)
                    else (0, "", "")
      | None => (0, "", "")
      end in
    if decide (tenantID = "") then byTopic
    else match lookup2 (tenantTopicCaps c) tenantID topic with
         | Some cap =>
           if 0 <? cap
           then (cap, ThrottleScopeTenantTopic, capKey ThrottleScopeTenantTopic tenantID topic)
           else byTopic
         | None => byTopic
         end.

(** Slots in use. *)
Definition inUse (c : Caps) (key : string) : Z := default 0 (inflightCaps c !! key).

Definition tryAcquireCap (key : string) (cap : Z) (c : Caps) : Caps * (bool * Z) :=
  if decide (key = "") then (c, (true, 0))
  else if cap <=? 0 then (c, (true, 0))
  else
    let cur := inUse c key in
    if cap <=? cur then (c, (false, cur))
    else (set_inflightCaps (<[key := cur + 1]> (inflightCaps c)) c, (true, cur + 1)).

Definition releaseCap (key : string) (c : Caps) : Caps :=
  if decide (key = "") then c
  else
    let cur := inUse c key in
    if cur <=? 1 then set_inflightCaps (delete key (inflightCaps c)) c
    else set_inflightCaps (<[key := cur - 1]> (inflightCaps c)) c.

Definition shouldEmitThrottle (last : gmap string Time) (key : string) (now : Time)
    (every : Duration) : gmap string Time * bool :=
  if decide (key = "") then (last, false)
  else match last !! key with
       | Some t => if Sub now t <? every then (last, false) else (<[key := now]> last, true)
       | None => (<[key := now]> last, true)
       end.

(** ** Errors of node handlers (delay.go): a delay, wrapped or not, is recognised by
    [errors.As]. *)
Definition ThrottleDelay (retryAfter : Duration) (reason : string) : Duration * string :=
  (if retryAfter <=? 0 then 250 * Millisecond else retryAfter,
   if decide (reason = "") then "throttled" else reason).
Definition Delay (after : Duration) (reason : string) : Duration * string :=
  (if after <? 0 then 0 else after, reason).

(** ** Lemmas *)
Lemma inUse_release key c k :
  inUse (releaseCap key c) k =
  if decide (k = key /\ key <> "") then Z.max 0 (if inUse c key <=? 1 then 0 else inUse c key - 1) else inUse c k.
Proof.
  unfold releaseCap. destruct (decide (key = "")) as [->|Hk]; [by rewrite decide_False by naive_solver|].
  unfold inUse at 1. destruct (Z.leb_spec (inUse c key) 1); simpl; destruct (decide (k = key)) as [->|];
    [rewrite lookup_delete_eq, decide_True by done; simpl; lia|
     rewrite lookup_delete_ne, decide_False by naive_solver; done|
     rewrite lookup_insert_eq, decide_True by done; simpl; lia|
     rewrite lookup_insert_ne, decide_False by naive_solver; done].
Qed.

Lemma inUse_acquire key cap c c' n k :
  tryAcquireCap key cap c = (c', (true, n)) -> key <> "" -> 0 < cap ->
  inUse c key < cap /\ inUse c' k = if decide (k = key) then inUse c key + 1 else inUse c k.
Proof.
  unfold tryAcquireCap. intros E Hk Hcap. rewrite decide_False in E by done.
  destruct (Z.leb_spec cap 0); [lia|]. destruct (Z.leb_spec cap (inUse c key)); [done|].
  injection E as <- _. split; [done|]. unfold inUse at 1. simpl.
  case_decide; subst; [by rewrite lookup_insert_eq|by rewrite lookup_insert_ne].
Qed.
