(* ===== verification/Authz.v ===== *)
(** * Authorization rules (internal/engine/authz.go)

    Principals, rules and bundles with their normalisation, the wildcard matcher, and the
    evaluation of a request and of a workflow.  Storing the bundle is in Governance.v. *)
From S2P Require Import Prelude Storage Graph.
From Stdlib Require Import Ascii.

(** ** Strings *)
Definition starChar : ascii := ascii_of_nat 42.
Definition isPrefix (p l : list ascii) : bool :=
  match strip_prefix p l with Some _ => true | None => false end.
Definition isSuffix (p l : list ascii) : bool := isPrefix (reverse p) (reverse l).
(** [strings.Index]: the first position of [p] in [l]. *)
Fixpoint indexOf (p l : list ascii) : option nat :=
  if isPrefix p l then Some 0%nat
  else match l with [] => None | _ :: l => S <$> indexOf p l end.
(** [strings.Split(s, "*")]. *)
Fixpoint splitStar (l : list ascii) : list (list ascii) :=
  match l with
  | [] => [[]]
  | a :: l =>
    if Ascii.eqb a starChar then [] :: splitStar l
    else match splitStar l with p :: ps => (a :: p) :: ps | [] => [[a]] end
  end.

(** The loop over the parts: each is searched after the previous one, the first must be at
    the start. *)
Fixpoint matchParts (first : bool) (parts : list (list ascii)) (rest : list ascii) : bool :=
  match parts with
  | [] => true
  | part :: parts =>
    if decide (part = []) then matchParts false parts rest
    else
      match indexOf part rest with
      | None => false
      | Some idx =>
        if first && negb (Nat.eqb idx 0) then false
        else matchParts false parts (drop (idx + length part) rest)
      end
  end.

Definition matchPattern (value pattern : string) : bool :=
  let v := chars (TrimSpace value) in
  let p := chars (TrimSpace pattern) in
  if decide (p = []) then false
  else if decide (p = [starChar]) then true
  else if decide (starChar ∉ p) then bool_decide (v = p)
  else
    let parts := splitStar p in
    let firstPart := default [] (head parts) in
    let lastPart := default [] (last parts) in
    if negb (bool_decide (firstPart = [])) && negb (isPrefix firstPart v) then false
    else if negb (bool_decide (lastPart = [])) && negb (isSuffix lastPart v) then false
    else matchParts true parts v.

Definition matchesAnyPattern (value : string) (patterns : list string) : bool :=
  if decide (patterns = []) then true else existsb (matchPattern (TrimSpace value)) patterns.
Definition matchesAnyMember (values patterns : list string) : bool :=
  existsb (fun v => matchesAnyPattern v patterns) values.

(** [normalizeStrings], and [normalizePolicyActions] on action names. *)
Fixpoint dedupTrim (values : list string) (seen : gset string) : list string :=
  match values with
  | [] => []
  | v :: values =>
    let v := TrimSpace v in
    if decide (v = "") then dedupTrim values seen
    else if decide (v ∈ seen) then dedupTrim values seen
    else v :: dedupTrim values ({[v]} ∪ seen)
  end.
Definition normalizeStrings (values : list string) : list string := sortStrings (dedupTrim values ∅).

(** ** Principals *)
Record Principal : Type := mkPrincipal {
  p_ID : string;
  p_Type : string;
  p_TenantID : string;
  p_TenantScopes : list string;
  p_Roles : list string;
  p_Capabilities : list string;
  p_Attributes : gmap string string
}.
Definition noPrincipal : Principal := mkPrincipal "" "" "" [] [] [] ∅.

Section normalize.
Context `{MapOrder}.
Definition normalizeAttributes (m : gmap string string) : gmap string string :=
  foldl (fun out k => let k' := TrimSpace k in
                      if decide (k' = "") then out
                      else <[k' := TrimSpace (default "" (m !! k))]> out) ∅ (order (dom m)).
Definition Normalize (p : Principal) : Principal :=
  let tenant := TrimSpace (p_TenantID p) in
  let scopes := normalizeStrings (p_TenantScopes p) in
  mkPrincipal (TrimSpace (p_ID p)) (TrimSpace (p_Type p)) tenant
    (if decide (tenant <> "" /\ scopes = []) then [tenant] else scopes)
    (normalizeStrings (p_Roles p)) (normalizeStrings (p_Capabilities p))
    (normalizeAttributes (p_Attributes p)).
End normalize.

Definition hasCapability (p : Principal) (capability : string) : bool :=
  let c := TrimSpace capability in
  if decide (c = "") then false else bool_decide (c ∈ p_Capabilities p).

(** ** Rules *)
Definition PolicyEffectAllow : string := "allow".
Definition PolicyEffectDeny : string := "deny".
Definition PolicyActionRunStart : string := "run_start".
Definition PolicyActionToolExecute : string := "tool_execute".

Record AuthorizationRule : Type := mkRule {
  ar_ID : string;
  ar_Description : string;
  Effect : string;
  Actions : list string;
  PrincipalIDs : list string;
  Roles : list string;
  PrincipalCapabilities : list string;
  Tenants : list string;
  Workflows : list string;
  Tools : list string;
  NodeIDs : list string;
  RequiredCapabilities : list string
}.

Record AuthorizationPolicyBundle : Type := mkBundle {
  ab_ID : string; ab_Description : string; ab_UpdatedAt : option Time; Rules : list AuthorizationRule
}.
Definition noBundle : AuthorizationPolicyBundle := mkBundle "" "" None [].

Definition normalizeRule (r : AuthorizationRule) : AuthorizationRule + error :=
  let id := TrimSpace (ar_ID r) in
  if decide (id = "") then inr (ENew "authorization rule id is required")
  else if decide (Effect r <> PolicyEffectAllow /\ Effect r <> PolicyEffectDeny)
  then inr (ENew ("authorization rule " +:+ Quote id +:+ " has invalid effect " +:+ Quote (Effect r)))
  else inl (mkRule id (TrimSpace (ar_Description r)) (Effect r) (normalizeStrings (Actions r))
              (normalizeStrings (PrincipalIDs r)) (normalizeStrings (Roles r))
              (normalizeStrings (PrincipalCapabilities r)) (normalizeStrings (Tenants r))
              (normalizeStrings (Workflows r)) (normalizeStrings (Tools r))
              (normalizeStrings (NodeIDs r)) (normalizeStrings (RequiredCapabilities r))).

Fixpoint normalizeRules (rules : list AuthorizationRule) (seen : gset string) :
    list AuthorizationRule + error :=
  match rules with
  | [] => inl []
  | r :: rules =>
    match normalizeRule r with
    | inr err => inr err
    | inl r =>
      if decide (ar_ID r ∈ seen)
      then inr (ENew ("duplicate authorization rule id " +:+ Quote (ar_ID r)))
      else match normalizeRules rules ({[ar_ID r]} ∪ seen) with
           | inr err => inr err
           | inl rs => inl (r :: rs)
           end
    end
  end.

(** The rules are sorted by their identifiers, which are distinct. *)
Definition rule_le (a b : AuthorizationRule) : Prop := string_le (ar_ID a) (ar_ID b).
#[export] Instance rule_le_dec : RelDecision rule_le.
Proof. intros a b. unfold rule_le. apply _. Defined.

Definition normalizeBundle (b : AuthorizationPolicyBundle) : AuthorizationPolicyBundle + error :=
  match normalizeRules (Rules b) ∅ with
  | inr err => inr err
  | inl rs => inl (mkBundle (TrimSpace (ab_ID b)) (TrimSpace (ab_Description b)) (ab_UpdatedAt b)
                     (merge_sort rule_le rs))
  end.

(** ** Requests *)
Record AuthorizationRequest : Type := mkRequest {
  rq_Action : string;
  rq_RunID : string;
  rq_TenantID : string;
  rq_WorkflowID : string;
  rq_NodeID : string;
  rq_Tool : string;
  rq_RequiredCapability : string;
  rq_Principal : Principal
}.

Record AuthorizationCheck : Type := mkCheck {
  ac_Action : string;
  ac_Allowed : bool;
  ac_RunID : string;
  ac_TenantID : string;
  ac_WorkflowID : string;
  ac_NodeID : string;
  ac_Tool : string;
  ac_RequiredCapability : string;
  ac_Reason : string;
  MatchedAllowRules : list string;
  MatchedDenyRules : list string;
  BuiltinDenials : list string
}.

Definition matchesAction (r : AuthorizationRule) (action : string) : bool :=
  if decide (Actions r = []) then true else bool_decide (action ∈ Actions r).

(** A criterion of a rule applies only when its list is not empty. *)
Definition criterion (l : list string) (b : bool) : bool := if decide (l = []) then true else b.
Definition ruleMatches (r : AuthorizationRule) (q : AuthorizationRequest) : bool :=
  criterion (PrincipalIDs r) (matchesAnyPattern (p_ID (rq_Principal q)) (PrincipalIDs r)) &&
  criterion (Roles r) (matchesAnyMember (p_Roles (rq_Principal q)) (Roles r)) &&
  criterion (PrincipalCapabilities r)
    (matchesAnyMember (p_Capabilities (rq_Principal q)) (PrincipalCapabilities r)) &&
  criterion (Tenants r) (matchesAnyPattern (rq_TenantID q) (Tenants r)) &&
  criterion (Workflows r) (matchesAnyPattern (rq_WorkflowID q) (Workflows r)) &&
  criterion (Tools r) (matchesAnyPattern (rq_Tool q) (Tools r)) &&
  criterion (NodeIDs r) (matchesAnyPattern (rq_NodeID q) (NodeIDs r)) &&
  criterion (RequiredCapabilities r)
    (matchesAnyPattern (rq_RequiredCapability q) (RequiredCapabilities r)).

(** [strings.Join]. *)
Fixpoint Join (l : list string) (sep : string) : string :=
  match l with [] => "" | [x] => x | x :: l => x +:+ sep +:+ Join l sep end.

Section evaluate.
Context `{MapOrder}.

Definition normalizeRequest (q : AuthorizationRequest) : AuthorizationRequest :=
  mkRequest (TrimSpace (rq_Action q)) (TrimSpace (rq_RunID q)) (TrimSpace (rq_TenantID q))
    (TrimSpace (rq_WorkflowID q)) (TrimSpace (rq_NodeID q)) (TrimSpace (rq_Tool q))
    (TrimSpace (rq_RequiredCapability q)) (Normalize (rq_Principal q)).

(** Denials that no rule can lift: the tenant is outside the principal's scopes, the
    capability is missing. *)
Definition builtinDenials (q : AuthorizationRequest) : list string :=
  (if decide (rq_TenantID q <> "" /\ p_TenantScopes (rq_Principal q) <> [] /\
              existsb (matchPattern (rq_TenantID q)) (p_TenantScopes (rq_Principal q)) = false)
   then ["principal tenant scope does not include tenant " +:+ Quote (rq_TenantID q)] else []) ++
  (if decide (rq_RequiredCapability q <> "" /\
              hasCapability (rq_Principal q) (rq_RequiredCapability q) = false)
   then ["principal lacks required capability " +:+ Quote (rq_RequiredCapability q)] else []).

(** Of the rules for the action: is there an allowing one, and the identifiers of the
    allowing and denying ones that match. *)
Definition forAction (rules : list AuthorizationRule) (q : AuthorizationRequest) :
    list AuthorizationRule := filter (fun r => matchesAction r (rq_Action q) = true) rules.
Definition matched (effect : string) (rules : list AuthorizationRule) (q : AuthorizationRequest) :
    list string :=
  ar_ID <$> filter (fun r => ruleMatches r q = true /\ Effect r = effect) (forAction rules q).

Definition evaluateAuthorization (bundle : AuthorizationPolicyBundle) (req : AuthorizationRequest) :
    AuthorizationCheck :=
  let q := normalizeRequest req in
  let denials := builtinDenials q in
  let anyAllow := existsb (fun r => bool_decide (Effect r = PolicyEffectAllow)) (forAction (Rules bundle) q) in
  let allows := matched PolicyEffectAllow (Rules bundle) q in
  let denies := matched PolicyEffectDeny (Rules bundle) q in
  let '(allowed, reason) :=
    if decide (denials <> []) then (false, Join denials "; ")
    else if decide (denies <> []) then (false, "denied by policy rule(s): " +:+ Join denies ", ")
    else if decide (anyAllow = true /\ allows = []) then (false, "no allow rule matched")
    else if decide (allows <> []) then (true, "allowed by policy rule(s): " +:+ Join allows ", ")
    else (true, "allowed") in
  mkCheck (rq_Action q) allowed (rq_RunID q) (rq_TenantID q) (rq_WorkflowID q) (rq_NodeID q) (rq_Tool q)
    (rq_RequiredCapability q) reason allows denies denials.

(** ** Workflows *)
Record WorkflowAuthorizationReport : Type := mkAuthReport {
  wr_Allowed : bool;
  wr_RunID : string;
  wr_TenantID : string;
  wr_WorkflowID : string;
  wr_Reason : string;
  wr_Principal : Principal;
  wr_Checks : list AuthorizationCheck
}.

Context {F : Type}.

(** One check to start the run, and one per node with a topic or a required capability. *)
Definition nodeRequest (runID tenantID workflowID : string) (principal : Principal) (n : NodeDef F) :
    AuthorizationRequest :=
  mkRequest PolicyActionToolExecute runID tenantID workflowID (NodeID n) (nd_Topic n)
    (RequiredCapability n) principal.
Definition needsCheck (n : NodeDef F) : bool :=
  negb (bool_decide (TrimSpace (nd_Topic n) = "") && bool_decide (TrimSpace (RequiredCapability n) = "")).

(** The reason of the first check that fails. *)
Definition evaluateWorkflow (bundle : AuthorizationPolicyBundle) (ctxTenant : string)
    (ctxPrincipal : Principal) (runID : string) (g : WorkflowGraph F) : WorkflowAuthorizationReport :=
  let principal := Normalize ctxPrincipal in
  let tenantID := TrimSpace ctxTenant in
  let tenantID := if decide (tenantID = "") then p_TenantID principal else tenantID in
  let workflowID := TrimSpace (g_ID g) in
  let runID := TrimSpace runID in
  let runCheck := evaluateAuthorization bundle
    (mkRequest PolicyActionRunStart runID tenantID workflowID "" "" "" principal) in
  let checks := runCheck :: ((fun n => evaluateAuthorization bundle (nodeRequest runID tenantID workflowID principal n))
                             <$> filter (fun n => needsCheck n = true) (Nodes g)) in
  match List.find (fun c => negb (ac_Allowed c)) checks with
  | None => mkAuthReport true runID tenantID workflowID "authorized" principal checks
  | Some c => mkAuthReport false runID tenantID workflowID (ac_Reason c) principal checks
  end.
End evaluate.
