(* ===== verification/AuthzSpec.v ===== *)
(** * Authorization decisions are the ones the rules state (properties of Authz.v)

    [glob] is the textbook meaning of a pattern; the searching matcher of the code is proved
    equal to it, and the decision is stated with it. *)
From S2P Require Import Prelude Storage Graph Authz.
From Stdlib Require Import Ascii.

(** ** What a pattern means: a star stands for any characters, any other for itself *)
Inductive glob : list ascii -> list ascii -> Prop :=
| glob_nil : glob [] []
| glob_char a p l : a <> starChar -> glob p l -> glob (a :: p) (a :: l)
| glob_star p g l : glob p l -> glob (starChar :: p) (g ++ l).

(** Parts that follow one another with anything in between, up to the end of the list; and
    without the obligation to reach the end. *)
Fixpoint anchored (ps : list (list ascii)) (l : list ascii) : Prop :=
  match ps with
  | [] => l = []
  | p :: ps => exists g l', l = g ++ p ++ l' /\ anchored ps l'
  end.
Fixpoint loose (ps : list (list ascii)) (l : list ascii) : Prop :=
  match ps with
  | [] => True
  | p :: ps => exists g l', l = g ++ p ++ l' /\ loose ps l'
  end.

Lemma splitStar_ne l : exists p ps, splitStar l = p :: ps.
Proof.
  induction l as [|a l (p&ps&IH)]; simpl; [eauto|]. rewrite IH. destruct (Ascii.eqb a starChar); eauto.
Qed.

Lemma splitStar_nostar l : starChar ∉ l -> splitStar l = [l].
Proof.
  induction l as [|a l IH]; [done|]. rewrite not_elem_of_cons. intros [Ha Hl]. simpl.
  destruct (Ascii.eqb_spec a starChar) as [->|_]; [done|]. by rewrite IH.
Qed.

Lemma splitStar_star l : starChar ∈ l -> exists p q ps, splitStar l = p :: q :: ps.
Proof.
  induction l as [|a l IH]; [by intros ?%elem_of_nil|]. simpl. rewrite elem_of_cons.
  destruct (Ascii.eqb_spec a starChar) as [->|Ha].
  - intros _. destruct (splitStar_ne l) as (p&ps&->). eauto.
  - intros [Hb|(p&q&ps&->)%IH]; [by destruct Ha|]. eauto.
Qed.

Lemma glob_split pat l p ps : splitStar pat = p :: ps ->
  glob pat l <-> exists l', l = p ++ l' /\ anchored ps l'.
Proof.
  revert l p ps. induction pat as [|a pat IH]; intros l p ps; simpl.
  - intros [= <- <-]. split; [inversion 1; by exists []|]. intros (l'&->&->). constructor.
  - destruct (splitStar_ne pat) as (p'&ps'&E). rewrite E.
    destruct (Ascii.eqb_spec a starChar) as [->|Ha]; intros [= <- <-].
    + split.
      * inversion 1 as [| |? g l' Hg]; subst; [done|]. exists (g ++ l'). split; [done|].
        apply (IH _ _ _ E) in Hg as (l''&->&Hl). by exists g, l''.
      * intros (l'&->&g&l''&->&Hl). apply (glob_star _ g), (IH _ _ _ E). eauto.
    + split.
      * inversion 1 as [|? ? l' _ Hg|]; subst; [|done]. apply (IH _ _ _ E) in Hg as (l''&->&Hl). by exists l''.
      * intros (l'&->&Hl). apply glob_char; [done|]. apply (IH _ _ _ E). eauto.
Qed.

Lemma loose_mono ps x l : loose ps l -> loose ps (x ++ l).
Proof.
  destruct ps as [|p ps]; simpl; [done|]. intros (g&l'&->&Hl). exists (x ++ g), l'. by rewrite <- app_assoc.
Qed.

Lemma loose_last ps p l : last ps = Some p -> loose ps l -> exists x y, l = x ++ p ++ y.
Proof.
  revert l. induction ps as [|q ps IH]; intros l; [done|]. simpl. intros Hl (g&l'&->&Hs).
  destruct ps as [|q' ps]; [injection Hl as ->; eauto|].
  destruct (IH _ Hl Hs) as (x&y&->). exists (g ++ q ++ x), y. by rewrite <- !app_assoc.
Qed.

(** A suffix no longer than the tail of a concatenation is a suffix of the tail. *)
Lemma suffix_app_length {A} (p x l : list A) :
  suffix p (x ++ l) -> (length p <= length l)%nat -> suffix p l.
Proof.
  intros [g Hg] Hlen. apply app_eq_inv in Hg as [(k&->&->)|(k&->&->)]; [|by exists k].
  rewrite length_app in Hlen. destruct k; [by exists []|simpl in Hlen; lia].
Qed.

Lemma anchored_loose ps p l : last ps = Some p -> anchored ps l <-> loose ps l /\ suffix p l.
Proof.
  revert l. induction ps as [|q ps IH]; intros l; [done|]. intros Hl.
  destruct ps as [|q' ps].
  - injection Hl as ->. simpl. split.
    + intros (g&l'&->&->). rewrite app_nil_r. split; [|by exists g]. exists g, []. by rewrite app_nil_r.
    + intros [_ [g ->]]. exists g, []. by rewrite app_nil_r.
  - change (last (q' :: ps) = Some p) in Hl. specialize (fun l => IH l Hl). revert IH. generalize (q' :: ps) Hl. clear. intros ps Hl IH. split.
    + intros (g&l'&->&[Hs Hp]%IH). split; [exists g, l'; done|]. rewrite app_assoc. by apply suffix_app_r.
    + intros [(g&l'&->&Hs) Hp]. exists g, l'. split; [done|]. apply IH. split; [done|].
      rewrite app_assoc in Hp. apply (suffix_app_length _ _ _ Hp).
      destruct (loose_last ps p l') as (x&y&->); [done..|].
      rewrite !length_app. lia.
Qed.

(** ** The searches of the code *)
Lemma isPrefix_spec p l : isPrefix p l = true <-> exists l', l = p ++ l'.
Proof.
  unfold isPrefix. destruct (strip_prefix p l) as [l'|] eqn:E.
  - apply strip_prefix_Some in E. naive_solver.
  - split; [done|]. intros [l' Hl]. apply strip_prefix_Some in Hl. congruence.
Qed.

Lemma isSuffix_spec p l : isSuffix p l = true <-> suffix p l.
Proof.
  unfold isSuffix. rewrite isPrefix_spec. split; intros [g Hg]; exists (reverse g).
  - apply (f_equal reverse) in Hg. by rewrite reverse_app, !reverse_involutive in Hg.
  - by rewrite Hg, reverse_app.
Qed.

(** [strings.Index] finds the first occurrence. *)
Lemma indexOf_spec p l :
  match indexOf p l with
  | Some i => exists l', drop i l = p ++ l' /\
                         forall g r, l = g ++ p ++ r -> (i <= length g)%nat
  | None => forall g r, l <> g ++ p ++ r
  end.
Proof.
  induction l as [|a l IH]; simpl; destruct (isPrefix p _) eqn:E.
  - apply isPrefix_spec in E as [l' E]. exists l'. simpl. split; [done|]. lia.
  - intros [|? g] r; [|done]. intros Hr. assert (isPrefix p [] = true) by (apply isPrefix_spec; eauto). congruence.
  - apply isPrefix_spec in E as [l' E]. exists l'. simpl. split; [done|]. lia.
  - destruct (indexOf p l) as [i|]; simpl.
    + destruct IH as (l'&Hl&Hi). exists l'. split; [done|]. intros [|b g] r Hg; simpl.
      * assert (isPrefix p (a :: l) = true) by (apply isPrefix_spec; eauto). congruence.
      * injection Hg as -> Hg. specialize (Hi _ _ Hg). lia.
    + intros [|b g] r Hg; [|injection Hg as -> Hg; by apply (IH g r)].
      assert (isPrefix p (a :: l) = true) by (apply isPrefix_spec; eauto). congruence.
Qed.

Lemma matchParts_loose ps l : matchParts false ps l = true <-> loose ps l.
Proof.
  revert l. induction ps as [|p ps IH]; intros l; simpl; [done|].
  destruct (decide (p = [])) as [->|_].
  { rewrite IH. split; [intros Hl; by exists [], l|]. intros (g&l'&->&Hl). by apply (loose_mono _ g). }
  pose proof (indexOf_spec p l) as Hi. destruct (indexOf p l) as [i|]; simpl.
  - destruct Hi as (l'&Hl&Hi). rewrite IH, <- drop_drop, Hl, drop_app_length. split.
    + intros Hs. exists (take i l), l'. by rewrite <- Hl, take_drop.
    + intros (g&r&->&Hs). specialize (Hi _ _ eq_refl). rewrite drop_app_le in Hl by done.
      assert (exists x, l' = x ++ r) as [x ->]; [|by apply loose_mono].
      destruct (app_eq_inv (drop i g ++ p) r p l') as [(k&_&Hk)|(k&Hk&Hr)];
        [by rewrite <- app_assoc| |]; [by exists k|].
      apply (f_equal length) in Hk. rewrite !length_app in Hk. exists []. destruct k; [done|simpl in Hk; lia].
  - split; [done|]. intros (g&r&->&_). by destruct (Hi g r).
Qed.

(** The matcher of the code, after trimming, decides [glob]. *)
Definition globs (pattern value : string) : Prop :=
  TrimSpace pattern <> "" /\ glob (chars (TrimSpace pattern)) (chars (TrimSpace value)).

Lemma matchFirst p ps l : p <> [] -> isPrefix p l = true ->
  matchParts true (p :: ps) l = matchParts false ps (drop (length p) l).
Proof.
  intros Hp Hpre. simpl. destruct (decide (p = [])) as [|_]; [done|].
  destruct l as [|a l]; simpl; rewrite Hpre; reflexivity.
Qed.

Lemma matchSplit p q ps v :
  (if negb (bool_decide (p = [])) && negb (isPrefix p v) then false
   else if negb (bool_decide (default [] (last (q :: ps)) = [])) &&
           negb (isSuffix (default [] (last (q :: ps))) v) then false
   else matchParts true (p :: q :: ps) v) = true
  <-> exists l', v = p ++ l' /\ anchored (q :: ps) l'.
Proof.
  destruct (last (q :: ps)) as [z|] eqn:Hz; [|apply last_None in Hz; done]. simpl default.
  assert (forall l', matchParts false (q :: ps) l' = true -> suffix z (p ++ l') -> suffix z l') as Hshort.
  { intros l' Hl%matchParts_loose Hs. apply (suffix_app_length _ _ _ Hs). destruct (loose_last _ _ _ Hz Hl) as (x&y&->).
    rewrite !length_app. lia. }
  setoid_rewrite (anchored_loose _ _ _ Hz). setoid_rewrite <- matchParts_loose.
  revert Hz Hshort. generalize (q :: ps). clear. intros ps Hz Hshort.
  assert (negb (bool_decide (z = [])) && negb (isSuffix z v) = false <-> suffix z v) as Hs.
  { rewrite <- isSuffix_spec. case_bool_decide; subst; simpl.
    - split; [|done]. intros _. apply isSuffix_spec. exists v. by rewrite app_nil_r.
    - by destruct (isSuffix z v). }
  assert (forall l', v = p ++ l' -> matchParts true (p :: ps) v = matchParts false ps l') as Hm.
  { intros l' ->. destruct (decide (p = [])) as [->|Hp]; [done|].
    rewrite matchFirst by (done || apply isPrefix_spec; eauto). by rewrite drop_app_length. }
  destruct (negb (bool_decide (p = [])) && negb (isPrefix p v)) eqn:Hp.
  { split; [done|]. intros (l'&->&_). apply andb_prop in Hp as [_ Hp].
    assert (isPrefix p (p ++ l') = true) by (apply isPrefix_spec; eauto). rewrite H in Hp. done. }
  assert (exists l', v = p ++ l') as [l' ->].
  { case_bool_decide; [subst; by exists v|]. simpl in Hp. apply isPrefix_spec. by destruct (isPrefix p v). }
  rewrite (Hm l') by done.
  destruct (negb (bool_decide (z = [])) && negb (isSuffix z (p ++ l'))) eqn:E.
  - split; [done|]. intros (l2&[= <-]%app_inv_head&_&Hs2).
    assert (true = false) as Hf; [|done]. apply Hs. by apply suffix_app_r.
  - split.
    + intros Hl. exists l'. split_and!; [done..|]. apply Hshort; [done|by apply Hs].
    + by intros (l2&[= <-]%app_inv_head&Hl&_).
Qed.

Lemma matchPattern_spec value pattern : matchPattern value pattern = true <-> globs pattern value.
Proof.
  unfold matchPattern, globs. assert (TrimSpace pattern <> "" <-> chars (TrimSpace pattern) <> []) as ->
    by (by destruct (TrimSpace pattern)).
  generalize (chars (TrimSpace pattern)) (chars (TrimSpace value)). intros p v.
  destruct (decide (p = [])) as [->|Hp]; [split; [done|]; by intros []|].
  destruct (decide (p = [starChar])) as [->|Hs].
  { split; [|done]. intros _. split; [done|]. rewrite <- (app_nil_r v). apply glob_star, glob_nil. }
  destruct (decide (starChar ∉ p)) as [Hs'|Hs'].
  - rewrite bool_decide_eq_true, (glob_split p v p []) by by apply splitStar_nostar. simpl.
    split; [intros ->; split; [done|]; exists []; by rewrite app_nil_r|]. intros (_&l'&->&->). by rewrite app_nil_r.
  - destruct (splitStar_star p) as (a&q&ps&E); [by destruct (decide (starChar ∈ p))|].
    rewrite (glob_split p v a (q :: ps) E), E. simpl (head _). simpl (default [] (Some _)).
    change (last (a :: q :: ps)) with (last (q :: ps)). rewrite matchSplit. tauto.
Qed.

(** The matcher accepts a value for a pattern exactly when the trimmed pattern is not
    empty and matches the trimmed value, a star standing for any sequence of characters. *)
Theorem matchPattern_glob value pattern : matchPattern value pattern = true <-> globs pattern value.
Proof. apply matchPattern_spec. Qed.

(** ** Rules *)
Lemma globs_trim p v : globs p (TrimSpace v) <-> globs p v.
Proof. unfold globs. by rewrite TrimSpace_idem. Qed.

(** A list of patterns restricts nothing when it is empty. *)
Definition restricts (patterns values : list string) : Prop :=
  patterns = [] \/ exists p v, p ∈ patterns /\ v ∈ values /\ globs p v.
Definition forActionOf (r : AuthorizationRule) (q : AuthorizationRequest) : Prop :=
  Actions r = [] \/ rq_Action q ∈ Actions r.
Definition applies (r : AuthorizationRule) (q : AuthorizationRequest) : Prop :=
  forActionOf r q /\
  restricts (PrincipalIDs r) [p_ID (rq_Principal q)] /\
  restricts (Roles r) (p_Roles (rq_Principal q)) /\
  restricts (PrincipalCapabilities r) (p_Capabilities (rq_Principal q)) /\
  restricts (Tenants r) [rq_TenantID q] /\
  restricts (Workflows r) [rq_WorkflowID q] /\
  restricts (Tools r) [rq_Tool q] /\
  restricts (NodeIDs r) [rq_NodeID q] /\
  restricts (RequiredCapabilities r) [rq_RequiredCapability q].

Lemma existsb_elem {A} (f : A -> bool) l : existsb f l = true <-> exists x, x ∈ l /\ f x = true.
Proof. rewrite existsb_exists. by setoid_rewrite <- list_elem_of_In. Qed.

Lemma matchesAnyPattern_spec v l : l <> [] ->
  matchesAnyPattern v l = true <-> exists p, p ∈ l /\ globs p v.
Proof.
  intros Hl. unfold matchesAnyPattern. rewrite decide_False by done. rewrite existsb_elem.
  by setoid_rewrite matchPattern_spec; setoid_rewrite globs_trim.
Qed.

Lemma criterion_member l vs : criterion l (matchesAnyMember vs l) = true <-> restricts l vs.
Proof.
  unfold criterion, restricts. destruct (decide (l = [])) as [Hl|Hl]; [tauto|].
  unfold matchesAnyMember. rewrite existsb_elem. setoid_rewrite matchesAnyPattern_spec; [naive_solver|done].
Qed.

Lemma criterion_pattern l v : criterion l (matchesAnyPattern v l) = true <-> restricts l [v].
Proof.
  rewrite <- criterion_member. unfold matchesAnyMember. simpl. by rewrite orb_false_r.
Qed.

Lemma matchesAction_spec r q : matchesAction r (rq_Action q) = true <-> forActionOf r q.
Proof.
  unfold matchesAction, forActionOf. destruct (decide (Actions r = [])); [tauto|].
  rewrite bool_decide_eq_true. tauto.
Qed.

Lemma matched_spec e rules q id :
  id ∈ matched e rules q <-> exists r, r ∈ rules /\ applies r q /\ Effect r = e /\ ar_ID r = id.
Proof.
  unfold matched, forAction. rewrite list_elem_of_fmap. setoid_rewrite list_elem_of_filter.
  setoid_rewrite list_elem_of_filter. setoid_rewrite matchesAction_spec. unfold applies, ruleMatches.
  setoid_rewrite andb_true_iff. repeat setoid_rewrite andb_true_iff.
  setoid_rewrite criterion_pattern. setoid_rewrite criterion_member. naive_solver.
Qed.

Lemma matched_nil e rules q : matched e rules q = [] <-> ~ exists r, r ∈ rules /\ applies r q /\ Effect r = e.
Proof.
  split.
  - intros Hn (r&Hr&Ha&He). assert (ar_ID r ∈ matched e rules q) as Hin by (apply matched_spec; eauto).
    rewrite Hn in Hin. by apply elem_of_nil in Hin.
  - intros Hn. destruct (matched e rules q) as [|id l] eqn:E; [done|].
    assert (id ∈ matched e rules q) as Hin by (rewrite E; left). apply matched_spec in Hin. naive_solver.
Qed.

Section decisions.
Context `{MapOrder}.

(** The principal may act for the tenant, and has the capability asked for. *)
Definition tenantInScope (q : AuthorizationRequest) : Prop :=
  rq_TenantID q = "" \/ restricts (p_TenantScopes (rq_Principal q)) [rq_TenantID q].
Definition capable (q : AuthorizationRequest) : Prop :=
  TrimSpace (rq_RequiredCapability q) = "" \/
  TrimSpace (rq_RequiredCapability q) ∈ p_Capabilities (rq_Principal q).
Definition allowedBy (rules : list AuthorizationRule) (q : AuthorizationRequest) : Prop :=
  tenantInScope q /\ capable q /\
  (~ exists r, r ∈ rules /\ applies r q /\ Effect r = PolicyEffectDeny) /\
  ((exists r, r ∈ rules /\ forActionOf r q /\ Effect r = PolicyEffectAllow) ->
   exists r, r ∈ rules /\ applies r q /\ Effect r = PolicyEffectAllow).

Lemma scopes_spec q :
  existsb (matchPattern (rq_TenantID q)) (p_TenantScopes (rq_Principal q)) = true <->
  exists s, s ∈ p_TenantScopes (rq_Principal q) /\ globs s (rq_TenantID q).
Proof. rewrite existsb_elem. by setoid_rewrite matchPattern_spec. Qed.

Lemma builtinDenials_nil q : rq_RequiredCapability q = TrimSpace (rq_RequiredCapability q) ->
  builtinDenials q = [] <-> tenantInScope q /\ capable q.
Proof.
  intros Hcap. unfold builtinDenials. rewrite app_nil.
  assert (forall (P : Prop) `{Decision P} (x : string), (if decide P then [x] else []) = [] <-> ~ P) as Hif
    by (intros P HP x; destruct (decide P); naive_solver).
  rewrite !Hif. unfold tenantInScope, capable, restricts, hasCapability. rewrite <- Hcap. f_equiv.
  - pose proof (scopes_spec q) as Hs. setoid_rewrite list_elem_of_singleton.
    destruct (decide (rq_TenantID q = "")), (decide (p_TenantScopes (rq_Principal q) = [])); [tauto..|].
    destruct (existsb _ _); [|naive_solver].
    destruct Hs as [[s Hs] _]; [done|]. split; [|by intros _ (_&_&?)]. right. right. naive_solver.
  - destruct (decide (rq_RequiredCapability q = "")); [tauto|].
    case_bool_decide; naive_solver.
Qed.

Lemma evaluateAuthorization_spec bundle req :
  let q := normalizeRequest req in
  let c := evaluateAuthorization bundle req in
  (ac_Allowed c = true <-> allowedBy (Rules bundle) q) /\
  (forall id, id ∈ MatchedAllowRules c <->
     exists r, r ∈ Rules bundle /\ applies r q /\ Effect r = PolicyEffectAllow /\ ar_ID r = id) /\
  (forall id, id ∈ MatchedDenyRules c <->
     exists r, r ∈ Rules bundle /\ applies r q /\ Effect r = PolicyEffectDeny /\ ar_ID r = id).
Proof.
  intros q c.
  assert (builtinDenials q = [] <-> tenantInScope q /\ capable q) as Hb.
  { apply builtinDenials_nil. unfold q, normalizeRequest. simpl. by rewrite TrimSpace_idem. }
  pose proof (matched_nil PolicyEffectDeny (Rules bundle) q) as Hd.
  pose proof (matched_nil PolicyEffectAllow (Rules bundle) q) as Ha.
  assert (existsb (fun r => bool_decide (Effect r = PolicyEffectAllow)) (forAction (Rules bundle) q) = true <->
          exists r, r ∈ Rules bundle /\ forActionOf r q /\ Effect r = PolicyEffectAllow) as He.
  { rewrite existsb_elem. unfold forAction. setoid_rewrite list_elem_of_filter.
    setoid_rewrite matchesAction_spec. setoid_rewrite bool_decide_eq_true. naive_solver. }
  unfold c, evaluateAuthorization. fold q. unfold allowedBy. rewrite <- Hd, <- He.
  pose proof (matched_spec PolicyEffectAllow (Rules bundle) q) as Hms.
  pose proof (matched_spec PolicyEffectDeny (Rules bundle) q) as Hmd.
  destruct (decide (builtinDenials q <> [])) as [Hn|Hn]; [simpl; split_and!; [split; [done|tauto]|done..]|].
  destruct (decide (matched PolicyEffectDeny _ _ <> [])) as [Hn2|Hn2]; [simpl; split_and!; [split; [done|tauto]|done..]|].
  assert (~ ~ builtinDenials q = [] -> builtinDenials q = []) as Hdec by (destruct (builtinDenials q); naive_solver).
  assert (~ ~ matched PolicyEffectDeny (Rules bundle) q = [] -> matched PolicyEffectDeny (Rules bundle) q = [])
    as Hdec2 by (destruct (matched _ _ _); naive_solver).
  set (al := matched PolicyEffectAllow _ _) in *.
  assert (al = [] \/ exists r, r ∈ Rules bundle /\ applies r q /\ Effect r = PolicyEffectAllow) as Hal.
  { destruct al as [|id al']; [by left|]. right. destruct (Hms id) as [Hm _]. destruct Hm as (r&?&?&?&?); [left|]. eauto. }
  destruct (decide (existsb _ _ = true /\ al = [])) as [[Hn3 Hn4]|Hn3]; [simpl; split_and!; [split; [done|tauto]|done..]|].
  assert (tenantInScope q /\ capable q /\ matched PolicyEffectDeny (Rules bundle) q = [] /\
          (existsb (fun r => bool_decide (Effect r = PolicyEffectAllow)) (forAction (Rules bundle) q) = true ->
           exists r, r ∈ Rules bundle /\ applies r q /\ Effect r = PolicyEffectAllow)) by tauto.
  destruct (decide (al <> [])); simpl; split_and!; done.
Qed.

(** C18: A request is allowed exactly when its tenant is within the principal's scopes, the
    principal has the required capability, no denying rule applies and, when some rule
    allows the action at all, an allowing rule applies; the report names the applying rules. *)
Theorem evaluateAuthorization_exact bundle req :
  let q := normalizeRequest req in
  let c := evaluateAuthorization bundle req in
  (ac_Allowed c = true <-> allowedBy (Rules bundle) q) /\
  (forall id, id ∈ MatchedAllowRules c <->
     exists r, r ∈ Rules bundle /\ applies r q /\ Effect r = PolicyEffectAllow /\ ar_ID r = id) /\
  (forall id, id ∈ MatchedDenyRules c <->
     exists r, r ∈ Rules bundle /\ applies r q /\ Effect r = PolicyEffectDeny /\ ar_ID r = id).
Proof. apply evaluateAuthorization_spec. Qed.

(** ** Workflows *)
(** The requests that stand for a run of the graph. *)
Definition runTenant (ctxTenant : string) (p : Principal) : string :=
  if decide (TrimSpace ctxTenant = "") then p_TenantID (Normalize p) else TrimSpace ctxTenant.
Definition startRequest {F} (ctxTenant : string) (p : Principal) (runID : string) (g : WorkflowGraph F) :
    AuthorizationRequest :=
  mkRequest PolicyActionRunStart (TrimSpace runID) (runTenant ctxTenant p) (TrimSpace (g_ID g)) "" "" ""
    (Normalize p).
Definition stepRequest {F} (ctxTenant : string) (p : Principal) (runID : string) (g : WorkflowGraph F)
    (n : NodeDef F) : AuthorizationRequest :=
  nodeRequest (TrimSpace runID) (runTenant ctxTenant p) (TrimSpace (g_ID g)) (Normalize p) n.

Lemma find_spec {A} (f : A -> bool) l :
  match List.find f l with
  | Some x => x ∈ l /\ f x = true
  | None => forall x, x ∈ l -> f x = false
  end.
Proof.
  destruct (List.find f l) as [x|] eqn:E.
  - apply find_some in E as [Hx Hf]. split; [by apply list_elem_of_In|done].
  - intros x Hx%list_elem_of_In. by apply (find_none _ _ E).
Qed.

Lemma needsCheck_spec {F} (n : NodeDef F) :
  needsCheck n = true <-> TrimSpace (nd_Topic n) <> "" \/ TrimSpace (RequiredCapability n) <> "".
Proof. unfold needsCheck. repeat case_bool_decide; naive_solver. Qed.

Lemma evaluateWorkflow_spec {F} bundle ctxTenant p runID (g : WorkflowGraph F) :
  let rep := evaluateWorkflow bundle ctxTenant p runID g in
  (wr_Allowed rep = true <->
   allowedBy (Rules bundle) (normalizeRequest (startRequest ctxTenant p runID g)) /\
   forall n, n ∈ Nodes g -> TrimSpace (nd_Topic n) <> "" \/ TrimSpace (RequiredCapability n) <> "" ->
     allowedBy (Rules bundle) (normalizeRequest (stepRequest ctxTenant p runID g n))) /\
  (wr_Allowed rep = false ->
   exists c, c ∈ wr_Checks rep /\ ac_Allowed c = false /\ wr_Reason rep = ac_Reason c).
Proof.
  intros rep. unfold rep, evaluateWorkflow. fold (runTenant ctxTenant p). fold (startRequest ctxTenant p runID g).
  fold (stepRequest ctxTenant p runID g). set (cs := _ :: _).
  assert ((forall c, c ∈ cs -> ac_Allowed c = true) <->
    allowedBy (Rules bundle) (normalizeRequest (startRequest ctxTenant p runID g)) /\
    forall n, n ∈ Nodes g -> TrimSpace (nd_Topic n) <> "" \/ TrimSpace (RequiredCapability n) <> "" ->
      allowedBy (Rules bundle) (normalizeRequest (stepRequest ctxTenant p runID g n))) as <-.
  { unfold cs. setoid_rewrite elem_of_cons. setoid_rewrite list_elem_of_fmap.
    setoid_rewrite list_elem_of_filter.
    pose proof (fun req => proj1 (evaluateAuthorization_spec bundle req)) as He. cbv zeta in He.
    pose proof (fun n : NodeDef F => needsCheck_spec n) as Hn. rewrite <- He. split.
    - intros Hall. split; [by apply Hall; left|]. intros n Hin Hc. apply He, Hall. right. exists n.
      by rewrite Hn.
    - intros [Hs Hall] c [->|(n&->&Hc&Hin)]; [done|]. apply He, Hall; [done|]. by apply Hn. }
  pose proof (find_spec (fun c => negb (ac_Allowed c)) cs) as Hf. destruct (List.find _ _) as [c|]; simpl.
  - destruct Hf as [Hc Hf]. split; [|intros _; exists c; by destruct (ac_Allowed c)].
    split; [done|]. intros Hall. by rewrite (Hall c Hc) in Hf.
  - split; [|done]. split; [|done]. intros _ c Hc%Hf. by destruct (ac_Allowed c).
Qed.

(** A workflow is authorised exactly when starting it is allowed and every node with a
    topic or a required capability is; a refusal gives the reason of a refused check. *)
Theorem evaluateWorkflow_exact {F} bundle ctxTenant p runID (g : WorkflowGraph F) :
  let rep := evaluateWorkflow bundle ctxTenant p runID g in
  (wr_Allowed rep = true <->
   allowedBy (Rules bundle) (normalizeRequest (startRequest ctxTenant p runID g)) /\
   forall n, n ∈ Nodes g -> TrimSpace (nd_Topic n) <> "" \/ TrimSpace (RequiredCapability n) <> "" ->
     allowedBy (Rules bundle) (normalizeRequest (stepRequest ctxTenant p runID g n))) /\
  (wr_Allowed rep = false ->
   exists c, c ∈ wr_Checks rep /\ ac_Allowed c = false /\ wr_Reason rep = ac_Reason c).
Proof. apply evaluateWorkflow_spec. Qed.
End decisions.

(** ** Bundles *)
Lemma normalizeRules_spec rules seen rs : normalizeRules rules seen = inl rs ->
  NoDup (ar_ID <$> rs) /\ (forall r, r ∈ rs -> (ar_ID r ∉ seen) /\ exists r0, r0 ∈ rules /\ normalizeRule r0 = inl r) /\
  length rs = length rules.
Proof.
  revert seen rs. induction rules as [|r rules IH]; intros seen rs; simpl.
  - intros [= <-]. split_and!; [constructor|by intros r ?%elem_of_nil|done].
  - destruct (normalizeRule r) as [r'|] eqn:E; [|done]. destruct (decide (ar_ID r' ∈ seen)); [done|].
    destruct (normalizeRules rules _) as [rs'|] eqn:E'; [|done]. intros [= <-].
    destruct (IH _ _ E') as (Hnd&Hr&Hlen). split_and!; simpl; [|..|lia].
    + constructor; [|done]. intros (x&Hx&[Hs _]%Hr)%list_elem_of_fmap. set_solver.
    + intros x [->|Hx]%elem_of_cons; [split; [done|]; exists r; split; [left|done]|].
      destruct (Hr x Hx) as (Hs&r0&?&?). split; [set_solver|]. exists r0. split; [by right|done].
Qed.

(** A stored bundle has valid rules with distinct, non-empty identifiers, sorted by them. *)
Theorem normalizeBundle_wf b b' : normalizeBundle b = inl b' ->
  NoDup (ar_ID <$> Rules b') /\ Sorted rule_le (Rules b') /\
  length (Rules b') = length (Rules b) /\
  (forall r, r ∈ Rules b' -> ar_ID r <> "" /\ TrimSpace (ar_ID r) = ar_ID r /\
     (Effect r = PolicyEffectAllow \/ Effect r = PolicyEffectDeny)).
Proof.
  unfold normalizeBundle. destruct (normalizeRules (Rules b) ∅) as [rs|] eqn:E; [|done]. intros [= <-]. simpl.
  apply normalizeRules_spec in E as (Hnd&Hr&Hlen).
  assert (Permutation (merge_sort rule_le rs) rs) as Hp by apply merge_sort_Permutation.
  split_and!.
  - by rewrite Hp.
  - apply Sorted_merge_sort. intros x y. apply string_le_total.
  - by rewrite Hp.
  - intros r Hin. rewrite Hp in Hin. destruct (Hr r Hin) as (_&r0&_&Hn). unfold normalizeRule in Hn.
    destruct (decide (TrimSpace (ar_ID r0) = "")) as [|Hne]; [done|].
    destruct (decide (_ /\ _)) as [|He]; [done|]. injection Hn as <-. simpl. split_and!; [done|by rewrite TrimSpace_idem|].
    destruct (decide (Effect r0 = PolicyEffectAllow)); [by left|]. destruct (decide (Effect r0 = PolicyEffectDeny)); tauto.
Qed.

Definition demoRule (id effect : string) (tools : list string) : AuthorizationRule :=
  mkRule id "" effect [] [] [] [] [] [] tools [] [].
Definition demoBundle : AuthorizationPolicyBundle :=
  mkBundle "b" "" None [demoRule " z " PolicyEffectAllow []; demoRule "a" PolicyEffectDeny ["shell.*"]].
Lemma normalizeBundle_wf_witness :
  exists b', normalizeBundle demoBundle = inl b' /\ NoDup (ar_ID <$> Rules b').
Proof.
  eexists. split; [vm_compute; reflexivity|].
  apply (fun H => proj1 (normalizeBundle_wf demoBundle _ H)). vm_compute; reflexivity.
Defined.

