(* ===== verification/Risk.v ===== *)
(** * Risk of a workflow (internal/engine/risk.go, the pure part)

    Policy thresholds, the detectors over the initial input and the topics of the graph, the
    score and the action it leads to.  The gate that enforces the report is in Admission.v.
    A decoded JSON value is an inductive type, its objects listed in the order the map is
    ranged over; the decoder itself is a parameter. *)
From S2P Require Import Prelude Storage Graph EngineStore Authz.

(** ** Data *)
Definition RiskActionAllow : string := "allow".
Definition RiskActionSandbox : string := "sandbox".
Definition RiskActionRequireApproval : string := "require_approval".
Definition RiskActionBlock : string := "block".
Definition RiskSeverityLow : string := "low".
Definition RiskSeverityMedium : string := "medium".
Definition RiskSeverityHigh : string := "high".
Definition RiskSeverityCritical : string := "critical".
Definition RiskCategoryPromptInjection : string := "prompt_injection".
Definition RiskCategorySuspiciousChain : string := "suspicious_tool_chain".
Definition RiskCategoryUnusualDataMotion : string := "unusual_data_movement".

Record RiskThresholds : Type := mkThresholds { SandboxScore : Z; ApprovalScore : Z; BlockScore : Z }.
Record RiskPolicy : Type := mkRiskPolicy {
  rp_ID : string; rp_Description : string; rp_UpdatedAt : option Time; Thresholds : RiskThresholds
}.
Record RiskFinding : Type := mkFinding {
  Category : string; Severity : string; Score : Z; Summary : string; Evidence : list string
}.
Record WorkflowRiskReport : Type := mkRiskReport {
  wk_Allowed : bool;
  wk_Action : string;
  wk_Score : Z;
  wk_Reason : string;
  wk_RunID : string;
  wk_TenantID : string;
  wk_WorkflowID : string;
  wk_Principal : Principal;
  wk_Thresholds : RiskThresholds;
  Findings : list RiskFinding
}.

#[local] Set Warnings "-register-all".
Inductive json : Type :=
| JNull
| JBool (b : bool)
| JNumber (text : string)
| JString (s : string)
| JArray (items : list json)
| JObject (members : list (string * json)).

(** ** Policy *)
Definition defaultRiskPolicy : RiskPolicy := mkRiskPolicy "" "" None (mkThresholds 30 60 90).

Definition normalizeRiskPolicy (p : RiskPolicy) : RiskPolicy + error :=
  let def := Thresholds defaultRiskPolicy in
  let pick x d := if x <=? 0 then d else x in
  let t := mkThresholds (pick (SandboxScore (Thresholds p)) (SandboxScore def))
             (pick (ApprovalScore (Thresholds p)) (ApprovalScore def))
             (pick (BlockScore (Thresholds p)) (BlockScore def)) in
  if ApprovalScore t <=? SandboxScore t
  then inr (ENew "risk policy sandbox_score must be lower than approval_score")
  else if BlockScore t <=? ApprovalScore t
  then inr (ENew "risk policy approval_score must be lower than block_score")
  else inl (mkRiskPolicy (TrimSpace (rp_ID p)) (TrimSpace (rp_Description p)) (rp_UpdatedAt p) t).

Definition riskActionForScore (score : Z) (t : RiskThresholds) : string :=
  if BlockScore t <=? score then RiskActionBlock
  else if ApprovalScore t <=? score then RiskActionRequireApproval
  else if SandboxScore t <=? score then RiskActionSandbox
  else RiskActionAllow.

Definition severityForScore (score : Z) : string :=
  if 75 <=? score then RiskSeverityCritical
  else if 45 <=? score then RiskSeverityHigh
  else if 25 <=? score then RiskSeverityMedium
  else RiskSeverityLow.

(** ** Text *)
Definition containsAny (value : string) (needles : list string) : bool := existsb (Contains value) needles.

Fixpoint collectStringsRecursive (v : json) : list string :=
  match v with
  | JString s => [s]
  | JArray items => (fix go l := match l with [] => [] | x :: l => collectStringsRecursive x ++ go l end) items
  | JObject ms =>
    (fix go l := match l with [] => [] | (_, x) :: l => collectStringsRecursive x ++ go l end) ms
  | _ => []
  end.
Definition isSensitiveKey (key : string) : bool :=
  containsAny (ToLower (TrimSpace key))
    ["password"; "secret"; "token"; "credential"; "api_key"; "private_key"; "ssn"; "pii"].
Fixpoint collectSensitiveKeysRecursive (v : json) (seen : gset string) : gset string :=
  match v with
  | JArray items =>
    (fix go l seen := match l with [] => seen | x :: l => go l (collectSensitiveKeysRecursive x seen) end)
      items seen
  | JObject ms =>
    (fix go l seen :=
       match l with
       | [] => seen
       | (key, x) :: l =>
         go l (collectSensitiveKeysRecursive x (if isSensitiveKey key then {[key]} ∪ seen else seen))
       end) ms seen
  | _ => seen
  end.

Record topicProfile : Type := mkProfile {
  Network : bool; Exec : bool; Filesystem : bool; Database : bool; Secret : bool
}.
Definition classifyTopic (topic : string) : topicProfile :=
  let topic := ToLower (TrimSpace topic) in
  mkProfile
    (containsAny topic ["http"; "https"; "web"; "fetch"; "request"; "upload"; "download"; "post"; "send";
                        "email"; "smtp"; "slack"; "webhook"])
    (containsAny topic ["shell"; "exec"; "cmd"; "powershell"; "bash"; "terminal"; "process"])
    (containsAny topic ["file"; "fs"; "disk"; "blob"; "bucket"; "s3"; "storage"])
    (containsAny topic ["db"; "sql"; "query"; "warehouse"; "table"; "record"])
    (containsAny topic ["secret"; "vault"; "credential"; "token"; "private_key"; "api_key"; "passwd"; "password"]).

(** ** Detectors *)
Definition injectionPatterns : list string :=
  ["ignore previous instructions"; "ignore prior instructions"; "ignore system prompt";
   "reveal system prompt"; "developer instructions"; "bypass safety"; "disable guardrails";
   "jailbreak"; "exfiltrate"; "leak secrets"; "reveal secrets"; "override policy"].
(** One snippet per value that contains a pattern, without repetition. *)
Fixpoint injectionEvidence (values : list string) (seen : gset string) : list string :=
  match values with
  | [] => []
  | v :: values =>
    let sample := TrimSpace v in
    if decide (sample = "") then injectionEvidence values seen
    else if containsAny (ToLower sample) injectionPatterns then
      let snippet := String.substring 0 96 sample in
      if decide (snippet ∈ seen) then injectionEvidence values seen
      else snippet :: injectionEvidence values ({[snippet]} ∪ seen)
    else injectionEvidence values seen
  end.

Section detectors.
Context {F : Type} `{MapOrder} (decode : bytes -> option json).
Implicit Types g : WorkflowGraph F.

Definition collectJSONStrings (raw : bytes) : list string :=
  if decide (raw = []) then []
  else match decode raw with None => [] | Some v => collectStringsRecursive v end.
Definition collectSensitiveJSONKeys (raw : bytes) : list string :=
  if decide (raw = []) then []
  else match decode raw with None => [] | Some v => order (collectSensitiveKeysRecursive v ∅) end.

Definition detectPromptInjection (input : bytes) : list RiskFinding :=
  let values := collectJSONStrings input in
  let values := if decide (values = [] /\ input <> []) then [String.string_of_list_byte input] else values in
  let evidence := injectionEvidence values ∅ in
  if decide (evidence = []) then []
  else
    let n := length evidence in
    let score := Z.min 65 (45 + (if (1 <? n)%nat then 10 else 0) + (if (2 <? n)%nat then 10 else 0)) in
    [mkFinding RiskCategoryPromptInjection (severityForScore score) score
       "input contains prompt-injection-shaped instructions" evidence].

(** The topics at the two ends of every edge; without edges, of every two nodes in a row. *)
Fixpoint adjacentTopics (nodes : list (NodeDef F)) : list (string * string) :=
  match nodes with
  | a :: (b :: _) as rest => (TrimSpace (nd_Topic a), TrimSpace (nd_Topic b)) :: adjacentTopics rest
  | _ => []
  end.
Definition topicByNode g : gmap string string :=
  foldl (fun m n => <[NodeID n := TrimSpace (nd_Topic n)]> m) ∅ (Nodes g).
Definition workflowTopicPairs g : list (string * string) :=
  filter (fun p => p.1 <> "" /\ p.2 <> "")
    (if decide (Edges g = []) then adjacentTopics (Nodes g)
     else (fun e => (default "" (topicByNode g !! From e), default "" (topicByNode g !! To e))) <$> Edges g).

Definition pairEvidence (p : string * string) : string := p.1 +:+ " -> " +:+ p.2.
(** The summary is the same for all pairs, so that only the first pair is reported. *)
Definition detectSuspiciousToolChains g : list RiskFinding :=
  match List.find (fun p => Network (classifyTopic p.1) && Exec (classifyTopic p.2)) (workflowTopicPairs g) with
  | Some p => [mkFinding RiskCategorySuspiciousChain RiskSeverityHigh 45
                 "workflow chains network retrieval into command execution" [pairEvidence p]]
  | None =>
    if existsb (fun n => Network (classifyTopic (nd_Topic n))) (Nodes g) &&
       existsb (fun n => Exec (classifyTopic (nd_Topic n))) (Nodes g)
    then [mkFinding RiskCategorySuspiciousChain RiskSeverityMedium 35
            "workflow mixes outbound network access with command execution" []]
    else []
  end.

Definition movesData (p : string * string) : bool :=
  let f := classifyTopic p.1 in
  (Secret f || Database f || Filesystem f) && Network (classifyTopic p.2).
Definition workflowHasOutboundTopic g : bool :=
  existsb (fun n => Network (classifyTopic (nd_Topic n))) (Nodes g).
Definition detectUnusualDataMovement g (input : bytes) : list RiskFinding :=
  (match List.find movesData (workflowTopicPairs g) with
   | Some p =>
     let score := if Secret (classifyTopic p.1) then 75 else 65 in
     [mkFinding RiskCategoryUnusualDataMotion (severityForScore score) score
        "workflow moves internal or sensitive data toward outbound tools" [pairEvidence p]]
   | None => []
   end) ++
  (let keys := collectSensitiveJSONKeys input in
   if decide (keys <> []) then
     if workflowHasOutboundTopic g then
       [mkFinding RiskCategoryUnusualDataMotion RiskSeverityHigh 40
          "workflow combines sensitive input fields with outbound delivery tools" (sortStrings keys)]
     else []
   else []).

(** ** The report *)
Definition finding_less (a b : RiskFinding) : bool :=
  if Score a =? Score b then string_lt (Summary a) (Summary b) else Score b <? Score a.
Definition allFindings g (input : bytes) : list RiskFinding :=
  sortSlice finding_less
    (detectPromptInjection input ++ detectSuspiciousToolChains g ++ detectUnusualDataMovement g input).
Definition riskScore (fs : list RiskFinding) : Z := Z.min 100 (foldl (fun s f => s + Score f) 0 fs).
Definition riskReason (action : string) : string :=
  if decide (action = RiskActionAllow) then "risk score below sandbox threshold"
  else if decide (action = RiskActionSandbox) then "risk score requires sandbox execution"
  else if decide (action = RiskActionRequireApproval) then "risk score requires manual approval"
  else "risk score requires blocking execution".

(** The report for a normalised policy. *)
Definition evaluateRisk (t : RiskThresholds) (ctxTenant : string) (ctxPrincipal : Principal)
    (runID : string) g (input : bytes) : WorkflowRiskReport :=
  let principal := Normalize ctxPrincipal in
  let tenantID := TrimSpace ctxTenant in
  let findings := allFindings g input in
  let score := riskScore findings in
  let action := riskActionForScore score t in
  mkRiskReport (bool_decide (action = RiskActionAllow \/ action = RiskActionSandbox)) action score
    (riskReason action) (TrimSpace runID)
    (if decide (tenantID = "") then p_TenantID principal else tenantID)
    (TrimSpace (g_ID g)) principal t findings.
End detectors.
