(* ===== verification/Tools.v ===== *)
(** * Tools (internal/engine/tool_gateway.go, side_effects.go, brain.go, the pure part)

    Tool policies and servers with their normalisation, the JSON schema check, the redaction
    of values before they are recorded, and the routing data.  Using them is in Gateway.v and
    SideEffects.v. *)
From S2P Require Import Prelude Storage Graph EngineStore Authz Risk.
From Stdlib Require Import Ascii Floats.SpecFloat.

(** ** Numbers *)
Definition fone : float64 := binary_normalize 53 1024 1 0 false.
(** [float64(n)]. *)
Definition ofInt (n : Z) : float64 := binary_normalize 53 1024 n 0 false.
(** [int64(x)] truncates; outside of the range of int64 it is the least integer (amd64). *)
Definition toInt64 (x : float64) : Z :=
  match x with
  | S754_finite s m e =>
    let a := if 0 <=? e then Z.pos m * 2 ^ e else Z.pos m / 2 ^ (- e) in
    let v := if s then - a else a in
    if (minInt64 <=? v) && (v <=? maxInt64) then v else minInt64
  | S754_zero _ => 0
  | _ => minInt64
  end.

(** ** Errors *)
Definition ErrToolNotApproved : error := ESentinel "ErrToolNotApproved" "tool is not approved".
Definition ErrToolServerNotApproved : error :=
  ESentinel "ErrToolServerNotApproved" "tool server is not approved".
Definition ErrToolSchemaInvalid : error :=
  ESentinel "ErrToolSchemaInvalid" "tool schema validation failed".
Definition ErrToolCallNotFound : error := ESentinel "ErrToolCallNotFound" "tool call not found".
(** [fmt.Errorf("%w: ...", err)]. *)
Definition wrapf (err : error) (msg : string) : error := EWrap (Error err +:+ ": " +:+ msg) err.

(** ** Data *)
Definition defaultToolServerID : string := "local".

Record SideEffectPolicy : Type := mkSideEffect {
  Enabled : bool;
  StageRequired : bool;
  DryRunSupported : bool;
  Irreversible : bool;
  ApprovalBeforeCommit : bool;
  CompensationTool : string
}.
Definition noSideEffect : SideEffectPolicy := mkSideEffect false false false false false "".

Record AdaptiveRoute : Type := mkRoute {
  rt_ID : string;
  rt_Provider : string;
  rt_Model : string;
  EstimatedTokens : Z;
  EstimatedDollars : float64;
  rt_Priority : Z;
  rt_TenantScopes : list string
}.
Definition noRoute : AdaptiveRoute := mkRoute "" "" "" 0 fzero 0 [].

Record AdaptiveRoutingPolicy : Type := mkRouting {
  CheapFirst : bool;
  EscalateOnUncertainty : bool;
  UncertaintyThreshold : float64;
  EscalateOnFailure : bool;
  FailureAttemptThreshold : Z;
  EscalateOnRisk : bool;
  RiskScoreThreshold : Z;
  Routes : list AdaptiveRoute
}.

Record ToolPolicy : Type := mkToolPolicy {
  tp_ID : string;
  tp_Tool : string;
  tp_ServerID : string;
  tp_Approved : bool;
  SandboxRequired : bool;
  tp_SideEffect : option SideEffectPolicy;
  AdaptiveRouting : option AdaptiveRoutingPolicy;
  tp_TenantScopes : list string;
  RedactFields : list string;
  tp_InputSchema : bytes;
  tp_OutputSchema : bytes
}.
Definition noToolPolicy : ToolPolicy := mkToolPolicy "" "" "" false false None None [] [] [] [].

Record ToolServerDefinition : Type := mkServer {
  ts_ID : string;
  ts_Kind : string;
  ts_Endpoint : string;
  ts_Description : string;
  ts_Approved : bool;
  AllowedTools : list string;
  ts_TenantScopes : list string;
  SandboxAllowed : bool
}.
Definition noServer : ToolServerDefinition := mkServer "" "" "" "" false [] [] false.

Record ToolGatewayBundle : Type := mkToolBundle {
  tb_Tools : list ToolPolicy; tb_Servers : list ToolServerDefinition; tb_UpdatedAt : option Time
}.

Record ToolCallRecord : Type := mkCallRecord {
  tc_ID : string;
  tc_At : Time;
  tc_TenantID : string;
  tc_PrincipalID : string;
  tc_RunID : string;
  tc_WorkflowID : string;
  tc_NodeID : string;
  tc_Attempt : Z;
  tc_Tool : string;
  tc_ServerID : string;
  tc_ServerKind : string;
  tc_RouteID : string;
  tc_Provider : string;
  tc_Model : string;
  tc_Allowed : bool;
  tc_Sandboxed : bool;
  tc_DurationMS : Z;
  tc_Reason : string;
  tc_Input : bytes;
  tc_Output : bytes;
  tc_Error : string
}.

(** brain.go *)
Record BrainWeights : Type := mkWeights {
  bw_SuccessRate : float64; bw_WorkflowAffinity : float64; bw_Latency : float64;
  bw_Cost : float64; bw_Priority : float64; bw_Escalation : float64
}.
Record BrainPolicy : Type := mkBrainPolicy {
  bp_Enabled : bool;
  LookbackRecords : Z;
  MinSamples : Z;
  DefaultSuccessRate : float64;
  DefaultLatencyMS : Z;
  Weights : BrainWeights
}.

(** ** Normalisation *)
Definition cloneSideEffectPolicy (p : SideEffectPolicy) : SideEffectPolicy :=
  mkSideEffect (Enabled p) (StageRequired p) (DryRunSupported p) (Irreversible p)
    (ApprovalBeforeCommit p) (TrimSpace (CompensationTool p)).
Definition normalizeSideEffectPolicy (p : option SideEffectPolicy) : option SideEffectPolicy :=
  (fun p =>
     let tool := TrimSpace (CompensationTool p) in
     mkSideEffect (Enabled p || negb (bool_decide (tool = "")) || StageRequired p || DryRunSupported p ||
                   Irreversible p || ApprovalBeforeCommit p)
       (StageRequired p) (DryRunSupported p) (Irreversible p) (ApprovalBeforeCommit p) tool) <$> p.

Definition cloneRoute (r : AdaptiveRoute) : AdaptiveRoute :=
  mkRoute (TrimSpace (rt_ID r)) (TrimSpace (rt_Provider r)) (TrimSpace (rt_Model r)) (EstimatedTokens r)
    (EstimatedDollars r) (rt_Priority r) (rt_TenantScopes r).
Definition cloneAdaptiveRoutingPolicy (p : AdaptiveRoutingPolicy) : AdaptiveRoutingPolicy :=
  mkRouting (CheapFirst p) (EscalateOnUncertainty p) (UncertaintyThreshold p) (EscalateOnFailure p)
    (FailureAttemptThreshold p) (EscalateOnRisk p) (RiskScoreThreshold p) (cloneRoute <$> Routes p).

(** [dedupeSortedStrings]: trimmed, without empty ones and duplicates, sorted. *)
Definition dedupeSortedStrings (items : list string) : list string := normalizeStrings items.

(** A route without a name is named after its position. *)
Definition normalizeRoute (i : Z) (r : AdaptiveRoute) : AdaptiveRoute :=
  let id := TrimSpace (rt_ID r) in
  mkRoute (if decide (id = "") then "route-" +:+ pretty (i + 1) else id) (TrimSpace (rt_Provider r))
    (TrimSpace (rt_Model r)) (EstimatedTokens r) (EstimatedDollars r) (rt_Priority r)
    (dedupeSortedStrings (rt_TenantScopes r)).
Fixpoint normalizeRoutes (i : Z) (routes : list AdaptiveRoute) (seen : gset string) :
    list AdaptiveRoute + error :=
  match routes with
  | [] => inl []
  | r :: routes =>
    let r := normalizeRoute i r in
    if decide (rt_ID r ∈ seen) then inr (ENew ("duplicate adaptive route id " +:+ Quote (rt_ID r)))
    else match normalizeRoutes (i + 1) routes ({[rt_ID r]} ∪ seen) with
         | inr err => inr err
         | inl rs => inl (r :: rs)
         end
  end.
Definition clampUnit (x : float64) : float64 :=
  let x := if fltb x fzero then fzero else x in if fltb fone x then fone else x.
Definition normalizeAdaptiveRoutingPolicy (p : option AdaptiveRoutingPolicy) :
    option AdaptiveRoutingPolicy + error :=
  match p with
  | None => inl None
  | Some p =>
    match normalizeRoutes 0 (Routes p) ∅ with
    | inr err => inr err
    | inl rs =>
      inl (Some (mkRouting (CheapFirst p) (EscalateOnUncertainty p) (clampUnit (UncertaintyThreshold p))
        (EscalateOnFailure p) (if FailureAttemptThreshold p <=? 0 then 2 else FailureAttemptThreshold p)
        (EscalateOnRisk p) (if RiskScoreThreshold p <=? 0 then 50 else RiskScoreThreshold p) rs))
    end
  end.

Definition cloneToolPolicy (p : ToolPolicy) : ToolPolicy :=
  mkToolPolicy (TrimSpace (tp_ID p)) (TrimSpace (tp_Tool p)) (TrimSpace (tp_ServerID p)) (tp_Approved p)
    (SandboxRequired p) (cloneSideEffectPolicy <$> tp_SideEffect p)
    (cloneAdaptiveRoutingPolicy <$> AdaptiveRouting p) (tp_TenantScopes p) (RedactFields p)
    (tp_InputSchema p) (tp_OutputSchema p).
Definition cloneToolServerDefinition (s : ToolServerDefinition) : ToolServerDefinition :=
  mkServer (TrimSpace (ts_ID s)) (TrimSpace (ts_Kind s)) (TrimSpace (ts_Endpoint s))
    (TrimSpace (ts_Description s)) (ts_Approved s) (AllowedTools s) (ts_TenantScopes s) (SandboxAllowed s).
Definition cloneToolGatewayBundle (b : ToolGatewayBundle) : ToolGatewayBundle :=
  mkToolBundle (cloneToolPolicy <$> tb_Tools b) (cloneToolServerDefinition <$> tb_Servers b) (tb_UpdatedAt b).

(** [strings.ReplaceAll(s, ".", "-")]. *)
Definition dotsToDashes (s : string) : string :=
  unchars ((fun a => if Ascii.eqb a "."%char then "-"%char else a) <$> chars s).

Definition normalizeServer (s : ToolServerDefinition) : ToolServerDefinition :=
  cloneToolServerDefinition
    (mkServer (TrimSpace (ts_ID s)) (if decide (ts_Kind s = "") then "mcp" else ts_Kind s) (ts_Endpoint s)
       (ts_Description s) (ts_Approved s) (dedupeSortedStrings (AllowedTools s))
       (dedupeSortedStrings (ts_TenantScopes s)) (SandboxAllowed s)).
Fixpoint normalizeServers (servers : list ToolServerDefinition) (seen : gset string) :
    list ToolServerDefinition + error :=
  match servers with
  | [] => inl []
  | s :: servers =>
    let id := TrimSpace (ts_ID s) in
    if decide (id = "") then inr (ENew "tool server id is required")
    else if decide (id ∈ seen) then inr (ENew ("duplicate tool server " +:+ Quote id))
    else match normalizeServers servers ({[id]} ∪ seen) with
         | inr err => inr err
         | inl rs => inl (normalizeServer s :: rs)
         end
  end.

(** ** JSON *)
Section schema.
Context (decode : bytes -> json + error) (encode : json -> bytes + error) (parseFloat : string -> float64).

(** [v["key"]] of a decoded object. *)
Definition jget (key : string) (ms : list (string * json)) : option json :=
  snd <$> List.find (fun p => bool_decide (p.1 = key)) ms.
Definition jkind (v : json) : string :=
  match v with
  | JNull => "null" | JBool _ => "bool" | JNumber _ => "number" | JString _ => "string"
  | JArray _ => "array" | JObject _ => "object"
  end.
(** [json.Unmarshal] into a [map[string]any]: null is the nil map. *)
Definition decodeObject (raw : bytes) : list (string * json) + error :=
  match decode raw with
  | inr err => inr err
  | inl (JObject ms) => inl ms
  | inl JNull => inl []
  | inl v => inr (ENew ("json: cannot unmarshal " +:+ jkind v +:+ " into Go value of type map[string]interface {}"))
  end.

Definition validateSchemaDocument (raw : bytes) (name : string) : option error :=
  if decide (raw = []) then None
  else match decode raw with
       | inr err => Some (EWrap (name +:+ ": invalid json schema: " +:+ Error err) err)
       | inl _ => None
       end.

Definition schemaStringSlice (v : option json) : list string :=
  match v with
  | Some (JArray items) =>
    omap (fun x => match x with JString s => if decide (TrimSpace s = "") then None else Some s | _ => None end) items
  | _ => []
  end.
Definition valuesEquivalent (a b : json) : bool :=
  match encode a, encode b with inl x, inl y => bool_decide (x = y) | _, _ => false end.
Definition isInteger (v : json) : bool :=
  match v with JNumber t => feqb (parseFloat t) (ofInt (toInt64 (parseFloat t))) | _ => false end.
Definition firstMissing (required : list string) (obj : list (string * json)) : option string :=
  List.find (fun key => negb (bool_decide (is_Some (jget key obj)))) required.
Definition checkEnum (schema : list (string * json)) (value : json) (path : string) : option error :=
  match jget "enum" schema with
  | Some (JArray vals) =>
    if decide (vals = []) then None
    else if existsb (fun c => valuesEquivalent c value) vals then None
    else Some (ENew (path +:+ " must match enum"))
  | _ => None
  end.
Definition additionalAllowed (schema : list (string * json)) : bool :=
  match jget "additionalProperties" schema with Some (JBool b) => b | _ => true end.
Definition schemaProps (schema : list (string * json)) : list (string * json) :=
  match jget "properties" schema with Some (JObject ps) => ps | _ => [] end.


(** The other type names; an unknown one accepts every value. *)
Definition scalarOk (t : string) (v : json) : bool :=
  if decide (t = "string") then match v with JString _ => true | _ => false end
  else if decide (t = "integer") then isInteger v
  else if decide (t = "number") then match v with JNumber _ => true | _ => false end
  else if decide (t = "boolean") then match v with JBool _ => true | _ => false end
  else if decide (t = "null") then match v with JNull => true | _ => false end
  else true.
Definition checkScalar (t : string) (v : json) (path : string) : option error :=
  if scalarOk t v then None else Some (ENew (path +:+ " must be " +:+ t)).

(** The members are checked in the order the map is ranged over. *)
Fixpoint validateJSONSchema (schema : list (string * json)) (value : json) (path : string) : option error :=
  let fields :=
    fix fields (props : list (string * json)) (add : bool) (ms : list (string * json)) : option error :=
      match ms with
      | [] => None
      | (key, inner) :: ms =>
        match jget key props with
        | None => if add then fields props add ms
                  else Some (ENew (path +:+ " contains unknown field " +:+ Quote key))
        | Some (JObject s) =>
          match validateJSONSchema s inner (path +:+ "." +:+ key) with
          | Some err => Some err
          | None => fields props add ms
          end
        | Some _ => fields props add ms
        end
      end in
  let elements :=
    fix elements (s : list (string * json)) (i : Z) (items : list json) : option error :=
      match items with
      | [] => None
      | inner :: items =>
        match validateJSONSchema s inner (path +:+ "[" +:+ pretty i +:+ "]") with
        | Some err => Some err
        | None => elements s (i + 1) items
        end
      end in
  if decide (schema = []) then None
  else
    match match jget "type" schema with
          | Some (JString t) =>
            if decide (t = "object") then
              match value with
              | JObject obj =>
                match firstMissing (schemaStringSlice (jget "required" schema)) obj with
                | Some key => Some (ENew (path +:+ " missing required field " +:+ Quote key))
                | None => fields (schemaProps schema) (additionalAllowed schema) obj
                end
              | _ => Some (ENew (path +:+ " must be object"))
              end
            else if decide (t = "array") then
              match value with
              | JArray arr =>
                match jget "items" schema with Some (JObject s) => elements s 0 arr | _ => None end
              | _ => Some (ENew (path +:+ " must be array"))
              end
            else checkScalar t value path
          | _ => None
          end with
    | Some err => Some err
    | None => checkEnum schema value path
    end.

Definition validateSchemaValue (schemaRaw valueRaw : bytes) (name : string) : option error :=
  if decide (schemaRaw = []) then None
  else match decodeObject schemaRaw with
       | inr err => Some (EWrap (name +:+ " schema invalid: " +:+ Error err) err)
       | inl schema =>
         match (if decide (valueRaw = []) then inl JNull else decode valueRaw) with
         | inr err => Some (EWrap (name +:+ " is invalid json: " +:+ Error err) err)
         | inl value => validateJSONSchema schema value name
         end
       end.

(** ** The bundle *)
Definition normalizeToolPolicy (p : ToolPolicy) (routing : option AdaptiveRoutingPolicy) : ToolPolicy :=
  let tool := TrimSpace (tp_Tool p) in
  let id := TrimSpace (tp_ID p) in
  cloneToolPolicy
    (mkToolPolicy (if decide (id = "") then "tool-" +:+ dotsToDashes tool else id) tool
       (TrimSpace (tp_ServerID p)) (tp_Approved p) (SandboxRequired p) (normalizeSideEffectPolicy (tp_SideEffect p))
       routing (dedupeSortedStrings (tp_TenantScopes p)) (dedupeSortedStrings (RedactFields p))
       (tp_InputSchema p) (tp_OutputSchema p)).
Fixpoint normalizeTools (tools : list ToolPolicy) (seen : gset string) : list ToolPolicy + error :=
  match tools with
  | [] => inl []
  | p :: tools =>
    let tool := TrimSpace (tp_Tool p) in
    if decide (tool = "") then inr (ENew "tool policy tool is required")
    else if decide (tool ∈ seen) then inr (ENew ("duplicate tool policy for " +:+ Quote tool))
    else
      match normalizeAdaptiveRoutingPolicy (AdaptiveRouting p) with
      | inr err => inr err
      | inl routing =>
        match validateSchemaDocument (tp_InputSchema p) ("tool " +:+ tool +:+ " input_schema") with
        | Some err => inr err
        | None =>
          match validateSchemaDocument (tp_OutputSchema p) ("tool " +:+ tool +:+ " output_schema") with
          | Some err => inr err
          | None =>
            match normalizeTools tools ({[tool]} ∪ seen) with
            | inr err => inr err
            | inl ps => inl (normalizeToolPolicy p routing :: ps)
            end
          end
        end
      end
  end.
Definition normalizeToolBundle (now : Time) (b : ToolGatewayBundle) : ToolGatewayBundle + error :=
  match normalizeTools (tb_Tools b) ∅ with
  | inr err => inr err
  | inl tools =>
    match normalizeServers (tb_Servers b) ∅ with
    | inr err => inr err
    | inl servers => inl (mkToolBundle tools servers (Some (default now (tb_UpdatedAt b))))
    end
  end.

(** ** Redaction *)
Definition combinedRedactFields (p : ToolPolicy) : list string :=
  dedupeSortedStrings
    (["password"; "passwd"; "secret"; "token"; "api_key"; "apikey"; "authorization"; "private_key";
      "access_token"; "refresh_token"] ++ RedactFields p).
Definition shouldRedactKey (key : string) (fields : list string) : bool :=
  let key := ToLower (TrimSpace key) in
  existsb (fun field => let field := ToLower (TrimSpace field) in
                        negb (bool_decide (field = "")) && Contains key field) fields.
Fixpoint redactValue (value : json) (fields : list string) : json :=
  match value with
  | JObject ms =>
    JObject ((fix go ms := match ms with
                           | [] => []
                           | (key, inner) :: ms =>
                             (key, if shouldRedactKey key fields then JString "[REDACTED]"
                                   else redactValue inner fields) :: go ms
                           end) ms)
  | JArray items =>
    JArray ((fix go l := match l with [] => [] | x :: l => redactValue x fields :: go l end) items)
  | v => v
  end.
(** What cannot be decoded is recorded as it is. *)
Definition redactJSON (raw : bytes) (fields : list string) : bytes :=
  if decide (raw = []) then []
  else match decode raw with
       | inr _ => raw
       | inl value => match encode (redactValue value fields) with inr _ => raw | inl b => b end
       end.

(** ** Routing hints *)
Definition jnumber (v : option json) : float64 :=
  match v with Some (JNumber t) => parseFloat t | _ => fzero end.
Definition routingHintsFromInput (input : bytes) : float64 :=
  if decide (input = []) then fzero
  else match decodeObject input with
       | inr _ => fzero
       | inl payload =>
         match jget "routing" payload with
         | Some (JObject routing) => jnumber (jget "uncertainty" routing)
         | _ => jnumber (jget "uncertainty" payload)
         end
       end.
End schema.

(** [strings.TrimSpace] of every item against the trimmed target. *)
Definition containsString (items : list string) (target : string) : bool :=
  existsb (fun item => bool_decide (TrimSpace item = TrimSpace target)) items.

(** ** [url.PathEscape] *)
Definition upperHex (n : nat) : ascii := ascii_of_nat (if (n <? 10)%nat then 48 + n else 55 + n).
Definition pathSafe (n : nat) : bool :=
  ((48 <=? n) && (n <=? 57) || (65 <=? n) && (n <=? 90) || (97 <=? n) && (n <=? 122))%nat ||
  bool_decide (n ∈ [45; 95; 46; 126; 36; 38; 43; 58; 61; 64]%nat).
Definition escapeChar (a : ascii) : list ascii :=
  let n := nat_of_ascii a in
  if pathSafe n then [a] else ["%"%char; upperHex (n / 16)%nat; upperHex (n mod 16)%nat].
Definition PathEscape (s : string) : string := unchars (mjoin (escapeChar <$> chars s)).
