(* ===== verification/ToolsSpec.v ===== *)
(** * Schemas and redaction (properties of Tools.v)

    [conforms] is what a value has to satisfy to be accepted by a schema, [at_path] the part of
    a document a path leads to.  Documents are trees: [json_nested_ind] is their induction
    principle. *)
From S2P Require Import Prelude Storage Graph EngineStore Authz AuthzSpec Risk Tools.

(** ** Induction on documents *)
Section json_nested_ind.
Context (P : json -> Prop).
Hypothesis (HNull : P JNull) (HBool : forall b, P (JBool b)) (HNumber : forall t, P (JNumber t))
  (HString : forall s, P (JString s)) (HArray : forall items, Forall P items -> P (JArray items))
  (HObject : forall ms, Forall (fun p => P p.2) ms -> P (JObject ms)).
Fixpoint json_nested_ind (v : json) : P v :=
  match v with
  | JNull => HNull
  | JBool b => HBool b
  | JNumber t => HNumber t
  | JString s => HString s
  | JArray items =>
    HArray items ((fix go l : Forall P l :=
      match l with [] => Forall_nil_2 P | x :: l => Forall_cons_2 P x l (json_nested_ind x) (go l) end) items)
  | JObject ms =>
    HObject ms ((fix go l : Forall (fun p => P p.2) l :=
      match l with
      | [] => Forall_nil_2 (fun p => P p.2)
      | x :: l => Forall_cons_2 (fun p => P p.2) x l (json_nested_ind x.2) (go l)
      end) ms)
  end.
End json_nested_ind.

(** ** Schemas *)
Section schemas.
#[local] Set Default Proof Using "Type*".
Context (encode : json -> bytes + error) (parseFloat : string -> float64).
Abbreviation schema := (list (string * json)).

Definition typeOf (s : schema) : option string :=
  match jget "type" s with Some (JString t) => Some t | _ => None end.
Definition inEnum (s : schema) (v : json) : Prop :=
  forall vals, jget "enum" s = Some (JArray vals) -> vals <> [] ->
  exists c b, c ∈ vals /\ encode c = inl b /\ encode v = inl b.

(** What the keywords of an object's schema say. *)
Definition requires (s : schema) (key : string) : Prop :=
  TrimSpace key <> "" /\ exists keys, jget "required" s = Some (JArray keys) /\ JString key ∈ keys.
Definition property (s : schema) (key : string) (sub : json) : Prop :=
  exists ps, jget "properties" s = Some (JObject ps) /\ jget key ps = Some sub.
Definition closed (s : schema) : Prop := jget "additionalProperties" s = Some (JBool false).
(** The types of scalars; a type the gateway does not know has every value. *)
Inductive scalarType : string -> json -> Prop :=
| scalar_string str : scalarType "string" (JString str)
| scalar_integer t : feqb (parseFloat t) (ofInt (toInt64 (parseFloat t))) = true -> scalarType "integer" (JNumber t)
| scalar_number t : scalarType "number" (JNumber t)
| scalar_boolean b : scalarType "boolean" (JBool b)
| scalar_null : scalarType "null" JNull
| scalar_unknown t v : t ∉ ["string"; "integer"; "number"; "boolean"; "null"] -> scalarType t v.

(** A value conforms to a schema when it has the type the schema asks for, its members and
    items conform to their schemas, no required member is missing, no member is unknown where
    unknown ones are forbidden, and it is one of the values enumerated. *)
Inductive conforms : schema -> json -> Prop :=
| conforms_empty v : conforms [] v
| conforms_object s ms :
    s <> [] -> typeOf s = Some "object" ->
    (forall key, requires s key -> is_Some (jget key ms)) ->
    (closed s -> forall key v, (key, v) ∈ ms -> exists sub, property s key sub) ->
    (forall key v sub, (key, v) ∈ ms -> property s key (JObject sub) -> conforms sub v) ->
    inEnum s (JObject ms) -> conforms s (JObject ms)
| conforms_array s items :
    s <> [] -> typeOf s = Some "array" ->
    (forall v sub, v ∈ items -> jget "items" s = Some (JObject sub) -> conforms sub v) ->
    inEnum s (JArray items) -> conforms s (JArray items)
| conforms_scalar s v :
    s <> [] -> (forall t, typeOf s = Some t -> t <> "object" /\ t <> "array" /\ scalarType t v) ->
    inEnum s v -> conforms s v.

Lemma requires_spec s key : key ∈ schemaStringSlice (jget "required" s) <-> requires s key.
Proof using.
  unfold requires, schemaStringSlice. destruct (jget "required" s) as [[| | | |keys|]|];
    try (split; [by intros ?%elem_of_nil|by intros (_&?&[=]&_)]).
  rewrite list_elem_of_omap. split.
  - intros ([| | |x| |]&Hin&E); try done. case_decide; [done|]. injection E as ->. eauto.
  - intros (Hk&keys'&[= <-]&Hin). exists (JString key). by rewrite decide_False.
Qed.
Lemma property_spec s key sub : jget key (schemaProps s) = Some sub <-> property s key sub.
Proof using.
  unfold property, schemaProps. destruct (jget "properties" s) as [[]|];
    try (split; [intros [=]|by intros (?&[=]&_)]).
  split; [intros H; by eexists|by intros (?&[= <-]&?)].
Qed.
Lemma closed_spec s : additionalAllowed s = false <-> closed s.
Proof using. unfold additionalAllowed, closed. destruct (jget "additionalProperties" s) as [[|[]| | | |]|]; split; congruence. Qed.
Lemma scalarType_spec t v : scalarOk parseFloat t v = true <-> scalarType t v.
Proof using parseFloat.
  clear encode. unfold scalarOk, isInteger.
  do 5 (case_decide; [subst t; split;
    [destruct v; try discriminate; intros; by constructor|inversion 1; subst; try done; set_solver]|]).
  split; [|done]. intros _. apply scalar_unknown. set_solver.
Qed.

Lemma checkEnum_spec s v path : checkEnum encode s v path = None <-> inEnum s v.
Proof.
  unfold checkEnum, inEnum. destruct (jget "enum" s) as [[]|] eqn:E; try (split; [intros _ ? [=]|done]).
  case_decide as Hi; [split; [intros _ ? [= <-]; by subst|done]|].
  assert (existsb (fun c => valuesEquivalent encode c v) items = true <->
          exists c b, c ∈ items /\ encode c = inl b /\ encode v = inl b) as Hx.
  { rewrite existsb_elem. unfold valuesEquivalent. split.
    - intros (c&Hc&Heq). destruct (encode c) as [b|] eqn:Ec; [|done]. destruct (encode v) as [b'|] eqn:Ev; [|done].
      apply bool_decide_eq_true in Heq as ->. by exists c, b'.
    - intros (c&b&Hc&Ec&Ev). exists c. split; [done|]. rewrite Ec, Ev. by apply bool_decide_eq_true. }
  destruct (existsb _ _).
  - split; [|done]. intros _ vals [= <-] _. by apply Hx.
  - split; [done|]. intros Hall. specialize (Hall _ eq_refl Hi). apply Hx in Hall. done.
Qed.

Lemma firstMissing_spec required ms :
  firstMissing required ms = None <-> forall key, key ∈ required -> is_Some (jget key ms).
Proof.
  unfold firstMissing. induction required as [|k ks IH]; simpl; [split; [by intros _ ? ?%elem_of_nil|done]|].
  destruct (bool_decide_reflect (is_Some (jget k ms))) as [Hk|Hk]; simpl.
  - rewrite IH. split; [intros Ha key [->|Hin]%elem_of_cons; [done|by apply Ha]|intros Ha key Hin; apply Ha; by right].
  - split; [done|]. intros Hall. destruct Hk. apply Hall. by left.
Qed.

(** The two inner loops of the check. *)
Definition fieldsOk (path : string) : schema -> bool -> schema -> option error :=
  fix fields props add ms :=
    match ms with
    | [] => None
    | (key, inner) :: ms =>
      match jget key props with
      | None => if add then fields props add ms else Some (ENew (path +:+ " contains unknown field " +:+ Quote key))
      | Some (JObject s) =>
        match validateJSONSchema encode parseFloat s inner (path +:+ "." +:+ key) with
        | Some err => Some err
        | None => fields props add ms
        end
      | Some _ => fields props add ms
      end
    end.
Definition itemsOk (path : string) : schema -> Z -> list json -> option error :=
  fix elements s i items :=
    match items with
    | [] => None
    | inner :: items =>
      match validateJSONSchema encode parseFloat s inner (path +:+ "[" +:+ pretty i +:+ "]") with
      | Some err => Some err
      | None => elements s (i + 1) items
      end
    end.
Lemma validate_unfold s v path :
  validateJSONSchema encode parseFloat s v path =
  if decide (s = []) then None
  else
    match match typeOf s with
          | Some t =>
            if decide (t = "object") then
              match v with
              | JObject ms =>
                match firstMissing (schemaStringSlice (jget "required" s)) ms with
                | Some key => Some (ENew (path +:+ " missing required field " +:+ Quote key))
                | None => fieldsOk path (schemaProps s) (additionalAllowed s) ms
                end
              | _ => Some (ENew (path +:+ " must be object"))
              end
            else if decide (t = "array") then
              match v with
              | JArray items =>
                match jget "items" s with Some (JObject sub) => itemsOk path sub 0 items | _ => None end
              | _ => Some (ENew (path +:+ " must be array"))
              end
            else checkScalar parseFloat t v path
          | None => None
          end with
    | Some err => Some err
    | None => checkEnum encode s v path
    end.
Proof.
  unfold typeOf. destruct v; simpl; (case_decide; [done|]); destruct (jget "type" s) as [[]|]; try done;
    repeat (case_decide; [|]); try done.
Qed.

Lemma fieldsOk_spec props add path ms :
  (forall key v sub p, (key, v) ∈ ms -> validateJSONSchema encode parseFloat sub v p = None <-> conforms sub v) ->
  fieldsOk path props add ms = None <->
  (forall key v, (key, v) ∈ ms -> jget key props = None -> add = true) /\
  (forall key v sub, (key, v) ∈ ms -> jget key props = Some (JObject sub) -> conforms sub v).
Proof.
  intros Hms. induction ms as [|[k x] ms IH]; simpl; [split; [by split; intros ? ? *; rewrite elem_of_nil|done]|].
  assert (fieldsOk path props add ms = None <->
          (forall key v, (key, v) ∈ ms -> jget key props = None -> add = true) /\
          (forall key v sub, (key, v) ∈ ms -> jget key props = Some (JObject sub) -> conforms sub v)) as IH'.
  { apply IH. intros key v sub p Hin. apply (Hms key). by right. }
  clear IH. rename IH' into IH. fold (fieldsOk path). setoid_rewrite elem_of_cons.
  assert (forall sub p, validateJSONSchema encode parseFloat sub x p = None <-> conforms sub x) as Hx
    by (intros; apply (Hms k); by left).
  destruct (jget k props) as [[|?|?|?|?|sub]|] eqn:Ek; try (rewrite IH; split; intros [H1 H2]; split; naive_solver).
  - specialize (Hx sub (path +:+ "." +:+ k)). destruct (validateJSONSchema _ _ sub _ _).
    + split; [done|]. intros [_ H2]. by rewrite (proj2 Hx) by (eapply H2; [by left|done]).
    + rewrite IH. assert (conforms sub x) by by apply Hx. split; intros [H1 H2]; split; naive_solver.
  - destruct add.
    + rewrite IH. split; intros [H1 H2]; split; naive_solver.
    + split; [done|]. intros [H1 _]. specialize (H1 k x (or_introl eq_refl) Ek). done.
Qed.
Lemma itemsOk_spec sub path i items :
  (forall v p, v ∈ items -> validateJSONSchema encode parseFloat sub v p = None <-> conforms sub v) ->
  itemsOk path sub i items = None <-> forall v, v ∈ items -> conforms sub v.
Proof.
  revert i. induction items as [|x items IH]; intros i Hv; simpl; [split; [by intros _ ? ?%elem_of_nil|done]|].
  specialize (Hv x) as Hx. specialize (IH (i + 1)). fold (itemsOk path). setoid_rewrite elem_of_cons.
  destruct (validateJSONSchema _ _ _ _ _) eqn:E.
  - split; [done|]. intros Hall. rewrite (proj2 (Hx _ (list_elem_of_here _ _))) in E; [done|]. apply Hall. by left.
  - rewrite IH by (intros; apply Hv; by right). assert (conforms sub x) by (eapply Hx; [left|done]). naive_solver.
Qed.

Definition shape (s : schema) (v : json) : Prop :=
  match typeOf s with
  | Some t =>
    if decide (t = "object") then
      match v with
      | JObject ms =>
        (forall key, requires s key -> is_Some (jget key ms)) /\
        (closed s -> forall key v, (key, v) ∈ ms -> exists sub, property s key sub) /\
        (forall key v sub, (key, v) ∈ ms -> property s key (JObject sub) -> conforms sub v)
      | _ => False
      end
    else if decide (t = "array") then
      match v with
      | JArray items => forall v sub, v ∈ items -> jget "items" s = Some (JObject sub) -> conforms sub v
      | _ => False
      end
    else scalarType t v
  | None => True
  end.
Lemma conforms_shape s v : s <> [] -> conforms s v <-> shape s v /\ inEnum s v.
Proof.
  intros Hs. unfold shape. split.
  - destruct 1 as [v|s ms _ -> |s items _ ->|s v _ Ht]; [done|by rewrite decide_True|by rewrite decide_False, decide_True|].
    destruct (typeOf s) as [t|] eqn:Et; [|done]. destruct (Ht t eq_refl) as (?&?&?). by rewrite !decide_False by done.
  - destruct (typeOf s) as [t|] eqn:Et; [|intros [_ He]; apply conforms_scalar; [done|by rewrite Et|done]].
    destruct (decide (t = "object")) as [->|Ho];
      [destruct v; intros [Hv He]; try done; apply conforms_object; naive_solver|].
    destruct (decide (t = "array")) as [->|Ha];
      [destruct v; intros [Hv He]; try done; by apply conforms_array|].
    intros [Hv He]. apply conforms_scalar; [done| |done]. rewrite Et. by intros ? [= <-].
Qed.

Lemma checks_none (x y : option error) : match x with Some err => Some err | None => y end = None <-> x = None /\ y = None.
Proof. destruct x; naive_solver. Qed.

(** C20: The check accepts exactly the values that conform to the schema. *)
Theorem validateJSONSchema_exact s v path :
  validateJSONSchema encode parseFloat s v path = None <-> conforms s v.
Proof.
  revert s path. induction v as [|b|n|str|items IH|ms IH] using json_nested_ind; intros s path; rewrite validate_unfold;
    (destruct (decide (s = [])) as [->|Hs]; [split; [intros _; apply conforms_empty|done]|]);
    rewrite (conforms_shape _ _ Hs), checks_none, checkEnum_spec; apply and_iff_compat_r; unfold shape, checkScalar;
    (destruct (typeOf s) as [t|]; [|by split]);
    (destruct (decide (t = "object")) as [->|Ho]; [try by split|]);
    try (destruct (decide (t = "array")) as [->|Ha]; [try by split|]);
    try (rewrite <- scalarType_spec; destruct (scalarOk _ _ _); by split).
  - rewrite Forall_forall in IH. destruct (jget "items" s) as [[|?|?|?|?|sub]|]; try (split; [by intros _ v sub Hin [=]|done]).
    rewrite itemsOk_spec by (intros; by apply IH). naive_solver.
  - rewrite Forall_forall in IH. destruct (firstMissing _ _) as [key|] eqn:Em.
    + split; [done|]. intros [Hr _]. rewrite (proj2 (firstMissing_spec _ _)) in Em; [done|].
      intros k' Hk'. by apply Hr, requires_spec.
    + rewrite firstMissing_spec in Em. rewrite fieldsOk_spec by (intros key v sub p Hin; apply (IH _ Hin)).
      setoid_rewrite property_spec. setoid_rewrite requires_spec in Em.
      assert ((forall key v, (key, v) ∈ ms -> jget key (schemaProps s) = None -> additionalAllowed s = true) <->
              (closed s -> forall key v, (key, v) ∈ ms -> exists sub, property s key sub)); [|tauto].
      rewrite <- closed_spec. setoid_rewrite <- property_spec. split.
      * intros Hadd Hc k' v' Hin. destruct (jget k' _) eqn:Ek; [eauto|]. by rewrite (Hadd k' v' Hin Ek) in Hc.
      * intros Hc k' v' Hin Ek. destruct (additionalAllowed s); [done|].
        destruct (Hc eq_refl k' v' Hin) as [sub ?]. congruence.
Qed.
End schemas.

(** ** Redaction *)
Lemma prefix_app (p s : string) : String.prefix p s = true <-> exists b, s = p +:+ b.
Proof.
  revert s. induction p as [|a p IH]; intros s; [split; [by exists s|by destruct s]|].
  destruct s as [|c s]; simpl; [split; [done|by intros [b [=]]]|].
  destruct (Ascii.ascii_dec a c) as [->|Hne].
  - rewrite IH. split; intros [b E]; exists b; [by rewrite E|by injection E].
  - split; [done|]. intros [b [= ? _]]. congruence.
Qed.
Lemma Contains_cons c s sub : Contains (String c s) sub = String.prefix sub (String c s) || Contains s sub.
Proof.
  unfold Contains. destruct sub as [|a sub]; [done|]. simpl.
  destruct (Ascii.ascii_dec a c); [destruct (String.prefix sub s)|]; simpl; try done; by destruct (String.index 0 _ s).
Qed.
Lemma Contains_spec s sub : Contains s sub = true <-> exists a b, s = a +:+ sub +:+ b.
Proof.
  induction s as [|c s IH].
  - destruct sub; [split; [by exists "", ""|done]|]. split; [done|intros ([|??]&b&[=])].
  - rewrite Contains_cons, orb_true_iff, IH, prefix_app. split.
    + intros [[b ->]|(x&b&->)]; [by exists "", b|by exists (String c x), b].
    + intros ([|c' x]&b&E); [left; by exists b|right]. injection E as -> ->. by exists x, b.
Qed.

(** A key is sensitive when one of the fields occurs in it, in either case of letters. *)
Definition sensitive (fields : list string) (key : string) : Prop :=
  exists f, f ∈ fields /\ ToLower (TrimSpace f) <> "" /\
  exists a b, ToLower (TrimSpace key) = a +:+ ToLower (TrimSpace f) +:+ b.
Lemma shouldRedactKey_spec key fields : shouldRedactKey key fields = true <-> sensitive fields key.
Proof.
  unfold shouldRedactKey. rewrite existsb_elem. unfold sensitive. setoid_rewrite andb_true_iff.
  setoid_rewrite Contains_spec. setoid_rewrite negb_true_iff. setoid_rewrite bool_decide_eq_false. naive_solver.
Qed.

Inductive jstep : Type := Key (key : string) | Index (i : nat).
Fixpoint at_path (v : json) (path : list jstep) : option json :=
  match path with
  | [] => Some v
  | Key key :: path => match v with JObject ms => jget key ms ≫= fun v => at_path v path | _ => None end
  | Index i :: path => match v with JArray items => items !! i ≫= fun v => at_path v path | _ => None end
  end.
Definition redacted : json := JString "[REDACTED]".
Definition hide (fields : list string) (key : string) (v : json) : json :=
  if shouldRedactKey key fields then redacted else redactValue v fields.

Lemma redact_object ms fields :
  redactValue (JObject ms) fields = JObject ((fun p => (p.1, hide fields p.1 p.2)) <$> ms).
Proof. simpl. f_equal. induction ms as [|[k v] ms IH]; [done|]. simpl. by f_equal. Qed.
Lemma redact_array items fields : redactValue (JArray items) fields = JArray ((fun v => redactValue v fields) <$> items).
Proof. done. Qed.
Lemma jget_fmap f key ms :
  jget key ((fun p => (p.1, f p.1 p.2)) <$> ms) = f key <$> jget key ms.
Proof.
  unfold jget. induction ms as [|[k v] ms IH]; simpl; [done|].
  case_bool_decide; [by subst|done].
Qed.
Lemma at_redacted path : path <> [] -> at_path redacted path = None.
Proof. by destruct path as [|[]]. Qed.
Lemma at_step_redacted v fields step path :
  at_path (redactValue v fields) (step :: path) =
  at_path v [step] ≫= fun w => at_path (match step with Key key => hide fields key w | Index _ => redactValue w fields end) path.
Proof.
  destruct step as [key|i], v as [| | | |items|ms]; try done.
  - rewrite redact_object. simpl. rewrite jget_fmap. by destruct (jget key ms).
  - rewrite redact_array. simpl. rewrite list_lookup_fmap. by destruct (items !! i).
Qed.
Lemma at_cons v step path : at_path v (step :: path) = at_path v [step] ≫= fun w => at_path w path.
Proof. destruct step as [key|i], v as [| | | |items|ms]; try done; simpl; [by destruct (jget key ms)|by destruct (items !! i)]. Qed.

(** In a redacted document, nothing is below a sensitive key and the value of a sensitive
    key is the mark of redaction; along the other keys the document is unchanged, down to its
    leaves. *)
Theorem redactValue_exact v fields path :
  (forall p key rest, path = p ++ Key key :: rest -> sensitive fields key ->
     at_path (redactValue v fields) path = None \/ at_path (redactValue v fields) path = Some redacted) /\
  ((forall key, Key key ∈ path -> ~ sensitive fields key) ->
     at_path (redactValue v fields) path = (fun w => redactValue w fields) <$> at_path v path) /\
  ((forall w ms items, at_path v path = Some w -> w <> JObject ms /\ w <> JArray items) ->
   (forall key, Key key ∈ path -> ~ sensitive fields key) ->
     at_path (redactValue v fields) path = at_path v path).
Proof.
  assert ((forall key, Key key ∈ path -> ~ sensitive fields key) ->
     at_path (redactValue v fields) path = (fun w => redactValue w fields) <$> at_path v path) as Hplain.
  { revert v. induction path as [|step path IH]; intros v Hs; [done|].
    rewrite at_step_redacted, (at_cons v step path). destruct (at_path v [step]) as [w|]; simpl; [|done].
    assert (match step with Key key => hide fields key w | Index _ => redactValue w fields end = redactValue w fields) as ->.
    { destruct step as [key|]; [|done]. unfold hide. destruct (shouldRedactKey key fields) eqn:E; [|done].
      apply shouldRedactKey_spec in E. destruct (Hs key); [by left|done]. }
    apply IH. intros key Hk. apply Hs. by right. }
  split_and!; [|done|].
  - intros p key rest -> Hkey. clear Hplain. revert v. induction p as [|step p IH]; intros v; simpl app.
    + rewrite at_step_redacted. destruct (at_path v [Key key]) as [w|]; simpl; [|by left].
      unfold hide. rewrite (proj2 (shouldRedactKey_spec key fields) Hkey).
      destruct (decide (rest = [])) as [->|]; [by right|left; by apply at_redacted].
    + rewrite at_step_redacted. destruct (at_path v [step]) as [w|]; simpl; [|by left].
      destruct step as [k|]; [|apply IH]. unfold hide. destruct (shouldRedactKey k fields); [|apply IH].
      left. apply at_redacted. by destruct p.
  - intros Hleaf Hs. rewrite Hplain by done. destruct (at_path v path) as [w|] eqn:E; [|done]. simpl. f_equal.
    destruct w as [| | | |items|ms]; try done; [destruct (Hleaf _ [] items eq_refl)|destruct (Hleaf _ ms [] eq_refl)]; done.
Qed.
