(* ===== verification/Runtime.v ===== *)
(** * The runner's state and services (internal/engine/runner.go, config.go, runner_graphs.go,
    governance.go, the storing part of authz.go, the key-value helpers of evals.go)

    [Runner] is the state the runs of one process share: the store, the remembered graphs,
    registries, budgets, caps, the cancel functions of the running runs.  A context that can
    be cancelled is a number; [rn_canceled] holds the cancelled ones.  encoding/json is the
    class [JSON]; the time format and the random identifiers are the class [Ambient].
    Telemetry and logging are not modelled. *)
From S2P Require Import Prelude Storage Graph EngineStore Throttle Authz Risk Tools.

(** ** Interfaces *)
Class JSON (T : Type) : Type := {
  marshal : T -> bytes + error;
  unmarshal : bytes -> T + error
}.
(** [json.Valid]. *)
Class JSONSyntax : Type := { validJSON : bytes -> bool }.
Class Ambient : Type := {
  (** The [n]-th result of [NewTraceID]. *)
  traceIDs : nat -> string;
  (** [Time.Format("20060102T150405.000000000Z")]. *)
  formatTime : Time -> string
}.

Definition fromString (s : string) : bytes := String.list_byte_of_string s.
Definition toString (b : bytes) : string := String.string_of_list_byte b.

(** The part of a context the engine reads: the tenant, the principal. *)
Record Ctx : Type := mkCtx { cx_TenantID : string; cx_Principal : option Principal }.
Definition background : Ctx := mkCtx "" None.
Definition WithTenantID (tenantID : string) (c : Ctx) : Ctx :=
  if decide (tenantID = "") then c else mkCtx tenantID (cx_Principal c).

(** Artifacts (artifact_store.go): the interface; its implementations are in the file Artifacts. *)
Record ArtifactMeta : Type := mkArtifactMeta {
  am_ArtifactID : string; am_Sha256 : string; am_ContentType : string; am_Size : Z;
  am_CreatedAt : Time; am_TenantID : string; am_RunID : string; am_WorkflowID : string;
  am_NodeID : string; am_Attempt : Z; am_Labels : gmap string string;
  am_Description : string; am_OriginalName : string
}.
Class ArtifactStore (A : Type) : Type := {
  Put : bytes -> ArtifactMeta -> A -> A * ((string * ArtifactMeta) + error);
  Get : string -> A -> A * ((bytes * ArtifactMeta) + error);
  Delete : string -> A -> A * option error
}.
Definition ErrArtifactStoreUnset : error :=
  ESentinel "ErrArtifactStoreUnset" "artifact store not configured".

(** ** State *)
Record Runner {S F A : Type} : Type := mkRunner {
  rn_store : S;
  rn_graphs : gmap string (WorkflowGraph F);
  rn_registry : option (HandlerRegistry F);
  rn_tenantRegistries : gmap string (HandlerRegistry F);
  rn_policyBundle : option AuthorizationPolicyBundle;
  rn_riskPolicy : option RiskPolicy;
  rn_toolGateway : option ToolGatewayBundle;
  rn_brainPolicy : option BrainPolicy;
  rn_maxParallel : Z;
  rn_cancels : gmap string nat;
  rn_artifacts : option A;
  rn_inlineLimit : Z;
  rn_defaultRunBudget : BudgetPolicy;
  rn_tenantBudgets : gmap string BudgetPolicy;
  rn_tenantRunCaps : gmap string Z;
  rn_caps : Caps;
  rn_canceled : gset nat;
  rn_contexts : nat;
  rn_ids : nat
}.
Arguments Runner : clear implicits.
Arguments mkRunner {S F A}.

Section setters.
Context {S F A : Type}.
Implicit Types r : Runner S F A.
Definition set_rn_store x r : Runner S F A :=
  mkRunner x (rn_graphs r) (rn_registry r) (rn_tenantRegistries r) (rn_policyBundle r)
    (rn_riskPolicy r) (rn_toolGateway r) (rn_brainPolicy r) (rn_maxParallel r) (rn_cancels
    r) (rn_artifacts r) (rn_inlineLimit r) (rn_defaultRunBudget r) (rn_tenantBudgets r)
    (rn_tenantRunCaps r) (rn_caps r) (rn_canceled r) (rn_contexts r) (rn_ids r).
Definition set_rn_graphs x r : Runner S F A :=
  mkRunner (rn_store r) x (rn_registry r) (rn_tenantRegistries r) (rn_policyBundle r)
    (rn_riskPolicy r) (rn_toolGateway r) (rn_brainPolicy r) (rn_maxParallel r) (rn_cancels
    r) (rn_artifacts r) (rn_inlineLimit r) (rn_defaultRunBudget r) (rn_tenantBudgets r)
    (rn_tenantRunCaps r) (rn_caps r) (rn_canceled r) (rn_contexts r) (rn_ids r).
Definition set_rn_registry x r : Runner S F A :=
  mkRunner (rn_store r) (rn_graphs r) x (rn_tenantRegistries r) (rn_policyBundle r)
    (rn_riskPolicy r) (rn_toolGateway r) (rn_brainPolicy r) (rn_maxParallel r) (rn_cancels
    r) (rn_artifacts r) (rn_inlineLimit r) (rn_defaultRunBudget r) (rn_tenantBudgets r)
    (rn_tenantRunCaps r) (rn_caps r) (rn_canceled r) (rn_contexts r) (rn_ids r).
Definition set_rn_tenantRegistries x r : Runner S F A :=
  mkRunner (rn_store r) (rn_graphs r) (rn_registry r) x (rn_policyBundle r) (rn_riskPolicy
    r) (rn_toolGateway r) (rn_brainPolicy r) (rn_maxParallel r) (rn_cancels r) (rn_artifacts
    r) (rn_inlineLimit r) (rn_defaultRunBudget r) (rn_tenantBudgets r) (rn_tenantRunCaps r)
    (rn_caps r) (rn_canceled r) (rn_contexts r) (rn_ids r).
Definition set_rn_policyBundle x r : Runner S F A :=
  mkRunner (rn_store r) (rn_graphs r) (rn_registry r) (rn_tenantRegistries r) x
    (rn_riskPolicy r) (rn_toolGateway r) (rn_brainPolicy r) (rn_maxParallel r) (rn_cancels
    r) (rn_artifacts r) (rn_inlineLimit r) (rn_defaultRunBudget r) (rn_tenantBudgets r)
    (rn_tenantRunCaps r) (rn_caps r) (rn_canceled r) (rn_contexts r) (rn_ids r).
Definition set_rn_riskPolicy x r : Runner S F A :=
  mkRunner (rn_store r) (rn_graphs r) (rn_registry r) (rn_tenantRegistries r)
    (rn_policyBundle r) x (rn_toolGateway r) (rn_brainPolicy r) (rn_maxParallel r)
    (rn_cancels r) (rn_artifacts r) (rn_inlineLimit r) (rn_defaultRunBudget r)
    (rn_tenantBudgets r) (rn_tenantRunCaps r) (rn_caps r) (rn_canceled r) (rn_contexts r)
    (rn_ids r).
Definition set_rn_toolGateway x r : Runner S F A :=
  mkRunner (rn_store r) (rn_graphs r) (rn_registry r) (rn_tenantRegistries r)
    (rn_policyBundle r) (rn_riskPolicy r) x (rn_brainPolicy r) (rn_maxParallel r)
    (rn_cancels r) (rn_artifacts r) (rn_inlineLimit r) (rn_defaultRunBudget r)
    (rn_tenantBudgets r) (rn_tenantRunCaps r) (rn_caps r) (rn_canceled r) (rn_contexts r)
    (rn_ids r).
Definition set_rn_brainPolicy x r : Runner S F A :=
  mkRunner (rn_store r) (rn_graphs r) (rn_registry r) (rn_tenantRegistries r)
    (rn_policyBundle r) (rn_riskPolicy r) (rn_toolGateway r) x (rn_maxParallel r)
    (rn_cancels r) (rn_artifacts r) (rn_inlineLimit r) (rn_defaultRunBudget r)
    (rn_tenantBudgets r) (rn_tenantRunCaps r) (rn_caps r) (rn_canceled r) (rn_contexts r)
    (rn_ids r).
Definition set_rn_maxParallel x r : Runner S F A :=
  mkRunner (rn_store r) (rn_graphs r) (rn_registry r) (rn_tenantRegistries r)
    (rn_policyBundle r) (rn_riskPolicy r) (rn_toolGateway r) (rn_brainPolicy r) x
    (rn_cancels r) (rn_artifacts r) (rn_inlineLimit r) (rn_defaultRunBudget r)
    (rn_tenantBudgets r) (rn_tenantRunCaps r) (rn_caps r) (rn_canceled r) (rn_contexts r)
    (rn_ids r).
Definition set_rn_cancels x r : Runner S F A :=
  mkRunner (rn_store r) (rn_graphs r) (rn_registry r) (rn_tenantRegistries r)
    (rn_policyBundle r) (rn_riskPolicy r) (rn_toolGateway r) (rn_brainPolicy r)
    (rn_maxParallel r) x (rn_artifacts r) (rn_inlineLimit r) (rn_defaultRunBudget r)
    (rn_tenantBudgets r) (rn_tenantRunCaps r) (rn_caps r) (rn_canceled r) (rn_contexts r)
    (rn_ids r).
Definition set_rn_artifacts x r : Runner S F A :=
  mkRunner (rn_store r) (rn_graphs r) (rn_registry r) (rn_tenantRegistries r)
    (rn_policyBundle r) (rn_riskPolicy r) (rn_toolGateway r) (rn_brainPolicy r)
    (rn_maxParallel r) (rn_cancels r) x (rn_inlineLimit r) (rn_defaultRunBudget r)
    (rn_tenantBudgets r) (rn_tenantRunCaps r) (rn_caps r) (rn_canceled r) (rn_contexts r)
    (rn_ids r).
Definition set_rn_inlineLimit x r : Runner S F A :=
  mkRunner (rn_store r) (rn_graphs r) (rn_registry r) (rn_tenantRegistries r)
    (rn_policyBundle r) (rn_riskPolicy r) (rn_toolGateway r) (rn_brainPolicy r)
    (rn_maxParallel r) (rn_cancels r) (rn_artifacts r) x (rn_defaultRunBudget r)
    (rn_tenantBudgets r) (rn_tenantRunCaps r) (rn_caps r) (rn_canceled r) (rn_contexts r)
    (rn_ids r).
Definition set_rn_defaultRunBudget x r : Runner S F A :=
  mkRunner (rn_store r) (rn_graphs r) (rn_registry r) (rn_tenantRegistries r)
    (rn_policyBundle r) (rn_riskPolicy r) (rn_toolGateway r) (rn_brainPolicy r)
    (rn_maxParallel r) (rn_cancels r) (rn_artifacts r) (rn_inlineLimit r) x
    (rn_tenantBudgets r) (rn_tenantRunCaps r) (rn_caps r) (rn_canceled r) (rn_contexts r)
    (rn_ids r).
Definition set_rn_tenantBudgets x r : Runner S F A :=
  mkRunner (rn_store r) (rn_graphs r) (rn_registry r) (rn_tenantRegistries r)
    (rn_policyBundle r) (rn_riskPolicy r) (rn_toolGateway r) (rn_brainPolicy r)
    (rn_maxParallel r) (rn_cancels r) (rn_artifacts r) (rn_inlineLimit r)
    (rn_defaultRunBudget r) x (rn_tenantRunCaps r) (rn_caps r) (rn_canceled r) (rn_contexts
    r) (rn_ids r).
Definition set_rn_tenantRunCaps x r : Runner S F A :=
  mkRunner (rn_store r) (rn_graphs r) (rn_registry r) (rn_tenantRegistries r)
    (rn_policyBundle r) (rn_riskPolicy r) (rn_toolGateway r) (rn_brainPolicy r)
    (rn_maxParallel r) (rn_cancels r) (rn_artifacts r) (rn_inlineLimit r)
    (rn_defaultRunBudget r) (rn_tenantBudgets r) x (rn_caps r) (rn_canceled r) (rn_contexts
    r) (rn_ids r).
Definition set_rn_caps x r : Runner S F A :=
  mkRunner (rn_store r) (rn_graphs r) (rn_registry r) (rn_tenantRegistries r)
    (rn_policyBundle r) (rn_riskPolicy r) (rn_toolGateway r) (rn_brainPolicy r)
    (rn_maxParallel r) (rn_cancels r) (rn_artifacts r) (rn_inlineLimit r)
    (rn_defaultRunBudget r) (rn_tenantBudgets r) (rn_tenantRunCaps r) x (rn_canceled r)
    (rn_contexts r) (rn_ids r).
Definition set_rn_canceled x r : Runner S F A :=
  mkRunner (rn_store r) (rn_graphs r) (rn_registry r) (rn_tenantRegistries r)
    (rn_policyBundle r) (rn_riskPolicy r) (rn_toolGateway r) (rn_brainPolicy r)
    (rn_maxParallel r) (rn_cancels r) (rn_artifacts r) (rn_inlineLimit r)
    (rn_defaultRunBudget r) (rn_tenantBudgets r) (rn_tenantRunCaps r) (rn_caps r) x
    (rn_contexts r) (rn_ids r).
Definition set_rn_contexts x r : Runner S F A :=
  mkRunner (rn_store r) (rn_graphs r) (rn_registry r) (rn_tenantRegistries r)
    (rn_policyBundle r) (rn_riskPolicy r) (rn_toolGateway r) (rn_brainPolicy r)
    (rn_maxParallel r) (rn_cancels r) (rn_artifacts r) (rn_inlineLimit r)
    (rn_defaultRunBudget r) (rn_tenantBudgets r) (rn_tenantRunCaps r) (rn_caps r)
    (rn_canceled r) x (rn_ids r).
Definition set_rn_ids x r : Runner S F A :=
  mkRunner (rn_store r) (rn_graphs r) (rn_registry r) (rn_tenantRegistries r)
    (rn_policyBundle r) (rn_riskPolicy r) (rn_toolGateway r) (rn_brainPolicy r)
    (rn_maxParallel r) (rn_cancels r) (rn_artifacts r) (rn_inlineLimit r)
    (rn_defaultRunBudget r) (rn_tenantBudgets r) (rn_tenantRunCaps r) (rn_caps r)
    (rn_canceled r) (rn_contexts r) x.
End setters.


(** [NewRunner] without options. *)
Definition DefaultArtifactInlineLimit : Z := 8 * 1024.
Definition NewRunner {S F A} (store : S) : Runner S F A :=
  mkRunner store ∅ None ∅ None None None None 1 ∅ None DefaultArtifactInlineLimit noBudget ∅ ∅ noCaps ∅ 0 0.

(** ** Settings (runner.go, config.go, governance.go, runner_graphs.go) *)
Section settings.
Context {S F A : Type}.
Implicit Types r : Runner S F A.

Definition SetMaxParallelism (n : Z) r := set_rn_maxParallel (if n <? 1 then 1 else n) r.
Definition MaxParallelism r : Z := if rn_maxParallel r <? 1 then 1 else rn_maxParallel r.
Definition SetHandlerRegistry (reg : option (HandlerRegistry F)) r := set_rn_registry reg r.
Definition SetTenantHandlerRegistry (tenantID : string) (reg : option (HandlerRegistry F)) r :=
  let tenantID := TrimSpace tenantID in
  if decide (tenantID = "") then r
  else match reg with
       | None => set_rn_tenantRegistries (delete tenantID (rn_tenantRegistries r)) r
       | Some reg => set_rn_tenantRegistries (<[tenantID := reg]> (rn_tenantRegistries r)) r
       end.
Definition HandlerRegistryForTenant (tenantID : string) r : option (HandlerRegistry F) :=
  let tenantID := TrimSpace tenantID in
  if decide (tenantID = "") then rn_registry r
  else match rn_tenantRegistries r !! tenantID with Some reg => Some reg | None => rn_registry r end.
Definition SetTenantActiveRunCap (tenantID : string) (cap : Z) r :=
  let tenantID := TrimSpace tenantID in
  if decide (tenantID = "" \/ cap < 0) then r
  else if cap =? 0 then set_rn_tenantRunCaps (delete tenantID (rn_tenantRunCaps r)) r
  else set_rn_tenantRunCaps (<[tenantID := cap]> (rn_tenantRunCaps r)) r.
Definition tenantActiveRunCap (tenantID : string) r : Z :=
  if decide (tenantID = "") then 0 else default 0 (rn_tenantRunCaps r !! tenantID).
Definition SetDefaultRunBudget (p : BudgetPolicy) r := set_rn_defaultRunBudget p r.
Definition SetTenantBudget (tenantID : string) (p : BudgetPolicy) r :=
  if decide (tenantID = "") then r
  else set_rn_tenantBudgets (<[tenantID := p]> (rn_tenantBudgets r)) r.
Definition getTenantBudget (tenantID : string) r : BudgetPolicy :=
  if decide (tenantID = "") then noBudget else default noBudget (rn_tenantBudgets r !! tenantID).
Definition rememberGraph (id : string) (g : WorkflowGraph F) r :=
  if decide (id = "") then r
  else set_rn_graphs (<[id := mkGraph _ id (Nodes g) (Edges g) (g_TimeoutMS g)]> (rn_graphs r)) r.
Definition getGraph (id : string) r : option (WorkflowGraph F) := rn_graphs r !! id.

(** [context.WithCancel] and its cancel function; the runs register theirs. *)
Definition newContext r : nat * Runner S F A :=
  (rn_contexts r, set_rn_contexts (Datatypes.S (rn_contexts r)) r).
Definition cancelContext (c : nat) r := set_rn_canceled ({[c]} ∪ rn_canceled r) r.
(** The older context registered for the run is cancelled. *)
Definition setRunCancel (runID : string) (c : nat) r :=
  let r := match rn_cancels r !! runID with Some old => cancelContext old r | None => r end in
  set_rn_cancels (<[runID := c]> (rn_cancels r)) r.
Definition clearRunCancel (runID : string) r := set_rn_cancels (delete runID (rn_cancels r)) r.
Definition cancelRunContext (runID : string) r :=
  match rn_cancels r !! runID with Some c => cancelContext c r | None => r end.
End settings.

(** ** Store operations of the runner *)
Section services.
Context {S F A : Type} `{Store S} `{Ambient}.
Implicit Types r : Runner S F A.

Definition onStore {X} (op : S -> S * X) r : Runner S F A * X :=
  let '(s, x) := op (rn_store r) in (set_rn_store s r, x).
(** [_ = op] and [_, _ = op]: the outcome is dropped. *)
Definition try {X} (op : S -> S * X) r : Runner S F A := (onStore op r).1.
Definition NewTraceID r : string * Runner S F A :=
  (traceIDs (rn_ids r), set_rn_ids (Datatypes.S (rn_ids r)) r).
(** An event literal, appended with its error dropped. *)
Definition emit (now : Time) (runID type wfID nodeID : string) (attempt : Z) (payload : bytes) r :=
  try (AppendEvent now (mkEvent runID 0 type zeroTime wfID nodeID attempt payload)) r.
(** [p, _ := json.Marshal(v)]. *)
Definition marshalOrNil `{JSON T} (v : T) : bytes := match marshal v with inl b => b | inr _ => [] end.

(** *** Values in the key-value part (evals.go) *)
Definition putJSONKV `{JSON T} (key : string) (v : T) r : Runner S F A * option error :=
  match marshal v with
  | inr err => (r, Some err)
  | inl b => onStore (PutKV key (toString b)) r
  end.
(** [None] when the key is absent. *)
Definition getJSONKV `{JSON T} (key : string) r : option (T + error) :=
  unmarshal ∘ fromString <$> GetKV key (rn_store r).

Context `{JSON (list string)}.
(** The identifiers are trimmed, without empty ones and duplicates, and sorted. *)
Definition indexIDs (key : string) r : list string + error :=
  match GetKV key (rn_store r) with
  | None => inl []
  | Some raw =>
    if decide (TrimSpace raw = "") then inl []
    else match unmarshal (fromString raw) with
         | inr err => inr err
         | inl ids => inl (normalizeStrings ids)
         end
  end.
Definition upsertIndexID (indexKey id : string) r : Runner S F A * option error :=
  match indexIDs indexKey r with
  | inr err => (r, Some err)
  | inl ids =>
    let id := TrimSpace id in
    if decide (id = "") then (r, Some (ENew "index id is required"))
    else if decide (id ∈ ids) then (r, None)
    else putJSONKV indexKey (sortStrings (ids ++ [id])) r
  end.
End services.
