(* ===== verification/Governance.v ===== *)
(** * Governance (internal/engine/governance.go, the storing part of authz.go)

    Audit records, access of a caller to the runs of a tenant, the cap on a tenant's active
    runs, the stored authorization policy and its enforcement. *)
From S2P Require Import Prelude Storage Graph EngineStore Throttle Authz Runtime.

(** ** Contexts *)
Section contexts.
Context `{MapOrder}.
Definition PrincipalFrom (c : Ctx) : option Principal := Normalize <$> cx_Principal c.
Definition WithPrincipal (p : Principal) (c : Ctx) : Ctx := mkCtx (cx_TenantID c) (Some (Normalize p)).
Definition effectiveTenantFromContext (c : Ctx) : string :=
  let tenantID := TrimSpace (cx_TenantID c) in
  if decide (tenantID <> "") then tenantID
  else match PrincipalFrom c with None => "" | Some p => TrimSpace (p_TenantID p) end.
End contexts.

(** ** Audit records *)
Definition AuditOutcomeAllowed : string := "allowed".
Definition AuditOutcomeDenied : string := "denied".
Definition auditIndexKey : string := "audit/index".

Record AuditRecord : Type := mkAudit {
  au_ID : string;
  au_At : Time;
  au_TenantID : string;
  au_PrincipalID : string;
  au_Action : string;
  au_ResourceType : string;
  au_ResourceID : string;
  au_RunID : string;
  au_WorkflowID : string;
  au_Outcome : string;
  au_Reason : string
}.
Definition auditRecordKey (id : string) : string := "audit/records/" +:+ TrimSpace id.

Definition ErrTenantAccessDenied : error := ESentinel "ErrTenantAccessDenied" "tenant access denied".
Definition ErrTenantQuotaExceeded : error := ESentinel "ErrTenantQuotaExceeded" "tenant quota exceeded".
Definition ErrAuthorizationDenied : error := ESentinel "ErrAuthorizationDenied" "authorization denied".
Definition authzPolicyBundleKey : string := "authz/policy_bundle".

Section governance.
Context {S F A : Type} `{Store S} `{Ambient} `{MapOrder}.
Context `{JSON (list string)} `{JSON AuditRecord} `{JSON AuthorizationPolicyBundle}.
Implicit Types r : Runner S F A.

(** An identifier is drawn when the record has none; a record without action is dropped. *)
Definition appendAuditRecord (ctx : Ctx) (now : Time) (rec : AuditRecord) r : Runner S F A :=
  let '(id, r) := if decide (TrimSpace (au_ID rec) = "")
                  then let '(t, r) := NewTraceID r in ("audit-" +:+ formatTime now +:+ "-" +:+ t, r)
                  else (TrimSpace (au_ID rec), r) in
  let tenant := TrimSpace (au_TenantID rec) in
  let principal := TrimSpace (au_PrincipalID rec) in
  let rec := mkAudit id (if IsZero (au_At rec) then now else au_At rec)
               (if decide (tenant = "") then effectiveTenantFromContext ctx else tenant)
               (if decide (principal = "") then default "" (p_ID <$> PrincipalFrom ctx) else principal)
               (TrimSpace (au_Action rec)) (TrimSpace (au_ResourceType rec))
               (TrimSpace (au_ResourceID rec)) (TrimSpace (au_RunID rec))
               (TrimSpace (au_WorkflowID rec)) (au_Outcome rec) (TrimSpace (au_Reason rec)) in
  if decide (au_Action rec = "") then r
  else match putJSONKV (auditRecordKey (au_ID rec)) rec r with
       | (r, Some _) => r
       | (r, None) =>
         match indexIDs auditIndexKey r with
         | inr _ => r
         | inl ids => (putJSONKV auditIndexKey (ids ++ [au_ID rec]) r).1
         end
       end.

(** The newest identifiers first, up to the limit; the rows found are sorted by time. *)
Fixpoint auditRows (ids : list string) (tenantID runID : string) (limit : Z) (out : list AuditRecord) r :
    list AuditRecord :=
  match ids with
  | [] => out
  | id :: ids =>
    match getJSONKV (auditRecordKey id) r with
    | Some (inl rec) =>
      if decide (tenantID <> "" /\ au_TenantID rec <> tenantID) then auditRows ids tenantID runID limit out r
      else if decide (runID <> "" /\ au_RunID rec <> runID) then auditRows ids tenantID runID limit out r
      else let out := out ++ [rec] in
           if limit <=? zlen out then out else auditRows ids tenantID runID limit out r
    | _ => auditRows ids tenantID runID limit out r
    end
  end.
Definition ListAuditRecords (tenantID runID : string) (limit : Z) r : list AuditRecord + error :=
  let limit := if limit <=? 0 then 100 else limit in
  match indexIDs auditIndexKey r with
  | inr err => inr err
  | inl ids =>
    inl (sortSlice (fun a b => After (au_At a) (au_At b))
           (auditRows (reverse ids) (TrimSpace tenantID) (TrimSpace runID) limit [] r))
  end.

(** ** Access to a run *)
Definition runAudit (tenantID principalID action : string) (run : Run) (outcome reason : string) : AuditRecord :=
  mkAudit "" zeroTime tenantID principalID action "run" (r_RunID run) (r_RunID run) (r_WorkflowID run)
    outcome reason.

Definition ensureRunTenantAccess (ctx : Ctx) (now : Time) (run : Run) (action : string) r :
    Runner S F A * option error :=
  let resource := TrimSpace (r_TenantID run) in
  let caller := effectiveTenantFromContext ctx in
  let deny principalID reason err := (appendAuditRecord ctx now
    (runAudit resource principalID action run AuditOutcomeDenied reason) r, Some (EWrap err ErrTenantAccessDenied)) in
  if decide (resource = "") then (r, None)
  else if decide (caller = "")
  then deny "" "missing caller tenant context"
         ("tenant access denied: missing tenant context for run " +:+ Quote (r_RunID run))
  else if decide (caller <> resource)
  then deny "" ("caller tenant " +:+ Quote caller +:+ " cannot access tenant " +:+ Quote resource)
         ("tenant access denied: caller tenant " +:+ Quote caller +:+ " cannot access tenant " +:+ Quote resource)
  else
    let scopes := match PrincipalFrom ctx with None => [] | Some p => p_TenantScopes p end in
    if decide (scopes <> [] /\ existsb (matchPattern resource) scopes = false)
    then deny (default "" (p_ID <$> PrincipalFrom ctx))
           ("principal tenant scope does not include tenant " +:+ Quote resource)
           ("tenant access denied: principal tenant scope does not include tenant " +:+ Quote resource)
    else (appendAuditRecord ctx now
            (runAudit resource "" action run AuditOutcomeAllowed "tenant access allowed") r, None).

(** ** The cap on active runs *)
Definition isActive (status : string) : bool :=
  bool_decide (status = RunStatusQueued \/ status = RunStatusRunning \/ status = RunStatusWaiting).
Definition activeFor (tenantID : string) r (id : string) : bool :=
  match GetRun id (rn_store r) with
  | Some run => bool_decide (TrimSpace (r_TenantID run) = tenantID) && isActive (r_Status run)
  | None => false
  end.
Definition activeRunsForTenant (tenantID excludeRunID : string) r : Z :=
  let tenantID := TrimSpace tenantID in
  let excludeRunID := TrimSpace excludeRunID in
  if decide (tenantID = "") then 0
  else zlen (filter (fun id => id <> excludeRunID /\ activeFor tenantID r id = true)
               (ListRuns (rn_store r))).

Definition enforceTenantRunQuota (ctx : Ctx) (now : Time) (tenantID runID workflowID : string) r :
    Runner S F A * option error :=
  let tenantID := TrimSpace tenantID in
  let cap := tenantActiveRunCap tenantID r in
  if decide (tenantID = "") then (r, None)
  else if cap <=? 0 then (r, None)
  else if activeRunsForTenant tenantID runID r <? cap then (r, None)
  else (appendAuditRecord ctx now
          (mkAudit "" zeroTime tenantID "" "tenant.quota.active_runs" "run" (TrimSpace runID)
             (TrimSpace runID) (TrimSpace workflowID) AuditOutcomeDenied
             ("tenant active run cap reached (" +:+ pretty cap +:+ ")")) r,
        Some (EWrap ("tenant quota exceeded: active run cap reached for tenant " +:+ Quote tenantID)
                ErrTenantQuotaExceeded)).

(** ** The stored policy (authz.go) *)
Definition SaveAuthorizationPolicy (now : Time) (bundle : AuthorizationPolicyBundle) r :
    Runner S F A * option error :=
  match normalizeBundle bundle with
  | inr err => (r, Some err)
  | inl b =>
    let b := mkBundle (ab_ID b) (ab_Description b) (Some (default now (ab_UpdatedAt b))) (Rules b) in
    match putJSONKV authzPolicyBundleKey b r with
    | (r, Some err) => (r, Some err)
    | (r, None) => (set_rn_policyBundle (Some b) r, None)
    end
  end.

(** The cached bundle, else the stored one, normalised and cached; [None]: there is none. *)
Definition GetAuthorizationPolicy r : Runner S F A * (option AuthorizationPolicyBundle + error) :=
  match rn_policyBundle r with
  | Some b => (r, inl (Some b))
  | None =>
    match getJSONKV authzPolicyBundleKey r with
    | None => (r, inl None)
    | Some (inr err) => (r, inr err)
    | Some (inl b) =>
      match normalizeBundle b with
      | inr err => (r, inr err)
      | inl b => (set_rn_policyBundle (Some b) r, inl (Some b))
      end
    end
  end.

Definition EvaluateWorkflowAuthorization (ctx : Ctx) (runID : string) (g : WorkflowGraph F) r :
    Runner S F A * (WorkflowAuthorizationReport + error) :=
  match GetAuthorizationPolicy r with
  | (r, inr err) => (r, inr err)
  | (r, inl b) =>
    (r, inl (evaluateWorkflow (default noBundle b) (cx_TenantID ctx)
               (default noPrincipal (PrincipalFrom ctx)) runID g))
  end.

Definition authorizationError (reason : string) : error :=
  EWrap (if decide (TrimSpace reason = "") then Error ErrAuthorizationDenied else reason)
    ErrAuthorizationDenied.
Definition authorizeWorkflow (ctx : Ctx) (now : Time) (runID : string) (g : WorkflowGraph F) r :
    Runner S F A * (WorkflowAuthorizationReport + error) :=
  match EvaluateWorkflowAuthorization ctx runID g r with
  | (r, inr err) => (r, inr err)
  | (r, inl rep) =>
    let r := appendAuditRecord ctx now
      (mkAudit "" zeroTime (wr_TenantID rep) (p_ID (wr_Principal rep)) "authorization.evaluate" "workflow"
         (wr_WorkflowID rep) (wr_RunID rep) (wr_WorkflowID rep)
         (if wr_Allowed rep then AuditOutcomeAllowed else AuditOutcomeDenied) (wr_Reason rep)) r in
    if wr_Allowed rep then (r, inl rep) else (r, inr (authorizationError (wr_Reason rep)))
  end.
End governance.
