(* ===== verification/Artifacts.v ===== *)
(** * Artifacts (internal/engine/artifact_store.go, artifact_store_memory.go, runner_artifacts.go,
    the artifact access check of governance.go)

    The two implementations of the class [ArtifactStore]: [MemoryArtifactStore] over maps, and
    [LocalArtifactStore], which names a blob by the SHA-256 of its bytes and keeps it, and its
    metadata, as files of a directory tree.  The operating system is a script of answers: each
    system call takes the next one, which may be an error.  A crash is the script all of whose
    answers are errors from some call on.  Then the calls of the runner, with the tenant check. *)
From S2P Require Import Prelude Storage Graph EngineStore Throttle Authz Risk Tools Runtime Governance.
From Stdlib Require Import Init.Byte Strings.Ascii.

(** ** crypto/sha256 *)
Module Sha256.
Definition word (z : Z) : Z := Z.land z 0xffffffff.
Definition ror (n x : Z) : Z := Z.lor (Z.shiftr x n) (word (Z.shiftl x (32 - n))).
Definition isPrime (n : Z) : bool := forallb (fun d => negb (n mod d =? 0)) (seqZ 2 (Z.sqrt n - 1)).
Definition primes : list Z := Eval vm_compute in filter (fun n => isPrime n = true) (seqZ 2 310).
(** The first 32 bits of the fractional parts of square and of cube roots. *)
Definition sqrtBits (p : Z) : Z := word (Z.sqrt (Z.shiftl p 64)).
Fixpoint cbrt (bits : nat) (root n : Z) : Z :=
  match bits with
  | O => root
  | S bits => let r := root + 2 ^ Z.of_nat bits in cbrt bits (if r * r * r <=? n then r else root) n
  end.
Definition cbrtBits (p : Z) : Z := word (cbrt 36 0 (Z.shiftl p 96)).
Definition initial : list Z := Eval vm_compute in map sqrtBits (take 8 primes).
Definition roundKeys : list Z := Eval vm_compute in map cbrtBits (take 64 primes).

Definition small (a b c x : Z) : Z := Z.lxor (Z.lxor (ror a x) (ror b x)) (Z.shiftr x c).
Definition big (a b c x : Z) : Z := Z.lxor (Z.lxor (ror a x) (ror b x)) (ror c x).
(** The window holds the sixteen words of the schedule from the current one on. *)
Definition slide (w : list Z) : list Z :=
  match w with
  | w0 :: w1 :: rest =>
    (w1 :: rest) ++
    [word (small 17 19 10 (default 0 (zlookup w 14)) + default 0 (zlookup w 9) + small 7 18 3 w1 + w0)]
  | _ => w
  end.
Definition round (k w : Z) (st : list Z) : list Z :=
  match st with
  | [a; b; c; d; e; f; g; h] =>
    let choice := Z.lxor (Z.land e f) (Z.land (Z.lxor e 0xffffffff) g) in
    let majority := Z.lxor (Z.lxor (Z.land a b) (Z.land a c)) (Z.land b c) in
    let t := h + big 6 11 25 e + choice + k + w in
    [word (t + big 2 13 22 a + majority); a; b; c; word (d + t); e; f; g]
  | _ => st
  end.
Fixpoint compress (ks w st : list Z) : list Z :=
  match ks with [] => st | k :: ks => compress ks (slide w) (round k (default 0 (head w)) st) end.
Definition block (w st : list Z) : list Z := zip_with (fun x y => word (x + y)) st (compress roundKeys w st).
Fixpoint blocks (n : nat) (ws st : list Z) : list Z :=
  match n with O => st | S n => blocks n (drop 16 ws) (block (take 16 ws) st) end.

Definition ofByte (b : byte) : Z := Z.of_N (Byte.to_N b).
Definition toByte (z : Z) : byte := default x00 (Byte.of_N (Z.to_N (z mod 256))).
Definition bigEndian (n : nat) (z : Z) : bytes := reverse (map (fun i => toByte (Z.shiftr z (8 * i))) (seqZ 0 (Z.of_nat n))).
Fixpoint words (l : bytes) : list Z :=
  match l with
  | a :: b :: c :: d :: l =>
    Z.lor (Z.lor (Z.shiftl (ofByte a) 24) (Z.shiftl (ofByte b) 16)) (Z.lor (Z.shiftl (ofByte c) 8) (ofByte d)) :: words l
  | _ => []
  end.
Definition pad (l : bytes) : bytes :=
  l ++ [x80] ++ repeat x00 (Z.to_nat ((55 - zlen l) mod 64)) ++ bigEndian 8 (8 * zlen l).
Definition Sum256 (l : bytes) : bytes :=
  let ws := words (pad l) in mjoin (map (bigEndian 4) (blocks (length ws / 16) ws initial)).
End Sha256.
(** [hex.EncodeToString]. *)
Definition hexByte (b : byte) : list ascii :=
  let n := Z.to_nat (Sha256.ofByte b) in [hexDigit (n / 16)%nat; hexDigit (n mod 16)%nat].
Definition hexEncode (l : bytes) : string := unchars (mjoin (hexByte <$> l)).
Definition shaHex (l : bytes) : string := hexEncode (Sha256.Sum256 l).

(** ** Errors *)
Definition ErrArtifactNotFound : error := ESentinel "ErrArtifactNotFound" "artifact not found".
Definition ErrInvalidArtifactID : error := ESentinel "ErrInvalidArtifactID" "invalid artifact id".
Definition errNotExist : error := ESentinel "fs.ErrNotExist" "file does not exist".
Definition errExist : error := ESentinel "fs.ErrExist" "file already exists".

Definition set_am_stored (id sha : string) (size : Z) (m : ArtifactMeta) : ArtifactMeta :=
  mkArtifactMeta id sha (am_ContentType m) size (am_CreatedAt m) (am_TenantID m) (am_RunID m) (am_WorkflowID m)
    (am_NodeID m) (am_Attempt m) (am_Labels m) (am_Description m) (am_OriginalName m).
Definition set_am_CreatedAt (t : Time) (m : ArtifactMeta) : ArtifactMeta :=
  mkArtifactMeta (am_ArtifactID m) (am_Sha256 m) (am_ContentType m) (am_Size m) t (am_TenantID m) (am_RunID m)
    (am_WorkflowID m) (am_NodeID m) (am_Attempt m) (am_Labels m) (am_Description m) (am_OriginalName m).

(** The rows of a run, the newest first, up to the limit.  Rows of one instant are in the order
    they were found in, which [sort.Slice] does not promise. *)
Definition newestFirst (limit : Z) (out : list ArtifactMeta) : list ArtifactMeta :=
  let out := sortSlice (fun a b => After (am_CreatedAt a) (am_CreatedAt b)) out in
  if (0 <? limit) && (limit <? zlen out) then take (Z.to_nat limit) out else out.

(** ** MemoryArtifactStore *)
(** The [n]-th 32 bytes of crypto/rand and the [n]-th reading of the clock. *)
Class MemoryEnv : Type := { randomBytes : nat -> bytes; clock : nat -> Time }.
Record MemoryArtifactStore : Type := mkMemoryArtifacts {
  blobs : gmap string bytes;
  metas : gmap string ArtifactMeta;
  ms_draws : nat;
  ms_reads : nat
}.
Definition NewMemoryArtifactStore : MemoryArtifactStore := mkMemoryArtifacts ∅ ∅ 0 0.

Section memory.
Context `{MemoryEnv} `{MapOrder}.
Implicit Types s : MemoryArtifactStore.

Definition newHex64 s : string * MemoryArtifactStore :=
  (hexEncode (randomBytes (ms_draws s)), mkMemoryArtifacts (blobs s) (metas s) (S (ms_draws s)) (ms_reads s)).
Definition memoryNow s : Time * MemoryArtifactStore :=
  (clock (ms_reads s), mkMemoryArtifacts (blobs s) (metas s) (ms_draws s) (S (ms_reads s))).

Definition MemoryArtifactStore_Put (data : bytes) (meta : ArtifactMeta) s :
    MemoryArtifactStore * ((string * ArtifactMeta) + error) :=
  let '(meta, s) := if IsZero (am_CreatedAt meta)
                    then let '(now, s) := memoryNow s in (set_am_CreatedAt now meta, s) else (meta, s) in
  let '(id, s) := newHex64 s in
  let meta := set_am_stored id (shaHex data) (zlen data) meta in
  (mkMemoryArtifacts (<[id := data]> (blobs s)) (<[id := meta]> (metas s)) (ms_draws s) (ms_reads s),
   inl (id, meta)).
Definition MemoryArtifactStore_Get (artifactID : string) s : (bytes * ArtifactMeta) + error :=
  match blobs s !! artifactID, metas s !! artifactID with
  | Some b, Some m => inl (b, m)
  | _, _ => inr ErrArtifactNotFound
  end.
Definition MemoryArtifactStore_Delete (artifactID : string) s : MemoryArtifactStore :=
  mkMemoryArtifacts (delete artifactID (blobs s)) (delete artifactID (metas s)) (ms_draws s) (ms_reads s).
Definition MemoryArtifactStore_ListByRun (runID : string) (limit : Z) s : list ArtifactMeta + error :=
  let runID := TrimSpace runID in
  if decide (runID = "") then inr (ENew "run_id is required")
  else inl (newestFirst limit
              (filter (fun m => am_RunID m = runID) (omap (fun id => metas s !! id) (order (dom (metas s)))))).
End memory.
#[export] Instance MemoryArtifacts `{MemoryEnv} : ArtifactStore MemoryArtifactStore := {|
  Put := MemoryArtifactStore_Put;
  Get := fun id s => (s, MemoryArtifactStore_Get id s);
  Delete := fun id s => (MemoryArtifactStore_Delete id s, None)
|}.

(** ** The file system *)
(** Every path of the store is [<root>/<area>/<prefix>/<name>]; no part holds a separator. *)
Definition path : Type := string * string * string.
Record Answer : Type := mkAnswer {
  an_err : option error;
  (** The bytes that reach the file when a write fails. *)
  an_wrote : nat;
  (** What [os.CreateTemp] puts for the star. *)
  an_temp : string;
  an_now : Time
}.
Definition fine : Answer := mkAnswer None 0 "0" zeroTime.
Record Disk : Type := mkDisk {
  dk_areas : gset string;
  dk_dirs : gset (string * string);
  dk_files : gmap path bytes;
  dk_answers : list Answer
}.
Definition set_dk_files x d : Disk := mkDisk (dk_areas d) (dk_dirs d) x (dk_answers d).
Definition nextAnswer d : Answer * Disk :=
  match dk_answers d with
  | [] => (fine, d)
  | a :: l => (a, mkDisk (dk_areas d) (dk_dirs d) (dk_files d) l)
  end.

(** A system call: the next answer is an error, or the call does its work. *)
Definition syscall {T} (work : Disk -> Disk * (T + error)) d : Disk * (T + error) :=
  let '(a, d) := nextAnswer d in
  match an_err a with Some err => (d, inr err) | None => work d end.
Definition succeeds d : Disk * (unit + error) := (d, inl ()).
Definition MkdirArea (area : string) d : Disk * (unit + error) :=
  syscall (fun d => (mkDisk ({[area]} ∪ dk_areas d) (dk_dirs d) (dk_files d) (dk_answers d), inl ())) d.
Definition MkdirAll (area prefix : string) d : Disk * (unit + error) :=
  syscall (fun d => (mkDisk ({[area]} ∪ dk_areas d) ({[(area, prefix)]} ∪ dk_dirs d) (dk_files d) (dk_answers d),
                     inl ())) d.
Definition StatArea (area : string) d : Disk * (unit + error) :=
  syscall (fun d => (d, if decide (area ∈ dk_areas d) then inl () else inr errNotExist)) d.
Definition Stat (p : path) d : Disk * (unit + error) :=
  syscall (fun d => (d, if dk_files d !! p is Some _ then inl () else inr errNotExist)) d.
Definition ReadFile (p : path) d : Disk * (bytes + error) :=
  syscall (fun d => (d, match dk_files d !! p with Some b => inl b | None => inr errNotExist end)) d.
(** The names below a directory, sorted. *)
Definition ReadArea (area : string) d : Disk * (list string + error) :=
  syscall (fun d => (d, inl (sortStrings (omap (fun '(a, x) => if decide (a = area) then Some x else None)
                                            (elements (dk_dirs d)))))) d.
Definition ReadDir (area prefix : string) d : Disk * (list string + error) :=
  syscall (fun d => (d, inl (sortStrings (omap (fun '(a, x, n) =>
                       if decide (a = area /\ x = prefix) then Some n else None)
                                            (elements (dom (dk_files d))))))) d.
Definition CreateTemp (area prefix : string) d : Disk * (path + error) :=
  let tmp := (area, prefix, ".tmp-" +:+ an_temp (nextAnswer d).1) in
  syscall (fun d =>
    if decide ((area, prefix) ∉ dk_dirs d) then (d, inr errNotExist)
    else if dk_files d !! tmp is Some _ then (d, inr errExist)
    else (set_dk_files (<[tmp := []]> (dk_files d)) d, inl tmp)) d.
Definition Write (p : path) (data : bytes) d : Disk * (unit + error) :=
  let '(a, d) := nextAnswer d in
  let write data := set_dk_files (alter (fun old => old ++ data) p (dk_files d)) d in
  match an_err a with
  | Some err => (write (take (an_wrote a) data), inr err)
  | None => (write data, inl ())
  end.
Definition Remove (p : path) d : Disk * (unit + error) :=
  syscall (fun d => if dk_files d !! p is Some _ then (set_dk_files (delete p (dk_files d)) d, inl ())
                    else (d, inr errNotExist)) d.
Definition Rename (p q : path) d : Disk * (unit + error) :=
  syscall (fun d => match dk_files d !! p with
                    | Some b => (set_dk_files (<[q := b]> (delete p (dk_files d))) d, inl ())
                    | None => (d, inr errNotExist)
                    end) d.
Definition diskNow d : Time * Disk := let '(a, d) := nextAnswer d in (an_now a, d).

(** ** LocalArtifactStore *)
(** The operating system the store runs on; [errno] is the number a link error carries. *)
Class Platform : Type := { windows : bool; errno : error -> option Z }.
Record LocalArtifactStore : Type := mkLocalArtifacts { la_root : string; la_disk : Disk }.
(** [^[a-f0-9]{64}$]. *)
Definition hexChar (a : ascii) : bool :=
  let n := nat_of_ascii a in ((97 <=? n)%nat && (n <=? 102)%nat) || ((48 <=? n)%nat && (n <=? 57)%nat).
Definition hex64 (s : string) : bool := (length (chars s) =? 64)%nat && forallb hexChar (chars s).

Section local.
Context `{Platform} `{JSON ArtifactMeta}.
Implicit Types (d : Disk) (s : LocalArtifactStore).

Definition isRetryableWindowsRenameErr (err : error) : bool :=
  match errno err with
  | Some n => (n =? 5) || (n =? 32) || (n =? 33)
  | None => false
  end ||
  (let s := ToLower (Error err) in
   Contains s "access is denied" || Contains s "sharing violation" || Contains s "used by another process").
Fixpoint renameLoop (attempts : nat) (lastErr : error) (tmp dst : path) (replace : bool) d : Disk * (unit + error) :=
  match attempts with
  | O => (d, inr lastErr)
  | S attempts =>
    let d := if replace && windows then (Remove dst d).1 else d in
    match Rename tmp dst d with
    | (d, inl _) => (d, inl ())
    | (d, inr err) =>
      if negb windows || negb (isRetryableWindowsRenameErr err) then (d, inr err)
      else renameLoop attempts err tmp dst replace d
    end
  end.
(** Closing a file changes nothing but may fail, as may syncing it and changing its mode. *)
Definition cleanup (tmp : path) (err : error) d : Disk * (unit + error) :=
  ((Remove tmp (syscall succeeds d).1).1, inr err).
Definition writeFileAtomic (dst : path) (data : bytes) (replace : bool) d : Disk * (unit + error) :=
  let '(area, prefix, _) := dst in
  let! (d, _) := MkdirAll area prefix d in
  let! (d, tmp) := CreateTemp area prefix d in
  match Write tmp data d with
  | (d, inr err) => cleanup tmp err d
  | (d, inl _) =>
    match syscall succeeds d with
    | (d, inr err) => cleanup tmp err d
    | (d, inl _) =>
      match syscall succeeds d with
      | (d, inr err) => cleanup tmp err d
      | (d, inl _) =>
        let '(d, chmod) := syscall succeeds d in
        match (if windows then inl () else chmod) with
        | inr err => cleanup tmp err d
        | inl _ =>
          let '(d, exists_) := if replace then (d, inr errNotExist) else Stat dst d in
          match exists_ with
          | inl _ => ((Remove tmp d).1, inl ())
          | inr _ =>
            match renameLoop (if windows then 12 else 1) (ENew "") tmp dst replace d with
            | (d, inl _) => (d, inl ())
            | (d, inr err) => ((Remove tmp d).1, inr err)
            end
          end
        end
      end
    end
  end.

Definition validateID (id : string) : option error :=
  if hex64 (TrimSpace id) then None else Some ErrInvalidArtifactID.
(** The identifier is validated without its spaces and used with them. *)
Definition prefixOf (id : string) : string := unchars (take 2 (chars id)).
Definition blobPath (id : string) : path + error :=
  match validateID id with Some err => inr err | None => inl ("blobs", prefixOf id, id) end.
Definition metaPath (id : string) : path + error :=
  match validateID id with Some err => inr err | None => inl ("meta", prefixOf id, id +:+ ".json") end.

Definition NewLocalArtifactStore (root : string) d : Disk * (LocalArtifactStore + error) :=
  let root := TrimSpace root in
  if decide (root = "") then (d, inr (ENew "artifact store root required"))
  else
    let! (d, _) := MkdirArea "blobs" d in
    let! (d, _) := MkdirArea "meta" d in
    (d, inl (mkLocalArtifacts root d)).

(** A blob that is there is not written again, its metadata are. *)
Definition putBlob (p : path) (data : bytes) d : Disk * (unit + error) :=
  match Stat p d with
  | (d, inr err) => if unwrapsTo err errNotExist then writeFileAtomic p data false d else (d, inr err)
  | (d, inl _) => (d, inl ())
  end.
Definition putMetaFile (p : path) (meta : ArtifactMeta) d : Disk * (unit + error) :=
  writeFileAtomic p (match marshal meta with inl b => b | inr _ => [] end) true d.
Definition LocalArtifactStore_put (data : bytes) (meta : ArtifactMeta) d : Disk * ((string * ArtifactMeta) + error) :=
  let id := shaHex data in
  let meta := set_am_stored id id (zlen data) meta in
  let '(meta, d) := if IsZero (am_CreatedAt meta)
                    then let '(now, d) := diskNow d in (set_am_CreatedAt now meta, d) else (meta, d) in
  match blobPath id, metaPath id with
  | inr err, _ | _, inr err => (d, inr err)
  | inl blob, inl file =>
    let! (d, _) := MkdirAll blob.1.1 blob.1.2 d in
    let! (d, _) := MkdirAll file.1.1 file.1.2 d in
    let! (d, _) := putBlob blob data d in
    let! (d, _) := putMetaFile file meta d in
    (d, inl (id, meta))
  end.
Definition readExisting (p : path) d : Disk * (bytes + error) :=
  match ReadFile p d with
  | (d, inr err) => (d, inr (if unwrapsTo err errNotExist then ErrArtifactNotFound else err))
  | (d, inl b) => (d, inl b)
  end.
Definition LocalArtifactStore_get (artifactID : string) d : Disk * ((bytes * ArtifactMeta) + error) :=
  match blobPath artifactID, metaPath artifactID with
  | inr err, _ | _, inr err => (d, inr err)
  | inl blob, inl file =>
    let! (d, mb) := readExisting file d in
    match unmarshal mb with
    | inr err => (d, inr (EWrap ("bad meta json for " +:+ artifactID +:+ ": " +:+ Error err) err))
    | inl meta =>
      let! (d, b) := readExisting blob d in
      (d, inl (b, meta))
    end
  end.
Definition LocalArtifactStore_delete (artifactID : string) d : Disk * option error :=
  match blobPath artifactID, metaPath artifactID with
  | inr err, _ | _, inr err => (d, Some err)
  | inl blob, inl file => ((Remove blob (Remove file d).1).1, None)
  end.

(** [filepath.WalkDir] over the metadata, in lexical order; [ctxErr] is the next answer. *)
Definition ctxErr d : Disk * (unit + error) := syscall succeeds d.
Section walk.
Context {T : Type} (visit : string -> string -> Disk -> T -> Disk * T * option error).
Fixpoint walkNames (prefix : string) (names : list string) d (t : T) : Disk * T * option error :=
  match names with
  | [] => (d, t, None)
  | name :: names =>
    match visit prefix name d t with
    | (d, t, Some err) => (d, t, Some err)
    | (d, t, None) => walkNames prefix names d t
    end
  end.
Fixpoint walkDirs (prefixes : list string) d (t : T) : Disk * T * option error :=
  match prefixes with
  | [] => (d, t, None)
  | prefix :: prefixes =>
    match ReadDir "meta" prefix d with
    | (d, inr err) => (d, t, Some err)
    | (d, inl names) =>
      match walkNames prefix names d t with
      | (d, t, Some err) => (d, t, Some err)
      | (d, t, None) => walkDirs prefixes d t
      end
    end
  end.
Definition WalkMeta d (t : T) : Disk * T * option error :=
  match StatArea "meta" d with
  | (d, inr err) => (d, t, Some err)
  | (d, inl _) =>
    match ReadArea "meta" d with
    | (d, inr err) => (d, t, Some err)
    | (d, inl prefixes) => walkDirs prefixes d t
    end
  end.
End walk.

Definition visitRow (runID prefix name : string) d (out : list ArtifactMeta) : Disk * list ArtifactMeta * option error :=
  if negb (HasSuffix name ".json") then (d, out, None)
  else
    match ctxErr d with
    | (d, inr err) => (d, out, Some err)
    | (d, inl _) =>
      match ReadFile ("meta", prefix, name) d with
      | (d, inr _) => (d, out, None)
      | (d, inl mb) =>
        (d, match unmarshal mb with
            | inl meta => if decide (am_RunID meta = runID) then out ++ [meta] else out
            | inr _ => out
            end, None)
      end
    end.
Definition LocalArtifactStore_ListByRun (runID : string) (limit : Z) d : Disk * (list ArtifactMeta + error) :=
  let runID := TrimSpace runID in
  if decide (runID = "") then (d, inr (ENew "run_id is required"))
  else
    match StatArea "meta" d with
    | (d, inr err) => (d, if unwrapsTo err errNotExist then inl [] else inr err)
    | (d, inl _) =>
      match WalkMeta (visitRow runID) d [] with
      | (d, _, Some err) => (d, inr err)
      | (d, out, None) => (d, inl (newestFirst limit out))
      end
    end.

Record PruneStats : Type := mkPruneStats { Considered : Z; Deleted : Z }.
Definition visitPrune (root : string) (cutoff : Time) (prefix name : string) d (st : PruneStats) :
    Disk * PruneStats * option error :=
  if negb (HasSuffix name ".json") then (d, st, None)
  else
    match ctxErr d with
    | (d, inr err) => (d, st, Some err)
    | (d, inl _) =>
      let st := mkPruneStats (Considered st +₆₄ 1) (Deleted st) in
      match ReadFile ("meta", prefix, name) d with
      | (d, inr err) => (d, st, Some err)
      | (d, inl mb) =>
        match unmarshal mb with
        | inr err => (d, st, Some (EWrap ("bad meta json at " +:+ root +:+ "/meta/" +:+ prefix +:+ "/" +:+ name +:+
                                          ": " +:+ Error err) err))
        | inl meta =>
          if IsZero (am_CreatedAt meta) then (d, st, None)
          else if Before (am_CreatedAt meta) cutoff
          then ((LocalArtifactStore_delete (TrimSuffix name ".json") d).1,
                mkPruneStats (Considered st) (Deleted st +₆₄ 1), None)
          else (d, st, None)
        end
      end
    end.
Definition PruneOlderThan (root : string) (cutoff : Time) d : Disk * PruneStats * option error :=
  let st := mkPruneStats 0 0 in
  match StatArea "meta" d with
  | (d, inr err) => (d, st, if unwrapsTo err errNotExist then None else Some err)
  | (d, inl _) => WalkMeta (visitPrune root cutoff) d st
  end.
End local.

Section instances.
Context `{Platform} `{JSON ArtifactMeta}.
Definition onDisk {T} (f : Disk -> Disk * T) (s : LocalArtifactStore) : LocalArtifactStore * T :=
  let '(d, x) := f (la_disk s) in (mkLocalArtifacts (la_root s) d, x).
#[export] Instance LocalArtifacts : ArtifactStore LocalArtifactStore := {|
  Put := fun data meta => onDisk (LocalArtifactStore_put data meta);
  Get := fun id => onDisk (LocalArtifactStore_get id);
  Delete := fun id => onDisk (LocalArtifactStore_delete id)
|}.
End instances.

(** ** The runner's calls *)
Section runner.
Context {S F A : Type} `{Store S} `{ArtifactStore A} `{Ambient} `{MapOrder}.
Context `{JSON (list string)} `{JSON AuditRecord} `{JSON AuthorizationPolicyBundle}.
Implicit Types r : Runner S F A.

Definition getArtifactStore r : A + error :=
  match rn_artifacts r with None => inr ErrArtifactStoreUnset | Some a => inl a end.
Definition GetArtifactInlineLimit r : Z := if rn_inlineLimit r <? 0 then 0 else rn_inlineLimit r.
Definition PutArtifact (data : bytes) (meta : ArtifactMeta) r :
    Runner S F A * ((string * ArtifactMeta) + error) :=
  match getArtifactStore r with
  | inr err => (r, inr err)
  | inl a => let '(a, res) := Put data meta a in (set_rn_artifacts (Some a) r, res)
  end.
Definition PutArtifactWithContentType (data : bytes) (contentType : string) r :
    Runner S F A * ((string * ArtifactMeta) + error) :=
  let ct := TrimSpace contentType in
  let ct := if decide (ct = "") then "application/octet-stream" else ct in
  PutArtifact data (mkArtifactMeta "" "" ct 0 zeroTime "" "" "" "" 0 ∅ "" "") r.

(** The tenant of an artifact is that of its metadata, else that of its run; without either it is
    open to every caller. *)
Definition artifactTenant (meta : ArtifactMeta) r : string :=
  let tenantID := TrimSpace (am_TenantID meta) in
  if decide (tenantID = "" /\ TrimSpace (am_RunID meta) <> "") then
    match GetRun (am_RunID meta) (rn_store r) with Some run => TrimSpace (r_TenantID run) | None => tenantID end
  else tenantID.
Definition ensureArtifactTenantAccess (ctx : Ctx) (now : Time) (meta : ArtifactMeta) (action : string) r :
    Runner S F A * option error :=
  let tenantID := artifactTenant meta r in
  if decide (tenantID = "") then (r, None)
  else ensureRunTenantAccess ctx now
         (mkRun (am_RunID meta) (am_WorkflowID meta) "" None None [] [] tenantID "" [] noBudget noUsage) action r.

Definition GetArtifact (ctx : Ctx) (now : Time) (artifactID : string) r :
    Runner S F A * ((bytes * ArtifactMeta) + error) :=
  match getArtifactStore r with
  | inr err => (r, inr err)
  | inl a =>
    let '(a, res) := Get (TrimSpace artifactID) a in
    let r := set_rn_artifacts (Some a) r in
    match res with
    | inr err => (r, inr err)
    | inl (data, meta) =>
      match ensureArtifactTenantAccess ctx now meta "artifact.get" r with
      | (r, Some err) => (r, inr err)
      | (r, None) => (r, inl (data, meta))
      end
    end
  end.
(** Reading, the check and the deletion are three calls of the store and the runner. *)
Definition DeleteArtifact (ctx : Ctx) (now : Time) (artifactID : string) r : Runner S F A * option error :=
  match getArtifactStore r with
  | inr err => (r, Some err)
  | inl a =>
    let id := TrimSpace artifactID in
    let '(a, res) := Get id a in
    let r := set_rn_artifacts (Some a) r in
    match res with
    | inr err => (r, Some err)
    | inl (_, meta) =>
      match ensureArtifactTenantAccess ctx now meta "artifact.delete" r with
      | (r, Some err) => (r, Some err)
      | (r, None) => let '(a, err) := Delete id a in (set_rn_artifacts (Some a) r, err)
      end
    end
  end.
End runner.
