(* ===== verification/CallContext.v ===== *)
(** * What a context carries to a tool (internal/engine/attempt_ctx.go, usage.go, trace.go, and
    the With... and ...From functions of agent_state.go, side_effects.go, tool_gateway.go,
    risk.go)

    [CallCtx] extends the part of a context the engine reads ([Ctx]) by the values the tool
    layer and the handlers read from it.  Sinks and artifact stores, which are functions of the
    process that runs the node, are not part of it; of a rate limiter, which is the caller's,
    it carries the answers. *)
From S2P Require Import Prelude Storage Graph EngineStore Throttle Authz Risk Tools Runtime Governance.

(** ** Data *)
Definition SideEffectModeCommit : string := "commit".
Definition SideEffectModeStage : string := "stage".
Definition SideEffectModeDryRun : string := "dry_run".
Definition SideEffectModeCompensate : string := "compensate".

Record ToolRuntimeContext : Type := mkToolRuntime {
  tr_Tool : string;
  tr_ServerID : string;
  tr_ServerKind : string;
  tr_RouteID : string;
  tr_Provider : string;
  tr_Model : string;
  tr_Sandboxed : bool;
  tr_Policy : ToolPolicy;
  tr_Server : ToolServerDefinition
}.
Record SideEffectRuntimeContext : Type := mkEffectRuntime {
  er_ReceiptID : string;
  er_Mode : string;
  er_Policy : SideEffectPolicy;
  er_Irreversible : bool;
  er_ApprovalRequired : bool;
  er_CompensationTool : string
}.
Record RuntimeRiskDecision : Type := mkRiskDecision {
  rd_Action : string; rd_Score : Z; rd_Findings : list RiskFinding
}.
Record ExecutionRef : Type := mkExecRef {
  xr_RunID : string; xr_WorkflowID : string; xr_NodeID : string; xr_Attempt : Z
}.
Record ReplayScope : Type := mkReplayScope {
  rs_SourceRunID : string; rs_Mode : string; rs_StartedAt : Time
}.

(** Rate limits (budget.go): the limiter belongs to the caller; [lm_answers n] is what its
    [n]-th call answers.  The other fields are those of the wrapper that reports refusals
    (rate_limiter_events.go). *)
Definition RateLimitTool : string := "tool".
Record RateLimitRequest : Type := mkLimitRequest {
  lr_TenantID : string; lr_Provider : string; lr_Kind : string;
  lr_EstimatedTokens : Z; lr_EstimatedDollars : float64
}.
Record RateLimitDecision : Type := mkLimitDecision {
  ld_Allowed : bool; ld_RetryAfter : Duration; ld_Reason : string
}.
Record Limiter : Type := mkLimiter {
  lm_answers : nat -> RateLimitRequest -> RateLimitDecision + error;
  lm_RunID : string;
  lm_WorkflowID : string;
  lm_NodeID : string;
  lm_Attempt : Z;
  lm_Topic : string
}.

Record CallCtx : Type := mkCallCtx {
  cc_base :> Ctx;
  cc_Attempt : Z;
  cc_Risk : option RuntimeRiskDecision;
  cc_Mode : string;
  cc_Tool : option ToolRuntimeContext;
  cc_SideEffect : option SideEffectRuntimeContext;
  cc_Limiter : option Limiter;
  cc_AgentID : string;
  cc_ExecRef : option ExecutionRef;
  cc_Replay : option ReplayScope;
  cc_TraceID : string
}.
Definition callCtx (c : Ctx) : CallCtx := mkCallCtx c 0 None "" None None None "" None None "".

Definition onBase (f : Ctx -> Ctx) (c : CallCtx) : CallCtx :=
  mkCallCtx (f (cc_base c)) (cc_Attempt c) (cc_Risk c) (cc_Mode c) (cc_Tool c) (cc_SideEffect c)
    (cc_Limiter c) (cc_AgentID c) (cc_ExecRef c) (cc_Replay c) (cc_TraceID c).

(** ** Values *)
Definition WithAttempt (attempt : Z) (c : CallCtx) : CallCtx :=
  mkCallCtx (cc_base c) attempt (cc_Risk c) (cc_Mode c) (cc_Tool c) (cc_SideEffect c)
    (cc_Limiter c) (cc_AgentID c) (cc_ExecRef c) (cc_Replay c) (cc_TraceID c).
Definition AttemptFrom (c : CallCtx) : Z := cc_Attempt c.
Definition WithRiskDecision (d : RuntimeRiskDecision) (c : CallCtx) : CallCtx :=
  mkCallCtx (cc_base c) (cc_Attempt c) (Some d) (cc_Mode c) (cc_Tool c) (cc_SideEffect c)
    (cc_Limiter c) (cc_AgentID c) (cc_ExecRef c) (cc_Replay c) (cc_TraceID c).
Definition RiskDecisionFrom (c : CallCtx) : option RuntimeRiskDecision := cc_Risk c.

(** The empty mode stands for none. *)
Definition WithSideEffectMode (mode : string) (c : CallCtx) : CallCtx :=
  let mode := TrimSpace mode in
  if decide (mode = "") then c
  else mkCallCtx (cc_base c) (cc_Attempt c) (cc_Risk c) mode (cc_Tool c) (cc_SideEffect c)
         (cc_Limiter c) (cc_AgentID c) (cc_ExecRef c) (cc_Replay c) (cc_TraceID c).
Definition SideEffectModeFrom (c : CallCtx) : option string :=
  let mode := TrimSpace (cc_Mode c) in if decide (mode = "") then None else Some mode.

Definition WithToolRuntime (t : ToolRuntimeContext) (c : CallCtx) : CallCtx :=
  mkCallCtx (cc_base c) (cc_Attempt c) (cc_Risk c) (cc_Mode c)
    (Some (mkToolRuntime (TrimSpace (tr_Tool t)) (TrimSpace (tr_ServerID t)) (TrimSpace (tr_ServerKind t))
             (TrimSpace (tr_RouteID t)) (TrimSpace (tr_Provider t)) (TrimSpace (tr_Model t)) (tr_Sandboxed t)
             (tr_Policy t) (tr_Server t)))
    (cc_SideEffect c) (cc_Limiter c) (cc_AgentID c) (cc_ExecRef c) (cc_Replay c) (cc_TraceID c).
Definition WithSideEffectRuntime (e : SideEffectRuntimeContext) (c : CallCtx) : CallCtx :=
  mkCallCtx (cc_base c) (cc_Attempt c) (cc_Risk c) (cc_Mode c) (cc_Tool c)
    (Some (mkEffectRuntime (TrimSpace (er_ReceiptID e)) (TrimSpace (er_Mode e)) (er_Policy e)
             (er_Irreversible e) (er_ApprovalRequired e) (TrimSpace (er_CompensationTool e))))
    (cc_Limiter c) (cc_AgentID c) (cc_ExecRef c) (cc_Replay c) (cc_TraceID c).
Definition WithRateLimiter (l : option Limiter) (c : CallCtx) : CallCtx :=
  match l with
  | None => c
  | Some _ => mkCallCtx (cc_base c) (cc_Attempt c) (cc_Risk c) (cc_Mode c) (cc_Tool c) (cc_SideEffect c)
                l (cc_AgentID c) (cc_ExecRef c) (cc_Replay c) (cc_TraceID c)
  end.
Definition RateLimiterFrom (c : CallCtx) : option Limiter := cc_Limiter c.

Definition WithAgentID (agentID : string) (c : CallCtx) : CallCtx :=
  let agentID := TrimSpace agentID in
  if decide (agentID = "") then c
  else mkCallCtx (cc_base c) (cc_Attempt c) (cc_Risk c) (cc_Mode c) (cc_Tool c) (cc_SideEffect c)
         (cc_Limiter c) agentID (cc_ExecRef c) (cc_Replay c) (cc_TraceID c).
Definition AgentIDFrom (c : CallCtx) : string := TrimSpace (cc_AgentID c).
Definition WithExecutionRef (x : ExecutionRef) (c : CallCtx) : CallCtx :=
  if decide (TrimSpace (xr_RunID x) = "") then c
  else mkCallCtx (cc_base c) (cc_Attempt c) (cc_Risk c) (cc_Mode c) (cc_Tool c) (cc_SideEffect c)
         (cc_Limiter c) (cc_AgentID c)
         (Some (mkExecRef (TrimSpace (xr_RunID x)) (TrimSpace (xr_WorkflowID x)) (TrimSpace (xr_NodeID x))
                  (xr_Attempt x)))
         (cc_Replay c) (cc_TraceID c).
Definition ExecutionRefFrom (c : CallCtx) : option ExecutionRef :=
  match cc_ExecRef c with
  | None => None
  | Some x =>
    if decide (TrimSpace (xr_RunID x) = "") then None
    else Some (mkExecRef (TrimSpace (xr_RunID x)) (TrimSpace (xr_WorkflowID x)) (TrimSpace (xr_NodeID x))
                 (xr_Attempt x))
  end.
Definition WithReplayScope (now : Time) (sourceRunID mode : string) (c : CallCtx) : CallCtx :=
  let sourceRunID := TrimSpace sourceRunID in
  if decide (sourceRunID = "") then c
  else mkCallCtx (cc_base c) (cc_Attempt c) (cc_Risk c) (cc_Mode c) (cc_Tool c) (cc_SideEffect c)
         (cc_Limiter c) (cc_AgentID c) (cc_ExecRef c) (Some (mkReplayScope sourceRunID mode now)) (cc_TraceID c).
(** A scope without an instant starts at the instant it is read. *)
Definition ReplayScopeFrom (now : Time) (c : CallCtx) : option ReplayScope :=
  match cc_Replay c with
  | None => None
  | Some s =>
    let id := TrimSpace (rs_SourceRunID s) in
    if decide (id = "") then None
    else Some (mkReplayScope id (rs_Mode s) (if IsZero (rs_StartedAt s) then now else rs_StartedAt s))
  end.
(** The identifier of a tracing span, which the context may also carry, is not modelled. *)
Definition WithTraceID (traceID : string) (c : CallCtx) : CallCtx :=
  mkCallCtx (cc_base c) (cc_Attempt c) (cc_Risk c) (cc_Mode c) (cc_Tool c) (cc_SideEffect c)
    (cc_Limiter c) (cc_AgentID c) (cc_ExecRef c) (cc_Replay c) traceID.
Definition TraceIDFrom (c : CallCtx) : string := cc_TraceID c.
