(* ===== verification/Gateway.v ===== *)
(** * The tool gateway (internal/engine/tool_gateway.go)

    The stored bundle of tool policies and servers, the policy and server that apply to a
    call, its authorization, and the records of calls.  Routing is in Routing.v, the call
    itself in ToolCall.v. *)
From S2P Require Import Prelude Storage Graph EngineStore Throttle Authz Risk Tools Runtime Governance.
From S2P Require Import CallContext.

Definition toolGatewayBundleKey : string := "tool_gateway/bundle".
Definition toolCallIndexKey : string := "tool_gateway/calls/index".
Definition toolCallRecordKey (id : string) : string := "tool_gateway/calls/" +:+ PathEscape (TrimSpace id).

Record toolInvocation {F : Type} : Type := mkInvocation {
  iv_RunID : string;
  iv_WorkflowID : string;
  iv_NodeID : string;
  iv_Attempt : Z;
  iv_Tool : string;
  iv_RequiredCapability : string;
  iv_InputSchema : bytes;
  iv_OutputSchema : bytes;
  iv_Handler : option F
}.
Arguments toolInvocation : clear implicits.
Arguments mkInvocation {F}.

(** The encodings of the tool layer; [parseFloat] is the number a JSON literal denotes,
    [formatFixed n] the format %.nf, [formatDuration] is [Duration.String]. *)
Class ToolJSON : Type := {
  #[global] json_toolBundle :: JSON ToolGatewayBundle;
  #[global] json_toolCall :: JSON ToolCallRecord;
  #[global] json_brain :: JSON BrainPolicy;
  parseFloat : string -> float64;
  formatFixed : nat -> float64 -> string;
  formatDuration : Duration -> string
}.

Section gateway.
Context {S F A : Type} `{Store S} `{Ambient} `{MapOrder}.
Context `{JSON (list string)} `{JSON AuditRecord} `{JSON AuthorizationPolicyBundle} `{JSON json} `{ToolJSON}.
Implicit Types r : Runner S F A.

(** ** The bundle *)
Definition SaveToolGatewayBundle (now : Time) (b : ToolGatewayBundle) r : Runner S F A * option error :=
  match normalizeToolBundle unmarshal now b with
  | inr err => (r, Some err)
  | inl b =>
    match putJSONKV toolGatewayBundleKey b r with
    | (r, Some err) => (r, Some err)
    | (r, None) => (set_rn_toolGateway (Some b) r, None)
    end
  end.
(** The cached bundle, else the stored one, normalised and cached; [None]: there is none. *)
Definition GetToolGatewayBundle (now : Time) r : Runner S F A * (option ToolGatewayBundle + error) :=
  match rn_toolGateway r with
  | Some b => (r, inl (Some (cloneToolGatewayBundle b)))
  | None =>
    match getJSONKV toolGatewayBundleKey r with
    | None => (r, inl None)
    | Some (inr err) => (r, inr err)
    | Some (inl b) =>
      match normalizeToolBundle unmarshal now b with
      | inr err => (r, inr err)
      | inl b => (set_rn_toolGateway (Some b) r, inl (Some (cloneToolGatewayBundle b)))
      end
    end
  end.

(** ** The policy of a tool: without one, a local tool is allowed *)
Definition implicitPolicy (tool : string) : ToolPolicy :=
  mkToolPolicy ("implicit-" +:+ dotsToDashes tool) tool defaultToolServerID true false None None [] [] [] [].
Definition outOfScope (scopes : list string) (tenantID : string) : bool :=
  negb (bool_decide (scopes = [])) && negb (containsString scopes tenantID).
Definition withDefaultServer (p : ToolPolicy) : ToolPolicy :=
  mkToolPolicy (tp_ID p) (tp_Tool p) (if decide (tp_ServerID p = "") then defaultToolServerID else tp_ServerID p)
    (tp_Approved p) (SandboxRequired p) (tp_SideEffect p) (AdaptiveRouting p) (tp_TenantScopes p)
    (RedactFields p) (tp_InputSchema p) (tp_OutputSchema p).
Definition findPolicy (tool tenantID : string) (b : option ToolGatewayBundle) : ToolPolicy + error :=
  match List.find (fun p => bool_decide (tp_Tool p = tool)) (from_option tb_Tools [] b) with
  | None => inl (implicitPolicy tool)
  | Some p =>
    if outOfScope (tp_TenantScopes p) tenantID
    then inr (wrapf ErrToolNotApproved ("tool " +:+ Quote tool +:+ " is not scoped to tenant " +:+ Quote tenantID))
    else if negb (tp_Approved p)
    then inr (wrapf ErrToolNotApproved ("tool " +:+ Quote tool +:+ " is disabled"))
    else inl (cloneToolPolicy (withDefaultServer p))
  end.
Definition resolveToolPolicy (ctx : CallCtx) (now : Time) (tool : string) r :
    Runner S F A * (ToolPolicy + error) :=
  let! (r, b) := GetToolGatewayBundle now r in (r, findPolicy tool (effectiveTenantFromContext ctx) b).

(** ** The server of a tool *)
Definition localServer : ToolServerDefinition :=
  mkServer defaultToolServerID "local" "" "" true [] [] true.
Definition notRegistered (serverID : string) : error :=
  wrapf ErrToolServerNotApproved ("server " +:+ Quote serverID +:+ " is not registered").
Definition findServer (serverID tool tenantID : string) (b : ToolGatewayBundle) : ToolServerDefinition + error :=
  let deny msg := inr (wrapf ErrToolServerNotApproved ("server " +:+ Quote serverID +:+ msg)) in
  match List.find (fun s => bool_decide (ts_ID s = serverID)) (tb_Servers b) with
  | None => inr (notRegistered serverID)
  | Some s =>
    if negb (ts_Approved s) then deny " is disabled"
    else if outOfScope (ts_TenantScopes s) tenantID then deny (" is not scoped to tenant " +:+ Quote tenantID)
    else if outOfScope (AllowedTools s) tool then deny (" does not allow tool " +:+ Quote tool)
    else inl (cloneToolServerDefinition s)
  end.
Definition resolveToolServer (ctx : CallCtx) (now : Time) (p : ToolPolicy) r :
    Runner S F A * (ToolServerDefinition + error) :=
  let id := TrimSpace (tp_ServerID p) in
  let id := if decide (id = "") then defaultToolServerID else id in
  if decide (id = defaultToolServerID) then (r, inl localServer)
  else
    let! (r, b) := GetToolGatewayBundle now r in
    match b with
    | None => (r, inr (notRegistered id))
    | Some b => (r, findServer id (tp_Tool p) (effectiveTenantFromContext ctx) b)
    end.

(** ** Authorization *)
Definition toolRequest (ctx : CallCtx) (inv : toolInvocation F) : AuthorizationRequest :=
  mkRequest PolicyActionToolExecute (TrimSpace (iv_RunID inv)) (effectiveTenantFromContext ctx)
    (TrimSpace (iv_WorkflowID inv)) (TrimSpace (iv_NodeID inv)) (TrimSpace (iv_Tool inv))
    (TrimSpace (iv_RequiredCapability inv)) (Normalize (default noPrincipal (PrincipalFrom ctx))).
Definition authorizeToolExecution (ctx : CallCtx) (inv : toolInvocation F) r :
    Runner S F A * option error :=
  match GetAuthorizationPolicy r with
  | (r, inr err) => (r, Some err)
  | (r, inl b) =>
    let check := evaluateAuthorization (default noBundle b) (toolRequest ctx inv) in
    if ac_Allowed check then (r, None) else (r, Some (authorizationError (ac_Reason check)))
  end.

(** ** Records of calls *)
Definition set_tc_ids (id : string) (at_ : Time) (tenant principal : string) (c : ToolCallRecord) : ToolCallRecord :=
  mkCallRecord id at_ tenant principal (TrimSpace (tc_RunID c)) (TrimSpace (tc_WorkflowID c))
    (TrimSpace (tc_NodeID c)) (tc_Attempt c) (TrimSpace (tc_Tool c)) (TrimSpace (tc_ServerID c))
    (TrimSpace (tc_ServerKind c)) (tc_RouteID c) (tc_Provider c) (tc_Model c) (tc_Allowed c)
    (tc_Sandboxed c) (tc_DurationMS c) (TrimSpace (tc_Reason c)) (tc_Input c) (tc_Output c)
    (TrimSpace (tc_Error c)).
(** An identifier is drawn when the record has none; failures to store it are dropped. *)
Definition saveToolCallRecord (ctx : CallCtx) (now : Time) (c : ToolCallRecord) r : Runner S F A :=
  let '(id, r) := if decide (TrimSpace (tc_ID c) = "")
                  then let '(t, r) := NewTraceID r in ("tool-call-" +:+ formatTime now +:+ "-" +:+ t, r)
                  else (TrimSpace (tc_ID c), r) in
  let tenant := TrimSpace (tc_TenantID c) in
  let principal := TrimSpace (tc_PrincipalID c) in
  let c := set_tc_ids id (if IsZero (tc_At c) then now else tc_At c)
             (if decide (tenant = "") then effectiveTenantFromContext ctx else tenant)
             (if decide (principal = "") then default "" (TrimSpace ∘ p_ID <$> PrincipalFrom ctx) else principal) c in
  if decide (tc_Tool c = "") then r
  else match putJSONKV (toolCallRecordKey id) c r with
       | (r, Some _) => r
       | (r, None) =>
         match indexIDs toolCallIndexKey r with
         | inr _ => r
         | inl ids => (putJSONKV toolCallIndexKey (ids ++ [id]) r).1
         end
       end.

Definition cloneToolCallRecord (c : ToolCallRecord) : ToolCallRecord :=
  mkCallRecord (TrimSpace (tc_ID c)) (tc_At c) (TrimSpace (tc_TenantID c)) (TrimSpace (tc_PrincipalID c))
    (TrimSpace (tc_RunID c)) (TrimSpace (tc_WorkflowID c)) (TrimSpace (tc_NodeID c)) (tc_Attempt c)
    (TrimSpace (tc_Tool c)) (TrimSpace (tc_ServerID c)) (TrimSpace (tc_ServerKind c)) (TrimSpace (tc_RouteID c))
    (TrimSpace (tc_Provider c)) (TrimSpace (tc_Model c)) (tc_Allowed c) (tc_Sandboxed c) (tc_DurationMS c)
    (TrimSpace (tc_Reason c)) (tc_Input c) (tc_Output c) (TrimSpace (tc_Error c)).
Definition wanted (filter value : string) : bool :=
  bool_decide (filter = "") || bool_decide (TrimSpace value = filter).
(** The newest identifiers first, up to the limit. *)
Fixpoint callRows (ids : list string) (tenantID runID tool : string) (limit : Z) (out : list ToolCallRecord) r :
    list ToolCallRecord :=
  match ids with
  | [] => out
  | id :: ids =>
    match getJSONKV (toolCallRecordKey id) r with
    | Some (inl c) =>
      if wanted tenantID (tc_TenantID c) && wanted runID (tc_RunID c) && wanted tool (tc_Tool c) then
        let out := out ++ [cloneToolCallRecord c] in
        if limit <=? zlen out then out else callRows ids tenantID runID tool limit out r
      else callRows ids tenantID runID tool limit out r
    | _ => callRows ids tenantID runID tool limit out r
    end
  end.
Definition ListToolCallRecords (ctx : CallCtx) (runID tool : string) (limit : Z) r :
    list ToolCallRecord + error :=
  let limit := if limit <=? 0 then 100 else limit in
  match indexIDs toolCallIndexKey r with
  | inr err => inr err
  | inl ids => inl (callRows (reverse ids) (effectiveTenantFromContext ctx) (TrimSpace runID) (TrimSpace tool)
                      limit [] r)
  end.

(** The record and the audit record of a call; what was sent and returned is redacted. *)
Definition logToolCall (ctx : CallCtx) (now : Time) (inv : toolInvocation F) (server : ToolServerDefinition)
    (policy : ToolPolicy) (input output : bytes) (allowed sandboxed : bool) (dur : Duration)
    (callErr : option error) (route : AdaptiveRoute) r : Runner S F A :=
  let allowed := allowed && bool_decide (callErr = None) in
  let reason := match callErr with
                | Some err => Error err
                | None => if sandboxed then "sandboxed tool execution" else "tool executed"
                end in
  let fields := combinedRedactFields policy in
  let c := mkCallRecord "" now (effectiveTenantFromContext ctx) "" (TrimSpace (iv_RunID inv))
             (TrimSpace (iv_WorkflowID inv)) (TrimSpace (iv_NodeID inv)) (iv_Attempt inv)
             (TrimSpace (iv_Tool inv)) (TrimSpace (ts_ID server)) (TrimSpace (ts_Kind server))
             (TrimSpace (rt_ID route)) (TrimSpace (rt_Provider route)) (TrimSpace (rt_Model route)) allowed
             sandboxed (Milliseconds dur) reason (redactJSON unmarshal marshal input fields)
             (redactJSON unmarshal marshal output fields) (default "" (Error <$> callErr)) in
  let r := saveToolCallRecord ctx now c r in
  appendAuditRecord ctx now
    (mkAudit "" zeroTime (tc_TenantID c) "" "tool.call" "tool" (tc_Tool c) (tc_RunID c) (tc_WorkflowID c)
       (if allowed then AuditOutcomeAllowed else AuditOutcomeDenied) reason) r.
End gateway.
