(* ===== verification/AgentState.v ===== *)
(** * Versioned agent state (internal/engine/agent_state.go)

    Every write of an agent's state makes a new numbered version with its parent's number;
    reads give a version, the latest one, or, in a replay, the latest one the replay may see.
    A write is cut between its look-up of the latest version and its two puts, where another
    write may take place.  The contexts of this file are in CallContext.v. *)
From S2P Require Import Prelude Storage Graph EngineStore Throttle Authz Risk Tools Runtime Governance.
From S2P Require Import CallContext.
From Stdlib Require Import Ascii.

Definition ErrAgentStateNotFound : error := ESentinel "ErrAgentStateNotFound" "agent state not found".
Definition ErrAgentStateAccessDenied : error := ESentinel "ErrAgentStateAccessDenied" "agent state access denied".
Definition ErrAgentStateReplayWriteDenied : error :=
  ESentinel "ErrAgentStateReplayWriteDenied" "agent state writes are blocked during replay".
Definition ErrAgentStateVersionConflict : error :=
  ESentinel "ErrAgentStateVersionConflict" "agent state version conflict".

Record AgentStateSnapshot : Type := mkSnapshot {
  as_TenantID : string;
  as_AgentID : string;
  as_Version : Z;
  as_ParentVersion : Z;
  as_CreatedAt : Time;
  as_State : bytes;
  as_TraceID : string;
  as_PrincipalID : string;
  as_RunID : string;
  as_WorkflowID : string;
  as_NodeID : string;
  as_Attempt : Z
}.
Record AgentStateReadOptions : Type := mkReadOptions { ro_Version : Z }.
Record AgentStateWriteRequest : Type := mkWriteRequest {
  wq_AgentID : string; wq_State : bytes; wq_ExpectedVersion : Z
}.

(** ** Names and keys *)
(** [^[a-zA-Z0-9_-]+$] *)
Definition idChar (a : ascii) : bool :=
  let n := nat_of_ascii a in
  ((48 <=? n) && (n <=? 57) || (65 <=? n) && (n <=? 90) || (97 <=? n) && (n <=? 122) ||
   (n =? 95) || (n =? 45))%nat.
Definition agentStateIDRe (s : string) : bool := negb (bool_decide (s = "")) && forallb idChar (chars s).
Definition normalizeAgentStateID (agentID : string) : string + error :=
  let agentID := TrimSpace agentID in
  if decide (agentID = "") then inr (wrapf ErrAgentStateAccessDenied "agent id is required")
  else if negb (agentStateIDRe agentID)
  then inr (wrapf ErrAgentStateAccessDenied
              ("agent id " +:+ Quote agentID +:+ " must match ^[a-zA-Z0-9_-]+$"))
  else inl agentID.
Definition agentStateKeyPart (v : string) : string := PathEscape (TrimSpace v).
Definition agentStateLatestKey (tenantID agentID : string) : string :=
  "agent_state/latest/" +:+ agentStateKeyPart tenantID +:+ "/" +:+ agentStateKeyPart agentID.
(** The format %012d: the sign counts. *)
Definition zeros (n : nat) : string := unchars (replicate n "0"%char).
Definition padded (width : nat) (n : Z) : string :=
  if n <? 0 then "-" +:+ zeros (width - 1 - String.length (pretty (- n))) +:+ pretty (- n)
  else zeros (width - String.length (pretty n)) +:+ pretty n.
Definition agentStateSnapshotKey (tenantID agentID : string) (version : Z) : string :=
  "agent_state/snapshots/" +:+ agentStateKeyPart tenantID +:+ "/" +:+ agentStateKeyPart agentID +:+ "/" +:+
  padded 12 version.

Definition cloneAgentStateSnapshot (s : AgentStateSnapshot) : AgentStateSnapshot :=
  mkSnapshot (TrimSpace (as_TenantID s)) (TrimSpace (as_AgentID s)) (as_Version s) (as_ParentVersion s)
    (as_CreatedAt s) (as_State s) (TrimSpace (as_TraceID s)) (TrimSpace (as_PrincipalID s))
    (TrimSpace (as_RunID s)) (TrimSpace (as_WorkflowID s)) (TrimSpace (as_NodeID s)) (as_Attempt s).

(** The encodings of versions and snapshots. *)
Class AgentJSON : Type := {
  #[global] json_version :: JSON Z;
  #[global] json_snapshot :: JSON AgentStateSnapshot
}.

Section agentState.
Context {S F A : Type} `{Store S} `{Ambient} `{MapOrder}.
Context `{JSON (list string)} `{JSON AuditRecord} `{JSONSyntax} `{AgentJSON}.
Implicit Types r : Runner S F A.

(** [None]: there is no such version. *)
Definition readAgentStateVersion (tenantID agentID : string) (version : Z) r : option AgentStateSnapshot + error :=
  match getJSONKV (agentStateSnapshotKey tenantID agentID version) r with
  | None => inl None
  | Some (inr err) => inr err
  | Some (inl s) => inl (Some (cloneAgentStateSnapshot s))
  end.
Definition latestAgentStateVersion (tenantID agentID : string) r : option Z + error :=
  match getJSONKV (agentStateLatestKey tenantID agentID) r with
  | None => inl None
  | Some (inr err) => inr err
  | Some (inl latest) => inl (if 0 <? latest then Some latest else None)
  end.
(** From [version] down to 1. *)
Fixpoint readableVersion (tenantID agentID : string) (boundary : Time) (version : nat) r :
    option AgentStateSnapshot + error :=
  match version with
  | O => inl None
  | Datatypes.S older =>
    match readAgentStateVersion tenantID agentID (Z.of_nat version) r with
    | inr err => inr err
    | inl None => readableVersion tenantID agentID boundary older r
    | inl (Some s) =>
      if negb (After (as_CreatedAt s) boundary) then inl (Some s)
      else readableVersion tenantID agentID boundary older r
    end
  end.
Definition latestReplayReadableAgentState (ctx : CallCtx) (now : Time) (tenantID agentID : string) r :
    option AgentStateSnapshot + error :=
  match ReplayScopeFrom now ctx with
  | None => inl None
  | Some scope =>
    match latestAgentStateVersion tenantID agentID r with
    | inr err => inr err
    | inl None => inl None
    | inl (Some latest) => readableVersion tenantID agentID (rs_StartedAt scope) (Z.to_nat latest) r
    end
  end.

(** ** Access *)
Definition agentAudit (tenantID principalID action agentID outcome reason : string) : AuditRecord :=
  mkAudit "" zeroTime tenantID principalID action "agent_state" agentID "" "" outcome reason.
Definition ensureAgentStateAccess (ctx : CallCtx) (now : Time) (tenantID agentID action : string) r :
    Runner S F A * option error :=
  let tenantID := TrimSpace tenantID in
  let agentID := TrimSpace agentID in
  let action := TrimSpace action in
  let deny tenant principalID reason err :=
    (appendAuditRecord ctx now (agentAudit tenant principalID action agentID AuditOutcomeDenied reason) r, Some err) in
  let caller := effectiveTenantFromContext ctx in
  if decide (tenantID = "")
  then deny "" "" "missing tenant context"
         (wrapf ErrTenantAccessDenied ("missing tenant context for agent " +:+ Quote agentID))
  else if decide (caller <> tenantID)
  then let why := "caller tenant " +:+ Quote caller +:+ " cannot access tenant " +:+ Quote tenantID in
       deny tenantID "" why (wrapf ErrTenantAccessDenied why)
  else if decide (AgentIDFrom ctx <> "" /\ AgentIDFrom ctx <> agentID)
  then let why := "agent scope " +:+ Quote (AgentIDFrom ctx) +:+ " cannot access agent " +:+ Quote agentID in
       deny tenantID "" why (wrapf ErrAgentStateAccessDenied why)
  else
    let scopes := match PrincipalFrom ctx with None => [] | Some p => p_TenantScopes p end in
    if decide (scopes <> [] /\ existsb (matchPattern tenantID) scopes = false)
    then let why := "principal tenant scope does not include tenant " +:+ Quote tenantID in
         deny tenantID (default "" (p_ID <$> PrincipalFrom ctx)) why (wrapf ErrTenantAccessDenied why)
    else (appendAuditRecord ctx now
            (agentAudit tenantID "" action agentID AuditOutcomeAllowed "agent state access allowed") r, None).

(** ** Reading *)
Definition agentNotFound (agentID detail : string) : error :=
  wrapf ErrAgentStateNotFound ("agent=" +:+ Quote agentID +:+ detail).
Definition readLatest (ctx : CallCtx) (now : Time) (tenantID agentID : string) r : AgentStateSnapshot + error :=
  match latestReplayReadableAgentState ctx now tenantID agentID r with
  | inr err => inr err
  | inl (Some s) => inl s
  | inl None =>
    match latestAgentStateVersion tenantID agentID r with
    | inr err => inr err
    | inl None => inr (agentNotFound agentID "")
    | inl (Some latest) =>
      match readAgentStateVersion tenantID agentID latest r with
      | inr err => inr err
      | inl None => inr (agentNotFound agentID "")
      | inl (Some s) => inl s
      end
    end
  end.
Definition ReadAgentState (ctx : CallCtx) (now : Time) (agentID : string) (opts : AgentStateReadOptions) r :
    Runner S F A * (AgentStateSnapshot + error) :=
  match normalizeAgentStateID agentID with
  | inr err => (r, inr err)
  | inl agentID =>
    let tenantID := effectiveTenantFromContext ctx in
    match ensureAgentStateAccess ctx now tenantID agentID "agent_state.read" r with
    | (r, Some err) => (r, inr err)
    | (r, None) =>
      (r, if 0 <? ro_Version opts
          then match readAgentStateVersion tenantID agentID (ro_Version opts) r with
               | inr err => inr err
               | inl None => inr (agentNotFound agentID (" version=" +:+ pretty (ro_Version opts)))
               | inl (Some s) => inl s
               end
          else readLatest ctx now tenantID agentID r)
    end
  end.

(** ** Writing *)
(** The snapshot a write of version [parent + 1] stores. *)
Definition nextSnapshot (ctx : CallCtx) (now : Time) (tenantID agentID : string) (state : bytes) (parent : Z) :
    AgentStateSnapshot :=
  let x := default (mkExecRef "" "" "" 0) (ExecutionRefFrom ctx) in
  mkSnapshot tenantID agentID (parent +₆₄ 1) parent now state (TraceIDFrom ctx)
    (default "" ((fun p => TrimSpace (p_ID p)) <$> PrincipalFrom ctx))
    (xr_RunID x) (xr_WorkflowID x) (xr_NodeID x) (xr_Attempt x).
Definition beginWrite (ctx : CallCtx) (now : Time) (q : AgentStateWriteRequest) r :
    Runner S F A * (AgentStateSnapshot + error) :=
  match normalizeAgentStateID (wq_AgentID q) with
  | inr err => (r, inr err)
  | inl agentID =>
    let state := if decide (wq_State q = []) then fromString "{}" else wq_State q in
    let tenantID := effectiveTenantFromContext ctx in
    if negb (validJSON state) then (r, inr (ENew "agent state must be valid json"))
    else
      match ensureAgentStateAccess ctx now tenantID agentID "agent_state.write" r with
      | (r, Some err) => (r, inr err)
      | (r, None) =>
        match ReplayScopeFrom now ctx with
        | Some _ => (r, inr ErrAgentStateReplayWriteDenied)
        | None =>
          match latestAgentStateVersion tenantID agentID r with
          | inr err => (r, inr err)
          | inl latest =>
            let parent := default 0 latest in
            if (0 <? wq_ExpectedVersion q) && negb (wq_ExpectedVersion q =? parent)
            then (r, inr (wrapf ErrAgentStateVersionConflict
                            ("expected=" +:+ pretty (wq_ExpectedVersion q) +:+ " latest=" +:+ pretty parent)))
            else (r, inl (nextSnapshot ctx now tenantID agentID state parent))
          end
        end
      end
  end.
Definition endWrite (s : AgentStateSnapshot) r : Runner S F A * (AgentStateSnapshot + error) :=
  match putJSONKV (agentStateSnapshotKey (as_TenantID s) (as_AgentID s) (as_Version s)) s r with
  | (r, Some err) => (r, inr err)
  | (r, None) =>
    match putJSONKV (agentStateLatestKey (as_TenantID s) (as_AgentID s)) (as_Version s) r with
    | (r, Some err) => (r, inr err)
    | (r, None) => (r, inl (cloneAgentStateSnapshot s))
    end
  end.
Definition WriteAgentState (ctx : CallCtx) (now : Time) (q : AgentStateWriteRequest) r :
    Runner S F A * (AgentStateSnapshot + error) :=
  match beginWrite ctx now q r with
  | (r, inr err) => (r, inr err)
  | (r, inl s) => endWrite s r
  end.

(** ** Lineage: the newest versions first *)
Fixpoint lineage (tenantID agentID : string) (limit : Z) (version : nat) (out : list AgentStateSnapshot) r :
    list AgentStateSnapshot + error :=
  match version with
  | O => inl out
  | Datatypes.S older =>
    if limit <=? zlen out then inl out
    else match readAgentStateVersion tenantID agentID (Z.of_nat version) r with
         | inr err => inr err
         | inl None => lineage tenantID agentID limit older out r
         | inl (Some s) => lineage tenantID agentID limit older (out ++ [s]) r
         end
  end.
Definition ListAgentStateLineage (ctx : CallCtx) (now : Time) (agentID : string) (limit : Z) r :
    Runner S F A * (list AgentStateSnapshot + error) :=
  match normalizeAgentStateID agentID with
  | inr err => (r, inr err)
  | inl agentID =>
    let tenantID := effectiveTenantFromContext ctx in
    let limit := if limit <=? 0 then 100 else limit in
    let limit := if 500 <? limit then 500 else limit in
    match ensureAgentStateAccess ctx now tenantID agentID "agent_state.lineage" r with
    | (r, Some err) => (r, inr err)
    | (r, None) =>
      match latestAgentStateVersion tenantID agentID r with
      | inr err => (r, inr err)
      | inl None => (r, inl [])
      | inl (Some latest) => (r, lineage tenantID agentID limit (Z.to_nat latest) [] r)
      end
    end
  end.
End agentState.
