(* ===== verification/Human.v ===== *)
(** * Human approval (internal/engine/human.go)

    Tasks that wait for a person, kept as JSON values in the store; the step of a node that
    asks for approval; the resolution of a task.  Resuming the run after a resolution is in
    Admission.v. *)
From S2P Require Import Prelude Storage Graph EngineStore Throttle Authz Risk Runtime Governance.

(** ** Data *)
Definition humanTaskIndexKey : string := "human/tasks/index".
Definition HumanTaskPending : string := "pending".
Definition HumanTaskApproved : string := "approved".
Definition HumanTaskRejected : string := "rejected".
Definition HumanTaskTimedOut : string := "timed_out".
Definition HumanTaskCanceled : string := "canceled".
Definition HumanTaskSourceNode : string := "node".
Definition HumanTaskSourceRisk : string := "risk".
Definition HumanDecisionApprove : string := "approve".
Definition HumanDecisionReject : string := "reject".

Definition ErrHumanApprovalPending : error :=
  ESentinel "ErrHumanApprovalPending" "human approval pending".
Definition ErrHumanTaskNotFound : error := ESentinel "ErrHumanTaskNotFound" "human task not found".
Definition ErrHumanTaskResolved : error :=
  ESentinel "ErrHumanTaskResolved" "human task already resolved".
Definition ErrRunCanceled : error := ESentinel "ErrRunCanceled" "run canceled".

Record HumanTask : Type := mkTask {
  ht_ID : string;
  ht_RunID : string;
  ht_WorkflowID : string;
  ht_NodeID : string;
  ht_Attempt : Z;
  ht_TenantID : string;
  ht_Mode : string;
  ht_Source : string;
  ht_Status : string;
  ht_Prompt : string;
  ht_RequestedInput : bytes;
  ht_EditedInput : bytes;
  ht_SideEffectReceiptID : string;
  ht_ReviewComment : string;
  ht_TimeoutAction : string;
  ht_CreatedAt : Time;
  ht_UpdatedAt : Time;
  ht_ResolvedAt : option Time;
  ht_ExpiresAt : option Time;
  ht_RiskReport : option WorkflowRiskReport
}.

(** The outcome of a node: a delay is an error [errors.As] finds a [DelayError] in. *)
Inductive NodeError : Type := NErr (err : error) | NDelay (after : Duration) (reason : string).
Record nodeResult : Type := mkResult {
  nr_nodeID : string;
  nr_attempt : Z;
  nr_started : Time;
  nr_ended : Time;
  nr_input : bytes;
  nr_output : bytes;
  nr_err : option NodeError
}.

Definition humanTaskKey (id : string) : string := "human/tasks/" +:+ TrimSpace id.
Definition humanTimeoutPrefix : string := "human_timeout:".

(** The task with another outcome. *)
Definition settleTask (status comment : string) (edited : bytes) (now : Time) (t : HumanTask) : HumanTask :=
  mkTask (ht_ID t) (ht_RunID t) (ht_WorkflowID t) (ht_NodeID t) (ht_Attempt t) (ht_TenantID t)
    (ht_Mode t) (ht_Source t) status (ht_Prompt t) (ht_RequestedInput t) edited
    (ht_SideEffectReceiptID t) comment (ht_TimeoutAction t) (ht_CreatedAt t) now (Some now)
    (ht_ExpiresAt t) (ht_RiskReport t).

Section human.
Context {S F A : Type} `{Store S} `{Ambient} `{MapOrder}.
Context `{JSON (list string)} `{JSON AuditRecord} `{JSON HumanTask}.
Implicit Types r : Runner S F A.

(** ** Storing tasks *)
(** The fields are trimmed; the record saved is a copy, the caller's task keeps its fields. *)
Definition saveHumanTask (now : Time) (t : HumanTask) r : Runner S F A * option error :=
  let '(id, r) := if decide (TrimSpace (ht_ID t) = "")
                  then let '(x, r) := NewTraceID r in ("human-" +:+ formatTime now +:+ "-" +:+ x, r)
                  else (TrimSpace (ht_ID t), r) in
  let t := mkTask id (TrimSpace (ht_RunID t)) (TrimSpace (ht_WorkflowID t)) (TrimSpace (ht_NodeID t))
             (ht_Attempt t) (TrimSpace (ht_TenantID t)) (TrimSpace (ht_Mode t)) (TrimSpace (ht_Source t))
             (TrimSpace (ht_Status t)) (TrimSpace (ht_Prompt t)) (ht_RequestedInput t) (ht_EditedInput t)
             (TrimSpace (ht_SideEffectReceiptID t)) (TrimSpace (ht_ReviewComment t))
             (TrimSpace (ht_TimeoutAction t)) (if IsZero (ht_CreatedAt t) then now else ht_CreatedAt t) now
             (ht_ResolvedAt t) (ht_ExpiresAt t) (ht_RiskReport t) in
  match putJSONKV (humanTaskKey id) t r with
  | (r, Some err) => (r, Some err)
  | (r, None) =>
    match indexIDs humanTaskIndexKey r with
    | inr err => (r, Some err)
    | inl ids => if decide (id ∈ ids) then (r, None) else putJSONKV humanTaskIndexKey (ids ++ [id]) r
    end
  end.

Definition GetHumanTask (taskID : string) r : option (HumanTask + error) := getJSONKV (humanTaskKey taskID) r.

Fixpoint taskRows (ids : list string) (runID status : string) (limit : Z) (out : list HumanTask) r :
    list HumanTask :=
  match ids with
  | [] => out
  | id :: ids =>
    match GetHumanTask id r with
    | Some (inl t) =>
      if decide (runID <> "" /\ ht_RunID t <> runID) then taskRows ids runID status limit out r
      else if decide (status <> "" /\ ht_Status t <> status) then taskRows ids runID status limit out r
      else let out := out ++ [t] in
           if limit <=? zlen out then out else taskRows ids runID status limit out r
    | _ => taskRows ids runID status limit out r
    end
  end.
Definition ListHumanTasks (runID status : string) (limit : Z) r : list HumanTask + error :=
  let limit := if limit <=? 0 then 100 else limit in
  match indexIDs humanTaskIndexKey r with
  | inr err => inr err
  | inl ids =>
    inl (sortSlice (fun a b => After (ht_CreatedAt a) (ht_CreatedAt b))
           (taskRows (reverse ids) (TrimSpace runID) (TrimSpace status) limit [] r))
  end.

(** The task of the attempt, else the first one of the node. *)
Definition findHumanTask (runID nodeID : string) (attempt : Z) (source : string) r :
    option HumanTask + error :=
  match ListHumanTasks runID "" 500 r with
  | inr err => inr err
  | inl tasks =>
    let source := TrimSpace source in
    let tasks := filter (fun t => ht_NodeID t = TrimSpace nodeID /\ (source = "" \/ ht_Source t = source)) tasks in
    match List.find (fun t => ht_Attempt t =? attempt) tasks with
    | Some t => inl (Some t)
    | None => inl (head tasks)
    end
  end.

(** ** Timers of tasks *)
Definition cancelHumanTimer (now : Time) (runID nodeID : string) (attempt : Z) (t : Timer) r : Runner S F A :=
  if decide (t_NodeID t <> nodeID \/ t_Attempt t <> attempt \/ t_Status t <> TimerScheduled) then r
  else
    let r := try (UpsertTimer (mkTimer (t_RunID t) (t_WorkflowID t) (t_NodeID t) (t_Attempt t) TimerCanceled
                                 (t_FireAt t) (t_CreatedAt t) (Some now) (t_Reason t))) r in
    emit now runID EventTimerCanceled (t_WorkflowID t) nodeID attempt [] r.
Definition cancelHumanTimers (now : Time) (runID nodeID : string) (attempt : Z) r : Runner S F A :=
  foldl (fun r t => cancelHumanTimer now runID nodeID attempt t r) r (ListTimers runID (rn_store r)).
Definition humanTimeoutFired (runID nodeID : string) (attempt : Z) r : bool :=
  existsb (fun t => bool_decide (t_NodeID t = nodeID) && (t_Attempt t =? attempt) &&
                    HasPrefix (t_Reason t) humanTimeoutPrefix && bool_decide (t_Status t = TimerFired))
    (ListTimers runID (rn_store r)).

(** ** The step of a node that asks for approval *)
Definition pendingResult (nodeID : string) (attempt : Z) (input : bytes) (started : Time) : nodeResult :=
  mkResult nodeID attempt started started input [] (Some (NErr ErrHumanApprovalPending)).

(** A new task: saved, the node execution waits, the timer of the task is scheduled.  The
    identifier drawn by the save is not in the task the rest of the handler uses. *)
Definition openHumanTask (ctx : Ctx) (now : Time) (runID workflowID : string) (node : NodeDef F)
    (h : HumanStepSpec) (attempt : Z) (input : bytes) (started : Time) r :
    Runner S F A * (option nodeResult + error) :=
  let expires := if 0 <? hs_TimeoutMS h then Some (Add started (hs_TimeoutMS h *₆₄ Millisecond)) else None in
  let task := mkTask "" runID workflowID (NodeID node) attempt (effectiveTenantFromContext ctx) (hs_Mode h)
                HumanTaskSourceNode HumanTaskPending (hs_Prompt h) input [] "" "" (hs_OnTimeout h)
                zeroTime zeroTime None expires None in
  match saveHumanTask now task r with
  | (r, Some err) => (r, inr err)
  | (r, None) =>
    match onStore (UpsertNodeExecution (mkNodeExec runID workflowID (NodeID node) attempt NodeStatusWaiting
                                          (Some started) None input [] "")) r with
    | (r, Some err) => (r, inr err)
    | (r, None) =>
      let r := emit now runID EventNodeStarted workflowID (NodeID node) attempt [] r in
      let r := emit now runID EventHumanTaskCreated workflowID (NodeID node) attempt (marshalOrNil task) r in
      let r := match expires with
               | None => r
               | Some at_ =>
                 let r := try (UpsertTimer (mkTimer runID workflowID (NodeID node) attempt TimerScheduled at_
                                              started None (humanTimeoutPrefix +:+ ht_ID task))) r in
                 emit now runID EventTimerScheduled workflowID (NodeID node) attempt [] r
               end in
      let r := appendAuditRecord ctx now
        (mkAudit "" zeroTime (ht_TenantID task) "" "human.request" "human_task" (ht_ID task) runID workflowID
           AuditOutcomeDenied "node requires human approval") r in
      (r, inl (Some (pendingResult (NodeID node) attempt input started)))
    end
  end.

(** A pending task whose time is over takes the outcome its timeout asks for. *)
Definition timeoutStatus (action : string) : string :=
  if decide (action = HumanTimeoutApprove) then HumanTaskApproved
  else if decide (action = HumanTimeoutCancel) then HumanTaskCanceled
  else HumanTaskTimedOut.
Definition taskTimedOut (now : Time) (runID nodeID : string) (attempt : Z) (t : HumanTask) r : bool :=
  bool_decide (ht_Status t = HumanTaskPending) &&
  (match ht_ExpiresAt t with Some e => negb (After e now) | None => false end ||
   humanTimeoutFired runID nodeID (if 0 <? ht_Attempt t then ht_Attempt t else attempt) r).
Definition expireTask (now : Time) (runID workflowID nodeID : string) (attempt : Z) (t : HumanTask) r :
    Runner S F A * (HumanTask + error) :=
  if taskTimedOut now runID nodeID attempt t r then
    let t := settleTask (timeoutStatus (ht_TimeoutAction t)) (ht_ReviewComment t) (ht_EditedInput t) now t in
    match saveHumanTask now t r with
    | (r, Some err) => (r, inr err)
    | (r, None) => (emit now runID EventHumanTaskResolved workflowID nodeID attempt (marshalOrNil t) r, inl t)
    end
  else (r, inl t).

Definition taskResult (now : Time) (nodeID : string) (attempt : Z) (input : bytes) (started : Time)
    (t : HumanTask) : option nodeResult + error :=
  let result out err := inl (Some (mkResult nodeID attempt started now input out err)) in
  if decide (ht_Status t = HumanTaskPending) then inl (Some (pendingResult nodeID attempt input started))
  else if decide (ht_Status t = HumanTaskApproved)
  then result (if decide (ht_EditedInput t = []) then input else ht_EditedInput t) None
  else if decide (ht_Status t = HumanTaskRejected \/ ht_Status t = HumanTaskTimedOut)
  then result [] (Some (NErr (ENew ("human step " +:+ ht_Status t))))
  else if decide (ht_Status t = HumanTaskCanceled) then result [] (Some (NErr ErrRunCanceled))
  else inr (ENew ("unexpected human task status " +:+ Quote (ht_Status t))).

(** [None]: the node asks for no approval. *)
Definition maybeHandleHumanNode (ctx : Ctx) (now : Time) (runID workflowID : string) (node : NodeDef F)
    (attempt : Z) (input : bytes) (started : Time) r : Runner S F A * (option nodeResult + error) :=
  match Human node with
  | None => (r, inl None)
  | Some h =>
    match findHumanTask runID (NodeID node) attempt HumanTaskSourceNode r with
    | inr err => (r, inr err)
    | inl None => openHumanTask ctx now runID workflowID node h attempt input started r
    | inl (Some t) =>
      match expireTask now runID workflowID (NodeID node) attempt t r with
      | (r, inr err) => (r, inr err)
      | (r, inl t) => (r, taskResult now (NodeID node) attempt input started t)
      end
    end
  end.

(** ** Resolving a task, up to the resumption of its run *)
Definition failRejectedRun (now : Time) (runID : string) r : Runner S F A :=
  match GetRun runID (rn_store r) with
  | None => r
  | Some run =>
    try (UpdateRun (mkRun (r_RunID run) (r_WorkflowID run) RunStatusFailed (r_StartedAt run) (Some now)
                      (r_Spec run) (r_InitialInput run) (r_TenantID run) "human_rejected"
                      (r_TerminalMeta run) (r_RunBudget run) (r_BudgetUsage run))) r
  end.

Definition ResolveHumanTask (ctx : Ctx) (now : Time) (taskID decision : string) (editedInput : bytes)
    (comment : string) r : Runner S F A * (HumanTask + error) :=
  match GetHumanTask taskID r with
  | None => (r, inr ErrHumanTaskNotFound)
  | Some (inr err) => (r, inr err)
  | Some (inl t) =>
    if decide (ht_Status t <> HumanTaskPending) then (r, inr ErrHumanTaskResolved)
    else
      match match GetRun (ht_RunID t) (rn_store r) with
            | Some run => ensureRunTenantAccess ctx now run "human.resolve" r
            | None => (r, None)
            end with
      | (r, Some err) => (r, inr err)
      | (r, None) =>
        let d := TrimSpace decision in
        if decide (d <> HumanDecisionApprove /\ d <> HumanDecisionReject)
        then (r, inr (ENew ("invalid human decision " +:+ Quote decision)))
        else
          let status := if decide (d = HumanDecisionApprove) then HumanTaskApproved else HumanTaskRejected in
          let t := settleTask status (TrimSpace comment) editedInput now t in
          match saveHumanTask now t r with
          | (r, Some err) => (r, inr err)
          | (r, None) =>
            let r := if decide (ht_NodeID t = "") then r
                     else cancelHumanTimers now (ht_RunID t) (ht_NodeID t) (ht_Attempt t) r in
            let r := appendAuditRecord ctx now
              (mkAudit "" zeroTime (ht_TenantID t) "" "human.resolve" "human_task" (ht_ID t) (ht_RunID t)
                 (ht_WorkflowID t)
                 (if decide (ht_Status t = HumanTaskApproved) then AuditOutcomeAllowed else AuditOutcomeDenied)
                 (ht_Status t)) r in
            let r := emit now (ht_RunID t) EventHumanTaskResolved (ht_WorkflowID t) (ht_NodeID t)
                       (ht_Attempt t) (marshalOrNil t) r in
            (if decide (ht_Source t = HumanTaskSourceRisk /\ ht_Status t = HumanTaskRejected)
             then failRejectedRun now (ht_RunID t) r else r, inl t)
          end
      end
  end.
End human.
