(* ===== verification/Admission.v ===== *)
(** * The risk gate of a run (the storing and enforcing part of internal/engine/risk.go, and
    stageRiskApproval of human.go)

    The report of Risk.v under the stored policy, lifted or sharpened by the human decision on
    an earlier escalation; the staging of a new escalation.  A report that is not allowed
    stands for the [RiskError] that carries it. *)
From S2P Require Import Prelude Storage Graph EngineStore Throttle Authz Risk Runtime Governance Human.

Definition riskPolicyKey : string := "risk/policy".
Definition ErrRiskBlocked : error := ESentinel "ErrRiskBlocked" "risk blocked".
Definition ErrRiskApprovalRequired : error :=
  ESentinel "ErrRiskApprovalRequired" "risk approval required".

(** [RiskError.Error] and [Unwrap]. *)
Definition riskError (rep : WorkflowRiskReport) : error :=
  let inner := if decide (wk_Action rep = RiskActionRequireApproval) then ErrRiskApprovalRequired
               else ErrRiskBlocked in
  EWrap (if decide (TrimSpace (wk_Reason rep) <> "") then wk_Reason rep else Error inner) inner.

Section admission.
Context {S F A : Type} `{Store S} `{Ambient} `{MapOrder} (decode : bytes -> option json).
Context `{JSON (list string)} `{JSON AuditRecord} `{JSON HumanTask} `{JSON RiskPolicy}.
Implicit Types (r : Runner S F A) (g : WorkflowGraph F).

(** ** The policy *)
Definition SaveRiskPolicy (now : Time) (p : RiskPolicy) r : Runner S F A * option error :=
  match normalizeRiskPolicy p with
  | inr err => (r, Some err)
  | inl p =>
    let p := mkRiskPolicy (rp_ID p) (rp_Description p) (Some (default now (rp_UpdatedAt p))) (Thresholds p) in
    match putJSONKV riskPolicyKey p r with
    | (r, Some err) => (r, Some err)
    | (r, None) => (set_rn_riskPolicy (Some p) r, None)
    end
  end.

(** The cached policy, else the stored one, normalised and cached; [None]: there is none. *)
Definition GetRiskPolicy r : Runner S F A * (option RiskPolicy + error) :=
  match rn_riskPolicy r with
  | Some p => (r, inl (Some p))
  | None =>
    match getJSONKV riskPolicyKey r with
    | None => (r, inl None)
    | Some (inr err) => (r, inr err)
    | Some (inl p) =>
      match normalizeRiskPolicy p with
      | inr err => (r, inr err)
      | inl p => (set_rn_riskPolicy (Some p) r, inl (Some p))
      end
    end
  end.

Definition EvaluateWorkflowRisk (ctx : Ctx) (runID : string) g (input : bytes) r :
    Runner S F A * (WorkflowRiskReport + error) :=
  match GetRiskPolicy r with
  | (r, inr err) => (r, inr err)
  | (r, inl p) =>
    match normalizeRiskPolicy (default defaultRiskPolicy p) with
    | inr err => (r, inr err)
    | inl p => (r, inl (evaluateRisk decode (Thresholds p) (cx_TenantID ctx)
                          (default noPrincipal (PrincipalFrom ctx)) runID g input))
    end
  end.

(** ** Enforcement *)
Definition setVerdict (allowed : bool) (action reason : string) (rep : WorkflowRiskReport) : WorkflowRiskReport :=
  mkRiskReport allowed action (wk_Score rep) reason (wk_RunID rep) (wk_TenantID rep) (wk_WorkflowID rep)
    (wk_Principal rep) (wk_Thresholds rep) (Findings rep).
(** The decision on an earlier escalation of the run. *)
Definition humanVerdict (task : option HumanTask) (rep : WorkflowRiskReport) : WorkflowRiskReport :=
  match task with
  | None => rep
  | Some t =>
    if decide (ht_Status t = HumanTaskApproved)
    then setVerdict true RiskActionAllow "manual risk approval granted" rep
    else if decide (ht_Status t = HumanTaskRejected \/ ht_Status t = HumanTaskTimedOut \/
                    ht_Status t = HumanTaskCanceled)
    then setVerdict false RiskActionBlock "manual risk approval rejected" rep
    else if decide (ht_Status t = HumanTaskPending)
    then setVerdict (wk_Allowed rep) (wk_Action rep) "waiting for manual risk approval" rep
    else rep
  end.

Definition evaluateAndEnforceRisk (ctx : Ctx) (now : Time) (runID : string) g (input : bytes) r :
    Runner S F A * (WorkflowRiskReport + error) :=
  match EvaluateWorkflowRisk ctx runID g input r with
  | (r, inr err) => (r, inr err)
  | (r, inl rep) =>
    let rep := if decide (wk_Action rep = RiskActionRequireApproval) then
                 match findHumanTask runID "" 0 HumanTaskSourceRisk r with
                 | inl task => humanVerdict task rep
                 | inr _ => rep
                 end
               else rep in
    let r := appendAuditRecord ctx now
      (mkAudit "" zeroTime (wk_TenantID rep) (p_ID (wk_Principal rep)) "risk.evaluate" "workflow"
         (wk_WorkflowID rep) (wk_RunID rep) (wk_WorkflowID rep)
         (if wk_Allowed rep then AuditOutcomeAllowed else AuditOutcomeDenied) (wk_Reason rep)) r in
    (r, inl rep)
  end.

(** ** Escalation: the run waits, a task asks for a decision.  Without a specification to
    resume from, the risk error is returned. *)
Definition stagedRun (now : Time) (runID : string) g (spec input : bytes) (rep : WorkflowRiskReport) r :
    Runner S F A * option error :=
  match GetRun runID (rn_store r) with
  | None =>
    match onStore (CreateRun (mkRun runID (TrimSpace (g_ID g)) RunStatusWaiting None None spec input
                                (wk_TenantID rep) "" [] noBudget noUsage)) r with
    | (r, Some err) => (r, Some err)
    | (r, None) => (emit now runID EventRunCreated (TrimSpace (g_ID g)) "" 0 [] r, None)
    end
  | Some run =>
    if decide (r_Status run = RunStatusWaiting) then (r, None)
    else onStore (UpdateRun (mkRun (r_RunID run) (r_WorkflowID run) RunStatusWaiting (r_StartedAt run)
                               (r_EndedAt run) spec input (r_TenantID run) (r_TerminalReason run)
                               (r_TerminalMeta run) (r_RunBudget run) (r_BudgetUsage run))) r
  end.

Definition stageRiskApproval (ctx : Ctx) (now : Time) (runID : string) g (spec input : bytes)
    (rep : WorkflowRiskReport) r : Runner S F A * (HumanTask + error) :=
  if decide (spec = []) then (r, inr (riskError rep))
  else
    match findHumanTask runID "" 0 HumanTaskSourceRisk r with
    | inl (Some t) => (r, inl t)
    | _ =>
      match stagedRun now runID g spec input rep r with
      | (r, Some err) => (r, inr err)
      | (r, None) =>
        let t := mkTask "" runID (TrimSpace (g_ID g)) "" 0 (wk_TenantID rep) HumanStepModeApproval
                   HumanTaskSourceRisk HumanTaskPending (wk_Reason rep) input [] "" "" "" zeroTime zeroTime
                   None None (Some rep) in
        match saveHumanTask now t r with
        | (r, Some err) => (r, inr err)
        | (r, None) =>
          let r := emit now runID EventHumanTaskCreated (g_ID g) "" 0 (marshalOrNil t) r in
          (appendAuditRecord ctx now
             (mkAudit "" zeroTime (ht_TenantID t) "" "human.request" "human_task" (ht_ID t) (ht_RunID t)
                (ht_WorkflowID t) AuditOutcomeDenied "risk escalation requires approval") r, inl t)
        end
      end
    end.
End admission.
