(* ===== verification/DagRun.v ===== *)
(** * Running a graph (internal/engine/runner_dag.go, runner_artifacts.go, replay_cache.go)

    [runDAGWithCache] is cut where other goroutines can act: the head of the loop, one round
    of the scheduling loop, one [select].  A configuration is the program point [PC], the
    local variables [Loop] and the shared [Runner]; [step] is the transition for an event,
    which carries what the scheduler and the clock choose.  A started node is a [flight]
    until its result is taken from the result channel; the outcome of its handler is part of
    the event, the result of a human step is fixed when it is sent. *)
From S2P Require Import Prelude Storage Graph EngineStore Throttle Authz Risk Runtime Governance.
From S2P Require Import Artifacts Human Admission.

Definition ErrNodeFailed : error := ESentinel "ErrNodeFailed" "node failed".
Definition ErrBudgetExceeded : error := ESentinel "ErrBudgetExceeded" "budget exceeded".
Definition ErrGraphInvalid : error := ESentinel "ErrGraphInvalid" "invalid workflow graph".

(** ** Payloads *)
Record ThrottledPayload : Type := mkThrottled {
  tp_Reason : string; tp_Scope : string; tp_TenantID : string; tp_Topic : string;
  tp_Limit : Z; tp_Inflight : Z; tp_RetryAfterMS : Z
}.
Record BudgetExceededPayload : Type := mkExceeded {
  be_Scope : string; be_Reason : string; be_Limit : json; be_Used : json
}.
Record NodeFinishedPayload : Type := mkFinished {
  nf_Output : bytes;
  nf_ArtifactRef : option string;
  nf_ArtifactMeta : option ArtifactMeta;
  nf_UsedCachedOutput : bool;
  nf_CachedAttempt : Z;
  nf_QueuedAt : option Time;
  nf_StartedAt : option Time;
  nf_EndedAt : option Time;
  nf_QueueMS : Z;
  nf_WorkerMS : Z
}.
Record replayCacheEntry : Type := mkCacheEntry { ce_Attempt : Z; ce_Output : bytes }.

(** The JSON encodings the engine uses; [formatFloat] and [formatRFC3339] are the number and
    time formats of the standard library. *)
Class EngineJSON : Type := {
  #[global] json_ids :: JSON (list string);
  #[global] json_audit :: JSON AuditRecord;
  #[global] json_task :: JSON HumanTask;
  #[global] json_bundle :: JSON AuthorizationPolicyBundle;
  #[global] json_risk :: JSON RiskPolicy;
  #[global] json_report :: JSON WorkflowRiskReport;
  #[global] json_throttled :: JSON ThrottledPayload;
  #[global] json_exceeded :: JSON BudgetExceededPayload;
  #[global] json_finished :: JSON NodeFinishedPayload;
  #[global] json_any :: JSON json;
  #[global] json_raws :: JSON (gmap string bytes);
  formatFloat : float64 -> string;
  formatRFC3339 : Time -> string
}.
Definition jint (z : Z) : json := JNumber (pretty z).

(** ** Local state *)
Record flight : Type := mkFlight {
  fl_node : string;
  fl_attempt : Z;
  fl_started : Time;
  fl_input : bytes;
  fl_sent : option nodeResult
}.
Record Loop : Type := mkLoop {
  l_run : Run;
  l_done : gmap string NodeExecution;
  l_outputs : gmap string bytes;
  l_maxAttempt : gmap string Z;
  l_attemptsUsed : Z;
  l_inDegree : gmap string Z;
  l_ready : list string;
  l_running : Z;
  l_flight : list flight;
  l_inflightKey : gmap string string;
  l_lastThrottle : gmap string Time;
  l_stopScheduling : bool;
  l_externalCanceled : bool;
  l_failed : bool;
  l_waiting : bool;
  l_budgetExceeded : bool
}.
Definition set_l_run x (l : Loop) : Loop :=
  mkLoop x (l_done l) (l_outputs l) (l_maxAttempt l) (l_attemptsUsed l) (l_inDegree l)
    (l_ready l) (l_running l) (l_flight l) (l_inflightKey l) (l_lastThrottle l)
    (l_stopScheduling l) (l_externalCanceled l) (l_failed l) (l_waiting l) (l_budgetExceeded
    l).
Definition set_l_done x (l : Loop) : Loop :=
  mkLoop (l_run l) x (l_outputs l) (l_maxAttempt l) (l_attemptsUsed l) (l_inDegree l)
    (l_ready l) (l_running l) (l_flight l) (l_inflightKey l) (l_lastThrottle l)
    (l_stopScheduling l) (l_externalCanceled l) (l_failed l) (l_waiting l) (l_budgetExceeded
    l).
Definition set_l_outputs x (l : Loop) : Loop :=
  mkLoop (l_run l) (l_done l) x (l_maxAttempt l) (l_attemptsUsed l) (l_inDegree l) (l_ready
    l) (l_running l) (l_flight l) (l_inflightKey l) (l_lastThrottle l) (l_stopScheduling l)
    (l_externalCanceled l) (l_failed l) (l_waiting l) (l_budgetExceeded l).
Definition set_l_maxAttempt x (l : Loop) : Loop :=
  mkLoop (l_run l) (l_done l) (l_outputs l) x (l_attemptsUsed l) (l_inDegree l) (l_ready l)
    (l_running l) (l_flight l) (l_inflightKey l) (l_lastThrottle l) (l_stopScheduling l)
    (l_externalCanceled l) (l_failed l) (l_waiting l) (l_budgetExceeded l).
Definition set_l_attemptsUsed x (l : Loop) : Loop :=
  mkLoop (l_run l) (l_done l) (l_outputs l) (l_maxAttempt l) x (l_inDegree l) (l_ready l)
    (l_running l) (l_flight l) (l_inflightKey l) (l_lastThrottle l) (l_stopScheduling l)
    (l_externalCanceled l) (l_failed l) (l_waiting l) (l_budgetExceeded l).
Definition set_l_inDegree x (l : Loop) : Loop :=
  mkLoop (l_run l) (l_done l) (l_outputs l) (l_maxAttempt l) (l_attemptsUsed l) x (l_ready
    l) (l_running l) (l_flight l) (l_inflightKey l) (l_lastThrottle l) (l_stopScheduling l)
    (l_externalCanceled l) (l_failed l) (l_waiting l) (l_budgetExceeded l).
Definition set_l_ready x (l : Loop) : Loop :=
  mkLoop (l_run l) (l_done l) (l_outputs l) (l_maxAttempt l) (l_attemptsUsed l) (l_inDegree
    l) x (l_running l) (l_flight l) (l_inflightKey l) (l_lastThrottle l) (l_stopScheduling
    l) (l_externalCanceled l) (l_failed l) (l_waiting l) (l_budgetExceeded l).
Definition set_l_running x (l : Loop) : Loop :=
  mkLoop (l_run l) (l_done l) (l_outputs l) (l_maxAttempt l) (l_attemptsUsed l) (l_inDegree
    l) (l_ready l) x (l_flight l) (l_inflightKey l) (l_lastThrottle l) (l_stopScheduling l)
    (l_externalCanceled l) (l_failed l) (l_waiting l) (l_budgetExceeded l).
Definition set_l_flight x (l : Loop) : Loop :=
  mkLoop (l_run l) (l_done l) (l_outputs l) (l_maxAttempt l) (l_attemptsUsed l) (l_inDegree
    l) (l_ready l) (l_running l) x (l_inflightKey l) (l_lastThrottle l) (l_stopScheduling l)
    (l_externalCanceled l) (l_failed l) (l_waiting l) (l_budgetExceeded l).
Definition set_l_inflightKey x (l : Loop) : Loop :=
  mkLoop (l_run l) (l_done l) (l_outputs l) (l_maxAttempt l) (l_attemptsUsed l) (l_inDegree
    l) (l_ready l) (l_running l) (l_flight l) x (l_lastThrottle l) (l_stopScheduling l)
    (l_externalCanceled l) (l_failed l) (l_waiting l) (l_budgetExceeded l).
Definition set_l_lastThrottle x (l : Loop) : Loop :=
  mkLoop (l_run l) (l_done l) (l_outputs l) (l_maxAttempt l) (l_attemptsUsed l) (l_inDegree
    l) (l_ready l) (l_running l) (l_flight l) (l_inflightKey l) x (l_stopScheduling l)
    (l_externalCanceled l) (l_failed l) (l_waiting l) (l_budgetExceeded l).
Definition set_l_stopScheduling x (l : Loop) : Loop :=
  mkLoop (l_run l) (l_done l) (l_outputs l) (l_maxAttempt l) (l_attemptsUsed l) (l_inDegree
    l) (l_ready l) (l_running l) (l_flight l) (l_inflightKey l) (l_lastThrottle l) x
    (l_externalCanceled l) (l_failed l) (l_waiting l) (l_budgetExceeded l).
Definition set_l_externalCanceled x (l : Loop) : Loop :=
  mkLoop (l_run l) (l_done l) (l_outputs l) (l_maxAttempt l) (l_attemptsUsed l) (l_inDegree
    l) (l_ready l) (l_running l) (l_flight l) (l_inflightKey l) (l_lastThrottle l)
    (l_stopScheduling l) x (l_failed l) (l_waiting l) (l_budgetExceeded l).
Definition set_l_failed x (l : Loop) : Loop :=
  mkLoop (l_run l) (l_done l) (l_outputs l) (l_maxAttempt l) (l_attemptsUsed l) (l_inDegree
    l) (l_ready l) (l_running l) (l_flight l) (l_inflightKey l) (l_lastThrottle l)
    (l_stopScheduling l) (l_externalCanceled l) x (l_waiting l) (l_budgetExceeded l).
Definition set_l_waiting x (l : Loop) : Loop :=
  mkLoop (l_run l) (l_done l) (l_outputs l) (l_maxAttempt l) (l_attemptsUsed l) (l_inDegree
    l) (l_ready l) (l_running l) (l_flight l) (l_inflightKey l) (l_lastThrottle l)
    (l_stopScheduling l) (l_externalCanceled l) (l_failed l) x (l_budgetExceeded l).
Definition set_l_budgetExceeded x (l : Loop) : Loop :=
  mkLoop (l_run l) (l_done l) (l_outputs l) (l_maxAttempt l) (l_attemptsUsed l) (l_inDegree
    l) (l_ready l) (l_running l) (l_flight l) (l_inflightKey l) (l_lastThrottle l)
    (l_stopScheduling l) (l_externalCanceled l) (l_failed l) (l_waiting l) x.

(** Fields of the run the loop changes. *)
Definition set_r_Status x (r : Run) : Run :=
  mkRun (r_RunID r) (r_WorkflowID r) x (r_StartedAt r) (r_EndedAt r) (r_Spec r) (r_InitialInput r)
    (r_TenantID r) (r_TerminalReason r) (r_TerminalMeta r) (r_RunBudget r) (r_BudgetUsage r).
Definition set_r_EndedAt x (r : Run) : Run :=
  mkRun (r_RunID r) (r_WorkflowID r) (r_Status r) (r_StartedAt r) x (r_Spec r) (r_InitialInput r)
    (r_TenantID r) (r_TerminalReason r) (r_TerminalMeta r) (r_RunBudget r) (r_BudgetUsage r).
Definition set_r_Terminal reason meta (r : Run) : Run :=
  mkRun (r_RunID r) (r_WorkflowID r) (r_Status r) (r_StartedAt r) (r_EndedAt r) (r_Spec r)
    (r_InitialInput r) (r_TenantID r) reason meta (r_RunBudget r) (r_BudgetUsage r).
Definition set_r_Usage x (r : Run) : Run :=
  mkRun (r_RunID r) (r_WorkflowID r) (r_Status r) (r_StartedAt r) (r_EndedAt r) (r_Spec r)
    (r_InitialInput r) (r_TenantID r) (r_TerminalReason r) (r_TerminalMeta r) (r_RunBudget r) x.

(** What the loop reads and never changes. *)
Record Config {F : Type} : Type := mkConfig {
  c_ctx : Ctx;
  c_runID : string;
  c_wfID : string;
  c_graph : WorkflowGraph F;
  c_input : bytes;
  c_cache : option (gmap string replayCacheEntry);
  c_tenantID : string;
  c_budget : BudgetPolicy;
  c_maxPar : Z;
  (** The cancellable context of the run and the one it derives from. *)
  c_runCtx : nat;
  c_parentCtx : nat
}.
Arguments Config : clear implicits.

Inductive PC : Type :=
| AtTop
| AtSched (skips maxSkips : Z)
| AtWait
| Returned (err : option error).

(** The instants are what [time.Now] returns in the step. *)
Inductive Event : Type :=
| EvGo (now : Time)
| EvTick
| EvDone
| EvAfter
| EvUsage (tokens : Z) (dollars : float64) (now : Time)
| EvResult (i : nat) (out : bytes) (err : option NodeError) (ended now : Time).

Section run.
Context {S F A : Type} `{Store S} `{ArtifactStore A} `{Ambient} `{MapOrder} `{EngineJSON}.
Implicit Types (r : Runner S F A) (l : Loop) (cfg : Config F) (g : WorkflowGraph F).

(** ** Reading the configuration *)
Definition nodeByID g : gmap string (NodeDef F) := foldl (fun m n => <[NodeID n := n]> m) ∅ (Nodes g).
Definition nodeIndex g : gmap string Z :=
  (foldl (fun '(m, i) n => (<[NodeID n := i]> m, i + 1)) (∅, 0) (Nodes g)).1.
Definition indexOfNode g (id : string) : Z := default 0 (nodeIndex g !! id).
Definition sortReady g (ready : list string) : list string :=
  sortSlice (fun a b => indexOfNode g a <? indexOfNode g b) ready.
Definition isCanceled (runID : string) r : bool :=
  match GetRun runID (rn_store r) with
  | Some cur => bool_decide (r_Status cur = RunStatusCanceled)
  | None => false
  end.
(** [runCtx.Done()] is closed. *)
Definition ctxDone cfg r : bool :=
  bool_decide (c_runCtx cfg ∈ rn_canceled r \/ c_parentCtx cfg ∈ rn_canceled r).
Definition runCancel cfg r : Runner S F A := cancelContext (c_runCtx cfg) r.
(** The deferred calls of a return. *)
Definition leave cfg r : Runner S F A := runCancel cfg (clearRunCancel (c_runID cfg) r).

Definition wallClock (now : Time) (run : Run) : Z :=
  match r_StartedAt run with Some t => Milliseconds (Sub now t) | None => bu_WallClock (r_BudgetUsage run) end.
Definition spend (now : Time) (attempts : Z) (run : Run) : Run :=
  set_r_Usage (mkUsage (bu_Tokens (r_BudgetUsage run)) (bu_Dollars (r_BudgetUsage run)) attempts
                 (wallClock now run)) run.
Definition saveRun (run : Run) r : Runner S F A := try (UpdateRun run) r.

(** ** Budgets *)
Definition BudgetScopeRun : string := "run".
Definition triggerBudgetExceeded cfg (now : Time) (reason limitKey usedKey : string) (limit used : json)
    (lr : Loop * Runner S F A) : Loop * Runner S F A :=
  let '(l, r) := lr in
  if l_budgetExceeded l then (l, r)
  else
    let meta := marshalOrNil (mkExceeded BudgetScopeRun reason (JObject [(limitKey, limit)])
                                (JObject [(usedKey, used)])) in
    let run := set_r_Terminal "budget_exceeded" meta
                 (spend now (l_attemptsUsed l)
                    (set_r_EndedAt (Some now) (set_r_Status RunStatusFailed (l_run l)))) in
    let r := saveRun run r in
    let r := emit now (c_runID cfg) EventBudgetExceeded (c_wfID cfg) "" 0 meta r in
    let r := emit now (c_runID cfg) EventRunFinished (c_wfID cfg) "" 0
               (marshalOrNil (JObject [("status", JString "failed");
                                       ("terminal_reason", JString "budget_exceeded")])) r in
    (set_l_stopScheduling true (set_l_budgetExceeded true (set_l_run run l)), runCancel cfg r).

(** ** Cap slots *)
Definition dropSlot (nodeID : string) (lr : Loop * Runner S F A) : Loop * Runner S F A :=
  let '(l, r) := lr in
  match l_inflightKey l !! nodeID with
  | None => (l, r)
  | Some key =>
    if decide (key = "") then (l, r)
    else (set_l_inflightKey (delete nodeID (l_inflightKey l)) l, set_rn_caps (releaseCap key (rn_caps r)) r)
  end.

(** [None]: no slot is free; the node goes to the end of the ready queue. *)
Definition throttleRetry : Duration := 25 * Millisecond.
Definition acquireSlot cfg (now : Time) (node : NodeDef F) (lr : Loop * Runner S F A) :
    Loop * Runner S F A * bool :=
  let '(l, r) := lr in
  if decide (c_cache cfg <> None \/ nd_Topic node = "") then (l, r, true)
  else
    let '(cap, scope, key) := concurrencyCapFor (c_tenantID cfg) (nd_Topic node) (rn_caps r) in
    if cap <=? 0 then (l, r, true)
    else
      match tryAcquireCap key cap (rn_caps r) with
      | (caps, (true, _)) =>
        (set_l_inflightKey (<[NodeID node := key]> (l_inflightKey l)) l, set_rn_caps caps r, true)
      | (_, (false, inflight)) =>
        let l := set_l_ready (l_ready l ++ [NodeID node]) l in
        let '(last, emitIt) := shouldEmitThrottle (l_lastThrottle l) key now (250 * Millisecond) in
        let l := set_l_lastThrottle last l in
        let r := if emitIt
                 then emit now (c_runID cfg) EventThrottled (c_wfID cfg) (NodeID node) 0
                        (marshalOrNil (mkThrottled "concurrency_cap" scope (c_tenantID cfg) (nd_Topic node)
                                         cap inflight (Milliseconds throttleRetry))) r
                 else r in
        (l, r, false)
      end.

(** ** Inputs and outputs *)
(** The initial input, or the outputs of the parents by their names. *)
Definition aggregate (deps : list string) (outputs : gmap string bytes) : gmap string bytes :=
  foldl (fun agg d => <[d := default [] (outputs !! d)]> agg) ∅ deps.
Definition nodeInput cfg l (nodeID : string) : bytes + error :=
  let deps := default [] (parentsOf (Edges (c_graph cfg)) !! nodeID) in
  if decide (deps = []) then inl (c_input cfg) else marshal (aggregate deps (l_outputs l)).

(** The children whose last undone parent this was become ready. *)
Fixpoint releaseUndone (done : gmap string NodeExecution) (children : list string) (deg : gmap string Z)
    (ready : list string) : gmap string Z * list string :=
  match children with
  | [] => (deg, ready)
  | c :: children =>
    if decide (is_Some (done !! c)) then releaseUndone done children deg ready
    else
      let d := default 0 (deg !! c) - 1 in
      releaseUndone done children (<[c := d]> deg) (if decide (d = 0) then ready ++ [c] else ready)
  end.
Definition completeNode cfg (nodeID : string) (output : bytes) l : Loop :=
  let l := set_l_outputs (<[nodeID := output]> (l_outputs l)) l in
  let '(deg, ready) := releaseUndone (l_done l) (default [] (childrenOf (Edges (c_graph cfg)) !! nodeID))
                         (l_inDegree l) (l_ready l) in
  set_l_ready (sortReady (c_graph cfg) ready) (set_l_inDegree deg l).

Definition nodeExec cfg (nodeID : string) (attempt : Z) (status : string) (started : Time)
    (ended : option Time) (input output : bytes) (err : string) : NodeExecution :=
  mkNodeExec (c_runID cfg) (c_wfID cfg) nodeID attempt status (Some started) ended input output err.

(** Small outputs are inlined in the event, others stored as artifacts. *)
Definition noFinished (out : bytes) (ref : option string) (meta : option ArtifactMeta) : NodeFinishedPayload :=
  mkFinished out ref meta false 0 None None None 0 0.
Definition buildNodeFinishedPayload cfg (nodeID : string) (attempt : Z) (out : bytes) r :
    Runner S F A * (bytes + error) :=
  let limit := if rn_inlineLimit r <? 0 then 0 else rn_inlineLimit r in
  if decide (out = []) then (r, marshal (noFinished out None None))
  else if (0 <? limit) && (zlen out <=? limit) then (r, marshal (noFinished out None None))
  else
    match PutArtifact out
            (mkArtifactMeta "" "" "application/json" 0 zeroTime (effectiveTenantFromContext (c_ctx cfg))
               (c_runID cfg) (c_wfID cfg) nodeID attempt {["kind" := "step_output"]} "" "") r with
    | (r, inr err) => (r, inr err)
    | (r, inl (ref, meta)) => (r, marshal (noFinished [] (Some ref) (Some meta)))
    end.

(** [InjectNodeFinishedProofFields]; the queue time is 0. *)
Definition InjectNodeFinishedProofFields (payload : bytes) (cached : option Z) (started ended : Time) :
    bytes + error :=
  match (if decide (payload = []) then inl (noFinished [] None None) else unmarshal payload) with
  | inr err => inr (EWrap ("unmarshal node finished payload: " +:+ Error err) err)
  | inl p =>
    match marshal (mkFinished (nf_Output p) (nf_ArtifactRef p) (nf_ArtifactMeta p)
                     (bool_decide (is_Some cached)) (default (nf_CachedAttempt p) cached) (Some started)
                     (Some started) (Some ended) 0 (Milliseconds (Sub ended started))) with
    | inr err => inr (EWrap ("marshal node finished payload: " +:+ Error err) err)
    | inl b => inl b
    end
  end.
Definition finishedPayload cfg (nodeID : string) (attempt : Z) (out : bytes) (cached : option Z)
    (started ended : Time) r : Runner S F A * (bytes + error) :=
  match buildNodeFinishedPayload cfg nodeID attempt out r with
  | (r, inr err) => (r, inr err)
  | (r, inl p) => (r, InjectNodeFinishedProofFields p cached started ended)
  end.

(** ** One round of the scheduling loop *)
Definition stepResult : Type := PC * Loop * Runner S F A.
Definition abort cfg (err : error) (lr : Loop * Runner S F A) : stepResult :=
  (Returned (Some err), lr.1, leave cfg lr.2).
Definition addFlight (f : flight) l : Loop :=
  set_l_flight (l_flight l ++ [f]) (set_l_running (l_running l + 1) l).

(** The replayed output stands for the execution. *)
Definition cacheHit cfg (now : Time) (maxSkips : Z) (nodeID : string) (attempt : Z) (input : bytes)
    (entry : replayCacheEntry) (lr : Loop * Runner S F A) : stepResult :=
  let '(l, r) := lr in
  let r := emit now (c_runID cfg) EventNodeStarted (c_wfID cfg) nodeID attempt [] r in
  let ne := nodeExec cfg nodeID attempt NodeStatusSucceeded now (Some now) input (ce_Output entry) "" in
  match onStore (UpsertNodeExecution ne) r with
  | (r, Some err) => abort cfg err (l, r)
  | (r, None) =>
    let l := set_l_done (<[nodeID := ne]> (l_done l)) l in
    match finishedPayload cfg nodeID attempt (ce_Output entry) (Some (ce_Attempt entry)) now now r with
    | (r, inr err) => abort cfg err (l, r)
    | (r, inl p) =>
      (AtSched 0 maxSkips, completeNode cfg nodeID (ce_Output entry) l,
       emit now (c_runID cfg) EventNodeFinished (c_wfID cfg) nodeID attempt p r)
    end
  end.

Definition launch cfg (now : Time) (maxSkips : Z) (nodeID : string) (attempt : Z) (input : bytes)
    (lr : Loop * Runner S F A) : stepResult :=
  let '(l, r) := lr in
  match onStore (UpsertNodeExecution (nodeExec cfg nodeID attempt NodeStatusRunning now None input [] "")) r with
  | (r, Some err) => abort cfg err (dropSlot nodeID (l, r))
  | (r, None) =>
    (AtSched 0 maxSkips, addFlight (mkFlight nodeID attempt now input None) l,
     emit now (c_runID cfg) EventNodeStarted (c_wfID cfg) nodeID attempt [] r)
  end.

Definition isPending (res : nodeResult) : bool :=
  match nr_err res with Some (NErr err) => unwrapsTo err ErrHumanApprovalPending | _ => false end.
(** The run waits for an approval or a timer. *)
Definition markWaiting (lr : Loop * Runner S F A) : Loop * Runner S F A :=
  let '(l, r) := lr in
  let run := set_r_EndedAt None (set_r_Status RunStatusWaiting (l_run l)) in
  (set_l_stopScheduling true (set_l_waiting true (set_l_run run l)), saveRun run r).

Definition startNode cfg (now : Time) (maxSkips : Z) (node : NodeDef F) (lr : Loop * Runner S F A) :
    stepResult :=
  let '(l, r) := lr in
  let used := l_attemptsUsed l + 1 in
  let run := spend now used (l_run l) in
  let l := set_l_run run (set_l_attemptsUsed used l) in
  let r := saveRun run r in
  match nodeInput cfg l (NodeID node) with
  | inr err => abort cfg err (dropSlot (NodeID node) (l, r))
  | inl input =>
    let prev := default 0 (l_maxAttempt l !! NodeID node) in
    let attempt := if 0 <? prev then prev + 1 else 1 in
    let l := set_l_maxAttempt (<[NodeID node := attempt]> (l_maxAttempt l)) l in
    match maybeHandleHumanNode (c_ctx cfg) now (c_runID cfg) (c_wfID cfg) node attempt input now r with
    | (r, inr err) => abort cfg err (dropSlot (NodeID node) (l, r))
    | (r, inl (Some res)) =>
      if isPending res
      then let '(l, r) := dropSlot (NodeID node) (markWaiting (l, r)) in (AtSched 0 maxSkips, l, r)
      else (AtSched 0 maxSkips, addFlight (mkFlight (NodeID node) attempt now input (Some res)) l, r)
    | (r, inl None) =>
      match c_cache cfg ≫= lookup (NodeID node) with
      | Some entry => cacheHit cfg now maxSkips (NodeID node) attempt input entry (l, r)
      | None => launch cfg now maxSkips (NodeID node) attempt input (l, r)
      end
    end
  end.

Definition schedStep cfg (now : Time) (skips maxSkips : Z) (lr : Loop * Runner S F A) : stepResult :=
  let '(l, r) := lr in
  if l_stopScheduling l || (c_maxPar cfg <=? l_running l) then (AtWait, l, r)
  else
    match l_ready l with
    | [] => (AtWait, l, r)
    | nodeID :: ready =>
      if maxSkips <=? skips then (AtWait, l, r)
      else
        let l := set_l_ready ready l in
        match nodeByID (c_graph cfg) !! nodeID with
        | None => abort cfg ErrGraphInvalid (l, r)
        | Some node =>
          let max := bp_MaxAttempts (c_budget cfg) in
          if negb (l_budgetExceeded l) && (0 <? max) && (max <? l_attemptsUsed l + 1) then
            let '(l, r) := triggerBudgetExceeded cfg now "max_attempts" "max_attempts" "attempts" (jint max)
                             (jint (l_attemptsUsed l)) (l, r) in
            (AtWait, l, r)
          else
            match acquireSlot cfg now node (l, r) with
            | (l, r, false) => (AtSched (skips + 1) maxSkips, l, r)
            | (l, r, true) => startNode cfg now maxSkips node (l, r)
            end
        end
    end.

(** ** The head of the loop, and the end of the run *)
Definition finish cfg (now : Time) (lr : Loop * Runner S F A) : stepResult :=
  let '(l, r) := lr in
  let return_ err l r := (Returned err, l, leave cfg r) in
  if l_failed l then return_ (Some ErrNodeFailed) l r
  else if l_externalCanceled l || isCanceled (c_runID cfg) r then return_ (Some ErrRunCanceled) l r
  else if l_waiting l || bool_decide (r_Status (l_run l) = RunStatusWaiting) then return_ None l r
  else if l_budgetExceeded l then return_ (Some ErrBudgetExceeded) l r
  else
    let run := set_r_Terminal "" [] (set_r_EndedAt (Some now) (set_r_Status RunStatusSucceeded (l_run l))) in
    let l := set_l_run run l in
    match onStore (UpdateRun run) r with
    | (r, Some err) => return_ (Some err) l r
    | (r, None) =>
      return_ None l (emit now (c_runID cfg) EventRunFinished "" "" 0
                        (marshalOrNil (JObject [("status", JString "succeeded")])) r)
    end.

Definition checkWallClock cfg (now : Time) (lr : Loop * Runner S F A) : Loop * Runner S F A :=
  let '(l, r) := lr in
  let limit := WallClockTimeoutMS (c_budget cfg) in
  match r_StartedAt (l_run l) with
  | Some t =>
    let used := Milliseconds (Sub now t) in
    if negb (l_budgetExceeded l) && (0 <? limit) && (limit <? used)
    then triggerBudgetExceeded cfg now "wall_clock_timeout" "wall_clock_timeout_ms" "wall_clock_ms"
           (jint limit) (jint used) (l, r)
    else (l, r)
  | None => (l, r)
  end.
Definition checkCanceled cfg (lr : Loop * Runner S F A) : Loop * Runner S F A :=
  let '(l, r) := lr in
  if negb (l_stopScheduling l) && isCanceled (c_runID cfg) r
  then (set_l_stopScheduling true (set_l_externalCanceled true l), runCancel cfg r)
  else (l, r).
Definition topStep cfg (now : Time) (lr : Loop * Runner S F A) : stepResult :=
  if decide (l_ready lr.1 = [] /\ l_running lr.1 <= 0) then finish cfg now lr
  else
    let '(l, r) := checkCanceled cfg (checkWallClock cfg now lr) in
    (AtSched 0 (zlen (l_ready l)), l, r).

(** ** The select *)
Fixpoint removeAt {X} (i : nat) (l : list X) : list X :=
  match l, i with [], _ => [] | _ :: l, 0%nat => l | x :: l, Datatypes.S i => x :: removeAt i l end.

Definition onDone cfg (lr : Loop * Runner S F A) : stepResult :=
  let '(l, r) := lr in
  let l := if isCanceled (c_runID cfg) r then set_l_externalCanceled true l else l in
  (AtTop, set_l_stopScheduling true l, runCancel cfg r).

(** Tokens and dollars a handler reports. *)
Definition onUsage cfg (tokens : Z) (dollars : float64) (now : Time) (lr : Loop * Runner S F A) : stepResult :=
  let '(l, r) := lr in
  if l_budgetExceeded l then (AtTop, l, r)
  else
    let u := r_BudgetUsage (l_run l) in
    let run := set_r_Usage
      (mkUsage (bu_Tokens u +₆₄ tokens) (if feqb dollars fzero then bu_Dollars u else fadd (bu_Dollars u) dollars)
         (bu_Attempts u) (wallClock now (l_run l))) (l_run l) in
    let l := set_l_run run l in
    let r := saveRun run r in
    let maxT := MaxTokens (c_budget cfg) in
    let maxD := MaxDollars (c_budget cfg) in
    let u := r_BudgetUsage run in
    let '(l, r) :=
      if (0 <? maxT) && (maxT <? bu_Tokens u)
      then triggerBudgetExceeded cfg now "tokens" "max_tokens" "tokens" (jint maxT) (jint (bu_Tokens u)) (l, r)
      else if fltb fzero maxD && fltb maxD (bu_Dollars u)
      then triggerBudgetExceeded cfg now "dollars" "max_dollars" "dollars" (JNumber (formatFloat maxD))
             (JNumber (formatFloat (bu_Dollars u))) (l, r)
      else (l, r) in
    (AtTop, l, r).

Definition resultExec cfg (res : nodeResult) (status : string) (ended : Time) (output : bytes) (err : string) :
    NodeExecution :=
  nodeExec cfg (nr_nodeID res) (nr_attempt res) status (nr_started res) (Some ended) (nr_input res) output err.
Definition saveNode (ne : NodeExecution) r : Runner S F A := try (UpsertNodeExecution ne) r.

Definition onDelay cfg (now : Time) (after : Duration) (reason : string) (res : nodeResult)
    (lr : Loop * Runner S F A) : stepResult :=
  let '(l, r) := lr in
  let fireAt := Add now after in
  let r := saveNode (resultExec cfg res NodeStatusWaiting now [] "") r in
  let r := try (UpsertTimer (mkTimer (c_runID cfg) (c_wfID cfg) (nr_nodeID res) (nr_attempt res)
                               TimerScheduled fireAt now None reason)) r in
  let r := emit now (c_runID cfg) EventTimerScheduled (c_wfID cfg) (nr_nodeID res) (nr_attempt res)
             (marshalOrNil (JObject [("fire_at", JString (formatRFC3339 fireAt)); ("reason", JString reason)])) r in
  let '(l, r) := markWaiting (l, r) in (AtTop, l, r).

Definition onFailure cfg (now : Time) (err : error) (res : nodeResult) (lr : Loop * Runner S F A) : stepResult :=
  let '(l, r) := lr in
  let id := nr_nodeID res in
  let text := JString (Error err) in
  let r := saveNode (resultExec cfg res NodeStatusFailed (nr_ended res) [] (Error err)) r in
  let r := emit now (c_runID cfg) EventNodeFailed (c_wfID cfg) id (nr_attempt res)
             (marshalOrNil (JObject [("error", text)])) r in
  let meta := match marshal (JObject [("attempt", jint (nr_attempt res)); ("error", text);
                                      ("failed_node", JString id)]) with
              | inl b => b | inr _ => r_TerminalMeta (l_run l) end in
  let run := set_r_Terminal "node_failed" meta
               (set_r_EndedAt (Some (nr_ended res)) (set_r_Status RunStatusFailed (l_run l))) in
  let r := saveRun run r in
  let r := emit now (c_runID cfg) EventRunFinished "" "" 0
             (marshalOrNil (JObject [("failed_node", JString id); ("status", JString "failed")])) r in
  (AtTop, set_l_stopScheduling true (set_l_failed true (set_l_run run l)), runCancel cfg r).

Definition onSuccess cfg (now : Time) (res : nodeResult) (lr : Loop * Runner S F A) : stepResult :=
  let '(l, r) := lr in
  let id := nr_nodeID res in
  let ne := resultExec cfg res NodeStatusSucceeded (nr_ended res) (nr_output res) "" in
  match onStore (UpsertNodeExecution ne) r with
  | (r, Some err) => abort cfg err (l, r)
  | (r, None) =>
    let l := set_l_done (<[id := ne]> (l_done l)) l in
    match finishedPayload cfg id (nr_attempt res) (nr_output res) None (nr_started res) (nr_ended res) r with
    | (r, inr err) => abort cfg err (l, r)
    | (r, inl p) =>
      (AtTop, completeNode cfg id (nr_output res) l,
       emit now (c_runID cfg) EventNodeFinished (c_wfID cfg) id (nr_attempt res) p r)
    end
  end.

Definition onResult cfg (now : Time) (res : nodeResult) (lr : Loop * Runner S F A) : stepResult :=
  let '(l, r) := dropSlot (nr_nodeID res) lr in
  if l_budgetExceeded l
  then (AtTop, l, saveNode (resultExec cfg res NodeStatusCanceled (nr_ended res) [] "budget_exceeded") r)
  else if l_externalCanceled l || isCanceled (c_runID cfg) r
  then (AtTop, set_l_stopScheduling true l,
        saveNode (resultExec cfg res NodeStatusCanceled (nr_ended res) [] "") r)
  else
    match nr_err res with
    | Some (NDelay after reason) => onDelay cfg now after reason res (l, r)
    | Some (NErr err) => onFailure cfg now err res (l, r)
    | None => onSuccess cfg now res (l, r)
    end.

Definition waitStep cfg (ev : Event) (lr : Loop * Runner S F A) : option stepResult :=
  let '(l, r) := lr in
  if l_running l =? 0 then
    if l_stopScheduling l then match ev with EvGo now => Some (finish cfg now (l, r)) | _ => None end
    else if decide (l_ready l = []) then match ev with EvGo _ => Some (AtTop, l, r) | _ => None end
    else match ev with
         | EvDone => if ctxDone cfg r then Some (onDone cfg (l, r)) else None
         | EvAfter => Some (AtTop, l, r)
         | _ => None
         end
  else
    match ev with
    | EvTick => Some (AtTop, l, r)
    | EvDone => if ctxDone cfg r then Some (onDone cfg (l, r)) else None
    | EvUsage tokens dollars now => Some (onUsage cfg tokens dollars now (l, r))
    | EvResult i out err ended now =>
      match l_flight l !! i with
      | None => None
      | Some f =>
        let res := default (mkResult (fl_node f) (fl_attempt f) (fl_started f) ended (fl_input f) out err)
                     (fl_sent f) in
        let l := set_l_running (l_running l - 1) (set_l_flight (removeAt i (l_flight l)) l) in
        Some (onResult cfg now res (l, r))
      end
    | _ => None
    end.

(** ** A step of the run *)
Definition step cfg (ev : Event) (st : stepResult) : option stepResult :=
  let '(pc, l, r) := st in
  match pc, ev with
  | AtTop, EvGo now => Some (topStep cfg now (l, r))
  | AtSched skips maxSkips, EvGo now => Some (schedStep cfg now skips maxSkips (l, r))
  | AtWait, _ => waitStep cfg ev (l, r)
  | _, _ => None
  end.

(** ** Before the loop *)
(** What earlier executions of the run left: succeeded nodes, their outputs, the attempts. *)
Definition recordNode (acc : gmap string NodeExecution * gmap string bytes * gmap string Z)
    (ne : NodeExecution) : gmap string NodeExecution * gmap string bytes * gmap string Z :=
  let '(done, outputs, maxAttempt) := acc in
  let maxAttempt := if default 0 (maxAttempt !! n_NodeID ne) <? n_Attempt ne
                    then <[n_NodeID ne := n_Attempt ne]> maxAttempt else maxAttempt in
  if decide (n_Status ne = NodeStatusSucceeded)
  then (<[n_NodeID ne := ne]> done,
        if decide (n_Output ne = []) then outputs else <[n_NodeID ne := n_Output ne]> outputs, maxAttempt)
  else (done, outputs, maxAttempt).
Definition priorNodes (nodes : list NodeExecution) :
    gmap string NodeExecution * gmap string bytes * gmap string Z := foldl recordNode (∅, ∅, ∅) nodes.

(** Dependencies on undone parents. *)
Definition pendingDegrees g (done : gmap string NodeExecution) : gmap string Z :=
  foldl (fun m e => if decide (is_Some (done !! From e)) then m else incDegree m (To e))
    (zeroDegrees (Nodes g)) (Edges g).
Definition initialReady g (done : gmap string NodeExecution) (deg : gmap string Z) : list string :=
  sortReady g (filter (fun id => deg !! id = Some 0 /\ done !! id = None) (order (dom deg))).

(** The new run, or the stored one when it may be resumed, and its workflow identifier. *)
Definition newRun (runID wfID tenantID : string) (spec input : bytes) : Run :=
  mkRun runID wfID RunStatusQueued None None spec input tenantID "" [] noBudget noUsage.
Definition createRun (ctx : Ctx) (now : Time) (runID wfID tenantID : string) (spec input : bytes)
    (rep : WorkflowRiskReport) r : Runner S F A * (Run + error) :=
  match enforceTenantRunQuota ctx now tenantID runID wfID r with
  | (r, Some err) => (r, inr err)
  | (r, None) =>
    let run := newRun runID wfID tenantID spec input in
    match onStore (CreateRun run) r with
    | (r, Some err) => (r, inr err)
    | (r, None) =>
      let r := emit now runID EventRunCreated "" "" 0 [] r in
      (match marshal rep with
       | inl p => emit now runID EventRiskAssessed wfID "" 0 p r
       | inr _ => r
       end, inl run)
    end
  end.
(** [inr None]: the run has already succeeded. *)
Definition resumeRun (ctx : Ctx) (now : Time) (run : Run) (wfID tenantID : string) r :
    Runner S F A * (Run + option error) :=
  match ensureRunTenantAccess ctx now run "run.resume" r with
  | (r, Some err) => (r, inr (Some err))
  | (r, None) =>
    if decide (r_Status run = RunStatusSucceeded) then (r, inr None)
    else if decide (r_Status run = RunStatusCanceled) then (r, inr (Some ErrRunCanceled))
    else (r, inl (mkRun (r_RunID run) (if decide (r_WorkflowID run = "") then wfID else r_WorkflowID run)
                    (r_Status run) (r_StartedAt run) (r_EndedAt run) (r_Spec run) (r_InitialInput run)
                    (if decide (r_TenantID run = "") then tenantID else r_TenantID run)
                    (r_TerminalReason run) (r_TerminalMeta run) (r_RunBudget run) (r_BudgetUsage run)))
  end.

(** The loop is entered with the run marked running, its effective budget recorded, its
    cancel function registered. *)
Definition enterLoop (ctx : Ctx) (parent : nat) (now : Time) (g : WorkflowGraph F) (input : bytes)
    (cache : option (gmap string replayCacheEntry)) (run : Run) (prev : list NodeExecution)
    (requestedTenant : string) r : (Config F * stepResult) + (Runner S F A * option error) :=
  let runID := r_RunID run in
  let '(done, outputs, maxAttempt) := priorNodes prev in
  let r := rememberGraph (r_WorkflowID run) g r in
  let deg := pendingDegrees g done in
  let started := default now (r_StartedAt run) in
  let run' := mkRun runID (r_WorkflowID run) RunStatusRunning (Some started)
                (if decide (r_Status run = RunStatusRunning) then r_EndedAt run else None) (r_Spec run)
                (r_InitialInput run) (r_TenantID run) (r_TerminalReason run) (r_TerminalMeta run)
                (r_RunBudget run) (r_BudgetUsage run) in
  if isCanceled runID r then inr (r, Some ErrRunCanceled)
  else
    match onStore (UpdateRun run') r with
    | (r, Some err) => inr (r, Some err)
    | (r, None) =>
      let r := match r_StartedAt run with
               | None => emit now runID EventRunStarted "" "" 0 [] r
               | Some _ => r
               end in
      let tenantID := if decide (r_TenantID run' = "") then requestedTenant else r_TenantID run' in
      let budget := effectiveBudget (rn_defaultRunBudget r) (getTenantBudget tenantID r) (r_RunBudget run') in
      let attempts := zlen prev in
      let run' := spend now attempts
        (mkRun runID (r_WorkflowID run') RunStatusRunning (Some started) (r_EndedAt run') (r_Spec run')
           (r_InitialInput run') tenantID (r_TerminalReason run') (r_TerminalMeta run') budget
           (r_BudgetUsage run')) in
      let r := saveRun run' r in
      let '(c, r) := newContext r in
      let r := setRunCancel runID c r in
      let cfg := mkConfig _ (WithTenantID tenantID ctx) runID (r_WorkflowID run) g input cache tenantID budget
                   (MaxParallelism r) c parent in
      inl (cfg, (AtTop, mkLoop run' done outputs maxAttempt attempts deg (initialReady g done deg) 0 [] ∅ ∅
                          false false false false false, r))
    end.

(** The start of [runDAGWithCache]: validation, authorization, the risk gate, the run. *)
Definition beginRun (decode : bytes -> option json) (ctx : Ctx) (parent : nat) (now : Time) (runID : string)
    (g : WorkflowGraph F) (input spec : bytes) (cache : option (gmap string replayCacheEntry)) r :
    (Config F * stepResult) + (Runner S F A * option error) :=
  match Validate g with
  | Some err => inr (r, Some err)
  | None =>
    match authorizeWorkflow ctx now runID g r with
    | (r, inr err) => inr (r, Some err)
    | (r, inl _) =>
      match evaluateAndEnforceRisk decode ctx now runID g input r with
      | (r, inr err) => inr (r, Some err)
      | (r, inl rep) =>
        if negb (wk_Allowed rep) then
          if decide (wk_Action rep = RiskActionRequireApproval) then
            match stageRiskApproval ctx now runID g spec input rep r with
            | (r, inr err) => inr (r, Some err)
            | (r, inl t) =>
              inr (r, Some (EWrap (if decide (TrimSpace (ht_NodeID t) = "") then Error ErrHumanApprovalPending
                                   else "human approval pending for node " +:+ ht_NodeID t)
                              ErrHumanApprovalPending))
            end
          else inr (r, Some (riskError rep))
        else
          let tenant := effectiveTenantFromContext ctx in
          let wfID := if decide (g_ID g = "") then "graph_" +:+ runID else g_ID g in
          match GetRun runID (rn_store r) with
          | Some run =>
            match resumeRun ctx now run wfID tenant r with
            | (r, inr err) => inr (r, err)
            | (r, inl run) =>
              enterLoop ctx parent now g input cache run (ListNodeExecutions runID (rn_store r)) tenant r
            end
          | None =>
            match createRun ctx now runID wfID tenant spec input rep r with
            | (r, inr err) => inr (r, Some err)
            | (r, inl run) => enterLoop ctx parent now g input cache run [] tenant r
            end
          end
      end
    end
  end.

(** [buildReplayCacheFromRun]: the latest succeeded attempt of each node that has an output. *)
Definition cacheNode (cache : gmap string replayCacheEntry) (ne : NodeExecution) : gmap string replayCacheEntry :=
  if decide (n_Status ne <> NodeStatusSucceeded) then cache
  else if decide (n_Output ne = []) then cache
  else match cache !! n_NodeID ne with
       | Some cur => if ce_Attempt cur <? n_Attempt ne
                     then <[n_NodeID ne := mkCacheEntry (n_Attempt ne) (n_Output ne)]> cache else cache
       | None => <[n_NodeID ne := mkCacheEntry (n_Attempt ne) (n_Output ne)]> cache
       end.
Definition buildReplayCacheFromRun (srcRunID : string) r : gmap string replayCacheEntry :=
  foldl cacheNode ∅ (ListNodeExecutions srcRunID (rn_store r)).
End run.
