(* ===== verification/Routing.v ===== *)
(** * The route of a tool call (internal/engine/tool_gateway.go, brain.go,
    rate_limiter_events.go)

    The routes of a policy that the tenant, the budget and the rate limiter admit; the choice
    among them, by the fixed orders or by the scores of the brain. *)
From S2P Require Import Prelude Storage Graph EngineStore Throttle Authz Risk Tools Runtime Governance.
From S2P Require Import CallContext Gateway Human Admission DagRun.
From Stdlib Require Import Floats.SpecFloat.

Definition fmul (x y : float64) : float64 := SFmul 53 1024 x y.
Definition fdiv (x y : float64) : float64 := SFdiv 53 1024 x y.
Definition fsub (x y : float64) : float64 := SFsub 53 1024 x y.
(** A decimal constant of the source: the quotient is correctly rounded. *)
Definition decimal (n d : Z) : float64 := fdiv (ofInt n) (ofInt d).

Definition brainPolicyKey : string := "brain/policy".

(** ** Data (brain.go) *)
Record BrainRouteMetrics : Type := mkMetrics {
  bm_Samples : Z; bm_Successes : Z; bm_SuccessRate : float64; bm_AvgLatencyMS : Z
}.
Record BrainSignals : Type := mkSignals {
  bs_Uncertainty : float64; bs_Attempt : Z; bs_RiskScore : Z; bs_RiskAction : string; bs_Triggers : list string
}.
Record BrainRouteScore : Type := mkScore {
  sc_Route : AdaptiveRoute;
  sc_Global : BrainRouteMetrics;
  sc_Workflow : BrainRouteMetrics;
  sc_SuccessScore : float64;
  sc_WorkflowScore : float64;
  sc_LatencyScore : float64;
  sc_CostScore : float64;
  sc_PriorityScore : float64;
  sc_EscalationScore : float64;
  sc_FinalScore : float64;
  sc_Reasons : list string
}.
Record BrainDecision : Type := mkDecision {
  bd_Tool : string;
  bd_Selected : AdaptiveRoute;
  bd_SelectedScore : float64;
  bd_Policy : BrainPolicy;
  bd_Signals : BrainSignals;
  bd_Candidates : list BrainRouteScore;
  bd_Summary : list string
}.
Record brainRouteAggregate : Type := mkAggregate { ag_samples : Z; ag_successes : Z; ag_totalLatency : Z }.
Definition noAggregate : brainRouteAggregate := mkAggregate 0 0 0.

(** ** The policy *)
Definition defaultBrainPolicy : BrainPolicy :=
  mkBrainPolicy false 250 3 (decimal 75 100) 1200
    (mkWeights (decimal 45 100) (decimal 20 100) (decimal 10 100) (decimal 10 100) (decimal 5 100) (decimal 10 100)).
Definition orElse (x d : float64) : float64 := if feqb x fzero then d else x.
Definition normalizeBrainPolicy (p : BrainPolicy) : BrainPolicy :=
  let d := defaultBrainPolicy in
  let pos x y := if x <=? 0 then y else x in
  let w := Weights p in let dw := Weights d in
  mkBrainPolicy (bp_Enabled p) (pos (LookbackRecords p) (LookbackRecords d)) (pos (MinSamples p) (MinSamples d))
    (orElse (clampUnit (DefaultSuccessRate p)) (DefaultSuccessRate d))
    (pos (DefaultLatencyMS p) (DefaultLatencyMS d))
    (mkWeights (orElse (bw_SuccessRate w) (bw_SuccessRate dw))
       (orElse (bw_WorkflowAffinity w) (bw_WorkflowAffinity dw)) (orElse (bw_Latency w) (bw_Latency dw))
       (orElse (bw_Cost w) (bw_Cost dw)) (orElse (bw_Priority w) (bw_Priority dw))
       (orElse (bw_Escalation w) (bw_Escalation dw))).

(** ** Scores *)
Definition routeHistoryKey (r : AdaptiveRoute) : string :=
  if decide (TrimSpace (rt_ID r) <> "") then TrimSpace (rt_ID r)
  else TrimSpace (rt_Provider r) +:+ "|" +:+ TrimSpace (rt_Model r).
Definition recordHistoryKey (c : ToolCallRecord) : string :=
  if decide (TrimSpace (tc_RouteID c) <> "") then TrimSpace (tc_RouteID c)
  else if decide (TrimSpace (tc_Provider c) = "" /\ TrimSpace (tc_Model c) = "") then ""
  else TrimSpace (tc_Provider c) +:+ "|" +:+ TrimSpace (tc_Model c).
Definition metrics (p : BrainPolicy) (a : brainRouteAggregate) : BrainRouteMetrics :=
  if 0 <? ag_samples a then
    mkMetrics (ag_samples a) (ag_successes a) (fdiv (ofInt (ag_successes a)) (ofInt (ag_samples a)))
      (if 0 <? ag_totalLatency a then Z.quot (ag_totalLatency a) (ag_samples a) else DefaultLatencyMS p)
  else mkMetrics (ag_samples a) (ag_successes a) (DefaultSuccessRate p) (DefaultLatencyMS p).
Definition scoreNormalizedAscending (value minValue maxValue : float64) : float64 :=
  if fleb maxValue minValue then fone
  else fsub fone (clampUnit (fdiv (fsub value minValue) (fsub maxValue minValue))).
Definition candidateCostValue (r : AdaptiveRoute) : float64 :=
  if fltb fzero (EstimatedDollars r) then EstimatedDollars r
  else if 0 <? EstimatedTokens r then fdiv (ofInt (EstimatedTokens r)) (ofInt 1000)
  else fzero.
Definition candidatePriorityValue (r : AdaptiveRoute) : float64 := ofInt (rt_Priority r).

(** One more record of a route. *)
Definition countRecord (c : ToolCallRecord) (a : brainRouteAggregate) : brainRouteAggregate :=
  mkAggregate (ag_samples a + 1)
    (if tc_Allowed c && bool_decide (TrimSpace (tc_Error c) = "") then ag_successes a + 1 else ag_successes a)
    (if 0 <? tc_DurationMS c then ag_totalLatency a +₆₄ tc_DurationMS c else ag_totalLatency a).
Definition bump (key : string) (c : ToolCallRecord) (m : gmap string brainRouteAggregate) :
    gmap string brainRouteAggregate :=
  <[key := countRecord c (default noAggregate (m !! key))]> m.
Definition aggregateRecord (workflowID : string)
    (gw : gmap string brainRouteAggregate * gmap string brainRouteAggregate) (c : ToolCallRecord) :
    gmap string brainRouteAggregate * gmap string brainRouteAggregate :=
  let key := recordHistoryKey c in
  if decide (key = "") then gw
  else (bump key c gw.1,
        if decide (workflowID <> "" /\ TrimSpace (tc_WorkflowID c) = workflowID) then bump key c gw.2 else gw.2).

(** The least and greatest of a list, by the comparisons of the loop. *)
Definition least (l : list float64) : float64 :=
  match l with [] => fzero | x :: l => foldl (fun m v => if fltb v m then v else m) x l end.
Definition greatest (l : list float64) : float64 :=
  match l with [] => fzero | x :: l => foldl (fun m v => if fltb m v then v else m) x l end.

Section scores.
Context (formatFixed : nat -> float64 -> string).
Definition scoreRoute (p : BrainPolicy) (global workflow : gmap string brainRouteAggregate)
    (triggers : list string) (routes : list AdaptiveRoute) (r : AdaptiveRoute) : BrainRouteScore :=
  let agg m x := default noAggregate (m !! routeHistoryKey x) in
  let latency x := ofInt (bm_AvgLatencyMS (metrics p (agg global x))) in
  let latencies := latency <$> routes in
  let costs := candidateCostValue <$> routes in
  let priorities := candidatePriorityValue <$> routes in
  let gm := metrics p (agg global r) in
  let wm := metrics p (agg workflow r) in
  let enough := MinSamples p <=? ag_samples (agg workflow r) in
  let success := fmul (bm_SuccessRate gm) (bw_SuccessRate (Weights p)) in
  let affinity := if enough then fmul (bm_SuccessRate wm) (bw_WorkflowAffinity (Weights p)) else fzero in
  let lat := fmul (scoreNormalizedAscending (latency r) (least latencies) (greatest latencies)) (bw_Latency (Weights p)) in
  let cost := fmul (scoreNormalizedAscending (candidateCostValue r) (least costs) (greatest costs)) (bw_Cost (Weights p)) in
  let mirrored := fadd (least priorities) (fsub (greatest priorities) (candidatePriorityValue r)) in
  let rank := scoreNormalizedAscending mirrored (least priorities) (greatest priorities) in
  let prio := fmul rank (bw_Priority (Weights p)) in
  let esc := fmul (fmul rank (bw_Escalation (Weights p))) (ofInt (zlen triggers)) in
  mkScore r gm wm success affinity lat cost prio esc
    (fadd (fadd (fadd (fadd (fadd success affinity) lat) cost) prio) esc)
    (["historical success " +:+ formatFixed 2%nat (bm_SuccessRate gm) +:+ " across " +:+ pretty (bm_Samples gm) +:+ " samples";
      "average latency " +:+ pretty (bm_AvgLatencyMS gm) +:+ "ms"] ++
     (if enough then ["workflow-specific success " +:+ formatFixed 2%nat (bm_SuccessRate wm) +:+ " across " +:+
                      pretty (bm_Samples wm) +:+ " samples"] else []) ++
     (if decide (triggers <> []) then ["escalation triggers: " +:+ Join triggers ", "] else [])).
Definition score_less (a b : BrainRouteScore) : bool :=
  if negb (feqb (sc_FinalScore a) (sc_FinalScore b)) then fltb (sc_FinalScore b) (sc_FinalScore a)
  else if negb (feqb (EstimatedDollars (sc_Route a)) (EstimatedDollars (sc_Route b)))
  then fltb (EstimatedDollars (sc_Route a)) (EstimatedDollars (sc_Route b))
  else string_lt (rt_ID (sc_Route a)) (rt_ID (sc_Route b)).
Definition decideRoute (tool : string) (p : BrainPolicy) (signals : BrainSignals)
    (global workflow : gmap string brainRouteAggregate) (triggers : list string)
    (routes : list AdaptiveRoute) : BrainDecision :=
  let scores := sortSlice score_less (scoreRoute p global workflow triggers routes <$> routes) in
  match scores with
  | [] => mkDecision (TrimSpace tool) noRoute fzero p signals [] []
  | best :: _ =>
    mkDecision (TrimSpace tool) (sc_Route best) (sc_FinalScore best) p signals scores
      ["brain selected route " +:+ TrimSpace (rt_ID (sc_Route best));
       "top score " +:+ formatFixed 3%nat (sc_FinalScore best)]
  end.
End scores.

(** ** The fixed orders *)
Definition byThen (x y : float64) (rest : bool) : bool := if negb (feqb x y) then fltb x y else rest.
Definition byThenZ (x y : Z) (rest : bool) : bool := if negb (x =? y) then x <? y else rest.
Definition route_less (escalate cheapFirst : bool) (a b : AdaptiveRoute) : bool :=
  let byID := string_lt (rt_ID a) (rt_ID b) in
  let dollars := byThen (EstimatedDollars a) (EstimatedDollars b) in
  let tokens := byThenZ (EstimatedTokens a) (EstimatedTokens b) in
  if escalate then byThenZ (rt_Priority b) (rt_Priority a) (dollars (tokens byID))
  else if cheapFirst then dollars (tokens (byThenZ (rt_Priority a) (rt_Priority b) byID))
  else byThenZ (rt_Priority b) (rt_Priority a) (dollars byID).
Definition legacyAdaptiveRouteSelection (p : ToolPolicy) (candidates : list AdaptiveRoute)
    (triggers : list string) : AdaptiveRoute :=
  match AdaptiveRouting p with
  | None => noRoute
  | Some adaptive =>
    default noRoute (head (sortSlice (route_less (bool_decide (triggers <> [])) (CheapFirst adaptive)) candidates))
  end.

Section routing.
Context {S F A : Type} `{Store S} `{Ambient} `{MapOrder} `{EngineJSON} `{ToolJSON}.
Implicit Types r : Runner S F A.

(** ** The stored policy of the brain *)
Definition SaveBrainPolicy (p : BrainPolicy) r : Runner S F A * option error :=
  let p := normalizeBrainPolicy p in
  match putJSONKV brainPolicyKey p r with
  | (r, Some err) => (r, Some err)
  | (r, None) => (set_rn_brainPolicy (Some p) r, None)
  end.
Definition GetBrainPolicy r : Runner S F A * (option BrainPolicy + error) :=
  match rn_brainPolicy r with
  | Some p => (r, inl (Some p))
  | None =>
    match getJSONKV brainPolicyKey r with
    | None => (r, inl None)
    | Some (inr err) => (r, inr err)
    | Some (inl p) => let p := normalizeBrainPolicy p in (set_rn_brainPolicy (Some p) r, inl (Some p))
    end
  end.

(** ** The rate limiter of a node: refusals are reported as events *)
Definition wrapRateLimiter (inner : option (nat -> RateLimitRequest -> RateLimitDecision + error))
    (runID wfID nodeID : string) (attempt : Z) (topic : string) : option Limiter :=
  (fun answers => mkLimiter answers runID wfID nodeID attempt topic) <$> inner.
Definition throttledReason (q : RateLimitRequest) (d : RateLimitDecision) : string :=
  if decide (lr_Provider q <> "" \/ lr_Kind q <> "" \/ ld_Reason d <> "")
  then "provider_rate_limit:" +:+ lr_Kind q +:+ ":" +:+ lr_Provider q +:+ ":" +:+ ld_Reason d
  else "provider_rate_limit".
Definition decideLimit (l : Limiter) (now : Time) (n : nat) (q : RateLimitRequest) r :
    Runner S F A * (RateLimitDecision + error) :=
  match lm_answers l n q with
  | inr err => (r, inr err)
  | inl d =>
    (if ld_Allowed d then r
     else emit now (lm_RunID l) EventThrottled (lm_WorkflowID l) (lm_NodeID l) (lm_Attempt l)
            (marshalOrNil (mkThrottled (throttledReason q d) ThrottleScopeTenantTopic (lr_TenantID q) (lm_Topic l)
                             0 0 (Milliseconds (ld_RetryAfter d)))) r, inl d)
  end.

(** ** The candidates *)
Definition isNoBudget (p : BudgetPolicy) : bool :=
  (MaxTokens p =? 0) && feqb (MaxDollars p) fzero && (WallClockTimeoutMS p =? 0) && (bp_MaxAttempts p =? 0).
Definition runBudgetAndUsage (ctx : CallCtx) (runID : string) r : BudgetPolicy * BudgetUsage :=
  if decide (runID = "") then (noBudget, noUsage)
  else match GetRun runID (rn_store r) with
       | None => (noBudget, noUsage)
       | Some run =>
         (if isNoBudget (r_RunBudget run)
          then effectiveBudget (rn_defaultRunBudget r) (getTenantBudget (effectiveTenantFromContext ctx) r) (r_RunBudget run)
          else r_RunBudget run, r_BudgetUsage run)
       end.
Definition routeTriggers (a : AdaptiveRoutingPolicy) (ctx : CallCtx) (attempt : Z) (uncertainty : float64) :
    list string :=
  (if EscalateOnUncertainty a && fleb (UncertaintyThreshold a) uncertainty then ["uncertainty"] else []) ++
  (if EscalateOnFailure a && (FailureAttemptThreshold a <=? attempt) then ["failure"] else []) ++
  (match RiskDecisionFrom ctx with
   | Some d => if EscalateOnRisk a &&
                  ((RiskScoreThreshold a <=? rd_Score d) || bool_decide (rd_Action d = RiskActionSandbox) ||
                   bool_decide (rd_Action d = RiskActionRequireApproval)) then ["risk"] else []
   | None => []
   end).
Definition withinBudget (b : BudgetPolicy) (u : BudgetUsage) (x : AdaptiveRoute) : bool :=
  negb ((0 <? MaxTokens b) && (0 <? EstimatedTokens x) && (MaxTokens b <? bu_Tokens u +₆₄ EstimatedTokens x)) &&
  negb (fltb fzero (MaxDollars b) && fltb fzero (EstimatedDollars x) &&
        fltb (MaxDollars b) (fadd (bu_Dollars u) (EstimatedDollars x))).
Definition limitRequest (tenantID : string) (x : AdaptiveRoute) : RateLimitRequest :=
  mkLimitRequest tenantID (rt_Provider x) RateLimitTool (EstimatedTokens x) (EstimatedDollars x).
(** [n] counts the calls of the limiter. *)
Fixpoint admittedRoutes (ctx : CallCtx) (now : Time) (b : BudgetPolicy) (u : BudgetUsage) (n : nat)
    (routes : list AdaptiveRoute) r : Runner S F A * (list AdaptiveRoute + error) :=
  let tenantID := effectiveTenantFromContext ctx in
  match routes with
  | [] => (r, inl [])
  | x :: routes =>
    if outOfScope (rt_TenantScopes x) tenantID then admittedRoutes ctx now b u n routes r
    else if negb (withinBudget b u x) then admittedRoutes ctx now b u n routes r
    else match RateLimiterFrom ctx with
         | None => let! (r, xs) := admittedRoutes ctx now b u n routes r in (r, inl (x :: xs))
         | Some l =>
           let! (r, d) := decideLimit l now n (limitRequest tenantID x) r in
           let! (r, xs) := admittedRoutes ctx now b u (Datatypes.S n) routes r in
           (r, inl (if ld_Allowed d then x :: xs else xs))
         end
  end.
(** Without routes there is nothing to choose. *)
Definition adaptiveRouteCandidates (ctx : CallCtx) (now : Time) (inv : toolInvocation F) (p : ToolPolicy)
    (input : bytes) r : Runner S F A * ((list AdaptiveRoute * list string) + error) :=
  match AdaptiveRouting p with
  | None => (r, inl ([], []))
  | Some a =>
    if decide (Routes a = []) then (r, inl ([], []))
    else
      let '(b, u) := runBudgetAndUsage ctx (iv_RunID inv) r in
      let triggers := routeTriggers a ctx (iv_Attempt inv) (routingHintsFromInput unmarshal parseFloat input) in
      let! (r, candidates) := admittedRoutes ctx now b u 0 (Routes a) r in
      if decide (candidates = []) then (r, inr ErrBudgetExceeded) else (r, inl (candidates, triggers))
  end.

(** ** The brain *)
Definition brainRouteAggregates (ctx : CallCtx) (tool workflowID : string) (lookback : Z) r :
    gmap string brainRouteAggregate * gmap string brainRouteAggregate + error :=
  match ListToolCallRecords ctx "" tool lookback r with
  | inr err => inr err
  | inl records => inl (foldl (aggregateRecord (TrimSpace workflowID)) (∅, ∅) records)
  end.
Definition buildBrainSignals (ctx : CallCtx) (attempt : Z) (uncertainty : float64) (triggers : list string) :
    BrainSignals :=
  match RiskDecisionFrom ctx with
  | Some d => mkSignals uncertainty attempt (rd_Score d) (rd_Action d) triggers
  | None => mkSignals uncertainty attempt 0 "" triggers
  end.
(** [None]: the brain is not used. *)
Definition evaluateBrainDecision (ctx : CallCtx) (inv : toolInvocation F) (candidates : list AdaptiveRoute)
    (input : bytes) (triggers : list string) r : Runner S F A * (option BrainDecision + error) :=
  let! (r, p) := GetBrainPolicy r in
  let p := default defaultBrainPolicy p in
  if negb (bp_Enabled p) || bool_decide (candidates = []) then (r, inl None)
  else
    match brainRouteAggregates ctx (iv_Tool inv) (iv_WorkflowID inv) (LookbackRecords p) r with
    | inr err => (r, inr err)
    | inl (global, workflow) =>
      let hints := routingHintsFromInput unmarshal parseFloat input in
      (r, inl (Some (decideRoute formatFixed (iv_Tool inv) p (buildBrainSignals ctx (iv_Attempt inv) hints triggers)
                       global workflow triggers candidates)))
    end.

Definition selectAdaptiveRoute (ctx : CallCtx) (now : Time) (inv : toolInvocation F) (p : ToolPolicy)
    (input : bytes) r : Runner S F A * (AdaptiveRoute + error) :=
  let! (r, ct) := adaptiveRouteCandidates ctx now inv p input r in
  let '(candidates, triggers) := ct in
  if decide (candidates = []) then (r, inl noRoute)
  else
    let! (r, d) := evaluateBrainDecision ctx inv candidates input triggers r in
    (r, inl (match d with
             | Some d => bd_Selected d
             | None => legacyAdaptiveRouteSelection p candidates triggers
             end)).

(** ** Explaining a choice *)
Record BrainRouteRequest : Type := mkRouteRequest {
  br_RunID : string; br_WorkflowID : string; br_NodeID : string; br_Attempt : Z; br_Tool : string;
  br_RequiredCapability : string; br_Input : bytes
}.
Definition explainAccess (ctx : CallCtx) (now : Time) (runID : string) r :
    Runner S F A * (option Run + error) :=
  if decide (runID = "") then (r, inl None)
  else match GetRun runID (rn_store r) with
       | None => (r, inl None)
       | Some run =>
         match ensureRunTenantAccess ctx now run "brain.route_explain" r with
         | (r, Some err) => (r, inr err)
         | (r, None) => (r, inl (Some run))
         end
       end.
Definition ExplainBrainRoute (ctx : CallCtx) (now : Time) (q : BrainRouteRequest) r :
    Runner S F A * (BrainDecision + error) :=
  let tool := TrimSpace (br_Tool q) in
  let runID := TrimSpace (br_RunID q) in
  let wfID := TrimSpace (br_WorkflowID q) in
  if decide (tool = "") then (r, inr (ENew "tool is required"))
  else
    let! (r, run) := explainAccess ctx now runID r in
    let wfID := if decide (wfID = "") then from_option r_WorkflowID wfID run else wfID in
    let! (r, p) := resolveToolPolicy ctx now tool r in
    if decide (from_option Routes [] (AdaptiveRouting p) = [])
    then (r, inr (ENew ("tool " +:+ Quote tool +:+ " has no adaptive routes")))
    else
      let inv := mkInvocation runID wfID (TrimSpace (br_NodeID q)) (if br_Attempt q <=? 0 then 1 else br_Attempt q)
                   tool (TrimSpace (br_RequiredCapability q)) [] [] None in
      let! (r, ct) := adaptiveRouteCandidates ctx now inv p (br_Input q) r in
      let '(candidates, triggers) := ct in
      let! (r, d) := evaluateBrainDecision ctx inv candidates (br_Input q) triggers r in
      match d with
      | Some d => (r, inl d)
      | None =>
        (r, inl (mkDecision tool (legacyAdaptiveRouteSelection p candidates triggers) fzero defaultBrainPolicy
                   (mkSignals fzero 0 0 "" []) [] ["brain disabled; using legacy adaptive route selection"]))
      end.
End routing.
