(* ===== verification/AgentMemory.v ===== *)
(** * Agent memory (internal/engine/agent_memory.go)

    An agent remembers notes, states, artifacts and runs as texts with a hashed embedding.
    Entries are key-value pairs under an index per tenant and agent; they are listed newest
    first and searched by the similarity of their embedding with that of a query.  Vectors are
    lists of [float64]; sums are rounded after every operation (a compiler that fuses
    multiplications and additions, as on arm64, may round less).  A write is cut between its
    look-up of the index and its last put, where another write may take place.  The tracing
    spans are left out. *)
From S2P Require Import Prelude Storage Graph EngineStore Throttle Authz Risk Tools Runtime Governance Artifacts.
From S2P Require Import CallContext AgentState Routing.
From Stdlib Require Import Ascii Floats.SpecFloat.

Definition ErrAgentMemoryAccessDenied : error := ESentinel "ErrAgentMemoryAccessDenied" "agent memory access denied".
Definition ErrAgentMemoryReplayWriteDenied : error :=
  ESentinel "ErrAgentMemoryReplayWriteDenied" "agent memory writes are blocked during replay".
Definition ErrAgentMemoryUnsupportedSource : error :=
  ESentinel "ErrAgentMemoryUnsupportedSource" "agent memory source is unsupported".
Definition agentMemoryVectorDims : Z := 128.

Definition AgentMemorySourceNote : string := "note".
Definition AgentMemorySourceRun : string := "run".
Definition AgentMemorySourceArtifact : string := "artifact".
Definition AgentMemorySourceState : string := "state".

Record AgentMemoryEntry : Type := mkMemory {
  mo_ID : string;
  mo_TenantID : string;
  mo_AgentID : string;
  mo_SourceKind : string;
  mo_Content : string;
  mo_Vector : list float64;
  mo_CreatedAt : Time;
  mo_TraceID : string;
  mo_PrincipalID : string;
  mo_RunID : string;
  mo_WorkflowID : string;
  mo_NodeID : string;
  mo_Attempt : Z;
  mo_ArtifactID : string;
  mo_StateVersion : Z;
  mo_Labels : gmap string string
}.
Record AgentMemoryWriteRequest : Type := mkMemoryWrite {
  mq_AgentID : string;
  mq_SourceKind : string;
  mq_Content : string;
  mq_RunID : string;
  mq_ArtifactID : string;
  mq_StateVersion : Z;
  mq_Labels : gmap string string
}.
Record AgentMemorySearchRequest : Type := mkMemorySearch {
  ms_AgentID : string;
  ms_Query : string;
  ms_Limit : Z;
  ms_MinScore : float64;
  ms_CreatedBefore : Time
}.
Record AgentMemorySearchResult : Type := mkMemoryResult { mr_Score : float64; mr_Entry : AgentMemoryEntry }.

(** ** Embeddings *)
Definition tokenChar (a : ascii) : bool :=
  let n := nat_of_ascii a in
  ((97 <=? n) && (n <=? 122) || (48 <=? n) && (n <=? 57) || (n =? 95))%nat.
(** [strings.FieldsFunc] for a separator that every byte outside of ASCII is: the maximal runs of
    other bytes, [cur] being the one in progress. *)
Fixpoint fieldsFrom (cur : list ascii) (l : list ascii) : list string :=
  match l with
  | [] => if decide (cur = []) then [] else [unchars cur]
  | a :: l => if tokenChar a then fieldsFrom (cur ++ [a]) l
              else if decide (cur = []) then fieldsFrom [] l else unchars cur :: fieldsFrom [] l
  end.
Definition semanticTokens (text : string) : list string :=
  filter (fun token => (2 <=? zlen (chars token)) = true) (TrimSpace <$> fieldsFrom [] (chars (ToLower text))).

(** [hash/fnv], 64 bits, variant 1a. *)
Definition fnv64a (b : bytes) : Z :=
  foldl (fun h c => (Z.lxor h (Z.of_N (Byte.to_N c)) * 1099511628211) mod 2 ^ 64) 14695981039346656037 b.

Definition fsqrt (x : float64) : float64 := SFsqrt 53 1024 x.
Definition normalizeVector (vector : list float64) : list float64 :=
  let sumSquares := foldl (fun sum value => fadd sum (fmul value value)) fzero vector in
  if feqb sumSquares fzero then vector
  else let norm := fsqrt sumSquares in (fun value => fdiv value norm) <$> vector.
Definition countToken (dims : Z) (vector : list float64) (token : string) : list float64 :=
  let sum := fnv64a (fromString token) in
  let sign := if Z.testbit sum 63 then SFopp fone else fone in
  alter (fun value => fadd value sign) (Z.to_nat (sum mod dims)) vector.
Definition Embed (dims : Z) (text : string) : list float64 :=
  let vector := replicate (Z.to_nat dims) fzero in
  let tokens := semanticTokens text in
  if decide (tokens = []) then vector
  else normalizeVector (foldl (countToken dims) vector tokens).
(** [newHashedTextEmbedder]: an embedder is its number of dimensions. *)
Definition newHashedTextEmbedder (dims : Z) : Z := if dims <? 16 then agentMemoryVectorDims else dims.
Definition memoryEmbedder : Z := newHashedTextEmbedder agentMemoryVectorDims.

Definition cosineSimilarity (a b : list float64) : float64 :=
  if decide (a = [] \/ b = []) then fzero
  else
    let '(a, b) := if zlen b <? zlen a then (b, a) else (a, b) in
    foldl (fun dot xy => fadd dot (fmul xy.1 xy.2)) fzero (zip a b).

(** ** Names and keys *)
Definition agentMemoryKeyPart (v : string) : string := PathEscape (TrimSpace v).
Definition agentMemoryIndexKey (tenantID agentID : string) : string :=
  "agent_memory/index/" +:+ agentMemoryKeyPart tenantID +:+ "/" +:+ agentMemoryKeyPart agentID.
Definition agentMemoryEntryKey (tenantID agentID memoryID : string) : string :=
  "agent_memory/entries/" +:+ agentMemoryKeyPart tenantID +:+ "/" +:+ agentMemoryKeyPart agentID +:+ "/" +:+
  agentMemoryKeyPart memoryID.
(** [^[a-zA-Z0-9._:-]+$] *)
Definition memoryIDChar (a : ascii) : bool :=
  let n := nat_of_ascii a in
  ((97 <=? n) && (n <=? 122) || (65 <=? n) && (n <=? 90) || (48 <=? n) && (n <=? 57) ||
   (n =? 46) || (n =? 95) || (n =? 58) || (n =? 45))%nat.
Definition agentMemoryIDRe (s : string) : bool := negb (bool_decide (s = "")) && forallb memoryIDChar (chars s).
Definition normalizeMemoryID (memoryID : string) : string + error :=
  let memoryID := TrimSpace memoryID in
  if decide (memoryID = "") then inr (wrapf ErrAgentMemoryAccessDenied "memory id is required")
  else if negb (agentMemoryIDRe memoryID)
  then inr (wrapf ErrAgentMemoryAccessDenied
              ("memory id " +:+ Quote memoryID +:+ " must match ^[a-zA-Z0-9._:-]+$"))
  else inl memoryID.

Definition normalizeAgentMemorySource (source : string) : string + error :=
  let source := TrimSpace source in
  let source := if decide (source = "") then AgentMemorySourceNote else source in
  if decide (source ∈ [AgentMemorySourceNote; AgentMemorySourceRun; AgentMemorySourceArtifact; AgentMemorySourceState])
  then inl source
  else inr (wrapf ErrAgentMemoryUnsupportedSource (Quote source)).

Section labels.
Context `{MapOrder}.
(** The labels are visited in the order of the map: of two keys that are the same without their
    surrounding space the one visited last stays. *)
Definition trimLabels (labels : gmap string string) : gmap string string :=
  foldl (fun out k =>
           let v := default "" (labels !! k) in
           if decide (TrimSpace k = "" \/ TrimSpace v = "") then out else <[TrimSpace k := TrimSpace v]> out)
    ∅ (order (dom labels)).
Definition normalizeAgentMemoryLabels (labels : gmap string string) : gmap string string :=
  if decide (labels = ∅) then ∅ else trimLabels labels.
Definition cloneAgentMemoryEntry (e : AgentMemoryEntry) : AgentMemoryEntry :=
  mkMemory (TrimSpace (mo_ID e)) (TrimSpace (mo_TenantID e)) (TrimSpace (mo_AgentID e)) (TrimSpace (mo_SourceKind e))
    (TrimSpace (mo_Content e)) (mo_Vector e) (mo_CreatedAt e) (TrimSpace (mo_TraceID e)) (TrimSpace (mo_PrincipalID e))
    (TrimSpace (mo_RunID e)) (TrimSpace (mo_WorkflowID e)) (TrimSpace (mo_NodeID e)) (mo_Attempt e)
    (TrimSpace (mo_ArtifactID e)) (mo_StateVersion e) (if decide (mo_Labels e = ∅) then ∅ else trimLabels (mo_Labels e)).
End labels.

(** ** Texts *)
(** [mime.ParseMediaType], of which the code uses the type; the encoding of entries. *)
Class MemoryJSON : Type := {
  #[global] json_memory :: JSON AgentMemoryEntry;
  ParseMediaType : string -> string + error
}.
Definition textTypes : list string :=
  ["application/json"; "application/ld+json"; "application/xml"; "application/x-yaml"; "application/yaml";
   "application/javascript"; "application/x-javascript"].
Definition semanticArtifactText `{MemoryJSON} (data : bytes) (contentType : string) : option string :=
  let contentType := TrimSpace contentType in
  if decide (contentType = "") then Some (TrimSpace (toString data))
  else
    let mediaType := match ParseMediaType contentType with inl t => t | inr _ => contentType end in
    let mediaType := ToLower (TrimSpace mediaType) in
    if HasPrefix mediaType "text/" || bool_decide (mediaType ∈ textTypes) then Some (TrimSpace (toString data))
    else None.

Definition nodeLine (node : NodeExecution) : string :=
  "node " +:+ TrimSpace (n_NodeID node) +:+ " attempt " +:+ pretty (n_Attempt node) +:+ " status " +:+ TrimSpace (n_Status node) +:+
  (let errText := TrimSpace (n_Error node) in if decide (errText = "") then "" else " error " +:+ errText) +:+
  (if decide (n_Output node = []) then "" else " output " +:+ TrimSpace (toString (n_Output node))).
Definition execution_less (a b : NodeExecution) : bool :=
  if bool_decide (n_NodeID a = n_NodeID b) then n_Attempt a <? n_Attempt b else string_lt (n_NodeID a) (n_NodeID b).
Definition buildRunSemanticText (run : Run) (nodes : list NodeExecution) : string :=
  String.concat (String (ascii_of_nat 10) "")
    (["run_id: " +:+ TrimSpace (r_RunID run); "workflow_id: " +:+ TrimSpace (r_WorkflowID run);
      "status: " +:+ TrimSpace (r_Status run)] ++
     (let reason := TrimSpace (r_TerminalReason run) in if decide (reason = "") then [] else ["terminal_reason: " +:+ reason]) ++
     (if decide (r_InitialInput run = []) then [] else ["initial_input: " +:+ TrimSpace (toString (r_InitialInput run))]) ++
     (nodeLine <$> sortSlice execution_less nodes)).

Section agentMemory.
Context {S F A : Type} `{Store S} `{ArtifactStore A} `{Ambient} `{MapOrder}.
Context `{JSON (list string)} `{JSON AuditRecord} `{JSONSyntax} `{AgentJSON} `{MemoryJSON}.
Implicit Types r : Runner S F A.

(** [None]: there is no such entry. *)
Definition getAgentMemoryEntry (tenantID agentID memoryID : string) r : option AgentMemoryEntry + error :=
  match getJSONKV (agentMemoryEntryKey tenantID agentID memoryID) r with
  | None => inl None
  | Some (inr err) => inr err
  | Some (inl e) => inl (Some (cloneAgentMemoryEntry e))
  end.
Definition latestReplayReadableMemoryBoundary (ctx : CallCtx) (now : Time) : option Time :=
  rs_StartedAt <$> ReplayScopeFrom now ctx.
Definition ensureAgentMemoryAccess (ctx : CallCtx) (now : Time) (tenantID agentID action : string) r :
    Runner S F A * option error :=
  match ensureAgentStateAccess ctx now tenantID agentID action r with
  | (r, Some err) =>
    (r, Some (if unwrapsTo err ErrAgentStateAccessDenied then wrapf ErrAgentMemoryAccessDenied (Error err) else err))
  | (r, None) => (r, None)
  end.

(** ** Writing *)
Definition unsupported (msg : string) : error := wrapf ErrAgentMemoryUnsupportedSource msg.
(** What an entry says of its origin: run, workflow, node, attempt, artifact, version, content. *)
Definition withOrigin (runID workflowID nodeID : string) (attempt : Z) (artifactID : string) (version : Z)
    (content : string) (e : AgentMemoryEntry) : AgentMemoryEntry :=
  mkMemory (mo_ID e) (mo_TenantID e) (mo_AgentID e) (mo_SourceKind e) content (mo_Vector e) (mo_CreatedAt e)
    (mo_TraceID e) (mo_PrincipalID e) runID workflowID nodeID attempt artifactID version (mo_Labels e).
Definition firstText (content default : string) : string := if decide (content = "") then default else content.

Definition resolveAgentMemoryContent (ctx : CallCtx) (now : Time) (tenantID : string) (q : AgentMemoryWriteRequest) r :
    Runner S F A * (AgentMemoryEntry + error) :=
  match normalizeAgentMemorySource (mq_SourceKind q) with
  | inr err => (r, inr err)
  | inl sourceKind =>
    let content := TrimSpace (mq_Content q) in
    let entry := mkMemory "" tenantID (mq_AgentID q) sourceKind content [] zeroTime "" "" "" "" "" 0 "" 0
                   (normalizeAgentMemoryLabels (mq_Labels q)) in
    let '(r, res) :=
      if decide (sourceKind = AgentMemorySourceNote) then
        (r, if decide (content = "") then inr (unsupported "content is required for note memory") else inl entry)
      else if decide (sourceKind = AgentMemorySourceState) then
        match ReadAgentState ctx now (mq_AgentID q) (mkReadOptions (mq_StateVersion q)) r with
        | (r, inr err) => (r, inr err)
        | (r, inl s) =>
          (r, inl (withOrigin (as_RunID s) (as_WorkflowID s) (as_NodeID s) (as_Attempt s) "" (as_Version s)
                     (firstText content (toString (as_State s))) entry))
        end
      else if decide (sourceKind = AgentMemorySourceArtifact) then
        let artifactID := TrimSpace (mq_ArtifactID q) in
        if decide (artifactID = "") then (r, inr (unsupported "artifact_id is required"))
        else
          match GetArtifact ctx now artifactID r with
          | (r, inr err) => (r, inr err)
          | (r, inl (data, meta)) =>
            let from := withOrigin (am_RunID meta) (am_WorkflowID meta) (am_NodeID meta) (am_Attempt meta)
                          (am_ArtifactID meta) 0 in
            (r, if decide (content <> "") then inl (from content entry)
                else match semanticArtifactText data (am_ContentType meta) with
                     | Some text => inl (from text entry)
                     | None => inr (unsupported ("artifact " +:+ artifactID +:+ " content type " +:+
                                                  Quote (am_ContentType meta) +:+ " is not text-like"))
                     end)
          end
      else
        let runID := TrimSpace (mq_RunID q) in
        if decide (runID = "") then (r, inr (unsupported "run_id is required"))
        else
          match GetRun runID (rn_store r) with
          | None => (r, inr ErrRunNotFound)
          | Some run =>
            match ensureRunTenantAccess ctx now run "agent_memory.write" r with
            | (r, Some err) => (r, inr err)
            | (r, None) =>
              (r, inl (withOrigin (r_RunID run) (r_WorkflowID run) "" 0 "" 0
                         (firstText content (buildRunSemanticText run (ListNodeExecutions runID (rn_store r)))) entry))
            end
          end
    in
    match res with
    | inr err => (r, inr err)
    | inl entry =>
      let entry := withOrigin (mo_RunID entry) (mo_WorkflowID entry) (mo_NodeID entry) (mo_Attempt entry)
                     (mo_ArtifactID entry) (mo_StateVersion entry) (TrimSpace (mo_Content entry)) entry in
      (r, if decide (mo_Content entry = "") then inr (unsupported "resolved content is empty") else inl entry)
    end
  end.

(** An entry with its identifier, its writer and its embedding. *)
Definition stampEntry (ctx : CallCtx) (now : Time) (id : string) (e : AgentMemoryEntry) : AgentMemoryEntry :=
  let x := default (mkExecRef "" "" "" 0) (ExecutionRefFrom ctx) in
  mkMemory id (mo_TenantID e) (mo_AgentID e) (mo_SourceKind e) (mo_Content e) (Embed memoryEmbedder (mo_Content e)) now
    (TraceIDFrom ctx) (default "" ((fun p => TrimSpace (p_ID p)) <$> PrincipalFrom ctx))
    (firstText (mo_RunID e) (xr_RunID x)) (firstText (mo_WorkflowID e) (xr_WorkflowID x)) (firstText (mo_NodeID e) (xr_NodeID x))
    (if mo_Attempt e =? 0 then xr_Attempt x else mo_Attempt e) (mo_ArtifactID e) (mo_StateVersion e) (mo_Labels e).
(** The write up to the put of the entry and the look-up of the index, whose identifiers it
    returns; the rest of the write. *)
Definition beginMemory (ctx : CallCtx) (now : Time) (q : AgentMemoryWriteRequest) r :
    Runner S F A * ((AgentMemoryEntry * list string) + error) :=
  let tenantID := effectiveTenantFromContext ctx in
  match normalizeAgentStateID (mq_AgentID q) with
  | inr err => (r, inr (wrapf ErrAgentMemoryAccessDenied (Error err)))
  | inl agentID =>
    let q := mkMemoryWrite agentID (mq_SourceKind q) (mq_Content q) (mq_RunID q) (mq_ArtifactID q)
               (mq_StateVersion q) (mq_Labels q) in
    if decide (TrimSpace tenantID = "") then (r, inr ErrTenantAccessDenied)
    else
      match ensureAgentMemoryAccess ctx now tenantID agentID "agent_memory.write" r with
      | (r, Some err) => (r, inr err)
      | (r, None) =>
        match ReplayScopeFrom now ctx with
        | Some _ => (r, inr ErrAgentMemoryReplayWriteDenied)
        | None =>
          match resolveAgentMemoryContent ctx now tenantID q r with
          | (r, inr err) => (r, inr err)
          | (r, inl entry) =>
            let '(t, r) := NewTraceID r in
            let id := "memory-" +:+ formatTime now +:+ "-" +:+ t in
            match normalizeMemoryID id with
            | inr err => (r, inr err)
            | inl _ =>
              let entry := stampEntry ctx now id entry in
              match putJSONKV (agentMemoryEntryKey tenantID agentID id) entry r with
              | (r, Some err) => (r, inr err)
              | (r, None) =>
                match indexIDs (agentMemoryIndexKey tenantID agentID) r with
                | inr err => (r, inr err)
                | inl ids => (r, inl (entry, ids))
                end
              end
            end
          end
        end
      end
  end.
Definition endMemory (entry : AgentMemoryEntry) (ids : list string) r : Runner S F A * (AgentMemoryEntry + error) :=
  match putJSONKV (agentMemoryIndexKey (mo_TenantID entry) (mo_AgentID entry)) (ids ++ [mo_ID entry]) r with
  | (r, Some err) => (r, inr err)
  | (r, None) => (r, inl (cloneAgentMemoryEntry entry))
  end.
Definition WriteAgentMemory (ctx : CallCtx) (now : Time) (q : AgentMemoryWriteRequest) r :
    Runner S F A * (AgentMemoryEntry + error) :=
  match beginMemory ctx now q r with
  | (r, inr err) => (r, inr err)
  | (r, inl (entry, ids)) => endMemory entry ids r
  end.

(** ** Listing *)
(** From the last identifier to the first; an entry that is missing or cannot be decoded is
    passed over. *)
Fixpoint listFrom (tenantID agentID : string) (boundary : option Time) (limit : Z) (ids : list string)
    (out : list AgentMemoryEntry) r : list AgentMemoryEntry :=
  match ids with
  | [] => out
  | id :: ids =>
    match getAgentMemoryEntry tenantID agentID id r with
    | inr _ | inl None => listFrom tenantID agentID boundary limit ids out r
    | inl (Some e) =>
      if match boundary with Some b => After (mo_CreatedAt e) b | None => false end
      then listFrom tenantID agentID boundary limit ids out r
      else
        let out := out ++ [e] in
        if limit <=? zlen out then out else listFrom tenantID agentID boundary limit ids out r
    end
  end.
Definition ListAgentMemory (ctx : CallCtx) (now : Time) (agentID : string) (limit : Z) r :
    Runner S F A * (list AgentMemoryEntry + error) :=
  let tenantID := effectiveTenantFromContext ctx in
  match normalizeAgentStateID agentID with
  | inr err => (r, inr (wrapf ErrAgentMemoryAccessDenied (Error err)))
  | inl agentID =>
    if decide (TrimSpace tenantID = "") then (r, inr ErrTenantAccessDenied)
    else
      match ensureAgentMemoryAccess ctx now tenantID agentID "agent_memory.list" r with
      | (r, Some err) => (r, inr err)
      | (r, None) =>
        let limit := if limit <=? 0 then 50 else limit in
        let limit := if 200 <? limit then 200 else limit in
        match indexIDs (agentMemoryIndexKey tenantID agentID) r with
        | inr err => (r, inr err)
        | inl ids =>
          (r, inl (listFrom tenantID agentID (latestReplayReadableMemoryBoundary ctx now) limit (reverse ids) [] r))
        end
      end
  end.

(** ** Searching *)
Definition result_less (a b : AgentMemorySearchResult) : bool :=
  if feqb (mr_Score a) (mr_Score b) then After (mo_CreatedAt (mr_Entry a)) (mo_CreatedAt (mr_Entry b))
  else fltb (mr_Score b) (mr_Score a).
Definition scoreEntry (queryVector : list float64) (minScore : float64) (createdBefore : Time) (e : AgentMemoryEntry) :
    option AgentMemorySearchResult :=
  if negb (IsZero createdBefore) && After (mo_CreatedAt e) createdBefore then None
  else
    let score := cosineSimilarity queryVector (mo_Vector e) in
    if fltb score minScore then None else Some (mkMemoryResult score e).
Fixpoint searchFrom (tenantID agentID : string) (queryVector : list float64) (minScore : float64) (createdBefore : Time)
    (ids : list string) r : list AgentMemorySearchResult :=
  match ids with
  | [] => []
  | id :: ids =>
    let rest := searchFrom tenantID agentID queryVector minScore createdBefore ids r in
    match getAgentMemoryEntry tenantID agentID id r with
    | inr _ | inl None => rest
    | inl (Some e) =>
      match scoreEntry queryVector minScore createdBefore e with
      | None => rest
      | Some x => x :: rest
      end
    end
  end.
(** Results with the same score and instant are left in the order they were found in, which
    [sort.Slice] does not promise. *)
Definition SearchAgentMemory (ctx : CallCtx) (now : Time) (q : AgentMemorySearchRequest) r :
    Runner S F A * (list AgentMemorySearchResult + error) :=
  let tenantID := effectiveTenantFromContext ctx in
  match normalizeAgentStateID (ms_AgentID q) with
  | inr err => (r, inr (wrapf ErrAgentMemoryAccessDenied (Error err)))
  | inl agentID =>
    let query := TrimSpace (ms_Query q) in
    if decide (query = "") then (r, inr (ENew "query is required"))
    else if decide (TrimSpace tenantID = "") then (r, inr ErrTenantAccessDenied)
    else
      match ensureAgentMemoryAccess ctx now tenantID agentID "agent_memory.search" r with
      | (r, Some err) => (r, inr err)
      | (r, None) =>
        let limit := if ms_Limit q <=? 0 then 5 else ms_Limit q in
        let limit := if 50 <? limit then 50 else limit in
        match indexIDs (agentMemoryIndexKey tenantID agentID) r with
        | inr err => (r, inr err)
        | inl ids =>
          if decide (ids = []) then (r, inl [])
          else
            let createdBefore :=
              match latestReplayReadableMemoryBoundary ctx now with
              | Some boundary => if IsZero (ms_CreatedBefore q) then boundary else ms_CreatedBefore q
              | None => ms_CreatedBefore q
              end in
            let results := searchFrom tenantID agentID (Embed memoryEmbedder query) (ms_MinScore q) createdBefore ids r in
            (r, inl (take (Z.to_nat limit) (sortSlice result_less results)))
        end
      end
  end.
End agentMemory.
