(* ===== verification/SideEffects.v ===== *)
(** * Side effects of tools (internal/engine/side_effects.go)

    Receipts of what a tool did or would do, and the two-step commit.  A call of a handler cuts
    an operation: the first half ends with the call ([HandlerCall]) and what the second half
    needs, the second half takes the handler's outcome.  Between the halves others may act. *)
From S2P Require Import Prelude Storage Graph EngineStore Throttle Authz Risk Tools Runtime Governance CallContext Gateway.
From S2P Require Import Human Admission DagRun Routing.

Definition sideEffectReceiptIndexKey : string := "side_effects/receipts/index".
Definition sideEffectReceiptKey (id : string) : string := "side_effects/receipts/" +:+ PathEscape (TrimSpace id).

Definition ErrSideEffectReceiptNotFound : error :=
  ESentinel "ErrSideEffectReceiptNotFound" "side-effect receipt not found".
Definition ErrSideEffectCommitPending : error :=
  ESentinel "ErrSideEffectCommitPending" "side-effect commit pending approval".
Definition ErrSideEffectNotCompensable : error :=
  ESentinel "ErrSideEffectNotCompensable" "side-effect is not compensable".

Definition SideEffectStatusDryRun : string := "dry_run".
Definition SideEffectStatusStaged : string := "staged".
Definition SideEffectStatusCommitPending : string := "commit_pending_approval".
Definition SideEffectStatusCommitted : string := "committed".
Definition SideEffectStatusCompensated : string := "compensated".
Definition SideEffectStatusCompensationFailed : string := "compensation_failed".
Definition HumanTaskSourceSideEffect : string := "side_effect".

Record SideEffectReceipt : Type := mkReceipt {
  sr_ID : string;
  sr_CreatedAt : Time;
  sr_UpdatedAt : Time;
  sr_TenantID : string;
  sr_PrincipalID : string;
  sr_RunID : string;
  sr_WorkflowID : string;
  sr_NodeID : string;
  sr_Attempt : Z;
  sr_Tool : string;
  sr_ServerID : string;
  sr_Status : string;
  sr_Mode : string;
  sr_Irreversible : bool;
  sr_ApprovalRequired : bool;
  sr_CompensationTool : string;
  sr_HumanTaskID : string;
  sr_Input : bytes;
  sr_Preview : bytes;
  sr_CommitOutput : bytes;
  sr_CompensationOutput : bytes;
  sr_Error : string
}.
(** The fields an operation changes. *)
Definition receiptWith (status taskID : string) (preview commit compensation : bytes) (err : string)
    (x : SideEffectReceipt) : SideEffectReceipt :=
  mkReceipt (sr_ID x) (sr_CreatedAt x) (sr_UpdatedAt x) (sr_TenantID x) (sr_PrincipalID x) (sr_RunID x)
    (sr_WorkflowID x) (sr_NodeID x) (sr_Attempt x) (sr_Tool x) (sr_ServerID x) status (sr_Mode x)
    (sr_Irreversible x) (sr_ApprovalRequired x) (sr_CompensationTool x) taskID (sr_Input x) preview commit
    compensation err.
Definition receiptStatus (status err : string) (x : SideEffectReceipt) : SideEffectReceipt :=
  receiptWith status (sr_HumanTaskID x) (sr_Preview x) (sr_CommitOutput x) (sr_CompensationOutput x) err x.
Definition receiptTask (status taskID err : string) (x : SideEffectReceipt) : SideEffectReceipt :=
  receiptWith status taskID (sr_Preview x) (sr_CommitOutput x) (sr_CompensationOutput x) err x.

(** What a staged call returns, and what a compensating handler is given, before encoding. *)
Record EffectOutput : Type := mkEffectOutput {
  eo_ReceiptID : string; eo_Status : string; eo_Mode : string; eo_Irreversible : bool;
  eo_ApprovalRequired : bool; eo_Preview : bytes
}.
Record CompensationBody : Type := mkCompensation {
  cb_ReceiptID : string; cb_Tool : string; cb_Input : bytes; cb_Output : bytes
}.
Class EffectJSON : Type := {
  #[global] json_receipt :: JSON SideEffectReceipt;
  #[global] json_effectOutput :: JSON EffectOutput;
  #[global] json_compensation :: JSON CompensationBody
}.

(** A call of a handler and its outcome. *)
Record HandlerCall {F : Type} : Type := mkHandlerCall { hc_fn : F; hc_ctx : CallCtx; hc_input : bytes }.
Arguments HandlerCall : clear implicits.
Arguments mkHandlerCall {F}.
(** [DelayError.Error] (delay.go). *)
Definition nodeErrorText `{ToolJSON} (e : NodeError) : string :=
  match e with
  | NErr err => Error err
  | NDelay after reason =>
    "delay: " +:+ formatDuration after +:+ (if decide (reason = "") then "" else " (" +:+ reason +:+ ")")
  end.

Definition cloneSideEffectReceipt (x : SideEffectReceipt) : SideEffectReceipt :=
  mkReceipt (TrimSpace (sr_ID x)) (sr_CreatedAt x) (sr_UpdatedAt x) (TrimSpace (sr_TenantID x))
    (TrimSpace (sr_PrincipalID x)) (TrimSpace (sr_RunID x)) (TrimSpace (sr_WorkflowID x))
    (TrimSpace (sr_NodeID x)) (sr_Attempt x) (TrimSpace (sr_Tool x)) (TrimSpace (sr_ServerID x))
    (TrimSpace (sr_Status x)) (TrimSpace (sr_Mode x)) (sr_Irreversible x) (sr_ApprovalRequired x)
    (TrimSpace (sr_CompensationTool x)) (TrimSpace (sr_HumanTaskID x)) (sr_Input x) (sr_Preview x)
    (sr_CommitOutput x) (sr_CompensationOutput x) (TrimSpace (sr_Error x)).

Section effects.
Context {S F A : Type} `{Store S} `{Ambient} `{MapOrder}.
Context `{JSON (list string)} `{JSON AuditRecord} `{JSON AuthorizationPolicyBundle} `{JSON HumanTask} `{JSON json}.
Context `{ToolJSON} `{EffectJSON}.
Implicit Types r : Runner S F A.

(** ** Storing receipts *)
(** The record saved is a copy: the caller's receipt keeps its identifier, empty or not. *)
Definition savedReceipt (id : string) (now : Time) (x : SideEffectReceipt) : SideEffectReceipt :=
  mkReceipt id (if IsZero (sr_CreatedAt x) then now else sr_CreatedAt x) now (TrimSpace (sr_TenantID x))
    (TrimSpace (sr_PrincipalID x)) (TrimSpace (sr_RunID x)) (TrimSpace (sr_WorkflowID x))
    (TrimSpace (sr_NodeID x)) (sr_Attempt x) (TrimSpace (sr_Tool x)) (TrimSpace (sr_ServerID x))
    (sr_Status x) (sr_Mode x) (sr_Irreversible x) (sr_ApprovalRequired x) (TrimSpace (sr_CompensationTool x))
    (TrimSpace (sr_HumanTaskID x)) (sr_Input x) (sr_Preview x) (sr_CommitOutput x) (sr_CompensationOutput x)
    (TrimSpace (sr_Error x)).
Definition saveSideEffectReceipt (now : Time) (x : SideEffectReceipt) r : Runner S F A * option error :=
  let '(id, r) := if decide (TrimSpace (sr_ID x) = "")
                  then let '(t, r) := NewTraceID r in ("receipt-" +:+ formatTime now +:+ "-" +:+ t, r)
                  else (TrimSpace (sr_ID x), r) in
  match putJSONKV (sideEffectReceiptKey id) (savedReceipt id now x) r with
  | (r, Some err) => (r, Some err)
  | (r, None) =>
    match indexIDs sideEffectReceiptIndexKey r with
    | inr err => (r, Some err)
    | inl ids => if decide (id ∈ ids) then (r, None) else putJSONKV sideEffectReceiptIndexKey (ids ++ [id]) r
    end
  end.

(** ** Reading receipts: every reading is checked and audited *)
Definition receiptRun (x : SideEffectReceipt) : Run :=
  mkRun (sr_RunID x) (sr_WorkflowID x) "" None None [] [] (sr_TenantID x) "" [] noBudget noUsage.
Definition receiptAccess (ctx : CallCtx) (now : Time) (x : SideEffectReceipt) r : Runner S F A * option error :=
  if decide (TrimSpace (sr_TenantID x) = "") then (r, None)
  else ensureRunTenantAccess ctx now (receiptRun x) "side_effect.receipt" r.
Definition GetSideEffectReceipt (ctx : CallCtx) (now : Time) (receiptID : string) r :
    Runner S F A * (SideEffectReceipt + error) :=
  let id := TrimSpace receiptID in
  if decide (id = "") then (r, inr ErrSideEffectReceiptNotFound)
  else match getJSONKV (sideEffectReceiptKey id) r with
       | None => (r, inr ErrSideEffectReceiptNotFound)
       | Some (inr err) => (r, inr err)
       | Some (inl x) =>
         match receiptAccess ctx now x r with
         | (r, Some err) => (r, inr err)
         | (r, None) => (r, inl (cloneSideEffectReceipt x))
         end
       end.
Fixpoint receiptRows (ctx : CallCtx) (now : Time) (ids : list string) (runID status : string) (limit : Z)
    (out : list SideEffectReceipt) r : Runner S F A * list SideEffectReceipt :=
  match ids with
  | [] => (r, out)
  | id :: ids =>
    match GetSideEffectReceipt ctx now id r with
    | (r, inr _) => receiptRows ctx now ids runID status limit out r
    | (r, inl x) =>
      if decide (runID <> "" /\ sr_RunID x <> runID) then receiptRows ctx now ids runID status limit out r
      else if decide (status <> "" /\ sr_Status x <> status) then receiptRows ctx now ids runID status limit out r
      else let out := out ++ [x] in
           if limit <=? zlen out then (r, out) else receiptRows ctx now ids runID status limit out r
    end
  end.
Definition ListSideEffectReceipts (ctx : CallCtx) (now : Time) (runID status : string) (limit : Z) r :
    Runner S F A * (list SideEffectReceipt + error) :=
  let limit := if limit <=? 0 then 100 else limit in
  match indexIDs sideEffectReceiptIndexKey r with
  | inr err => (r, inr err)
  | inl ids =>
    let '(r, out) := receiptRows ctx now (reverse ids) (TrimSpace runID) (TrimSpace status) limit [] r in
    (r, inl (sortSlice (fun a b => After (sr_CreatedAt a) (sr_CreatedAt b)) out))
  end.

(** ** The side effect of a tool call *)
Definition wrapSideEffectOutput (x : SideEffectReceipt) : bytes :=
  marshalOrNil (mkEffectOutput (sr_ID x) (sr_Status x) (sr_Mode x) (sr_Irreversible x) (sr_ApprovalRequired x)
                  (sr_Preview x)).
Definition effectMode (ctx : CallCtx) (p : SideEffectPolicy) : string :=
  match SideEffectModeFrom ctx with
  | Some mode => mode
  | None => if StageRequired p then SideEffectModeStage else SideEffectModeCommit
  end.
Definition newReceipt (ctx : CallCtx) (inv : toolInvocation F) (server : ToolServerDefinition)
    (p : SideEffectPolicy) (mode : string) (input : bytes) : SideEffectReceipt :=
  mkReceipt "" zeroTime zeroTime (effectiveTenantFromContext ctx)
    (default "" (TrimSpace ∘ p_ID <$> PrincipalFrom ctx)) (TrimSpace (iv_RunID inv)) (TrimSpace (iv_WorkflowID inv))
    (TrimSpace (iv_NodeID inv)) (iv_Attempt inv) (TrimSpace (iv_Tool inv)) (TrimSpace (ts_ID server)) "" mode
    (Irreversible p) (ApprovalBeforeCommit p) (CompensationTool p) "" input [] [] [] "".
(** The handler is called in the mode of the receipt; an unknown mode is an error. *)
Definition beginSideEffect (ctx : CallCtx) (inv : toolInvocation F) (fn : F) (server : ToolServerDefinition)
    (p : SideEffectPolicy) (input : bytes) : SideEffectReceipt * HandlerCall F + error :=
  let mode := effectMode ctx p in
  if decide (mode = SideEffectModeDryRun \/ mode = SideEffectModeStage \/ mode = SideEffectModeCommit)
  then inl (newReceipt ctx inv server p mode input,
            mkHandlerCall fn
              (WithSideEffectRuntime (mkEffectRuntime "" mode noSideEffect (Irreversible p)
                 (ApprovalBeforeCommit p) (CompensationTool p)) ctx) input)
  else inr (ENew ("unsupported side-effect mode " +:+ Quote mode)).
(** What a failed call leaves is marked as a failed compensation.  Failures to save are dropped. *)
Definition endSideEffect (now : Time) (x : SideEffectReceipt) (outcome : bytes * option NodeError) r :
    Runner S F A * (bytes * option NodeError) :=
  match outcome with
  | (_, Some err) =>
    let x := receiptStatus SideEffectStatusCompensationFailed (nodeErrorText err) x in
    ((saveSideEffectReceipt now x r).1, ([], Some err))
  | (output, None) =>
    if decide (sr_Mode x = SideEffectModeCommit)
    then
      let x := receiptWith SideEffectStatusCommitted (sr_HumanTaskID x) (sr_Preview x) output
                 (sr_CompensationOutput x) (sr_Error x) x in
      ((saveSideEffectReceipt now x r).1, (output, None))
    else
      let x := receiptWith (if decide (sr_Mode x = SideEffectModeDryRun) then SideEffectStatusDryRun
                            else SideEffectStatusStaged) (sr_HumanTaskID x) output (sr_CommitOutput x)
                 (sr_CompensationOutput x) (sr_Error x) x in
      ((saveSideEffectReceipt now x r).1, (wrapSideEffectOutput x, None))
  end.

(** ** Approval of a commit *)
Definition findSideEffectHumanTask (receiptID : string) r : option HumanTask + error :=
  match ListHumanTasks "" "" 500 r with
  | inr err => inr err
  | inl tasks => inl (List.find (fun t => bool_decide (ht_SideEffectReceiptID t = TrimSpace receiptID)) tasks)
  end.
Definition approvalPending (t : HumanTask) : error :=
  EWrap (if decide (TrimSpace (ht_NodeID t) <> "") then "human approval pending for node " +:+ ht_NodeID t
         else Error ErrHumanApprovalPending) ErrHumanApprovalPending.
Definition approvalTask (x : SideEffectReceipt) : HumanTask :=
  mkTask "" (sr_RunID x) (sr_WorkflowID x) (sr_NodeID x) (sr_Attempt x) (sr_TenantID x) HumanStepModeApproval
    HumanTaskSourceSideEffect HumanTaskPending ("approve side-effect commit for tool " +:+ sr_Tool x) (sr_Input x)
    [] (sr_ID x) "" "" zeroTime zeroTime None None None.
Definition receiptAudit (action outcome reason : string) (x : SideEffectReceipt) : AuditRecord :=
  mkAudit "" zeroTime (sr_TenantID x) "" action "side_effect_receipt" (sr_ID x) (sr_RunID x) (sr_WorkflowID x)
    outcome reason.
Definition askApproval (ctx : CallCtx) (now : Time) (x : SideEffectReceipt) r :
    Runner S F A * (SideEffectReceipt * option error) :=
  let t := approvalTask x in
  match saveHumanTask now t r with
  | (r, Some err) => (r, (x, Some err))
  | (r, None) =>
    let r := emit now (sr_RunID x) EventHumanTaskCreated (sr_WorkflowID x) (sr_NodeID x) (sr_Attempt x) (marshalOrNil t) r in
    let r := appendAuditRecord ctx now
               (receiptAudit "human.request" AuditOutcomeDenied "side-effect commit requires approval" x) r in
    let x := receiptTask SideEffectStatusCommitPending (ht_ID t) (sr_Error x) x in
    ((saveSideEffectReceipt now x r).1, (x, Some (approvalPending t)))
  end.
(** [None]: the commit may go on. *)
Definition ensureSideEffectApproval (ctx : CallCtx) (now : Time) (x : SideEffectReceipt) r :
    Runner S F A * (SideEffectReceipt * option error) :=
  if negb (sr_ApprovalRequired x) then (r, (x, None))
  else
    match findSideEffectHumanTask (sr_ID x) r with
    | inr err => (r, (x, Some err))
    | inl None => askApproval ctx now x r
    | inl (Some t) =>
      if decide (ht_Status t = HumanTaskApproved) then
        let x := receiptTask (sr_Status x) (ht_ID t) (sr_Error x) x in
        ((saveSideEffectReceipt now x r).1, (x, None))
      else if decide (ht_Status t = HumanTaskRejected \/ ht_Status t = HumanTaskTimedOut \/
                      ht_Status t = HumanTaskCanceled) then
        let x := receiptTask SideEffectStatusCompensationFailed (ht_ID t) "side-effect commit approval rejected" x in
        ((saveSideEffectReceipt now x r).1, (x, Some (wrapf ErrSideEffectCommitPending "approval rejected")))
      else
        let x := receiptTask SideEffectStatusCommitPending (ht_ID t) (sr_Error x) x in
        ((saveSideEffectReceipt now x r).1, (x, Some (approvalPending t)))
    end.

(** ** Committing *)
Definition noReceipt : SideEffectReceipt :=
  mkReceipt "" zeroTime zeroTime "" "" "" "" "" 0 "" "" "" "" false false "" "" [] [] [] [] "".
(** An operation returns, or calls a handler for a receipt. *)
Inductive EffectStep : Type :=
| Done (x : SideEffectReceipt) (err : option NodeError)
| Calling (x : SideEffectReceipt) (call : HandlerCall F).

Definition lookupHandler (tenantID topic : string) r : F + error :=
  match HandlerRegistryForTenant tenantID r with
  | None => inr (ENew "handler registry is required")
  | Some reg =>
    match Lookup topic reg with
    | None => inr (ENew ("no handler registered for topic " +:+ Quote topic))
    | Some fn => inl fn
    end
  end.
Definition commitContext (ctx : CallCtx) (p : ToolPolicy) (server : ToolServerDefinition)
    (x : SideEffectReceipt) : CallCtx :=
  let effect := default (mkSideEffect true false false false false "") (normalizeSideEffectPolicy (tp_SideEffect p)) in
  WithToolRuntime
    (mkToolRuntime (sr_Tool x) (ts_ID server) (ts_Kind server) "" "" "" false (cloneToolPolicy p)
       (cloneToolServerDefinition server))
    (WithSideEffectRuntime
       (mkEffectRuntime (sr_ID x) SideEffectModeCommit effect (sr_Irreversible x) (sr_ApprovalRequired x)
          (sr_CompensationTool x)) ctx).
(** The handler, the policy and the server of the receipt's tool. *)
Definition prepareCommit (ctx : CallCtx) (now : Time) (x : SideEffectReceipt) r : Runner S F A * EffectStep :=
  match lookupHandler (sr_TenantID x) (sr_Tool x) r with
  | inr err => (r, Done noReceipt (Some (NErr err)))
  | inl fn =>
    let ctx := onBase (WithTenantID (sr_TenantID x)) ctx in
    match resolveToolPolicy ctx now (sr_Tool x) r with
    | (r, inr err) => (r, Done noReceipt (Some (NErr err)))
    | (r, inl p) =>
      match resolveToolServer ctx now p r with
      | (r, inr err) => (r, Done noReceipt (Some (NErr err)))
      | (r, inl server) => (r, Calling x (mkHandlerCall fn (commitContext ctx p server x) (sr_Input x)))
      end
    end
  end.
Definition beginCommit (ctx : CallCtx) (now : Time) (receiptID : string) r : Runner S F A * EffectStep :=
  match GetSideEffectReceipt ctx now receiptID r with
  | (r, inr err) => (r, Done noReceipt (Some (NErr err)))
  | (r, inl x) =>
    if decide (sr_Status x <> SideEffectStatusStaged /\ sr_Status x <> SideEffectStatusCommitPending)
    then (r, Done x None)
    else
      match ensureSideEffectApproval ctx now x r with
      | (r, (x, Some err)) => (r, Done x (Some (NErr err)))
      | (r, (x, None)) => prepareCommit ctx now x r
      end
  end.
Definition endCommit (ctx : CallCtx) (now : Time) (x : SideEffectReceipt) (outcome : bytes * option NodeError) r :
    Runner S F A * (SideEffectReceipt * option NodeError) :=
  match outcome with
  | (_, Some err) =>
    let x := receiptStatus (sr_Status x) (nodeErrorText err) x in
    ((saveSideEffectReceipt now x r).1, (x, Some err))
  | (output, None) =>
    let x := receiptWith SideEffectStatusCommitted (sr_HumanTaskID x) (sr_Preview x) output (sr_CompensationOutput x) "" x in
    match saveSideEffectReceipt now x r with
    | (r, Some err) => (r, (noReceipt, Some (NErr err)))
    | (r, None) =>
      (appendAuditRecord ctx now (receiptAudit "side_effect.commit" AuditOutcomeAllowed "side-effect committed" x) r,
       (x, None))
    end
  end.
(** [CommitSideEffect] when nobody acts while the handler runs. *)
Definition CommitSideEffect (handler : HandlerCall F -> bytes * option NodeError) (ctx : CallCtx) (now now' : Time)
    (receiptID : string) r : Runner S F A * (SideEffectReceipt * option NodeError) :=
  match beginCommit ctx now receiptID r with
  | (r, Done x err) => (r, (x, err))
  | (r, Calling x call) => endCommit ctx now' x (handler call) r
  end.

(** ** Compensating: whatever the status of the receipt *)
Definition beginCompensate (ctx : CallCtx) (now : Time) (receiptID : string) r : Runner S F A * EffectStep :=
  match GetSideEffectReceipt ctx now receiptID r with
  | (r, inr err) => (r, Done noReceipt (Some (NErr err)))
  | (r, inl x) =>
    if decide (TrimSpace (sr_CompensationTool x) = "") then (r, Done x (Some (NErr ErrSideEffectNotCompensable)))
    else
      match lookupHandler (sr_TenantID x) (sr_CompensationTool x) r with
      | inr err => (r, Done noReceipt (Some (NErr err)))
      | inl fn =>
        let body := marshalOrNil (mkCompensation (sr_ID x) (sr_Tool x) (sr_Input x) (sr_CommitOutput x)) in
        let ctx := WithSideEffectRuntime
          (mkEffectRuntime (sr_ID x) SideEffectModeCompensate noSideEffect (sr_Irreversible x)
             (sr_ApprovalRequired x) (sr_CompensationTool x)) (onBase (WithTenantID (sr_TenantID x)) ctx) in
        (r, Calling x (mkHandlerCall fn ctx body))
      end
  end.
Definition endCompensate (ctx : CallCtx) (now : Time) (x : SideEffectReceipt) (outcome : bytes * option NodeError) r :
    Runner S F A * (SideEffectReceipt * option NodeError) :=
  match outcome with
  | (_, Some err) =>
    let x := receiptStatus SideEffectStatusCompensationFailed (nodeErrorText err) x in
    ((saveSideEffectReceipt now x r).1, (x, Some err))
  | (output, None) =>
    let x := receiptWith SideEffectStatusCompensated (sr_HumanTaskID x) (sr_Preview x) (sr_CommitOutput x) output "" x in
    match saveSideEffectReceipt now x r with
    | (r, Some err) => (r, (noReceipt, Some (NErr err)))
    | (r, None) =>
      (appendAuditRecord ctx now
         (receiptAudit "side_effect.compensate" AuditOutcomeAllowed "side-effect compensated" x) r, (x, None))
    end
  end.
Definition CompensateSideEffect (handler : HandlerCall F -> bytes * option NodeError) (ctx : CallCtx)
    (now now' : Time) (receiptID : string) r : Runner S F A * (SideEffectReceipt * option NodeError) :=
  match beginCompensate ctx now receiptID r with
  | (r, Done x err) => (r, (x, err))
  | (r, Calling x call) => endCompensate ctx now' x (handler call) r
  end.
End effects.

(** ** Calling a tool (internal/engine/tool_gateway.go: invokeTool) *)
(** [beginTool] is everything before the handler is called: the policy, the server, the
    authorization, the schemas of the input, the sandbox, the route.  It ends with an error or
    with a pending call; [endTool] takes the outcome of the handler.  Both record the call. *)
Record PendingCall {F : Type} : Type := mkPending {
  pc_ctx : CallCtx;
  pc_server : ToolServerDefinition;
  pc_policy : ToolPolicy;
  pc_sandboxed : bool;
  pc_route : AdaptiveRoute;
  pc_start : Time;
  pc_receipt : option SideEffectReceipt;
  pc_call : HandlerCall F
}.
Arguments PendingCall : clear implicits.
Arguments mkPending {F}.

Section toolCall.
Context {S F A : Type} `{Store S} `{Ambient} `{MapOrder} `{EngineJSON} `{ToolJSON} `{EffectJSON}.
Implicit Types r : Runner S F A.

Definition needsSandbox (ctx : CallCtx) (p : ToolPolicy) : bool :=
  SandboxRequired p ||
  match RiskDecisionFrom ctx with Some d => bool_decide (rd_Action d = RiskActionSandbox) | None => false end.
Definition sandboxDenied (sandboxed : bool) (server : ToolServerDefinition) : bool :=
  sandboxed && negb (SandboxAllowed server) && negb (bool_decide (ts_ID server = defaultToolServerID)).
Definition schemaError (err : error) : error := wrapf ErrToolSchemaInvalid (Error err).
(** The schema of the node, then the one of the policy. *)
Definition checkInput (inv : toolInvocation F) (p : ToolPolicy) (input : bytes) : option error :=
  match validateSchemaValue unmarshal marshal parseFloat (iv_InputSchema inv) input "node input" with
  | Some err => Some err
  | None => validateSchemaValue unmarshal marshal parseFloat (tp_InputSchema p) input "tool input"
  end.
Definition checkOutput (inv : toolInvocation F) (p : ToolPolicy) (output : bytes) : option error :=
  match validateSchemaValue unmarshal marshal parseFloat (tp_OutputSchema p) output "tool output" with
  | Some err => Some err
  | None => validateSchemaValue unmarshal marshal parseFloat (iv_OutputSchema inv) output "node output"
  end.
Definition toolContext (ctx : CallCtx) (inv : toolInvocation F) (server : ToolServerDefinition) (p : ToolPolicy)
    (sandboxed : bool) (route : AdaptiveRoute) : CallCtx :=
  WithToolRuntime
    (mkToolRuntime (iv_Tool inv) (ts_ID server) (ts_Kind server) (TrimSpace (rt_ID route))
       (TrimSpace (rt_Provider route)) (TrimSpace (rt_Model route)) sandboxed (cloneToolPolicy p)
       (cloneToolServerDefinition server)) ctx.
Definition activeEffect (p : ToolPolicy) : option SideEffectPolicy :=
  match normalizeSideEffectPolicy (tp_SideEffect p) with
  | Some e => if Enabled e then Some e else None
  | None => None
  end.

Definition beginTool (ctx : CallCtx) (now : Time) (inv : toolInvocation F) (input : bytes) r :
    Runner S F A * (PendingCall F + error) :=
  let deny server policy sandboxed err r :=
    (logToolCall ctx now inv server policy input [] false sandboxed 0 (Some err) noRoute r, inr err) in
  match iv_Handler inv with
  | None => (r, inr (ENew ("tool " +:+ Quote (TrimSpace (iv_Tool inv)) +:+ " has no handler")))
  | Some fn =>
    match resolveToolPolicy ctx now (iv_Tool inv) r with
    | (r, inr err) => deny noServer noToolPolicy false err r
    | (r, inl policy) =>
      match resolveToolServer ctx now policy r with
      | (r, inr err) => deny noServer policy false err r
      | (r, inl server) =>
        match authorizeToolExecution ctx inv r with
        | (r, Some err) => deny server policy false err r
        | (r, None) =>
          match checkInput inv policy input with
          | Some err => deny server policy false (schemaError err) r
          | None =>
            let sandboxed := needsSandbox ctx policy in
            if sandboxDenied sandboxed server
            then deny server policy sandboxed
                   (wrapf ErrToolServerNotApproved
                      ("server " +:+ Quote (ts_ID server) +:+ " does not allow sandbox execution")) r
            else
              match selectAdaptiveRoute ctx now inv policy input r with
              | (r, inr err) => deny server policy sandboxed err r
              | (r, inl route) =>
                let ctx := toolContext ctx inv server policy sandboxed route in
                let pending := mkPending ctx server policy sandboxed route now in
                match activeEffect policy with
                | None => (r, inl (pending None (mkHandlerCall fn ctx input)))
                | Some e =>
                  match beginSideEffect ctx inv fn server e input with
                  | inl (receipt, call) => (r, inl (pending (Some receipt) call))
                  | inr err =>
                    (logToolCall ctx now inv server policy input [] true sandboxed 0 (Some err) route r, inr err)
                  end
                end
              end
          end
        end
      end
    end
  end.

Definition endTool (now : Time) (inv : toolInvocation F) (input : bytes) (pc : PendingCall F)
    (outcome : bytes * option NodeError) r : Runner S F A * (bytes * option NodeError) :=
  let log output err r :=
    logToolCall (pc_ctx pc) now inv (pc_server pc) (pc_policy pc) input output true (pc_sandboxed pc)
      (Sub now (pc_start pc)) err (pc_route pc) r in
  let text := fmap (fun e => ENew (nodeErrorText e)) in
  match pc_receipt pc with
  | Some receipt =>
    let '(r, (output, err)) := endSideEffect now receipt outcome r in (log output (text err) r, (output, err))
  | None =>
    match outcome with
    | (output, Some err) => (log output (text (Some err)) r, (output, Some err))
    | (output, None) =>
      match checkOutput inv (pc_policy pc) output with
      | Some err => (log output (Some (schemaError err)) r, ([], Some (NErr (schemaError err))))
      | None => (log output None r, (output, None))
      end
    end
  end.

(** [invokeTool] when nobody acts while the handler runs. *)
Definition invokeTool (handler : HandlerCall F -> bytes * option NodeError) (ctx : CallCtx) (now now' : Time)
    (inv : toolInvocation F) (input : bytes) r : Runner S F A * (bytes * option NodeError) :=
  match beginTool ctx now inv input r with
  | (r, inr err) => (r, ([], Some (NErr err)))
  | (r, inl pc) => endTool now' inv input pc (handler (pc_call pc)) r
  end.
End toolCall.
