(* ===== verification/Lifecycle.v ===== *)
(** * Cancelling, timers, replay, index versions (internal/engine/cancel.go, timers_loop.go,
    timer_resume.go, replay.go, replay_helpers.go, index_meta.go)

    A handler that starts a run yields the [RunRequest] it hands to [runDAGWithReplayCache]. *)
From S2P Require Import Prelude Storage Graph EngineStore Throttle Authz Risk Runtime Governance Human.
From S2P Require Import Admission DagRun.

Record RunRequest {F : Type} : Type := mkRequest {
  rq_RunID : string;
  rq_Graph : WorkflowGraph F;
  rq_Input : bytes;
  rq_Spec : bytes;
  rq_Cache : option (gmap string replayCacheEntry)
}.
Arguments RunRequest : clear implicits.

Definition ReplayLive : string := "live".
Definition ReplayTimeTravel : string := "time_travel".
Definition MetaKeyActiveIndexVersion : string := "active_index_version".
Definition emptyObject : bytes := fromString "{}".

(** ** replay_helpers.go *)
Definition graphHasNode {F} (g : WorkflowGraph F) (nodeID : string) : bool :=
  existsb (fun n => bool_decide (NodeID n = nodeID)) (Nodes g).

(** Breadth first; every edge enqueues its target at most once. *)
Fixpoint downstream (fuel : nat) (children : gmap string (list string)) (q : list string) (out : gset string) :
    gset string :=
  match fuel, q with
  | O, _ | _, [] => out
  | S fuel, n :: q =>
    if decide (n ∈ out) then downstream fuel children q out
    else downstream fuel children (q ++ default [] (children !! n)) ({[n]} ∪ out)
  end.
Definition downstreamNodes {F} (g : WorkflowGraph F) (fromStep : string) : gset string :=
  downstream (S (length (Edges g))) (childrenOf (Edges g)) [fromStep] ∅.

Definition nodeHasSucceededAttempt (nodes : list NodeExecution) (nodeID : string) : bool :=
  existsb (fun ne => bool_decide (n_NodeID ne = nodeID) && bool_decide (n_Status ne = NodeStatusSucceeded)) nodes.

Definition set_n_Canceled (now : Time) (ne : NodeExecution) : NodeExecution :=
  mkNodeExec (n_RunID ne) (n_WorkflowID ne) (n_NodeID ne) (n_Attempt ne) NodeStatusCanceled (n_StartedAt ne)
    (Some (default now (n_EndedAt ne))) (n_Input ne) (n_Output ne) (n_Error ne).
Definition set_t_Status (status : string) (now : Time) (t : Timer) : Timer :=
  mkTimer (t_RunID t) (t_WorkflowID t) (t_NodeID t) (t_Attempt t) status (t_FireAt t) (t_CreatedAt t) (Some now)
    (t_Reason t).

Section lifecycle.
Context {S F A : Type} `{Store S} `{ArtifactStore A} `{Ambient} `{MapOrder} `{EngineJSON}.
Implicit Types (r : Runner S F A) (g : WorkflowGraph F).

(** ** cancel.go *)
Definition CancelRun (ctx : Ctx) (now : Time) (runID reason : string) r : Runner S F A * option error :=
  let runID := TrimSpace runID in
  if decide (runID = "") then (r, Some ErrRunNotFound)
  else
    match GetRun runID (rn_store r) with
    | None => (r, Some ErrRunNotFound)
    | Some run =>
      match ensureRunTenantAccess ctx now run "run.cancel" r with
      | (r, Some err) => (r, Some err)
      | (r, None) =>
        if decide (r_Status run = RunStatusSucceeded \/ r_Status run = RunStatusFailed) then (r, None)
        else if decide (r_Status run = RunStatusCanceled) then (cancelRunContext runID r, None)
        else
          match onStore (UpdateRun (set_r_EndedAt (Some now) (set_r_Status RunStatusCanceled run))) r with
          | (r, Some err) => (r, Some err)
          | (r, None) =>
            let r := cancelRunContext runID r in
            (emit now runID EventRunFinished (r_WorkflowID run) "" 0
               (marshalOrNil (JObject [("reason", JString (TrimSpace reason)); ("status", JString "canceled")])) r, None)
          end
      end
    end.

(** ** timers_loop.go *)
Fixpoint fireTimers (now : Time) (due : list Timer) (fired : Z) r : Runner S F A * (Z * option error) :=
  match due with
  | [] => (r, (fired, None))
  | t :: due =>
    if decide (t_Status t <> TimerScheduled) then fireTimers now due fired r
    else
      match onStore (UpsertTimer (set_t_Status TimerFired now t)) r with
      | (r, Some err) => (r, (fired, Some err))
      | (r, None) =>
        let payload := marshalOrNil
          (JObject [("fire_at", JString (formatRFC3339 (t_FireAt t))); ("fired_at", JString (formatRFC3339 now));
                    ("reason", JString (t_Reason t)); ("status", JString "fired")]) in
        fireTimers now due (fired + 1)
          (emit now (t_RunID t) EventTimerFired (t_WorkflowID t) (t_NodeID t) (t_Attempt t) payload r)
      end
  end.
Definition FireDueTimers (now : Time) r : Runner S F A * (Z * option error) :=
  fireTimers now (ListDueTimers now (rn_store r)) 0 r.

(** The runs the loop resumes, each once, with the remembered graph and [{}] as input. *)
Fixpoint timerResumes (due : list Timer) (seen : gset string) r : list (RunRequest F) :=
  match due with
  | [] => []
  | t :: due =>
    let id := t_RunID t in
    if decide (id = "" \/ id ∈ seen) then timerResumes due seen r
    else
      let rest := timerResumes due ({[id]} ∪ seen) r in
      match GetRun id (rn_store r) with
      | Some run =>
        if decide (r_Status run <> RunStatusWaiting) then rest
        else match getGraph (r_WorkflowID run) r with
             | Some g => mkRequest _ id g emptyObject [] None :: rest
             | None => rest
             end
      | None => rest
      end
  end.
(** One tick of [StartTimerLoop]. *)
Definition timerTick (now : Time) r : Runner S F A * list (RunRequest F) :=
  let due := ListDueTimers now (rn_store r) in
  match FireDueTimers now r with
  | (r, (_, Some _)) => (r, [])
  | (r, (fired, None)) => (r, if fired =? 0 then [] else timerResumes due ∅ r)
  end.

(** ** timer_resume.go *)
Section compiled.
(** The decoder of workflow specifications, and the runs of graphs, which steps describe. *)
Variable decodeSpec : bytes -> WorkflowSpec + error.
Variable run_ : Ctx -> RunRequest F -> Runner S F A -> Runner S F A * option error.

(** [None]: nothing to resume. *)
Definition resumeRequest (runID : string) r : option (RunRequest F) + error :=
  match GetRun runID (rn_store r) with
  | None => inl None
  | Some run =>
    if decide (r_Status run <> RunStatusWaiting) then inl None
    else if decide (r_Spec run = []) then inr (ENew "run has no spec stored; cannot resume")
    else
      match HandlerRegistryForTenant (r_TenantID run) r with
      | None => inr (ENew "no handler registry configured on runner")
      | Some reg =>
        match ParseWorkflowSpecJSON decodeSpec (r_Spec run) with
        | inr err => inr err
        | inl (g, spec) =>
          match CompileSpecToExecutable spec g (Some reg) with
          | inr err => inr err
          | inl g => inl (Some (mkRequest _ runID g (r_InitialInput run) (r_Spec run) None))
          end
        end
      end
  end.
Definition resumeWaitingRun (ctx : Ctx) (runID : string) r : Runner S F A * (bool * option error) :=
  match resumeRequest runID r with
  | inr err => (r, (false, Some err))
  | inl None => (r, (false, None))
  | inl (Some rq) => let '(r, err) := run_ ctx rq r in (r, (true, err))
  end.

Definition resumeOne (ctx : Ctx) (acc : Z * Runner S F A) (runID : string) : Z * Runner S F A :=
  let '(resumed, r) := acc in
  match resumeWaitingRun ctx runID r with
  | (r, (true, None)) => (resumed + 1, r)
  | (r, _) => (resumed, r)
  end.
Definition FireDueTimersAndResume (ctx : Ctx) (now : Time) r : Runner S F A * (Z * Z * option error) :=
  let due := ListDueTimers now (rn_store r) in
  if decide (due = []) then (r, (0, 0, None))
  else
    let runIDs : gset string := list_to_set (t_RunID <$> due) in
    match FireDueTimers now r with
    | (r, (fired, Some err)) => (r, (fired, 0, Some err))
    | (r, (fired, None)) =>
      if fired =? 0 then (r, (0, 0, None))
      else let '(resumed, r) := foldl (resumeOne ctx) (0, r) (order runIDs) in (r, (fired, resumed, None))
    end.

(** ** replay.go *)
Fixpoint cancelNodes (now : Time) (nodeIDs : gset string) (prev : list NodeExecution) r :
    Runner S F A * option error :=
  match prev with
  | [] => (r, None)
  | ne :: prev =>
    if decide (n_NodeID ne ∉ nodeIDs \/ n_Status ne = NodeStatusCanceled) then cancelNodes now nodeIDs prev r
    else match onStore (UpsertNodeExecution (set_n_Canceled now ne)) r with
         | (r, Some err) => (r, Some err)
         | (r, None) => cancelNodes now nodeIDs prev r
         end
  end.
Fixpoint cancelTimers (now : Time) (runID : string) (nodeIDs : gset string) (ts : list Timer) r :
    Runner S F A * option error :=
  match ts with
  | [] => (r, None)
  | t :: ts =>
    if decide (t_NodeID t ∉ nodeIDs \/ t_Status t <> TimerScheduled) then cancelTimers now runID nodeIDs ts r
    else match onStore (UpsertTimer (set_t_Status TimerCanceled now t)) r with
         | (r, Some err) => (r, Some err)
         | (r, None) =>
           cancelTimers now runID nodeIDs ts
             (emit now runID EventTimerCanceled (t_WorkflowID t) (t_NodeID t) (t_Attempt t) [] r)
         end
  end.
Definition invalidateNodesAndTimers (now : Time) (runID : string) (nodeIDs : gset string) r :
    Runner S F A * option error :=
  if decide (nodeIDs = ∅) then (r, None)
  else match cancelNodes now nodeIDs (ListNodeExecutions runID (rn_store r)) r with
       | (r, Some err) => (r, Some err)
       | (r, None) => cancelTimers now runID nodeIDs (ListTimers runID (rn_store r)) r
       end.

(** The input of the earliest attempt of the first root. *)
Definition earliestInput (rootID : string) (best : Z * option bytes) (ne : NodeExecution) : Z * option bytes :=
  if decide (n_NodeID ne <> rootID \/ n_Input ne = []) then best
  else if n_Attempt ne <? best.1 then (n_Attempt ne, Some (n_Input ne)) else best.
Definition initialInputFromRun (runID : string) g r : bytes :=
  let incoming := inDegrees g in
  match List.find (fun n => bool_decide (default 0 (incoming !! NodeID n) = 0)) (Nodes g) with
  | None => emptyObject
  | Some root =>
    if decide (NodeID root = "") then emptyObject
    else default emptyObject
           (foldl (earliestInput (NodeID root)) (9223372036854775807, None) (ListNodeExecutions runID (rn_store r))).2
  end.

Definition compileExecutableFromStoredSpec (runID : string) (run : Run) r :
    Runner S F A * (WorkflowGraph F + error) :=
  let ids := "(workflow_id=" +:+ Quote (r_WorkflowID run) +:+ " run_id=" +:+ Quote runID +:+ ")" in
  if decide (r_Spec run = [])
  then (r, inr (ENew ("replay: no cached graph and no stored spec " +:+ ids)))
  else
    match HandlerRegistryForTenant (r_TenantID run) r with
    | None =>
      (r, inr (ENew ("replay: no cached graph; runner has no handler registry to compile stored spec " +:+ ids)))
    | Some reg =>
      match ParseWorkflowSpecJSON decodeSpec (r_Spec run) with
      | inr err => (r, inr (EWrap ("replay: parse stored spec failed: " +:+ Error err) err))
      | inl (g, spec) =>
        match CompileSpecToExecutable spec g (Some reg) with
        | inr err => (r, inr (EWrap ("replay: compile stored spec failed: " +:+ Error err) err))
        | inl g =>
          let g := mkGraph _ (r_WorkflowID run) (Nodes g) (Edges g) (g_TimeoutMS g) in
          (rememberGraph (r_WorkflowID run) g r, inl g)
        end
      end
    end.

(** A succeeded run may run again. *)
Definition requeue (run : Run) r : Run * Runner S F A :=
  if decide (r_Status run = RunStatusSucceeded) then
    let run := set_r_Terminal "" [] (set_r_EndedAt None (set_r_Status RunStatusQueued run)) in (run, saveRun run r)
  else (run, r).

(** The part before the mode is looked at: what comes after [fromStep] is invalidated. *)
Definition replaySuffix (now : Time) (runID fromStep mode : string) g (run : Run) r :
    Runner S F A * (Run + error) :=
  let fromStep := TrimSpace fromStep in
  if decide (fromStep = "") then (r, inl run)
  else if negb (graphHasNode g fromStep) then (r, inr (ENew ("replay: unknown from-step " +:+ Quote fromStep)))
  else
    let suffix := downstreamNodes g fromStep in
    let suffix := if decide (mode = ReplayTimeTravel) then
                    if nodeHasSucceededAttempt (ListNodeExecutions runID (rn_store r)) fromStep
                    then suffix ∖ {[fromStep]} else suffix
                  else suffix in
    match invalidateNodesAndTimers now runID suffix r with
    | (r, Some err) => (r, inr err)
    | (r, None) => let '(run, r) := requeue run r in (r, inl run)
    end.

Definition replayRequest (ctx : Ctx) (now : Time) (runID fromStep mode : string) r :
    Runner S F A * (RunRequest F + error) :=
  match GetRun runID (rn_store r) with
  | None => (r, inr ErrRunNotFound)
  | Some run =>
    match ensureRunTenantAccess ctx now run "run.replay" r with
    | (r, Some err) => (r, inr err)
    | (r, None) =>
      match match getGraph (r_WorkflowID run) r with
            | Some g => (r, inl g)
            | None => compileExecutableFromStoredSpec runID run r
            end with
      | (r, inr err) => (r, inr err)
      | (r, inl g) =>
        let initial := if decide (r_InitialInput run = []) then initialInputFromRun runID g r else r_InitialInput run in
        match replaySuffix now runID fromStep mode g run r with
        | (r, inr err) => (r, inr err)
        | (r, inl run) =>
          if decide (mode = ReplayTimeTravel) then
            (r, inl (mkRequest _ runID g initial (r_Spec run) (Some (buildReplayCacheFromRun runID r))))
          else if decide (mode = ReplayLive) then
            if decide (TrimSpace fromStep = "") then
              match invalidateNodesAndTimers now runID (list_to_set (NodeID <$> Nodes g)) r with
              | (r, Some err) => (r, inr err)
              | (r, None) => let '(run, r) := requeue run r in (r, inl (mkRequest _ runID g initial (r_Spec run) None))
              end
            else (r, inl (mkRequest _ runID g initial (r_Spec run) None))
          else (r, inr (ENew ("unknown replay mode: " +:+ Quote mode)))
        end
      end
    end
  end.
Definition ReplayFrom (ctx : Ctx) (now : Time) (runID fromStep mode : string) r : Runner S F A * option error :=
  match replayRequest ctx now runID fromStep mode r with
  | (r, inr err) => (r, Some err)
  | (r, inl rq) => run_ ctx rq r
  end.
Definition Replay (ctx : Ctx) (now : Time) (runID mode : string) r : Runner S F A * option error :=
  ReplayFrom ctx now runID "" mode r.
End compiled.
End lifecycle.

(** ** index_meta.go *)
Section index.
Context {S : Type} `{Store S}.
Implicit Types s : S.
Definition GetActiveIndexVersion s : option string := GetKV MetaKeyActiveIndexVersion s.
Definition PromoteIndexVersion (runID version : string) s : S * (string + error) :=
  let runID := TrimSpace runID in
  if decide (runID = "") then (s, inr (ENew "promote: run_id required"))
  else
    let version := TrimSpace version in
    let version := if decide (version = "") then runID else version in
    match GetRun runID s with
    | None => (s, inr ErrRunNotFound)
    | Some run =>
      if decide (r_Status run <> RunStatusSucceeded)
      then (s, inr (ENew ("promote: run " +:+ runID +:+ " status=" +:+ r_Status run +:+ " (need " +:+
                          RunStatusSucceeded +:+ ")")))
      else match PutKV MetaKeyActiveIndexVersion version s with
           | (s, Some err) => (s, inr err)
           | (s, None) => (s, inl version)
           end
    end.
Definition RollbackIndexVersion (version : string) s : S * option error :=
  let version := TrimSpace version in
  if decide (version = "") then (s, Some (ENew "rollback: version required"))
  else PutKV MetaKeyActiveIndexVersion version s.
End index.
