(* ===== verification/Evals.v ===== *)
(** * Evaluation (internal/engine/evals.go, runner_spec.go)

    Datasets of cases, suites, reports, the run of a suite, and the promotion it gates.  A case
    is judged on a run of its specification: [RunSpecJSON] hands a [RunRequest] to [runDAG],
    which is the argument [run] of the definitions here. *)
From S2P Require Import Prelude Storage Graph EngineStore Throttle Authz Risk Tools Runtime Governance Human.
From S2P Require Import Admission DagRun Routing Lifecycle.
From Stdlib Require Import Ascii Floats.SpecFloat.

Definition EvalEvaluatorRunSucceeded : string := "run_succeeded".
Definition EvalEvaluatorNodeOutputExact : string := "node_output_exact".
Definition evalDatasetIndexKey : string := "evals/datasets/index".
Definition evalSuiteIndexKey : string := "evals/suites/index".
Definition evalReportIndexKey : string := "evals/reports/index".

Record EvalCase : Type := mkCase {
  ec_ID : string;
  ec_Name : string;
  ec_SourceRunID : string;
  ec_Spec : bytes;
  ec_Input : bytes;
  ec_TargetNodeID : string;
  ec_ExpectedOutput : bytes;
  ec_Labels : gmap string string
}.
Record EvalDataset : Type := mkDataset {
  ed_ID : string;
  ed_Name : string;
  ed_Description : string;
  ed_Cases : list EvalCase;
  ed_CreatedAt : option Time;
  ed_UpdatedAt : option Time
}.
Record EvalSuite : Type := mkSuite {
  es_ID : string;
  es_Name : string;
  es_Description : string;
  es_DatasetID : string;
  es_Evaluator : string;
  es_TargetNodeID : string;
  es_PassThreshold : float64;
  es_CreatedAt : option Time;
  es_UpdatedAt : option Time
}.
Record EvalRunRequest : Type := mkEvalRequest {
  eq_EvalRunID : string; eq_SuiteID : string; eq_SpecOverride : bytes
}.
Record EvalCaseResult : Type := mkCaseResult {
  cr_CaseID : string;
  cr_Name : string;
  cr_SourceRunID : string;
  cr_RunID : string;
  cr_RunStatus : string;
  cr_Passed : bool;
  cr_Score : float64;
  cr_Reason : string;
  cr_TargetNodeID : string;
  cr_ExpectedOutput : bytes;
  cr_ActualOutput : bytes
}.
Record EvalReport : Type := mkReport {
  evr_ID : string;
  evr_SuiteID : string;
  evr_DatasetID : string;
  evr_Status : string;
  evr_Evaluator : string;
  evr_TargetNodeID : string;
  evr_PassThreshold : float64;
  evr_CaseCount : Z;
  evr_PassedCount : Z;
  evr_PassRate : float64;
  evr_Passed : bool;
  evr_CreatedAt : option Time;
  evr_CompletedAt : option Time;
  evr_Results : list EvalCaseResult
}.
Definition AvailableEvalEvaluators : list string := [EvalEvaluatorRunSucceeded; EvalEvaluatorNodeOutputExact].

(** ** Helpers *)
(** The last of the succeeded executions of a node by attempt; attempts count from 0. *)
Fixpoint latestOutput (nodes : list NodeExecution) (nodeID : string) (best : Z) (output : bytes) : Z * bytes :=
  match nodes with
  | [] => (best, output)
  | ne :: nodes =>
    if decide (n_NodeID ne <> nodeID \/ n_Status ne <> NodeStatusSucceeded) then latestOutput nodes nodeID best output
    else if best <? n_Attempt ne then latestOutput nodes nodeID (n_Attempt ne) (n_Output ne)
    else latestOutput nodes nodeID best output
  end.
Definition latestNodeOutput (nodes : list NodeExecution) (nodeID : string) : option bytes :=
  let '(best, output) := latestOutput nodes nodeID (-1) [] in if best <? 0 then None else Some output.
Definition firstNonEmpty (values : list string) : string :=
  default "" (List.find (fun v => negb (bool_decide (v = ""))) (TrimSpace <$> values)).
(** [strings.NewReplacer] of single characters by a dash, then [strings.Trim(s, "-")]. *)
Definition dashed (a : ascii) : ascii :=
  if decide (a ∈ ["/"; "\"; " "; ascii_of_nat 9; ascii_of_nat 10; ":"; "."; "@"]%char) then "-"%char else a.
Fixpoint dropDashes (l : list ascii) : list ascii :=
  match l with [] => [] | a :: k => if Ascii.eqb a "-" then dropDashes k else l end.
Definition trimDashes (l : list ascii) : list ascii := reverse (dropDashes (reverse (dropDashes l))).
Definition sanitizeEvalRunID (s : string) : string :=
  let s := TrimSpace s in
  if decide (s = "") then "case"
  else let s := unchars (trimDashes (dashed <$> chars s)) in if decide (s = "") then "case" else s.

(** The encodings of this layer. *)
Class EvalJSON : Type := {
  #[global] json_dataset :: JSON EvalDataset;
  #[global] json_suite :: JSON EvalSuite;
  #[global] json_evalReport :: JSON EvalReport
}.

Section validation.
Context `{JSON json} `{JSONSyntax}.
Definition validateOptionalJSON (name : string) (b : bytes) : option error :=
  if decide (b = []) then None
  else if validJSON b then None else Some (ENew (name +:+ " must be valid json")).
(** Equal as values: both are decoded and encoded again. *)
Definition jsonEqual (a b : bytes) : bool :=
  match unmarshal (T := json) a, unmarshal (T := json) b with
  | inl va, inl vb =>
    match marshal va, marshal vb with inl lb, inl rb => bool_decide (lb = rb) | _, _ => false end
  | _, _ => false
  end.

Definition normalizeCase (c : EvalCase) : EvalCase :=
  mkCase (TrimSpace (ec_ID c)) (TrimSpace (ec_Name c)) (TrimSpace (ec_SourceRunID c)) (ec_Spec c) (ec_Input c)
    (TrimSpace (ec_TargetNodeID c)) (ec_ExpectedOutput c) (ec_Labels c).
Definition caseError (c : EvalCase) : option error :=
  match validateOptionalJSON "eval case spec" (ec_Spec c) with
  | Some err => Some err
  | None =>
    match validateOptionalJSON "eval case input" (ec_Input c) with
    | Some err => Some err
    | None => validateOptionalJSON "eval case expected_output" (ec_ExpectedOutput c)
    end
  end.
Fixpoint normalizeCases (cases : list EvalCase) (seen : gset string) : list EvalCase + error :=
  match cases with
  | [] => inl []
  | c :: cases =>
    let c := normalizeCase c in
    if decide (ec_ID c = "") then inr (ENew "eval case id is required")
    else if decide (ec_ID c ∈ seen) then inr (ENew ("duplicate eval case id " +:+ Quote (ec_ID c)))
    else match caseError c with
         | Some err => inr err
         | None => match normalizeCases cases ({[ec_ID c]} ∪ seen) with
                   | inr err => inr err
                   | inl cases => inl (c :: cases)
                   end
         end
  end.
Definition normalizeDataset (d : EvalDataset) : EvalDataset + error :=
  let id := TrimSpace (ed_ID d) in
  if decide (id = "") then inr (ENew "eval dataset id is required")
  else match normalizeCases (ed_Cases d) ∅ with
       | inr err => inr err
       | inl cases => inl (mkDataset id (TrimSpace (ed_Name d)) (TrimSpace (ed_Description d)) cases
                             (ed_CreatedAt d) (ed_UpdatedAt d))
       end.
Definition normalizeSuite (s : EvalSuite) : EvalSuite + error :=
  let id := TrimSpace (es_ID s) in
  let datasetID := TrimSpace (es_DatasetID s) in
  let target := TrimSpace (es_TargetNodeID s) in
  if decide (id = "") then inr (ENew "eval suite id is required")
  else if decide (datasetID = "") then inr (ENew "eval suite dataset_id is required")
  else if decide (es_Evaluator s <> EvalEvaluatorRunSucceeded /\ es_Evaluator s <> EvalEvaluatorNodeOutputExact)
  then inr (ENew ("unsupported eval evaluator " +:+ Quote (es_Evaluator s)))
  else if fltb (es_PassThreshold s) fzero || fltb fone (es_PassThreshold s)
  then inr (ENew "eval suite pass_threshold must be between 0 and 1")
  else if decide (es_Evaluator s = EvalEvaluatorNodeOutputExact /\ target = "")
  then inr (ENew ("eval suite target_node_id is required for " +:+ es_Evaluator s))
  else inl (mkSuite id (TrimSpace (es_Name s)) (TrimSpace (es_Description s)) datasetID (es_Evaluator s) target
              (if feqb (es_PassThreshold s) fzero then fone else es_PassThreshold s)
              (es_CreatedAt s) (es_UpdatedAt s)).
Definition normalizeReport (x : EvalReport) : EvalReport + error :=
  let x := mkReport (TrimSpace (evr_ID x)) (TrimSpace (evr_SuiteID x)) (TrimSpace (evr_DatasetID x))
             (TrimSpace (evr_Status x)) (evr_Evaluator x) (TrimSpace (evr_TargetNodeID x)) (evr_PassThreshold x)
             (evr_CaseCount x) (evr_PassedCount x) (evr_PassRate x) (evr_Passed x) (evr_CreatedAt x)
             (evr_CompletedAt x) (evr_Results x) in
  if decide (evr_ID x = "") then inr (ENew "eval report id is required")
  else if decide (evr_SuiteID x = "") then inr (ENew "eval report suite_id is required")
  else if decide (evr_DatasetID x = "") then inr (ENew "eval report dataset_id is required")
  else if decide (evr_Status x = "") then inr (ENew "eval report status is required")
  else inl x.
End validation.

Definition evalDatasetKey (id : string) : string := "evals/datasets/" +:+ TrimSpace id.
Definition evalSuiteKey (id : string) : string := "evals/suites/" +:+ TrimSpace id.
Definition evalReportKey (id : string) : string := "evals/reports/" +:+ TrimSpace id.

Section evals.
Context {S F A : Type} `{Store S} `{ArtifactStore A} `{Ambient} `{MapOrder} `{EngineJSON} `{JSONSyntax} `{EvalJSON}.
Variable decodeSpec : bytes -> WorkflowSpec + error.
Implicit Types r : Runner S F A.

(** ** Datasets *)
Definition GetEvalDataset (id : string) r : option (EvalDataset + error) := getJSONKV (evalDatasetKey id) r.
(** A stored value keeps the instant of its creation. *)
Definition createdAt (existing given : option Time) (now : Time) : option Time :=
  match existing with Some t => Some t | None => Some (default now given) end.
Definition SaveEvalDataset (now : Time) (d : EvalDataset) r : Runner S F A * option error :=
  match normalizeDataset d with
  | inr err => (r, Some err)
  | inl d =>
    let save created :=
      let d := mkDataset (ed_ID d) (ed_Name d) (ed_Description d) (ed_Cases d) created (Some now) in
      match putJSONKV (evalDatasetKey (ed_ID d)) d r with
      | (r, Some err) => (r, Some err)
      | (r, None) => upsertIndexID evalDatasetIndexKey (ed_ID d) r
      end in
    match GetEvalDataset (ed_ID d) r with
    | Some (inr err) => (r, Some err)
    | Some (inl e) => save (createdAt (ed_CreatedAt e) (ed_CreatedAt d) now)
    | None => save (createdAt None (ed_CreatedAt d) now)
    end
  end.
(** The values of an index that are stored; the first that cannot be read is an error. *)
Fixpoint storedRows {T} (get : string -> option (T + error)) (ids : list string) : list T + error :=
  match ids with
  | [] => inl []
  | id :: ids =>
    match get id with
    | Some (inr err) => inr err
    | None => storedRows get ids
    | Some (inl x) => match storedRows get ids with inr err => inr err | inl xs => inl (x :: xs) end
    end
  end.
Definition ListEvalDatasets r : list EvalDataset + error :=
  match indexIDs evalDatasetIndexKey r with
  | inr err => inr err
  | inl ids => storedRows (fun id => GetEvalDataset id r) ids
  end.

(** ** Suites *)
Definition GetEvalSuite (id : string) r : option (EvalSuite + error) := getJSONKV (evalSuiteKey id) r.
Definition SaveEvalSuite (now : Time) (s : EvalSuite) r : Runner S F A * option error :=
  match normalizeSuite s with
  | inr err => (r, Some err)
  | inl s =>
    match GetEvalDataset (es_DatasetID s) r with
    | Some (inr err) => (r, Some err)
    | None => (r, Some (ENew ("eval dataset " +:+ Quote (es_DatasetID s) +:+ " not found")))
    | Some (inl _) =>
      let save created :=
        let s := mkSuite (es_ID s) (es_Name s) (es_Description s) (es_DatasetID s) (es_Evaluator s)
                   (es_TargetNodeID s) (es_PassThreshold s) created (Some now) in
        match putJSONKV (evalSuiteKey (es_ID s)) s r with
        | (r, Some err) => (r, Some err)
        | (r, None) => upsertIndexID evalSuiteIndexKey (es_ID s) r
        end in
      match GetEvalSuite (es_ID s) r with
      | Some (inr err) => (r, Some err)
      | Some (inl e) => save (createdAt (es_CreatedAt e) (es_CreatedAt s) now)
      | None => save (createdAt None (es_CreatedAt s) now)
      end
    end
  end.
Definition ListEvalSuites r : list EvalSuite + error :=
  match indexIDs evalSuiteIndexKey r with
  | inr err => inr err
  | inl ids => storedRows (fun id => GetEvalSuite id r) ids
  end.

(** ** Reports *)
Definition SaveEvalReport (x : EvalReport) r : Runner S F A * option error :=
  match normalizeReport x with
  | inr err => (r, Some err)
  | inl x =>
    match putJSONKV (evalReportKey (evr_ID x)) x r with
    | (r, Some err) => (r, Some err)
    | (r, None) => upsertIndexID evalReportIndexKey (evr_ID x) r
    end
  end.
Definition GetEvalReport (id : string) r : option (EvalReport + error) := getJSONKV (evalReportKey id) r.
(** The newest first, those without an instant last. *)
Definition report_less (a b : EvalReport) : bool :=
  let ti := default zeroTime (evr_CreatedAt a) in
  let tj := default zeroTime (evr_CreatedAt b) in
  if bool_decide (ti = tj) then string_lt (evr_ID a) (evr_ID b)
  else if IsZero ti then false else if IsZero tj then true else After ti tj.
Definition ListEvalReports r : list EvalReport + error :=
  match indexIDs evalReportIndexKey r with
  | inr err => inr err
  | inl ids => match storedRows (fun id => GetEvalReport id r) ids with
               | inr err => inr err
               | inl xs => inl (sortSlice report_less xs)
               end
  end.

(** ** Running a specification (runner_spec.go) *)
(** Without a registry the runner's is used; a runner that has none remembers the one given. *)
Definition rememberRegistry (ctx : Ctx) (reg : option (HandlerRegistry F)) r :
    Runner S F A * option (HandlerRegistry F) :=
  let tenantID := effectiveTenantFromContext ctx in
  match reg, HandlerRegistryForTenant tenantID r with
  | None, own => (r, own)
  | Some _, Some _ => (r, reg)
  | Some _, None =>
    (if decide (tenantID <> "") then SetTenantHandlerRegistry tenantID reg r else SetHandlerRegistry reg r, reg)
  end.
Definition RunSpecJSON (run : RunRequest F -> Runner S F A -> Runner S F A * option error) (ctx : Ctx)
    (runID : string) (specJSON : bytes) (reg : option (HandlerRegistry F)) (input : bytes) r :
    Runner S F A * option error :=
  let '(r, reg) := rememberRegistry ctx reg r in
  match ParseWorkflowSpecJSON decodeSpec specJSON with
  | inr err => (r, Some err)
  | inl (g, spec) =>
    match CompileSpecToExecutable spec g reg with
    | inr err => (r, Some err)
    | inl exec => run (mkRequest _ runID exec input specJSON None) r
    end
  end.

(** ** Cases *)
Definition resolveEvalCaseSpecAndInput (c : EvalCase) (specOverride : bytes) r : bytes * bytes + error :=
  match (if decide (ec_SourceRunID c = "") then inl None
         else match GetRun (ec_SourceRunID c) (rn_store r) with
              | None => inr (ENew ("source run " +:+ Quote (ec_SourceRunID c) +:+ " not found"))
              | Some run => inl (Some run)
              end) with
  | inr err => inr err
  | inl src =>
    let orElseBytes (a b : bytes) := if decide (a = []) then b else a in
    let srcSpec := from_option r_Spec [] src in
    let srcInput := from_option r_InitialInput [] src in
    let spec := orElseBytes specOverride (orElseBytes (ec_Spec c) srcSpec) in
    let input := orElseBytes (ec_Input c) (orElseBytes srcInput emptyObject) in
    if decide (spec = []) then inr (ENew ("eval case " +:+ Quote (ec_ID c) +:+ " has no workflow spec"))
    else if negb (validJSON spec)
    then inr (ENew ("eval case " +:+ Quote (ec_ID c) +:+ " resolved invalid workflow spec"))
    else if negb (bool_decide (input = [])) && negb (validJSON input)
    then inr (ENew ("eval case " +:+ Quote (ec_ID c) +:+ " resolved invalid input"))
    else inl (spec, input)
  end.

Definition caseRunID (reportID : string) (c : EvalCase) : string :=
  reportID +:+ "-case-" +:+ sanitizeEvalRunID (ec_ID c).
Definition caseResult (suite : EvalSuite) (c : EvalCase) (runID status : string) (passed : bool) (reason : string)
    (actual : bytes) : EvalCaseResult :=
  mkCaseResult (ec_ID c) (ec_Name c) (ec_SourceRunID c) runID status passed (if passed then fone else fzero) reason
    (firstNonEmpty [ec_TargetNodeID c; es_TargetNodeID suite]) (ec_ExpectedOutput c) actual.
(** The evaluators. *)
Definition judgeRun (suite : EvalSuite) (c : EvalCase) (runID : string) r : EvalCaseResult :=
  let run := GetRun runID (rn_store r) in
  let res := caseResult suite c runID (from_option r_Status "" run) in
  if decide (es_Evaluator suite = EvalEvaluatorRunSucceeded) then
    match run with
    | Some run => if decide (r_Status run = RunStatusSucceeded) then res true "run succeeded" []
                  else res false ("run status=" +:+ r_Status run) []
    | None => res false "run result unavailable" []
    end
  else if decide (es_Evaluator suite = EvalEvaluatorNodeOutputExact) then
    let target := firstNonEmpty [ec_TargetNodeID c; es_TargetNodeID suite] in
    if decide (target = "") then res false "target_node_id is required" []
    else match latestNodeOutput (ListNodeExecutions runID (rn_store r)) target with
         | None => res false ("node output not found for " +:+ target) []
         | Some output =>
           if decide (ec_ExpectedOutput c = []) then res false "expected_output is required" output
           else if jsonEqual (ec_ExpectedOutput c) output then res true "exact output match" output
           else res false "output mismatch" output
         end
  else res false ("unsupported evaluator " +:+ Quote (es_Evaluator suite)) [].
(** The verdict on a run that was made; a failed node is not an error here. *)
Definition judgeCase (suite : EvalSuite) (c : EvalCase) (runID : string) (runErr : option error) r : EvalCaseResult :=
  match runErr with
  | Some err =>
    if unwrapsTo err ErrNodeFailed then judgeRun suite c runID r
    else caseResult suite c runID (from_option r_Status "" (GetRun runID (rn_store r))) false (Error err) []
  | None => judgeRun suite c runID r
  end.
Definition runEvalCase (run : RunRequest F -> Runner S F A -> Runner S F A * option error) (ctx : Ctx)
    (reportID : string) (suite : EvalSuite) (c : EvalCase) (specOverride : bytes) r :
    Runner S F A * EvalCaseResult :=
  match resolveEvalCaseSpecAndInput c specOverride r with
  | inr err => (r, caseResult suite c "" "" false (Error err) [])
  | inl (spec, input) =>
    let runID := caseRunID reportID c in
    match rn_registry r with
    | None => (r, caseResult suite c runID "" false "no handler registry configured on runner" [])
    | Some reg =>
      let '(r, runErr) := RunSpecJSON run ctx runID spec (Some reg) input r in
      (r, judgeCase suite c runID runErr r)
    end
  end.
Fixpoint runEvalCases (run : RunRequest F -> Runner S F A -> Runner S F A * option error) (ctx : Ctx)
    (reportID : string) (suite : EvalSuite) (cases : list EvalCase) (specOverride : bytes) r :
    Runner S F A * list EvalCaseResult :=
  match cases with
  | [] => (r, [])
  | c :: cases =>
    let '(r, x) := runEvalCase run ctx reportID suite c specOverride r in
    let '(r, xs) := runEvalCases run ctx reportID suite cases specOverride r in (r, x :: xs)
  end.

(** ** Suites run *)
Definition passedCount (results : list EvalCaseResult) : Z := zlen (filter (fun x => cr_Passed x = true) results).
Definition startedReport (now : Time) (reportID : string) (suite : EvalSuite) (d : EvalDataset) : EvalReport :=
  mkReport reportID (es_ID suite) (ed_ID d) "running" (es_Evaluator suite) (es_TargetNodeID suite)
    (es_PassThreshold suite) (zlen (ed_Cases d)) 0 fzero false (Some now) None [].
Definition completedReport (completed : Time) (results : list EvalCaseResult) (x : EvalReport) : EvalReport :=
  let passed := passedCount results in
  let rate := if 0 <? evr_CaseCount x then fdiv (ofInt passed) (ofInt (evr_CaseCount x)) else evr_PassRate x in
  mkReport (evr_ID x) (evr_SuiteID x) (evr_DatasetID x) "completed" (evr_Evaluator x) (evr_TargetNodeID x)
    (evr_PassThreshold x) (evr_CaseCount x) passed rate (fleb (evr_PassThreshold x) rate) (evr_CreatedAt x)
    (Some completed) results.
Definition RunEvalSuite (run : RunRequest F -> Runner S F A -> Runner S F A * option error) (ctx : Ctx)
    (now completed : Time) (q : EvalRunRequest) r : Runner S F A * (EvalReport + error) :=
  let suiteID := TrimSpace (eq_SuiteID q) in
  let evalRunID := TrimSpace (eq_EvalRunID q) in
  if decide (suiteID = "") then (r, inr (ENew "suite_id is required"))
  else
    match validateOptionalJSON "eval run spec_override" (eq_SpecOverride q) with
    | Some err => (r, inr err)
    | None =>
      match GetEvalSuite suiteID r with
      | Some (inr err) => (r, inr err)
      | None => (r, inr (ENew ("eval suite " +:+ Quote suiteID +:+ " not found")))
      | Some (inl suite) =>
        match GetEvalDataset (es_DatasetID suite) r with
        | Some (inr err) => (r, inr err)
        | None => (r, inr (ENew ("eval dataset " +:+ Quote (es_DatasetID suite) +:+ " not found")))
        | Some (inl d) =>
          let reportID := if decide (evalRunID = "") then "eval-" +:+ formatTime now else evalRunID in
          let x := startedReport now reportID suite d in
          match SaveEvalReport x r with
          | (r, Some err) => (r, inr err)
          | (r, None) =>
            let '(r, results) := runEvalCases run ctx reportID suite (ed_Cases d) (eq_SpecOverride q) r in
            let x := completedReport completed results x in
            match SaveEvalReport x r with
            | (r, Some err) => (r, inr err)
            | (r, None) => (r, inl x)
            end
          end
        end
      end
    end.

(** ** Capturing a run as a case *)
Definition replaceCase (c : EvalCase) (cases : list EvalCase) : list EvalCase :=
  match list_find (fun x => ec_ID x = ec_ID c) cases with
  | Some (i, _) => <[i := c]> cases
  | None => sortSlice (fun a b => string_lt (ec_ID a) (ec_ID b)) (cases ++ [c])
  end.
Definition capturedCase (run : Run) (caseID name nodeID : string) r : EvalCase :=
  let caseID := TrimSpace caseID in
  let nodeID := TrimSpace nodeID in
  let caseID := if decide (caseID <> "") then caseID
                else "run-" +:+ sanitizeEvalRunID (r_RunID run) +:+
                     (if decide (nodeID = "") then "" else "-" +:+ sanitizeEvalRunID nodeID) in
  let name := if decide (TrimSpace name = "") then caseID else TrimSpace name in
  let labels : gmap string string :=
    <["captured_from_run" := "true"]> (<["source_run_status" := r_Status run]> ∅) in
  mkCase caseID name (r_RunID run) (r_Spec run) (r_InitialInput run) nodeID
    (if decide (nodeID = "") then []
     else default [] (latestNodeOutput (ListNodeExecutions (r_RunID run) (rn_store r)) nodeID))
    (if decide (nodeID = "") then labels else <["source_node_id" := nodeID]> labels).
(** Saving trims the cases in place, so the dataset returned has them trimmed. *)
Definition CreateEvalCaseFromRun (now : Time) (datasetID caseID name runID nodeID : string) r :
    Runner S F A * (EvalDataset * EvalCase + error) :=
  match GetEvalDataset datasetID r with
  | Some (inr err) => (r, inr err)
  | None => (r, inr (ENew ("eval dataset " +:+ Quote datasetID +:+ " not found")))
  | Some (inl d) =>
    match GetRun (TrimSpace runID) (rn_store r) with
    | None => (r, inr (ENew ("run " +:+ Quote runID +:+ " not found")))
    | Some run =>
      let c := capturedCase run caseID name nodeID r in
      let withCases cases := mkDataset (ed_ID d) (ed_Name d) (ed_Description d) cases (ed_CreatedAt d) (ed_UpdatedAt d) in
      let cases := replaceCase c (ed_Cases d) in
      match SaveEvalDataset now (withCases cases) r with
      | (r, Some err) => (r, inr err)
      | (r, None) => (r, inl (withCases (normalizeCase <$> cases), c))
      end
    end
  end.

(** ** The gate of a promotion *)
Definition PromoteRunWithEvalGate (evalRunID runID version : string) r : Runner S F A * (string + error) :=
  match GetEvalReport evalRunID r with
  | Some (inr err) => (r, inr err)
  | None => (r, inr (ENew ("eval report " +:+ Quote evalRunID +:+ " not found")))
  | Some (inl x) =>
    if decide (evr_Status x <> "completed")
    then (r, inr (ENew ("eval report " +:+ Quote evalRunID +:+ " status=" +:+ evr_Status x +:+ " (need completed)")))
    else if negb (evr_Passed x)
    then (r, inr (ENew ("eval report " +:+ Quote evalRunID +:+ " did not pass promotion gate")))
    else onStore (PromoteIndexVersion runID version) r
  end.
End evals.
