(* ===== verification/SelfHealing.v ===== *)
(** * Recovery of failed runs (internal/engine/self_healing.go)

    A run that has failed is captured: an artifact under a key made of the name of the run says
    which nodes failed, which replays may help and how to run it again more safely, and the run
    becomes a case of an evaluation dataset of its workflow.  A capture is read, listed, and
    replayed along its plan; the graph runner is the argument [run]. *)
From S2P Require Import Prelude Storage Graph EngineStore Throttle Authz Risk Tools Runtime Governance CallContext.
From S2P Require Import AgentState Human Admission DagRun Lifecycle Evals.

Definition EventSelfHealingArtifactCreated : string := "self_healing_artifact_created".
Definition selfHealingArtifactIndexKey : string := "self_heal/artifacts/index".

Record SelfHealingFailureNode : Type := mkFailureNode {
  fn_NodeID : string;
  fn_Attempt : Z;
  fn_Error : string;
  fn_StartedAt : option Time;
  fn_EndedAt : option Time
}.
Record SelfHealingReplaySuggestion : Type := mkSuggestion { su_FromStep : string; su_Mode : string; su_Reason : string }.
Record SelfHealingRerunPlan : Type := mkPlan {
  pl_FromStep : string; pl_Mode : string; pl_SideEffectMode : string; pl_Notes : list string
}.
Record SelfHealingArtifact : Type := mkHealing {
  sh_ID : string;
  sh_CreatedAt : Time;
  sh_UpdatedAt : Time;
  sh_TenantID : string;
  sh_RunID : string;
  sh_WorkflowID : string;
  sh_RunStatus : string;
  sh_TerminalReason : string;
  sh_FailureNodeID : string;
  sh_FailureAttempt : Z;
  sh_FailureError : string;
  sh_FailureNodes : list SelfHealingFailureNode;
  sh_ReplaySuggestions : list SelfHealingReplaySuggestion;
  sh_SaferRerun : SelfHealingRerunPlan;
  sh_EvalDatasetID : string;
  sh_EvalCaseID : string;
  sh_EvalCaseName : string;
  sh_SourceSpecCaptured : bool
}.

Definition selfHealingArtifactKey (id : string) : string := "self_heal/artifacts/" +:+ PathEscape (TrimSpace id).
Definition selfHealingArtifactID (runID : string) : string := "self-heal-" +:+ sanitizeEvalRunID runID.
Definition selfHealingDatasetID (workflowID : string) : string := "self-heal-failures-" +:+ sanitizeEvalRunID workflowID.
Definition selfHealingCaseID (runID : string) : string := "failure-" +:+ sanitizeEvalRunID runID.
Definition cloneSelfHealingArtifact (x : SelfHealingArtifact) : SelfHealingArtifact :=
  mkHealing (TrimSpace (sh_ID x)) (sh_CreatedAt x) (sh_UpdatedAt x) (TrimSpace (sh_TenantID x)) (TrimSpace (sh_RunID x))
    (TrimSpace (sh_WorkflowID x)) (sh_RunStatus x) (TrimSpace (sh_TerminalReason x)) (TrimSpace (sh_FailureNodeID x))
    (sh_FailureAttempt x) (TrimSpace (sh_FailureError x)) (sh_FailureNodes x) (sh_ReplaySuggestions x) (sh_SaferRerun x)
    (TrimSpace (sh_EvalDatasetID x)) (TrimSpace (sh_EvalCaseID x)) (TrimSpace (sh_EvalCaseName x)) (sh_SourceSpecCaptured x).
Class HealingJSON : Type := { #[global] json_healing :: JSON SelfHealingArtifact }.

(** ** What failed *)
(** The latest attempt of every node; of two entries of one attempt the one that ended later. *)
Definition latestExecution (out : gmap string NodeExecution) (node : NodeExecution) : gmap string NodeExecution :=
  match out !! n_NodeID node with
  | None => <[n_NodeID node := node]> out
  | Some existing =>
    if n_Attempt existing <? n_Attempt node then <[n_NodeID node := node]> out
    else if (n_Attempt node =? n_Attempt existing) &&
            After (default zeroTime (n_EndedAt node)) (default zeroTime (n_EndedAt existing))
    then <[n_NodeID node := node]> out
    else out
  end.
Definition latestNodeExecutionByNode (nodes : list NodeExecution) : gmap string NodeExecution :=
  foldl latestExecution ∅ nodes.
Definition failureOf (node : NodeExecution) : SelfHealingFailureNode :=
  mkFailureNode (n_NodeID node) (n_Attempt node) (TrimSpace (n_Error node)) (n_StartedAt node) (n_EndedAt node).
Definition hasFailed (latest : gmap string NodeExecution) (id : string) : bool :=
  match latest !! id with Some node => bool_decide (n_Status node = NodeStatusFailed) | None => false end.
Definition failuresOf (latest : gmap string NodeExecution) (ids : list string) : list SelfHealingFailureNode :=
  omap (fun id => failureOf <$> latest !! id) ids.
Definition failureNodesFromRun (nodes : list NodeExecution) (orderedNodeIDs : list string) : list SelfHealingFailureNode :=
  let latest := latestNodeExecutionByNode nodes in
  let failed := filter (fun id => hasFailed latest id = true) (elements (dom latest)) in
  if negb (bool_decide (orderedNodeIDs = [])) then
    let inOrder := filter (fun id => hasFailed latest id = true) orderedNodeIDs in
    let keys := filter (fun id => id ∉ inOrder) failed in
    failuresOf latest (inOrder ++ sortStrings keys)
  else failuresOf latest (sortStrings failed).
(** Backwards from the failed node, the first node that has succeeded; [before] is reversed. *)
Fixpoint lastSucceeded (latest : gmap string NodeExecution) (before : list string) : string :=
  match before with
  | [] => ""
  | id :: before =>
    match latest !! id with
    | Some node => if decide (n_Status node = NodeStatusSucceeded) then n_NodeID node else lastSucceeded latest before
    | None => lastSucceeded latest before
    end
  end.
Definition previousSucceededCheckpoint (failureNodeID : string) (orderedNodeIDs : list string)
    (latest : gmap string NodeExecution) : string :=
  if decide (failureNodeID = "") then ""
  else match list_find (fun id => id = failureNodeID) orderedNodeIDs with
       | None => ""
       | Some (index, _) => lastSucceeded latest (reverse (take index orderedNodeIDs))
       end.

(** ** How to go on *)
Definition buildReplaySuggestions (failureNodeID checkpoint : string) : list SelfHealingReplaySuggestion :=
  let out :=
    (if decide (failureNodeID = "") then []
     else [mkSuggestion failureNodeID ReplayTimeTravel "reuse successful upstream outputs and retry from the failed step";
           mkSuggestion failureNodeID ReplayLive "force a fresh execution starting at the failed step"]) ++
    (if decide (checkpoint = "" \/ checkpoint = failureNodeID) then []
     else [mkSuggestion checkpoint ReplayTimeTravel "resume from the last succeeded checkpoint and replay downstream work"]) in
  if decide (out = []) then [mkSuggestion "" ReplayLive "rerun the workflow from the beginning"] else out.
Definition buildSaferRerunPlan (failureNodeID checkpoint : string) : SelfHealingRerunPlan :=
  let note := "use dry-run side-effect mode first so recovery reruns stay safer while validating a fix" in
  if decide (failureNodeID <> "") then
    mkPlan failureNodeID ReplayTimeTravel SideEffectModeDryRun
      [note; "time-travel replay keeps previously successful upstream outputs"]
  else if decide (checkpoint <> "") then
    mkPlan checkpoint ReplayTimeTravel SideEffectModeDryRun
      [note; "resume from the last successful checkpoint instead of rerunning everything"]
  else mkPlan "" ReplayLive SideEffectModeDryRun [note].

(** ** Evaluation cases *)
Definition noDataset : EvalDataset := mkDataset "" "" "" [] None None.
Definition noFailure : SelfHealingFailureNode := mkFailureNode "" 0 "" None None.
Definition healingLabels (run : Run) (primary : SelfHealingFailureNode) (labels : gmap string string) : gmap string string :=
  let labels := <["terminal_reason" := TrimSpace (r_TerminalReason run)]> (<["self_heal" := "true"]> labels) in
  let labels := if decide (fn_NodeID primary = "") then labels else <["failure_node_id" := fn_NodeID primary]> labels in
  if decide (fn_Error primary = "") then labels else <["failure_error" := fn_Error primary]> labels.
Fixpoint putCase (c : EvalCase) (cases : list EvalCase) : list EvalCase :=
  match cases with
  | [] => []
  | x :: cases => if decide (ec_ID x = ec_ID c) then c :: cases else x :: putCase c cases
  end.
Definition enrichSelfHealingEvalCase (d : EvalDataset) (c : EvalCase) (run : Run) (primary : SelfHealingFailureNode) :
    EvalDataset * EvalCase :=
  let c := mkCase (ec_ID c) (ec_Name c) (ec_SourceRunID c) (ec_Spec c) (ec_Input c) (ec_TargetNodeID c)
             (ec_ExpectedOutput c) (healingLabels run primary (ec_Labels c)) in
  (mkDataset (ed_ID d) (ed_Name d) (ed_Description d) (putCase c (ed_Cases d)) (ed_CreatedAt d) (ed_UpdatedAt d), c).

Section healing.
Context {S F A : Type} `{Store S} `{ArtifactStore A} `{Ambient} `{MapOrder} `{EngineJSON} `{JSONSyntax} `{EvalJSON} `{HealingJSON}.
Variable decodeSpec : bytes -> WorkflowSpec + error.
Implicit Types r : Runner S F A.

Definition nodeOrderFromSpec (spec : bytes) : list string :=
  if decide (spec = []) then []
  else match ParseWorkflowSpecJSON (F := F) decodeSpec spec with
       | inr _ => []
       | inl (g, _) => NodeID <$> Nodes g
       end.

(** ** The stored artifacts *)
Definition normalizeHealing (now : Time) (x : SelfHealingArtifact) : SelfHealingArtifact :=
  let id := TrimSpace (sh_ID x) in
  let id := if decide (id = "") then selfHealingArtifactID (sh_RunID x) else id in
  mkHealing id (if IsZero (sh_CreatedAt x) then now else sh_CreatedAt x) now (TrimSpace (sh_TenantID x))
    (TrimSpace (sh_RunID x)) (TrimSpace (sh_WorkflowID x)) (sh_RunStatus x) (TrimSpace (sh_TerminalReason x))
    (TrimSpace (sh_FailureNodeID x)) (sh_FailureAttempt x) (TrimSpace (sh_FailureError x)) (sh_FailureNodes x)
    (sh_ReplaySuggestions x) (sh_SaferRerun x) (TrimSpace (sh_EvalDatasetID x)) (TrimSpace (sh_EvalCaseID x))
    (TrimSpace (sh_EvalCaseName x)) (sh_SourceSpecCaptured x).
Definition saveSelfHealingArtifact (now : Time) (x : SelfHealingArtifact) r : Runner S F A * option error :=
  let x := normalizeHealing now x in
  match putJSONKV (selfHealingArtifactKey (sh_ID x)) x r with
  | (r, Some err) => (r, Some err)
  | (r, None) => upsertIndexID selfHealingArtifactIndexKey (sh_ID x) r
  end.
(** [None]: there is no such artifact. *)
Definition GetSelfHealingArtifact (ctx : Ctx) (now : Time) (artifactID : string) r :
    Runner S F A * (option SelfHealingArtifact + error) :=
  let artifactID := TrimSpace artifactID in
  if decide (artifactID = "") then (r, inl None)
  else
    match getJSONKV (selfHealingArtifactKey artifactID) r with
    | None => (r, inl None)
    | Some (inr err) => (r, inr err)
    | Some (inl x) =>
      if decide (TrimSpace (sh_TenantID x) = "") then (r, inl (Some (cloneSelfHealingArtifact x)))
      else
        match ensureRunTenantAccess ctx now
                (mkRun (sh_RunID x) (sh_WorkflowID x) "" None None [] [] (sh_TenantID x) "" [] noBudget noUsage)
                "self_heal.artifact" r with
        | (r, Some err) => (r, inr err)
        | (r, None) => (r, inl (Some (cloneSelfHealingArtifact x)))
        end
    end.
Definition GetSelfHealingArtifactByRun (ctx : Ctx) (now : Time) (runID : string) r :
    Runner S F A * (option SelfHealingArtifact + error) :=
  if decide (TrimSpace runID = "") then (r, inl None)
  else GetSelfHealingArtifact ctx now (selfHealingArtifactID (TrimSpace runID)) r.
(** The artifacts are read without the context of the caller. *)
Fixpoint healingRows (now : Time) (ids : list string) (tenantID runID : string) (limit : Z)
    (out : list SelfHealingArtifact) r : Runner S F A * list SelfHealingArtifact :=
  match ids with
  | [] => (r, out)
  | id :: ids =>
    match GetSelfHealingArtifact background now id r with
    | (r, inr _) | (r, inl None) => healingRows now ids tenantID runID limit out r
    | (r, inl (Some x)) =>
      if decide (tenantID <> "" /\ TrimSpace (sh_TenantID x) <> tenantID) then healingRows now ids tenantID runID limit out r
      else if decide (runID <> "" /\ TrimSpace (sh_RunID x) <> runID) then healingRows now ids tenantID runID limit out r
      else
        let out := out ++ [x] in
        if limit <=? zlen out then (r, out) else healingRows now ids tenantID runID limit out r
    end
  end.
Definition ListSelfHealingArtifacts (ctx : Ctx) (now : Time) (runID : string) (limit : Z) r :
    Runner S F A * (list SelfHealingArtifact + error) :=
  let limit := if limit <=? 0 then 100 else limit in
  match indexIDs selfHealingArtifactIndexKey r with
  | inr err => (r, inr err)
  | inl ids =>
    let '(r, out) := healingRows now (reverse ids) (effectiveTenantFromContext ctx) (TrimSpace runID) limit [] r in
    (r, inl out)
  end.

(** ** Capturing *)
(** A dataset that was just saved and is gone again is the empty one. *)
Definition ensureSelfHealingEvalDataset (now : Time) (workflowID : string) r : Runner S F A * (EvalDataset + error) :=
  let datasetID := selfHealingDatasetID workflowID in
  match GetEvalDataset datasetID r with
  | Some (inr err) => (r, inr err)
  | Some (inl d) => (r, inl d)
  | None =>
    match SaveEvalDataset now
            (mkDataset datasetID ("Self-healing failures for " +:+ TrimSpace workflowID)
               "Automatically captured failed runs for recovery, replay, and evaluation." [] None None) r with
    | (r, Some err) => (r, inr err)
    | (r, None) =>
      (r, match GetEvalDataset datasetID r with
          | None => inl noDataset
          | Some res => res
          end)
    end
  end.
(** What a capture says of its run before it has a case. *)
Definition healingOf (runID : string) (run : Run) (nodes : list NodeExecution) : SelfHealingArtifact :=
  let order := nodeOrderFromSpec (r_Spec run) in
  let failures := failureNodesFromRun nodes order in
  let primary := default noFailure (head failures) in
  let checkpoint := previousSucceededCheckpoint (fn_NodeID primary) order (latestNodeExecutionByNode nodes) in
  mkHealing (selfHealingArtifactID runID) zeroTime zeroTime (r_TenantID run) (r_RunID run) (r_WorkflowID run)
    (r_Status run) (r_TerminalReason run) (fn_NodeID primary) (fn_Attempt primary) (fn_Error primary) failures
    (buildReplaySuggestions (fn_NodeID primary) checkpoint) (buildSaferRerunPlan (fn_NodeID primary) checkpoint)
    "" "" "" (negb (bool_decide (r_Spec run = []))).
Definition withCase (datasetID caseID caseName : string) (x : SelfHealingArtifact) : SelfHealingArtifact :=
  mkHealing (sh_ID x) (sh_CreatedAt x) (sh_UpdatedAt x) (sh_TenantID x) (sh_RunID x) (sh_WorkflowID x) (sh_RunStatus x)
    (sh_TerminalReason x) (sh_FailureNodeID x) (sh_FailureAttempt x) (sh_FailureError x) (sh_FailureNodes x)
    (sh_ReplaySuggestions x) (sh_SaferRerun x) datasetID caseID caseName (sh_SourceSpecCaptured x).
Definition healingPayload (x : SelfHealingArtifact) : bytes :=
  marshalOrNil (JObject [("artifact_id", JString (sh_ID x)); ("eval_case_id", JString (sh_EvalCaseID x));
                         ("eval_dataset_id", JString (sh_EvalDatasetID x)); ("failure_node_id", JString (sh_FailureNodeID x));
                         ("safer_rerun_mode", JString (pl_Mode (sh_SaferRerun x)))]).
(** The zero artifact. *)
Definition noHealing : SelfHealingArtifact :=
  mkHealing "" zeroTime zeroTime "" "" "" "" "" "" 0 "" [] [] (mkPlan "" "" "" []) "" "" "" false.
Definition CaptureSelfHealingArtifact (ctx : Ctx) (now : Time) (runID : string) r :
    Runner S F A * (SelfHealingArtifact + error) :=
  let runID := TrimSpace runID in
  match GetRun runID (rn_store r) with
  | None => (r, inr ErrRunNotFound)
  | Some run =>
    match ensureRunTenantAccess ctx now run "self_heal.capture" r with
    | (r, Some err) => (r, inr err)
    | (r, None) =>
      if decide (r_Status run <> RunStatusFailed)
      then (r, inr (ENew ("self-heal: run " +:+ Quote runID +:+ " status=" +:+ r_Status run +:+ " (need failed)")))
      else
        let x := healingOf runID run (ListNodeExecutions runID (rn_store r)) in
        let primary := default noFailure (head (sh_FailureNodes x)) in
        match ensureSelfHealingEvalDataset now (r_WorkflowID run) r with
        | (r, inr err) => (r, inr err)
        | (r, inl d) =>
          match CreateEvalCaseFromRun now (ed_ID d) (selfHealingCaseID (r_RunID run)) ("failure capture for " +:+ r_RunID run)
                  (r_RunID run) "" r with
          | (r, inr err) => (r, inr err)
          | (r, inl (d, c)) =>
            let '(d, c) := enrichSelfHealingEvalCase d c run primary in
            match SaveEvalDataset now d r with
            | (r, Some err) => (r, inr err)
            | (r, None) =>
              let x := withCase (ed_ID d) (ec_ID c) (ec_Name c) x in
              match saveSelfHealingArtifact now x r with
              | (r, Some err) => (r, inr err)
              | (r, None) =>
                let r := emit now (r_RunID run) EventSelfHealingArtifactCreated (r_WorkflowID run) "" 0 (healingPayload x) r in
                let r := appendAuditRecord ctx now
                  (mkAudit "" zeroTime (r_TenantID run) "" "self_heal.capture" "self_heal_artifact" (sh_ID x) (r_RunID run)
                     (r_WorkflowID run) AuditOutcomeAllowed "captured recovery artifacts from failed run") r in
                match GetSelfHealingArtifact ctx now (sh_ID x) r with
                | (r, inr err) => (r, inr err)
                | (r, inl found) => (r, inl (default noHealing found))
                end
              end
            end
          end
        end
    end
  end.
(** An error is only logged. *)
Definition maybeCaptureSelfHealingArtifact (ctx : Ctx) (now : Time) (runID : string) r : Runner S F A :=
  (CaptureSelfHealingArtifact ctx now runID r).1.

(** ** Replaying *)
Definition ReplaySelfHealingArtifact (run : CallCtx -> RunRequest F -> Runner S F A -> Runner S F A * option error)
    (ctx : CallCtx) (now : Time) (runID : string) r : Runner S F A * (SelfHealingArtifact + error) * option error :=
  let '(r, res) :=
    match GetSelfHealingArtifactByRun ctx now runID r with
    | (r, inr err) => (r, inr err)
    | (r, inl (Some x)) => (r, inl x)
    | (r, inl None) => CaptureSelfHealingArtifact ctx now runID r
    end in
  match res with
  | inr err => (r, inr err, Some err)
  | inl x =>
    let replayCtx := WithSideEffectMode (pl_SideEffectMode (sh_SaferRerun x)) ctx in
    let '(r, err) := ReplayFrom decodeSpec (fun _ => run replayCtx) replayCtx now (sh_RunID x)
                       (pl_FromStep (sh_SaferRerun x)) (pl_Mode (sh_SaferRerun x)) r in
    (r, inl x, err)
  end.
End healing.
