(* ===== verification/RunWorkflow.v ===== *)
(** * The sequential runner (RunWorkflow of internal/engine/runner.go)

    A workflow without edges: its nodes run one after the other, each on the output of the one
    before it, until one fails or the context of the caller is done.  The handlers of the nodes
    are the argument [handler]; through their context they reach the engine, so that they map
    the runner to a new one.  What the world contributes to the [i]-th node (whether the context is
    done, the instants) is [world i]; [world] at the number of nodes is the end of the run.
    Logs, spans and metrics are left out. *)
From S2P Require Import Prelude Storage Graph EngineStore Throttle Authz Risk Tools Runtime Governance CallContext Gateway.
From S2P Require Import AgentState Human Admission DagRun Routing SideEffects Lifecycle Evals SelfHealing.
From Stdlib Require Import Init.Byte.

Record Workflow {F : Type} : Type := mkWorkflow { wf_WorkflowID : string; wf_Nodes : list (NodeDef F) }.
Arguments Workflow : clear implicits.
Arguments mkWorkflow {F}.

Record StepWorld : Type := mkStepWorld {
  (** [ctx.Err()] when the context is done before the node starts. *)
  sw_Done : option error;
  sw_Start : Time;
  sw_End : Time
}.
(** A node without a topic and without a function panics. *)
Inductive SeqResult : Type := SeqReturned (err : option error) | SeqPanicked.

Definition quotedBytes (s : string) : bytes := [x22] ++ fromString s ++ [x22].
Definition canceledPayload : bytes :=
  fromString "{" ++ quotedBytes "status" ++ fromString ":" ++ quotedBytes "canceled" ++ fromString "}".

Section sequential.
Context {S F A : Type} `{Store S} `{ArtifactStore A} `{Ambient} `{MapOrder} `{EngineJSON} `{JSONSyntax}.
Context `{ToolJSON} `{EffectJSON} `{EvalJSON} `{HealingJSON}.
Variable handler : HandlerCall F -> Runner S F A -> Runner S F A * (bytes * option NodeError).
Variable decodeSpec : bytes -> WorkflowSpec + error.
Variable decode : bytes -> option json.
Variable limiter : option (nat -> RateLimitRequest -> RateLimitDecision + error).
Variable world : nat -> StepWorld.
Implicit Types (r : Runner S F A) (wf : Workflow F) (node : NodeDef F).

Definition graphOfWorkflow wf : WorkflowGraph F := mkGraph F (wf_WorkflowID wf) (wf_Nodes wf) [] 0.

(** ** The start of a run *)
Definition queueSequential (now : Time) (runID tenantID : string) wf (rep : WorkflowRiskReport) r :
    Runner S F A * (Run + error) :=
  let run := mkRun runID (wf_WorkflowID wf) RunStatusQueued None None [] [] tenantID "" [] noBudget noUsage in
  match onStore (CreateRun run) r with
  | (r, Some err) => (r, inr err)
  | (r, None) =>
    let r := emit now runID EventRunCreated (wf_WorkflowID wf) "" 0 [] r in
    (match marshal rep with
     | inl p => emit now runID EventRiskAssessed (wf_WorkflowID wf) "" 0 p r
     | inr _ => r
     end, inl run)
  end.
Definition startSequential (now : Time) (run : Run) r : Runner S F A * (Run + error) :=
  let run := mkRun (r_RunID run) (r_WorkflowID run) RunStatusRunning (Some now) (r_EndedAt run) (r_Spec run)
               (r_InitialInput run) (r_TenantID run) (r_TerminalReason run) (r_TerminalMeta run)
               (r_RunBudget run) (r_BudgetUsage run) in
  match onStore (UpdateRun run) r with
  | (r, Some err) => (r, inr err)
  | (r, None) => (emit now (r_RunID run) EventRunStarted (r_WorkflowID run) "" 0 [] r, inl run)
  end.

(** ** One node *)
Definition seqExec (run : Run) node (status : string) (start : Time) (ended : option Time) (input output : bytes)
    (err : string) : NodeExecution :=
  mkNodeExec (r_RunID run) (r_WorkflowID run) (NodeID node) 1 status (Some start) ended input output err.
Definition seqInvocation (run : Run) node : toolInvocation F :=
  mkInvocation (r_RunID run) (r_WorkflowID run) (NodeID node) 1 (nd_Topic node) (RequiredCapability node)
    (InputSchema node) (OutputSchema node) (nd_Run node).
Definition nodeContext (ctx : CallCtx) (run : Run) node : CallCtx :=
  WithRateLimiter (wrapRateLimiter limiter (r_RunID run) (r_WorkflowID run) (NodeID node) 1 (nd_Topic node))
    (WithExecutionRef (mkExecRef (r_RunID run) (r_WorkflowID run) (NodeID node) 1) ctx).
(** The handler, behind the tool gateway when the node has a topic; [None]: it panics. *)
Definition callNode (ctx : CallCtx) (w : StepWorld) (run : Run) node (input : bytes) r :
    Runner S F A * option (bytes * option NodeError) :=
  let ctx := nodeContext ctx run node in
  if decide (TrimSpace (nd_Topic node) <> "") then
    let inv := seqInvocation run node in
    match beginTool ctx (sw_Start w) inv input r with
    | (r, inr err) => (r, Some ([], Some (NErr err)))
    | (r, inl pc) =>
      let '(r, outcome) := handler (pc_call pc) r in
      let '(r, res) := endTool (sw_End w) inv input pc outcome r in (r, Some res)
    end
  else
    match nd_Run node with
    | None => (r, None)
    | Some fn => let '(r, outcome) := handler (mkHandlerCall fn ctx input) r in (r, Some outcome)
    end.

(** ** The ends of a run *)
Definition endedRun (status reason : string) (meta : bytes) (ended : Time) (run : Run) : Run :=
  mkRun (r_RunID run) (r_WorkflowID run) status (r_StartedAt run) (Some ended) (r_Spec run) (r_InitialInput run)
    (r_TenantID run) reason meta (r_RunBudget run) (r_BudgetUsage run).
(** The writes of a failure are not checked; the failed run is captured. *)
Definition failSequential (ctx : Ctx) (w : StepWorld) (run : Run) node (input : bytes) (e : NodeError) r : Runner S F A :=
  let runID := r_RunID run in
  let wfID := r_WorkflowID run in
  let text := JString (nodeErrorText e) in
  let r := try (UpsertNodeExecution
             (seqExec run node NodeStatusFailed (sw_Start w) (Some (sw_End w)) input [] (nodeErrorText e))) r in
  let r := emit (sw_End w) runID EventNodeFailed wfID (NodeID node) 1 (marshalOrNil (JObject [("error", text)])) r in
  let meta := match marshal (JObject [("attempt", jint 1); ("error", text); ("failed_node", JString (NodeID node))]) with
              | inl b => b | inr _ => r_TerminalMeta run end in
  let r := try (UpdateRun (endedRun RunStatusFailed "node_failed" meta (sw_End w) run)) r in
  let r := emit (sw_End w) runID EventRunFinished wfID "" 0
             (marshalOrNil (JObject [("failed_node", JString (NodeID node)); ("status", JString "failed")])) r in
  maybeCaptureSelfHealingArtifact decodeSpec ctx (sw_End w) runID r.
Definition cancelSequential (w : StepWorld) (run : Run) r : Runner S F A :=
  let r := try (UpdateRun (endedRun RunStatusCanceled (r_TerminalReason run) (r_TerminalMeta run) (sw_Start w) run)) r in
  emit (sw_Start w) (r_RunID run) EventRunFinished (r_WorkflowID run) "" 0 canceledPayload r.
Definition finishSequential (w : StepWorld) (run : Run) r : Runner S F A * SeqResult :=
  match onStore (UpdateRun (endedRun RunStatusSucceeded "" [] (sw_End w) run)) r with
  | (r, Some err) => (r, SeqReturned (Some err))
  | (r, None) =>
    (emit (sw_End w) (r_RunID run) EventRunFinished (r_WorkflowID run) "" 0
       (marshalOrNil (JObject [("status", JString "succeeded")])) r, SeqReturned None)
  end.

(** ** The nodes *)
(** A node that has succeeded gives its output, any other outcome ends the run. *)
Definition runNode (ctx : CallCtx) (w : StepWorld) (run : Run) node (input : bytes) r :
    Runner S F A * (bytes + SeqResult) :=
  match sw_Done w with
  | Some err => (cancelSequential w run r, inr (SeqReturned (Some err)))
  | None =>
    match onStore (UpsertNodeExecution (seqExec run node NodeStatusRunning (sw_Start w) None input [] "")) r with
    | (r, Some err) => (r, inr (SeqReturned (Some err)))
    | (r, None) =>
      let r := emit (sw_Start w) (r_RunID run) EventNodeStarted (r_WorkflowID run) (NodeID node) 1 [] r in
      match callNode ctx w run node input r with
      | (r, None) => (r, inr SeqPanicked)
      | (r, Some (_, Some e)) => (failSequential ctx w run node input e r, inr (SeqReturned (Some ErrNodeFailed)))
      | (r, Some (output, None)) =>
        match onStore (UpsertNodeExecution
                (seqExec run node NodeStatusSucceeded (sw_Start w) (Some (sw_End w)) input output "")) r with
        | (r, Some err) => (r, inr (SeqReturned (Some err)))
        | (r, None) =>
          (emit (sw_End w) (r_RunID run) EventNodeFinished (r_WorkflowID run) (NodeID node) 1
             (marshalOrNil ({["output" := output]} : gmap string bytes)) r, inl output)
        end
      end
    end
  end.
Fixpoint runNodes (ctx : CallCtx) (run : Run) (i : nat) (nodes : list (NodeDef F)) (input : bytes) r :
    Runner S F A * SeqResult :=
  match nodes with
  | [] => finishSequential (world i) run r
  | node :: nodes =>
    match runNode ctx (world i) run node input r with
    | (r, inr res) => (r, res)
    | (r, inl output) => runNodes ctx run (Datatypes.S i) nodes output r
    end
  end.

(** ** A run *)
(** A context without a trace is given one. *)
Definition traced (ctx : CallCtx) r : CallCtx * Runner S F A :=
  if decide (TraceIDFrom ctx = "") then let '(id, r) := NewTraceID r in (WithTraceID id ctx, r) else (ctx, r).
Definition assessed (rep : WorkflowRiskReport) (ctx : CallCtx) : CallCtx :=
  WithRiskDecision (mkRiskDecision (wk_Action rep) (wk_Score rep) (Findings rep)) ctx.
Definition RunWorkflow (ctx : CallCtx) (now : Time) (runID : string) wf (input : bytes) r : Runner S F A * SeqResult :=
  let refuse r err := (r, SeqReturned (Some err)) in
  let '(ctx, r) := traced ctx r in
  let tenantID := effectiveTenantFromContext ctx in
  let g := graphOfWorkflow wf in
  match authorizeWorkflow ctx now runID g r with
  | (r, inr err) => refuse r err
  | (r, inl _) =>
    match evaluateAndEnforceRisk decode ctx now runID g input r with
    | (r, inr err) => refuse r err
    | (r, inl rep) =>
      if negb (wk_Allowed rep) then refuse r (riskError rep)
      else
        match enforceTenantRunQuota ctx now tenantID runID (wf_WorkflowID wf) r with
        | (r, Some err) => refuse r err
        | (r, None) =>
          match queueSequential now runID tenantID wf rep r with
          | (r, inr err) => refuse r err
          | (r, inl run) =>
            match startSequential now run r with
            | (r, inr err) => refuse r err
            | (r, inl run) => runNodes (assessed rep ctx) run 0 (wf_Nodes wf) input r
            end
          end
        end
    end
  end.
End sequential.
