(* ===== verification/WorkflowReleases.v ===== *)
(** * Workflow releases (internal/engine/workflow_releases.go)

    Versions of a workflow with the policies in force when they were saved, the channel of an
    environment (active, previous, canary and shadow versions), promotion, rollback, the choice
    of a version for a run, the evaluation gate of a canary, and the difference of versions. *)
From S2P Require Import Prelude Storage Graph EngineStore Throttle Authz Risk Tools Runtime Governance Human.
From S2P Require Import CallContext Gateway Admission DagRun Lifecycle Evals.

Definition WorkflowEnvironmentStaging : string := "staging".
Definition WorkflowEnvironmentProd : string := "prod".

Record WorkflowReleaseVersion : Type := mkVersion {
  wv_ID : string;
  wv_WorkflowID : string;
  wv_Spec : bytes;
  wv_Prompt : bytes;
  wv_Model : bytes;
  wv_ToolGateway : option ToolGatewayBundle;
  wv_Authorization : option AuthorizationPolicyBundle;
  wv_Risk : option RiskPolicy;
  wv_SourceRunID : string;
  wv_EvalRunID : string;
  wv_CreatedAt : option Time;
  wv_UpdatedAt : option Time
}.
Record WorkflowReleaseChannel : Type := mkChannel {
  ch_WorkflowID : string;
  ch_Environment : string;
  ch_Active : string;
  ch_Previous : string;
  ch_Canary : string;
  ch_CanaryPercent : Z;
  ch_Shadows : list string;
  ch_AutoRollback : bool;
  ch_LastEvalRunID : string;
  ch_CreatedAt : option Time;
  ch_UpdatedAt : option Time
}.
Record WorkflowReleaseResolution : Type := mkResolution {
  re_WorkflowID : string;
  re_Environment : string;
  re_Primary : string;
  re_Shadows : list string;
  re_Canary : bool;
  re_Reason : string
}.
Record WorkflowReleaseDiffDetail : Type := mkDetail { dd_Changed : bool; dd_From : bytes; dd_To : bytes }.
Record WorkflowReleaseDiff : Type := mkDiff {
  rd_WorkflowID : string;
  rd_FromVersionID : string;
  rd_ToVersionID : string;
  rd_Spec : WorkflowReleaseDiffDetail;
  rd_Prompt : WorkflowReleaseDiffDetail;
  rd_Model : WorkflowReleaseDiffDetail;
  rd_Tool : WorkflowReleaseDiffDetail;
  rd_Policy : WorkflowReleaseDiffDetail;
  rd_ChangedDomains : list string
}.
Record PolicySnapshot : Type := mkPolicySnapshot {
  ps_authorization : option AuthorizationPolicyBundle; ps_risk : option RiskPolicy
}.

Definition workflowReleaseVersionIndexPrefix : string := "workflow_releases/versions/by_workflow/".
Definition workflowReleaseVersionKey (id : string) : string := "workflow_releases/versions/" +:+ TrimSpace id.
Definition workflowReleaseVersionIndexKey (workflowID : string) : string :=
  workflowReleaseVersionIndexPrefix +:+ TrimSpace workflowID.
Definition workflowReleaseChannelKey (workflowID env : string) : string :=
  "workflow_releases/channels/" +:+ TrimSpace workflowID +:+ "/" +:+ TrimSpace env.

Definition normalizeWorkflowEnvironment (env : string) : string + error :=
  let env := ToLower (TrimSpace env) in
  if decide (env = WorkflowEnvironmentStaging \/ env = WorkflowEnvironmentProd) then inl env
  else inr (ENew ("invalid environment " +:+ Quote env)).

(** The encodings of this layer. *)
Class ReleaseJSON : Type := {
  #[global] json_release :: JSON WorkflowReleaseVersion;
  #[global] json_channel :: JSON WorkflowReleaseChannel;
  #[global] json_policySnapshot :: JSON PolicySnapshot
}.

Section channels.
(** An instant that is missing or zero is set to [now]. *)
Definition stamped (now : Time) (t : option Time) : option Time :=
  match t with Some t => Some (if IsZero t then now else t) | None => Some now end.
Definition normalizeChannel (now : Time) (c : WorkflowReleaseChannel) : WorkflowReleaseChannel + error :=
  let workflowID := TrimSpace (ch_WorkflowID c) in
  if decide (workflowID = "") then inr (ENew "workflow_id is required")
  else
    match normalizeWorkflowEnvironment (ch_Environment c) with
    | inr err => inr err
    | inl env =>
      if (ch_CanaryPercent c <? 0) || (100 <? ch_CanaryPercent c)
      then inr (ENew "canary_percent must be between 0 and 100")
      else
        let canary := TrimSpace (ch_Canary c) in
        inl (mkChannel workflowID env (TrimSpace (ch_Active c)) (TrimSpace (ch_Previous c)) canary
               (if decide (canary = "") then 0 else ch_CanaryPercent c) (dedupeSortedStrings (ch_Shadows c))
               (ch_AutoRollback c) (TrimSpace (ch_LastEvalRunID c)) (stamped now (ch_CreatedAt c)) (Some now))
    end.
Definition cloneWorkflowReleaseVersion (v : WorkflowReleaseVersion) : WorkflowReleaseVersion :=
  mkVersion (TrimSpace (wv_ID v)) (TrimSpace (wv_WorkflowID v)) (wv_Spec v) (wv_Prompt v) (wv_Model v)
    (cloneToolGatewayBundle <$> wv_ToolGateway v) (wv_Authorization v) (wv_Risk v) (TrimSpace (wv_SourceRunID v))
    (TrimSpace (wv_EvalRunID v)) (wv_CreatedAt v) (wv_UpdatedAt v).
Definition cloneWorkflowReleaseChannel (c : WorkflowReleaseChannel) : WorkflowReleaseChannel :=
  mkChannel (TrimSpace (ch_WorkflowID c)) (TrimSpace (ch_Environment c)) (TrimSpace (ch_Active c))
    (TrimSpace (ch_Previous c)) (TrimSpace (ch_Canary c)) (ch_CanaryPercent c) (ch_Shadows c) (ch_AutoRollback c)
    (TrimSpace (ch_LastEvalRunID c)) (ch_CreatedAt c) (ch_UpdatedAt c).
(** A channel with other versions; no canary without a version. *)
Definition withVersions (active previous canary : string) (percent : Z) (lastEval : string)
    (c : WorkflowReleaseChannel) : WorkflowReleaseChannel :=
  mkChannel (ch_WorkflowID c) (ch_Environment c) active previous canary percent (ch_Shadows c) (ch_AutoRollback c)
    lastEval (ch_CreatedAt c) (ch_UpdatedAt c).
Definition newChannel (workflowID env : string) : WorkflowReleaseChannel :=
  mkChannel workflowID env "" "" "" 0 [] false "" None None.

(** [fnv.New32a] over the parts, each trimmed and followed by a zero byte. *)
Definition fnv32a (b : bytes) : Z :=
  foldl (fun h c => (Z.lxor h (Z.of_N (Byte.to_N c)) * 16777619) mod 2 ^ 32) 2166136261 b.
Definition stableReleasePercentBucket (parts : list string) : Z :=
  fnv32a (mjoin ((fun part => fromString (TrimSpace part) ++ [Byte.x00]) <$> parts)) mod 100.
End channels.

Section releases.
Context {S F A : Type} `{Store S} `{ArtifactStore A} `{Ambient} `{MapOrder} `{EngineJSON} `{ToolJSON} `{EvalJSON} `{ReleaseJSON}.
Variable decodeSpec : bytes -> WorkflowSpec + error.
Implicit Types r : Runner S F A.

(** ** Versions *)
(** An optional snapshot, normalised; an error is prefixed. *)
Definition normalizeSnapshot {T} (normalize : T -> T + error) (what : string) (x : option T) : option T + error :=
  match x with
  | None => inl None
  | Some x => match normalize x with
              | inr err => inr (EWrap (what +:+ " snapshot invalid: " +:+ Error err) err)
              | inl x => inl (Some x)
              end
  end.
Definition normalizeVersion (now : Time) (v : WorkflowReleaseVersion) : WorkflowReleaseVersion + error :=
  let id := TrimSpace (wv_ID v) in
  if decide (id = "") then inr (ENew "workflow release version id is required")
  else if decide (wv_Spec v = []) then inr (ENew "workflow release version spec is required")
  else
    match ParseWorkflowSpecJSON (F := F) decodeSpec (wv_Spec v) with
    | inr err => inr (EWrap ("workflow release version spec invalid: " +:+ Error err) err)
    | inl (g, _) =>
      let specID := TrimSpace (g_ID g) in
      let workflowID := if decide (TrimSpace (wv_WorkflowID v) = "") then specID else TrimSpace (wv_WorkflowID v) in
      if decide (workflowID = "") then inr (ENew "workflow release workflow_id is required")
      else if decide (specID <> "" /\ specID <> workflowID)
      then inr (ENew ("workflow release workflow_id " +:+ Quote workflowID +:+ " does not match spec id " +:+ Quote specID))
      else
        match normalizeSnapshot (normalizeToolBundle unmarshal now) "tool gateway"
                (cloneToolGatewayBundle <$> wv_ToolGateway v) with
        | inr err => inr err
        | inl tool =>
          match normalizeSnapshot normalizeBundle "authorization" (wv_Authorization v) with
          | inr err => inr err
          | inl authorization =>
            match normalizeSnapshot normalizeRiskPolicy "risk" (wv_Risk v) with
            | inr err => inr err
            | inl risk =>
              inl (mkVersion id workflowID (wv_Spec v) (wv_Prompt v) (wv_Model v) tool authorization risk
                     (TrimSpace (wv_SourceRunID v)) (TrimSpace (wv_EvalRunID v)) (stamped now (wv_CreatedAt v)) (Some now))
            end
          end
        end
    end.
(** A snapshot that is not given is the policy in force, if it can be had. *)
Definition inForce {T} (given : option T) (get : Runner S F A -> Runner S F A * (option T + error)) r :
    Runner S F A * option T :=
  match given with
  | Some _ => (r, given)
  | None => match get r with (r, inl x) => (r, x) | (r, inr _) => (r, None) end
  end.
Definition releaseAudit (tenantID action type id workflowID reason : string) : AuditRecord :=
  mkAudit "" zeroTime tenantID "" action type id "" workflowID AuditOutcomeAllowed reason.
Definition SaveWorkflowReleaseVersion (now : Time) (v : WorkflowReleaseVersion) r : Runner S F A * option error :=
  let '(r, tool) := inForce (wv_ToolGateway v) (GetToolGatewayBundle now) r in
  let '(r, authorization) := inForce (wv_Authorization v) GetAuthorizationPolicy r in
  let '(r, risk) := inForce (wv_Risk v) GetRiskPolicy r in
  match normalizeVersion now (mkVersion (wv_ID v) (wv_WorkflowID v) (wv_Spec v) (wv_Prompt v) (wv_Model v)
                                tool authorization risk (wv_SourceRunID v) (wv_EvalRunID v) (wv_CreatedAt v)
                                (wv_UpdatedAt v)) with
  | inr err => (r, Some err)
  | inl v =>
    match putJSONKV (workflowReleaseVersionKey (wv_ID v)) v r with
    | (r, Some err) => (r, Some err)
    | (r, None) =>
      match upsertIndexID (workflowReleaseVersionIndexKey (wv_WorkflowID v)) (wv_ID v) r with
      | (r, Some err) => (r, Some err)
      | (r, None) =>
        (appendAuditRecord background now
           (releaseAudit "" "workflow_release.version.save" "workflow_release_version" (wv_ID v) (wv_WorkflowID v)
              "workflow release version saved") r, None)
      end
    end
  end.
(** [None]: there is no such version. *)
Definition GetWorkflowReleaseVersion (id : string) r : option (WorkflowReleaseVersion + error) :=
  let id := TrimSpace id in
  if decide (id = "") then None
  else match getJSONKV (workflowReleaseVersionKey id) r with
       | None => None
       | Some (inr err) => Some (inr err)
       | Some (inl v) => Some (inl (cloneWorkflowReleaseVersion v))
       end.
Definition version_less (a b : WorkflowReleaseVersion) : bool :=
  match wv_CreatedAt a, wv_CreatedAt b with
  | Some t, Some u => if decide (t <> u) then t <? u else string_lt (wv_ID a) (wv_ID b)
  | _, _ => string_lt (wv_ID a) (wv_ID b)
  end.
Definition ListWorkflowReleaseVersions (workflowID : string) r : list WorkflowReleaseVersion + error :=
  let workflowID := TrimSpace workflowID in
  if decide (workflowID = "") then inr (ENew "workflow_id is required")
  else match indexIDs (workflowReleaseVersionIndexKey workflowID) r with
       | inr err => inr err
       | inl ids =>
         inl (sortSlice version_less
                (omap (fun id => match GetWorkflowReleaseVersion id r with Some (inl v) => Some v | _ => None end) ids))
       end.

(** ** Channels *)
Definition versionNotFound (id : string) : error := ENew ("workflow release version " +:+ Quote id +:+ " not found").
Definition wrongWorkflow (id belongs workflowID : string) : error :=
  ENew ("workflow release version " +:+ Quote id +:+ " belongs to workflow " +:+ Quote belongs +:+ ", not " +:+ Quote workflowID).
Fixpoint checkVersions (workflowID : string) (ids : list string) r : option error :=
  match ids with
  | [] => None
  | id :: ids =>
    let id := TrimSpace id in
    if decide (id = "") then checkVersions workflowID ids r
    else match GetWorkflowReleaseVersion id r with
         | Some (inr err) => Some err
         | None => Some (versionNotFound id)
         | Some (inl v) =>
           if decide (wv_WorkflowID v <> workflowID) then Some (wrongWorkflow id (wv_WorkflowID v) workflowID)
           else checkVersions workflowID ids r
         end
  end.
Definition channelVersions (c : WorkflowReleaseChannel) : list string :=
  [ch_Active c; ch_Previous c; ch_Canary c] ++ ch_Shadows c.
Definition SaveWorkflowReleaseChannel (now : Time) (c : WorkflowReleaseChannel) r : Runner S F A * option error :=
  match normalizeChannel now c with
  | inr err => (r, Some err)
  | inl c =>
    match checkVersions (ch_WorkflowID c) (channelVersions c) r with
    | Some err => (r, Some err)
    | None => putJSONKV (workflowReleaseChannelKey (ch_WorkflowID c) (ch_Environment c)) c r
    end
  end.
Definition GetWorkflowReleaseChannel (workflowID env : string) r : option WorkflowReleaseChannel + error :=
  let workflowID := TrimSpace workflowID in
  if decide (workflowID = "") then inl None
  else match normalizeWorkflowEnvironment env with
       | inr err => inr err
       | inl env =>
         match getJSONKV (workflowReleaseChannelKey workflowID env) r with
         | None => inl None
         | Some (inr err) => inr err
         | Some (inl c) => inl (Some (cloneWorkflowReleaseChannel c))
         end
       end.
Definition noChannel : WorkflowReleaseChannel := newChannel "" "".
(** The channel as it is stored after a change. *)
Definition reread (workflowID env : string) r : Runner S F A * (WorkflowReleaseChannel + error) :=
  (r, match GetWorkflowReleaseChannel workflowID env r with
      | inr err => inr err
      | inl c => inl (default noChannel c)
      end).
(** A change of a channel is saved, recorded and read back. *)
Definition saveChange (ctx : Ctx) (now : Time) (workflowID env action reason : string) (c : WorkflowReleaseChannel) r :
    Runner S F A * (WorkflowReleaseChannel + error) :=
  match SaveWorkflowReleaseChannel now c r with
  | (r, Some err) => (r, inr err)
  | (r, None) =>
    reread workflowID env
      (appendAuditRecord ctx now
         (releaseAudit (effectiveTenantFromContext ctx) action "workflow_release_channel" (workflowID +:+ "/" +:+ env)
            workflowID reason) r)
  end.
(** A version of the workflow. *)
Definition versionOf (workflowID versionID shown : string) r : WorkflowReleaseVersion + error :=
  match GetWorkflowReleaseVersion versionID r with
  | Some (inr err) => inr err
  | None => inr (versionNotFound versionID)
  | Some (inl v) => if decide (wv_WorkflowID v <> workflowID) then inr (wrongWorkflow versionID (wv_WorkflowID v) shown)
                    else inl v
  end.
Definition promoted (v : WorkflowReleaseVersion) (versionID : string) (c : WorkflowReleaseChannel) :
    WorkflowReleaseChannel :=
  withVersions versionID
    (if decide (TrimSpace (ch_Active c) <> "" /\ TrimSpace (ch_Active c) <> versionID) then ch_Active c else ch_Previous c)
    "" 0 (wv_EvalRunID v) c.
Definition PromoteWorkflowRelease (ctx : Ctx) (now : Time) (workflowID env versionID : string) r :
    Runner S F A * (WorkflowReleaseChannel + error) :=
  let workflowID := TrimSpace workflowID in
  let versionID := TrimSpace versionID in
  if decide (workflowID = "" \/ versionID = "") then (r, inr (ENew "workflow_id and version_id are required"))
  else
    match versionOf workflowID versionID workflowID r with
    | inr err => (r, inr err)
    | inl v =>
      match GetWorkflowReleaseChannel workflowID env r with
      | inr err => (r, inr err)
      | inl c =>
        saveChange ctx now workflowID env "workflow_release.promote" "workflow release promoted"
          (promoted v versionID (default (newChannel workflowID env) c)) r
      end
    end.
Definition channelMissing (workflowID env what : string) : error :=
  ENew ("workflow release channel " +:+ Quote workflowID +:+ "/" +:+ Quote env +:+ what).
Definition RollbackWorkflowRelease (ctx : Ctx) (now : Time) (workflowID env versionID : string) r :
    Runner S F A * (WorkflowReleaseChannel + error) :=
  match GetWorkflowReleaseChannel workflowID env r with
  | inr err => (r, inr err)
  | inl None => (r, inr (channelMissing workflowID env " not found"))
  | inl (Some c) =>
    let versionID := if decide (TrimSpace versionID = "") then TrimSpace (ch_Previous c) else TrimSpace versionID in
    if decide (versionID = "") then (r, inr (ENew "rollback target version is required"))
    else match versionOf (TrimSpace workflowID) versionID workflowID r with
         | inr err => (r, inr err)
         | inl _ =>
           saveChange ctx now workflowID env "workflow_release.rollback" "workflow release rolled back"
             (withVersions versionID (ch_Active c) "" 0 (ch_LastEvalRunID c) c) r
         end
  end.

(** ** Choosing a version *)
Definition ResolveWorkflowRelease (workflowID env runID : string) r : WorkflowReleaseResolution + error :=
  match GetWorkflowReleaseChannel workflowID env r with
  | inr err => inr err
  | inl None => inr (channelMissing workflowID env " not found")
  | inl (Some c) =>
    if decide (TrimSpace (ch_Active c) = "" /\ TrimSpace (ch_Canary c) = "")
    then inr (channelMissing workflowID env " has no active or canary version")
    else
      let input := if decide (TrimSpace runID = "") then "resolution" else TrimSpace runID in
      let canary := negb (bool_decide (TrimSpace (ch_Canary c) = "")) && (0 <? ch_CanaryPercent c) &&
                    (stableReleasePercentBucket [workflowID; env; input] <? ch_CanaryPercent c) in
      let primary := if canary then ch_Canary c else ch_Active c in
      inl (mkResolution workflowID (ch_Environment c) (if decide (primary = "") then ch_Canary c else primary)
             (ch_Shadows c) canary
             (if canary then "selected canary version at " +:+ pretty (ch_CanaryPercent c) +:+ "% rollout"
              else "selected active version"))
  end.

(** ** Differences *)
Definition marshalReleaseSnapshot (x : option ToolGatewayBundle) : bytes :=
  match x with None => fromString "null" | Some b => marshalOrNil b end.
Definition buildPolicySnapshot (v : WorkflowReleaseVersion) : bytes :=
  if decide (is_Some (wv_Authorization v) \/ is_Some (wv_Risk v))
  then marshalOrNil (mkPolicySnapshot (wv_Authorization v) (wv_Risk v)) else [].
Definition releaseDiffDetail (from to : bytes) : WorkflowReleaseDiffDetail :=
  if decide (from = [] /\ to = []) then mkDetail false [] [] else mkDetail (negb (jsonEqual from to)) from to.
Definition DiffWorkflowReleaseVersions (workflowID fromVersionID toVersionID : string) r : WorkflowReleaseDiff + error :=
  match GetWorkflowReleaseVersion fromVersionID r with
  | Some (inr err) => inr err
  | None => inr (versionNotFound fromVersionID)
  | Some (inl a) =>
    match GetWorkflowReleaseVersion toVersionID r with
    | Some (inr err) => inr err
    | None => inr (versionNotFound toVersionID)
    | Some (inl b) =>
      let workflowID := if decide (TrimSpace workflowID = "") then wv_WorkflowID a else TrimSpace workflowID in
      if decide (wv_WorkflowID a <> workflowID \/ wv_WorkflowID b <> workflowID)
      then inr (ENew ("workflow release diff versions must belong to workflow " +:+ Quote workflowID))
      else
        let spec := releaseDiffDetail (wv_Spec a) (wv_Spec b) in
        let prompt := releaseDiffDetail (wv_Prompt a) (wv_Prompt b) in
        let model := releaseDiffDetail (wv_Model a) (wv_Model b) in
        let tool := releaseDiffDetail (marshalReleaseSnapshot (wv_ToolGateway a)) (marshalReleaseSnapshot (wv_ToolGateway b)) in
        let policy := releaseDiffDetail (buildPolicySnapshot a) (buildPolicySnapshot b) in
        let domain (d : WorkflowReleaseDiffDetail) (name : string) := if dd_Changed d then [name] else [] in
        inl (mkDiff workflowID fromVersionID toVersionID spec prompt model tool policy
               (domain spec "spec" ++ domain prompt "prompt" ++ domain model "model" ++ domain tool "tool" ++
                domain policy "policy"))
    end
  end.

(** ** Running a release *)
Definition releaseRunWorkflowID (v : WorkflowReleaseVersion) : string :=
  TrimSpace (wv_WorkflowID v) +:+ "@" +:+ TrimSpace (wv_ID v).
Definition compileWorkflowReleaseVersion (v : WorkflowReleaseVersion) (tenantID : string) r : WorkflowGraph F + error :=
  match HandlerRegistryForTenant tenantID r with
  | None => inr (ENew "handler registry is required")
  | Some reg =>
    match ParseWorkflowSpecJSON decodeSpec (wv_Spec v) with
    | inr err => inr err
    | inl (g, spec) =>
      match CompileSpecToExecutable spec g (Some reg) with
      | inr err => inr err
      | inl exec => inl (mkGraph F (releaseRunWorkflowID v) (Nodes exec) (Edges exec) (g_TimeoutMS exec))
      end
    end
  end.
Definition cloneReleaseExecutionContext (ctx : CallCtx) : CallCtx :=
  let tenantID := effectiveTenantFromContext ctx in
  let out := if decide (tenantID = "") then background else WithTenantID tenantID background in
  let out := match PrincipalFrom ctx with None => out | Some p => WithPrincipal p out end in
  let out := callCtx out in
  if decide (TraceIDFrom ctx = "") then out else WithTraceID (TraceIDFrom ctx) out.
(** A shadow run: its context and its request, or the error that is logged instead. *)
Definition launchShadowWorkflowRelease (ctx : CallCtx) (baseRunID : string) (v : WorkflowReleaseVersion)
    (input : bytes) r : CallCtx * (RunRequest F + error) :=
  let shadowCtx := WithSideEffectMode SideEffectModeDryRun (cloneReleaseExecutionContext ctx) in
  (shadowCtx,
   match compileWorkflowReleaseVersion v (effectiveTenantFromContext shadowCtx) r with
   | inr err => inr err
   | inl exec => inl (mkRequest _ (TrimSpace baseRunID +:+ "~shadow~" +:+ TrimSpace (wv_ID v)) exec input (wv_Spec v) None)
   end).
(** The shadow runs that are started, and the run of the version that was chosen. *)
Definition RunWorkflowRelease (ctx : CallCtx) (runID workflowID env : string) (input : bytes) r :
    list (CallCtx * (RunRequest F + error)) * (WorkflowReleaseResolution * RunRequest F + error) :=
  match ResolveWorkflowRelease workflowID env runID r with
  | inr err => ([], inr err)
  | inl res =>
    match GetWorkflowReleaseVersion (re_Primary res) r with
    | Some (inr err) => ([], inr err)
    | None => ([], inr (versionNotFound (re_Primary res)))
    | Some (inl v) =>
      (omap (fun id => match GetWorkflowReleaseVersion id r with
                       | Some (inl shadow) => Some (launchShadowWorkflowRelease ctx runID shadow input r)
                       | _ => None
                       end) (re_Shadows res),
       match compileWorkflowReleaseVersion v (effectiveTenantFromContext ctx) r with
       | inr err => inr err
       | inl exec => inl (res, mkRequest _ runID exec input (wv_Spec v) None)
       end)
    end
  end.

(** ** The evaluation gate of a canary *)
Definition FinalizeWorkflowCanaryWithEvalGate (ctx : Ctx) (now : Time) (evalRunID workflowID env : string) r :
    Runner S F A * (WorkflowReleaseChannel * string + error) :=
  match GetEvalReport evalRunID r with
  | Some (inr err) => (r, inr err)
  | None => (r, inr (ENew ("eval report " +:+ Quote evalRunID +:+ " not found")))
  | Some (inl x) =>
    if decide (evr_Status x <> "completed")
    then (r, inr (ENew ("eval report " +:+ Quote evalRunID +:+ " status=" +:+ evr_Status x +:+ " (need completed)")))
    else
      match GetWorkflowReleaseChannel workflowID env r with
      | inr err => (r, inr err)
      | inl None => (r, inr (channelMissing workflowID env " not found"))
      | inl (Some c) =>
        if decide (TrimSpace (ch_Canary c) = "") then (r, inr (channelMissing workflowID env " has no canary version"))
        else
          let finish action c :=
            match saveChange ctx now workflowID env "workflow_release.canary.finalize"
                    ("workflow release canary " +:+ action) c r with
            | (r, inr err) => (r, inr err)
            | (r, inl c) => (r, inl (c, action))
            end in
          let lastEval := TrimSpace evalRunID in
          if evr_Passed x then finish "promoted" (withVersions (ch_Canary c) (ch_Active c) "" 0 lastEval c)
          else if ch_AutoRollback c
          then finish "rolled_back" (withVersions (ch_Active c) (ch_Previous c) "" 0 lastEval c)
          else (r, inr (ENew ("eval report " +:+ Quote evalRunID +:+ " did not pass canary promotion gate")))
      end
  end.
End releases.
