(* ===== verification/Forensics.v ===== *)
(** * Reports on runs (internal/engine/forensics.go)

    Views assembled from what the other components have recorded: the executions, tool calls,
    human tasks and side effects of a run node by node, the difference of two runs, and
    summaries.  Building a view checks the access of the caller, which writes audit records, and
    changes nothing else. *)
From S2P Require Import Prelude Storage Graph EngineStore Throttle Authz Risk Tools Runtime Governance CallContext Gateway.
From S2P Require Import AgentState Human Admission DagRun Routing SideEffects Lifecycle Evals WorkflowReleases SelfHealing.

Record ForensicExecutionNode : Type := mkForensicNode {
  fx_NodeID : string;
  fx_Topic : string;
  fx_Dependencies : list string;
  fx_Dependents : list string;
  fx_LatestStatus : string;
  fx_LatestAttempt : Z;
  fx_LatestError : string;
  fx_Executions : list NodeExecution;
  fx_ToolCalls : list ToolCallRecord;
  fx_HumanTasks : list HumanTask;
  fx_SideEffectReceipts : list SideEffectReceipt
}.
Record ForensicExecutionGraph : Type := mkForensicGraph {
  fg_Run : Run;
  fg_Nodes : list ForensicExecutionNode;
  fg_Edges : list NodeEdge;
  fg_Events : list RunEvent;
  fg_Timers : list Timer;
  fg_SelfHealing : option SelfHealingArtifact;
  fg_HasSpecGraph : bool
}.
Record ForensicValueChange : Type := mkValueChange { vc_Changed : bool; vc_From : bytes; vc_To : bytes }.
Record ForensicTextChange : Type := mkTextChange { xc_Changed : bool; xc_From : string; xc_To : string }.
Record ForensicNodeDiff : Type := mkNodeDiff {
  df_NodeID : string;
  df_FromAttempt : Z;
  df_ToAttempt : Z;
  df_FromStatus : string;
  df_ToStatus : string;
  df_StatusChanged : bool;
  df_Error : ForensicTextChange;
  df_Input : ForensicValueChange;
  df_Output : ForensicValueChange;
  df_Appeared : bool;
  df_Disappeared : bool
}.
Record ForensicRunDiff : Type := mkRunDiff {
  fd_FromRunID : string;
  fd_ToRunID : string;
  fd_WorkflowID : string;
  fd_Status : ForensicTextChange;
  fd_TerminalReason : ForensicTextChange;
  fd_WorkflowSpec : WorkflowReleaseDiffDetail;
  fd_NodeDiffs : list ForensicNodeDiff;
  fd_ChangedNodes : list string;
  fd_ChangedDomains : list string
}.
Record ForensicRootCauseView : Type := mkRootCause {
  rc_Run : Run;
  rc_PrimaryFailureNode : string;
  rc_FailureNodes : list SelfHealingFailureNode;
  rc_RiskReport : option WorkflowRiskReport;
  rc_HumanTasks : list HumanTask;
  rc_ToolCalls : list ToolCallRecord;
  rc_SideEffects : list SideEffectReceipt;
  rc_SelfHealing : option SelfHealingArtifact;
  rc_Summary : list string
}.
Record ForensicWhatChangedView : Type := mkWhatChanged {
  wc_FromRunID : string;
  wc_ToRunID : string;
  wc_RunDiff : ForensicRunDiff;
  wc_RootCause : option ForensicRootCauseView;
  wc_Summary : list string
}.

(** ** By node *)
Definition groupBy {X} (key : X -> string) (l : list X) : gmap string (list X) :=
  foldl (fun out x => <[key x := default [] (out !! key x) ++ [x]]> out) ∅ l.
Definition toolCallsByNode : list ToolCallRecord -> gmap string (list ToolCallRecord) := groupBy tc_NodeID.
Definition humanTasksByNode : list HumanTask -> gmap string (list HumanTask) := groupBy ht_NodeID.
Definition sideEffectsByNode : list SideEffectReceipt -> gmap string (list SideEffectReceipt) := groupBy sr_NodeID.
Definition executionsByNode (runID : string) (nodes : list NodeExecution) : gmap string (list NodeExecution) :=
  sortSlice (fun a b => n_Attempt a <? n_Attempt b) <$>
  groupBy n_NodeID (filter (fun node => TrimSpace (n_RunID node) = TrimSpace runID) nodes).
Definition latestNodeExecution (nodes : list NodeExecution) : option NodeExecution :=
  match nodes with
  | [] => None
  | node :: nodes => Some (foldl (fun best node => if n_Attempt best <? n_Attempt node then node else best) node nodes)
  end.
Definition noExecution : NodeExecution := mkNodeExec "" "" "" 0 "" None None [] [] "".
Definition forensicNodeIDs {F} (g : WorkflowGraph F) (nodes : gmap string (list NodeExecution)) : list string :=
  sortStrings (elements (list_to_set (NodeID <$> Nodes g) ∪ dom nodes : gset string)).
Definition graphNodeMetadata {F} (g : WorkflowGraph F) :
    gmap string string * gmap string (list string) * gmap string (list string) :=
  (foldl (fun m n => <[NodeID n := TrimSpace (nd_Topic n)]> m) ∅ (Nodes g),
   (fun es => sortStrings (From <$> es)) <$> groupBy To (Edges g),
   (fun es => sortStrings (To <$> es)) <$> groupBy From (Edges g)).
(** A map of lists answers nil for a key it does not have. *)
Definition at_ {X} (m : gmap string (list X)) (k : string) : list X := default [] (m !! k).

Definition forensicNode {F} (g : WorkflowGraph F) (execs : gmap string (list NodeExecution))
    (tools : gmap string (list ToolCallRecord)) (tasks : gmap string (list HumanTask))
    (receipts : gmap string (list SideEffectReceipt)) (id : string) : ForensicExecutionNode :=
  let '(topics, deps, children) := graphNodeMetadata g in
  let latest := default noExecution (latestNodeExecution (at_ execs id)) in
  mkForensicNode id (default "" (topics !! id)) (at_ deps id) (at_ children id) (n_Status latest) (n_Attempt latest)
    (TrimSpace (n_Error latest)) (at_ execs id) (at_ tools id) (at_ tasks id) (at_ receipts id).

(** ** Differences *)
Definition nodeDiffText (from to : string) : ForensicTextChange :=
  mkTextChange (negb (bool_decide (TrimSpace from = TrimSpace to))) (TrimSpace from) (TrimSpace to).
Definition nodeDiffValue `{JSON json} (from to : bytes) : ForensicValueChange :=
  mkValueChange (if decide (from = [] /\ to = []) then false else negb (jsonEqual from to)) from to.
Definition nodeDiff `{JSON json} (id : string) (from to : option NodeExecution) : ForensicNodeDiff :=
  let appeared := negb (bool_decide (is_Some from)) && bool_decide (is_Some to) in
  let disappeared := bool_decide (is_Some from) && negb (bool_decide (is_Some to)) in
  let a := default noExecution from in
  let b := default noExecution to in
  mkNodeDiff id (n_Attempt a) (n_Attempt b) (n_Status a) (n_Status b)
    (negb (bool_decide (n_Status a = n_Status b)) || appeared || disappeared)
    (nodeDiffText (n_Error a) (n_Error b)) (nodeDiffValue (n_Input a) (n_Input b))
    (nodeDiffValue (n_Output a) (n_Output b)) appeared disappeared.
Definition nodeChanged (d : ForensicNodeDiff) : bool :=
  df_StatusChanged d || xc_Changed (df_Error d) || vc_Changed (df_Input d) || vc_Changed (df_Output d).

Section forensics.
Context {S F A : Type} `{Store S} `{ArtifactStore A} `{Ambient} `{MapOrder} `{EngineJSON} `{JSONSyntax}.
Context `{ToolJSON} `{EffectJSON} `{EvalJSON} `{ReleaseJSON} `{HealingJSON}.
Variable decodeSpec : bytes -> WorkflowSpec + error.
Implicit Types r : Runner S F A.

Definition parseWorkflowGraphFromSpec (spec : bytes) : option (WorkflowGraph F) :=
  if decide (spec = []) then None
  else match ParseWorkflowSpecJSON decodeSpec spec with inr _ => None | inl (g, _) => Some g end.
Definition runSpecDiff (from to : Run) : WorkflowReleaseDiffDetail := releaseDiffDetail (r_Spec from) (r_Spec to).

Definition BuildExecutionGraph (ctx : CallCtx) (now : Time) (runID : string) r :
    Runner S F A * (ForensicExecutionGraph + error) :=
  match GetRun (TrimSpace runID) (rn_store r) with
  | None => (r, inr ErrRunNotFound)
  | Some run =>
    match ensureRunTenantAccess ctx now run "forensics.execution_graph" r with
    | (r, Some err) => (r, inr err)
    | (r, None) =>
      let spec := parseWorkflowGraphFromSpec (r_Spec run) in
      let g := default (mkGraph _ "" [] [] 0) spec in
      let execs := executionsByNode (r_RunID run) (ListNodeExecutions (r_RunID run) (rn_store r)) in
      let orNil {X} (res : list X + error) := match res with inl l => l | inr _ => [] end in
      let tools := toolCallsByNode (orNil (ListToolCallRecords ctx (r_RunID run) "" 500 r)) in
      let tasks := humanTasksByNode (orNil (ListHumanTasks (r_RunID run) "" 500 r)) in
      let '(r, effects) := ListSideEffectReceipts ctx now (r_RunID run) "" 500 r in
      let receipts := sideEffectsByNode (orNil effects) in
      let '(r, heal) := GetSelfHealingArtifactByRun ctx now (r_RunID run) r in
      (r, inl (mkForensicGraph run (forensicNode g execs tools tasks receipts <$> forensicNodeIDs g execs)
                 (Edges g) (ListEvents (r_RunID run) (rn_store r)) (ListTimers (r_RunID run) (rn_store r))
                 (match heal with inl x => cloneSelfHealingArtifact <$> x | inr _ => None end)
                 (bool_decide (is_Some spec))))
    end
  end.

(** The last risk assessment among the events that can be decoded. *)
Fixpoint lastRiskReport (events : list RunEvent) : option WorkflowRiskReport :=
  match events with
  | [] => None
  | ev :: events =>
    if decide (e_Type ev <> EventRiskAssessed \/ e_Payload ev = []) then lastRiskReport events
    else match unmarshal (e_Payload ev) with inl rep => Some rep | inr _ => lastRiskReport events end
  end.
Definition parseRiskReportFromEvents (events : list RunEvent) : option WorkflowRiskReport :=
  lastRiskReport (reverse events).

Definition rootCauseOf (fg : ForensicExecutionGraph) : ForensicRootCauseView :=
  let risk := parseRiskReportFromEvents (fg_Events fg) in
  let heal := cloneSelfHealingArtifact <$> fg_SelfHealing fg in
  let failed := filter (fun n => fx_LatestStatus n = NodeStatusFailed) (fg_Nodes fg) in
  let captured := from_option sh_FailureNodeID "" heal in
  let primary := if decide (captured = "") then default "" (head (filter (fun id => id <> "") (fx_NodeID <$> failed))) else captured in
  let tools := mjoin (fx_ToolCalls <$> failed) in
  let tasks := mjoin (fx_HumanTasks <$> failed) in
  let reason := TrimSpace (r_TerminalReason (fg_Run fg)) in
  let line (when : bool) (text : string) : list string := if when then [text] else [] in
  mkRootCause (fg_Run fg) primary (from_option sh_FailureNodes [] heal) risk tasks tools
    (mjoin (fx_SideEffectReceipts <$> failed)) heal
    (line (bool_decide (is_Some heal)) "self-heal artifact captured for failed run" ++
     line (negb (bool_decide (reason = ""))) ("terminal reason: " +:+ reason) ++
     line (negb (bool_decide (primary = ""))) ("primary failed node: " +:+ primary) ++
     (match risk with
      | Some rep => line (negb (bool_decide (wk_Action rep = ""))) ("risk action before execution: " +:+ wk_Action rep)
      | None => []
      end) ++
     line (0 <? zlen tools) ("captured " +:+ pretty (zlen tools) +:+ " tool call records around failure") ++
     line (0 <? zlen tasks) ("captured " +:+ pretty (zlen tasks) +:+ " human task records around failure")).
Definition BuildRootCauseView (ctx : CallCtx) (now : Time) (runID : string) r :
    Runner S F A * (ForensicRootCauseView + error) :=
  match BuildExecutionGraph ctx now runID r with
  | (r, inr err) => (r, inr err)
  | (r, inl fg) => (r, inl (rootCauseOf fg))
  end.

(** ** Comparing two runs *)
Definition diffOfRuns (from to : Run) r : ForensicRunDiff :=
  let fromNodes := latestNodeExecutionByNode (ListNodeExecutions (r_RunID from) (rn_store r)) in
  let toNodes := latestNodeExecutionByNode (ListNodeExecutions (r_RunID to) (rn_store r)) in
  let ids := sortStrings (elements (dom fromNodes ∪ dom toNodes)) in
  let diffs := filter (fun d => nodeChanged d = true)
                 ((fun id => nodeDiff id (fromNodes !! id) (toNodes !! id)) <$> ids) in
  let status := nodeDiffText (r_Status from) (r_Status to) in
  let reason := nodeDiffText (r_TerminalReason from) (r_TerminalReason to) in
  let spec := runSpecDiff from to in
  let domain (changed : bool) (name : string) : list string := if changed then [name] else [] in
  mkRunDiff (r_RunID from) (r_RunID to) (firstNonEmpty [r_WorkflowID to; r_WorkflowID from]) status reason spec
    diffs (df_NodeID <$> diffs)
    (domain (dd_Changed spec) "workflow_spec" ++ domain (xc_Changed status) "run_status" ++
     domain (xc_Changed reason) "terminal_reason" ++ domain (negb (bool_decide (diffs = []))) "node_executions").
Definition DiffRuns (ctx : Ctx) (now : Time) (fromRunID toRunID : string) r : Runner S F A * (ForensicRunDiff + error) :=
  match GetRun (TrimSpace fromRunID) (rn_store r) with
  | None => (r, inr ErrRunNotFound)
  | Some from =>
    match ensureRunTenantAccess ctx now from "forensics.run_diff" r with
    | (r, Some err) => (r, inr err)
    | (r, None) =>
      match GetRun (TrimSpace toRunID) (rn_store r) with
      | None => (r, inr ErrRunNotFound)
      | Some to =>
        match ensureRunTenantAccess ctx now to "forensics.run_diff" r with
        | (r, Some err) => (r, inr err)
        | (r, None) => (r, inl (diffOfRuns from to r))
        end
      end
    end
  end.
Definition changeSummary (d : ForensicRunDiff) : list string :=
  (if dd_Changed (fd_WorkflowSpec d) then ["workflow spec changed between runs"] else []) ++
  (if xc_Changed (fd_Status d)
   then ["run status changed: " +:+ xc_From (fd_Status d) +:+ " -> " +:+ xc_To (fd_Status d)] else []) ++
  (if xc_Changed (fd_TerminalReason d)
   then ["terminal reason changed: " +:+ xc_From (fd_TerminalReason d) +:+ " -> " +:+ xc_To (fd_TerminalReason d)] else []) ++
  (if 0 <? zlen (fd_ChangedNodes d) then ["changed nodes: " +:+ String.concat ", " (fd_ChangedNodes d)] else []).
Definition BuildWhatChangedView (ctx : CallCtx) (now : Time) (fromRunID toRunID : string) r :
    Runner S F A * (ForensicWhatChangedView + error) :=
  match DiffRuns ctx now fromRunID toRunID r with
  | (r, inr err) => (r, inr err)
  | (r, inl d) =>
    let '(r, cause) :=
      match GetRun (TrimSpace toRunID) (rn_store r) with
      | Some to =>
        if decide (r_Status to = RunStatusFailed) then
          match BuildRootCauseView ctx now (r_RunID to) r with
          | (r, inl view) => (r, Some view)
          | (r, inr _) => (r, None)
          end
        else (r, None)
      | None => (r, None)
      end in
    (r, inl (mkWhatChanged fromRunID toRunID d cause (changeSummary d)))
  end.
End forensics.
