(* ===== verification/ReplayBranches.v ===== *)
(** * Replay branches (internal/engine/replay_branches.go)

    A branch is a new run that starts from what a source run has stored: some of its outputs
    are reused, its specification and its input may be replaced.  Records of branches, their
    timeline, and [CreateReplayBranch].  Running the graph is the argument [run], to be read
    as [runDAGWithReplayCache]; the instants the code reads from the clock are arguments. *)
From S2P Require Import Prelude Storage Graph EngineStore Throttle Authz Risk Tools Runtime Governance CallContext.
From S2P Require Import AgentState Human Admission DagRun Routing SideEffects Lifecycle Evals.

Definition replayBranchIndexKey : string := "replay_branches/index".

Record ReplayBranchRequest : Type := mkBranchRequest {
  bq_SourceRunID : string;
  bq_BranchRunID : string;
  bq_BranchName : string;
  bq_FromStep : string;
  bq_Mode : string;
  bq_SpecOverride : bytes;
  bq_InitialInputOverride : bytes;
  bq_SideEffectMode : string
}.
Record ReplayBranchRecord : Type := mkBranch {
  rb_ID : string;
  rb_CreatedAt : Time;
  rb_UpdatedAt : Time;
  rb_TenantID : string;
  rb_RootRunID : string;
  rb_SourceRunID : string;
  rb_BranchRunID : string;
  rb_BranchName : string;
  rb_BaseWorkflowID : string;
  rb_BranchWorkflowID : string;
  rb_FromStep : string;
  rb_Mode : string;
  rb_SideEffectMode : string;
  rb_SpecOverrideApplied : bool;
  rb_InitialInputOverrideApplied : bool;
  rb_RunStatus : string;
  rb_TerminalReason : string
}.
Record ReplayTimelineView : Type := mkTimeline {
  tv_RootRunID : string;
  tv_RootRun : Run;
  tv_Branches : list ReplayBranchRecord
}.
Class BranchJSON : Type := { #[global] json_branch :: JSON ReplayBranchRecord }.

Definition replayBranchKey (id : string) : string := "replay_branches/items/" +:+ PathEscape (TrimSpace id).
Definition replayBranchRunLookupKey (runID : string) : string := "replay_branches/by_run/" +:+ PathEscape (TrimSpace runID).
Definition replayBranchRootIndexKey (runID : string) : string := "replay_branches/root/" +:+ PathEscape (TrimSpace runID).
Definition replayBranchID (branchRunID : string) : string := "replay-branch-" +:+ sanitizeEvalRunID branchRunID.
Definition branchRunID `{Ambient} (now : Time) (sourceRunID branchName : string) : string :=
  let name := TrimSpace branchName in
  sanitizeEvalRunID sourceRunID +:+ "~branch" +:+
  (if decide (name = "") then "" else "~" +:+ sanitizeEvalRunID name) +:+ "~" +:+ formatTime now.
Definition branchWorkflowID (baseWorkflowID branchRunID : string) : string :=
  let base := TrimSpace baseWorkflowID in
  (if decide (base = "") then "workflow" else base) +:+ "~branch~" +:+ sanitizeEvalRunID branchRunID.

(** Every normalisation, that of a record just read included, stamps the record. *)
Definition normalizeReplayBranchRecord (now : Time) (x : ReplayBranchRecord) : ReplayBranchRecord :=
  mkBranch (TrimSpace (rb_ID x)) (if IsZero (rb_CreatedAt x) then now else rb_CreatedAt x) now (TrimSpace (rb_TenantID x))
    (TrimSpace (rb_RootRunID x)) (TrimSpace (rb_SourceRunID x)) (TrimSpace (rb_BranchRunID x))
    (TrimSpace (rb_BranchName x)) (TrimSpace (rb_BaseWorkflowID x)) (TrimSpace (rb_BranchWorkflowID x))
    (TrimSpace (rb_FromStep x)) (rb_Mode x) (rb_SideEffectMode x) (rb_SpecOverrideApplied x)
    (rb_InitialInputOverrideApplied x) (rb_RunStatus x) (TrimSpace (rb_TerminalReason x)).
Definition set_rb_ID (id : string) (x : ReplayBranchRecord) : ReplayBranchRecord :=
  mkBranch id (rb_CreatedAt x) (rb_UpdatedAt x) (rb_TenantID x) (rb_RootRunID x) (rb_SourceRunID x) (rb_BranchRunID x)
    (rb_BranchName x) (rb_BaseWorkflowID x) (rb_BranchWorkflowID x) (rb_FromStep x) (rb_Mode x) (rb_SideEffectMode x)
    (rb_SpecOverrideApplied x) (rb_InitialInputOverrideApplied x) (rb_RunStatus x) (rb_TerminalReason x).

Definition validateReplayMode (mode : string) : option error :=
  if decide (mode = ReplayLive \/ mode = ReplayTimeTravel) then None
  else Some (ENew ("unknown replay mode: " +:+ Quote mode)).

(** The outputs a branch reuses: those of the nodes outside [suffix], and perhaps that of the
    step itself. *)
Definition replayBranchCache (entries : gmap string replayCacheEntry) (suffix : gset string) (includeFromStep : bool)
    (fromStep : string) : option (gmap string replayCacheEntry) :=
  if decide (entries = ∅) then None
  else if decide (suffix = ∅) then Some entries
  else
    let out := filter (fun ne => ne.1 ∉ suffix) entries in
    let out := if includeFromStep && negb (bool_decide (TrimSpace fromStep = "")) then
                 match entries !! fromStep with Some entry => <[fromStep := entry]> out | None => out end
               else out in
    if decide (out = ∅) then None else Some out.
Definition replayInitialInputForRun (source : Run) (fallback : bytes) : bytes :=
  if decide (r_InitialInput source = []) then fallback else r_InitialInput source.
Definition branch_less (a b : ReplayBranchRecord) : bool :=
  if bool_decide (rb_CreatedAt a = rb_CreatedAt b) then string_lt (rb_BranchRunID a) (rb_BranchRunID b)
  else Before (rb_CreatedAt a) (rb_CreatedAt b).

Section branches.
Context {S F A : Type} `{Store S} `{ArtifactStore A} `{Ambient} `{MapOrder} `{EngineJSON} `{BranchJSON}.
Variable decodeSpec : bytes -> WorkflowSpec + error.
Implicit Types r : Runner S F A.

(** ** Records *)
Definition saveReplayBranch (now : Time) (x : ReplayBranchRecord) r : Runner S F A * option error :=
  let x := normalizeReplayBranchRecord now x in
  let x := if decide (rb_ID x = "") then set_rb_ID (replayBranchID (rb_BranchRunID x)) x else x in
  match putJSONKV (replayBranchKey (rb_ID x)) x r with
  | (r, Some err) => (r, Some err)
  | (r, None) =>
    match onStore (PutKV (replayBranchRunLookupKey (rb_BranchRunID x)) (rb_ID x)) r with
    | (r, Some err) => (r, Some err)
    | (r, None) =>
      match upsertIndexID replayBranchIndexKey (rb_ID x) r with
      | (r, Some err) => (r, Some err)
      | (r, None) => upsertIndexID (replayBranchRootIndexKey (rb_RootRunID x)) (rb_ID x) r
      end
    end
  end.
Definition GetReplayBranch (ctx : Ctx) (now : Time) (branchID : string) r :
    Runner S F A * (option ReplayBranchRecord + error) :=
  match getJSONKV (replayBranchKey branchID) r with
  | None => (r, inl None)
  | Some (inr err) => (r, inr err)
  | Some (inl x) =>
    let x := normalizeReplayBranchRecord now x in
    if decide (rb_TenantID x = "") then (r, inl (Some x))
    else
      match ensureRunTenantAccess ctx now
              (mkRun (rb_BranchRunID x) (rb_BaseWorkflowID x) "" None None [] [] (rb_TenantID x) "" [] noBudget noUsage)
              "replay.branch" r with
      | (r, Some err) => (r, inr err)
      | (r, None) => (r, inl (Some x))
      end
  end.
Definition GetReplayBranchByRun (ctx : Ctx) (now : Time) (runID : string) r :
    Runner S F A * (option ReplayBranchRecord + error) :=
  match GetKV (replayBranchRunLookupKey runID) (rn_store r) with
  | None => (r, inl None)
  | Some branchID => if decide (TrimSpace branchID = "") then (r, inl None) else GetReplayBranch ctx now branchID r
  end.

(** ** The timeline *)
Definition replayTimelineRootRunID (ctx : Ctx) (now : Time) (runID : string) r : Runner S F A * (string + error) :=
  let runID := TrimSpace runID in
  if decide (runID = "") then (r, inr (ENew "run id is required"))
  else
    match GetReplayBranchByRun ctx now runID r with
    | (r, inr err) => (r, inr err)
    | (r, inl (Some x)) => (r, inl (rb_RootRunID x))
    | (r, inl None) => (r, inl runID)
    end.
(** Records that are gone or not accessible are left out. *)
Fixpoint branchRows (ctx : Ctx) (now : Time) (ids : list string) r : Runner S F A * list ReplayBranchRecord :=
  match ids with
  | [] => (r, [])
  | id :: ids =>
    let '(r, res) := GetReplayBranch ctx now id r in
    let '(r, xs) := branchRows ctx now ids r in
    (r, match res with inl (Some x) => x :: xs | _ => xs end)
  end.
Definition ListReplayBranches (ctx : Ctx) (now : Time) (runID : string) r :
    Runner S F A * (list ReplayBranchRecord + error) :=
  match replayTimelineRootRunID ctx now runID r with
  | (r, inr err) => (r, inr err)
  | (r, inl rootRunID) =>
    match indexIDs (replayBranchRootIndexKey rootRunID) r with
    | inr err => (r, inr err)
    | inl ids => let '(r, out) := branchRows ctx now ids r in (r, inl (sortSlice branch_less out))
    end
  end.
Definition BuildReplayTimeline (ctx : Ctx) (now : Time) (runID : string) r :
    Runner S F A * (ReplayTimelineView + error) :=
  match replayTimelineRootRunID ctx now runID r with
  | (r, inr err) => (r, inr err)
  | (r, inl rootRunID) =>
    match GetRun rootRunID (rn_store r) with
    | None => (r, inr ErrRunNotFound)
    | Some rootRun =>
      match ensureRunTenantAccess ctx now rootRun "replay.timeline" r with
      | (r, Some err) => (r, inr err)
      | (r, None) =>
        match ListReplayBranches ctx now rootRunID r with
        | (r, inr err) => (r, inr err)
        | (r, inl branches) => (r, inl (mkTimeline rootRunID rootRun branches))
        end
      end
    end
  end.

(** ** What a branch starts from *)
Definition buildReplayBranchCache (sourceRunID : string) (exec : WorkflowGraph F) (fromStep mode : string) r :
    option (gmap string replayCacheEntry) + error :=
  let sourceRunID := TrimSpace sourceRunID in
  let fromStep := TrimSpace fromStep in
  if decide (mode = ReplayLive /\ fromStep = "") then inl None
  else
    let cache := buildReplayCacheFromRun sourceRunID r in
    if decide (fromStep = "") then inl (if decide (mode = ReplayTimeTravel) then Some cache else None)
    else if negb (graphHasNode exec fromStep) then inr (ENew ("replay: unknown from-step " +:+ Quote fromStep))
    else
      inl (replayBranchCache cache (downstreamNodes exec fromStep)
             (bool_decide (mode = ReplayTimeTravel) &&
              nodeHasSucceededAttempt (ListNodeExecutions sourceRunID (rn_store r)) fromStep) fromStep).
Definition compileBranchWorkflow (reg : HandlerRegistry F) (spec : bytes) : WorkflowGraph F + error :=
  match ParseWorkflowSpecJSON decodeSpec spec with
  | inr err => inr err
  | inl (graph, workflowSpec) => CompileSpecToExecutable workflowSpec graph (Some reg)
  end.

(** The request of the run of a branch, and the root of its timeline. *)
Record BranchPlan : Type := mkPlan {
  bp_Request : RunRequest F;
  bp_Root : string;
  bp_Source : Run;
  bp_Mode : string
}.
Definition planBranch (ctx : Ctx) (now : Time) (q : ReplayBranchRequest) r : Runner S F A * (BranchPlan + error) :=
  let sourceRunID := TrimSpace (bq_SourceRunID q) in
  let branchRun := TrimSpace (bq_BranchRunID q) in
  let fromStep := TrimSpace (bq_FromStep q) in
  let mode := if decide (bq_Mode q = "") then ReplayTimeTravel else bq_Mode q in
  if decide (sourceRunID = "") then (r, inr (ENew "source_run_id is required"))
  else
    match validateReplayMode mode with
    | Some err => (r, inr err)
    | None =>
      match GetRun sourceRunID (rn_store r) with
      | None => (r, inr ErrRunNotFound)
      | Some source =>
        match ensureRunTenantAccess ctx now source "replay.branch_create" r with
        | (r, Some err) => (r, inr err)
        | (r, None) =>
          let branchRun := if decide (branchRun = "") then branchRunID now (r_RunID source) (TrimSpace (bq_BranchName q)) else branchRun in
          let spec := if decide (bq_SpecOverride q = []) then r_Spec source else bq_SpecOverride q in
          match HandlerRegistryForTenant (r_TenantID source) r with
          | None => (r, inr (ENew "replay branch: no handler registry configured"))
          | Some reg =>
            match compileBranchWorkflow reg spec with
            | inr err => (r, inr (EWrap ("replay branch compile failed: " +:+ Error err) err))
            | inl exec =>
              let input := replayInitialInputForRun source (initialInputFromRun (r_RunID source) exec r) in
              let input := if decide (bq_InitialInputOverride q = []) then input else bq_InitialInputOverride q in
              let exec := if decide (bq_SpecOverride q = []) then exec
                          else mkGraph _ (branchWorkflowID (r_WorkflowID source) branchRun) (Nodes exec) (Edges exec)
                                 (g_TimeoutMS exec) in
              match GetReplayBranchByRun ctx now (r_RunID source) r with
              | (r, inr err) => (r, inr err)
              | (r, inl sourceBranch) =>
                match buildReplayBranchCache (r_RunID source) exec fromStep mode r with
                | inr err => (r, inr err)
                | inl cache =>
                  (r, inl (mkPlan (mkRequest _ branchRun exec input spec cache)
                             (from_option rb_RootRunID (r_RunID source) sourceBranch) source mode))
                end
              end
            end
          end
        end
      end
    end.
Definition branchRecord (q : ReplayBranchRequest) (p : BranchPlan) (branchRun : Run) : ReplayBranchRecord :=
  mkBranch (replayBranchID (rq_RunID (bp_Request p))) zeroTime zeroTime (r_TenantID (bp_Source p)) (bp_Root p)
    (r_RunID (bp_Source p)) (r_RunID branchRun) (TrimSpace (bq_BranchName q)) (r_WorkflowID (bp_Source p))
    (r_WorkflowID branchRun) (TrimSpace (bq_FromStep q)) (bp_Mode p) (bq_SideEffectMode q)
    (negb (bool_decide (bq_SpecOverride q = []))) (negb (bool_decide (bq_InitialInputOverride q = [])))
    (r_Status branchRun) (r_TerminalReason branchRun).
(** The context of the run: the scope of the replay, and the side-effect mode asked for. *)
Definition branchContext (now : Time) (q : ReplayBranchRequest) (p : BranchPlan) (ctx : CallCtx) : CallCtx :=
  let ctx := WithReplayScope now (r_RunID (bp_Source p)) (bp_Mode p) ctx in
  if decide (bq_SideEffectMode q = "") then ctx else WithSideEffectMode (bq_SideEffectMode q) ctx.
(** Recording the branch when its run has returned, at [ended]; errors of the run are not
    errors of the branch, unless there is no run. *)
Definition recordBranch (ctx : Ctx) (ended : Time) (q : ReplayBranchRequest) (p : BranchPlan) (runErr : option error) r :
    Runner S F A * (option ReplayBranchRecord + error) :=
  match GetRun (rq_RunID (bp_Request p)) (rn_store r) with
  | None => (r, inr (default ErrRunNotFound runErr))
  | Some branchRun =>
    let x := branchRecord q p branchRun in
    match saveReplayBranch ended x r with
    | (r, Some err) => (r, inr err)
    | (r, None) =>
      let r := appendAuditRecord ctx ended
                 (mkAudit "" zeroTime (r_TenantID (bp_Source p)) "" "replay.branch_create" "replay_branch" (rb_ID x)
                    (r_RunID branchRun) (r_WorkflowID branchRun) AuditOutcomeAllowed "created alternate replay timeline branch") r in
      GetReplayBranch ctx ended (rb_ID x) r
    end
  end.
Definition CreateReplayBranch (run : CallCtx -> RunRequest F -> Runner S F A -> Runner S F A * option error)
    (ctx : CallCtx) (now ended : Time) (q : ReplayBranchRequest) r :
    Runner S F A * (option ReplayBranchRecord + error) :=
  match planBranch ctx now q r with
  | (r, inr err) => (r, inr err)
  | (r, inl p) =>
    let '(r, runErr) := run (branchContext now q p ctx) (bp_Request p) r in
    match runErr with
    | Some err => if unwrapsTo err ErrRunAlreadyExists then (r, inr err) else recordBranch ctx ended q p runErr r
    | None => recordBranch ctx ended q p runErr r
    end
  end.
End branches.
