(* ===== verification/MultiAgent.v ===== *)
(** * Multi-agent messages (internal/multiagent/types.go, validate.go, patterns.go)

    The message agents put in the value of a broker message, its validation, the topics of
    agents and teams, and the messages of the coordination patterns.  [AgentMessage_Validate] has a value
    receiver, but the coordination data are behind a pointer: it normalises them in place, up
    to the first error.  encoding/json is a parameter. *)
From S2P Require Import Prelude Storage Graph EngineStore Risk Tools Runtime AgentState Evals.
From Stdlib Require Import Ascii.

Definition RouteKindDirect : string := "direct".
Definition RouteKindCapability : string := "capability".
Definition RouteKindBroadcast : string := "broadcast".

Definition PatternPlannerWorker : string := "planner_worker".
Definition PatternPlannerReviewer : string := "planner_reviewer".
Definition PatternHandoff : string := "handoff".
Definition PatternBroadcast : string := "broadcast_request".
Definition PatternRequestReply : string := "request_reply".
Definition PatternEscalation : string := "escalation".
Definition FailureActionEscalate : string := "escalate".
Definition FailureActionHandoff : string := "handoff".
Definition FailureActionFail : string := "fail".

Record CoordinationTarget : Type := mkTarget {
  tg_Receiver : string; tg_Team : string; tg_Capability : string; tg_Role : string
}.
Record FailureStrategy : Type := mkStrategy {
  fs_Action : string;
  fs_EscalationChain : list CoordinationTarget;
  fs_FallbackHandoffTo : option CoordinationTarget
}.
Record CoordinationMetadata : Type := mkCoordination {
  co_Pattern : string;
  co_ParentMessageID : string;
  co_ParentSender : string;
  co_HandoffFrom : string;
  co_HandoffReason : string;
  co_RequiresReply : bool;
  co_ReviewRequired : bool;
  co_EscalationIndex : Z;
  co_FailureStrategy : option FailureStrategy
}.
Record FailureSignal : Type := mkFailure {
  fl_Code : string; fl_Message : string; fl_FailedAgent : string; fl_Retryable : bool
}.
Record AgentMessage : Type := mkAgentMessage {
  ag_MessageID : string;
  ag_CorrelationID : string;
  ag_ReplyTo : string;
  ag_CreatedAt : option Time;
  ag_TenantID : string;
  ag_Sender : string;
  ag_Receiver : string;
  ag_Team : string;
  ag_Role : string;
  ag_Capability : string;
  ag_Intent : string;
  ag_Route : string;
  ag_Coordination : option CoordinationMetadata;
  ag_Payload : bytes
}.

(** ** Errors *)
Definition ErrEmptyMessage : error := ESentinel "ErrEmptyMessage" "agent message is empty".
Definition ErrNoRouteTarget : error := ESentinel "ErrNoRouteTarget"
  "agent message must include exactly one route target (receiver, capability/role, or team)".
Definition ErrAmbiguousRoute : error := ESentinel "ErrAmbiguousRoute" "agent message has ambiguous route target".
Definition ErrInvalidRouteKind : error := ESentinel "ErrInvalidRouteKind" "invalid route kind".
Definition ErrRouteMismatch : error := ESentinel "ErrRouteMismatch" "declared route does not match message fields".
Definition ErrTargetTopicRequiresRouting : error :=
  ESentinel "ErrTargetTopicRequiresRouting" "target topic requires capability routing lookup".
Definition ErrSourceTopicSenderMismatch : error :=
  ESentinel "ErrSourceTopicSenderMismatch" "sender does not match source outbox topic".
Definition ErrMissingSender : error := ESentinel "ErrMissingSender" "sender is required".
Definition ErrMissingIntent : error := ESentinel "ErrMissingIntent" "intent is required".
Definition ErrMissingPayload : error := ESentinel "ErrMissingPayload" "payload is required".
Definition ErrPayloadMustBeJSONObject : error := ESentinel "ErrPayloadMustBeJSONObject" "payload must be a JSON object".
Definition ErrInvalidPayloadJSON : error := ESentinel "ErrInvalidPayloadJSON" "payload is not valid JSON".
Definition ErrInvalidTopicIDComponent : error := ESentinel "ErrInvalidTopicIDComponent" "invalid topic id component".

(** ** Topics *)
Definition topicIDComponentRe (s : string) : bool := negb (bool_decide (s = "")) && forallb idChar (chars s).
Definition validateTopicIDComponent (kind id : string) : option error :=
  let v := TrimSpace id in
  if decide (v = "") then Some (wrapf ErrInvalidTopicIDComponent (kind +:+ " cannot be empty"))
  else if decide (v <> id)
  then Some (wrapf ErrInvalidTopicIDComponent (kind +:+ " " +:+ Quote id +:+ " cannot have surrounding whitespace"))
  else if negb (topicIDComponentRe v)
  then Some (wrapf ErrInvalidTopicIDComponent (kind +:+ " " +:+ Quote id +:+ " must match ^[a-zA-Z0-9_-]+$"))
  else None.
Definition componentTopic (kind prefix suffix id : string) : string + error :=
  match validateTopicIDComponent kind id with
  | Some err => inr err
  | None => inl (prefix +:+ id +:+ suffix)
  end.
Definition AgentInboxTopic (agentID : string) : string + error := componentTopic "agent id" "agent." ".inbox" agentID.
Definition AgentOutboxTopic (agentID : string) : string + error := componentTopic "agent id" "agent." ".outbox" agentID.
Definition TeamBroadcastTopic (teamID : string) : string + error := componentTopic "team id" "team." ".broadcast" teamID.

Definition parseTopicComponent (topic prefix suffix kind : string) : option string :=
  if negb (HasPrefix topic prefix) || negb (HasSuffix topic suffix) then None
  else
    let id := TrimSuffix (TrimPrefix topic prefix) suffix in
    if decide (id = "") then None
    else match validateTopicIDComponent kind id with Some _ => None | None => Some id end.
Definition AgentIDFromInboxTopic (topic : string) : option string := parseTopicComponent topic "agent." ".inbox" "agent id".
Definition AgentIDFromOutboxTopic (topic : string) : option string := parseTopicComponent topic "agent." ".outbox" "agent id".
Definition TeamIDFromBroadcastTopic (topic : string) : option string := parseTopicComponent topic "team." ".broadcast" "team id".

(** ** Routes *)
Definition CapabilityOrRole (m : AgentMessage) : string :=
  if decide (TrimSpace (ag_Capability m) <> "") then TrimSpace (ag_Capability m) else TrimSpace (ag_Role m).
Definition given (s : string) : bool := negb (bool_decide (s = "")).
Definition countGiven (l : list bool) : Z := zlen (filter (fun b => b = true) l).
Definition ResolvedRouteKind (m : AgentMessage) : string + error :=
  let hasReceiver := given (TrimSpace (ag_Receiver m)) in
  let hasTeam := given (TrimSpace (ag_Team m)) in
  let hasCapability := given (TrimSpace (ag_Capability m)) || given (TrimSpace (ag_Role m)) in
  let count := countGiven [hasReceiver; hasTeam; hasCapability] in
  if count =? 0 then inr ErrNoRouteTarget
  else if 1 <? count then inr ErrAmbiguousRoute
  else
    let inferred := if hasReceiver then RouteKindDirect else if hasTeam then RouteKindBroadcast else RouteKindCapability in
    let raw := TrimSpace (ag_Route m) in
    if decide (raw <> "") then
      let declared := ToLower raw in
      if decide (declared ∈ [RouteKindDirect; RouteKindCapability; RouteKindBroadcast]) then
        if decide (declared <> inferred)
        then inr (wrapf ErrRouteMismatch ("declared=" +:+ declared +:+ " inferred=" +:+ inferred))
        else inl declared
      else inr (wrapf ErrInvalidRouteKind (Quote (ag_Route m)))
    else inl inferred.
Definition TargetTopic (m : AgentMessage) : string + error :=
  match ResolvedRouteKind m with
  | inr err => inr err
  | inl kind =>
    if decide (kind = RouteKindDirect) then AgentInboxTopic (TrimSpace (ag_Receiver m))
    else if decide (kind = RouteKindBroadcast) then TeamBroadcastTopic (TrimSpace (ag_Team m))
    else if decide (kind = RouteKindCapability) then inr ErrTargetTopicRequiresRouting
    else inr (wrapf ErrInvalidRouteKind kind)
  end.

(** ** Coordination data *)
(** The first error of checks made one after the other. *)
Definition firstError (checks : list (option error)) : option error := head (omap id checks).
Definition checkGiven (kind v : string) : option error :=
  if decide (v = "") then None else validateTopicIDComponent kind v.
Definition normalizeTarget (t : CoordinationTarget) : CoordinationTarget * option error :=
  let t := mkTarget (TrimSpace (tg_Receiver t)) (TrimSpace (tg_Team t)) (TrimSpace (tg_Capability t)) (TrimSpace (tg_Role t)) in
  let count := countGiven (given <$> [tg_Receiver t; tg_Team t; tg_Capability t; tg_Role t]) in
  (t, firstError [checkGiven "receiver" (tg_Receiver t); checkGiven "team" (tg_Team t);
                  checkGiven "capability" (tg_Capability t); checkGiven "role" (tg_Role t);
                  if (count =? 0) || (1 <? count) then Some ErrNoRouteTarget else None]).
Fixpoint normalizeChain (l : list CoordinationTarget) : list CoordinationTarget * option error :=
  match l with
  | [] => ([], None)
  | t :: l =>
    match normalizeTarget t with
    | (t, Some err) => (t :: l, Some err)
    | (t, None) => let '(l, err) := normalizeChain l in (t :: l, err)
    end
  end.
Definition normalizeStrategy (f : FailureStrategy) : FailureStrategy * option error :=
  let action := TrimSpace (fs_Action f) in
  if decide (action ∉ [""; FailureActionEscalate; FailureActionHandoff; FailureActionFail])
  then (mkStrategy action (fs_EscalationChain f) (fs_FallbackHandoffTo f),
        Some (ENew ("invalid failure action " +:+ Quote action)))
  else
    match normalizeChain (fs_EscalationChain f) with
    | (chain, Some err) => (mkStrategy action chain (fs_FallbackHandoffTo f), Some err)
    | (chain, None) =>
      match fs_FallbackHandoffTo f with
      | None => (mkStrategy action chain None, None)
      | Some t => let '(t, err) := normalizeTarget t in (mkStrategy action chain (Some t), err)
      end
    end.
Definition normalizeCoordination (c : CoordinationMetadata) : CoordinationMetadata * option error :=
  let pattern := TrimSpace (co_Pattern c) in
  let parentSender := TrimSpace (co_ParentSender c) in
  let handoffFrom := TrimSpace (co_HandoffFrom c) in
  let with_ index strategy :=
    mkCoordination pattern (TrimSpace (co_ParentMessageID c)) parentSender handoffFrom (TrimSpace (co_HandoffReason c))
      (co_RequiresReply c) (co_ReviewRequired c) index strategy in
  if decide (pattern ∉ [""; PatternPlannerWorker; PatternPlannerReviewer; PatternHandoff; PatternBroadcast;
                        PatternRequestReply; PatternEscalation])
  then (with_ (co_EscalationIndex c) (co_FailureStrategy c), Some (ENew ("invalid coordination pattern " +:+ Quote pattern)))
  else
    match firstError [checkGiven "parent sender" parentSender; checkGiven "handoff_from" handoffFrom] with
    | Some err => (with_ (co_EscalationIndex c) (co_FailureStrategy c), Some err)
    | None =>
      let index := if co_EscalationIndex c <? 0 then 0 else co_EscalationIndex c in
      match co_FailureStrategy c with
      | None => (with_ index None, None)
      | Some f => let '(f, err) := normalizeStrategy f in (with_ index (Some f), err)
      end
    end.

Definition set_ag_Coordination (c : option CoordinationMetadata) (m : AgentMessage) : AgentMessage :=
  mkAgentMessage (ag_MessageID m) (ag_CorrelationID m) (ag_ReplyTo m) (ag_CreatedAt m) (ag_TenantID m) (ag_Sender m)
    (ag_Receiver m) (ag_Team m) (ag_Role m) (ag_Capability m) (ag_Intent m) (ag_Route m) c (ag_Payload m).
Definition set_ag_ReplyTo (x : string) (m : AgentMessage) : AgentMessage :=
  mkAgentMessage (ag_MessageID m) (ag_CorrelationID m) x (ag_CreatedAt m) (ag_TenantID m) (ag_Sender m)
    (ag_Receiver m) (ag_Team m) (ag_Role m) (ag_Capability m) (ag_Intent m) (ag_Route m) (ag_Coordination m) (ag_Payload m).
Definition applyTarget (m : AgentMessage) (target : CoordinationTarget) : AgentMessage + error :=
  match normalizeTarget target with
  | (_, Some err) => inr err
  | (t, None) =>
    let to receiver team role capability :=
      mkAgentMessage (ag_MessageID m) (ag_CorrelationID m) (ag_ReplyTo m) (ag_CreatedAt m) (ag_TenantID m) (ag_Sender m)
        receiver team role capability (ag_Intent m) (ag_Route m) (ag_Coordination m) (ag_Payload m) in
    inl (if decide (tg_Receiver t <> "") then to (tg_Receiver t) "" "" ""
         else if decide (tg_Team t <> "") then to "" (tg_Team t) "" ""
         else if decide (tg_Capability t <> "") then to "" "" "" (tg_Capability t)
         else to "" "" (tg_Role t) "")
  end.

(** The value a failed message is sent on with. *)
Record FailurePayload : Type := mkFailurePayload { fp_original_payload : bytes; fp_failure : FailureSignal }.
Class AgentMessageJSON : Type := {
  #[global] json_agentMessage :: JSON AgentMessage;
  #[global] json_failurePayload :: JSON FailurePayload
}.

Section messages.
Context `{JSON json} `{JSONSyntax} `{AgentMessageJSON}.

Definition ParseAgentMessage (b : bytes) : AgentMessage + error :=
  if decide (TrimSpace (toString b) = "") then inr ErrEmptyMessage
  else match unmarshal b with
       | inr err => inr (EWrap ("parse agent message json: " +:+ Error err) err)
       | inl m => inl m
       end.
Definition objectPayload (decodeError : error -> error) (b : bytes) : option error :=
  if negb (validJSON b) then Some ErrInvalidPayloadJSON
  else match unmarshal (T := json) b with
       | inr err => Some (decodeError err)
       | inl (JObject _) => None
       | inl _ => Some ErrPayloadMustBeJSONObject
       end.
(** The message with its coordination data normalised, and the error if there is one. *)
Definition AgentMessage_Validate (m : AgentMessage) : AgentMessage * option error :=
  let fields := firstError
    [if decide (TrimSpace (ag_Sender m) = "") then Some ErrMissingSender else None;
     if decide (TrimSpace (ag_Intent m) = "") then Some ErrMissingIntent else None;
     validateTopicIDComponent "sender" (ag_Sender m);
     if decide (TrimSpace (ag_Receiver m) = "") then None else validateTopicIDComponent "receiver" (ag_Receiver m);
     if decide (TrimSpace (ag_Team m) = "") then None else validateTopicIDComponent "team" (ag_Team m);
     match ResolvedRouteKind m with
     | inr err => Some err
     | inl kind => if decide (kind = RouteKindCapability /\ TrimSpace (CapabilityOrRole m) = "") then Some ErrNoRouteTarget else None
     end;
     if decide (ag_Payload m = []) then Some ErrMissingPayload else None;
     objectPayload (fun err => EWrap ("decode payload: " +:+ Error err) err) (ag_Payload m)] in
  match fields, ag_Coordination m with
  | Some err, _ => (m, Some err)
  | None, None => (m, None)
  | None, Some c => let '(c, err) := normalizeCoordination c in (set_ag_Coordination (Some c) m, err)
  end.

(** ** The messages of the patterns *)
(** A payload is missing, encoded, or a value, given by its encoding. *)
Inductive Payload : Type :=
| NoPayload
| RawPayload (b : bytes)
| ValuePayload (encoded : bytes + error).
Definition rawObject (b : bytes) : bytes + error :=
  match objectPayload id b with Some err => inr err | None => inl b end.
Definition marshalPayloadObject (p : Payload) : bytes + error :=
  match p with
  | NoPayload => inr ErrMissingPayload
  | RawPayload b => rawObject b
  | ValuePayload (inr err) => inr err
  | ValuePayload (inl b) => rawObject b
  end.
(** A message that is not valid is returned with its error. *)
Definition validated (m : AgentMessage) : AgentMessage + error :=
  match AgentMessage_Validate m with (m, None) => inl m | (_, Some err) => inr err end.
Definition toTarget (m : AgentMessage) (target : CoordinationTarget) : AgentMessage + error :=
  match applyTarget m target with inr err => inr err | inl m => validated m end.
Definition pattern (p : string) : CoordinationMetadata := mkCoordination p "" "" "" "" false false 0 None.
Definition newMessage (now : Time) (correlation tenant sender receiver team intent : string)
    (c : CoordinationMetadata) (payload : bytes) : AgentMessage :=
  mkAgentMessage "" correlation "" (Some now) tenant (TrimSpace sender) receiver team "" "" intent "" (Some c) payload.

Definition NewPlannerWorkerMessage (now : Time) (sender : string) (worker : CoordinationTarget) (intent : string)
    (payload : Payload) : AgentMessage + error :=
  match marshalPayloadObject payload with
  | inr err => inr err
  | inl raw => toTarget (newMessage now "" "" sender "" "" (TrimSpace intent) (pattern PatternPlannerWorker) raw) worker
  end.
Definition NewReviewerRequest (now : Time) (sender : string) (reviewer : CoordinationTarget) (intent : string)
    (payload : Payload) : AgentMessage + error :=
  match NewPlannerWorkerMessage now sender reviewer intent payload with
  | inr err => inr err
  | inl m => inl (set_ag_Coordination
      (Some (mkCoordination PatternPlannerReviewer "" "" "" "" false true 0 None)) m)
  end.
Definition replyToInbox (m : AgentMessage) : AgentMessage :=
  match AgentInboxTopic (ag_Sender m) with inl inbox => set_ag_ReplyTo inbox m | inr _ => m end.
Definition NewBroadcastRequest (now : Time) (sender team intent : string) (payload : Payload) (requireReplies : bool) :
    AgentMessage + error :=
  match marshalPayloadObject payload with
  | inr err => inr err
  | inl raw =>
    let m := newMessage now "" "" sender "" (TrimSpace team) (TrimSpace intent)
               (mkCoordination PatternBroadcast "" "" "" "" requireReplies false 0 None) raw in
    validated (if requireReplies then replyToInbox m else m)
  end.
Definition NewRequestReplyMessage (now : Time) (sender : string) (target : CoordinationTarget) (intent : string)
    (payload : Payload) : AgentMessage + error :=
  match NewPlannerWorkerMessage now sender target intent payload with
  | inr err => inr err
  | inl m => inl (replyToInbox (set_ag_Coordination
      (Some (mkCoordination PatternRequestReply "" "" "" "" true false 0 None)) m))
  end.
Definition NewReply (now : Time) (request : AgentMessage) (sender : string) (payload : Payload) : AgentMessage + error :=
  match marshalPayloadObject payload with
  | inr err => inr err
  | inl raw =>
    validated (newMessage now (firstNonEmpty [ag_CorrelationID request; ag_MessageID request]) "" sender
      (TrimSpace (ag_Sender request)) "" (TrimSpace (ag_Intent request) +:+ ".reply")
      (mkCoordination PatternRequestReply (TrimSpace (firstNonEmpty [ag_MessageID request; ag_CorrelationID request]))
         (TrimSpace (ag_Sender request)) "" "" false false 0 None) raw)
  end.
(** The correlation and the parent of a message that continues another. *)
Definition correlationOf (from : AgentMessage) : string :=
  firstNonEmpty [TrimSpace (ag_CorrelationID from); TrimSpace (ag_MessageID from)].
Definition parentOf (from : AgentMessage) : string :=
  firstNonEmpty [TrimSpace (ag_MessageID from); TrimSpace (ag_CorrelationID from)].
Definition NewHandoff (now : Time) (from : AgentMessage) (sender : string) (target : CoordinationTarget)
    (reason : string) (payload : Payload) : AgentMessage + error :=
  match marshalPayloadObject payload with
  | inr err => inr err
  | inl raw =>
    toTarget (newMessage now (correlationOf from) (TrimSpace (ag_TenantID from)) sender "" "" (TrimSpace (ag_Intent from))
      (mkCoordination PatternHandoff (parentOf from) (TrimSpace (ag_Sender from)) (TrimSpace sender) (TrimSpace reason)
         false false 0 None) raw) target
  end.
Definition escalationTarget (strategy : FailureStrategy) (index : Z) : CoordinationTarget + error :=
  if decide (fs_Action strategy = FailureActionEscalate) then
    match zlookup (fs_EscalationChain strategy) index with
    | None => inr (ENew "escalation chain exhausted")
    | Some t => inl t
    end
  else if decide (fs_Action strategy = FailureActionHandoff) then
    match fs_FallbackHandoffTo strategy with
    | None => inr (ENew "fallback handoff target is required")
    | Some t => inl t
    end
  else inr (ENew ("failure action " +:+ Quote (fs_Action strategy) +:+ " does not produce a follow-up message")).
(** The strategy of the new message is the one of the failed message, which is normalised with it
    in place. *)
Definition EscalateOnFailure (now : Time) (from : AgentMessage) (sender : string) (failure : FailureSignal) :
    AgentMessage * (AgentMessage + error) :=
  match ag_Coordination from with
  | Some (mkCoordination p pm ps hf hr rr rv index (Some strategy)) =>
    let next := if index <? 0 then 0 else index in
    match escalationTarget strategy next with
    | inr err => (from, inr err)
    | inl target =>
      match marshalPayloadObject (ValuePayload (marshal (mkFailurePayload (ag_Payload from) failure))) with
      | inr err => (from, inr err)
      | inl raw =>
        match applyTarget (newMessage now (correlationOf from) (TrimSpace (ag_TenantID from)) sender "" ""
                (TrimSpace (ag_Intent from))
                (mkCoordination PatternEscalation (parentOf from) (TrimSpace (ag_Sender from)) "" "" false false
                   (next +₆₄ 1) (Some strategy)) raw) target with
        | inr err => (from, inr err)
        | inl m =>
          let '(m, err) := AgentMessage_Validate m in
          let strategy := ag_Coordination m ≫= co_FailureStrategy in
          (set_ag_Coordination (Some (mkCoordination p pm ps hf hr rr rv index strategy)) from,
           match err with Some err => inr err | None => inl m end)
        end
      end
    end
  | _ => (from, inr (ENew "failure strategy is required"))
  end.
End messages.
