(* ===== verification/MultiAgentRouter.v ===== *)
(** * Routing between agents (internal/multiagent/registry.go, router.go, config.go)

    The registry from capabilities to agents with its round robin, the router of agent messages
    that is plugged into the broker, and the configuration both are built from.  The registry is
    shared behind a pointer: it is the state of the definitions here; a missing one is [None]. *)
From S2P Require Import Prelude Storage Graph EngineStore Authz Risk Tools Runtime AgentState Evals MultiAgent.
From S2P Require Import BrokerTypes BrokerState Produce.

(** ** The registry of capabilities *)
Definition ErrNilRegistry : error := ESentinel "ErrNilRegistry" "capability registry is nil".
Definition ErrEmptyCapability : error := ESentinel "ErrEmptyCapability" "capability is required".
Definition ErrCapabilityNotFound : error := ESentinel "ErrCapabilityNotFound" "capability not found".
Definition ErrCapabilityHasNoAgents : error := ESentinel "ErrCapabilityHasNoAgents" "capability has no registered agents".

Record CapabilityRegistry : Type := mkCapabilities {
  capToAgents : gmap string (list string);
  rrCursor : gmap string Z
}.
Definition NewCapabilityRegistry : CapabilityRegistry := mkCapabilities ∅ ∅.
Definition normalizeCapability (s : string) : string := ToLower (TrimSpace s).
Definition normalizeAgentID (s : string) : string := TrimSpace s.
(** The key of a capability that agents are registered for. *)
Definition capabilityKey (capability : string) : string + error :=
  let cap := normalizeCapability capability in
  if decide (cap = "") then inr ErrEmptyCapability
  else match validateTopicIDComponent "capability" cap with Some err => inr err | None => inl cap end.

(** The agents before one that is not valid stay registered. *)
Fixpoint registerAgents (cap : string) (agentIDs : list string) (seen : gset string) (reg : CapabilityRegistry) :
    CapabilityRegistry * option error :=
  match agentIDs with
  | [] => (reg, None)
  | raw :: agentIDs =>
    let agentID := normalizeAgentID raw in
    if decide (agentID = "") then registerAgents cap agentIDs seen reg
    else match validateTopicIDComponent "agent id" agentID with
         | Some err => (reg, Some err)
         | None =>
           if decide (agentID ∈ seen) then registerAgents cap agentIDs seen reg
           else registerAgents cap agentIDs ({[agentID]} ∪ seen)
                  (mkCapabilities (<[cap := default [] (capToAgents reg !! cap) ++ [agentID]]> (capToAgents reg)) (rrCursor reg))
         end
  end.
Definition CapabilityRegistry_Register (capability : string) (agentIDs : list string) (reg : CapabilityRegistry) :
    CapabilityRegistry * option error :=
  match capabilityKey capability with
  | inr err => (reg, Some err)
  | inl cap => registerAgents cap agentIDs (list_to_set (default [] (capToAgents reg !! cap))) reg
  end.
Fixpoint replaceAgents (agentIDs : list string) (seen : gset string) : list string + error :=
  match agentIDs with
  | [] => inl []
  | raw :: agentIDs =>
    let agentID := normalizeAgentID raw in
    if decide (agentID = "") then replaceAgents agentIDs seen
    else match validateTopicIDComponent "agent id" agentID with
         | Some err => inr err
         | None =>
           if decide (agentID ∈ seen) then replaceAgents agentIDs seen
           else match replaceAgents agentIDs ({[agentID]} ∪ seen) with
                | inr err => inr err
                | inl next => inl (agentID :: next)
                end
         end
  end.
Definition Replace (capability : string) (agentIDs : list string) (reg : CapabilityRegistry) :
    CapabilityRegistry * option error :=
  match capabilityKey capability with
  | inr err => (reg, Some err)
  | inl cap =>
    match replaceAgents agentIDs ∅ with
    | inr err => (reg, Some err)
    | inl next => (mkCapabilities (<[cap := next]> (capToAgents reg)) (<[cap := 0]> (rrCursor reg)), None)
    end
  end.
Definition CapabilityRegistry_Snapshot (reg : CapabilityRegistry) : gmap string (list string) := capToAgents reg.
Definition ListCapabilities (reg : CapabilityRegistry) : list string := sortStrings (elements (dom (capToAgents reg))).
Definition ResolveAgent (capability : string) (reg : CapabilityRegistry) : CapabilityRegistry * (string + error) :=
  let cap := normalizeCapability capability in
  if decide (cap = "") then (reg, inr ErrEmptyCapability)
  else
    match capToAgents reg !! cap with
    | None => (reg, inr (wrapf ErrCapabilityNotFound cap))
    | Some agents =>
      if decide (agents = []) then (reg, inr (wrapf ErrCapabilityHasNoAgents cap))
      else
        let idx := default 0 (rrCursor reg !! cap) in
        let idx := if idx <? 0 then 0 else idx in
        let selected := default "" (zlookup agents (idx `mod` zlen agents)) in
        (mkCapabilities (capToAgents reg) (<[cap := (idx + 1) `mod` zlen agents]> (rrCursor reg)), inl selected)
    end.

(** ** The router *)
Definition RouterName : string := "multiagent-v3.1".
Record RouterConfig : Type := mkRouterConfig { rc_Strict : bool; rc_SourceTopics : gset string }.
Definition SourceTopicSet (topics : list string) : gset string :=
  list_to_set (filter (fun t => t <> "") (TrimSpace <$> topics)).
(** [NewRouter], [NewRouterWithRegistry]: without source topics every topic is routed. *)
Definition NewRouter (strict : bool) (sourceTopics : option (gset string)) : RouterConfig :=
  mkRouterConfig strict (default ∅ sourceTopics).

Definition noDecision : RoutingDecision := mkDecision "" "" None ∅.
Definition putMeta (key value : string) (m : gmap string string) : gmap string string := <[key := value]> m.
Definition putGiven (key value : string) (m : gmap string string) : gmap string string :=
  if decide (value = "") then m else putMeta key value m.
Definition coordinationMeta (c : CoordinationMetadata) (m : gmap string string) : gmap string string :=
  let m := putGiven "pattern" (TrimSpace (co_Pattern c)) m in
  let m := if co_RequiresReply c then putMeta "requires_reply" "true" m else m in
  let m := if co_ReviewRequired c then putMeta "review_required" "true" m else m in
  let m := putGiven "handoff_from" (TrimSpace (co_HandoffFrom c)) m in
  if 0 <? co_EscalationIndex c then putMeta "escalation_index" (pretty (co_EscalationIndex c)) m else m.
Definition messageMeta (topic kind : string) (am : AgentMessage) : gmap string string :=
  let m := putMeta "router" RouterName (putMeta "route_kind" kind (putMeta "source_topic" topic
             (putMeta "sender" (TrimSpace (ag_Sender am)) (putMeta "intent" (TrimSpace (ag_Intent am)) ∅)))) in
  let m := putGiven "tenant_id" (TrimSpace (ag_TenantID am)) m in
  let m := putGiven "correlation_id" (TrimSpace (ag_CorrelationID am)) m in
  let m := putGiven "message_id" (TrimSpace (ag_MessageID am)) m in
  let m := match ag_Coordination am with None => m | Some c => coordinationMeta c m end in
  match AgentIDFromOutboxTopic topic with None => m | Some id => putMeta "source_agent" id m end.

Section router.
Context `{JSON json} `{JSONSyntax} `{AgentMessageJSON}.

(** The message a router reads, or the reason why it does not. *)
Definition readAgentMessage (value : bytes) : AgentMessage + error :=
  match ParseAgentMessage value with
  | inr err => inr err
  | inl am => match AgentMessage_Validate am with (am, None) => inl am | (_, Some err) => inr err end
  end.
(** The topic of a message and what is recorded of the choice. *)
Definition routeTarget (kind : string) (am : AgentMessage) (reg : option CapabilityRegistry) (meta : gmap string string) :
    option CapabilityRegistry * (string * gmap string string + error) :=
  let to (reg : option CapabilityRegistry) (topic : string + error) key value :=
    (reg, match topic with inr err => inr err | inl t => inl (t, putMeta key value meta) end) in
  if decide (kind = RouteKindDirect) then
    to reg (AgentInboxTopic (TrimSpace (ag_Receiver am))) "receiver" (TrimSpace (ag_Receiver am))
  else if decide (kind = RouteKindBroadcast) then
    to reg (TeamBroadcastTopic (TrimSpace (ag_Team am))) "team" (TrimSpace (ag_Team am))
  else if decide (kind = RouteKindCapability) then
    match reg with
    | None => (None, inr ErrNilRegistry)
    | Some reg =>
      match ResolveAgent (CapabilityOrRole am) reg with
      | (reg, inr err) => (Some reg, inr err)
      | (reg, inl agentID) =>
        (Some reg, match AgentInboxTopic agentID with
                   | inr err => inr err
                   | inl t => inl (t, putMeta "selected_agent" agentID (putMeta "capability" (CapabilityOrRole am) meta))
                   end)
      end
    end
  else (reg, inr (wrapf ErrInvalidRouteKind kind)).
Definition Route (cfg : RouterConfig) (topic : string) (msg : Message) (reg : option CapabilityRegistry) :
    option CapabilityRegistry * (RoutingDecision + error) :=
  if decide (rc_SourceTopics cfg <> ∅ /\ topic ∉ rc_SourceTopics cfg) then (reg, inl noDecision)
  else
    match readAgentMessage (m_Value msg) with
    | inr err => (reg, if rc_Strict cfg then inr err else inl noDecision)
    | inl am =>
      let sender := TrimSpace (ag_Sender am) in
      let stranger := match AgentIDFromOutboxTopic topic with None => false | Some id => negb (bool_decide (sender = id)) end in
      if (stranger : bool)
      then (reg, inr (wrapf ErrSourceTopicSenderMismatch ("source_topic=" +:+ topic +:+ " sender=" +:+ sender)))
      else
        match ResolvedRouteKind am with
        | inr err => (reg, inr err)
        | inl kind =>
          match routeTarget kind am reg (messageMeta topic kind am) with
          | (reg, inr err) => (reg, inr err)
          | (reg, inl (target, meta)) => (reg, inl (mkDecision ("multiagent." +:+ kind) target None meta))
          end
        end
    end.
End router.
Definition IsCapabilityResolveError (err : error) : bool :=
  errors_Is err ErrCapabilityNotFound || errors_Is err ErrCapabilityHasNoAgents ||
  errors_Is err ErrEmptyCapability || errors_Is err ErrNilRegistry.

(** ** The configuration *)
Record StartupConfig : Type := mkStartup {
  sc_Agents : list string;
  sc_Teams : list string;
  sc_Capabilities : gmap string (list string);
  sc_TopicPartitions : Z;
  sc_RouterStrict : bool;
  sc_SourceTopics : list string
}.
Record BootstrapSummary : Type := mkSummary { bs_Created : list string; bs_Skipped : list string }.

Definition dedupeNormalizedIDs (l : list string) : list string := dedupTrim l ∅.
Definition dedupeTrimmed (l : list string) : list string := dedupTrim l ∅.
Definition validateComponents (kind : string) (ids : list string) : option error :=
  firstError (validateTopicIDComponent kind <$> ids).

Section config.
Context `{MapOrder}.
(** The capabilities with their agents, in the order a map is ranged over. *)
Definition capabilities (cfg : StartupConfig) : list (string * list string) :=
  (fun cap => (cap, default [] (sc_Capabilities cfg !! cap))) <$> order (dom (sc_Capabilities cfg)).
Fixpoint normalizeCapabilities (l : list (string * list string)) (out : gmap string (list string)) :
    gmap string (list string) + error :=
  match l with
  | [] => inl out
  | (rawCap, rawAgents) :: l =>
    let cap := normalizeCapability rawCap in
    if decide (cap = "") then inr (ENew "capabilities contains empty key")
    else
      match validateTopicIDComponent "capability" cap with
      | Some err => inr err
      | None =>
        let agents := dedupeNormalizedIDs rawAgents in
        match validateComponents "agent id" agents with
        | Some err => inr err
        | None => normalizeCapabilities l (<[cap := agents]> out)
        end
      end
  end.
Definition normalizeStartup (cfg : StartupConfig) : StartupConfig + error :=
  let agents := dedupeNormalizedIDs (sc_Agents cfg) in
  let teams := dedupeNormalizedIDs (sc_Teams cfg) in
  match firstError [validateComponents "agent id" agents; validateComponents "team id" teams] with
  | Some err => inr err
  | None =>
    if sc_TopicPartitions cfg <? 0 then inr (ENew "topic_partitions must be >= 0")
    else
      match normalizeCapabilities (capabilities cfg) ∅ with
      | inr err => inr err
      | inl caps =>
        inl (mkStartup agents teams caps (if sc_TopicPartitions cfg =? 0 then 1 else sc_TopicPartitions cfg)
               (sc_RouterStrict cfg) (dedupeTrimmed (sc_SourceTopics cfg)))
      end
  end.
(** [decode] is the decoder that refuses unknown fields. *)
Definition ParseStartupConfig (decode : bytes -> StartupConfig + error) (b : bytes) : StartupConfig + error :=
  if decide (TrimSpace (toString b) = "") then inr (ENew "multiagent config is empty")
  else match decode b with
       | inr err => inr (EWrap ("parse multiagent config: " +:+ Error err) err)
       | inl cfg => normalizeStartup cfg
       end.
Definition AllAgentIDs (cfg : StartupConfig) : list string :=
  sortStrings (dedupTrim (sc_Agents cfg ++ mjoin (snd <$> capabilities cfg)) ∅).
(** The topics of a list of identifiers, or the first error. *)
Fixpoint topicsOf (topics : string -> list (string + error)) (ids : list string) : list string + error :=
  match ids with
  | [] => inl []
  | id :: ids =>
    match foldr (fun t acc => match t, acc with inr err, _ => inr err | _, inr err => inr err | inl t, inl ts => inl (t :: ts) end)
            (inl []) (topics id) with
    | inr err => inr err
    | inl ts => match topicsOf topics ids with inr err => inr err | inl rest => inl (ts ++ rest) end
    end
  end.
Definition DesiredTopics (cfg : StartupConfig) : list string + error :=
  match topicsOf (fun id => [AgentInboxTopic id; AgentOutboxTopic id]) (AllAgentIDs cfg) with
  | inr err => inr err
  | inl agents =>
    match topicsOf (fun id => [TeamBroadcastTopic id]) (sc_Teams cfg) with
    | inr err => inr err
    | inl teams => inl (sortStrings (elements (list_to_set (C := gset string) (agents ++ teams))))
    end
  end.
Fixpoint replaceAll (l : list (string * list string)) (reg : CapabilityRegistry) : CapabilityRegistry + error :=
  match l with
  | [] => inl reg
  | (cap, agents) :: l => match Replace cap agents reg with (_, Some err) => inr err | (reg, None) => replaceAll l reg end
  end.
Definition BuildRegistry (cfg : StartupConfig) : CapabilityRegistry + error :=
  replaceAll (capabilities cfg) NewCapabilityRegistry.
Definition outboxes (ids : list string) : list string :=
  omap (fun id => match AgentOutboxTopic id with inl t => Some t | inr _ => None end) ids.
Definition routerConfig (cfg : StartupConfig) : RouterConfig :=
  mkRouterConfig (sc_RouterStrict cfg) (SourceTopicSet (sc_SourceTopics cfg) ∪ list_to_set (outboxes (AllAgentIDs cfg))).

Context {W : Type} `{WAL W}.
Fixpoint createTopics (topics : list string) (partitions : Z) (out : BootstrapSummary) (b : @InMemoryBroker W) :
    @InMemoryBroker W * (BootstrapSummary * option error) :=
  match topics with
  | [] => (b, (out, None))
  | t :: topics =>
    match CreateTopic t partitions b with
    | (b, None) => createTopics topics partitions (mkSummary (bs_Created out ++ [t]) (bs_Skipped out)) b
    | (b, Some err) =>
      if errors_Is err ErrTopicExists
      then createTopics topics partitions (mkSummary (bs_Created out) (bs_Skipped out ++ [t])) b
      else (b, (out, Some (EWrap ("create topic " +:+ t +:+ ": " +:+ Error err) err)))
    end
  end.
Definition BootstrapTopics (cfg : StartupConfig) (b : @InMemoryBroker W) :
    @InMemoryBroker W * (BootstrapSummary * option error) :=
  match normalizeStartup cfg with
  | inr err => (b, (mkSummary [] [], Some err))
  | inl cfg =>
    match DesiredTopics cfg with
    | inr err => (b, (mkSummary [] [], Some err))
    | inl topics => createTopics topics (sc_TopicPartitions cfg) (mkSummary [] []) b
    end
  end.
End config.
