(* ===== verification/DagInv.v ===== *)
(** * The loop that runs a graph: what a step does to its bookkeeping (lemmas on DagRun.v)

    [core_step] abstracts a step of the loop to the done nodes, outputs, degrees, ready queue
    and flights; every step of the code is such a step ([step_core]), and they preserve the
    invariant [dag_inv]. *)
From stdpp Require Import relations.
From S2P Require Import Prelude Storage Graph GraphSpec EngineStore Throttle Authz Risk Runtime.
From S2P Require Import Governance Human Admission DagRun.

Section inv.
Context {S F A : Type} `{Store S} `{ArtifactStore A} `{Ambient} `{MapOrder} `{EngineJSON}.
Implicit Types (r : Runner S F A) (l : Loop) (cfg : Config F).

(** ** The abstraction *)
Definition coreOf l :=
  (l_done l, l_outputs l, l_inDegree l, l_ready l, l_running l, l_flight l).
Definition framed l l' : Prop :=
  coreOf l' = coreOf l /\ (l_stopScheduling l = true -> l_stopScheduling l' = true) /\
  (l_budgetExceeded l' = true -> l_budgetExceeded l = true \/ l_stopScheduling l' = true).
Ltac frame := by unfold framed; split_and!; simpl; auto.

(** A node leaves the ready queue, or its flight lands. *)
Inductive taken l : string -> Loop -> Prop :=
| taken_ready n rest : l_ready l = n :: rest -> l_stopScheduling l = false -> taken l n (set_l_ready rest l)
| taken_flight i f : l_flight l !! i = Some f ->
    taken l (fl_node f) (set_l_running (l_running l - 1) (set_l_flight (removeAt i (l_flight l)) l)).

Definition sent_ok (f : flight) : Prop :=
  forall res, fl_sent f = Some res -> nr_nodeID res = fl_node f /\ nr_attempt res = fl_attempt f.

(** A node is dropped, started or completed. *)
Inductive productive cfg l l' : Prop :=
| cs_leave l0 n : taken l n l0 -> framed l0 l' -> l_stopScheduling l' = true -> productive cfg l l'
| cs_start n rest f :
    l_ready l = n :: rest -> fl_node f = n -> nodeInput cfg l n = inl (fl_input f) -> sent_ok f ->
    l_running l < c_maxPar cfg -> l_stopScheduling l = false ->
    framed (addFlight f (set_l_ready rest l)) l' -> productive cfg l l'
| cs_complete l0 n ne :
    taken l n l0 -> n_Status ne = NodeStatusSucceeded -> n_NodeID ne = n ->
    framed (completeNode cfg n (n_Output ne) (set_l_done (<[n := ne]> (l_done l)) l0)) l' ->
    productive cfg l l'.
Definition rotated l l' : Prop :=
  exists n rest, l_ready l = n :: rest /\ framed (set_l_ready (rest ++ [n]) l) l'.
Inductive core_step cfg l : PC -> Loop -> Prop :=
| cs_frame pc l' : framed l l' -> core_step cfg l pc l'
| cs_rotate pc l' : rotated l l' -> core_step cfg l pc l'
| cs_productive pc l' : productive cfg l l' -> core_step cfg l pc l'
| cs_abort err l' : core_step cfg l (Returned (Some err)) l'.

Lemma framed_refl l : framed l l.
Proof. frame. Qed.
Lemma framed_trans l1 l2 l3 : framed l1 l2 -> framed l2 l3 -> framed l1 l3.
Proof. unfold framed. intros (E1&S1&B1) (E2&S2&B2). split_and!; [congruence|auto|]. intros Hb. destruct (B2 Hb); [|auto]. destruct B1; auto. Qed.

(** ** The helpers leave the core alone *)
Lemma framed_trigger cfg now a b c d e l r :
  framed l (triggerBudgetExceeded cfg now a b c d e (l, r)).1.
Proof. unfold triggerBudgetExceeded. destruct (l_budgetExceeded l) eqn:E; frame. Qed.
Lemma trigger_stops cfg now a b c d e l r : l_budgetExceeded l = false ->
  l_stopScheduling (triggerBudgetExceeded cfg now a b c d e (l, r)).1 = true.
Proof. unfold triggerBudgetExceeded. by intros ->. Qed.
Lemma framed_dropSlot n l r : framed l (dropSlot n (l, r)).1.
Proof. unfold dropSlot. destruct (l_inflightKey l !! n) as [key|]; [|frame]. destruct (decide (key = "")); frame. Qed.
Lemma framed_markWaiting l r : framed l (markWaiting (l, r)).1.
Proof. frame. Qed.
Lemma framed_checks cfg now l r : framed l (checkCanceled cfg (checkWallClock cfg now (l, r))).1.
Proof.
  assert (forall l r, framed l (checkCanceled cfg (l, r)).1) as Hc.
  { intros l0 r0. unfold checkCanceled. destruct (negb _ && _); frame. }
  unfold checkWallClock. destruct (r_StartedAt (l_run l)) as [t|]; [|apply Hc].
  destruct (negb _ && _ && _); [|apply Hc].
  pose proof (framed_trigger cfg now "wall_clock_timeout" "wall_clock_timeout_ms" "wall_clock_ms"
    (jint (WallClockTimeoutMS (c_budget cfg))) (jint (Milliseconds (Sub now t))) l r) as Ht.
  destruct (triggerBudgetExceeded _ _ _ _ _ _ _ _) as [l1 r1]. eapply framed_trans; [exact Ht|apply Hc].
Qed.

Lemma acquireSlot_core cfg now node l r l' r' b :
  acquireSlot cfg now node (l, r) = (l', r', b) ->
  if b then framed l l' else framed (set_l_ready (l_ready l ++ [NodeID node]) l) l'.
Proof.
  unfold acquireSlot. destruct (decide _) as [|_]; [intros [= <- <- <-]; frame|].
  destruct (concurrencyCapFor _ _ _) as [[cap scope] key]. destruct (cap <=? 0); [intros [= <- <- <-]; frame|].
  destruct (tryAcquireCap key cap (rn_caps r)) as [caps [[] n]]; [intros [= <- <- <-]; frame|].
  destruct (shouldEmitThrottle _ _ _ _) as [last e]. intros [= <- <- <-]. frame.
Qed.

(** A slot is refused only to a node with a topic, outside a replay. *)
Lemma acquireSlot_refuses cfg now node l r l' r' b :
  acquireSlot cfg now node (l, r) = (l', r', b) -> b = false -> c_cache cfg = None /\ nd_Topic node <> "".
Proof.
  unfold acquireSlot. intros Ha ->. destruct (decide _) as [|Hd]; [done|].
  split; [destruct (c_cache cfg); [|done]; exfalso; apply Hd; by left|]. intros E. apply Hd. by right.
Qed.

(** ** The steps of the code are steps of the abstraction *)
(** Fields that do not matter to the inputs of nodes. *)
Lemma nodeInput_outputs cfg l l' n : l_outputs l' = l_outputs l -> nodeInput cfg l' n = nodeInput cfg l n.
Proof. unfold nodeInput. by intros ->. Qed.
Lemma completeNode_framed cfg n out l l' :
  framed l l' -> framed (completeNode cfg n out l) (completeNode cfg n out l').
Proof.
  unfold coreOf, completeNode, framed. intros ([= E1 E2 E3 E4 E5 E6]&Hs&Hb). simpl. rewrite E1, E2, E3, E4.
  destruct (releaseUndone _ _ _ _) as [deg ready]. simpl. unfold coreOf. simpl. by rewrite E5, E6, ?E1.
Qed.

Lemma launch_core cfg now k n att input l r pc l' r' :
  launch cfg now k n att input (l, r) = (pc, l', r') ->
  (exists err, pc = Returned (Some err)) \/
  (pc = AtSched 0 k /\ framed (addFlight (mkFlight n att now input None) l) l').
Proof.
  unfold launch. destruct (onStore _ r) as [r1 [err|]].
  - unfold abort. intros [= <- _ _]. left. eauto.
  - intros [= <- <- _]. right. split; [done|frame].
Qed.

Lemma cacheHit_core cfg now k n att input entry l r pc l' r' :
  cacheHit cfg now k n att input entry (l, r) = (pc, l', r') ->
  (exists err, pc = Returned (Some err)) \/
  (pc = AtSched 0 k /\ exists ne, n_Status ne = NodeStatusSucceeded /\ n_NodeID ne = n /\
     l' = completeNode cfg n (n_Output ne) (set_l_done (<[n := ne]> (l_done l)) l)).
Proof.
  unfold cacheHit. destruct (onStore _ _) as [r1 [err|]]; [intros [= <- _ _]; left; eauto|].
  destruct (finishedPayload _ _ _ _ _ _ _ _) as [r2 [p|err]]; [|intros [= <- _ _]; left; eauto].
  intros [= <- <- _]. right. split; [done|]. by eexists (nodeExec _ _ _ _ _ _ _ _ _).
Qed.

Lemma isPending_node n att input started : isPending (pendingResult n att input started) = true.
Proof. done. Qed.

(** What a human step hands over is about the node. *)
Lemma taskResult_ids now n att input started t res :
  taskResult now n att input started t = inl (Some res) -> nr_nodeID res = n /\ nr_attempt res = att.
Proof.
  unfold taskResult. repeat (case_decide; [by intros [= <-]|]). done.
Qed.
Lemma maybeHandleHumanNode_ids ctx now runID wfID node att input started r r' res :
  maybeHandleHumanNode ctx now runID wfID node att input started r = (r', inl (Some res)) ->
  nr_nodeID res = NodeID node /\ nr_attempt res = att.
Proof.
  unfold maybeHandleHumanNode. destruct (Human node) as [h|]; [|done].
  destruct (findHumanTask _ _ _ _ _) as [[t|]|err]; [| |done].
  - destruct (expireTask _ _ _ _ _ _ _) as [r1 [t1|err]]; [|done]. intros [= _ Ht]. by apply taskResult_ids in Ht.
  - unfold openHumanTask. destruct (saveHumanTask _ _ _) as [r1 [err|]]; [done|].
    destruct (onStore _ r1) as [r2 [err|]]; [done|]. by intros [= _ <-].
Qed.

(** The local variables before the node is handed over: only attempts and the run change. *)
Lemma startNode_core cfg now k node l r pc l' r' :
  startNode cfg now k node (l, r) = (pc, l', r') ->
  (exists err, pc = Returned (Some err)) \/
  (pc = AtSched 0 k /\
   ((exists f, fl_node f = NodeID node /\ nodeInput cfg l (NodeID node) = inl (fl_input f) /\ sent_ok f /\
               framed (addFlight f l) l') \/
    (framed l l' /\ l_stopScheduling l' = true) \/
    (exists ne, n_Status ne = NodeStatusSucceeded /\ n_NodeID ne = NodeID node /\
       framed (completeNode cfg (NodeID node) (n_Output ne) (set_l_done (<[NodeID node := ne]> (l_done l)) l)) l'))).
Proof.
  unfold startNode. set (used := l_attemptsUsed l + 1). set (run := spend now used (l_run l)).
  set (l1 := set_l_run run (set_l_attemptsUsed used l)).
  assert (framed l l1) as F1 by frame.
  rewrite (nodeInput_outputs cfg l l1) by done.
  destruct (nodeInput cfg l (NodeID node)) as [input|err] eqn:Ein; [|by intros [= <- _ _]; left; eauto].
  set (att := if 0 <? default 0 (l_maxAttempt l1 !! NodeID node) then _ else 1).
  set (l2 := set_l_maxAttempt _ l1). assert (framed l l2) as F2 by frame.
  destruct (maybeHandleHumanNode _ _ _ _ _ _ _ _ _) as [r2 [[res|]|err]] eqn:Eh;
    [| |by intros [= <- _ _]; left; eauto].
  - destruct (isPending res).
    + destruct (markWaiting (l2, r2)) as [l3 r3] eqn:E3. injection E3 as E3 _.
      pose proof (framed_dropSlot (NodeID node) l3 r3) as F4.
      destruct (dropSlot (NodeID node) (l3, r3)) as [l4 r4]. intros [= <- <- _]. right. split; [done|].
      right. left. subst l3. split; [eapply framed_trans; [|exact F4]; frame|]. by apply F4.
    + intros [= <- <- _]. right. split; [done|]. left.
      eexists (mkFlight _ att now input (Some res)). split_and!; [done|done| |frame].
      intros res' [= <-]. simpl. by apply maybeHandleHumanNode_ids in Eh.
  - destruct (c_cache cfg ≫= lookup (NodeID node)) as [entry|].
    + intros [[err Ha]|(Hpc&ne&Hs&Hid&->)]%cacheHit_core; [left; eauto|]. right. split; [done|]. right. right.
      exists ne. split; [done|]. split; [done|]. apply completeNode_framed. frame.
    + intros [[err Ha]|(Hpc&Hf)]%launch_core; [left; eauto|]. right. split; [done|]. left.
      eexists (mkFlight _ att now input None). split_and!; [done..|]. eapply framed_trans; [|exact Hf]. frame.
Qed.

Lemma nodeByID_lookup cfg n node : nodeByID (c_graph cfg) !! n = Some node -> NodeID node = n.
Proof.
  unfold nodeByID. induction (Nodes (c_graph cfg)) as [|x xs IH] using rev_ind; [done|].
  rewrite foldl_app. simpl. destruct (decide (NodeID x = n)) as [<-|Hne].
  - rewrite lookup_insert_eq. by intros [= ->].
  - by rewrite lookup_insert_ne by done.
Qed.

(** A frame around the handing over of a node. *)
Lemma framed_addFlight f l l1 : framed l l1 -> framed (addFlight f l) (addFlight f l1).
Proof. unfold framed, coreOf, addFlight. simpl. by intros ([= -> -> -> -> -> ->]&Hs). Qed.
Lemma framed_complete cfg n ne l l1 : framed l l1 ->
  framed (completeNode cfg n (n_Output ne) (set_l_done (<[n := ne]> (l_done l)) l))
         (completeNode cfg n (n_Output ne) (set_l_done (<[n := ne]> (l_done l1)) l1)).
Proof.
  intros [E Hs]. apply completeNode_framed. split; [|done]. revert E. unfold coreOf. simpl.
  by intros [= -> -> -> -> -> ->].
Qed.

(** One round of the scheduling loop. *)
Lemma schedStep_moves cfg now s k l r pc l' r' :
  schedStep cfg now s k (l, r) = (pc, l', r') ->
  (exists err, pc = Returned (Some err)) \/
  (pc = AtWait /\ l' = l /\ (l_stopScheduling l = true \/ c_maxPar cfg <= l_running l \/ l_ready l = [] \/ k <= s)) \/
  (pc = AtSched (s + 1) k /\ s < k /\ rotated l l' /\ exists node, nodeByID (c_graph cfg) !! NodeID node = Some node /\
     c_cache cfg = None /\ nd_Topic node <> "") \/
  ((pc = AtSched 0 k /\ s < k \/ pc = AtWait /\ l_stopScheduling l' = true) /\ productive cfg l l').
Proof.
  unfold schedStep. destruct (l_stopScheduling l || _) eqn:Estop.
  { intros [= <- <- _]. right. left. apply orb_true_iff in Estop as [?|?%Z.leb_le]; auto. }
  apply orb_false_iff in Estop as [Estop Epar]. apply Z.leb_gt in Epar.
  destruct (l_ready l) as [|n rest] eqn:Er; [intros [= <- <- _]; auto 9|].
  destruct (k <=? s) eqn:Hk; [apply Z.leb_le in Hk; intros [= <- <- _]; auto 9|apply Z.leb_gt in Hk].
  set (l0 := set_l_ready rest l).
  destruct (nodeByID _ !! n) as [node|] eqn:En; [|intros [= <- _ _]; left; eauto].
  pose proof En as En'. apply nodeByID_lookup in En. subst n.
  destruct (negb _ && _ && _) eqn:Eb.
  { apply andb_prop in Eb as [[Eb _]%andb_prop _]. apply negb_true_iff in Eb.
    pose proof (framed_trigger cfg now "max_attempts" "max_attempts" "attempts"
      (jint (bp_MaxAttempts (c_budget cfg))) (jint (l_attemptsUsed l0)) l0 r) as Hf.
    pose proof (trigger_stops cfg now "max_attempts" "max_attempts" "attempts"
      (jint (bp_MaxAttempts (c_budget cfg))) (jint (l_attemptsUsed l0)) l0 r Eb) as Hs.
    destruct (triggerBudgetExceeded _ _ _ _ _ _ _ _) as [l1 r1]. intros [= <- <- _]. do 3 right.
    split; [auto|]. eapply cs_leave; [by apply taken_ready|exact Hf|exact Hs]. }
  destruct (acquireSlot cfg now node (l0, r)) as [[l1 r1] b] eqn:Ea.
  pose proof (acquireSlot_refuses _ _ _ _ _ _ _ _ Ea) as Hcap. apply acquireSlot_core in Ea.
  destruct b.
  2:{ intros [= <- <- _]. do 2 right. left. split_and!; [done..|by eexists _, _|].
      exists node. split; [done|]. by apply Hcap. }
  intros [[err ->]|(Hpc&Hc)]%startNode_core; [left; eauto|]. do 3 right. split; [auto|].
  assert (nodeInput cfg l1 (NodeID node) = nodeInput cfg l (NodeID node)) as Hin.
  { apply nodeInput_outputs. destruct Ea as [Ea _]. unfold coreOf in Ea. simpl in Ea. by injection Ea. }
  destruct Hc as [(f&Hn&Hi&Hs&Hf)|[[Hf Hs]|(ne&Hs&Hid&Hf)]].
  - eapply cs_start; [done|exact Hn|congruence|done|done|done|]. eapply framed_trans; [|exact Hf].
    by apply framed_addFlight.
  - eapply cs_leave; [by apply taken_ready| |done]. by eapply framed_trans.
  - eapply cs_complete; [by apply taken_ready|done|done|]. eapply framed_trans; [|exact Hf].
    by apply (framed_complete cfg _ ne l0 l1).
Qed.
Lemma schedStep_core cfg now s k l r pc l' r' :
  schedStep cfg now s k (l, r) = (pc, l', r') -> core_step cfg l pc l'.
Proof.
  intros [[err ->]|[(_&->&_)|[(_&_&Hr&_)|(_&Hp)]]]%schedStep_moves.
  - apply cs_abort.
  - apply cs_frame, framed_refl.
  - by apply cs_rotate.
  - by apply cs_productive.
Qed.

(** An exceeded budget has stopped the scheduling. *)
Definition stopped_budget l : Prop := l_budgetExceeded l = true -> l_stopScheduling l = true.

Lemma onSuccess_core cfg now res l r pc l' r' :
  onSuccess cfg now res (l, r) = (pc, l', r') ->
  (exists err, pc = Returned (Some err)) \/
  (pc = AtTop /\ exists ne, n_Status ne = NodeStatusSucceeded /\ n_NodeID ne = nr_nodeID res /\
     l' = completeNode cfg (nr_nodeID res) (n_Output ne) (set_l_done (<[nr_nodeID res := ne]> (l_done l)) l)).
Proof.
  unfold onSuccess. destruct (onStore _ _) as [r1 [err|]]; [intros [= <- _ _]; left; eauto|].
  destruct (finishedPayload _ _ _ _ _ _ _ _) as [r2 [p|err]]; [|intros [= <- _ _]; left; eauto].
  intros [= <- <- _]. right. split; [done|]. by eexists (nodeExec _ _ _ _ _ _ _ _ _).
Qed.

Lemma onResult_moves cfg now res l i f r pc l' r' :
  stopped_budget l -> l_flight l !! i = Some f -> nr_nodeID res = fl_node f ->
  onResult cfg now res
    (set_l_running (l_running l - 1) (set_l_flight (removeAt i (l_flight l)) l), r) = (pc, l', r') ->
  (exists err, pc = Returned (Some err)) \/ (pc = AtTop /\ productive cfg l l').
Proof.
  intros Hb Hi Hn. set (l0 := set_l_running _ _). pose proof (taken_flight l i f Hi) as Ht. fold l0 in Ht.
  unfold onResult. pose proof (framed_dropSlot (nr_nodeID res) l0 r) as Hd.
  destruct (dropSlot (nr_nodeID res) (l0, r)) as [l1 r1]. simpl in Hd.
  assert (forall l2, framed l1 l2 -> l_stopScheduling l2 = true -> productive cfg l l2) as Hleave.
  { intros l2 Hf Hs. eapply cs_leave; [exact Ht|by eapply framed_trans|done]. }
  destruct (l_budgetExceeded l1) eqn:Eb.
  { intros [= <- <- _]. right. split; [done|]. apply Hleave; [apply framed_refl|].
    destruct Hd as (_&Hd2&Hd3). destruct (Hd3 Eb); auto. }
  destruct (l_externalCanceled l1 || _); [intros [= <- <- _]; right; split; [done|]; apply Hleave; [frame|done]|].
  destruct (nr_err res) as [[err|after reason]|].
  - intros [= <- <- _]. right. split; [done|]. apply Hleave; [frame|done].
  - intros [= <- <- _]. right. split; [done|]. apply Hleave; [frame|done].
  - intros [[err ->]|(->&ne&Hs&Hid&->)]%onSuccess_core; [left; eauto|]. right. split; [done|].
    eapply cs_complete; [exact Ht|exact Hs|congruence|]. rewrite Hn. by apply (framed_complete cfg _ ne l0 l1).
Qed.

Lemma onUsage_core cfg tokens dollars now l r : framed l (onUsage cfg tokens dollars now (l, r)).1.2.
Proof.
  unfold onUsage. destruct (l_budgetExceeded l) eqn:Eb; [apply framed_refl|].
  set (run := set_r_Usage _ _). set (l1 := set_l_run run l). assert (framed l l1) as F1 by frame.
  destruct ((_ <? _) && _); [|destruct (fltb _ _ && _); [|done]].
  - pose proof (framed_trigger cfg now "tokens" "max_tokens" "tokens" (jint (MaxTokens (c_budget cfg)))
      (jint (bu_Tokens (r_BudgetUsage run))) l1 (saveRun run r)) as Ht.
    destruct (triggerBudgetExceeded _ _ _ _ _ _ _ _) as [l2 r2]. exact (framed_trans _ _ _ F1 Ht).
  - pose proof (framed_trigger cfg now "dollars" "max_dollars" "dollars"
      (JNumber (formatFloat (MaxDollars (c_budget cfg)))) (JNumber (formatFloat (bu_Dollars (r_BudgetUsage run))))
      l1 (saveRun run r)) as Ht.
    destruct (triggerBudgetExceeded _ _ _ _ _ _ _ _) as [l2 r2]. exact (framed_trans _ _ _ F1 Ht).
Qed.

Lemma onDone_core cfg l r : framed l (onDone cfg (l, r)).1.2.
Proof. unfold onDone. destruct (isCanceled _ r); frame. Qed.

Lemma finish_core cfg now l r pc l' r' : finish cfg now (l, r) = (pc, l', r') ->
  framed l l' /\ exists e, pc = Returned e.
Proof.
  unfold finish.
  repeat match goal with
         | |- (if ?b then _ else _) = _ -> _ => destruct b; [intros [= <- <- _]; split; [frame|eauto]|]
         end.
  destruct (onStore _ r) as [r1 [err|]]; intros [= <- <- _]; (split; [frame|eauto]).
Qed.

Definition flights_ok l : Prop := Forall sent_ok (l_flight l).

Lemma landed_moves cfg now l i f r out err ended pc l' r' :
  stopped_budget l -> flights_ok l -> l_flight l !! i = Some f ->
  onResult cfg now (default (mkResult (fl_node f) (fl_attempt f) (fl_started f) ended (fl_input f) out err) (fl_sent f))
    (set_l_running (l_running l - 1) (set_l_flight (removeAt i (l_flight l)) l), r) = (pc, l', r') ->
  (exists err, pc = Returned (Some err)) \/ (pc = AtTop /\ productive cfg l l').
Proof.
  intros Hb Hok Hi. apply (onResult_moves _ _ _ _ _ f); [done|done|]. destruct (fl_sent f) as [res|] eqn:Hf; [|done]. simpl.
  assert (sent_ok f) as Hs by (eapply (Forall_lookup_1 _ _ _ _ Hok); exact Hi). by apply Hs.
Qed.

Theorem step_core cfg ev pc l r pc' l' r' :
  stopped_budget l -> flights_ok l ->
  step cfg ev (pc, l, r) = Some (pc', l', r') -> core_step cfg l pc' l'.
Proof.
  intros Hb Hok. unfold step. destruct pc as [|s k| |e]; [| | |done].
  - destruct ev as [now| | | | |]; try done. intros Ht. apply (inj Some) in Ht. revert Ht. unfold topStep.
    destruct (decide _); [intros [Hf _]%finish_core; by apply cs_frame|].
    pose proof (framed_checks cfg now l r) as Hf. destruct (checkCanceled _ _) as [l1 r1].
    intros [= <- <- _]. by apply cs_frame.
  - destruct ev as [now| | | | |]; try done. intros Ht. apply (inj Some) in Ht. by apply schedStep_core in Ht.
  - unfold waitStep. destruct (l_running l =? 0).
    + destruct (l_stopScheduling l) eqn:Es.
      * destruct ev as [now| | | | |]; try done. intros Ht. apply (inj Some), finish_core in Ht as [Hf _]. by apply cs_frame.
      * destruct (decide (l_ready l = [])).
        -- destruct ev; try done. intros [= <- <- _]. apply cs_frame, framed_refl.
        -- destruct ev; try done.
           ++ destruct (ctxDone cfg r); [|done]. intros [= <- <- _]. apply cs_frame, onDone_core with (r := r).
           ++ intros [= <- <- _]. apply cs_frame, framed_refl.
    + destruct ev as [now| | | |tokens dollars now|i out err ended now]; try done.
      * intros [= <- <- _]. apply cs_frame, framed_refl.
      * destruct (ctxDone cfg r); [|done]. intros [= <- <- _]. apply cs_frame, onDone_core with (r := r).
      * pose proof (onUsage_core cfg tokens dollars now l r) as Hu. intros Hx. apply (inj Some) in Hx. rewrite Hx in Hu.
        by apply cs_frame.
      * destruct (l_flight l !! i) as [f|] eqn:Hi; [|done]. intros Hx. apply (inj Some) in Hx.
        destruct (landed_moves _ _ _ _ _ _ _ _ _ _ _ _ Hb Hok Hi Hx) as [[err' ->]|[_ Hp]]; [apply cs_abort|].
        by apply cs_productive.
Qed.

(** ** Releasing the children *)
Lemma releaseUndone_filter (done : gmap string NodeExecution) cs deg q :
  releaseUndone done cs deg q = releaseChildren (filter (fun c => done !! c = None) cs) deg q.
Proof.
  revert deg q. induction cs as [|c cs IH]; intros deg q; [done|]. simpl. rewrite filter_cons.
  destruct (decide (is_Some (done !! c))) as [Hd|Hd].
  - destruct (decide (done !! c = None)) as [E|_]; [by rewrite E in Hd; destruct Hd|]. apply IH.
  - apply eq_None_not_Some in Hd. rewrite (decide_True (P := done !! c = None)) by done. simpl. apply IH.
Qed.

Lemma count_filter_undone (done : gmap string NodeExecution) v cs : done !! v = None ->
  count v (filter (fun c => done !! c = None) cs) = count v cs.
Proof.
  intros Hv. induction cs as [|c cs IH]; [done|]. rewrite filter_cons.
  destruct (decide (done !! c = None)) as [Hc|Hc]; rewrite !count_cons, IH; [done|].
  rewrite decide_False by congruence. lia.
Qed.

Definition doneList (done : gmap string NodeExecution) : list string := elements (dom done).
Lemma elem_doneList done v : v ∈ doneList done <-> is_Some (done !! v).
Proof. unfold doneList. by rewrite elem_of_elements, elem_of_dom. Qed.
Lemma pending_ext es P P' v : (forall u, u ∈ P <-> u ∈ P') -> pending es P v = pending es P' v.
Proof. intros HP. unfold pending. f_equal. apply list_filter_iff. intros e. by rewrite HP. Qed.
(** One more done node. *)
Lemma pending_done es (done : gmap string NodeExecution) n ne v : done !! n = None ->
  pending es (doneList done) v =
  pending es (doneList (<[n := ne]> done)) v + count v (default [] (childrenOf es !! n)).
Proof.
  intros Hn. rewrite (pending_snoc es _ n) by (rewrite elem_doneList, Hn; by intros []).
  rewrite children_list. f_equal. apply pending_ext. intros u. rewrite elem_of_app, list_elem_of_singleton, !elem_doneList.
  destruct (decide (u = n)) as [->|Hne]; [rewrite lookup_insert_eq|rewrite lookup_insert_ne by done]; naive_solver.
Qed.

(** ** The invariant *)
Definition names cfg : list string := ids (Nodes (c_graph cfg)).
Definition edges cfg : list NodeEdge := Edges (c_graph cfg).
(** Nodes waiting to start or in flight. *)
Definition openNodes l : list string := l_ready l ++ (fl_node <$> l_flight l).

Record dag_inv cfg l : Prop := {
  di_running : l_running l = zlen (l_flight l);
  di_par : l_running l <= c_maxPar cfg;
  di_nodup : NoDup (openNodes l);
  di_open : forall v, v ∈ openNodes l -> v ∈ names cfg /\ l_done l !! v = None /\ degree (l_inDegree l) v = 0;
  di_degree : forall v, v ∈ names cfg -> l_done l !! v = None ->
    degree (l_inDegree l) v = pending (edges cfg) (doneList (l_done l)) v;
  di_nonneg : forall v, 0 <= degree (l_inDegree l) v;
  di_input : forall f, f ∈ l_flight l -> nodeInput cfg l (fl_node f) = inl (fl_input f);
  di_sent : flights_ok l;
  di_done : forall v ne, l_done l !! v = Some ne ->
    n_Status ne = NodeStatusSucceeded /\ n_NodeID ne = v /\ default [] (l_outputs l !! v) = n_Output ne;
  di_budget : stopped_budget l
}.
(** While scheduling goes on, every undone node without undone parents is open. *)
Definition all_open cfg l : Prop :=
  l_stopScheduling l = false ->
  forall v, v ∈ names cfg -> l_done l !! v = None -> degree (l_inDegree l) v = 0 -> v ∈ openNodes l.

Lemma parents_list es v : default [] (parentsOf es !! v) = From <$> filter (fun e => To e = v) es.
Proof.
  unfold parentsOf. induction es as [|e es IH] using rev_ind; [simpl; by rewrite lookup_empty|].
  rewrite foldl_app, filter_app, fmap_app, <- IH. simpl. unfold appendTo at 1. destruct e as [a b].
  rewrite filter_cons, filter_nil. simpl. destruct (decide (b = v)) as [->|Hne].
  - by rewrite lookup_insert_eq.
  - rewrite lookup_insert_ne by done. simpl. by rewrite app_nil_r.
Qed.
Lemma edge_parents es u v : u ∈ default [] (parentsOf es !! v) <-> edge es u v.
Proof.
  rewrite parents_list, list_elem_of_fmap. unfold edge. setoid_rewrite list_elem_of_filter. split.
  - intros ([a b]&->&Hb&Hin). by simpl in *; subst.
  - intros Hin. by exists (mkEdge u v).
Qed.

(** The parents of an open node are done. *)
Lemma open_parents cfg l u v : dag_inv cfg l -> v ∈ openNodes l -> edge (edges cfg) u v ->
  is_Some (l_done l !! u).
Proof.
  intros Hi Hv He. destruct (di_open _ _ Hi v Hv) as (Hn&Hd&Hz).
  rewrite (di_degree _ _ Hi) in Hz by done. apply elem_doneList. by eapply pending_0.
Qed.

Lemma framed_inv cfg l l' : framed l l' -> dag_inv cfg l -> dag_inv cfg l'.
Proof.
  unfold framed, coreOf. intros ([= E1 E2 E3 E4 E5 E6]&Hs&Hb) [I1 I2 I3 I4 I5 In I6 I7 I8 I9].
  split; unfold openNodes, flights_ok, stopped_budget in *; rewrite ?E1, ?E2, ?E3, ?E4, ?E5, ?E6; try done.
  - intros f Hf. rewrite (nodeInput_outputs cfg l l') by done. by apply I6.
  - intros Hx. destruct (Hb Hx); auto.
Qed.
Lemma framed_open cfg l l' : framed l l' -> all_open cfg l -> all_open cfg l'.
Proof.
  unfold framed, coreOf, all_open, openNodes. intros ([= E1 E2 E3 E4 E5 E6]&Hs&_) Ho Hstop.
  rewrite E1, E3, E4, E6. apply Ho. destruct (l_stopScheduling l); [|done]. by rewrite Hs in Hstop.
Qed.

(** What is left when a node is taken. *)
Lemma removeAt_perm {X} i (xs : list X) x : xs !! i = Some x -> Permutation xs (x :: removeAt i xs).
Proof.
  revert i. induction xs as [|y xs IH]; intros [|i]; [done..| |]; simpl; [by intros [= ->]|].
  intros Hi%IH. rewrite Hi at 1. apply perm_swap.
Qed.

Record left_over cfg l n l0 : Prop := {
  lo_name : n ∈ names cfg;
  lo_undone : l_done l !! n = None;
  lo_degree : degree (l_inDegree l) n = 0;
  lo_gone : n ∉ openNodes l0;
  lo_perm : Permutation (openNodes l) (n :: openNodes l0);
  lo_inv : dag_inv cfg l0;
  lo_same : l_done l0 = l_done l /\ l_outputs l0 = l_outputs l /\ l_inDegree l0 = l_inDegree l /\
            l_stopScheduling l0 = l_stopScheduling l
}.

Lemma taken_left cfg l n l0 : dag_inv cfg l -> taken l n l0 -> left_over cfg l n l0.
Proof.
  intros Hi Ht.
  assert (Permutation (openNodes l) (n :: openNodes l0)) as Hp.
  { destruct Ht as [n rest E Est|i f E]; unfold openNodes; simpl; [by rewrite E|].
    rewrite (fmap_Permutation fl_node _ _ (removeAt_perm _ _ _ E)). simpl. by rewrite Permutation_middle. }
  assert (n ∈ openNodes l) as Hn by (rewrite Hp; left).
  pose proof (di_nodup _ _ Hi) as Hnd. rewrite Hp in Hnd. apply NoDup_cons in Hnd as [Hgone Hnd].
  destruct (di_open _ _ Hi n Hn) as (Hnm&Hun&Hdg).
  assert (l_done l0 = l_done l /\ l_outputs l0 = l_outputs l /\ l_inDegree l0 = l_inDegree l /\
          l_stopScheduling l0 = l_stopScheduling l /\ l_budgetExceeded l0 = l_budgetExceeded l) as (E1&E2&E3&E4&E5)
    by by destruct Ht.
  assert (forall f, f ∈ l_flight l0 -> f ∈ l_flight l) as Hfl.
  { destruct Ht as [n rest E Est|i f E]; simpl; [done|]. intros f' Hf. rewrite (removeAt_perm _ _ _ E). by right. }
  split; [done|done|done|done|done| |done].
  destruct Hi as [I1 I2 I3 I4 I5 In I6 I7 I8 I9]. split; rewrite ?E1, ?E2, ?E3; try done.
  - destruct Ht as [n rest E Est|i f E]; simpl; [done|]. rewrite I1. unfold zlen.
    rewrite (Permutation_length (removeAt_perm _ _ _ E)). simpl. lia.
  - destruct Ht as [n rest E Est|i f E]; simpl; lia.
  - intros v Hv. apply I4. rewrite Hp. by right.
  - intros f Hf. rewrite (nodeInput_outputs cfg l l0) by done. by apply I6, Hfl.
  - unfold flights_ok in *. rewrite Forall_forall in *. auto.
  - unfold stopped_budget in *. by rewrite E4, E5.
Qed.

(** ** Preservation *)
Lemma aggregate_ext deps (o o' : gmap string bytes) :
  (forall d, d ∈ deps -> o !! d = o' !! d) -> aggregate deps o = aggregate deps o'.
Proof.
  unfold aggregate. generalize (∅ : gmap string bytes). induction deps as [|d deps IH]; intros m Hd; [done|].
  simpl. rewrite Hd by left. apply IH. intros d' Hd'. apply Hd. by right.
Qed.
Lemma sortReady_perm (g : WorkflowGraph F) (l : list string) : Permutation (sortReady g l) l.
Proof. apply merge_sort_Permutation. Qed.

Context (cfg0 : Config F) (g_valid : valid (c_graph cfg0)).

Lemma complete_inv l n l0 ne :
  dag_inv cfg0 l -> taken l n l0 -> n_Status ne = NodeStatusSucceeded -> n_NodeID ne = n ->
  let l' := completeNode cfg0 n (n_Output ne) (set_l_done (<[n := ne]> (l_done l)) l0) in
  dag_inv cfg0 l' /\ (all_open cfg0 l -> all_open cfg0 l').
Proof using g_valid.
  intros Hi Ht Hst Hid. destruct (taken_left _ _ _ _ Hi Ht) as [Hnm Hun Hdg Hgone Hperm Hi0 (E1&E2&E3&E4)].
  destruct g_valid as (Hnd&_&Hcl&Hac). set (cs := default [] (childrenOf (edges cfg0) !! n)).
  set (done' := <[n := ne]> (l_done l)). set (cs' := filter (fun c => done' !! c = None) cs).
  assert (forall v, done' !! v = None -> v <> n /\ l_done l !! v = None) as Hd'.
  { intros v Hv. destruct (decide (v = n)) as [->|Hne]; [by unfold done' in Hv; rewrite lookup_insert_eq in Hv|].
    unfold done' in Hv. by rewrite lookup_insert_ne in Hv. }
  assert (forall v, done' !! v = None -> v ∈ names cfg0 ->
            degree (l_inDegree l) v = pending (edges cfg0) (doneList done') v + count v cs') as Hdeg.
  { intros v Hv Hvn. unfold cs'. rewrite count_filter_undone by done. rewrite (di_degree _ _ Hi) by naive_solver.
    by apply pending_done. }
  assert (forall v, v ∈ cs' -> v ∈ names cfg0 /\ done' !! v = None) as Hcs.
  { intros v [Hv Hc]%list_elem_of_filter. split; [|done]. apply edge_children in Hc. by apply (Hcl n v). }
  assert (forall v, count v cs' <= degree (l_inDegree l) v) as Hle.
  { intros v. destruct (decide (v ∈ cs')) as [Hv|Hv].
    - destruct (Hcs v Hv) as [Hvn Hvd]. rewrite Hdeg by done.
      pose proof (zlen_nonneg (filter (fun e => To e = v /\ From e ∉ doneList done') (edges cfg0))).
      unfold pending. lia.
    - rewrite count_0 by done. apply (di_nonneg _ _ Hi). }
  destruct (releaseChildren_spec cs' (l_inDegree l) (l_ready l0) Hle) as (new&Hready&Hndn&Hnew&Hdeg').
  intros l'. assert (l_done l' = done' /\ l_outputs l' = <[n := n_Output ne]> (l_outputs l) /\
    l_inDegree l' = (releaseChildren cs' (l_inDegree l) (l_ready l0)).1 /\
    l_ready l' = sortReady (c_graph cfg0) (l_ready l0 ++ new) /\ l_running l' = l_running l0 /\
    l_flight l' = l_flight l0 /\ l_stopScheduling l' = l_stopScheduling l /\
    l_budgetExceeded l' = l_budgetExceeded l0) as (F1&F2&F3&F4&F5&F6&F7&F8).
  { unfold l', completeNode. simpl. rewrite releaseUndone_filter. fold (edges cfg0). fold done' cs cs'. rewrite E2, E3.
    destruct (releaseChildren cs' (l_inDegree l) (l_ready l0)) as [deg q]. simpl in *. by rewrite Hready, E4. }
  clearbody l'.
  assert (Permutation (openNodes l') (openNodes l0 ++ new)) as Hopen.
  { unfold openNodes. rewrite F4, F6, sortReady_perm. by rewrite <- !app_assoc, (Permutation_app_comm new). }
  assert (forall v, v ∈ openNodes l0 -> v <> n) as Hne by (intros v Hv ->; done).
  split.
  - split; rewrite ?F1, ?F2, ?F3, ?F5, ?F6.
    + apply (di_running _ _ Hi0).
    + apply (di_par _ _ Hi0).
    + rewrite Hopen. apply NoDup_app. split; [apply (di_nodup _ _ Hi0)|]. split; [|done].
      intros v Hv [Hc Hz]%Hnew. destruct (di_open _ _ Hi0 v Hv) as (_&_&Hv0). rewrite E3 in Hv0.
      apply count_pos in Hc. lia.
    + intros v. rewrite Hopen, elem_of_app, Hnew, Hdeg'. intros [Hv|[Hv Hz]].
      * destruct (di_open _ _ Hi0 v Hv) as (H1'&H2'&H3'). rewrite E1, E3 in *. specialize (Hle v).
        pose proof (count_nonneg v cs'). split_and!; [done| |lia].
        unfold done'. rewrite lookup_insert_ne; [done|]. by apply not_eq_sym, Hne.
      * destruct (Hcs v Hv). split_and!; [done..|lia].
    + intros v Hvn Hv. rewrite Hdeg', Hdeg by done. lia.
    + intros v. rewrite Hdeg'. specialize (Hle v). lia.
    + intros f Hf. rewrite <- (di_input _ _ Hi0 f Hf). unfold nodeInput. rewrite F2, E2.
      destruct (decide _); [done|]. f_equal. apply aggregate_ext. intros d Hd. rewrite lookup_insert_ne; [done|].
      intros <-. apply edge_parents in Hd.
      assert (is_Some (l_done l0 !! n)) as Hs.
      { eapply open_parents; [exact Hi0| |exact Hd]. unfold openNodes. apply elem_of_app. right.
        by apply list_elem_of_fmap_2. }
      rewrite E1, Hun in Hs. by destruct Hs.
    + unfold flights_ok. rewrite F6. apply (di_sent _ _ Hi0).
    + intros v ne'. unfold done'. destruct (decide (v = n)) as [->|Hvn].
      * rewrite !lookup_insert_eq. by intros [= <-].
      * rewrite !lookup_insert_ne by done. apply (di_done _ _ Hi).
    + unfold stopped_budget. rewrite F7, F8, <- E4. apply (di_budget _ _ Hi0).
  - unfold all_open. rewrite F1, F3, F7. intros Ho Hs v Hvn Hv Hz. rewrite Hopen, elem_of_app, Hnew.
    rewrite Hdeg' in Hz. destruct (decide (v ∈ cs')) as [Hc|Hc]; [right; split; [done|lia]|].
    rewrite count_0 in Hz by done. destruct (Hd' v Hv) as [Hvn' Hvd].
    assert (v ∈ openNodes l) as Hvo by (apply Ho; [done..|lia]). rewrite Hperm in Hvo. set_solver.
Qed.

Lemma start_inv l n rest f :
  dag_inv cfg0 l -> l_ready l = n :: rest -> fl_node f = n -> nodeInput cfg0 l n = inl (fl_input f) ->
  sent_ok f -> l_running l < c_maxPar cfg0 -> l_stopScheduling l = false ->
  let l' := addFlight f (set_l_ready rest l) in
  dag_inv cfg0 l' /\ (all_open cfg0 l -> all_open cfg0 l').
Proof.
  intros Hi Hr Hn Hin Hsent Hpar Hrun l'.
  destruct (taken_left _ _ _ _ Hi (taken_ready _ _ _ Hr Hrun)) as [Hnm Hun Hdg Hgone Hperm Hi0 _].
  assert (Permutation (openNodes l') (openNodes l)) as Hp.
  { rewrite Hperm. unfold openNodes, l'. simpl. rewrite fmap_app. simpl. subst n.
    rewrite app_assoc, Permutation_app_comm. done. }
  split.
  - split; simpl.
    + rewrite (di_running _ _ Hi). unfold zlen. rewrite length_app. simpl. lia.
    + lia.
    + rewrite Hp. apply (di_nodup _ _ Hi).
    + intros v. rewrite Hp. apply (di_open _ _ Hi).
    + apply (di_degree _ _ Hi).
    + apply (di_nonneg _ _ Hi).
    + intros f'. rewrite elem_of_app, list_elem_of_singleton. intros [Hf| ->].
      * by apply (di_input _ _ Hi).
      * by rewrite Hn.
    + apply Forall_app. split; [apply (di_sent _ _ Hi)|]. by constructor.
    + apply (di_done _ _ Hi).
    + apply (di_budget _ _ Hi).
  - unfold all_open. simpl. intros Ho Hs v Hv1 Hv2 Hv3. rewrite Hp. by apply Ho.
Qed.

Lemma rotate_inv l n rest :
  dag_inv cfg0 l -> l_ready l = n :: rest ->
  let l' := set_l_ready (rest ++ [n]) l in
  dag_inv cfg0 l' /\ (all_open cfg0 l -> all_open cfg0 l').
Proof.
  intros [I1 I2 I3 I4 I5 In I6 I7 I8 I9] Hr l'.
  assert (Permutation (openNodes l') (openNodes l)) as Hp.
  { unfold openNodes, l'. simpl. rewrite Hr. by rewrite (Permutation_app_comm rest [n]). }
  split; [split|]; simpl; try done.
  - by rewrite Hp.
  - intros v. rewrite Hp. apply I4.
  - unfold all_open. simpl. intros Ho Hs v Hv1 Hv2 Hv3. rewrite Hp. by apply Ho.
Qed.

(** A step that does not abort keeps the invariant, and the open nodes complete. *)
Lemma core_step_inv l pc l' :
  core_step cfg0 l pc l' -> (forall e, pc <> Returned (Some e)) -> dag_inv cfg0 l ->
  dag_inv cfg0 l' /\ (all_open cfg0 l -> all_open cfg0 l').
Proof using g_valid.
  intros Hc Hpc Hi.
  assert (forall l1, dag_inv cfg0 l1 /\ (all_open cfg0 l -> all_open cfg0 l1) -> framed l1 l' ->
    dag_inv cfg0 l' /\ (all_open cfg0 l -> all_open cfg0 l')) as Hf.
  { intros l1 [Hi1 Ho1] Hfr. split; [by eapply framed_inv|]. intros Ho. eapply framed_open; [exact Hfr|auto]. }
  destruct Hc as [pc l' Hfr|pc l' (n&rest&Hr&Hfr)|pc l' [l0 n Ht Hfr Hs|n rest f Hr Hn Hin Hs Hp Hrun Hfr|
    l0 n ne Ht Hs Hid Hfr]|e l'].
  - by apply (Hf l).
  - eapply Hf; [|exact Hfr]. by apply rotate_inv.
  - destruct (taken_left _ _ _ _ Hi Ht) as [_ _ _ _ _ Hi0 _]. split; [by eapply framed_inv|].
    intros _ Hno. congruence.
  - eapply Hf; [|exact Hfr]. by eapply start_inv.
  - eapply Hf; [|exact Hfr]. by eapply complete_inv.
  - by destruct (Hpc e).
Qed.
End inv.
