(* ===== verification/DagStore.v ===== *)
(** * The loop that runs a graph: what a step does to the store (lemmas on DagRun.v)

    [StoreLaws] is what the engine needs of a store about runs and node executions; the
    in-memory store has it.  [kept] are the operations that change neither. *)
From S2P Require Import Prelude Storage Graph GraphSpec EngineStore Throttle Authz Risk Runtime.
From S2P Require Import Governance Artifacts Human Admission DagRun DagInv.

(** ** The interface *)
(** A store operation that changes no run and no node execution. *)
Definition obs_eq {S} `{Store S} (s s' : S) : Prop :=
  (forall id, GetRun id s' = GetRun id s) /\
  (forall run n a, GetNodeExecution run n a s' = GetNodeExecution run n a s).

Class StoreLaws (S : Type) `{Store S} : Prop := {
  law_event now e s : obs_eq s (AppendEvent now e s).1;
  law_timer t s : obs_eq s (UpsertTimer t s).1;
  law_kv k v s : obs_eq s (PutKV k v s).1;
  (** A refused write changes nothing, an accepted one exactly its record. *)
  law_run_runs run s id :
    GetRun id (UpdateRun run s).1 =
    if decide ((UpdateRun run s).2 = None /\ id = r_RunID run) then Some run else GetRun id s;
  law_run_nodes run s r n a : GetNodeExecution r n a (UpdateRun run s).1 = GetNodeExecution r n a s;
  law_node_runs ne s id : GetRun id (UpsertNodeExecution ne s).1 = GetRun id s;
  law_node_nodes ne s r n a :
    GetNodeExecution r n a (UpsertNodeExecution ne s).1 =
    if decide ((UpsertNodeExecution ne s).2 = None /\ r = n_RunID ne /\ n = n_NodeID ne /\ a = n_Attempt ne)
    then Some ne else GetNodeExecution r n a s;
  (** A run is created only where there is none. *)
  law_create_fresh run s : (CreateRun run s).2 = None -> GetRun (r_RunID run) s = None;
  law_create_runs run s id :
    GetRun id (CreateRun run s).1 =
    if decide ((CreateRun run s).2 = None /\ id = r_RunID run) then Some run else GetRun id s;
  law_create_nodes run s r n a : GetNodeExecution r n a (CreateRun run s).1 = GetNodeExecution r n a s;
  (** The executions of a run are those stored under its name. *)
  law_list run s ne :
    ne ∈ ListNodeExecutions run s <-> exists n a, GetNodeExecution run n a s = Some ne
}.

Lemma sortSlice_perm {X} (less : X -> X -> bool) (l : list X) : Permutation (sortSlice less l) l.
Proof. apply merge_sort_Permutation. Qed.

#[export] Instance MemoryStore_laws `{MapOrder} : StoreLaws MemoryStore.
Proof.
  split; cbn [AppendEvent UpsertTimer PutKV GetRun UpdateRun UpsertNodeExecution GetNodeExecution
              ListNodeExecutions CreateRun MemoryStore_Store].
  - intros now e s. unfold MemoryStore_AppendEvent, obs_eq.
    destruct (decide _); [done|]. destruct (validateEvent _); done.
  - intros t s. unfold MemoryStore_UpsertTimer. by destruct (decide _).
  - intros k v s. unfold MemoryStore_PutKV. by destruct (decide _).
  - intros run s id. unfold MemoryStore_UpdateRun. destruct (validateRun run); [cbn [fst snd]; by rewrite decide_False by (by intros [])|].
    destruct (decide (runs s !! r_RunID run = None)); cbn [fst snd set_runs putNode set_nodes runs nodes]; [cbn [fst snd]; by rewrite decide_False by (by intros [])|].
    destruct (decide (id = r_RunID run)) as [->|Hne].
    + by rewrite lookup_insert_eq, decide_True.
    + by rewrite lookup_insert_ne, decide_False by naive_solver.
  - intros run s r n a. unfold MemoryStore_UpdateRun. destruct (validateRun run); [done|]. by destruct (decide _).
  - intros ne s id. unfold MemoryStore_UpsertNodeExecution. destruct (validateNodeExecution ne); [done|].
    by destruct (decide _).
  - intros ne s r n a. unfold MemoryStore_UpsertNodeExecution.
    destruct (validateNodeExecution ne); [cbn [fst snd]; by rewrite decide_False by (by intros [])|].
    destruct (decide (runs s !! n_RunID ne = None)); cbn [fst snd set_runs putNode set_nodes runs nodes]; [cbn [fst snd]; by rewrite decide_False by (by intros [])|].
    unfold nodeKeyOf. destruct (decide (_ /\ _)) as [(_&->&->&->)|Hne]; [by rewrite lookup_insert_eq|].
    rewrite lookup_insert_ne; [done|]. intros [= <- <- <-]. by apply Hne.
  - intros run s. unfold MemoryStore_CreateRun. destruct (validateRun run); [done|]. destruct (decide (is_Some _)) as [|Hn]; [done|].
    intros _. by apply eq_None_not_Some.
  - intros run s id. unfold MemoryStore_CreateRun. destruct (validateRun run); [cbn [fst snd]; by rewrite decide_False by (by intros [])|].
    destruct (decide (is_Some _)); cbn [fst snd]; [by rewrite decide_False by (by intros [])|].
    assert (runs (putRun run s) = <[r_RunID run := run]> (runs s)) as -> by (unfold putRun; by case_match).
    destruct (decide (id = r_RunID run)) as [->|Hne].
    + rewrite decide_True by done. apply lookup_insert_eq.
    + rewrite decide_False by naive_solver. by apply lookup_insert_ne.
  - intros run s r n a. unfold MemoryStore_CreateRun. destruct (validateRun run); [done|]. destruct (decide (is_Some _)); [done|].
    assert (nodes (putRun run s) = nodes s) as Hn by (unfold putRun; by case_match). cbn [fst]. by rewrite Hn.
  - intros run s ne. unfold listNodes. rewrite sortSlice_perm, list_elem_of_omap. split.
    + intros ([r n a]&[Hr _]%list_elem_of_filter&Hk). simpl in Hr. subst r. eauto.
    + intros (n&a&Hk). exists (mkNodeKey run n a). split; [|done]. apply list_elem_of_filter. split; [done|].
      rewrite order_perm, elem_of_elements. apply elem_of_dom. eauto.
Qed.

Section store.
#[local] Set Default Proof Using "Type*".
Context {S F A : Type} `{Store S} `{!StoreLaws S} `{ArtifactStore A} `{Ambient} `{MapOrder} `{EngineJSON}.
Implicit Types (r : Runner S F A) (l : Loop) (cfg : Config F).

(** ** Operations that change no run, no node execution and cancel nothing *)
Definition kept r r' : Prop := obs_eq (rn_store r) (rn_store r') /\ rn_canceled r' = rn_canceled r.
Lemma kept_refl r : kept r r.
Proof. done. Qed.
Lemma kept_trans r1 r2 r3 : kept r1 r2 -> kept r2 r3 -> kept r1 r3.
Proof. unfold kept, obs_eq. intros [[H1' H2'] H3'] [[H4' H5'] H6']. split_and!; intros; congruence. Qed.
Lemma kept_store (op : S -> S) r r' :
  (forall s, obs_eq s (op s)) -> rn_store r' = op (rn_store r) -> rn_canceled r' = rn_canceled r -> kept r r'.
Proof. intros Ho Hs Hc. split; [rewrite Hs; apply Ho|done]. Qed.

Lemma onStore_store {X} (op : S -> S * X) r :
  rn_store (onStore op r).1 = (op (rn_store r)).1 /\ rn_canceled (onStore op r).1 = rn_canceled r /\
  (onStore op r).2 = (op (rn_store r)).2.
Proof. unfold onStore. by destruct (op (rn_store r)). Qed.

Lemma kept_onStore {X} (op : S -> S * X) r : (forall s, obs_eq s (op s).1) -> kept r (onStore op r).1.
Proof. intros Ho. destruct (onStore_store op r) as (Es&Ec&_). split; [rewrite Es; apply Ho|done]. Qed.

Lemma kept_emit now runID ty wf n a p r : kept r (emit now runID ty wf n a p r).
Proof. apply kept_onStore. intros s. apply law_event. Qed.
Lemma kept_timer t r : kept r (try (UpsertTimer t) r).
Proof. apply kept_onStore. intros s. apply law_timer. Qed.
Lemma kept_putJSONKV `{JSON T} k (v : T) r : kept r (putJSONKV k v r).1.
Proof. unfold putJSONKV. destruct (marshal v); [|done]. apply kept_onStore. intros s. apply law_kv. Qed.

Lemma kept_audit ctx now rec r : kept r (appendAuditRecord ctx now rec r).
Proof.
  unfold appendAuditRecord. destruct (decide (TrimSpace (au_ID rec) = "")); simpl.
  all: destruct (decide (TrimSpace (au_Action rec) = "")); [done|].
  all: match goal with |- context [putJSONKV ?k ?v ?x] => pose proof (kept_putJSONKV k v x) as Hk;
         destruct (putJSONKV k v x) as [r1 [err|]] end; [exact Hk|].
  all: destruct (indexIDs _ r1); [|exact Hk]; eapply kept_trans; [exact Hk|apply kept_putJSONKV].
Qed.

Lemma kept_saveHumanTask now t r : kept r (saveHumanTask now t r).1.
Proof.
  unfold saveHumanTask. destruct (decide (TrimSpace (ht_ID t) = "")); simpl.
  all: match goal with |- context [putJSONKV ?k ?v ?x] => pose proof (kept_putJSONKV k v x) as Hk;
         destruct (putJSONKV k v x) as [r1 [err|]] end; [exact Hk|].
  all: destruct (indexIDs _ r1); [|exact Hk]; case_decide; [exact Hk|].
  all: eapply kept_trans; [exact Hk|apply kept_putJSONKV].
Qed.

End store.

(** A chain of such operations, from the last one. *)
Ltac kept := repeat first [apply kept_refl | eapply kept_trans; [|apply kept_emit]
                          | eapply kept_trans; [|apply kept_timer] | eapply kept_trans; [|apply kept_audit]].

Section writes.
#[local] Set Default Proof Using "Type*".
Context {S F A : Type} `{Store S} `{!StoreLaws S} `{ArtifactStore A} `{Ambient} `{MapOrder} `{EngineJSON}.
Implicit Types (r : Runner S F A) (l : Loop) (cfg : Config F).

Lemma kept_finishedPayload cfg n a out c s e r : kept r (finishedPayload cfg n a out c s e r).1.
Proof.
  unfold finishedPayload, buildNodeFinishedPayload, PutArtifact, getArtifactStore.
  destruct (decide (out = [])); [by destruct (marshal _)|]. destruct (_ && _); [by destruct (marshal _)|].
  destruct (rn_artifacts r) as [x|]; [|done]. destruct (Put _ _ x) as [y [[ref meta]|err]]; [|done].
  by destruct (marshal _).
Qed.

(** ** Writes *)
(** At most the record of [ne] is written. *)
Definition node_write (ne : NodeExecution) r r' : Prop :=
  (forall id, GetRun id (rn_store r') = GetRun id (rn_store r)) /\ rn_canceled r' = rn_canceled r /\
  forall run n a,
    GetNodeExecution run n a (rn_store r') = GetNodeExecution run n a (rn_store r) \/
    (run = n_RunID ne /\ n = n_NodeID ne /\ a = n_Attempt ne /\
     GetNodeExecution run n a (rn_store r') = Some ne).

Lemma kept_write ne r r' : kept r r' -> node_write ne r r'.
Proof. intros [[H1' H2'] H3']. split_and!; [done..|]. by left. Qed.
Lemma node_write_kept ne r1 r2 r3 : node_write ne r1 r2 -> kept r2 r3 -> node_write ne r1 r3.
Proof.
  intros (H1'&H2'&H3') [[H4' H5'] H6']. split_and!; [intros; congruence|congruence|]. intros run n a.
  rewrite H5'. apply H3'.
Qed.
Lemma kept_node_write ne r1 r2 r3 : kept r1 r2 -> node_write ne r2 r3 -> node_write ne r1 r3.
Proof.
  intros [[H1' H2'] H3'] (H4'&H5'&H6'). split_and!; [intros; congruence|congruence|]. intros run n a.
  rewrite <- H2'. apply H6'.
Qed.

Lemma upsert_write ne r r' e : onStore (UpsertNodeExecution ne) r = (r', e) ->
  node_write ne r r' /\
  (e = None -> GetNodeExecution (n_RunID ne) (n_NodeID ne) (n_Attempt ne) (rn_store r') = Some ne) /\
  (forall err, e = Some err -> kept r r').
Proof.
  intros E. destruct (onStore_store (UpsertNodeExecution ne) r) as (Es&Ec&Ee). rewrite E in Es, Ec, Ee. simpl in *.
  split_and!.
  - split_and!; [intros id; by rewrite Es, law_node_runs|done|]. intros run n a. rewrite Es, law_node_nodes.
    case_decide as Hd; [right|by left]. destruct Hd as (_&->&->&->). done.
  - intros ->. rewrite Es, law_node_nodes, decide_True; [done|]. by rewrite <- Ee.
  - intros err ->. split; [|done]. rewrite Es. split; [intros; apply law_node_runs|]. intros run n a.
    rewrite law_node_nodes, decide_False; [done|]. rewrite <- Ee. by intros [].
Qed.
Lemma saveNode_write ne r : node_write ne r (saveNode ne r).
Proof.
  unfold saveNode, try. destruct (onStore (UpsertNodeExecution ne) r) as [r' e] eqn:E. by apply upsert_write in E as [? _].
Qed.

(** The run is written; the run stays uncancelled when the new status is not cancelled. *)
Definition nodes_kept r r' : Prop :=
  forall run n a, GetNodeExecution run n a (rn_store r') = GetNodeExecution run n a (rn_store r).
Lemma saveRun_spec run r :
  nodes_kept r (saveRun run r) /\ rn_canceled (saveRun run r) = rn_canceled r /\
  forall id, GetRun id (rn_store (saveRun run r)) = GetRun id (rn_store r) \/
             GetRun id (rn_store (saveRun run r)) = Some run.
Proof.
  unfold saveRun, try. destruct (onStore_store (UpdateRun run) r) as (Es&Ec&_). unfold nodes_kept.
  rewrite Es, Ec. split_and!; [intros; apply law_run_nodes|done|]. intros id. rewrite law_run_runs.
  case_decide; auto.
Qed.
Lemma isCanceled_same runID r r' : GetRun runID (rn_store r') = GetRun runID (rn_store r) ->
  isCanceled runID r' = isCanceled runID r.
Proof. unfold isCanceled. by intros ->. Qed.
Lemma saveRun_uncanceled runID run r : r_Status run <> RunStatusCanceled ->
  isCanceled runID r = false -> isCanceled runID (saveRun run r) = false.
Proof.
  intros Hs Hc. destruct (saveRun_spec run r) as (_&_&Hr). destruct (Hr runID) as [E|E].
  - by rewrite (isCanceled_same _ _ _ E).
  - unfold isCanceled. rewrite E. by apply bool_decide_eq_false.
Qed.

(** ** Human steps write at most a waiting execution of the node *)
Lemma maybeHandleHumanNode_write ctx now runID wfID node att input started r :
  node_write (mkNodeExec runID wfID (NodeID node) att NodeStatusWaiting (Some started) None input [] "") r
    (maybeHandleHumanNode ctx now runID wfID node att input started r).1.
Proof.
  set (ne := mkNodeExec _ _ _ _ _ _ _ _ _ _). unfold maybeHandleHumanNode.
  destruct (Human node) as [h|]; [|by apply kept_write].
  destruct (findHumanTask _ _ _ _ _) as [[t|]|err]; [| |by apply kept_write].
  - apply kept_write. unfold expireTask. destruct (taskTimedOut _ _ _ _ _ _); [|done].
    match goal with |- context [saveHumanTask ?n ?t ?x] => pose proof (kept_saveHumanTask n t x) as Hk;
      destruct (saveHumanTask n t x) as [r1 [err|]] end; [exact Hk|].
    eapply kept_trans; [exact Hk|apply kept_emit].
  - unfold openHumanTask. fold ne.
    match goal with |- context [saveHumanTask ?n ?t ?x] => pose proof (kept_saveHumanTask n t x) as Hk;
      destruct (saveHumanTask n t x) as [r1 [err|]] end; [by apply kept_write|].
    destruct (onStore (UpsertNodeExecution ne) r1) as [r2 e] eqn:E. apply upsert_write in E as [Hw _].
    apply (kept_node_write ne _ _ _ Hk). destruct e as [err|]; [exact Hw|]. eapply node_write_kept; [exact Hw|].
    cbn [fst]. eapply kept_trans; [|apply kept_audit]. destruct (0 <? hs_TimeoutMS h); kept.
Qed.
End writes.
