(* ===== verification/DagSpec.v ===== *)
(** * Runs respect their graph (properties of DagRun.v)

    [entered] is a run that has just entered the loop; [reach] closes it under the steps of
    the loop and arbitrary changes of the shared runner by others in between. *)
From stdpp Require Import relations.
From S2P Require Import Prelude Storage Graph GraphSpec EngineStore Throttle Authz Risk Runtime.
From S2P Require Import Governance Human Admission DagRun DagInv.

(** ** What earlier executions leave *)
Definition succeeded (ne : NodeExecution) : Prop := n_Status ne = NodeStatusSucceeded.
(** No node succeeded twice. *)
Definition single_success (prev : list NodeExecution) : Prop :=
  forall a b, a ∈ prev -> b ∈ prev -> succeeded a -> succeeded b -> n_NodeID a = n_NodeID b -> a = b.

Lemma priorNodes_spec prev : single_success prev ->
  let '(done, outputs, maxAttempt) := priorNodes prev in
  (forall v ne, done !! v = Some ne -> ne ∈ prev /\ succeeded ne /\ n_NodeID ne = v) /\
  (forall ne, ne ∈ prev -> succeeded ne -> is_Some (done !! n_NodeID ne)) /\
  (forall v ne, done !! v = Some ne -> default [] (outputs !! v) = n_Output ne) /\
  (forall v, done !! v = None -> outputs !! v = None) /\
  (forall ne, ne ∈ prev -> n_Attempt ne <= default 0 (maxAttempt !! n_NodeID ne)).
Proof.
  unfold priorNodes. induction prev as [|x prev IH] using rev_ind; intros Hs.
  { simpl. split_and!; intros *; rewrite ?lookup_empty; try done; by intros ?%elem_of_nil. }
  rewrite foldl_app. simpl.
  assert (single_success prev) as Hs' by (intros a b Ha Hb; apply Hs; set_solver).
  specialize (IH Hs'). destruct (foldl recordNode _ prev) as [[done outputs] maxA].
  destruct IH as (H1&H2&H3&H4&H5). unfold recordNode.
  set (maxA' := if _ <? _ then _ else maxA).
  assert (forall ne, ne ∈ prev ++ [x] -> n_Attempt ne <= default 0 (maxA' !! n_NodeID ne)) as Hmax.
  { assert (forall v, default 0 (maxA !! v) <= default 0 (maxA' !! v)) as Hmono.
    { intros v. unfold maxA'. destruct (Z.ltb_spec (default 0 (maxA !! n_NodeID x)) (n_Attempt x)); [|done].
      destruct (decide (v = n_NodeID x)) as [->|]; [rewrite lookup_insert_eq; simpl; lia|by rewrite lookup_insert_ne]. }
    intros ne [Hne| ->%list_elem_of_singleton]%elem_of_app; [specialize (H5 _ Hne); specialize (Hmono (n_NodeID ne)); lia|].
    unfold maxA'. destruct (Z.ltb_spec (default 0 (maxA !! n_NodeID x)) (n_Attempt x)); [|lia].
    rewrite lookup_insert_eq. simpl. lia. }
  destruct (decide (n_Status x = NodeStatusSucceeded)) as [Hx|Hx].
  - assert (done !! n_NodeID x = None \/ done !! n_NodeID x = Some x) as Hold.
    { destruct (done !! n_NodeID x) as [ne|] eqn:E; [|by left]. right. f_equal.
      destruct (H1 _ _ E) as (Hin&Hsu&Hid). apply Hs; [set_solver..|done|done|done]. }
    split_and!.
    + intros v ne. destruct (decide (v = n_NodeID x)) as [->|]; [rewrite lookup_insert_eq|rewrite lookup_insert_ne by done].
      * intros [= <-]. set_solver.
      * intros (?&?&?)%H1. set_solver.
    + intros ne Hne Hsu. destruct (decide (n_NodeID ne = n_NodeID x)) as [->|Hd]; [by rewrite lookup_insert_eq|].
      rewrite lookup_insert_ne by done. apply H2; [|done]. set_solver.
    + intros v ne. destruct (decide (v = n_NodeID x)) as [->|]; [rewrite lookup_insert_eq|rewrite lookup_insert_ne by done].
      * intros [= <-]. destruct (decide (n_Output x = [])) as [Ho|Ho]; [|by rewrite lookup_insert_eq].
        destruct Hold as [E|E]; [by rewrite (H4 _ E)|by apply H3].
      * intros Hv. destruct (decide (n_Output x = [])); [by apply H3|].
        rewrite lookup_insert_ne by done. by apply H3.
    + intros v. destruct (decide (v = n_NodeID x)) as [->|Hd]; [by rewrite lookup_insert_eq|].
      rewrite lookup_insert_ne by done. intros Hv. destruct (decide (n_Output x = [])); [by apply H4|].
      rewrite lookup_insert_ne by done. by apply H4.
    + done.
  - split_and!; [|intros ne [Hne| ->%list_elem_of_singleton]%elem_of_app; [by apply H2|done]|done..].
    intros v ne (?&?&?)%H1. set_solver.
Qed.

Section degrees.
Context {S F A : Type} `{Store S} `{ArtifactStore A} `{Ambient} `{MapOrder} `{EngineJSON}.
Implicit Types (r : Runner S F A) (l : Loop) (cfg : Config F) (g : WorkflowGraph F).

Lemma pendingDegrees_filter g done :
  pendingDegrees g done =
  foldl (fun m e => incDegree m (To e)) (zeroDegrees (Nodes g)) (filter (fun e => done !! From e = None) (Edges g)).
Proof.
  unfold pendingDegrees. generalize (zeroDegrees (Nodes g)). induction (Edges g) as [|e es IH]; intros m; [done|].
  simpl. rewrite filter_cons. destruct (decide (is_Some (done !! From e))) as [Hd|Hd].
  - rewrite decide_False by (intros E; rewrite E in Hd; by destruct Hd). apply IH.
  - rewrite decide_True by by apply eq_None_not_Some. simpl. apply IH.
Qed.

Lemma pending_filter es (done : gmap string NodeExecution) v :
  pending (filter (fun e => done !! From e = None) es) [] v = pending es (doneList done) v.
Proof.
  unfold pending. rewrite list_filter_filter. f_equal. apply list_filter_iff. intros e.
  rewrite elem_doneList, <- eq_None_not_Some. set_solver.
Qed.

Lemma pendingDegrees_degree g done v :
  degree (pendingDegrees g done) v = pending (Edges g) (doneList done) v.
Proof.
  rewrite pendingDegrees_filter, incDegrees_degree, pending_filter. unfold degree. rewrite zeroDegrees_lookup.
  case_decide; simpl; lia.
Qed.

Lemma initialReady_spec g done v : closedEdges (Edges g) (ids (Nodes g)) ->
  v ∈ initialReady g done (pendingDegrees g done) <->
  v ∈ ids (Nodes g) /\ done !! v = None /\ pending (Edges g) (doneList done) v = 0.
Proof.
  intros Hcl. unfold initialReady. rewrite sortReady_perm, list_elem_of_filter, order_perm, elem_of_elements, elem_of_dom.
  rewrite <- pendingDegrees_degree. unfold degree. rewrite pendingDegrees_filter, incDegrees_dom, zeroDegrees_lookup.
  split.
  - intros ((->&Hd)&[Hv|(u&Hu)]); (split; [|by rewrite Hd]).
    + case_decide; [done|by destruct Hv].
    + unfold edge in Hu. apply list_elem_of_filter in Hu as [_ Hu]. by apply (Hcl u v).
  - intros (Hv&Hd&Hz). rewrite decide_True by done. split; [|left; eauto]. split; [|done].
    assert (is_Some (foldl (fun m e => incDegree m (To e)) (zeroDegrees (Nodes g))
      (filter (fun e => done !! From e = None) (Edges g)) !! v)) as [d Hs].
    { apply incDegrees_dom. left. rewrite zeroDegrees_lookup, decide_True by done. eauto. }
    rewrite Hs in *. simpl in Hz. by subst.
Qed.

(** ** Entering the loop *)
Definition entered cfg (st : stepResult) : Prop :=
  exists ctx parent now g input cache run prev tenant r,
    enterLoop ctx parent now g input cache run prev tenant r = inl (cfg, st) /\
    Validate g = None /\ single_success prev.

(** Other goroutines change the runner as [env] allows. *)
Inductive reach (env : relation (Runner S F A)) cfg (st0 : stepResult) : stepResult -> Prop :=
| reach_start : reach env cfg st0 st0
| reach_step ev st st' : reach env cfg st0 st -> step cfg ev st = Some st' -> reach env cfg st0 st'
| reach_env pc l r r' : reach env cfg st0 (pc, l, r) -> env r r' -> reach env cfg st0 (pc, l, r').

Lemma entered_start cfg pc l r : entered cfg (pc, l, r) ->
  valid (c_graph cfg) /\ pc = AtTop /\ dag_inv cfg l /\ all_open cfg l /\
  r_Status (l_run l) = RunStatusRunning /\ 1 <= c_maxPar cfg /\
  (l_failed l || l_externalCanceled l || l_waiting l || l_budgetExceeded l || l_stopScheduling l) = false /\
  l_flight l = [] /\ l_inflightKey l = ∅.
Proof.
  intros (ctx&parent&now&g&input&cache&run&prev&tenant&r0&He&Hv&Hs).
  unfold enterLoop in He. pose proof (priorNodes_spec prev Hs) as Hp.
  destruct (priorNodes prev) as [[done outputs] maxA]. destruct Hp as (H1'&_&H3'&_).
  destruct (isCanceled _ _); [done|]. destruct (onStore _ _) as [r1 [err|]]; [done|].
  set (r2 := match r_StartedAt run with None => _ | Some _ => r1 end) in He.
  destruct (newContext _) as [c r3]. apply (inj inl) in He. injection He as <- <- <- <-.
  apply Validate_valid in Hv. pose proof Hv as (Hnd&_&Hcl&_).
  pose proof (fun v => initialReady_spec g done v Hcl) as Hr. simpl c_graph.
  split; [done|]. split; [done|]. split; [|split; [|split_and!; try done]].
  - split; unfold openNodes; simpl; rewrite ?app_nil_r; try done.
    + unfold MaxParallelism. destruct (Z.ltb_spec (rn_maxParallel (setRunCancel (r_RunID run) c r3)) 1); lia.
    + unfold initialReady. rewrite sortReady_perm. apply NoDup_filter. rewrite order_perm. apply NoDup_elements.
    + intros v Hin. apply Hr in Hin as (Hn&Hd&Hz). split_and!; [done..|]. by rewrite pendingDegrees_degree.
    + intros v _ _. apply pendingDegrees_degree.
    + intros v. rewrite pendingDegrees_degree. apply zlen_nonneg.
    + by intros f ?%elem_of_nil.
    + constructor.
    + intros v ne Hd. destruct (H1' _ _ Hd) as (_&?&?). split_and!; [done..|]. by apply H3'.
  - intros _ v Hn Hd Hz. unfold openNodes. simpl. rewrite app_nil_r. apply Hr. split_and!; [done..|].
    by rewrite <- pendingDegrees_degree.
  - simpl. unfold MaxParallelism. destruct (Z.ltb_spec (rn_maxParallel (setRunCancel (r_RunID run) c r3)) 1); lia.
Qed.

Definition live (pc : PC) : Prop := match pc with Returned _ => False | _ => True end.

Lemma step_live cfg ev pc l r st : step cfg ev (pc, l, r) = Some st -> live pc.
Proof. destruct pc; [done..|]. by destruct ev. Qed.

Lemma reach_inv env cfg st0 pc l r : entered cfg st0 -> reach env cfg st0 (pc, l, r) -> live pc ->
  dag_inv cfg l /\ all_open cfg l.
Proof.
  intros He Hr. remember (pc, l, r) as st eqn:Est. revert pc l r Est.
  induction Hr as [|ev [[pc1 l1] r1] st' Hr IH Hs|pc1 l1 r1 r1' Hr IH Henv]; intros pc l r Est Hl.
  - subst. by apply entered_start in He as (_&_&?&?&_).
  - subst. destruct (IH _ _ _ eq_refl (step_live _ _ _ _ _ _ Hs)) as [Hi Ho].
    destruct st0 as [[pc0 l0] r0]. destruct (entered_start _ _ _ _ He) as [Hv _].
    apply step_core in Hs; [|apply (di_budget _ _ Hi)|apply (di_sent _ _ Hi)].
    destruct (core_step_inv cfg Hv l1 pc l Hs) as [Hi' Ho']; [|done|auto]. by intros e ->.
  - injection Est as <- <- <-. by eapply IH.
Qed.

(** What a node gets: the initial input, or the outputs of its parents, keyed by them. *)
Definition gathered cfg l (v : string) (agg : gmap string bytes) : Prop :=
  forall u, agg !! u = if decide (u ∈ default [] (parentsOf (edges cfg) !! v))
                       then n_Output <$> l_done l !! u else None.

Lemma aggregate_lookup deps outs u :
  aggregate deps outs !! u = if decide (u ∈ deps) then Some (default [] (outs !! u)) else None.
Proof.
  unfold aggregate. induction deps as [|d deps IH] using rev_ind; [apply lookup_empty|].
  rewrite foldl_app. simpl. destruct (decide (u = d)) as [->|Hne].
  - rewrite lookup_insert_eq, decide_True; [done|]. set_solver.
  - rewrite lookup_insert_ne, IH by done. destruct (decide (u ∈ deps)).
    + rewrite decide_True; [done|set_solver].
    + rewrite decide_False; [done|set_solver].
Qed.

(** C2: A node is in flight only when all its parents have succeeded, and its input is the
    initial input or, with parents, the encoding of their outputs under their names. *)
Theorem node_follows_parents env cfg st0 pc l r f :
  entered cfg st0 -> reach env cfg st0 (pc, l, r) -> live pc -> f ∈ l_flight l ->
  (forall u, edge (edges cfg) u (fl_node f) ->
     exists ne, l_done l !! u = Some ne /\ succeeded ne /\ n_NodeID ne = u) /\
  (fl_input f = c_input cfg /\ (forall u, ~ edge (edges cfg) u (fl_node f)) \/
   exists agg, gathered cfg l (fl_node f) agg /\ marshal agg = inl (fl_input f)).
Proof.
  intros He Hr Hl Hf. destruct (reach_inv _ _ _ _ _ _ He Hr Hl) as [Hi _].
  assert (forall u, edge (edges cfg) u (fl_node f) ->
            exists ne, l_done l !! u = Some ne /\ succeeded ne /\ n_NodeID ne = u /\
                       default [] (l_outputs l !! u) = n_Output ne) as Hpar.
  { intros u Hu. destruct (open_parents cfg l u (fl_node f) Hi) as [ne Hne]; [|done|].
    - unfold openNodes. apply elem_of_app. right. by apply list_elem_of_fmap_2.
    - exists ne. by destruct (di_done _ _ Hi _ _ Hne) as (?&?&?). }
  split; [intros u Hu; destruct (Hpar u Hu) as (ne&?&?&?&_); eauto|].
  pose proof (di_input _ _ Hi f Hf) as Hin. unfold nodeInput in Hin. fold (edges cfg) in Hin.
  destruct (decide (default [] (parentsOf (edges cfg) !! fl_node f) = [])) as [Hd|Hd].
  - left. injection Hin as <-. split; [done|]. intros u Hu. apply edge_parents in Hu. rewrite Hd in Hu.
    by apply elem_of_nil in Hu.
  - right. eexists. split; [|exact Hin]. intros u. rewrite aggregate_lookup. case_decide as Hu; [|done].
    apply edge_parents in Hu. destruct (Hpar u Hu) as (ne&->&_&_&->). done.
Qed.

(** C39: At most [maxPar] nodes are in flight, the counter of the loop is their number, no node
    is in flight twice or while it waits to start, and none that has succeeded is started again. *)
Theorem flights_bounded env cfg st0 pc l r :
  entered cfg st0 -> reach env cfg st0 (pc, l, r) -> live pc ->
  l_running l = zlen (l_flight l) /\ zlen (l_flight l) <= c_maxPar cfg /\
  NoDup (l_ready l ++ (fl_node <$> l_flight l)) /\
  forall v, v ∈ l_ready l ++ (fl_node <$> l_flight l) -> v ∈ names cfg /\ l_done l !! v = None.
Proof.
  intros He Hr Hl. destruct (reach_inv _ _ _ _ _ _ He Hr Hl) as [Hi _].
  pose proof (di_par _ _ Hi). rewrite (di_running _ _ Hi) in *. split_and!; [done|done|apply (di_nodup _ _ Hi)|].
  intros v Hv. by destruct (di_open _ _ Hi v Hv) as (?&?&_).
Qed.
End degrees.
