(* ===== verification/DagDurable.v ===== *)
(** * A run keeps its progress in the store (properties of DagRun.v)

    The succeeded executions in the store are exactly the nodes the loop knows as done, at
    every instant; so a crash loses no completed node and a resumed run starts from them. *)
From S2P Require Import Prelude Storage Graph GraphSpec EngineStore Throttle Authz Risk Runtime.
From S2P Require Import Governance Human Admission DagRun DagInv DagStore DagSpec.

Section durable.
Context {S F A : Type} `{Store S} `{!StoreLaws S} `{ArtifactStore A} `{Ambient} `{MapOrder} `{EngineJSON}.
#[local] Set Default Proof Using "Type*".
Implicit Types (r : Runner S F A) (l : Loop) (cfg : Config F) (lr : Loop * Runner S F A).

Definition stored r (run n : string) (a : Z) : option NodeExecution := GetNodeExecution run n a (rn_store r).
Definition attemptOf l (n : string) : Z := default 0 (l_maxAttempt l !! n).
(** The record of a node in flight. *)
Definition runningExec cfg (f : flight) : NodeExecution :=
  nodeExec cfg (fl_node f) (fl_attempt f) NodeStatusRunning (fl_started f) None (fl_input f) [] "".

Record durable cfg l r : Prop := {
  du_done : forall n ne, l_done l !! n = Some ne ->
    stored r (c_runID cfg) n (n_Attempt ne) = Some ne /\ succeeded ne;
  du_succeeded : forall n a ne, stored r (c_runID cfg) n a = Some ne -> succeeded ne ->
    l_done l !! n = Some ne;
  du_keyed : forall n a ne, stored r (c_runID cfg) n a = Some ne -> n_NodeID ne = n /\ n_Attempt ne = a;
  du_running : forall f, f ∈ l_flight l -> fl_sent f = None ->
    stored r (c_runID cfg) (fl_node f) (fl_attempt f) = Some (runningExec cfg f);
  du_attempts : forall n a ne, stored r (c_runID cfg) n a = Some ne -> a <= attemptOf l n;
  du_flight : forall f, f ∈ l_flight l -> fl_attempt f <= attemptOf l (fl_node f)
}.

(** ** Steps that write no node execution *)
Definition unwritten lr lr' : Prop :=
  nodes_kept lr.2 lr'.2 /\ l_done lr'.1 = l_done lr.1 /\ l_flight lr'.1 = l_flight lr.1 /\
  l_maxAttempt lr'.1 = l_maxAttempt lr.1.

Lemma unwritten_refl lr : unwritten lr lr.
Proof. done. Qed.
Lemma unwritten_trans lr1 lr2 lr3 : unwritten lr1 lr2 -> unwritten lr2 lr3 -> unwritten lr1 lr3.
Proof. unfold unwritten, nodes_kept. intros (?&?&?&?) (?&?&?&?). split_and!; intros; congruence. Qed.
Lemma kept_nodes r r' : kept r r' -> nodes_kept r r'.
Proof. by intros [[_ ?] _]. Qed.
Lemma unwritten_kept l r r' : kept r r' -> unwritten (l, r) (l, r').
Proof. intros Hk. split; [by apply kept_nodes|done]. Qed.
Lemma nodes_saveRun run r r' : nodes_kept r r' -> nodes_kept r (saveRun run r').
Proof. unfold nodes_kept. intros Hk rn n a. rewrite <- Hk. apply saveRun_spec. Qed.
Lemma nodes_kept_kept r r1 r2 : nodes_kept r r1 -> kept r1 r2 -> nodes_kept r r2.
Proof. unfold nodes_kept. intros Hk Hk2%kept_nodes rn n a. by rewrite Hk2. Qed.

Lemma nodes_leave cfg r r' : nodes_kept r r' -> nodes_kept r (leave cfg r').
Proof. done. Qed.

Lemma unwritten_durable cfg l r l' r' : unwritten (l, r) (l', r') -> durable cfg l r -> durable cfg l' r'.
Proof.
  unfold unwritten, nodes_kept. simpl. intros (Hn&E1&E2&E3) [D1 D2 Dk D3 D4 D5].
  split; unfold stored, attemptOf in *; rewrite ?E1, ?E2, ?E3; try setoid_rewrite Hn; auto.
Qed.

Lemma unwritten_trigger cfg now a b c d e l r :
  unwritten (l, r) (triggerBudgetExceeded cfg now a b c d e (l, r)).
Proof.
  unfold triggerBudgetExceeded. destruct (l_budgetExceeded l); [done|]. split; [|done]. cbn [snd].
  match goal with |- nodes_kept _ (runCancel _ ?x) => change (nodes_kept r x) end.
  eapply nodes_kept_kept; [|apply kept_emit]. eapply nodes_kept_kept; [|apply kept_emit]. by apply nodes_saveRun.
Qed.
Lemma unwritten_dropSlot n l r : unwritten (l, r) (dropSlot n (l, r)).
Proof. unfold dropSlot. destruct (l_inflightKey l !! n) as [key|]; [|done]. by destruct (decide (key = "")). Qed.
Lemma unwritten_markWaiting l r : unwritten (l, r) (markWaiting (l, r)).
Proof. split; [by apply nodes_saveRun|done]. Qed.
Lemma unwritten_checks cfg now l r : unwritten (l, r) (checkCanceled cfg (checkWallClock cfg now (l, r))).
Proof.
  assert (forall l r, unwritten (l, r) (checkCanceled cfg (l, r))) as Hc.
  { intros l0 r0. unfold checkCanceled. by destruct (negb _ && _). }
  unfold checkWallClock. destruct (r_StartedAt (l_run l)) as [t|]; [|apply Hc].
  destruct (negb _ && _ && _); [|apply Hc].
  pose proof (unwritten_trigger cfg now "wall_clock_timeout" "wall_clock_timeout_ms" "wall_clock_ms"
    (jint (WallClockTimeoutMS (c_budget cfg))) (jint (Milliseconds (Sub now t))) l r) as Ht.
  destruct (triggerBudgetExceeded _ _ _ _ _ _ _ _) as [l1 r1]. exact (unwritten_trans _ _ _ Ht (Hc l1 r1)).
Qed.
Lemma unwritten_acquire cfg now node l r : unwritten (l, r) (acquireSlot cfg now node (l, r)).1.
Proof.
  unfold acquireSlot. destruct (decide _); [done|]. destruct (concurrencyCapFor _ _ _) as [[cap scope] key].
  destruct (cap <=? 0); [done|]. destruct (tryAcquireCap key cap (rn_caps r)) as [caps [[] k]]; [done|].
  destruct (shouldEmitThrottle _ _ _ _) as [last []]; [|done]. split; [|done]. by apply kept_nodes, kept_emit.
Qed.
Lemma unwritten_onUsage cfg tokens dollars now l r :
  let '(_, l', r') := onUsage cfg tokens dollars now (l, r) in unwritten (l, r) (l', r').
Proof.
  unfold onUsage. destruct (l_budgetExceeded l); [done|]. set (run := set_r_Usage _ _).
  assert (unwritten (l, r) (set_l_run run l, saveRun run r)) as F1 by (split; [by apply nodes_saveRun|done]).
  destruct ((_ <? _) && _); [|destruct (fltb _ _ && _); [|exact F1]].
  - pose proof (unwritten_trigger cfg now "tokens" "max_tokens" "tokens" (jint (MaxTokens (c_budget cfg)))
      (jint (bu_Tokens (r_BudgetUsage run))) (set_l_run run l) (saveRun run r)) as Ht.
    destruct (triggerBudgetExceeded _ _ _ _ _ _ _ _) as [l2 r2]. exact (unwritten_trans _ _ _ F1 Ht).
  - pose proof (unwritten_trigger cfg now "dollars" "max_dollars" "dollars"
      (JNumber (formatFloat (MaxDollars (c_budget cfg)))) (JNumber (formatFloat (bu_Dollars (r_BudgetUsage run))))
      (set_l_run run l) (saveRun run r)) as Ht.
    destruct (triggerBudgetExceeded _ _ _ _ _ _ _ _) as [l2 r2]. exact (unwritten_trans _ _ _ F1 Ht).
Qed.
Lemma unwritten_onDone cfg l r : let '(_, l', r') := onDone cfg (l, r) in unwritten (l, r) (l', r').
Proof. unfold onDone. by destruct (isCanceled _ r). Qed.
Lemma unwritten_finish cfg now l r : let '(_, l', r') := finish cfg now (l, r) in unwritten (l, r) (l', r').
Proof.
  unfold finish. repeat match goal with |- match (if ?b then _ else _) with _ => _ end => destruct b; [done|] end.
  set (run := set_r_Terminal _ _ _). pose proof (saveRun_spec run r) as (Hn&_&_). unfold saveRun, try in Hn.
  destruct (onStore (UpdateRun run) r) as [r1 [err|]]; [done|]. split; [|done].
  intros rn n a. transitivity (GetNodeExecution rn n a (rn_store r1)); [|apply Hn]. cbn [snd].
  match goal with |- context [leave _ ?x] => change (rn_store (leave cfg x)) with (rn_store x) end.
  apply kept_nodes, kept_emit.
Qed.

(** ** Steps that write one node execution *)
Definition wrote (ne : NodeExecution) r r' : Prop :=
  forall run n a, stored r' run n a = stored r run n a \/
    (run = n_RunID ne /\ n = n_NodeID ne /\ a = n_Attempt ne /\ stored r' run n a = Some ne).
Lemma node_write_wrote ne r r' : node_write ne r r' -> wrote ne r r'.
Proof. by intros (_&_&Hw). Qed.
Lemma wrote_nodes ne r r1 r2 : wrote ne r r1 -> nodes_kept r1 r2 -> wrote ne r r2.
Proof. unfold wrote, nodes_kept, stored. intros Hw Hk run n a. rewrite Hk. apply Hw. Qed.

(** The write is about an undone node that is no longer in flight, or is being launched. *)
Lemma durable_write cfg l r l' r' ne :
  durable cfg l r -> wrote ne r r' -> n_RunID ne = c_runID cfg -> l_done l !! n_NodeID ne = None ->
  (forall n, attemptOf l n <= attemptOf l' n) -> n_Attempt ne <= attemptOf l' (n_NodeID ne) ->
  (l_done l' = l_done l /\ ~ succeeded ne \/
   l_done l' = <[n_NodeID ne := ne]> (l_done l) /\ succeeded ne /\
     stored r' (c_runID cfg) (n_NodeID ne) (n_Attempt ne) = Some ne) ->
  (forall f, f ∈ l_flight l' -> f ∈ l_flight l /\ fl_node f <> n_NodeID ne \/
     fl_node f = n_NodeID ne /\ fl_attempt f <= attemptOf l' (fl_node f) /\
     (fl_sent f = None -> stored r' (c_runID cfg) (fl_node f) (fl_attempt f) = Some (runningExec cfg f))) ->
  durable cfg l' r'.
Proof.
  intros [D1 D2 Dk D3 D4 D5] Hw Hrun Hun Hmono Hatt Hdone Hfl.
  assert (forall n a, n <> n_NodeID ne -> stored r' (c_runID cfg) n a = stored r (c_runID cfg) n a) as Hother.
  { intros n a Hn. by destruct (Hw (c_runID cfg) n a) as [|(_&?&_)]. }
  assert (forall n a x, stored r' (c_runID cfg) n a = Some x ->
            stored r (c_runID cfg) n a = Some x \/ (n = n_NodeID ne /\ a = n_Attempt ne /\ x = ne)) as Hinv.
  { intros n a x Hx. destruct (Hw (c_runID cfg) n a) as [E|(_&->&->&E)]; [left|right].
    - congruence.
    - split_and!; congruence. }
  split.
  - intros n x Hx. destruct (decide (n = n_NodeID ne)) as [->|Hn].
    + destruct Hdone as [[E _]|(E&Hs&Hst)]; rewrite E in Hx; [congruence|].
      rewrite lookup_insert_eq in Hx. by injection Hx as <-.
    + rewrite Hother by done. apply D1. destruct Hdone as [[E _]|[E _]]; rewrite E in Hx; [done|].
      by rewrite lookup_insert_ne in Hx.
  - intros n a x Hx Hs. destruct (Hinv _ _ _ Hx) as [Hx'|(->&->&->)].
    + specialize (D2 _ _ _ Hx' Hs). destruct Hdone as [[-> _]|[-> _]]; [done|].
      destruct (decide (n = n_NodeID ne)) as [->|]; [congruence|by rewrite lookup_insert_ne].
    + destruct Hdone as [[_ Hns]|[-> _]]; [done|]. by rewrite lookup_insert_eq.
  - intros n a x Hx. destruct (Hinv _ _ _ Hx) as [Hx'|(->&->&->)]; [by apply Dk|done].
  - intros f Hf Hsent. destruct (Hfl f Hf) as [[Hin Hn]|(Hn&_&Hs)]; [|by apply Hs].
    rewrite Hother by done. by apply D3.
  - intros n a x Hx. destruct (Hinv _ _ _ Hx) as [Hx'|(->&->&->)]; [|done].
    specialize (D4 _ _ _ Hx'). specialize (Hmono n). lia.
  - intros f Hf. destruct (Hfl f Hf) as [[Hin Hn]|(_&Ha&_)]; [|done].
    specialize (D5 f Hin). specialize (Hmono (fl_node f)). lia.
Qed.

(** Dropping flights and raising attempt numbers. *)
Lemma durable_sub cfg l r l' r' :
  durable cfg l r -> nodes_kept r r' -> l_done l' = l_done l -> (forall f, f ∈ l_flight l' -> f ∈ l_flight l) ->
  (forall n, attemptOf l n <= attemptOf l' n) -> durable cfg l' r'.
Proof.
  unfold nodes_kept. intros [D1 D2 Dk D3 D4 D5] Hk E Hf Hm.
  split; unfold stored in *; rewrite ?E; try setoid_rewrite Hk; auto.
  - intros n a ne Hn. specialize (D4 _ _ _ Hn). specialize (Hm n). lia.
  - intros f Hin. specialize (D5 f (Hf f Hin)). specialize (Hm (fl_node f)). lia.
Qed.

Lemma completeNode_fields cfg n out l :
  l_done (completeNode cfg n out l) = l_done l /\ l_flight (completeNode cfg n out l) = l_flight l /\
  l_maxAttempt (completeNode cfg n out l) = l_maxAttempt l.
Proof. unfold completeNode. by destruct (releaseUndone _ _ _ _). Qed.

Lemma launch_durable cfg now k n att input l r :
  durable cfg l r -> l_done l !! n = None -> n ∉ fl_node <$> l_flight l -> att <= attemptOf l n ->
  let '(_, l', r') := launch cfg now k n att input (l, r) in durable cfg l' r'.
Proof.
  intros Hd Hun Hnf Ha. unfold launch.
  set (ne := nodeExec cfg n att NodeStatusRunning now None input [] "").
  destruct (onStore (UpsertNodeExecution ne) r) as [r1 e] eqn:E. apply upsert_write in E as (Hw&Hs&Hk).
  assert (forall f, f ∈ l_flight l -> fl_node f <> n) as Hne.
  { intros f Hf <-. by apply Hnf, list_elem_of_fmap_2. }
  destruct e as [err|].
  - pose proof (unwritten_dropSlot n l r1) as Hu. destruct (dropSlot n (l, r1)) as [l2 r2].
    apply (unwritten_durable cfg l r); [|done]. unfold abort. simpl.
    eapply unwritten_trans; [apply unwritten_kept, (Hk err); done|]. eapply unwritten_trans; [exact Hu|]. done.
  - apply (durable_write cfg l r _ _ ne); try done.
    + eapply wrote_nodes; [by apply node_write_wrote|apply kept_nodes, kept_emit].
    + left. split; [done|]. unfold succeeded, ne. simpl. by intros Hst.
    + intros f. simpl. rewrite elem_of_app, list_elem_of_singleton. intros [Hf| ->]; [left; auto|].
      right. split_and!; [done|done|]. intros _. unfold stored.
      rewrite (kept_nodes _ _ (kept_emit now (c_runID cfg) EventNodeStarted (c_wfID cfg) n att [] r1)).
      by apply Hs.
Qed.

Lemma finished_durable cfg now ty wf n att p (l l0 : Loop) r r1 ne :
  durable cfg l r -> l_done l !! n = None -> (forall f, f ∈ l_flight l0 -> f ∈ l_flight l /\ fl_node f <> n) ->
  n_RunID ne = c_runID cfg -> n_NodeID ne = n -> n_Attempt ne <= attemptOf l n -> l_maxAttempt l0 = l_maxAttempt l ->
  l_done l0 = l_done l -> succeeded ne -> onStore (UpsertNodeExecution ne) r = (r1, None) ->
  forall l' r', l_done l' = <[n := ne]> (l_done l0) -> l_flight l' = l_flight l0 -> l_maxAttempt l' = l_maxAttempt l0 ->
    nodes_kept r1 r' -> durable cfg l' r' /\ durable cfg l' (emit now (c_runID cfg) ty wf n att p r').
Proof.
  intros Hd Hun Hfl Hrun Hid Ha Em Ed Hsu E l' r' E1 E2 E3 Hk. apply upsert_write in E as (Hw&Hs&_). subst n.
  assert (forall r2, nodes_kept r1 r2 -> durable cfg l' r2) as Hall.
  { intros r2 Hk2. apply (durable_write cfg l r _ _ ne); try done.
    - eapply wrote_nodes; [by apply node_write_wrote|done].
    - intros n. unfold attemptOf. by rewrite E3, Em.
    - unfold attemptOf in *. by rewrite E3, Em.
    - right. rewrite E1, Ed. split_and!; [done..|]. unfold stored. rewrite Hk2, <- Hrun. by apply Hs.
    - intros f. rewrite E2. intros Hf. left. by apply Hfl. }
  split; apply Hall; [done|]. eapply nodes_kept_kept; [exact Hk|apply kept_emit].
Qed.

Lemma cacheHit_durable cfg now k n att input entry l r :
  durable cfg l r -> l_done l !! n = None -> n ∉ fl_node <$> l_flight l -> att <= attemptOf l n ->
  let '(_, l', r') := cacheHit cfg now k n att input entry (l, r) in durable cfg l' r'.
Proof.
  intros Hd Hun Hnf Ha. unfold cacheHit.
  set (r0 := emit now _ EventNodeStarted _ _ _ _ r). set (ne := nodeExec cfg n att NodeStatusSucceeded _ _ _ _ _).
  assert (durable cfg l r0) as Hd0 by (eapply unwritten_durable; [apply unwritten_kept, kept_emit|done]).
  assert (forall f, f ∈ l_flight l -> f ∈ l_flight l /\ fl_node f <> n) as Hne.
  { intros f Hf. split; [done|]. intros <-. by apply Hnf, list_elem_of_fmap_2. }
  destruct (onStore (UpsertNodeExecution ne) r0) as [r1 [err|]] eqn:E.
  - apply upsert_write in E as (_&_&Hk). apply (unwritten_durable cfg l r0); [|done]. split; [|done]. apply nodes_leave, kept_nodes. by apply (Hk err).
  - pose proof (kept_finishedPayload cfg n att (ce_Output entry) (Some (ce_Attempt entry)) now now r1) as Hk.
    apply kept_nodes in Hk.
    destruct (finishedPayload _ _ _ _ _ _ _ _) as [r2 [p|err]]; simpl in Hk.
    + destruct (completeNode_fields cfg n (ce_Output entry) (set_l_done (<[n := ne]> (l_done l)) l)) as (E1&E2&E3).
      eapply (finished_durable cfg now EventNodeFinished (c_wfID cfg) n att p l l r0 r1 ne); done.
    + eapply (finished_durable cfg now EventNodeFinished (c_wfID cfg) n att [] l l r0 r1 ne); done.
Qed.

Lemma durable_addSent cfg l r f res :
  durable cfg l r -> fl_sent f = Some res -> fl_attempt f <= attemptOf l (fl_node f) ->
  durable cfg (addFlight f l) r.
Proof.
  intros [D1 D2 Dk D3 D4 D5] Hs Ha. split; try done; intros f'; simpl; rewrite elem_of_app, list_elem_of_singleton.
  - intros [Hf| ->]; [by apply D3|congruence].
  - intros [Hf| ->]; [by apply D5|done].
Qed.

Lemma startNode_durable cfg now k node l r :
  durable cfg l r -> l_done l !! NodeID node = None -> NodeID node ∉ fl_node <$> l_flight l ->
  let '(_, l', r') := startNode cfg now k node (l, r) in durable cfg l' r'.
Proof.
  intros Hd Hun Hnf. unfold startNode. set (used := l_attemptsUsed l + 1). set (run := spend now used (l_run l)).
  set (l1 := set_l_run run (set_l_attemptsUsed used l)). set (r1 := saveRun run r).
  assert (forall l2 r2, unwritten (l1, r1) (l2, r2) -> durable cfg l2 r2) as Hu1.
  { intros l2 r2 Hu. apply (unwritten_durable cfg l r); [|done]. eapply unwritten_trans; [|exact Hu].
    split; [by apply nodes_saveRun|done]. }
  assert (forall l2 r2 err, durable cfg l2 r2 ->
    let '(_, l', r') := abort cfg err (dropSlot (NodeID node) (l2, r2)) in durable cfg l' r') as Habort.
  { intros l2 r2 err Hd2. pose proof (unwritten_dropSlot (NodeID node) l2 r2) as Hu.
    destruct (dropSlot _ _) as [l3 r3]. by apply (unwritten_durable cfg l2 r2). }
  destruct (nodeInput cfg l1 (NodeID node)) as [input|err]; [|apply Habort, Hu1, unwritten_refl].
  set (prev := default 0 (l_maxAttempt l1 !! NodeID node)). set (att := if 0 <? prev then prev + 1 else 1).
  set (l2 := set_l_maxAttempt (<[NodeID node := att]> (l_maxAttempt l1)) l1).
  assert (prev <= att) as Hatt by (unfold att; destruct (Z.ltb_spec 0 prev); lia).
  assert (attemptOf l2 (NodeID node) = att) as Ha2 by (unfold attemptOf; simpl; by rewrite lookup_insert_eq).
  assert (forall n, attemptOf l n <= attemptOf l2 n) as Hmono.
  { intros n. destruct (decide (n = NodeID node)) as [->|Hn]; [rewrite Ha2; exact Hatt|].
    unfold attemptOf. simpl. by rewrite lookup_insert_ne. }
  assert (durable cfg l2 r1) as Hd1 by (apply (durable_sub cfg l r); [done|by apply nodes_saveRun|done|done|done]).
  pose proof (maybeHandleHumanNode_write (c_ctx cfg) now (c_runID cfg) (c_wfID cfg) node att input now r1) as Hw.
  set (ne := mkNodeExec _ _ _ _ _ _ _ _ _ _) in Hw.
  destruct (maybeHandleHumanNode _ _ _ _ _ _ _ _ _) as [r2 res]. simpl in Hw.
  assert (durable cfg l2 r2) as Hd2.
  { apply (durable_write cfg l2 r1 _ _ ne); try done; [by apply node_write_wrote|..].
    - change (att <= attemptOf l2 (NodeID node)). by rewrite Ha2.
    - left. split; [done|]. unfold succeeded, ne. by intros Hst.
    - intros f Hf. left. split; [done|]. intros Hn. apply Hnf. change (n_NodeID ne) with (NodeID node) in Hn. rewrite <- Hn. by apply list_elem_of_fmap_2. }
  destruct res as [[res|]|err]; [| |by apply Habort].
  - destruct (isPending res).
    + pose proof (unwritten_markWaiting l2 r2) as Hm. destruct (markWaiting (l2, r2)) as [l3 r3].
      pose proof (unwritten_dropSlot (NodeID node) l3 r3) as Hs. destruct (dropSlot _ _) as [l4 r4].
      apply (unwritten_durable cfg l2 r2); [|done]. by eapply unwritten_trans.
    + eapply durable_addSent; [done|done|]. simpl. by rewrite Ha2.
  - assert (att <= attemptOf l2 (NodeID node)) by by rewrite Ha2.
    destruct (c_cache cfg ≫= lookup (NodeID node)); [by apply cacheHit_durable|by apply launch_durable].
Qed.

Lemma schedStep_durable cfg now s k l r :
  dag_inv cfg l -> durable cfg l r ->
  let '(_, l', r') := schedStep cfg now s k (l, r) in durable cfg l' r'.
Proof.
  intros Hi Hd. unfold schedStep. destruct (_ || _) eqn:Estop; [done|]. apply orb_false_iff in Estop as [Estop _].
  destruct (l_ready l) as [|n rest] eqn:Er; [done|].
  destruct (k <=? s); [done|]. set (l0 := set_l_ready rest l).
  assert (durable cfg l0 r) as Hd0 by by apply (unwritten_durable cfg l r).
  destruct (nodeByID _ !! n) as [node|] eqn:En; [|by apply (unwritten_durable cfg l0 r)]. apply nodeByID_lookup in En. subst n.
  destruct (taken_left _ _ _ _ Hi (taken_ready _ _ _ Er Estop)) as [_ Hun _ Hgone _ _ _]. fold l0 in Hgone.
  destruct (negb _ && _ && _).
  { pose proof (unwritten_trigger cfg now "max_attempts" "max_attempts" "attempts"
      (jint (bp_MaxAttempts (c_budget cfg))) (jint (l_attemptsUsed l0)) l0 r) as Hu.
    destruct (triggerBudgetExceeded _ _ _ _ _ _ _ _) as [l1 r1]. by apply (unwritten_durable cfg l0 r). }
  pose proof (unwritten_acquire cfg now node l0 r) as Hu.
  destruct (acquireSlot cfg now node (l0, r)) as [[l1 r1] b].
  assert (durable cfg l1 r1) as Hd1 by by apply (unwritten_durable cfg l0 r).
  destruct b; [|exact Hd1]. destruct Hu as (_&E1&E2&_). simpl in E1, E2. apply startNode_durable; [done| |].
  - by rewrite E1.
  - rewrite E2. intros Hin. apply Hgone. unfold openNodes. apply elem_of_app. by right.
Qed.

(** The result of a flight that has been taken off the list. *)
Lemma onResult_durable cfg now res l l0 r f :
  dag_inv cfg l -> durable cfg l r -> taken l (fl_node f) l0 -> f ∈ l_flight l ->
  nr_nodeID res = fl_node f -> nr_attempt res = fl_attempt f ->
  let '(_, l', r') := onResult cfg now res (l0, r) in durable cfg l' r'.
Proof.
  intros Hi Hd Ht Hf Hn Ha. destruct (taken_left _ _ _ _ Hi Ht) as [_ Hun _ Hgone _ _ (E1&_)].
  assert (forall f', f' ∈ l_flight l0 -> f' ∈ l_flight l /\ fl_node f' <> fl_node f) as Hfl.
  { intros f' Hf'. split.
    - destruct Ht as [n rest E Est|i g E]; simpl in Hf'; [done|]. rewrite (removeAt_perm _ _ _ E). by right.
    - intros E. apply Hgone. unfold openNodes. apply elem_of_app. right. rewrite <- E. by apply list_elem_of_fmap_2. }
  assert (l_maxAttempt l0 = l_maxAttempt l) as Em by by destruct Ht.
  unfold onResult. pose proof (unwritten_dropSlot (nr_nodeID res) l0 r) as Hs.
  destruct (dropSlot (nr_nodeID res) (l0, r)) as [l1 r1]. destruct Hs as (Hk&S1&S2&S3). simpl in *.
  (* a record that is not a success is written *)
  assert (forall st ended out err l2 r2 r3, st <> NodeStatusSucceeded ->
            wrote (resultExec cfg res st ended out err) r r2 -> nodes_kept r2 r3 ->
            l_done l2 = l_done l -> l_flight l2 = l_flight l0 -> l_maxAttempt l2 = l_maxAttempt l ->
            durable cfg l2 r3) as Hwr.
  { intros st ended out err l2 r2 r3 Hst Hw Hk2 F1 F2 F3.
    apply (durable_write cfg l r _ _ _ Hd (wrote_nodes _ _ _ _ Hw Hk2)); simpl; rewrite ?Hn, ?Ha; [done|done| | | |].
    - intros n. unfold attemptOf. by rewrite F3.
    - unfold attemptOf. rewrite F3. by apply (du_flight _ _ _ Hd).
    - left. by split.
    - intros f'. rewrite F2. intros Hf'. left. by apply Hfl. }
  assert (forall ne, wrote ne r (saveNode ne r1)) as Hsave.
  { intros ne run n a. unfold stored. rewrite <- (Hk run n a). apply (saveNode_write ne r1). }
  destruct (l_budgetExceeded l1).
  { eapply Hwr; [|apply Hsave|intros ???; reflexivity|congruence..]. by intros ?. }
  destruct (l_externalCanceled l1 || _).
  { eapply Hwr; [|apply Hsave|intros ???; reflexivity|simpl; congruence..]. by intros ?. }
  destruct (nr_err res) as [[err|after reason]|].
  - unfold onFailure. eapply (Hwr NodeStatusFailed (nr_ended res) [] (Error err)); [|apply Hsave| |simpl; congruence..]; [by intros ?|].
    match goal with |- nodes_kept _ (runCancel _ ?x) => change (nodes_kept (saveNode (resultExec cfg res
      NodeStatusFailed (nr_ended res) [] (Error err)) r1) x) end.
    eapply nodes_kept_kept; [|apply kept_emit]. apply nodes_saveRun. by apply kept_nodes, kept_emit.
  - unfold onDelay, markWaiting. eapply (Hwr NodeStatusWaiting now [] ""); [|apply Hsave| |simpl; congruence..]; [by intros ?|].
    apply nodes_saveRun. apply kept_nodes. kept.
  - unfold onSuccess. set (ne := resultExec cfg res NodeStatusSucceeded _ _ _).
    assert (durable cfg l r1) as Hd1 by by apply (durable_sub cfg l r).
    destruct (onStore (UpsertNodeExecution ne) r1) as [r2 [err|]] eqn:E.
    + pose proof E as E'. apply upsert_write in E' as (_&_&Hk2). unfold abort. simpl.
      apply (durable_sub cfg l r1); [done| |simpl; congruence| |].
      * apply nodes_leave, kept_nodes. by apply (Hk2 err).
      * intros f'. rewrite S2. intros Hf'. by apply Hfl.
      * intros n. unfold attemptOf. by rewrite S3, Em.
    + pose proof (kept_finishedPayload cfg (nr_nodeID res) (nr_attempt res) (nr_output res) None (nr_started res)
        (nr_ended res) r2) as Hk2. apply kept_nodes in Hk2.
      destruct (finishedPayload _ _ _ _ _ _ _ _) as [r3 [p|err]]; simpl in Hk2.
      * destruct (completeNode_fields cfg (nr_nodeID res) (nr_output res) (set_l_done (<[nr_nodeID res := ne]> (l_done l1)) l1))
          as (G1&G2&G3).
        eapply (finished_durable cfg now EventNodeFinished (c_wfID cfg) (nr_nodeID res) (nr_attempt res) p l l1 r1 r2 ne);
          simpl; try done; rewrite ?Hn, ?Ha; try done; try congruence; [by rewrite S2|by apply (du_flight _ _ _ Hd)].
      * eapply (finished_durable cfg now EventNodeFinished (c_wfID cfg) (nr_nodeID res) (nr_attempt res) [] l l1 r1 r2 ne);
          simpl; try done; rewrite ?Hn, ?Ha; try done; try congruence; [by rewrite S2|by apply (du_flight _ _ _ Hd)].
Qed.

Lemma step_durable cfg ev pc l r pc' l' r' :
  dag_inv cfg l -> durable cfg l r -> step cfg ev (pc, l, r) = Some (pc', l', r') -> durable cfg l' r'.
Proof.
  intros Hi Hd. unfold step. destruct pc as [|s k| |e]; [| | |done].
  - destruct ev as [now| | | | |]; try done. intros Ht. apply (inj Some) in Ht. revert Ht. unfold topStep.
    destruct (decide _).
    + pose proof (unwritten_finish cfg now l r) as Hu. intros Ht. rewrite Ht in Hu. by apply (unwritten_durable cfg l r).
    + pose proof (unwritten_checks cfg now l r) as Hu. destruct (checkCanceled _ _) as [l1 r1].
      intros [= _ <- <-]. by apply (unwritten_durable cfg l r).
  - destruct ev as [now| | | | |]; try done. intros Ht. apply (inj Some) in Ht.
    pose proof (schedStep_durable cfg now s k l r Hi Hd) as Hs. by rewrite Ht in Hs.
  - unfold waitStep. pose proof (unwritten_onDone cfg l r) as Hdone. destruct (l_running l =? 0).
    + destruct (l_stopScheduling l).
      * destruct ev as [now| | | | |]; try done. intros Ht. apply (inj Some) in Ht.
        pose proof (unwritten_finish cfg now l r) as Hu. rewrite Ht in Hu. by apply (unwritten_durable cfg l r).
      * destruct (decide (l_ready l = [])); [destruct ev; try done; by intros [= _ <- <-]|].
        destruct ev; try done; [|by intros [= _ <- <-]]. destruct (ctxDone cfg r); [|done].
        intros Ht. apply (inj Some) in Ht. rewrite Ht in Hdone. by apply (unwritten_durable cfg l r).
    + destruct ev as [now| | | |tokens dollars now|i out err ended now]; try done.
      * by intros [= _ <- <-].
      * destruct (ctxDone cfg r); [|done].
        intros Ht. apply (inj Some) in Ht. rewrite Ht in Hdone. by apply (unwritten_durable cfg l r).
      * pose proof (unwritten_onUsage cfg tokens dollars now l r) as Hu. intros Ht. apply (inj Some) in Ht.
        rewrite Ht in Hu. by apply (unwritten_durable cfg l r).
      * destruct (l_flight l !! i) as [f|] eqn:E; [|done]. intros Ht. apply (inj Some) in Ht.
        set (res := default _ (fl_sent f)) in Ht.
        assert (nr_nodeID res = fl_node f /\ nr_attempt res = fl_attempt f) as [Hn Ha].
        { unfold res. destruct (fl_sent f) as [x|] eqn:Ef; [|done]. simpl.
          pose proof (di_sent _ _ Hi) as Hsent. eapply (Forall_lookup_1 _ _ _ _ Hsent E). done. }
        pose proof (onResult_durable cfg now res l _ r f Hi Hd (taken_flight _ _ _ E)
          (list_elem_of_lookup_2 _ _ _ E) Hn Ha) as Ho. by rewrite Ht in Ho.
Qed.

(** A run that enters the loop with the executions the store holds of it. *)
Definition entered_stored cfg (st : stepResult) : Prop :=
  exists ctx parent now g input cache run prev tenant r,
    enterLoop ctx parent now g input cache run prev tenant r = inl (cfg, st) /\
    Validate g = None /\ single_success prev /\
    (forall ne, ne ∈ prev <-> exists n a, stored r (r_RunID run) n a = Some ne) /\
    (forall n a ne, stored r (r_RunID run) n a = Some ne -> n_NodeID ne = n /\ n_Attempt ne = a).

Lemma entered_stored_entered cfg st : entered_stored cfg st -> entered cfg st.
Proof.
  intros (ctx&parent&now&g&input&cache&run&prev&tenant&r&He&Hv&Hs&_).
  by exists ctx, parent, now, g, input, cache, run, prev, tenant, r.
Qed.

Lemma entered_durable cfg pc l r : entered_stored cfg (pc, l, r) -> durable cfg l r.
Proof.
  intros (ctx&parent&now&g&input&cache&run&prev&tenant&r0&He&Hv&Hs&Hprev&Hkey).
  unfold enterLoop in He. pose proof (priorNodes_spec prev Hs) as Hp.
  destruct (priorNodes prev) as [[done outputs] maxA]. destruct Hp as (Hd1&Hd2&_&_&Hmax).
  destruct (isCanceled _ _); [done|].
  set (r00 := rememberGraph _ g r0) in He. set (run' := mkRun _ _ _ _ _ _ _ _ _ _ _ _) in He.
  pose proof (saveRun_spec run' r00) as (Hn1&_&_). unfold saveRun, try in Hn1.
  destruct (onStore _ r00) as [r1 [err|]]; [done|]. simpl in Hn1.
  set (r2 := match r_StartedAt run with None => _ | Some _ => r1 end) in He.
  assert (nodes_kept r0 r2) as Hn2.
  { intros rn n a. transitivity (GetNodeExecution rn n a (rn_store r1)).
    - unfold r2. destruct (r_StartedAt run); [done|]. apply kept_nodes, kept_emit.
    - rewrite Hn1. unfold r00, rememberGraph. destruct (decide (r_WorkflowID run = "")); reflexivity. }
  set (run2 := spend _ _ _) in He.
  assert (nodes_kept r0 (saveRun run2 r2)) as Hn3 by by apply nodes_saveRun.
  destruct (newContext (saveRun run2 r2)) as [c r3] eqn:Ec. unfold newContext in Ec. injection Ec as <- <-.
  apply (inj inl) in He. injection He as <- _ <- <-.
  assert (forall n a, stored (setRunCancel (r_RunID run) (rn_contexts (saveRun run2 r2))
    (set_rn_contexts (Datatypes.S (rn_contexts (saveRun run2 r2))) (saveRun run2 r2))) (r_RunID run) n a =
    stored r0 (r_RunID run) n a) as Hst.
  { intros n a. unfold stored. rewrite <- Hn3. unfold setRunCancel. by destruct (_ !! r_RunID run). }
  split; simpl; try setoid_rewrite Hst; try by intros f ?%elem_of_nil.
  - intros n ne Hd. destruct (Hd1 _ _ Hd) as (Hin&Hsu&Hid). apply Hprev in Hin as (n'&a&Hin).
    destruct (Hkey _ _ _ Hin) as [E1 E2]. by rewrite E2, <- Hid, E1.
  - intros n a ne Hne Hsu. destruct (Hkey _ _ _ Hne) as [E1 E2].
    assert (ne ∈ prev) as Hin by (apply Hprev; eauto). destruct (Hd2 _ Hin Hsu) as [x Hx]. rewrite E1 in Hx.
    rewrite Hx. f_equal. destruct (Hd1 _ _ Hx) as (Hin2&Hsu2&Hid). apply Hs; [done..|congruence].
  - apply Hkey.
  - intros n a ne Hne. destruct (Hkey _ _ _ Hne) as [E1 E2].
    assert (ne ∈ prev) as Hin by (apply Hprev; eauto). specialize (Hmax _ Hin). rewrite E1, E2 in Hmax. done.
Qed.

(** Others leave the node executions of the run alone. *)
Lemma reach_durable (env : Runner S F A -> Runner S F A -> Prop) cfg st0 pc l r :
  (forall r r', env r r' -> forall n a, stored r' (c_runID cfg) n a = stored r (c_runID cfg) n a) ->
  entered_stored cfg st0 -> reach env cfg st0 (pc, l, r) -> durable cfg l r.
Proof.
  intros Henv He Hr. pose proof (entered_stored_entered _ _ He) as He'. remember (pc, l, r) as st eqn:Est.
  revert pc l r Est. induction Hr as [|ev [[pc1 l1] r1] st' Hr IH Hs|pc1 l1 r1 r1' Hr IH Hev]; intros pc l r Est.
  - subst. by eapply entered_durable.
  - subst. destruct (reach_inv env _ _ _ _ _ He' Hr (step_live _ _ _ _ _ _ Hs)) as [Hi _].
    eapply step_durable; [exact Hi|by eapply IH|exact Hs].
  - injection Est as <- <- <-. destruct (IH _ _ _ eq_refl) as [D1 D2 Dk D3 D4 D5].
    split; try setoid_rewrite (Henv _ _ Hev); done.
Qed.

(** C6: At every instant, crashes included, the store holds a running execution for every
    handler in flight, and resuming the run from the store finds exactly the nodes that the
    loop had completed, each with its recorded output. *)
Theorem progress_durable (env : Runner S F A -> Runner S F A -> Prop) cfg st0 pc l r :
  (forall r r', env r r' -> forall n a, stored r' (c_runID cfg) n a = stored r (c_runID cfg) n a) ->
  entered_stored cfg st0 -> reach env cfg st0 (pc, l, r) ->
  (priorNodes (ListNodeExecutions (c_runID cfg) (rn_store r))).1.1 = l_done l /\
  forall f, f ∈ l_flight l -> fl_sent f = None ->
    stored r (c_runID cfg) (fl_node f) (fl_attempt f) = Some (runningExec cfg f).
Proof.
  intros Henv He Hr. destruct (reach_durable env _ _ _ _ _ Henv He Hr) as [D1 D2 Dk D3 _ _]. split; [|exact D3].
  set (nodes := ListNodeExecutions (c_runID cfg) (rn_store r)).
  assert (forall ne, ne ∈ nodes <-> stored r (c_runID cfg) (n_NodeID ne) (n_Attempt ne) = Some ne) as Hl.
  { intros ne. unfold nodes. rewrite law_list. split; [|by intros ?; eexists _, _].
    intros (n&a&Hs). by destruct (Dk _ _ _ Hs) as [-> ->]. }
  assert (single_success nodes) as Hs.
  { intros a b Ha%Hl Hb%Hl Sa Sb E. apply D2 in Ha, Hb; [|done..]. rewrite E in Ha. congruence. }
  pose proof (priorNodes_spec nodes Hs) as Hp. destruct (priorNodes nodes) as [[done outputs] maxA]. simpl.
  destruct Hp as (H1'&H2'&_). apply map_eq. intros n. apply option_eq. intros ne. split.
  - intros Hd. destruct (H1' _ _ Hd) as (Hin%Hl&Hsu&<-). by eapply D2.
  - intros Hd. destruct (D1 _ _ Hd) as [Hst Hsu]. assert (ne ∈ nodes) as Hin.
    { apply Hl. by destruct (Dk _ _ _ Hst) as [-> _]. }
    destruct (H2' _ Hin Hsu) as [x Hx]. destruct (Dk _ _ _ Hst) as [En _]. rewrite En in Hx.
    rewrite Hx. f_equal. destruct (H1' _ _ Hx) as (Hin2%Hl&Hsu2&Hid). apply D2 in Hin2; [|done].
    rewrite Hid in Hin2. congruence.
Qed.
End durable.
