(* ===== verification/AdmissionSpec.v ===== *)
(** * What lets a run start (properties of Risk.v, Admission.v, Governance.v, DagRun.v) *)
From S2P Require Import Prelude Storage Graph GraphSpec EngineStore Throttle Authz AuthzSpec Risk Runtime.
From S2P Require Import Governance Human Admission DagRun DagInv DagStore DagSpec Lifecycle.

(** ** Scores and thresholds *)
Definition ordered (t : RiskThresholds) : Prop := 0 < SandboxScore t < ApprovalScore t /\ ApprovalScore t < BlockScore t.
Lemma normalizeRiskPolicy_ordered p p' : normalizeRiskPolicy p = inl p' -> ordered (Thresholds p').
Proof.
  unfold normalizeRiskPolicy. set (t := mkThresholds _ _ _).
  assert (0 < SandboxScore t) as Hp.
  { unfold t. cbn [SandboxScore]. destruct (SandboxScore (Thresholds p) <=? 0) eqn:E; [done|]. by apply Z.leb_gt. }
  clearbody t. destruct (Z.leb_spec (ApprovalScore t) (SandboxScore t)); [done|].
  destruct (Z.leb_spec (BlockScore t) (ApprovalScore t)); [done|]. intros [= <-]. unfold ordered. simpl. lia.
Qed.

Section risk.
Context {F : Type} `{MapOrder} (decode : bytes -> option json).

(** The verdict follows the score. *)
Lemma evaluateRisk_verdict t ctxTenant p runID (g : WorkflowGraph F) input : ordered t ->
  let rep := evaluateRisk decode t ctxTenant p runID g input in
  (wk_Allowed rep = true <-> wk_Score rep < ApprovalScore t) /\
  (wk_Action rep = RiskActionRequireApproval <-> ApprovalScore t <= wk_Score rep < BlockScore t) /\
  (wk_Action rep = RiskActionBlock <-> BlockScore t <= wk_Score rep).
Proof.
  intros Ho rep. unfold ordered in Ho. unfold rep, evaluateRisk. simpl. set (s := riskScore _). unfold riskActionForScore.
  rewrite bool_decide_eq_true.
  destruct (Z.leb_spec (BlockScore t) s); [|destruct (Z.leb_spec (ApprovalScore t) s); [|destruct (Z.leb_spec (SandboxScore t) s)]];
    (refine (conj _ (conj _ _)); split; intros Hx; try (destruct Hx as [Hx|Hx]); try discriminate Hx; try lia; auto).
Qed.
End risk.

Section gate.
#[local] Set Default Proof Using "Type*".
Context {S F A : Type} `{Store S} `{!StoreLaws S} `{ArtifactStore A} `{Ambient} `{MapOrder} `{EngineJSON}.
Context (decode : bytes -> option json).
Implicit Types (r : Runner S F A) (g : WorkflowGraph F).

Lemma EvaluateWorkflowRisk_ordered ctx runID g input r r' rep :
  EvaluateWorkflowRisk decode ctx runID g input r = (r', inl rep) ->
  exists t ctxTenant p, ordered t /\ rep = evaluateRisk decode t ctxTenant p runID g input.
Proof.
  unfold EvaluateWorkflowRisk. destruct (GetRiskPolicy r) as [r1 [p|err]]; [|done].
  destruct (normalizeRiskPolicy _) as [p'|err] eqn:E; [|done]. intros [= _ <-].
  eexists _, _, _. split; [by eapply normalizeRiskPolicy_ordered|done].
Qed.

(** A human approved the escalated run. *)
Definition approved (runID : string) r : Prop :=
  exists t, findHumanTask runID "" 0 HumanTaskSourceRisk r = inl (Some t) /\ ht_Status t = HumanTaskApproved.

Lemma enforceRisk_allowed ctx now runID g input r r' rep :
  evaluateAndEnforceRisk decode ctx now runID g input r = (r', inl rep) -> wk_Allowed rep = true ->
  exists rep0 r0, EvaluateWorkflowRisk decode ctx runID g input r = (r0, inl rep0) /\
    (wk_Score rep0 < ApprovalScore (wk_Thresholds rep0) \/
     wk_Score rep0 < BlockScore (wk_Thresholds rep0) /\ approved runID r0).
Proof.
  unfold evaluateAndEnforceRisk. destruct (EvaluateWorkflowRisk _ _ _ _ _ r) as [r0 [rep0|err]] eqn:E; [|done].
  intros [= _ <-] Ha. exists rep0, r0. split; [done|].
  apply EvaluateWorkflowRisk_ordered in E as (t&ct&p&Ho&Hrep).
  destruct (evaluateRisk_verdict decode t ct p runID g input Ho) as (V1&V2&_). rewrite <- Hrep in V1, V2.
  assert (wk_Thresholds rep0 = t) as -> by by rewrite Hrep.
  destruct (decide (wk_Action rep0 = RiskActionRequireApproval)) as [Hr|]; [|left; by apply V1].
  apply V2 in Hr as [? Hb]. destruct (findHumanTask _ _ _ _ r0) as [[task|]|err] eqn:Et; [|left; by apply V1..].
  right. split; [done|]. exists task. split; [done|]. unfold humanVerdict in Ha.
  destruct (decide (ht_Status task = HumanTaskApproved)); [done|]. exfalso.
  repeat case_decide; try discriminate Ha; simpl in Ha; apply V1 in Ha; lia.
Qed.

(** C9: A run enters the loop only if its graph is valid, the authorization policy allows it
    and every step of it, and its risk score stays below the approval threshold or, below the
    blocking threshold, a human has approved it. *)
Theorem beginRun_gated ctx parent now runID g input spec cache r cfg st :
  beginRun decode ctx parent now runID g input spec cache r = inl (cfg, st) ->
  Validate g = None /\
  (exists bundle, (GetAuthorizationPolicy r).2 = inl bundle /\
     let p := default noPrincipal (PrincipalFrom ctx) in
     allowedBy (Rules (default noBundle bundle)) (normalizeRequest (startRequest (cx_TenantID ctx) p runID g)) /\
     forall n, n ∈ Nodes g -> TrimSpace (nd_Topic n) <> "" \/ TrimSpace (RequiredCapability n) <> "" ->
       allowedBy (Rules (default noBundle bundle)) (normalizeRequest (stepRequest (cx_TenantID ctx) p runID g n))) /\
  exists rep r0, EvaluateWorkflowRisk decode ctx runID g input (authorizeWorkflow ctx now runID g r).1 = (r0, inl rep) /\
    (wk_Score rep < ApprovalScore (wk_Thresholds rep) \/
     wk_Score rep < BlockScore (wk_Thresholds rep) /\ approved runID r0).
Proof.
  unfold beginRun. destruct (Validate g); [done|]. destruct (authorizeWorkflow ctx now runID g r) as [ra [rep|err]] eqn:Ea; [|done].
  destruct (evaluateAndEnforceRisk _ _ _ _ _ _ ra) as [rb [rep'|err]] eqn:Er; [|done].
  destruct (negb _) eqn:Eal.
  - destruct (decide _); [|done]. by destruct (stageRiskApproval _ _ _ _ _ _ _ _) as [? [?|?]].
  - apply negb_false_iff in Eal. intros _. split; [done|]. split; [|by apply (enforceRisk_allowed _ _ _ _ _ _ _ _ Er)].
    unfold authorizeWorkflow, EvaluateWorkflowAuthorization in Ea.
    destruct (GetAuthorizationPolicy r) as [rg [b|err]]; [|done]. exists b. split; [done|].
    destruct (wr_Allowed _) eqn:Ew in Ea; [|done].
    by apply evaluateWorkflow_spec in Ew.
Qed.
End gate.

(** ** Access and cancellation *)
Section access.
#[local] Set Default Proof Using "Type*".
Context {S F A : Type} `{Store S} `{!StoreLaws S} `{ArtifactStore A} `{Ambient} `{MapOrder} `{EngineJSON}.
Implicit Types r : Runner S F A.

(** The tenant of the run is the caller's and in its scopes; a run without a tenant is open. *)
Definition mayAccess (ctx : Ctx) (run : Run) : Prop :=
  let resource := TrimSpace (r_TenantID run) in
  resource = "" \/
  effectiveTenantFromContext ctx = resource /\
  forall p, PrincipalFrom ctx = Some p -> p_TenantScopes p = [] \/ exists s, s ∈ p_TenantScopes p /\ globs s resource.

(** Nothing but audit records and drawn identifiers changes. *)
Definition audited r r' : Prop := kept r r' /\ rn_cancels r' = rn_cancels r.
Lemma putJSONKV_cancels {T} `{JSON T} k (v : T) r : rn_cancels (putJSONKV k v r).1 = rn_cancels r.
Proof. unfold putJSONKV, onStore. destruct (marshal v); [|done]. by destruct (PutKV _ _ _). Qed.
Lemma audited_audit ctx now rec r : audited r (appendAuditRecord ctx now rec r).
Proof.
  split; [apply kept_audit|]. unfold appendAuditRecord. destruct (decide (TrimSpace (au_ID rec) = "")); simpl.
  all: destruct (decide (TrimSpace (au_Action rec) = "")); [done|].
  all: match goal with |- context [putJSONKV ?k ?v ?x] => pose proof (putJSONKV_cancels k v x) as Hk;
         destruct (putJSONKV k v x) as [r1 [err|]] end; [exact Hk|].
  all: destruct (indexIDs _ r1); [|exact Hk]; by rewrite putJSONKV_cancels.
Qed.

Lemma ensureAccess_spec ctx now run action r :
  ((ensureRunTenantAccess ctx now run action r).2 = None <-> mayAccess ctx run) /\
  audited r (ensureRunTenantAccess ctx now run action r).1.
Proof.
  unfold ensureRunTenantAccess, mayAccess. set (res := TrimSpace (r_TenantID run)). set (caller := effectiveTenantFromContext ctx).
  destruct (decide (res = "")) as [|Hres]; [split; [tauto|done]|].
  destruct (decide (caller = "")) as [Hc|Hc]; [split; [|apply audited_audit]; split; [done|intros [?|[? _]]; congruence]|].
  destruct (decide (caller <> res)) as [Hn|Hn]; [split; [|apply audited_audit]; split; [done|intros [?|[? _]]; congruence]|].
  apply dec_stable in Hn. rewrite Hn.
  assert (forall scopes, existsb (matchPattern res) scopes = true <-> exists s, s ∈ scopes /\ globs s res) as Hex.
  { intros scopes. rewrite existsb_elem. by setoid_rewrite matchPattern_spec. }
  case_decide as Hd; (split; [|apply audited_audit]); cbn [snd].
  - split; [done|]. intros [?|[_ Hp]]; [done|]. destruct (PrincipalFrom ctx) as [p|]; [|by destruct Hd].
    destruct Hd as [Hd1 Hd2]. destruct (Hp p eq_refl) as [?|Hs%Hex]; congruence.
  - split; [|done]. intros _. right. split; [done|]. intros p Hp. rewrite Hp in Hd.
    destruct (decide (p_TenantScopes p = [])) as [|Hne]; [by left|right]. apply Hex.
    destruct (existsb _ _); [done|]. by destruct Hd.
Qed.

(** Access to a run is granted exactly when the run has no tenant, or its tenant is the
    caller's and matches a scope of a principal that has scopes; the check changes no run and
    no node execution. *)
Theorem ensureRunTenantAccess_exact ctx now run action r :
  ((ensureRunTenantAccess ctx now run action r).2 = None <-> mayAccess ctx run) /\
  obs_eq (rn_store r) (rn_store (ensureRunTenantAccess ctx now run action r).1).
Proof. destruct (ensureAccess_spec ctx now run action r) as [Ha [[Hk _] _]]. by split. Qed.

(** C40: Cancelling returns without an error only for a run the caller may access; a run that
    has ended stays as it is, any other is stored as cancelled and the context of its loop is
    closed.  No other run changes. *)
Theorem CancelRun_effect ctx now runID reason r r' run :
  GetRun (TrimSpace runID) (rn_store r) = Some run -> r_RunID run = TrimSpace runID ->
  CancelRun ctx now runID reason r = (r', None) ->
  mayAccess ctx run /\
  (if decide (r_Status run = RunStatusSucceeded \/ r_Status run = RunStatusFailed)
   then GetRun (TrimSpace runID) (rn_store r') = Some run
   else isCanceled (TrimSpace runID) r' = true /\
        forall c, rn_cancels r !! TrimSpace runID = Some c -> c ∈ rn_canceled r') /\
  forall id, id <> TrimSpace runID -> GetRun id (rn_store r') = GetRun id (rn_store r).
Proof.
  unfold CancelRun. intros Hrun Hid. destruct (decide (TrimSpace runID = "")); [done|]. rewrite Hrun.
  destruct (ensureAccess_spec ctx now run "run.cancel" r) as [Ha [[[Hg _] _] Hc]].
  destruct (ensureRunTenantAccess _ _ _ _ r) as [r1 [err|]]; [done|]. simpl in *. intros Hx.
  split; [by apply Ha|]. revert Hx.
  assert (forall r2 c, rn_cancels r2 = rn_cancels r -> rn_cancels r !! TrimSpace runID = Some c ->
    c ∈ rn_canceled (cancelRunContext (TrimSpace runID) r2)) as Hctx.
  { intros r2 c E Ec. unfold cancelRunContext. rewrite E, Ec. simpl. set_solver. }
  assert (forall r2, rn_store (cancelRunContext (TrimSpace runID) r2) = rn_store r2) as Hst.
  { intros r2. unfold cancelRunContext. by destruct (rn_cancels r2 !! TrimSpace runID). }
  case_decide as Hd; [intros [= <-]; split; [by rewrite Hg|auto]|]. case_decide as Hd2.
  - intros [= <-]. split; [split; [|by intros c; apply Hctx]|intros id _; by rewrite Hst].
    unfold isCanceled. rewrite Hst, Hg, Hrun. by apply bool_decide_eq_true.
  - set (run' := set_r_EndedAt _ _). destruct (onStore_store (UpdateRun run') r1) as (Es&_&Ee).
    unfold onStore in *. destruct (UpdateRun run' (rn_store r1)) as [s2 err] eqn:Eu. simpl in Es, Ee. destruct err; [done|].
    assert (forall id, GetRun id s2 = if decide (id = TrimSpace runID) then Some run' else GetRun id (rn_store r)) as Hget.
    { intros id. pose proof (law_run_runs run' (rn_store r1) id) as Hl. rewrite Eu in Hl. simpl in Hl. rewrite Hl, Hg.
      unfold run'. simpl. rewrite Hid. destruct (decide (id = TrimSpace runID)); [by rewrite decide_True|by rewrite decide_False by naive_solver]. }
    intros [= <-]. match goal with |- context [emit ?a ?b ?c ?d ?e ?f ?g ?h] =>
      destruct (kept_emit a b c d e f g h) as [[Hk _] Hcc] end. split; [split|].
    + unfold isCanceled. rewrite Hk, Hst. simpl. rewrite Hget, decide_True by done. by apply bool_decide_eq_true.
    + intros c Ec. rewrite Hcc. by apply Hctx.
    + intros id Hne. rewrite Hk, Hst. simpl. by rewrite Hget, decide_False.
Qed.
End access.
