(* ===== verification/KVSpec.v ===== *)
(** * Values in the store (lemmas on Runtime.v and Governance.v)

    [KVLaws] is what the engine needs of the key-value part of a store; both stores have it.
    Keys are trimmed by the stores: keys made of plain characters are left alone, and keys
    with different plain prefixes are different.  [outside p] is a step that touches only keys
    with the prefix [p]. *)
From S2P Require Import Prelude Storage Graph EngineStore FileStore Throttle Authz Risk Tools ToolsSpec Runtime Governance.
From S2P Require Import CallContext AgentState.
From Stdlib Require Import Ascii.

(** ** Plain text *)
Definition plainChar (a : ascii) : bool := (33 <=? nat_of_ascii a)%nat && (nat_of_ascii a <=? 126)%nat.
Definition plain (s : string) : Prop := Forall (fun a => plainChar a = true) (chars s).

Lemma spaces_not_plain p a : p ∈ spaceEncodings ++ map reverse spaceEncodings -> a ∈ p -> plainChar a = false.
Proof.
  assert (Forall (fun p => Forall (fun a => plainChar a = false) p) (spaceEncodings ++ map reverse spaceEncodings)) as Hall
    by (apply (bool_decide_eq_true_1 _); vm_compute; reflexivity).
  intros Hp Ha. rewrite Forall_forall in Hall. specialize (Hall p Hp). rewrite Forall_forall in Hall. by apply Hall.
Qed.
Lemma spaces_nonempty p : p ∈ spaceEncodings ++ map reverse spaceEncodings -> p <> [].
Proof.
  assert (Forall (fun p => p <> []) (spaceEncodings ++ map reverse spaceEncodings)) as Hall
    by (apply (bool_decide_eq_true_1 _); vm_compute; reflexivity).
  rewrite Forall_forall in Hall. apply Hall.
Qed.

(** Stripping stops at a plain character. *)
Lemma strip_plain ps n (l q : list ascii) a :
  (forall p, p ∈ ps -> p ∈ spaceEncodings ++ map reverse spaceEncodings) -> plainChar a = true ->
  exists l', strip_all n ps (l ++ a :: q) = l' ++ a :: q.
Proof.
  intros Hps Ha. revert l. induction n as [|n IH]; intros l; simpl; [by exists l|].
  destruct (first_strip ps (l ++ a :: q)) as [l1|] eqn:E; [|by exists l].
  apply first_strip_Some in E as (p&Hp&E). apply Hps in Hp.
  apply app_eq_app in E as (k&[[-> E]|[-> E]]).
  - rewrite E. apply IH.
  - destruct k as [|b k]; simpl in E; [rewrite <- E; apply (IH [])|]. injection E as <- ->.
    assert (plainChar a = false); [|congruence]. apply (spaces_not_plain _ _ Hp). apply elem_of_app. right. by left.
Qed.
Lemma chars_app s t : chars (s +:+ t) = chars s ++ chars t.
Proof. induction s as [|a s IH]; [done|]. change (a :: chars (s +:+ t) = a :: (chars s ++ chars t)). by rewrite IH. Qed.
Lemma unchars_app l k : unchars (l ++ k) = unchars l +:+ unchars k.
Proof. induction l as [|a l IH]; [done|]. simpl. by rewrite IH. Qed.
Lemma unchars_chars s : unchars (chars s) = s.
Proof. apply String.string_of_list_ascii_of_string. Qed.
Lemma chars_unchars l : chars (unchars l) = l.
Proof. apply String.list_ascii_of_string_of_list_ascii. Qed.

Lemma first_strip_plain ps a l :
  (forall p, p ∈ ps -> p ∈ spaceEncodings ++ map reverse spaceEncodings) -> plainChar a = true ->
  first_strip ps (a :: l) = None.
Proof.
  intros Hps Ha. apply first_strip_None. intros p l' Hp%Hps E. pose proof (spaces_nonempty _ Hp).
  destruct p as [|b p]; [done|]. injection E as <- _.
  assert (plainChar a = false) by (apply (spaces_not_plain _ _ Hp); by left). congruence.
Qed.

Definition encodings (ps : list (list ascii)) : Prop :=
  forall p, p ∈ ps -> p ∈ spaceEncodings ++ map reverse spaceEncodings.
Lemma encodings_l : encodings spaceEncodings.
Proof. intros p Hp. apply elem_of_app. by left. Qed.
Lemma encodings_r : encodings (map reverse spaceEncodings).
Proof. intros p Hp. apply elem_of_app. by right. Qed.

(** A plain prefix survives trimming. *)
Lemma TrimSpace_prefix p s : plain p -> p <> "" -> exists s', TrimSpace (p +:+ s) = p +:+ s'.
Proof.
  intros Hp Hne. unfold TrimSpace. rewrite chars_app.
  destruct (chars p) as [|a l] eqn:Ep; [destruct p; [done|discriminate Ep]|].
  unfold plain in Hp. rewrite Ep in Hp. apply Forall_cons_1 in Hp as [Ha Hl].
  rewrite (trim_left_fixed spaceEncodings);
    [|apply first_strip_plain; [apply encodings_l|done]].
  destruct (exists_last (l:=a :: l)) as (l0&b&E0); [done|].
  assert (plainChar b = true) as Hb.
  { assert (Forall (fun a => plainChar a = true) (l0 ++ [b])) as Hall by (rewrite <- E0; by constructor).
    apply Forall_app in Hall as [_ Hb]. by apply Forall_inv in Hb. }
  rewrite E0. assert (reverse ((l0 ++ [b]) ++ chars s) = reverse (chars s) ++ b :: reverse l0) as ->
    by by rewrite !reverse_app.
  unfold trim_left. generalize (length (reverse (chars s) ++ b :: reverse l0)). intros n.
  destruct (strip_plain (map reverse spaceEncodings) n (reverse (chars s)) (reverse l0) b) as [l' ->];
    [apply encodings_r|done|].
  exists (unchars (reverse l')). rewrite reverse_app. change (b :: reverse l0) with ([b] ++ reverse l0).
  rewrite reverse_app, reverse_involutive. change (reverse [b]) with [b]. rewrite <- E0, unchars_app, <- Ep.
  by rewrite unchars_chars.
Qed.
Lemma TrimSpace_plain s : plain s -> TrimSpace s = s.
Proof.
  intros Hs. unfold TrimSpace. destruct (chars s) as [|a l] eqn:E; [by destruct s|].
  unfold plain in Hs. rewrite E in Hs. pose proof (Forall_inv Hs) as Ha.
  rewrite (trim_left_fixed spaceEncodings);
    [|apply first_strip_plain; [apply encodings_l|done]].
  assert (Forall (fun a => plainChar a = true) (reverse (a :: l))) as Hr by by apply Forall_reverse.
  rewrite trim_left_fixed, reverse_involutive, <- E; [apply unchars_chars|].
  destruct (reverse (a :: l)) as [|b k]; [apply first_strip_None; intros p l' Hp%encodings_r Hl;
    by destruct (spaces_nonempty p Hp), p|].
  apply first_strip_plain; [apply encodings_r|by apply Forall_inv in Hr].
Qed.
(** Between plain ends everything survives trimming. *)
Lemma trimmed_right s : first_strip (map reverse spaceEncodings) (reverse (chars (TrimSpace s))) = None.
Proof.
  unfold TrimSpace. rewrite chars_unchars, reverse_involutive. apply strip_all_done; [|done].
  apply Forall_forall. intros p Hp. by apply spaces_nonempty, encodings_r.
Qed.
Lemma TrimSpace_fixed s :
  first_strip spaceEncodings (chars s) = None -> first_strip (map reverse spaceEncodings) (reverse (chars s)) = None ->
  TrimSpace s = s.
Proof.
  intros H1 H2. unfold TrimSpace. rewrite (trim_left_fixed _ _ H1), (trim_left_fixed _ _ H2), reverse_involutive.
  apply unchars_chars.
Qed.
Lemma plain_head p s : plain p -> p <> "" -> first_strip spaceEncodings (chars (p +:+ s)) = None.
Proof.
  intros Hp Hne. rewrite chars_app. destruct p as [|a p]; [done|].
  apply first_strip_plain; [apply encodings_l|by apply Forall_inv in Hp].
Qed.
Lemma plain_last q : plain q -> q <> "" -> exists a l, reverse (chars q) = a :: l /\ plainChar a = true.
Proof.
  intros Hq Hne. apply Forall_reverse in Hq. destruct (reverse (chars q)) as [|a l] eqn:E.
  - apply (f_equal reverse) in E. rewrite reverse_involutive in E. by destruct q.
  - exists a, l. split; [done|by apply Forall_inv in Hq].
Qed.
Lemma TrimSpace_wrap p s q : plain p -> p <> "" -> plain q -> q <> "" -> TrimSpace (p +:+ s +:+ q) = p +:+ s +:+ q.
Proof.
  intros Hp Hpn Hq Hqn. apply TrimSpace_fixed; [by apply plain_head|].
  destruct (plain_last q Hq Hqn) as (a&l&E&Ha). rewrite !chars_app, !reverse_app, E.
  apply first_strip_plain; [apply encodings_r|done].
Qed.
Lemma TrimSpace_under p s : plain p -> p <> "" -> TrimSpace (p +:+ TrimSpace s) = p +:+ TrimSpace s.
Proof.
  intros Hp Hpn. apply TrimSpace_fixed; [by apply plain_head|].
  destruct (plain_last p Hp Hpn) as (a&l&E&Ha). rewrite chars_app, reverse_app, E.
  apply first_strip_None. intros q l' Hq Heq. pose proof (trimmed_right s) as Hn. rewrite first_strip_None in Hn.
  apply app_eq_app in Heq as (k&[[Hk _]|[Hk Hl]]); [by apply (Hn q k Hq)|].
  destruct k as [|b k]; [rewrite app_nil_r in Hk; apply (Hn q [] Hq); by rewrite app_nil_r|].
  injection Hl as <- _. assert (plainChar a = false); [|congruence].
  apply (spaces_not_plain q); [by apply encodings_r|]. rewrite Hk. apply elem_of_app. right. by left.
Qed.
Lemma TrimSuffix_app k s : TrimSuffix (k +:+ s) s = k.
Proof.
  unfold TrimSuffix, HasSuffix. rewrite bool_decide_eq_true_2 by (rewrite chars_app; by exists (chars k)).
  by rewrite chars_app, length_app, Nat.add_sub, take_app_length, unchars_chars.
Qed.
Lemma plain_app s t : plain (s +:+ t) <-> plain s /\ plain t.
Proof. unfold plain. rewrite chars_app. apply Forall_app. Qed.

(** Escaped text is plain. *)
Lemma escapeChar_plain a : Forall (fun a => plainChar a = true) (escapeChar a).
Proof. destruct a as [[] [] [] [] [] [] [] []]; apply (bool_decide_eq_true_1 _); vm_compute; reflexivity. Qed.
Lemma PathEscape_plain s : plain (PathEscape s).
Proof.
  unfold plain, PathEscape. rewrite chars_unchars. induction (chars s) as [|a l IH]; [constructor|].
  change (mjoin (escapeChar <$> a :: l)) with (escapeChar a ++ mjoin (escapeChar <$> l)).
  apply Forall_app. split; [apply escapeChar_plain|done].
Qed.

(** Escaping can be undone. *)
Definition hexValue (a : ascii) : nat :=
  let n := nat_of_ascii a in if (n <? 65)%nat then (n - 48)%nat else (n - 55)%nat.
Fixpoint unescape (l : list ascii) : list ascii :=
  match l with
  | [] => []
  | a :: l =>
    if Ascii.eqb a "%"%char
    then match l with b :: c :: l => ascii_of_nat (16 * hexValue b + hexValue c) :: unescape l | _ => [] end
    else a :: unescape l
  end.
Lemma unescape_char a l : unescape (escapeChar a ++ l) = a :: unescape l.
Proof. destruct a as [[] [] [] [] [] [] [] []]; reflexivity. Qed.
#[export] Instance PathEscape_inj : Inj (=) (=) PathEscape.
Proof.
  assert (forall s, unescape (chars (PathEscape s)) = chars s) as Hu.
  { intros s. unfold PathEscape. rewrite chars_unchars. induction (chars s) as [|a l IH]; [done|].
    change (mjoin (escapeChar <$> a :: l)) with (escapeChar a ++ mjoin (escapeChar <$> l)).
    by rewrite unescape_char, IH. }
  intros s t E. apply (f_equal chars), (f_equal unescape) in E. rewrite !Hu in E.
  by rewrite <- (unchars_chars s), E, unchars_chars.
Qed.

(** ** Normalised lists *)
Lemma dedupTrim_elem l seen id : id ∈ dedupTrim l seen <-> id <> "" /\ id ∉ seen /\ exists s, s ∈ l /\ id = TrimSpace s.
Proof.
  revert seen. induction l as [|s l IH]; intros seen; simpl.
  - split; [by intros ?%elem_of_nil|by intros (_&_&s&?%elem_of_nil&_)].
  - case_decide as He; [rewrite IH; setoid_rewrite elem_of_cons; naive_solver|].
    case_decide as Hd; [rewrite IH; setoid_rewrite elem_of_cons; naive_solver|].
    rewrite elem_of_cons, IH. setoid_rewrite elem_of_cons. split.
    + intros [->|(?&?&s'&?&->)]; [split; [tauto|]; split; [tauto|eauto]|]. split; [done|]. split; [set_solver|eauto].
    + intros (?&?&s'&[->|?]&->); [by left|]. destruct (decide (TrimSpace s' = TrimSpace s)); [by left|right].
      split; [done|]. split; [set_solver|eauto].
Qed.
Lemma normalizeStrings_elem l id : id ∈ normalizeStrings l <-> id <> "" /\ exists s, s ∈ l /\ id = TrimSpace s.
Proof.
  unfold normalizeStrings, sortStrings. rewrite merge_sort_Permutation, dedupTrim_elem. set_solver.
Qed.

(** ** Stores *)
Class KVLaws (S : Type) `{Store S} : Prop := {
  kv_other k v s k' : TrimSpace k' <> TrimSpace k -> GetKV k' (PutKV k v s).1 = GetKV k' s;
  kv_put k v s k' : (PutKV k v s).2 = None -> TrimSpace k' = TrimSpace k -> GetKV k' (PutKV k v s).1 = Some v;
  (** A refused write may have changed its key. *)
  kv_refused k v s : GetKV k (PutKV k v s).1 = GetKV k s \/ GetKV k (PutKV k v s).1 = Some v;
  kv_run run s k : GetKV k (UpdateRun run s).1 = GetKV k s;
  kv_create run s k : GetKV k (CreateRun run s).1 = GetKV k s;
  kv_node ne s k : GetKV k (UpsertNodeExecution ne s).1 = GetKV k s;
  kv_event now e s k : GetKV k (AppendEvent now e s).1 = GetKV k s;
  kv_timer t s k : GetKV k (UpsertTimer t s).1 = GetKV k s
}.
Lemma getKV_putRun run s k : getKV k (putRun run s) = getKV k s.
Proof. unfold putRun. by destruct (nextSeq _ !! _). Qed.
#[export] Instance MemoryStore_kv `{MapOrder} : KVLaws MemoryStore.
Proof.
  split; cbn [AppendEvent UpsertTimer PutKV GetKV CreateRun UpdateRun UpsertNodeExecution MemoryStore_Store].
  - intros k v s k' Hne. unfold MemoryStore_PutKV, getKV. destruct (decide (TrimSpace k = "")); [done|]. simpl.
    by rewrite lookup_insert_ne.
  - intros k v s k'. unfold MemoryStore_PutKV, getKV. destruct (decide (TrimSpace k = "")); [done|]. simpl.
    intros _ ->. by rewrite decide_False, lookup_insert_eq.
  - intros k v s. unfold MemoryStore_PutKV, getKV. destruct (decide (TrimSpace k = "")); [by left|]. simpl.
    rewrite lookup_insert_eq. by right.
  - intros run s k. unfold MemoryStore_UpdateRun. destruct (validateRun run); [done|]. by case_decide.
  - intros run s k. unfold MemoryStore_CreateRun. destruct (validateRun run); [done|]. destruct (decide (is_Some _)); [done|apply getKV_putRun].
  - intros ne s k. unfold MemoryStore_UpsertNodeExecution. destruct (validateNodeExecution ne); [done|]. by case_decide.
  - intros now e s k. unfold MemoryStore_AppendEvent. destruct (decide _); [done|]. by destruct (validateEvent _).
  - intros t s k. unfold MemoryStore_UpsertTimer. by case_decide.
Qed.
#[export] Instance FileStore_kv `{EngineCodec} `{MapOrder} : KVLaws FileStore.
Proof.
  split; cbn [AppendEvent UpsertTimer PutKV GetKV CreateRun UpdateRun UpsertNodeExecution FileStore_Store].
  - intros k v s k' Hne. unfold FileStore_PutKV, getKV. destruct (decide (TrimSpace k = "")); [done|].
    destruct (engineWAL_Append _ _ _) as [w err]. simpl. by rewrite lookup_insert_ne.
  - intros k v s k'. unfold FileStore_PutKV, getKV. destruct (decide (TrimSpace k = "")); [done|].
    destruct (engineWAL_Append _ _ _) as [w err]. simpl. intros _ ->. by rewrite decide_False, lookup_insert_eq.
  - intros k v s. unfold FileStore_PutKV, getKV. destruct (decide (TrimSpace k = "")) as [|Hk]; [by left|].
    destruct (engineWAL_Append _ _ _) as [w err]. simpl. rewrite lookup_insert_eq. by right.
  - intros run s k. unfold FileStore_UpdateRun, logThen. destruct (validateRun run); [done|]. case_decide; [done|].
    by destruct (engineWAL_Append _ _ _) as [w []].
  - intros run s k. unfold FileStore_CreateRun, logThen. destruct (validateRun run); [done|]. destruct (decide (is_Some _)); [done|].
    destruct (engineWAL_Append _ _ _) as [w []]; [done|apply getKV_putRun].
  - intros ne s k. unfold FileStore_UpsertNodeExecution, logThen. destruct (validateNodeExecution ne); [done|].
    case_decide; [done|]. by destruct (engineWAL_Append _ _ _) as [w []].
  - intros now e s k. unfold FileStore_AppendEvent. destruct (decide _); [done|]. destruct (validateEvent _); [done|].
    by destruct (engineWAL_Append _ _ _) as [w []].
  - intros t s k. unfold FileStore_UpsertTimer, logThen. destruct (timerInvalid t); [done|]. case_decide; [done|].
    by destruct (engineWAL_Append _ _ _) as [w []].
Qed.

(** ** The runner's values *)
(** The keys that start with a plain prefix, after trimming. *)
Definition under (p k : string) : Prop := exists s, TrimSpace k = p +:+ s.
Lemma under_app p s : plain p -> p <> "" -> under p (p +:+ s).
Proof. apply TrimSpace_prefix. Qed.
Lemma append_assoc s t u : (s +:+ t) +:+ u = s +:+ (t +:+ u).
Proof. rewrite <- (unchars_chars ((s +:+ t) +:+ u)), !chars_app, <- app_assoc, !unchars_app, !unchars_chars. done. Qed.
Ltac plain := apply (bool_decide_eq_true_1 _); vm_compute; reflexivity.
(** Keys under different prefixes. *)
Ltac apart := let s := fresh in let t := fresh in let E := fresh in let E' := fresh in
  intros [s E] [t E']; rewrite E in E'; discriminate E'.

Section values.
#[local] Set Default Proof Using "Type*".
Context {S F A : Type} `{Store S} `{!KVLaws S} `{Ambient} `{MapOrder}.
Implicit Types r : Runner S F A.
Definition kvOf r (k : string) : option string := GetKV k (rn_store r).
(** A step that changes no value outside of a prefix. *)
Definition outside (p : string) r r' : Prop := forall k, ~ under p k -> kvOf r' k = kvOf r k.
Lemma outside_refl p r : outside p r r.
Proof. done. Qed.
Lemma outside_trans p r1 r2 r3 : outside p r1 r2 -> outside p r2 r3 -> outside p r1 r3.
Proof. intros H1' H2' k Hk. by rewrite H2', H1'. Qed.

Lemma onStore_kv {X} (op : S -> S * X) r k : kvOf (onStore op r).1 k = GetKV k (op (rn_store r)).1.
Proof. unfold kvOf, onStore. by destruct (op (rn_store r)). Qed.
Lemma putJSONKV_other `{JSON T} k (v : T) r k' :
  TrimSpace k' <> TrimSpace k -> kvOf (putJSONKV k v r).1 k' = kvOf r k'.
Proof. intros Hne. unfold putJSONKV. destruct (marshal v); [|done]. rewrite onStore_kv. by apply kv_other. Qed.
Lemma putJSONKV_same `{JSON T} k (v : T) r r' k' :
  putJSONKV k v r = (r', None) -> TrimSpace k' = TrimSpace k ->
  exists b, marshal v = inl b /\ kvOf r' k' = Some (toString b).
Proof.
  unfold putJSONKV. destruct (marshal v) as [b|]; [|done]. intros E Hk. exists b. split; [done|].
  assert (r' = (onStore (PutKV k (toString b)) r).1) as -> by by rewrite E. rewrite onStore_kv.
  apply kv_put; [|done]. apply (f_equal snd) in E. unfold onStore in E. by destruct (PutKV _ _ _).
Qed.
Lemma putJSONKV_outside `{JSON T} p k (v : T) r : under p k -> outside p r (putJSONKV k v r).1.
Proof. intros [s Hs] k' Hk'. apply putJSONKV_other. intros E. apply Hk'. exists s. by rewrite E. Qed.
Lemma getJSONKV_kv `{JSON T} k r r' : kvOf r' k = kvOf r k -> getJSONKV (T := T) k r' = getJSONKV k r.
Proof. unfold kvOf, getJSONKV. by intros ->. Qed.
Lemma getJSONKV_put `{JSON T} k b r :
  kvOf r k = Some (toString b) -> getJSONKV (T := T) k r = Some (unmarshal b).
Proof. unfold kvOf, getJSONKV, fromString, toString. intros ->. simpl. by rewrite String.list_byte_of_string_of_list_byte. Qed.

Lemma upsertIndexID_outside `{JSON (list string)} p key id r : under p key -> outside p r (upsertIndexID key id r).1.
Proof.
  intros Hk. unfold upsertIndexID. destruct (indexIDs key r); [|done]. repeat (case_decide; [done|]). by apply putJSONKV_outside.
Qed.
Lemma under_weaken p q k : under (p +:+ q) k -> under p k.
Proof. intros [s Hs]. exists (q +:+ s). by rewrite Hs, append_assoc. Qed.

Lemma emit_kv now runID ty wf n a p r k : kvOf (emit now runID ty wf n a p r) k = kvOf r k.
Proof. unfold emit, try. rewrite onStore_kv. apply kv_event. Qed.

Lemma audit_outside `{JSON (list string)} `{JSON AuditRecord} ctx now rec r :
  outside "audit/" r (appendAuditRecord ctx now rec r).
Proof.
  assert (plain "audit/") as Hp by plain.
  unfold appendAuditRecord. destruct (decide (TrimSpace (au_ID rec) = "")); simpl.
  all: destruct (decide (TrimSpace (au_Action rec) = "")); [done|].
  all: match goal with |- context [putJSONKV (auditRecordKey ?i) ?v ?x] =>
         pose proof (putJSONKV_outside "audit/" (auditRecordKey i) v x) as Hk;
         destruct (putJSONKV (auditRecordKey i) v x) as [r1 [err|]] end;
       specialize (Hk ltac:(unfold auditRecordKey; change "audit/records/" with ("audit/" +:+ "records/");
                            rewrite append_assoc; by apply under_app)); [exact Hk|].
  all: destruct (indexIDs _ r1); [|exact Hk]; eapply outside_trans; [exact Hk|apply putJSONKV_outside].
  all: change auditIndexKey with ("audit/" +:+ "index"); by apply under_app.
Qed.
Lemma access_outside `{JSON (list string)} `{JSON AuditRecord} ctx now run action r :
  outside "audit/" r (ensureRunTenantAccess ctx now run action r).1.
Proof.
  unfold ensureRunTenantAccess. repeat (case_decide; [try apply outside_refl; try apply audit_outside|]).
  apply audit_outside.
Qed.
Lemma agentAccess_outside `{JSON (list string)} `{JSON AuditRecord} ctx now t a action r :
  outside "audit/" r (ensureAgentStateAccess ctx now t a action r).1.
Proof. unfold ensureAgentStateAccess. repeat (case_decide; [apply audit_outside|]). apply audit_outside. Qed.
End values.

(** ** Indexes of identifiers *)
Lemma sortStrings_in l x : x ∈ sortStrings l <-> x ∈ l.
Proof. unfold sortStrings. by rewrite merge_sort_Permutation. Qed.
Lemma normalizeStrings_NoDup l : NoDup (normalizeStrings l).
Proof.
  unfold normalizeStrings, sortStrings. rewrite merge_sort_Permutation. generalize (∅ : gset string).
  induction l as [|s l IH]; intros seen; simpl; [constructor|]. repeat (case_decide; [apply IH|]).
  constructor; [|apply IH]. rewrite dedupTrim_elem. set_solver.
Qed.
(** Lists of identifiers in valid UTF-8, as decoding gives them, are read back as written. *)
Class IndexLaws `{JSON (list string)} : Type := {
  idText : string -> Prop;
  idText_trim s : idText s -> idText (TrimSpace s);
  ids_text (l : list string) b : unmarshal b = inl l -> Forall idText l;
  ids_round (l : list string) b : Forall idText l -> marshal l = inl b -> unmarshal b = inl l /\ TrimSpace (toString b) <> ""
}.
Section indexes.
#[local] Set Default Proof Using "Type*".
Context {S F A : Type} `{Store S} `{!KVLaws S} `{JSON (list string)} `{!IndexLaws}.
Implicit Types r : Runner S F A.
Lemma normalizeStrings_text l : Forall idText l -> Forall idText (normalizeStrings l).
Proof.
  rewrite !Forall_forall. intros Hl x (_&s&Hs&->)%normalizeStrings_elem. by apply idText_trim, Hl.
Qed.
Lemma indexIDs_text key r ids : indexIDs key r = inl ids -> Forall idText ids.
Proof.
  unfold indexIDs. destruct (GetKV key _) as [raw|]; [|by intros [= <-]]. case_decide; [by intros [= <-]|].
  destruct (unmarshal (fromString raw)) as [l|] eqn:Eu; [|done]. intros [= <-].
  by eapply normalizeStrings_text, ids_text.
Qed.
Lemma indexIDs_normal key r ids : indexIDs key r = inl ids -> NoDup ids /\ forall id, id ∈ ids -> id <> "" /\ TrimSpace id = id.
Proof.
  unfold indexIDs. destruct (GetKV key _) as [raw|]; [case_decide; [|destruct (unmarshal _) as [l|]; [|done]]|]; intros [= <-].
  2: split; [apply normalizeStrings_NoDup|]; intros id (Hn&s&_&->)%normalizeStrings_elem; by rewrite TrimSpace_idem.
  all: split; [constructor|]; by intros id ?%elem_of_nil.
Qed.
Lemma indexIDs_written key l b r :
  Forall idText l -> marshal l = inl b -> kvOf r key = Some (toString b) -> indexIDs key r = inl (normalizeStrings l).
Proof.
  intros Hl Hb Hk. destruct (ids_round _ _ Hl Hb) as [Hu Hn]. unfold indexIDs. fold (kvOf r key). rewrite Hk, decide_False by done.
  assert (fromString (toString b) = b) as -> by apply String.list_byte_of_string_of_list_byte. by rewrite Hu.
Qed.
Lemma indexIDs_kv key r r' : kvOf r' key = kvOf r key -> indexIDs key r' = indexIDs key r.
Proof. unfold kvOf, indexIDs. by intros ->. Qed.
Lemma upsertIndexID_elem key id r r' : idText id -> upsertIndexID key id r = (r', None) ->
  exists ids, indexIDs key r' = inl ids /\ TrimSpace id ∈ ids.
Proof.
  intros Ht. unfold upsertIndexID. destruct (indexIDs key r) as [ids|] eqn:Ei; [|done]. case_decide as Hne; [done|].
  case_decide as Hin; [intros [= <-]; by exists ids|]. intros E. destruct (putJSONKV_same _ _ _ _ key E eq_refl) as (b&Hb&Hk).
  assert (Forall idText (sortStrings (ids ++ [TrimSpace id]))) as Hall.
  { apply indexIDs_text in Ei. rewrite Forall_forall in Ei. apply Forall_forall. intros x.
    rewrite sortStrings_in, elem_of_app, list_elem_of_singleton. intros [Hx| ->]; [by apply Ei|by apply idText_trim]. }
  eexists. split; [by eapply indexIDs_written|]. apply normalizeStrings_elem. split; [done|].
  exists (TrimSpace id). split; [|by rewrite TrimSpace_idem]. apply sortStrings_in, elem_of_app. right. by apply list_elem_of_singleton.
Qed.
End indexes.

(** ** Steps that change the store and the drawn identifiers only *)
Section storeOnly.
#[local] Set Default Proof Using "Type*".
Context {S F A : Type} `{Store S} `{Ambient} `{MapOrder}.
Implicit Types r : Runner S F A.
Definition storeOnly r r' : Prop := r' = set_rn_ids (rn_ids r') (set_rn_store (rn_store r') r).
Lemma storeOnly_refl r : storeOnly r r.
Proof. by destruct r. Qed.
Lemma storeOnly_trans r1 r2 r3 : storeOnly r1 r2 -> storeOnly r2 r3 -> storeOnly r1 r3.
Proof. unfold storeOnly. intros E2 E3. rewrite E3. rewrite E2. done. Qed.
Lemma storeOnly_onStore {X} (op : S -> S * X) r : storeOnly r (onStore op r).1.
Proof. unfold onStore. destruct (op (rn_store r)). by destruct r. Qed.
Lemma storeOnly_put `{JSON T} k (v : T) r : storeOnly r (putJSONKV k v r).1.
Proof. unfold putJSONKV. destruct (marshal v); [apply storeOnly_onStore|apply storeOnly_refl]. Qed.
Lemma storeOnly_emit now runID ty wf n a p r : storeOnly r (emit now runID ty wf n a p r).
Proof. apply storeOnly_onStore. Qed.
Lemma storeOnly_id r : storeOnly r (NewTraceID r).2.
Proof. by destruct r. Qed.

Context `{JSON (list string)} `{JSON AuditRecord}.
(** Saving a value under a drawn identifier and indexing it. *)
Lemma storeOnly_audit ctx now rec r : storeOnly r (appendAuditRecord ctx now rec r).
Proof.
  unfold appendAuditRecord.
  destruct (decide (TrimSpace (au_ID rec) = "")); [pose proof (storeOnly_id r) as Hid; destruct (NewTraceID r) as [t r0]|];
    simpl in *; (case_decide; [by try apply storeOnly_refl|]).
  all: match goal with |- context [putJSONKV ?k ?v ?x] => pose proof (storeOnly_put k v x) as Hk;
         destruct (putJSONKV k v x) as [r1 [err|]]; simpl in Hk end;
       try (destruct (indexIDs _ r1)); eauto using storeOnly_trans, storeOnly_put.
Qed.
Lemma storeOnly_access ctx now run action r : storeOnly r (ensureRunTenantAccess ctx now run action r).1.
Proof.
  unfold ensureRunTenantAccess. repeat (case_decide; [try apply storeOnly_refl; try apply storeOnly_audit|]).
  apply storeOnly_audit.
Qed.
End storeOnly.

(** ** Keys made of escaped names and padded numbers (lemmas on AgentState.v and Tools.v) *)
(** An escaped name holds no slash, so the parts of a key can be told apart; padding with
    zeros keeps numbers apart. *)
(** ** Parts between slashes *)
Definition slashFree (s : string) : Prop := Forall (fun a => a <> "/"%char) (chars s).
Lemma PathEscape_slashFree s : slashFree (PathEscape s).
Proof.
  unfold slashFree, PathEscape. rewrite chars_unchars. induction (chars s) as [|a l IH]; [constructor|].
  change (mjoin (escapeChar <$> a :: l)) with (escapeChar a ++ mjoin (escapeChar <$> l)).
  apply Forall_app. split; [|done].
  destruct a as [[] [] [] [] [] [] [] []]; apply (bool_decide_eq_true_1 _); vm_compute; reflexivity.
Qed.
Lemma chars_inj s t : chars s = chars t -> s = t.
Proof. intros E. by rewrite <- (unchars_chars s), E, unchars_chars. Qed.
Lemma slash_inj a b a' b' : slashFree a -> slashFree a' -> a +:+ "/" +:+ b = a' +:+ "/" +:+ b' -> a = a' /\ b = b'.
Proof.
  unfold slashFree. intros Ha Ha' E. apply (f_equal chars) in E. rewrite !chars_app in E.
  assert (chars a = chars a' /\ chars b = chars b') as [E1 E2]; [|split; by apply chars_inj].
  revert Ha Ha' E. generalize (chars a), (chars a'). intros l. induction l as [|c l IH]; intros l' Hl Hl' E.
  - destruct l' as [|c' l']; [by injection E|]. injection E as <- _. by apply Forall_inv in Hl'.
  - destruct l' as [|c' l']; [injection E as -> _; by apply Forall_inv in Hl|].
    injection E as <- E. apply Forall_cons_1 in Hl as [_ Hl]. apply Forall_cons_1 in Hl' as [_ Hl'].
    destruct (IH l' Hl Hl' E) as [-> ->]. done.
Qed.
Lemma app_inj_l p s t : p +:+ s = p +:+ t -> s = t.
Proof. induction p as [|a p IH]; [done|]. intros [= E]. by apply IH. Qed.

(** *** Decimal numbers *)
Definition digit (a : ascii) : Z := Z.of_nat (nat_of_ascii a) - 48.
Definition decimalValue (l : list ascii) : Z := foldl (fun n a => 10 * n + digit a) 0 l.
Lemma decimalValue_fold l n : foldl (fun n a => 10 * n + digit a) n l = 10 ^ zlen l * n + decimalValue l.
Proof.
  revert n. unfold decimalValue. induction l as [|a l IH]; intros n; simpl; [rewrite Z.pow_0_r; lia|].
  rewrite IH, (IH (10 * 0 + digit a)). unfold zlen. simpl length. rewrite Nat2Z.inj_succ, Z.pow_succ_r by lia. lia.
Qed.
Lemma decimalValue_app l k : decimalValue (l ++ k) = 10 ^ zlen k * decimalValue l + decimalValue k.
Proof. unfold decimalValue at 1. rewrite foldl_app. apply decimalValue_fold. Qed.
Lemma decimalValue_zeros n : decimalValue (replicate n "0"%char) = 0.
Proof. induction n as [|n IH]; [done|exact IH]. Qed.
Lemma digit_char n : 0 <= Z.of_N n < 10 -> digit (pretty_N_char n) = Z.of_N n /\ plainChar (pretty_N_char n) = true.
Proof.
  intros Hn. destruct n as [|p]; [split; vm_compute; reflexivity|].
  do 4 (destruct p as [p|p|]; try (split; vm_compute; reflexivity)); lia.
Qed.
Lemma pretty_N_go_value x s :
  decimalValue (chars (pretty_N_go x s)) = Z.of_N x * 10 ^ zlen (chars s) + decimalValue (chars s) /\
  (plain s -> plain (pretty_N_go x s)).
Proof.
  revert s. induction (N.lt_wf_0 x) as [x _ IH]. intros s. destruct (decide (x = 0)%N) as [->|Hx]; [by rewrite pretty_N_go_0|].
  rewrite pretty_N_go_step by lia.
  assert (0 <= Z.of_N (x `mod` 10)%N < 10) as Hm by (rewrite N2Z.inj_mod; apply Z.mod_pos_bound; done).
  assert (Z.of_N x = 10 * Z.of_N (x `div` 10)%N + Z.of_N (x `mod` 10)%N) as Hd
    by (rewrite N2Z.inj_mod, N2Z.inj_div; apply Z.div_mod; done).
  destruct (IH (x `div` 10)%N ltac:(apply N.div_lt; [by apply N.neq_0_lt_0|done]) (String (pretty_N_char (x `mod` 10)) s)) as [-> Hp].
  destruct (digit_char (x `mod` 10)%N) as [Hdig Hpl]; [exact Hm|]. split.
  - change (chars (String (pretty_N_char (x `mod` 10)) s)) with ([pretty_N_char (x `mod` 10)] ++ chars s).
    rewrite decimalValue_app. unfold zlen. simpl length. rewrite Nat2Z.inj_succ, Z.pow_succ_r by lia.
    unfold decimalValue at 1. simpl. rewrite Hdig. nia.
  - intros Hs. apply Hp. by constructor.
Qed.
Lemma pretty_value n : 0 <= n -> decimalValue (chars (pretty n)) = n /\ plain (pretty n) /\ pretty n <> "".
Proof.
  intros Hn. destruct n as [|p|p]; [split; [done|split; [plain|done]]| |lia].
  change (pretty (Z.pos p)) with (if decide (N.pos p = 0)%N then "0" else pretty_N_go (N.pos p) "").
  destruct (pretty_N_go_value (N.pos p) "") as [Hv Hp]. rewrite decide_False by done.
  change (zlen (chars "")) with 0 in Hv. change (decimalValue (chars "")) with 0 in Hv.
  rewrite Z.pow_0_r, Z.mul_1_r, Z.add_0_r in Hv. split; [exact Hv|]. split; [apply Hp; constructor|].
  intros E. rewrite E in Hv. change (0 = Z.pos p) in Hv. discriminate Hv.
Qed.
Lemma padded_value w n : 0 <= n -> decimalValue (chars (padded w n)) = n.
Proof.
  intros Hn. unfold padded. destruct (Z.ltb_spec n 0); [lia|].
  rewrite chars_app, decimalValue_app. unfold zeros. rewrite chars_unchars, decimalValue_zeros.
  destruct (pretty_value n Hn) as [-> _]. lia.
Qed.
Lemma padded_plain w n : 0 <= n -> plain (padded w n) /\ padded w n <> "".
Proof.
  intros Hn. destruct (pretty_value n Hn) as (_&Hp&Hne). unfold padded. destruct (Z.ltb_spec n 0); [lia|]. split.
  - apply plain_app. split; [|done]. unfold plain, zeros. rewrite chars_unchars. by apply Forall_replicate.
  - intros E. apply Hne. destruct (zeros _); [exact E|discriminate E].
Qed.
Lemma padded_inj w n m : 0 <= n -> 0 <= m -> padded w n = padded w m -> n = m.
Proof. intros Hn Hm E. by rewrite <- (padded_value w n), E, padded_value. Qed.
