(* ===== verification/ArtifactSpec.v ===== *)
(** * Artifacts: what the stores keep (lemmas on Artifacts.v)

    The effect of every operation of the local store on the files, whatever the operating
    system answers; from it, that a blob always is what its name says, that a stored artifact
    is read back, and that pruning removes the old artifacts and nothing else.  Then what the
    runner hands out of either store. *)
From S2P Require Import Prelude Storage Graph EngineStore Throttle Authz Risk Tools Runtime Governance Artifacts Human Admission DagRun.
From S2P Require Import DagInv DagStore AdmissionSpec KVSpec.
From Stdlib Require Import Init.Byte Strings.Ascii.

(** ** The files a system call leaves *)
Abbreviation files := dk_files.
Definition isTemp (p : path) : bool := HasPrefix p.2 ".tmp-".

Lemma files_next d : files (nextAnswer d).2 = files d.
Proof. unfold nextAnswer. by destruct (dk_answers d). Qed.
Lemma files_syscall {T} (work : Disk -> Disk * (T + error)) d d' res :
  syscall work d = (d', res) ->
  (exists err, files d' = files d /\ res = inr err) \/
  exists d0, files d0 = files d /\ work d0 = (d', res).
Proof.
  unfold syscall. pose proof (files_next d) as Hn. destruct (nextAnswer d) as [a d1]. cbn in Hn.
  destruct (an_err a) as [err|]; [intros [= <- <-]; left; eauto|]. intros E. right. eauto.
Qed.
(** Calls that leave the files alone. *)
Lemma files_reader {T} (work : Disk -> Disk * (T + error)) d d' res :
  (forall d0, files (work d0).1 = files d0) -> syscall work d = (d', res) -> files d' = files d.
Proof.
  intros Hw E. apply files_syscall in E as [(err&?&_)|(d0&?&E)]; [done|]. specialize (Hw d0). rewrite E in Hw. cbn in Hw. congruence.
Qed.
Lemma files_MkdirAll a x d d' res : MkdirAll a x d = (d', res) -> files d' = files d.
Proof. by apply files_reader. Qed.
Lemma files_succeeds d d' res : syscall succeeds d = (d', res) -> files d' = files d.
Proof. by apply files_reader. Qed.
Lemma files_Stat p d d' res : Stat p d = (d', res) -> files d' = files d /\ (res = inl () -> is_Some (files d !! p)).
Proof.
  intros E. split; [by eapply files_reader in E|]. intros ->.
  apply files_syscall in E as [(err&?&?)|(d0&Hd&E)]; [done|]. rewrite <- Hd. destruct (files d0 !! p); [by eexists|done].
Qed.
Lemma files_ReadFile p d d' res : ReadFile p d = (d', res) -> files d' = files d /\ (forall b, res = inl b -> files d !! p = Some b).
Proof.
  intros E. split; [by eapply files_reader in E|]. intros b ->.
  apply files_syscall in E as [(err&?&?)|(d0&Hd&E)]; [done|]. rewrite <- Hd. destruct (files d0 !! p); by simplify_eq.
Qed.
Lemma files_Remove p d d' res : Remove p d = (d', res) -> forall q, files d' !! q = files d !! q \/ q = p /\ files d' !! q = None.
Proof.
  intros [(err&Hf&_)|(d0&Hd&E)]%files_syscall q; [left; congruence|]. rewrite <- Hd. revert E.
  destruct (files d0 !! p) as [b|]; intros [= <- <-]; [|by left]. cbn.
  destruct (decide (q = p)) as [->|]; [right; by rewrite lookup_delete_eq|left; by rewrite lookup_delete_ne].
Qed.
Lemma files_CreateTemp a x d d' res : CreateTemp a x d = (d', res) ->
  match res with
  | inl tmp => isTemp tmp = true /\ files d' = <[tmp := []]> (files d)
  | inr _ => files d' = files d
  end.
Proof.
  intros [(err&Hf&->)|(d0&Hd&E)]%files_syscall; [done|]. revert E. case_decide; [intros [= <- <-]; congruence|].
  destruct (files d0 !! _); intros [= <- <-]; [congruence|]. cbn. split; [apply HasPrefix_spec; by eexists|by rewrite Hd].
Qed.
Lemma files_Write p data d d' res : Write p data d = (d', res) ->
  (forall q, q <> p -> files d' !! q = files d !! q) /\
  (res = inl () -> files d !! p = Some [] -> files d' !! p = Some data).
Proof.
  unfold Write. pose proof (files_next d) as Hn. destruct (nextAnswer d) as [a d1]. cbn in Hn.
  destruct (an_err a) as [err|]; intros [= <- <-]; cbn; rewrite Hn.
  - split; [intros q Hq; by rewrite lookup_alter_ne|done].
  - split; [intros q Hq; by rewrite lookup_alter_ne|]. intros _ Hp. by rewrite lookup_alter_eq, Hp.
Qed.
Lemma files_Rename p q d d' res : Rename p q d = (d', res) ->
  match res with
  | inl _ => exists b, files d !! p = Some b /\ files d' = <[q := b]> (delete p (files d))
  | inr _ => files d' = files d
  end.
Proof.
  intros [(err&Hf&->)|(d0&Hd&E)]%files_syscall; [done|]. revert E.
  destruct (files d0 !! p) as [b|] eqn:Hb; intros [= <- <-]; [|done]. exists b. cbn. by rewrite <- Hd.
Qed.

(** ** Identifiers *)
Lemma length_blocks n ws st : length st = 8%nat -> length (Sha256.blocks n ws st) = 8%nat.
Proof.
  revert ws st. induction n as [|n IH]; intros ws st Hs; [done|]. cbn [Sha256.blocks]. apply IH. unfold Sha256.block.
  rewrite length_zip_with, Hs. enough (length (Sha256.compress Sha256.roundKeys (take 16 ws) st) = 8%nat) by lia.
  revert Hs. generalize (take 16 ws). revert st. induction Sha256.roundKeys as [|k ks IHk]; intros st w Hs; [done|].
  cbn [Sha256.compress]. apply IHk. do 9 (destruct st as [|? st]; try done).
Qed.
Lemma length_Sum256 l : length (Sha256.Sum256 l) = 32%nat.
Proof.
  unfold Sha256.Sum256. pose proof (length_blocks (length (Sha256.words (Sha256.pad l)) / 16) (Sha256.words (Sha256.pad l)) _ (eq_refl : length Sha256.initial = 8%nat)) as Hb.
  revert Hb. generalize (Sha256.blocks (length (Sha256.words (Sha256.pad l)) / 16) (Sha256.words (Sha256.pad l)) Sha256.initial).
  intros st Hs. do 9 (destruct st as [|? st]; try done).
Qed.
Lemma hexDigit_hex n : (n < 16)%nat -> hexChar (hexDigit n) = true.
Proof. intros Hn. do 16 (destruct n as [|n]; [done|]). lia. Qed.
Lemma hexByte_hex b : Forall (fun a => hexChar a = true) (hexByte b) /\ length (hexByte b) = 2%nat.
Proof.
  split; [|done]. unfold hexByte. repeat constructor; apply hexDigit_hex.
  - assert (Sha256.ofByte b < 256) by (unfold Sha256.ofByte; pose proof (Byte.to_N_bounded b); lia).
    apply Nat.Div0.div_lt_upper_bound. lia.
  - apply Nat.mod_upper_bound. lia.
Qed.
Lemma hexEncode_hex l : Forall (fun a => hexChar a = true) (chars (hexEncode l)) /\ length (chars (hexEncode l)) = (2 * length l)%nat.
Proof.
  unfold hexEncode. rewrite chars_unchars. induction l as [|b l [IHf IHl]]; [done|]. change (mjoin (hexByte <$> b :: l)) with (hexByte b ++ mjoin (hexByte <$> l)).
  destruct (hexByte_hex b) as [Hf Hl]. rewrite length_app, Hl, IHl. cbn [length]. split; [by apply Forall_app|lia].
Qed.
Lemma hex64_forall s : hex64 s = true <-> length (chars s) = 64%nat /\ Forall (fun a => hexChar a = true) (chars s).
Proof. unfold hex64. by rewrite andb_true_iff, Nat.eqb_eq, forallb_forall, Forall_forall; setoid_rewrite list_elem_of_In. Qed.
Lemma shaHex_hex64 l : hex64 (shaHex l) = true.
Proof. apply hex64_forall. destruct (hexEncode_hex (Sha256.Sum256 l)) as [Hf Hl]. split; [|done]. unfold shaHex. by rewrite Hl, length_Sum256. Qed.
Lemma hex64_trimmed s : hex64 s = true -> TrimSpace s = s.
Proof.
  intros [_ Hf]%hex64_forall. apply TrimSpace_plain. eapply Forall_impl; [exact Hf|]. intros a. unfold hexChar, plainChar.
  rewrite orb_true_iff, !andb_true_iff, !Nat.leb_le. lia.
Qed.
Lemma hex64_not_temp a x s : hex64 s = true -> isTemp (a, x, s) = false /\ isTemp (a, x, s +:+ ".json") = false.
Proof.
  intros [Hl Hf]%hex64_forall. split; destruct (isTemp _) eqn:Ht; try done; apply HasPrefix_spec in Ht as [k Hk]; cbn in Hk;
    destruct s as [|b s]; try done; injection Hk as -> _; by inversion Hf.
Qed.
Lemma validateID_hex s : hex64 s = true -> validateID s = None.
Proof. intros Hs. unfold validateID. by rewrite hex64_trimmed, Hs. Qed.

(** ** Writing a file *)
Section local.
Context `{Platform} `{JSON ArtifactMeta}.

(** What a call does to the files that are not temporary, [dst] apart. *)
Definition apart (dst : path) d d' : Prop := forall p, isTemp p = false -> p <> dst -> files d' !! p = files d !! p.
Definition writes (dst : path) (data : bytes) (replace : bool) d d' (res : unit + error) : Prop :=
  apart dst d d' /\
  (files d' !! dst = files d !! dst \/ files d' !! dst = Some data \/ replace = true /\ windows = true /\ files d' !! dst = None) /\
  match res with
  | inl _ => if replace then files d' !! dst = Some data else is_Some (files d' !! dst)
  | inr _ => files d' !! dst = files d !! dst \/ replace = true /\ windows = true /\ files d' !! dst = None
  end.
Lemma apart_same dst d d' : files d' = files d -> apart dst d d'.
Proof using. by intros E p _ _; rewrite E. Qed.

(** A change to temporary files only. *)
Definition hidden d d' : Prop := forall p, isTemp p = false -> files d' !! p = files d !! p.
Lemma hidden_removed tmp d0 d d' res : isTemp tmp = true -> hidden d0 d -> Remove tmp d = (d', res) -> hidden d0 d'.
Proof using.
  intros Ht Hh E p Hp. destruct (files_Remove _ _ _ _ E p) as [->|[-> _]]; [by apply Hh|congruence].
Qed.
Lemma hidden_same d0 d d' : hidden d0 d -> files d' = files d -> hidden d0 d'.
Proof using. intros Hh E p Hp. rewrite E. by apply Hh. Qed.
Lemma writes_hidden dst data replace d d' err : isTemp dst = false -> hidden d d' -> writes dst data replace d d' (inr err).
Proof using. intros Hd Hh. split_and!; [by intros p Hp _; apply Hh|left; by apply Hh|left; by apply Hh]. Qed.
Lemma hidden_cleanup tmp err d0 d : isTemp tmp = true -> hidden d0 d -> hidden d0 (cleanup tmp err d).1.
Proof using.
  intros Ht Hh. unfold cleanup. cbn. destruct (syscall succeeds d) as [d1 r1] eqn:E1. cbn.
  destruct (Remove tmp d1) as [d2 r2] eqn:E2. cbn. eapply hidden_removed; [done| |exact E2].
  eapply hidden_same; [done|]. by eapply files_succeeds.
Qed.

Lemma renameLoop_writes n err tmp dst replace data d0 d d' res :
  isTemp tmp = true -> isTemp dst = false -> (n <> 0)%nat ->
  apart dst d0 d -> files d !! tmp = Some data ->
  (files d !! dst = files d0 !! dst \/ replace = true /\ windows = true /\ files d !! dst = None) ->
  renameLoop n err tmp dst replace d = (d', res) ->
  apart dst d0 d' /\
  match res with
  | inl _ => files d' !! dst = Some data
  | inr _ => files d' !! dst = files d0 !! dst \/ replace = true /\ windows = true /\ files d' !! dst = None
  end.
Proof using.
  intros Ht Hd. revert err d. induction n as [|n IH]; intros err d Hn Ha Hdata Hdst; [done|]. cbn [renameLoop].
  assert (Hne : tmp <> dst) by congruence.
  set (d1 := if replace && windows then (Remove dst d).1 else d).
  assert (apart dst d0 d1 /\ files d1 !! tmp = Some data /\
          (files d1 !! dst = files d0 !! dst \/ replace = true /\ windows = true /\ files d1 !! dst = None)) as (Ha1&Hdata1&Hdst1).
  { subst d1. destruct (replace && windows) eqn:Ew; [|done]. apply andb_true_iff in Ew as [Ew' Ew].
    destruct (Remove dst d) as [d1 r1] eqn:Er. cbn. pose proof (files_Remove _ _ _ _ Er) as Hr. split_and!.
    - intros p Hp Hpd. destruct (Hr p) as [->|[? _]]; [by apply Ha|done].
    - destruct (Hr tmp) as [->|[? _]]; done.
    - destruct (Hr dst) as [->|[_ ->]]; [done|by right]. }
  clearbody d1. destruct (Rename tmp dst d1) as [d2 [[]|err2]] eqn:Er; apply files_Rename in Er.
  - intros [= <- <-]. destruct Er as (b&Hb&Hf). assert (b = data) as -> by congruence. rewrite Hf. split; [|by rewrite lookup_insert_eq].
    intros p Hp Hpd. rewrite Hf, lookup_insert_ne, lookup_delete_ne by congruence. by apply Ha1.
  - assert (apart dst d0 d2) by (intros p Hp Hpd; rewrite Er; by apply Ha1).
    destruct (negb windows || _) eqn:Es; [intros [= <- <-]; by rewrite Er|]. intros E. destruct n as [|n].
    + cbn in E. injection E as <- <-. by rewrite Er.
    + eapply IH; [done|done| | |exact E]; by rewrite ?Er.
Qed.
Lemma writeFileAtomic_writes dst data replace d d' res :
  isTemp dst = false -> writeFileAtomic dst data replace d = (d', res) -> writes dst data replace d d' res.
Proof using.
  intros Hd. destruct dst as [[area prefix] name]. unfold writeFileAtomic. change (area, prefix, name) with ((area, prefix, name) : path) in *. set (dst := ((area, prefix, name) : path)) in *.
  destruct (MkdirAll area prefix d) as [d1 [[]|err]] eqn:E1; apply files_MkdirAll in E1.
  2: { intros [= <- <-]. apply writes_hidden; [done|]. by eapply hidden_same. }
  destruct (CreateTemp area prefix d1) as [d2 [tmp|err]] eqn:E2; apply files_CreateTemp in E2.
  2: { intros [= <- <-]. apply writes_hidden; [done|]. eapply hidden_same; [by eapply hidden_same|done]. }
  destruct E2 as [Ht E2]. assert (Hh : hidden d d2).
  { intros p Hp. rewrite E2, lookup_insert_ne by congruence. by rewrite E1. }
  assert (H2 : files d2 !! tmp = Some []) by (rewrite E2; apply lookup_insert_eq). clear d1 E1 E2. clearbody dst.
  assert (Hc : forall err d1, hidden d d1 -> (cleanup tmp err d1) = (d', res) -> writes dst data replace d d' res).
  { intros err d1 Hh1 E. pose proof (hidden_cleanup tmp err d d1 Ht Hh1) as Hh2. rewrite E in Hh2. unfold cleanup in E.
    injection E as _ <-. by apply writes_hidden. }
  destruct (Write tmp data d2) as [d3 [[]|err]] eqn:E3; apply files_Write in E3 as [Hf H3]; assert (hidden d d3)
    by (intros p Hp; rewrite Hf by congruence; by apply Hh); [|by apply Hc].
  specialize (H3 eq_refl H2).
  destruct (syscall succeeds d3) as [d4 [[]|err]] eqn:E4; apply files_succeeds in E4;
    assert (hidden d d4) by (by eapply hidden_same); [|by apply Hc].
  destruct (syscall succeeds d4) as [d5 [[]|err]] eqn:E5; apply files_succeeds in E5;
    assert (hidden d d5) by (by eapply hidden_same); [|by apply Hc].
  destruct (syscall succeeds d5) as [d6 chmod] eqn:E6; apply files_succeeds in E6;
    assert (Hh6 : hidden d d6) by (by eapply hidden_same).
  destruct (if windows then inl () else chmod) as [u|err]; [|by apply Hc].
  assert (H6 : files d6 !! tmp = Some data) by congruence.
  destruct (if replace then _ else _) as [d7 ex] eqn:E7. assert (files d7 = files d6 /\ (ex = inl () -> is_Some (files d6 !! dst) /\ replace = false)) as [H7 Hex].
  { destruct replace; [by simplify_eq|]. apply files_Stat in E7. naive_solver. }
  assert (Hh7 : hidden d d7) by (by eapply hidden_same). destruct ex as [[]|err].
  - destruct (Remove tmp d7) as [d8 r8] eqn:E8. intros [= <- <-]. eapply hidden_removed in E8 as Hh8; [|done..]. destruct (Hex eq_refl) as [Hs ->].
    split_and!; [by intros p Hp _; apply Hh8|left; by apply Hh8|]. rewrite Hh8, <- Hh6 by done. exact Hs.
  - destruct (renameLoop _ _ tmp dst replace d7) as [d8 [[]|err']] eqn:E8; eapply renameLoop_writes with (d0 := d) in E8; try done;
      try (by rewrite H7); try (left; by apply Hh7); try (by destruct windows); try (by intros p Hp _; apply Hh7).
    + intros [= <- <-]. destruct E8 as [Ha Hr]. split_and!; [done|by right; left|]. destruct replace; [done|by eexists].
    + destruct E8 as [Ha Hr]. destruct (Remove tmp d8) as [d9 r9] eqn:E9. intros [= <- <-].
      pose proof (files_Remove _ _ _ _ E9) as H9. assert (Hd9 : files d9 !! dst = files d8 !! dst) by (destruct (H9 dst) as [?|[He _]]; [done|rewrite <- He in Ht; congruence]).
      split_and!.
      * intros p Hp Hpd. destruct (H9 p) as [->|[-> _]]; [by apply Ha|congruence].
      * destruct Hr as [<-|(?&?&<-)]; rewrite Hd9; [by left|by do 2 right].
      * destruct Hr as [<-|(?&?&<-)]; rewrite Hd9; [by left|by right].
Qed.

(** ** What the operations do to the artifacts *)
Definition blobOf (id : string) : path := ("blobs", prefixOf id, id).
Definition metaOf (id : string) : path := ("meta", prefixOf id, id +:+ ".json").
Definition encodeMeta (m : ArtifactMeta) : bytes := match marshal m with inl b => b | inr _ => [] end.
(** The metadata [Put] stores for some bytes. *)
Definition describes (data : bytes) (m : ArtifactMeta) : Prop :=
  am_ArtifactID m = shaHex data /\ am_Sha256 m = shaHex data /\ am_Size m = zlen data.

Lemma blobPath_inl id p : blobPath id = inl p -> p = blobOf id.
Proof using. unfold blobPath. destruct (validateID id); [done|]. by intros [= <-]. Qed.
Lemma metaPath_inl id p : metaPath id = inl p -> p = metaOf id.
Proof using. unfold metaPath. destruct (validateID id); [done|]. by intros [= <-]. Qed.
Lemma blobOf_not_meta id id' : blobOf id <> metaOf id'.
Proof using. by intros [=]. Qed.
Lemma blobOf_inj id id' : blobOf id = blobOf id' -> id = id'.
Proof using. by intros [= _ ->]. Qed.
Lemma metaOf_inj id id' : metaOf id = metaOf id' -> id = id'.
Proof using. intros E. apply (f_equal (fun p => TrimSuffix p.2 ".json")) in E. cbn in E. by rewrite !TrimSuffix_app in E. Qed.

Lemma names_not_temp id : hex64 id = true -> isTemp (blobOf id) = false /\ isTemp (metaOf id) = false.
Proof using.
  intros Hid. split; [apply (hex64_not_temp "blobs" (prefixOf id) id Hid)|apply (hex64_not_temp "meta" (prefixOf id) id Hid)].
Qed.
Lemma files_now d : files (diskNow d).2 = files d.
Proof using. unfold diskNow. pose proof (files_next d) as Hn. by destruct (nextAnswer d). Qed.
Lemma putBlob_writes p data d d' res : isTemp p = false -> putBlob p data d = (d', res) -> writes p data false d d' res.
Proof using.
  intros Hp. unfold putBlob. destruct (Stat p d) as [d1 [[]|err]] eqn:Es; apply files_Stat in Es as [Hf Hs].
  - intros [= <- <-]. split_and!; [by apply apart_same|left; by rewrite Hf|rewrite Hf; by apply Hs].
  - assert (Hd : forall res, writes p data false d1 d' res -> writes p data false d d' res).
    { intros x. unfold writes, apart. by rewrite Hf. }
    destruct (unwrapsTo err errNotExist); [intros E; by apply Hd, writeFileAtomic_writes|].
    intros [= <- <-]. apply writes_hidden; [done|]. intros q _. by rewrite Hf.
Qed.

(** After [Put], whatever happened: the files of other artifacts are as they were. *)
Definition stored (data : bytes) (d d' : Disk) (res : (string * ArtifactMeta) + error) : Prop :=
  let id := shaHex data in
  (forall p, isTemp p = false -> p <> blobOf id -> p <> metaOf id -> files d' !! p = files d !! p) /\
  (files d' !! blobOf id = files d !! blobOf id \/ files d' !! blobOf id = Some data) /\
  (files d' !! metaOf id = files d !! metaOf id \/ windows = true /\ files d' !! metaOf id = None \/
   exists m, describes data m /\ files d' !! metaOf id = Some (encodeMeta m)) /\
  match res with
  | inl (id', m) => id' = id /\ describes data m /\ is_Some (files d' !! blobOf id) /\
                    files d' !! metaOf id = Some (encodeMeta m)
  | inr _ => files d' !! metaOf id = files d !! metaOf id \/ windows = true /\ files d' !! metaOf id = None
  end.
Lemma stored_same data d d' err : files d' = files d -> stored data d d' (inr err).
Proof using. intros E. unfold stored. rewrite E. split_and!; by left || done. Qed.
Lemma describes_stored data meta : describes data (set_am_stored (shaHex data) (shaHex data) (zlen data) meta).
Proof using. done. Qed.
Lemma put_stored data meta d d' res : LocalArtifactStore_put data meta d = (d', res) -> stored data d d' res.
Proof using.
  unfold LocalArtifactStore_put. set (id := shaHex data). assert (Hid : hex64 id = true) by apply shaHex_hex64.
  set (m0 := set_am_stored id id (zlen data) meta). destruct (if IsZero _ then _ else _) as [m d1] eqn:Et.
  assert (describes data m /\ files d1 = files d) as [Hm Hf].
  { destruct (IsZero _); [|by simplify_eq]. pose proof (files_now d) as Hn. destruct (diskNow d) as [t d2]. by simplify_eq. }
  clearbody m0. clear Et. unfold blobPath, metaPath. rewrite (validateID_hex id Hid). change ("blobs", prefixOf id, id) with (blobOf id).
  change ("meta", prefixOf id, id +:+ ".json") with (metaOf id). destruct (names_not_temp id Hid) as [Hb Hj].
  destruct (MkdirAll _ _ d1) as [d2 [[]|err]] eqn:E2; apply files_MkdirAll in E2; [|intros [= <- <-]; apply stored_same; congruence].
  destruct (MkdirAll _ _ d2) as [d3 [[]|err]] eqn:E3; apply files_MkdirAll in E3; [|intros [= <- <-]; apply stored_same; congruence].
  destruct (putBlob (blobOf id) data d3) as [d4 [[]|err]] eqn:E4; apply (putBlob_writes _ _ _ _ _ Hb) in E4 as (Ha4&Hb4&H4).
  - destruct (putMetaFile (metaOf id) m d4) as [d5 [[]|err]] eqn:E5;
      apply (writeFileAtomic_writes _ _ _ _ _ _ Hj) in E5 as (Ha5&Hm5&H5); fold (encodeMeta m) in *; intros [= <- <-];
      unfold stored; fold id; rewrite (Ha5 (blobOf id) Hb (blobOf_not_meta _ _)); assert (files d4 !! metaOf id = files d !! metaOf id)
        as Hd4 by (rewrite (Ha4 _ Hj (fun E => blobOf_not_meta _ _ (eq_sym E))); congruence);
      assert (files d3 = files d) as Hd3 by congruence; rewrite ?Hd4, Hd3 in *; split_and!; try done;
      try (by intros p Hp Hpb Hpm; rewrite Ha5, Ha4 by done; rewrite Hd3); naive_solver.
  - intros [= <- <-]. assert (files d3 = files d) as Hd3 by congruence. unfold stored. fold id.
    rewrite (Ha4 _ Hj (fun E => blobOf_not_meta _ _ (eq_sym E))). rewrite Hd3 in *. split_and!; try (by left || done).
    + intros p Hp Hpb _. rewrite Ha4 by done. by rewrite Hd3.
    + naive_solver.
Qed.

(** ** Every file is what its name says *)
Definition genuine (p : path) (b : bytes) : Prop :=
  exists data, p = blobOf (shaHex data) /\ b = data \/
    exists m, p = metaOf (shaHex data) /\ describes data m /\ b = encodeMeta m.
Definition intact d : Prop := forall p b, isTemp p = false -> files d !! p = Some b -> genuine p b.
Definition evolves d d' : Prop :=
  forall p, isTemp p = false ->
    files d' !! p = files d !! p \/ files d' !! p = None \/ exists b, files d' !! p = Some b /\ genuine p b.
#[local] Instance evolves_preorder : PreOrder evolves.
Proof using.
  split; [by intros d p _; left|]. intros d1 d2 d3 H1 H2 p Hp. destruct (H2 p Hp) as [->|?]; [by apply H1|by right].
Qed.
Lemma intact_evolves d d' : evolves d d' -> intact d -> intact d'.
Proof using.
  intros He Hi p b Hp Hb. destruct (He p Hp) as [E|[E|(b'&E&Hg)]]; [|congruence|congruence].
  apply (Hi p b Hp). congruence.
Qed.
Lemma evolves_same d d' : files d' = files d -> evolves d d'.
Proof using. intros E p _. rewrite E. by left. Qed.
Lemma evolves_removed p d d' res : Remove p d = (d', res) -> evolves d d'.
Proof using. intros E q _. destruct (files_Remove _ _ _ _ E q) as [->|[_ ->]]; [by left|by right; left]. Qed.

Lemma put_evolves data meta d d' res : LocalArtifactStore_put data meta d = (d', res) -> evolves d d'.
Proof using.
  intros (Ho&Hb&Hm&_)%put_stored p Hp. destruct (decide (p = blobOf (shaHex data))) as [->|Hpb].
  { destruct Hb as [-> | ->]; [by left|]. do 2 right. eexists. split; [done|]. exists data. by left. }
  destruct (decide (p = metaOf (shaHex data))) as [->|Hpm]; [|left; by apply Ho].
  destruct Hm as [-> | [[_ ->] | (m&Hd&->)]]; [by left|by right; left|]. do 2 right. eexists. split; [done|]. exists data. right. by exists m.
Qed.
Lemma get_same id d d' res : LocalArtifactStore_get id d = (d', res) -> files d' = files d.
Proof using.
  unfold LocalArtifactStore_get, readExisting. destruct (blobPath id) as [blob|]; [|by intros [= <- _]].
  destruct (metaPath id) as [file|]; [|by intros [= <- _]].
  destruct (ReadFile file d) as [d1 [mb|]] eqn:E1; apply files_ReadFile in E1 as [E1 _]; [|by intros [= <- _]].
  destruct (unmarshal mb); [|by intros [= <- _]].
  destruct (ReadFile blob d1) as [d2 [b|]] eqn:E2; apply files_ReadFile in E2 as [E2 _]; intros [= <- _]; congruence.
Qed.
(** [Delete] removes the two files of an artifact at most. *)
Lemma delete_files id d d' err : LocalArtifactStore_delete id d = (d', err) ->
  forall p, files d' !! p = files d !! p \/ files d' !! p = None /\ (p = blobOf id \/ p = metaOf id).
Proof using.
  unfold LocalArtifactStore_delete. destruct (blobPath id) as [blob|] eqn:Eb; [|by intros [= <- _]; left].
  destruct (metaPath id) as [file|] eqn:Em; [|by intros [= <- _]; left]. apply blobPath_inl in Eb as ->. apply metaPath_inl in Em as ->.
  destruct (Remove (metaOf id) d) as [d1 r1] eqn:E1. cbn. destruct (Remove (blobOf id) d1) as [d2 r2] eqn:E2. intros [= <- _] p.
  destruct (files_Remove _ _ _ _ E2 p) as [->|[-> ->]]; [|right; by auto].
  destruct (files_Remove _ _ _ _ E1 p) as [->|[-> ->]]; [by left|right; by auto].
Qed.
Lemma delete_removes id d d' err : LocalArtifactStore_delete id d = (d', err) ->
  evolves d d' /\ forall p, p <> blobOf id -> p <> metaOf id -> files d' !! p = files d !! p.
Proof using.
  intros E. split.
  - intros p _. destruct (delete_files _ _ _ _ E p) as [->|[-> _]]; [by left|by right; left].
  - intros p Hb Hm. destruct (delete_files _ _ _ _ E p) as [->|[_ [?|?]]]; done.
Qed.

(** A walk does what its visits do. *)
Section related.
Context {T : Type} (visit : string -> string -> Disk -> T -> Disk * T * option error) (R : relation Disk) `{!PreOrder R}.
Context (visited : forall prefix name d t, R d (visit prefix name d t).1.1) (same : forall d d', files d' = files d -> R d d').
Lemma walkNames_related prefix names d t : R d (walkNames visit prefix names d t).1.1.
Proof using visited PreOrder0.
  revert d t. induction names as [|n names IH]; intros d t; cbn [walkNames]; [done|].
  pose proof (visited prefix n d t) as Hv. destruct (visit prefix n d t) as [[d1 t1] [err|]]; [done|].
  etransitivity; [exact Hv|apply IH].
Qed.
Lemma walkDirs_related prefixes d t : R d (walkDirs visit prefixes d t).1.1.
Proof using visited PreOrder0 same.
  revert d t. induction prefixes as [|x prefixes IH]; intros d t; cbn [walkDirs]; [done|].
  destruct (ReadDir "meta" x d) as [d1 [names|err]] eqn:Er; apply files_reader in Er; [|done|by apply same|done].
  pose proof (walkNames_related x names d1 t) as Hw. destruct (walkNames visit x names d1 t) as [[d2 t2] [err|]]; cbn in Hw |- *.
  - etransitivity; [by apply same|exact Hw].
  - etransitivity; [by apply same|]. etransitivity; [exact Hw|apply IH].
Qed.
Lemma WalkMeta_related d t : R d (WalkMeta visit d t).1.1.
Proof using visited PreOrder0 same.
  unfold WalkMeta. destruct (StatArea "meta" d) as [d1 [[]|err]] eqn:E1; apply files_reader in E1; [|done|by apply same|done].
  destruct (ReadArea "meta" d1) as [d2 [ps|err]] eqn:E2; apply files_reader in E2; [|done|apply same; cbn; congruence|done].
  etransitivity; [|apply walkDirs_related]. apply same. congruence.
Qed.
End related.

Lemma visitRow_same runID prefix name d out : files (visitRow runID prefix name d out).1.1 = files d.
Proof using.
  unfold visitRow. destruct (negb _); [done|]. destruct (ctxErr d) as [d1 [[]|err]] eqn:E1; apply files_succeeds in E1; [|done].
  destruct (ReadFile _ d1) as [d2 [mb|err]] eqn:E2; apply files_ReadFile in E2 as [E2 _]; cbn; congruence.
Qed.
Lemma visitPrune_evolves root cutoff prefix name d st : evolves d (visitPrune root cutoff prefix name d st).1.1.
Proof using.
  unfold visitPrune. destruct (negb _); [done|].
  destruct (ctxErr d) as [d1 [[]|err]] eqn:E1; apply files_succeeds in E1; [|by apply evolves_same].
  destruct (ReadFile _ d1) as [d2 [mb|err]] eqn:E2; apply files_ReadFile in E2 as [E2 _]; [|apply evolves_same; cbn; congruence].
  destruct (unmarshal mb) as [m|err]; [|apply evolves_same; cbn; congruence].
  destruct (IsZero _); [apply evolves_same; cbn; congruence|]. destruct (Before _ _); [|apply evolves_same; cbn; congruence].
  destruct (LocalArtifactStore_delete _ d2) as [d3 err] eqn:E3. cbn. apply delete_removes in E3 as [E3 _].
  etransitivity; [|exact E3]. apply evolves_same. congruence.
Qed.

(** The calls of the store, one after the other. *)
Inductive storeCall : Type :=
| CallPut (data : bytes) (meta : ArtifactMeta)
| CallGet (id : string)
| CallDelete (id : string)
| CallList (runID : string) (limit : Z)
| CallPrune (cutoff : Time).
Definition perform (s : LocalArtifactStore) (c : storeCall) : LocalArtifactStore :=
  match c with
  | CallPut data meta => (Put data meta s).1
  | CallGet id => (Get id s).1
  | CallDelete id => (Delete id s).1
  | CallList runID limit => (onDisk (LocalArtifactStore_ListByRun runID limit) s).1
  | CallPrune cutoff => (onDisk (fun d => let '(d, st, err) := PruneOlderThan (la_root s) cutoff d in (d, (st, err))) s).1
  end.
Lemma perform_evolves s c : evolves (la_disk s) (la_disk (perform s c)).
Proof using.
  destruct s as [root d]. destruct c as [data meta|id|id|runID limit|cutoff]; cbn; unfold onDisk; cbn.
  - destruct (LocalArtifactStore_put data meta d) as [d' res] eqn:E. by eapply put_evolves.
  - destruct (LocalArtifactStore_get id d) as [d' res] eqn:E. apply evolves_same. by eapply get_same.
  - destruct (LocalArtifactStore_delete id d) as [d' res] eqn:E. by apply delete_removes in E as [? _].
  - unfold LocalArtifactStore_ListByRun. case_decide; [done|].
    destruct (StatArea "meta" d) as [d1 [[]|err]] eqn:E1; apply files_reader in E1; [|done|by apply evolves_same|done].
    pose proof (WalkMeta_related (visitRow (TrimSpace runID)) evolves
      (fun a b d t => evolves_same _ _ (visitRow_same _ a b d t)) evolves_same d1 []) as Hw.
    destruct (WalkMeta _ d1 []) as [[d2 out] [err|]]; (etransitivity; [by apply evolves_same|exact Hw]).
  - unfold PruneOlderThan. destruct (StatArea "meta" d) as [d1 [[]|err]] eqn:E1; apply files_reader in E1; [|done|by apply evolves_same|done].
    pose proof (WalkMeta_related (visitPrune root cutoff) evolves
      (visitPrune_evolves root cutoff) evolves_same d1 (mkPruneStats 0 0)) as Hw.
    destruct (WalkMeta _ d1 _) as [[d2 out] err]. etransitivity; [by apply evolves_same|exact Hw].
Qed.
Lemma performed_intact calls s : intact (la_disk s) -> intact (la_disk (foldl perform s calls)).
Proof using.
  revert s. induction calls as [|c calls IH]; intros s Hi; [done|]. cbn. apply IH. eapply intact_evolves; [apply perform_evolves|done].
Qed.

(** ** The properties of the local store *)
(** What decoding relies on: the empty input is refused, and of encoded metadata the
    identifiers, the size and the creation time are read back. *)
Class MetaCodec : Prop := {
  unmarshal_empty : exists err, unmarshal (T := ArtifactMeta) [] = inr err;
  unmarshal_meta : forall m b, marshal m = inl b -> hex64 (am_ArtifactID m) = true -> hex64 (am_Sha256 m) = true ->
    exists m', unmarshal b = inl m' /\ am_ArtifactID m' = am_ArtifactID m /\ am_Sha256 m' = am_Sha256 m /\
      am_Size m' = am_Size m /\ am_CreatedAt m' = am_CreatedAt m
}.
(** Two byte strings with the same SHA-256. *)
Definition collision (x y : bytes) : Prop := x <> y /\ shaHex x = shaHex y.
Lemma same_or_collision x y : shaHex x = shaHex y -> x = y \/ collision x y.
Proof using. destruct (decide (x = y)); [by left|by right]. Qed.

Lemma dot_not_hex k : hex64 (TrimSpace ("." +:+ k)) = false.
Proof using.
  assert (plain ".") as Hp by by repeat constructor.
  destruct (TrimSpace_prefix "." k Hp ltac:(done)) as [s' ->]. destruct (hex64 _) eqn:E; [|done].
  apply hex64_forall in E as [_ E]. by inversion E.
Qed.
Lemma temp_not_hex id : HasPrefix id ".tmp-" = true -> hex64 (TrimSpace id) = false.
Proof using. intros [k ->]%HasPrefix_spec. exact (dot_not_hex ("tmp-" +:+ k)). Qed.
Lemma temp_row_not_hex name : HasPrefix name ".tmp-" = true -> hex64 (TrimSpace (TrimSuffix name ".json")) = false.
Proof using.
  intros Ht. unfold TrimSuffix. destruct (HasSuffix _ _); [|by apply temp_not_hex]. apply HasPrefix_spec in Ht as [k ->].
  destruct (length (chars (".tmp-" +:+ k)) - length (chars ".json"))%nat as [|n]; [reflexivity|].
  change (chars (".tmp-" +:+ k)) with ("."%char :: chars ("tmp-" +:+ k)). exact (dot_not_hex (unchars (take n (chars ("tmp-" +:+ k))))).
Qed.
Lemma genuine_blob x n b : genuine ("blobs", x, n) b -> shaHex b = n /\ x = prefixOf n.
Proof using. intros [data [[E ->]|(m&E&_)]]; [|done]. by injection E as -> ->. Qed.
Lemma genuine_meta id b : genuine (metaOf id) b -> exists data m, id = shaHex data /\ describes data m /\ b = encodeMeta m.
Proof using. intros [data [[E _]|(m&E&?&?)]]; [done|]. apply metaOf_inj in E as ->. eauto. Qed.
Lemma readExisting_inl p d d' b : readExisting p d = (d', inl b) -> files d !! p = Some b /\ files d' = files d.
Proof using.
  unfold readExisting. destruct (ReadFile p d) as [d1 [b1|err]] eqn:E; [|done]. intros [= <- <-].
  apply files_ReadFile in E as [? Hb]. split; [by apply Hb|done].
Qed.
Lemma decoded `{!MetaCodec} data m m' : describes data m -> unmarshal (encodeMeta m) = inl m' -> describes data m' /\ am_CreatedAt m' = am_CreatedAt m.
Proof using.
  intros (Hi&Hs&Hz) E. unfold encodeMeta in E. destruct (marshal m) as [b|err] eqn:Em.
  - destruct (unmarshal_meta m b Em) as (m2&Hm&Hi'&Hs'&Hz'&Ht); [by rewrite Hi; apply shaHex_hex64|by rewrite Hs; apply shaHex_hex64|].
    assert (m2 = m') as -> by congruence. unfold describes. split_and!; congruence.
  - destruct unmarshal_empty as [e He]. congruence.
Qed.

(** C22: After any calls of the store, whatever the operating system answered to them, an
    artifact that is read is what it is named after: the name is the SHA-256 of the bytes, and the
    metadata name the same artifact and its size (or two byte strings with one SHA-256 have been found). *)
Theorem artifact_integrity `{!MetaCodec} calls s id s' b m :
  intact (la_disk s) -> Get id (foldl perform s calls) = (s', inl (b, m)) ->
  hex64 id = true /\ shaHex b = id /\ am_ArtifactID m = id /\ am_Sha256 m = id /\
  (am_Size m = zlen b \/ exists x, collision b x).
Proof using.
  intros Hi%(performed_intact calls) E. destruct (foldl perform s calls) as [root d]. cbn in *. unfold onDisk in E. cbn in E.
  destruct (LocalArtifactStore_get id d) as [d' res] eqn:Eg. injection E as _ ->. unfold LocalArtifactStore_get in Eg.
  destruct (blobPath id) as [p|] eqn:Ep; [|done]. assert (Hv : hex64 (TrimSpace id) = true).
  { unfold blobPath, validateID in Ep. by destruct (hex64 _). }
  apply blobPath_inl in Ep as ->. destruct (metaPath id) as [q|] eqn:Eq; [|done]. apply metaPath_inl in Eq as ->.
  destruct (readExisting (metaOf id) d) as [d1 [mb|err]] eqn:E1; [|done]. apply readExisting_inl in E1 as [Hm Hd1].
  destruct (unmarshal mb) as [m'|err] eqn:Eu; [|done].
  destruct (readExisting (blobOf id) d1) as [d2 [b'|err]] eqn:E2; [|done]. apply readExisting_inl in E2 as [Hb Hd2]. injection Eg as _ -> ->.
  rewrite Hd1 in Hb. assert (HasPrefix id ".tmp-" = false) as Ht.
  { destruct (HasPrefix id _) eqn:Et; [|done]. apply temp_not_hex in Et. congruence. }
  destruct (genuine_blob _ _ _ (Hi (blobOf id) b Ht Hb)) as [Hsha _]. assert (Hx : hex64 id = true) by (rewrite <- Hsha; apply shaHex_hex64).
  destruct (genuine_meta id mb) as (data&m0&Hid&Hdesc&->); [apply Hi; [apply names_not_temp, Hx|done]|].
  destruct (decoded data m0 m Hdesc Eu) as [(Hi'&Hs'&Hz) _].
  split_and!; [done|done|congruence|congruence|]. destruct (same_or_collision b data) as [->|]; [congruence|by left|right; by exists data].
Qed.

(** The artifact that can be read under a name. *)
Definition artifact d (id : string) : option (bytes * ArtifactMeta) :=
  match files d !! metaOf id, files d !! blobOf id with
  | Some mb, Some b => match unmarshal mb with inl m => Some (b, m) | inr _ => None end
  | _, _ => None
  end.
(** [Get] reads it, or reports an error of the operating system. *)
Definition healthy d : Prop := Forall (fun a => an_err a = None) (dk_answers d).
Lemma healthy_syscall {T} (work : Disk -> Disk * (T + error)) d : healthy d ->
  exists d1, syscall work d = work d1 /\ files d1 = files d /\ healthy d1.
Proof using.
  unfold syscall, healthy, nextAnswer. destruct (dk_answers d) as [|a l] eqn:El; intros Hh; cbn.
  - exists d. by rewrite El.
  - apply Forall_cons in Hh as [-> Hl]. by eexists.
Qed.
Lemma readExisting_healthy p d : healthy d ->
  exists d1, readExisting p d = (d1, match files d !! p with Some b => inl b | None => inr ErrArtifactNotFound end) /\
    files d1 = files d /\ healthy d1.
Proof using.
  intros Hh. unfold readExisting, ReadFile. destruct (healthy_syscall (fun d => (d, match dk_files d !! p with Some b => inl b | None => inr errNotExist end)) d Hh) as (d1&->&Hf&Hd).
  exists d1. rewrite Hf. by destruct (files d !! p).
Qed.
Lemma get_artifact id d : healthy d -> hex64 id = true ->
  exists d', files d' = files d /\ match artifact d id with
    | Some x => LocalArtifactStore_get id d = (d', inl x)
    | None => exists err, LocalArtifactStore_get id d = (d', inr err)
    end.
Proof using.
  intros Hh Hx. unfold LocalArtifactStore_get, blobPath, metaPath, artifact. rewrite (validateID_hex id Hx).
  change ("blobs", prefixOf id, id) with (blobOf id). change ("meta", prefixOf id, id +:+ ".json") with (metaOf id).
  destruct (readExisting_healthy (metaOf id) d Hh) as (d1&->&Hf1&Hd1). destruct (files d !! metaOf id) as [mb|]; [|by eauto].
  destruct (readExisting_healthy (blobOf id) d1 Hd1) as (d2&E2&Hf2&Hd2). rewrite Hf1 in E2.
  destruct (unmarshal mb) as [m|err]; [|destruct (files d !! blobOf id); by eauto]. rewrite E2.
  destruct (files d !! blobOf id); eexists; (split; [|by eauto]); congruence.
Qed.

(** What a failed [Put] may leave of the artifact it was about: what it was, or, where only the bytes were
    missing, the bytes given next to the metadata that were there. *)
Definition kept_by_failure (data : bytes) d d' : Prop :=
  let id := shaHex data in
  match artifact d id with
  | Some (b, m) => exists b', artifact d' id = Some (b', m) /\ (b' = b \/ b' = data)
  | None => artifact d' id = None \/
      files d !! blobOf id = None /\ exists mb m, files d !! metaOf id = Some mb /\ unmarshal mb = inl m /\
        artifact d' id = Some (data, m)
  end.
Lemma failure_keeps data d d' :
  files d' !! blobOf (shaHex data) = files d !! blobOf (shaHex data) \/ files d' !! blobOf (shaHex data) = Some data ->
  files d' !! metaOf (shaHex data) = files d !! metaOf (shaHex data) -> kept_by_failure data d d'.
Proof using.
  intros Hb Hm. unfold kept_by_failure, artifact. rewrite Hm.
  destruct (files d !! metaOf (shaHex data)) as [mb|]; [|by left].
  destruct (files d !! blobOf (shaHex data)) as [b0|] eqn:Eb; destruct (unmarshal mb) as [m|] eqn:Eu.
  - destruct Hb as [-> | ->]; eauto.
  - left. by case_match.
  - destruct Hb as [-> | ->]; [by left|]. right. split; [done|]. eauto.
  - left. by case_match.
Qed.

(** C23: [Put], whatever each system call answers.  After a success the artifact is read with these bytes and
    the metadata just given.  After a failure it is what it was: read with the bytes and metadata it had,
    or not at all; only where its metadata had been there without its bytes may it have become
    readable, with the bytes given.  On Windows, where the destination is removed before the rename, a
    failure may have lost the metadata instead.  No other artifact changes, and whatever is stored under the
    name of the bytes is the bytes (or a collision of SHA-256). *)
Theorem Put_atomic data meta d d' res :
  intact d -> LocalArtifactStore_put data meta d = (d', res) ->
  (forall id, hex64 id = true -> id <> shaHex data -> artifact d' id = artifact d id) /\
  (forall b, files d' !! blobOf (shaHex data) = Some b -> b = data \/ collision b data) /\
  match res with
  | inl (id, m) => id = shaHex data /\ describes data m /\ exists b, files d' !! blobOf id = Some b /\
      artifact d' id = match unmarshal (encodeMeta m) with inl m' => Some (b, m') | inr _ => None end
  | inr _ => kept_by_failure data d d' \/ windows = true /\ artifact d' (shaHex data) = None
  end.
Proof using.
  intros Hi E. assert (Hi' : intact d') by (eapply intact_evolves; [by eapply put_evolves|done]).
  apply put_stored in E as (Ho&Hb&Hm&Hr). pose proof (shaHex_hex64 data) as Hx. split_and!.
  - intros id Hid Hne. destruct (names_not_temp id Hid) as [Hb1 Hm1]. unfold artifact.
    rewrite (Ho (metaOf id)), (Ho (blobOf id)); [done|..]; try done.
    all: intros E; first [by apply blobOf_inj in E|by apply metaOf_inj in E|by apply blobOf_not_meta in E|
      by symmetry in E; apply blobOf_not_meta in E].
  - intros b Hbl. destruct (genuine_blob _ _ _ (Hi' (blobOf (shaHex data)) b (proj1 (names_not_temp _ Hx)) Hbl)) as [Hs _].
    by apply same_or_collision.
  - destruct res as [[id m]|err].
    + destruct Hr as (->&Hd&[b Hbl]&Hml). split_and!; [done..|]. exists b. split; [done|]. unfold artifact. by rewrite Hml, Hbl.
    + destruct Hr as [Hr|[Hw Hr]]; [left; by apply failure_keeps|right]. split; [done|]. unfold artifact. by rewrite Hr.
Qed.

(** *** Pruning *)
(** Files only go away, and only those of an artifact whose metadata were older. *)
Definition old (cutoff : Time) d (id : string) : Prop :=
  exists mb m, files d !! metaOf id = Some mb /\ unmarshal mb = inl m /\ IsZero (am_CreatedAt m) = false /\
    Before (am_CreatedAt m) cutoff = true.
Definition prunes (cutoff : Time) d d' : Prop := intact d -> intact d' /\
  forall p, files d' !! p = files d !! p \/
    files d' !! p = None /\ exists id, old cutoff d id /\ (p = blobOf id \/ p = metaOf id).
#[local] Instance prunes_preorder cutoff : PreOrder (prunes cutoff).
Proof using.
  split; [by intros d Hi; split; [|left]|]. intros d1 d2 d3 H1 H2 Hi. destruct (H1 Hi) as [Hi2 Hf1]. destruct (H2 Hi2) as [Hi3 Hf2].
  split; [done|]. intros p. destruct (Hf2 p) as [->|[Hn (id&(mb&m&Hm&Hold)&Hp)]]; [apply Hf1|]. right. split; [done|].
  exists id. split; [|done]. exists mb, m. split; [|done]. destruct (Hf1 (metaOf id)) as [<-|[? _]]; [done|congruence].
Qed.
Lemma prunes_same cutoff d d' : files d' = files d -> prunes cutoff d d'.
Proof using. intros E Hi. split; [intros p b; rewrite E; apply Hi|left; by rewrite E]. Qed.
Lemma visitPrune_prunes root cutoff prefix name d st : prunes cutoff d (visitPrune root cutoff prefix name d st).1.1.
Proof using.
  unfold visitPrune. destruct (HasSuffix name ".json") eqn:Ej; cbn [negb]; [|by apply prunes_same].
  destruct (ctxErr d) as [d1 [[]|err]] eqn:E1; apply files_succeeds in E1; [|by apply prunes_same].
  destruct (ReadFile _ d1) as [d2 [mb|err]] eqn:E2; apply files_ReadFile in E2 as [E2 Hb]; [|apply prunes_same; cbn; congruence].
  specialize (Hb mb eq_refl). destruct (unmarshal mb) as [m|err] eqn:Eu; [|apply prunes_same; cbn; congruence].
  destruct (IsZero _) eqn:Ez; [apply prunes_same; cbn; congruence|]. destruct (Before _ _) eqn:Eb; [|apply prunes_same; cbn; congruence].
  destruct (LocalArtifactStore_delete _ d2) as [d3 err] eqn:E3. cbn. intros Hi.
  destruct (HasPrefix name ".tmp-") eqn:Et.
  - assert (blobPath (TrimSuffix name ".json") = inr ErrInvalidArtifactID) as Hbp.
    { unfold blobPath, validateID. by rewrite temp_row_not_hex. }
    unfold LocalArtifactStore_delete in E3. rewrite Hbp in E3. injection E3 as <- _. apply (prunes_same cutoff d d2); [congruence|done].
  - rewrite E1 in Hb. destruct (Hi ("meta", prefix, name) mb Et Hb) as [data [[? _]|(m0&En&_)]]; [done|]. injection En as Hx Hn.
    assert (Hid : TrimSuffix name ".json" = shaHex data) by (by rewrite Hn, TrimSuffix_app). rewrite Hid in E3.
    pose proof E3 as E3'. apply delete_removes in E3 as [He Ho]. split.
    + eapply intact_evolves; [|exact Hi]. etransitivity; [|exact He]. apply evolves_same. congruence.
    + intros p. assert (files d2 = files d) as Hd2 by congruence. rewrite <- Hd2.
      assert (old cutoff d2 (shaHex data)).
      { exists mb, m. rewrite Hd2. split_and!; try done. unfold metaOf. by rewrite <- Hx, <- Hn. }
      destruct (delete_files _ _ _ _ E3' p) as [?|[? ?]]; [by left|right]. split; [done|]. exists (shaHex data). split; [|done]. unfold old. by rewrite <- Hd2.
Qed.
(** Pruning only ever removes the two files of artifacts whose metadata had a creation time
    before the cutoff; it stops at the first error, and everything else stays. *)
Theorem prune_only_old root cutoff d d' st err :
  intact d -> PruneOlderThan root cutoff d = (d', st, err) ->
  forall p, files d' !! p = files d !! p \/
    files d' !! p = None /\ exists id, old cutoff d id /\ (p = blobOf id \/ p = metaOf id).
Proof using.
  intros Hi. unfold PruneOlderThan. destruct (StatArea "meta" d) as [d1 [[]|e]] eqn:E1; apply files_reader in E1; [|done|intros [= <- _ _]; left; by rewrite E1|done].
  intros E2. pose proof (WalkMeta_related (visitPrune root cutoff) (prunes cutoff) (visitPrune_prunes root cutoff) (prunes_same cutoff) d1 (mkPruneStats 0 0)) as Hw.
  rewrite E2 in Hw. cbn in Hw. assert (prunes cutoff d d') as Hp by (etransitivity; [by apply prunes_same|exact Hw]). by apply Hp.
Qed.
End local.

(** ** The memory store *)
Section memory.
Context `{MemoryEnv} `{MapOrder}.
(** What [Put] stores is what [Get] returns; the artifacts under other names stay. *)
Theorem memory_put_get data meta s : exists id m, (Put data meta s).2 = inl (id, m) /\ am_ArtifactID m = id /\
  am_Sha256 m = shaHex data /\ am_Size m = zlen data /\
  Get id (Put data meta s).1 = ((Put data meta s).1, inl (data, m)) /\
  forall id', id' <> id -> (Get id' (Put data meta s).1).2 = (Get id' s).2.
Proof using.
  cbn [Put Get MemoryArtifacts]. unfold MemoryArtifactStore_Put.
  set (x := if IsZero _ then _ else _). destruct x as [m s1] eqn:Ex. assert (blobs s1 = blobs s /\ metas s1 = metas s) as [Hb Hm].
  { subst x. destruct (IsZero _); by simplify_eq/=. }
  eexists _, _. do 4 (split; [done|]). unfold MemoryArtifactStore_Get. cbn. rewrite !lookup_insert_eq. split; [done|].
  intros id' Hne. rewrite !lookup_insert_ne by done. by rewrite Hb, Hm.
Qed.
End memory.

(** ** The runner *)
Section runner.
#[local] Set Default Proof Using "Type*".
Context {S F A : Type} `{Store S} `{!StoreLaws S} `{ArtifactStore A} `{Ambient} `{MapOrder} `{EngineJSON}.
Implicit Types r : Runner S F A.

(** The run access to an artifact is decided by. *)
Definition artifactRun (meta : ArtifactMeta) r : Run :=
  mkRun (am_RunID meta) (am_WorkflowID meta) "" None None [] [] (artifactTenant meta r) "" [] noBudget noUsage.
Lemma ensureArtifact_spec ctx now meta action r :
  ((ensureArtifactTenantAccess ctx now meta action r).2 = None <-> mayAccess ctx (artifactRun meta r)) /\
  rn_artifacts (ensureArtifactTenantAccess ctx now meta action r).1 = rn_artifacts r.
Proof.
  unfold ensureArtifactTenantAccess. case_decide as Ht.
  - split; [|done]. split; [|done]. intros _. left. cbn. by rewrite Ht.
  - split; [apply ensureAccess_spec|]. by rewrite (storeOnly_access ctx now _ action r).
Qed.

(** C11: An artifact is handed to, and deleted for, exactly the callers who may access a run of
    its tenant, that of its metadata or else of its run; for the others the store is left as it
    was found. *)
Theorem artifact_access ctx now id r a a' data meta :
  rn_artifacts r = Some a -> Get (TrimSpace id) a = (a', inl (data, meta)) ->
  ((GetArtifact ctx now id r).2 = inl (data, meta) <-> mayAccess ctx (artifactRun meta r)) /\
  (mayAccess ctx (artifactRun meta r) -> rn_artifacts (DeleteArtifact ctx now id r).1 = Some (Delete (TrimSpace id) a').1) /\
  (~ mayAccess ctx (artifactRun meta r) -> rn_artifacts (DeleteArtifact ctx now id r).1 = Some a' /\
     exists err, (DeleteArtifact ctx now id r).2 = Some err).
Proof.
  intros Ha Hg. unfold GetArtifact, DeleteArtifact, getArtifactStore. rewrite Ha, Hg.
  set (r1 := set_rn_artifacts (Some a') r). assert (Hrun : artifactRun meta r1 = artifactRun meta r) by done. rewrite <- Hrun.
  assert (Hr1 : rn_artifacts r1 = Some a') by done.
  destruct (ensureArtifact_spec ctx now meta "artifact.get" r1) as [Hi1 _].
  destruct (ensureArtifact_spec ctx now meta "artifact.delete" r1) as [Hi2 Hk]. clearbody r1.
  destruct (ensureArtifactTenantAccess ctx now meta "artifact.get" r1) as [r2 e2].
  destruct (ensureArtifactTenantAccess ctx now meta "artifact.delete" r1) as [r3 e3]. cbn [fst snd] in *. split_and!.
  - rewrite <- Hi1. by destruct e2.
  - intros Ho%Hi2. subst e3. by destruct (Delete (TrimSpace id) a').
  - intros Hn. destruct e3 as [err|]; [|by destruct Hn; apply Hi2]. cbn. split; [congruence|by exists err].
Qed.
End runner.
