(* ===== verification/ReleaseSpec.v ===== *)
(** * Releases (properties of WorkflowReleases.v)

    [consistent]: every version a channel names is a version of the channel's workflow.  All
    operations on channels keep it; promotion and rollback are each other's undoing, a canary
    is served to the share of runs it was given, and becomes active only past its gate. *)
From S2P Require Import Prelude Storage Graph EngineStore FileStore Throttle Authz Risk Tools ToolsSpec Runtime Governance.
From S2P Require Import CallContext Gateway Human Admission DagRun Routing SideEffects Lifecycle Evals WorkflowReleases DagStore AdmissionSpec.
From S2P Require Import KVSpec.
From Stdlib Require Import Ascii.

(** What encoding/json documents of strings: valid UTF-8 ([textual]) is read back as it was
    written, and anything read is valid UTF-8, since other bytes are replaced. *)
Definition channelText (textual : string -> Prop) (c : WorkflowReleaseChannel) : Prop :=
  Forall textual ([ch_WorkflowID c; ch_LastEvalRunID c] ++ channelVersions c).
Class ReleaseLaws `{ReleaseJSON} : Type := {
  textual : string -> Prop;
  textual_plain s : plain s -> textual s;
  textual_trim s : textual s -> textual (TrimSpace s);
  channel_round (c : WorkflowReleaseChannel) b :
    channelText textual c -> textual (ch_Environment c) -> marshal c = inl b -> unmarshal b = inl c;
  channel_decoded (c : WorkflowReleaseChannel) b : unmarshal b = inl c -> channelText textual c;
  version_decoded (v : WorkflowReleaseVersion) b : unmarshal b = inl v -> textual (wv_EvalRunID v)
}.

(** ** Buckets *)
Lemma bucket_range parts : 0 <= stableReleasePercentBucket parts < 100.
Proof. apply Z.mod_pos_bound. lia. Qed.

(** ** Channels and their keys *)
Lemma env_plain env e : normalizeWorkflowEnvironment env = inl e -> plain e /\ e <> "" /\ slashFree e /\ TrimSpace e = e.
Proof.
  unfold normalizeWorkflowEnvironment. case_decide as He; [|done]. intros [= <-].
  destruct He as [-> | ->]; split_and!; (plain || done || (apply (bool_decide_eq_true_1 _); vm_compute; reflexivity) || vm_compute; reflexivity).
Qed.
Lemma normalizeEnvironment_idem env e : normalizeWorkflowEnvironment env = inl e -> normalizeWorkflowEnvironment e = inl e.
Proof.
  unfold normalizeWorkflowEnvironment. case_decide as He; [|done]. intros [= <-].
  destruct He as [-> | ->]; vm_compute; reflexivity.
Qed.
Lemma channelKey_trim wf env e : normalizeWorkflowEnvironment env = inl e ->
  TrimSpace (workflowReleaseChannelKey wf e) = workflowReleaseChannelKey wf e.
Proof.
  intros He. destruct (env_plain _ _ He) as (Hp&Hn&_&Ht). unfold workflowReleaseChannelKey. rewrite Ht.
  assert (forall x y z w : string, x +:+ y +:+ z +:+ w = x +:+ (y +:+ z) +:+ w) as Ha by (intros; by rewrite append_assoc).
  rewrite Ha. by apply TrimSpace_wrap; [plain| | |].
Qed.
Lemma app_inj_r s t q : s +:+ q = t +:+ q -> s = t.
Proof. intros E. apply chars_inj. apply (f_equal chars) in E. rewrite !chars_app in E. by apply app_inv_tail in E. Qed.
Lemma env_tail (s t e e' : string) : slashFree e -> slashFree e' -> s +:+ "/" +:+ e = t +:+ "/" +:+ e' -> s = t /\ e = e'.
Proof.
  intros He He' E. apply (f_equal (fun x => reverse (chars x))) in E. rewrite !chars_app, !reverse_app in E.
  rewrite <- !app_assoc in E.
  assert (forall x, slashFree x -> slashFree (unchars (reverse (chars x)))) as Hr.
  { intros x Hx. unfold slashFree. rewrite chars_unchars. by apply Forall_reverse. }
  destruct (slash_inj (unchars (reverse (chars e))) (unchars (reverse (chars s)))
              (unchars (reverse (chars e'))) (unchars (reverse (chars t)))) as [E1 E2]; [by apply Hr..| |].
  { apply chars_inj. rewrite !chars_app, !chars_unchars. exact E. }
  apply (f_equal (fun x => reverse (chars x))) in E1, E2. rewrite !chars_unchars, !reverse_involutive in E1, E2.
  split; by apply chars_inj.
Qed.
Lemma channelKey_inj wf env wf' env' : slashFree (TrimSpace env) -> slashFree (TrimSpace env') ->
  workflowReleaseChannelKey wf env = workflowReleaseChannelKey wf' env' ->
  TrimSpace wf = TrimSpace wf' /\ TrimSpace env = TrimSpace env'.
Proof. intros He He' E%app_inj_l. by apply env_tail in E. Qed.
Lemma channelKey_under wf env : under "workflow_releases/channels/" (workflowReleaseChannelKey wf env).
Proof. unfold workflowReleaseChannelKey. apply under_app; [plain|done]. Qed.
Lemma versionKey_under id : under "workflow_releases/versions/" (workflowReleaseVersionKey id).
Proof. unfold workflowReleaseVersionKey. apply under_app; [plain|done]. Qed.
Lemma versionIndexKey_under id : under "workflow_releases/versions/" (workflowReleaseVersionIndexKey id).
Proof.
  unfold workflowReleaseVersionIndexKey. change workflowReleaseVersionIndexPrefix with ("workflow_releases/versions/" +:+ "by_workflow/").
  rewrite append_assoc. apply under_app; [plain|done].
Qed.
Lemma channel_not_version k : under "workflow_releases/channels/" k -> ~ under "workflow_releases/versions/" k.
Proof. apart. Qed.
Lemma audit_not_release p k : under "audit/" k -> under ("workflow_releases/" +:+ p) k -> False.
Proof. intros [s E] [t E']. rewrite E in E'. discriminate E'. Qed.

Section releases.
#[local] Set Default Proof Using "Type*".
Context {S F A : Type} `{Store S} `{!KVLaws S} `{ArtifactStore A} `{Ambient} `{MapOrder} `{EngineJSON} `{ToolJSON} `{EvalJSON}.
Context `{ReleaseJSON} `{!ReleaseLaws}.
Implicit Types r : Runner S F A.

Definition released r (workflowID id : string) : Prop :=
  exists v, GetWorkflowReleaseVersion id r = Some (inl v) /\ wv_WorkflowID v = workflowID.
(** The versions a channel names are versions of its workflow. *)
Definition namesVersions r (c : WorkflowReleaseChannel) : Prop :=
  forall id, id ∈ channelVersions c -> TrimSpace id = "" \/ released r (ch_WorkflowID c) (TrimSpace id).
(** A channel is stored for its own workflow and environment, its share of canary runs is a
    percentage, and it is zero without a canary. *)
Definition wellFormed (c : WorkflowReleaseChannel) : Prop :=
  0 <= ch_CanaryPercent c <= 100 /\ (ch_Canary c = "" -> ch_CanaryPercent c = 0) /\ cloneWorkflowReleaseChannel c = c.
Definition consistent r : Prop :=
  forall workflowID env c, GetWorkflowReleaseChannel workflowID env r = inl (Some c) ->
    ch_WorkflowID c = TrimSpace workflowID /\ normalizeWorkflowEnvironment env = inl (ch_Environment c) /\
    wellFormed c /\ namesVersions r c.

(** ** Versions and channels depend on their keys only *)
Lemma GetVersion_kv r r' id :
  (forall k, under "workflow_releases/versions/" k -> kvOf r' k = kvOf r k) ->
  GetWorkflowReleaseVersion id r' = GetWorkflowReleaseVersion id r.
Proof.
  intros Hk. unfold GetWorkflowReleaseVersion. case_decide; [done|].
  by rewrite (getJSONKV_kv _ r r') by apply Hk, versionKey_under.
Qed.
Definition sameVersions r r' : Prop := forall id, GetWorkflowReleaseVersion id r' = GetWorkflowReleaseVersion id r.
Lemma namesVersions_same r r' c : sameVersions r r' -> namesVersions r c -> namesVersions r' c.
Proof. intros Hs Hn id Hid. unfold released. rewrite Hs. by apply Hn. Qed.
Lemma checkVersions_spec wf ids r :
  checkVersions wf ids r = None <-> forall id, id ∈ ids -> TrimSpace id = "" \/ released r wf (TrimSpace id).
Proof.
  induction ids as [|id ids IH]; cbn [checkVersions]; [split; [by intros _ ? ?%elem_of_nil|done]|].
  setoid_rewrite elem_of_cons. unfold released in *.
  destruct (decide (TrimSpace id = "")) as [He|He]; [rewrite IH; naive_solver|].
  destruct (GetWorkflowReleaseVersion (TrimSpace id) r) as [[v|err]|] eqn:Ev.
  - destruct (decide (wv_WorkflowID v <> wf)) as [Hw|Hw].
    + split; [done|]. intros Hall. destruct (Hall id (or_introl eq_refl)) as [?|(v'&Ev'&Hv')]; [done|].
      rewrite Ev in Ev'. injection Ev' as <-. done.
    + apply dec_stable in Hw. rewrite IH. naive_solver.
  - split; [done|]. intros Hall. destruct (Hall id (or_introl eq_refl)) as [?|(v'&Ev'&Hv')]; congruence.
  - split; [done|]. intros Hall. destruct (Hall id (or_introl eq_refl)) as [?|(v'&Ev'&Hv')]; congruence.
Qed.

(** ** Saving a channel *)
Lemma normalizeChannel_facts now c c' : normalizeChannel now c = inl c' ->
  ch_WorkflowID c' = TrimSpace (ch_WorkflowID c) /\ ch_WorkflowID c' <> "" /\
  normalizeWorkflowEnvironment (ch_Environment c) = inl (ch_Environment c') /\
  ch_Active c' = TrimSpace (ch_Active c) /\ ch_Previous c' = TrimSpace (ch_Previous c) /\
  ch_Canary c' = TrimSpace (ch_Canary c) /\
  ch_CanaryPercent c' = (if decide (TrimSpace (ch_Canary c) = "") then 0 else ch_CanaryPercent c) /\
  0 <= ch_CanaryPercent c' <= 100 /\ ch_Shadows c' = dedupeSortedStrings (ch_Shadows c) /\
  ch_AutoRollback c' = ch_AutoRollback c /\ ch_LastEvalRunID c' = TrimSpace (ch_LastEvalRunID c) /\
  cloneWorkflowReleaseChannel c' = c'.
Proof.
  unfold normalizeChannel. case_decide as Hw; [done|].
  destruct (normalizeWorkflowEnvironment (ch_Environment c)) as [e|] eqn:He; [|done].
  destruct (_ || _) eqn:Hp; [done|]. intros [= <-]. cbn -[TrimSpace].
  apply orb_false_iff in Hp as [?%Z.ltb_ge ?%Z.ltb_ge].
  destruct (env_plain _ _ He) as (_&_&_&Het).
  unfold cloneWorkflowReleaseChannel. cbn -[TrimSpace]. rewrite !TrimSpace_idem, Het.
  split_and!; try done; case_decide; lia.
Qed.
Lemma GetChannel_key wf env e r : normalizeWorkflowEnvironment env = inl e -> TrimSpace wf <> "" ->
  GetWorkflowReleaseChannel wf env r =
  match getJSONKV (workflowReleaseChannelKey (TrimSpace wf) e) r with
  | None => inl None
  | Some (inr err) => inr err
  | Some (inl c) => inl (Some (cloneWorkflowReleaseChannel c))
  end.
Proof. intros He Hw. unfold GetWorkflowReleaseChannel. by rewrite decide_False, He by done. Qed.

(** The channel of a workflow and an environment, given up to space and letter case. *)
Definition sameChannel (wf env wf' env' : string) : Prop :=
  TrimSpace wf = TrimSpace wf' /\ normalizeWorkflowEnvironment env = normalizeWorkflowEnvironment env'.
Record savedChannel r r' (c : WorkflowReleaseChannel) : Prop := {
  saved_versions : sameVersions r r';
  saved_names : namesVersions r c;
  saved_other wf env : ~ sameChannel (ch_WorkflowID c) (ch_Environment c) wf env ->
    GetWorkflowReleaseChannel wf env r' = GetWorkflowReleaseChannel wf env r
}.
Lemma SaveChannel_spec now c r r' o : SaveWorkflowReleaseChannel now c r = (r', o) ->
  (r' = r /\ o <> None) \/
  exists c', normalizeChannel now c = inl c' /\ savedChannel r r' c' /\
    (o = None -> channelText textual c' -> GetWorkflowReleaseChannel (ch_WorkflowID c') (ch_Environment c') r' = inl (Some c')) /\
    (channelText textual c' -> forall wf env, sameChannel (ch_WorkflowID c') (ch_Environment c') wf env ->
       GetWorkflowReleaseChannel wf env r' = GetWorkflowReleaseChannel wf env r \/
       GetWorkflowReleaseChannel wf env r' = inl (Some c')).
Proof.
  unfold SaveWorkflowReleaseChannel. destruct (normalizeChannel now c) as [c'|] eqn:En; [|intros [= <- <-]; by left].
  destruct (checkVersions _ _ r) eqn:Ec; [intros [= <- <-]; by left|]. intros E. right. exists c'. split; [done|].
  destruct (normalizeChannel_facts _ _ _ En) as (Hw&Hwn&He&_&_&_&_&_&_&_&_&Hcl).
  pose proof (normalizeEnvironment_idem _ _ He) as He'. destruct (env_plain _ _ He) as (Hpl&_&Hsf&Het).
  assert (TrimSpace (ch_WorkflowID c') = ch_WorkflowID c') as Hwt by (rewrite Hw; apply TrimSpace_idem).
  set (k := workflowReleaseChannelKey (ch_WorkflowID c') (ch_Environment c')) in *.
  assert (TrimSpace k = k) as Hk by by apply (channelKey_trim _ _ _ He).
  assert (r' = (putJSONKV k c' r).1) as Hr' by by rewrite E.
  assert (forall wf env, sameChannel (ch_WorkflowID c') (ch_Environment c') wf env ->
    GetWorkflowReleaseChannel wf env r' = match getJSONKV k r' with
      | None => inl None | Some (inr err) => inr err | Some (inl c) => inl (Some (cloneWorkflowReleaseChannel c)) end /\
    GetWorkflowReleaseChannel wf env r = match getJSONKV k r with
      | None => inl None | Some (inr err) => inr err | Some (inl c) => inl (Some (cloneWorkflowReleaseChannel c)) end) as Hsame.
  { intros wf env [Hsw Hse]. rewrite He' in Hse. rewrite Hwt in Hsw.
    split; (rewrite (GetChannel_key wf env (ch_Environment c')) by (done || by rewrite <- Hsw)); by rewrite <- Hsw. }
  assert (forall r0 b, channelText textual c' -> kvOf r0 k = Some (toString b) -> marshal c' = inl b -> getJSONKV k r0 = Some (inl c')) as Hget.
  { intros r0 b Ht Hkv Hb. rewrite (getJSONKV_put _ _ _ Hkv). by rewrite (channel_round _ _ Ht (textual_plain _ Hpl) Hb). }
  split; [split|split].
  - intros id. apply GetVersion_kv. intros k' Hk'. rewrite Hr'. apply putJSONKV_other. rewrite Hk. intros Heq.
    eapply channel_not_version; [apply (channelKey_under (ch_WorkflowID c') (ch_Environment c'))|].
    fold k. destruct Hk' as [s Hs]. exists s. by rewrite Hk, <- Heq.
  - exact (proj1 (checkVersions_spec _ _ _) Ec).
  - intros wf env Hne. unfold GetWorkflowReleaseChannel. case_decide as Hwf; [done|].
    destruct (normalizeWorkflowEnvironment env) as [e|] eqn:Ee; [|done].
    rewrite (getJSONKV_kv _ r r'); [done|]. rewrite Hr'. apply putJSONKV_other. rewrite Hk, (channelKey_trim _ _ _ Ee).
    intros Heq. destruct (env_plain _ _ Ee) as (_&_&Hsf'&Het').
    apply channelKey_inj in Heq as [E1 E2]; [|by rewrite Het'|by rewrite Het]. rewrite Het, Het' in E2. subst e.
    destruct Hne. split; [by rewrite <- E1, TrimSpace_idem|by rewrite He', Ee].
  - intros -> Ht. destruct (putJSONKV_same k _ _ _ k E eq_refl) as (b&Hb&Hkv).
    destruct (Hsame (ch_WorkflowID c') (ch_Environment c')) as [-> _]; [done|]. rewrite (Hget r' b Ht Hkv Hb). by rewrite Hcl.
  - intros Ht wf env Hs. destruct (Hsame wf env Hs) as [-> ->]. unfold putJSONKV in E.
    destruct (marshal c') as [b|] eqn:Eb; [|injection E as <- _; by left].
    assert (kvOf r' k = kvOf r k \/ kvOf r' k = Some (toString b)) as [Hkv|Hkv].
    { assert (r' = (onStore (PutKV k (toString b)) r).1) as -> by by rewrite E. rewrite !onStore_kv. apply kv_refused. }
    + left. by rewrite (getJSONKV_kv _ r r').
    + right. rewrite (Hget r' b Ht Hkv eq_refl). by rewrite Hcl.
Qed.

(** ** Keeping channels consistent *)
Lemma sameChannel_dec wf env wf' env' : sameChannel wf env wf' env' \/ ~ sameChannel wf env wf' env'.
Proof using.
  unfold sameChannel. destruct (decide (TrimSpace wf = TrimSpace wf')); [|by right; intros [? _]].
  destruct (decide (normalizeWorkflowEnvironment env = normalizeWorkflowEnvironment env')); [by left|by right; intros [_ ?]].
Qed.
(** The text of a channel that is saved or read. *)
Lemma normalizeChannel_text now c c' : channelText textual c -> normalizeChannel now c = inl c' -> channelText textual c'.
Proof.
  intros Ht En. destruct (normalizeChannel_facts _ _ _ En) as (Hw&_&_&Ha&Hp&Hc&_&_&Hs&_&Hl&_). unfold channelText, channelVersions in *. rewrite Hw, Ha, Hp, Hc, Hs, Hl.
  rewrite !Forall_app, !Forall_cons in *. destruct Ht as ((?&?&_)&(?&?&?&_)&Hsh).
  split_and!; auto using textual_trim, textual_plain. apply Forall_forall.
  intros x (_&y&Hy&->)%normalizeStrings_elem. rewrite Forall_forall in Hsh. auto using textual_trim.
Qed.
Lemma GetChannel_text wf env r c : GetWorkflowReleaseChannel wf env r = inl (Some c) -> channelText textual c.
Proof.
  unfold GetWorkflowReleaseChannel. case_decide; [done|]. destruct (normalizeWorkflowEnvironment env) as [e|]; [|done].
  destruct (getJSONKV _ r) as [[c0|]|] eqn:E; try done. intros [= <-].
  assert (exists b, unmarshal b = inl c0) as [b Hb%channel_decoded].
  { apply fmap_Some in E as (raw&_&E). by exists (fromString raw). }
  unfold channelText, channelVersions in *. rewrite !Forall_app, !Forall_cons in *. cbn -[TrimSpace].
  destruct Hb as ((?&?&_)&(?&?&?&_)&Hsh). split_and!; auto using textual_trim.
Qed.
Lemma GetVersion_text id r v : GetWorkflowReleaseVersion id r = Some (inl v) -> textual (wv_EvalRunID v).
Proof.
  unfold GetWorkflowReleaseVersion. case_decide; [done|].
  destruct (getJSONKV _ r) as [[v0|]|] eqn:E; try done. intros [= <-]. cbn -[TrimSpace]. apply textual_trim.
  apply fmap_Some in E as (raw&_&E). by eapply version_decoded.
Qed.
Lemma versionOf_text wf id shown r v : versionOf wf id shown r = inl v -> textual (wv_EvalRunID v).
Proof.
  unfold versionOf. destruct (GetWorkflowReleaseVersion id r) as [[x|]|] eqn:E; try done.
  case_decide; [done|]. intros [= <-]. by eapply GetVersion_text.
Qed.
Lemma textual_empty : textual "".
Proof. apply textual_plain. plain. Qed.
Lemma withVersions_text active previous canary percent lastEval c :
  channelText textual c -> textual active -> textual previous -> textual canary -> textual lastEval ->
  channelText textual (withVersions active previous canary percent lastEval c).
Proof.
  unfold channelText, channelVersions. rewrite !Forall_app, !Forall_cons. cbn. intros ((?&?&_)&_&Hsh) ????.
  split_and!; auto.
Qed.
Lemma channel_texts c : channelText textual c ->
  textual (ch_WorkflowID c) /\ textual (ch_LastEvalRunID c) /\ textual (ch_Active c) /\ textual (ch_Previous c) /\ textual (ch_Canary c).
Proof. unfold channelText, channelVersions. rewrite !Forall_app, !Forall_cons. tauto. Qed.

Lemma SaveChannel_consistent now c r :
  channelText textual c -> consistent r -> consistent (SaveWorkflowReleaseChannel now c r).1.
Proof.
  intros Ht Hc. destruct (SaveWorkflowReleaseChannel now c r) as [r' o] eqn:E.
  apply SaveChannel_spec in E as [[-> _]|(c'&En&[Hv Hn Ho]&_&Hs)]; [done|]. intros wf env x Hx. cbn [fst] in Hx.
  assert (ch_WorkflowID x = TrimSpace wf /\ normalizeWorkflowEnvironment env = inl (ch_Environment x) /\
          wellFormed x /\ namesVersions r x) as (?&?&?&?); [|split_and!; try done; by apply (namesVersions_same r)].
  destruct (sameChannel_dec (ch_WorkflowID c') (ch_Environment c') wf env) as [Hsame|Hne].
  - destruct (Hs (normalizeChannel_text _ _ _ Ht En) wf env Hsame) as [E|E]; rewrite E in Hx; [by apply Hc in Hx|]. injection Hx as <-.
    destruct (normalizeChannel_facts _ _ _ En) as (Hw&_&He&_&_&Hcan&Hper&Hran&_&_&_&Hcl). destruct Hsame as [Hsw Hse].
    split; [by rewrite <- Hsw, Hw, TrimSpace_idem|]. split; [rewrite <- Hse; by eapply normalizeEnvironment_idem|].
    split; [|done]. split; [done|]. split; [|done]. rewrite Hper, Hcan. intros ->. by rewrite decide_True.
  - rewrite Ho in Hx by done. by apply Hc in Hx.
Qed.
Lemma audit_releases ctx now rec r :
  sameVersions r (appendAuditRecord ctx now rec r) /\
  forall wf env, GetWorkflowReleaseChannel wf env (appendAuditRecord ctx now rec r) = GetWorkflowReleaseChannel wf env r.
Proof.
  split.
  - intros id. apply GetVersion_kv. intros k Hk. apply audit_outside. intros Ha. exact (audit_not_release "versions/" _ Ha Hk).
  - intros wf env. unfold GetWorkflowReleaseChannel. case_decide; [done|].
    destruct (normalizeWorkflowEnvironment env) as [e|]; [|done].
    rewrite (getJSONKV_kv _ r); [done|]. apply audit_outside. intros Ha. exact (audit_not_release "channels/" _ Ha (channelKey_under _ _)).
Qed.
Lemma consistent_same r r' :
  sameVersions r r' -> (forall wf env, GetWorkflowReleaseChannel wf env r' = GetWorkflowReleaseChannel wf env r) ->
  consistent r -> consistent r'.
Proof.
  intros Hv Hg Hc wf env c Hx. rewrite Hg in Hx. destruct (Hc _ _ _ Hx) as (?&?&?&?).
  split_and!; try done. by apply (namesVersions_same r).
Qed.
Lemma saveChange_consistent ctx now wf env action reason c r :
  channelText textual c -> consistent r -> consistent (saveChange ctx now wf env action reason c r).1.
Proof.
  intros Ht Hc. unfold saveChange. pose proof (SaveChannel_consistent now c r Ht Hc) as Hs.
  destruct (SaveWorkflowReleaseChannel now c r) as [r' [err|]]; [done|]. cbn [fst] in Hs |- *.
  eapply consistent_same; [apply audit_releases..|exact Hs].
Qed.

Lemma promoted_text wf env wf' id id' shown r v c :
  textual wf -> textual id -> versionOf wf' id' shown r = inl v -> GetWorkflowReleaseChannel wf env r = inl c ->
  channelText textual (promoted v id (default (newChannel wf env) c)).
Proof.
  intros Hw Hi Hv%versionOf_text Hg.
  assert (channelText textual (default (newChannel wf env) c)) as Hc.
  { destruct c as [c|]; [by eapply GetChannel_text|].
    unfold channelText, channelVersions. rewrite !Forall_app, !Forall_cons. cbn. split_and!; auto using textual_empty. }
  destruct (channel_texts _ Hc) as (?&?&?&?&?). unfold promoted. apply withVersions_text; auto using textual_empty.
  by case_decide.
Qed.
Lemma promote_consistent ctx now wf env id r :
  textual wf -> textual id -> consistent r -> consistent (PromoteWorkflowRelease ctx now wf env id r).1.
Proof.
  intros Hw Hi Hc. unfold PromoteWorkflowRelease. case_decide; [done|]. destruct (versionOf _ _ _ r) eqn:Ev; [|done].
  destruct (GetWorkflowReleaseChannel _ _ r) eqn:Eg; [|done]. apply saveChange_consistent; [|done].
  eapply promoted_text; eauto using textual_trim.
Qed.
(** C27: Whatever their outcome, saving a channel, promoting a version, rolling back and finishing a
    canary leave every channel as one of its own workflow and environment, with versions of that
    workflow only and a share of canary runs that is a percentage.  The identifiers that are
    given, and those of the channel that is saved, are valid UTF-8. *)
Theorem channel_operations_consistent ctx now wf env id c r :
  textual wf -> textual id -> channelText textual c -> consistent r ->
  consistent (SaveWorkflowReleaseChannel now c r).1 /\
  consistent (PromoteWorkflowRelease ctx now wf env id r).1 /\
  consistent (RollbackWorkflowRelease ctx now wf env id r).1 /\
  consistent (FinalizeWorkflowCanaryWithEvalGate ctx now id wf env r).1.
Proof.
  intros Hw Hi Ht Hc. split_and!.
  - by apply SaveChannel_consistent.
  - by apply promote_consistent.
  - unfold RollbackWorkflowRelease. destruct (GetWorkflowReleaseChannel _ _ r) as [[x|]|] eqn:Eg; try done.
    apply GetChannel_text in Eg. destruct (channel_texts _ Eg) as (?&?&?&?&?).
    case_decide; [done|]. destruct (versionOf _ _ _ r); [|done]. apply saveChange_consistent; [|done].
    apply withVersions_text; auto using textual_empty. case_decide; auto using textual_trim.
  - unfold FinalizeWorkflowCanaryWithEvalGate. destruct (GetEvalReport id r) as [[x|]|]; try done. case_decide; [done|].
    destruct (GetWorkflowReleaseChannel _ _ r) as [[y|]|] eqn:Eg; try done. case_decide; [done|].
    apply GetChannel_text in Eg. destruct (channel_texts _ Eg) as (?&?&?&?&?).
    destruct (evr_Passed x); [|destruct (ch_AutoRollback y); [|done]];
      match goal with |- context [saveChange ?a ?b ?c ?d ?e ?f ?g ?h] =>
        assert (consistent (saveChange a b c d e f g h).1) as Hs
          by (apply saveChange_consistent; [apply withVersions_text; auto using textual_empty, textual_trim|done]);
        by destruct (saveChange a b c d e f g h) as [? []] end.
Qed.

(** Saving a version leaves the channels alone, and channels that do not name it consistent. *)
Lemma SaveVersion_channels decodeSpec now v r wf env :
  GetWorkflowReleaseChannel wf env (SaveWorkflowReleaseVersion decodeSpec now v r).1 = GetWorkflowReleaseChannel wf env r.
Proof.
  assert (forall r', outside "workflow_releases/versions/" r r' ->
    GetWorkflowReleaseChannel wf env r' = GetWorkflowReleaseChannel wf env r) as Hout.
  { intros r' Hk. unfold GetWorkflowReleaseChannel. case_decide; [done|].
    destruct (normalizeWorkflowEnvironment env) as [e|]; [|done].
    rewrite (getJSONKV_kv _ r); [done|]. apply Hk, channel_not_version, channelKey_under. }
  unfold SaveWorkflowReleaseVersion.
  assert (forall T (x : option T) get (r0 : Runner S F A), outside "workflow_releases/versions/" r r0 ->
            (forall r1, rn_store (get r1).1 = rn_store r1) -> outside "workflow_releases/versions/" r (inForce x get r0).1) as Hf.
  { intros T x get r0 Ho Hget k Hk. rewrite <- (Ho k Hk). unfold inForce. destruct x; [done|]. specialize (Hget r0).
    unfold kvOf. by destruct (get r0) as [? []]; cbn in *; rewrite Hget. }
  pose proof (Hf _ (wv_ToolGateway v) (GetToolGatewayBundle now) r ltac:(done)) as H1'.
  destruct (inForce (wv_ToolGateway v) _ r) as [r1 tool]. cbn [fst] in H1'.
  specialize (H1' ltac:(intros x; unfold GetToolGatewayBundle; repeat case_match; done)).
  pose proof (Hf _ (wv_Authorization v) GetAuthorizationPolicy r1 H1') as H2'.
  destruct (inForce (wv_Authorization v) _ r1) as [r2 auth]. cbn [fst] in H2'.
  specialize (H2' ltac:(intros x; unfold GetAuthorizationPolicy; repeat case_match; done)).
  pose proof (Hf _ (wv_Risk v) GetRiskPolicy r2 H2') as H3'.
  destruct (inForce (wv_Risk v) _ r2) as [r3 risk]. cbn [fst] in H3'.
  specialize (H3' ltac:(intros x; unfold GetRiskPolicy; repeat case_match; done)).
  destruct (normalizeVersion _ _ _) as [v'|]; [|by apply Hout].
  pose proof (putJSONKV_outside _ _ v' r3 (versionKey_under (wv_ID v'))) as H4'.
  destruct (putJSONKV _ v' r3) as [r4 [|]]; cbn [fst] in *; [apply Hout; by eapply outside_trans|].
  pose proof (upsertIndexID_outside _ _ (wv_ID v') r4 (versionIndexKey_under (wv_WorkflowID v'))) as H5'.
  destruct (upsertIndexID _ _ r4) as [r5 [|]]; cbn [fst] in *;
    rewrite ?(proj2 (audit_releases _ _ _ _)); apply Hout; eauto using outside_trans.
Qed.
Lemma consistent_empty r : (forall wf env c, GetWorkflowReleaseChannel wf env r <> inl (Some c)) -> consistent r.
Proof. intros Hn wf env c Hc. by apply Hn in Hc. Qed.

(** So does every step elsewhere. *)
Lemma consistent_outside p r r' :
  (forall k, under "workflow_releases/" k -> ~ under p k) -> outside p r r' -> consistent r -> consistent r'.
Proof.
  intros Hp Ho. apply consistent_same.
  - intros id. apply GetVersion_kv. intros k Hk. by eapply Ho, Hp, (under_weaken _ "versions/").
  - intros wf env. unfold GetWorkflowReleaseChannel. case_decide; [done|].
    destruct (normalizeWorkflowEnvironment env) as [e|]; [|done].
    rewrite (getJSONKV_kv _ r); [done|]. by eapply Ho, Hp, (under_weaken _ "channels/"), channelKey_under.
Qed.

(** ** Promotion and rollback *)
Lemma SaveChannel_put now c c' r : normalizeChannel now c = inl c' -> namesVersions r c' ->
  SaveWorkflowReleaseChannel now c r = putJSONKV (workflowReleaseChannelKey (ch_WorkflowID c') (ch_Environment c')) c' r.
Proof. intros En Hn. unfold SaveWorkflowReleaseChannel. rewrite En. by rewrite (proj2 (checkVersions_spec _ _ _)) by exact Hn. Qed.
(** A change that was made: the normalised channel is the stored one. *)
Lemma saveChange_done ctx now wf env action reason c r r' x :
  channelText textual c -> TrimSpace (ch_WorkflowID c) = TrimSpace wf ->
  normalizeWorkflowEnvironment (ch_Environment c) = normalizeWorkflowEnvironment env ->
  saveChange ctx now wf env action reason c r = (r', inl x) ->
  normalizeChannel now c = inl x /\ namesVersions r x /\ sameVersions r r' /\
  GetWorkflowReleaseChannel wf env r' = inl (Some x) /\
  forall wf' env', ~ sameChannel wf env wf' env' -> GetWorkflowReleaseChannel wf' env' r' = GetWorkflowReleaseChannel wf' env' r.
Proof.
  intros Ht Hw He. unfold saveChange. destruct (SaveWorkflowReleaseChannel now c r) as [r1 [err|]] eqn:E; [done|].
  apply SaveChannel_spec in E as [[_ ?]|(c'&En&[Hv Hn Ho]&Hg&_)]; [done|]. specialize (Hg eq_refl (normalizeChannel_text _ _ _ Ht En)).
  destruct (normalizeChannel_facts _ _ _ En) as (Hw'&Hne&He'&_).
  assert (sameChannel (ch_WorkflowID c') (ch_Environment c') wf env) as Hs.
  { split; [by rewrite Hw', TrimSpace_idem|]. rewrite (normalizeEnvironment_idem _ _ He'). by rewrite <- He', He. }
  unfold reread. match goal with |- (appendAuditRecord ?a ?b ?d ?e, _) = _ -> _ => destruct (audit_releases a b d e) as [Hv' Hg'] end.
  intros [= <- Hx]. rewrite Hg' in Hx.
  assert (GetWorkflowReleaseChannel wf env r1 = inl (Some c')) as Hg1.
  { rewrite <- Hg. destruct Hs as [Hs1 Hs2]. unfold GetWorkflowReleaseChannel. by rewrite Hs1, Hs2. }
  rewrite Hg1 in Hx. injection Hx as <-. split; [done|]. split; [done|]. split; [intros id; by rewrite Hv'|].
  split; [by rewrite Hg'|]. intros wf' env' Hne'. rewrite Hg'. apply Ho. intros [? ?]. apply Hne'. destruct Hs. split; congruence.
Qed.
Lemma wf_trim c : wellFormed c -> TrimSpace (ch_Active c) = ch_Active c /\ TrimSpace (ch_Previous c) = ch_Previous c /\
  TrimSpace (ch_Canary c) = ch_Canary c.
Proof.
  intros (_&_&Hc). unfold cloneWorkflowReleaseChannel in Hc.
  split_and!; [exact (f_equal ch_Active Hc)|exact (f_equal ch_Previous Hc)|exact (f_equal ch_Canary Hc)].
Qed.
Lemma promoted_spec ctx now wf env id r r1 c1 c0 :
  textual wf -> textual id -> consistent r -> GetWorkflowReleaseChannel wf env r = inl (Some c0) ->
  PromoteWorkflowRelease ctx now wf env id r = (r1, inl c1) ->
  released r (TrimSpace wf) (TrimSpace id) /\ sameVersions r r1 /\ GetWorkflowReleaseChannel wf env r1 = inl (Some c1) /\
  ch_Active c1 = TrimSpace id /\ ch_Canary c1 = "" /\ ch_CanaryPercent c1 = 0 /\
  ch_Previous c1 = (if decide (ch_Active c0 <> "" /\ ch_Active c0 <> TrimSpace id) then ch_Active c0 else ch_Previous c0) /\
  forall wf' env', ~ sameChannel wf env wf' env' -> GetWorkflowReleaseChannel wf' env' r1 = GetWorkflowReleaseChannel wf' env' r.
Proof.
  intros Htw Hti Hc Hg. unfold PromoteWorkflowRelease. case_decide as Hn; [done|].
  unfold versionOf at 1. destruct (GetWorkflowReleaseVersion (TrimSpace id) r) as [[v|]|] eqn:Ev; try done.
  destruct (decide (wv_WorkflowID v <> TrimSpace wf)) as [Hw|Hw]; [done|]. apply dec_stable in Hw.
  assert (GetWorkflowReleaseChannel (TrimSpace wf) env r = inl (Some c0)) as Hg0.
  { rewrite <- Hg. unfold GetWorkflowReleaseChannel. by rewrite TrimSpace_idem. }
  assert (channelText textual (promoted v (TrimSpace id) (default (newChannel (TrimSpace wf) env) (Some c0)))) as Htx.
  { eapply (promoted_text _ env (TrimSpace wf) _ (TrimSpace id) (TrimSpace wf) r); eauto using textual_trim.
    unfold versionOf. by rewrite Ev, decide_False by tauto. }
  rewrite Hg0. cbn [default] in *. destruct (Hc _ _ _ Hg) as (Hcw&Hce&Hwf&_). destruct (wf_trim _ Hwf) as (Ha&Hp&_). intros E.
  apply saveChange_done in E as (En&_&Hv&Hg1&Ho); [|exact Htx|simpl; by rewrite Hcw, TrimSpace_idem|simpl; rewrite Hce; by apply (normalizeEnvironment_idem _ _ Hce)].
  destruct (normalizeChannel_facts _ _ _ En) as (_&_&_&Hact&Hprev&Hcan&Hper&_). cbn -[TrimSpace] in *.
  split; [by exists v|]. split; [done|].
  assert (forall r, GetWorkflowReleaseChannel (TrimSpace wf) env r = GetWorkflowReleaseChannel wf env r) as Hgt
    by (intros; unfold GetWorkflowReleaseChannel; by rewrite TrimSpace_idem).
  split; [by rewrite <- Hgt|]. rewrite Hact, Hcan, Hper, Hprev, TrimSpace_idem. split_and!; try done.
  - rewrite Ha. repeat case_decide; tauto || exact Ha || exact Hp.
  - intros wf' env' Hne. apply Ho. intros [? ?]. apply Hne. split; [by rewrite <- TrimSpace_idem|done].
Qed.

(** A write of a channel is refused by the store, or by its encoding. *)
Definition refused (c : WorkflowReleaseChannel) r (err : error) : Prop :=
  (putJSONKV (workflowReleaseChannelKey (ch_WorkflowID c) (ch_Environment c)) c r).2 = Some err.
Lemma rollback_spec ctx now wf env r c :
  consistent r -> GetWorkflowReleaseChannel wf env r = inl (Some c) -> ch_Previous c <> "" ->
  match RollbackWorkflowRelease ctx now wf env "" r with
  | (r', inl c') => ch_Active c' = ch_Previous c /\ ch_Previous c' = ch_Active c /\ ch_Canary c' = "" /\
                    ch_CanaryPercent c' = 0 /\ GetWorkflowReleaseChannel wf env r' = inl (Some c')
  | (r', inr err) => exists c', ch_Active c' = ch_Previous c /\ refused c' r err
  end.
Proof.
  intros Hc Hg Hp. destruct (Hc _ _ _ Hg) as (Hcw&Hce&Hwf&Hn). destruct (wf_trim _ Hwf) as (Ha&Hpt&_).
  assert (released r (TrimSpace wf) (ch_Previous c)) as (v&Ev&Hv).
  { destruct (Hn (ch_Previous c)) as [E|E]; [by right; left|congruence|]. by rewrite Hpt, Hcw in E. }
  unfold RollbackWorkflowRelease. rewrite Hg. rewrite (decide_True (P := TrimSpace "" = "")) by done.
  rewrite Hpt, decide_False by done. unfold versionOf. rewrite Ev, decide_False by tauto.
  set (c1 := withVersions _ _ _ _ _ _).
  assert (channelText textual c1) as Ht.
  { pose proof (GetChannel_text _ _ _ _ Hg) as Hx. destruct (channel_texts _ Hx) as (?&?&?&?&?).
    apply withVersions_text; auto using textual_empty. }
  assert (TrimSpace (ch_WorkflowID c1) = TrimSpace wf) as Hw1 by (simpl; by rewrite Hcw, TrimSpace_idem).
  assert (normalizeWorkflowEnvironment (ch_Environment c1) = normalizeWorkflowEnvironment env) as He1
    by (simpl; rewrite Hce; by apply (normalizeEnvironment_idem _ _ Hce)).
  destruct (saveChange _ _ _ _ _ _ c1 r) as [r' [c'|err]] eqn:E.
  - apply saveChange_done in E as (En&_&_&Hg1&_); [|exact Ht|done|done].
    destruct (normalizeChannel_facts _ _ _ En) as (_&_&_&Hact&Hprev&Hcan&Hper&_). cbn -[TrimSpace] in *.
    rewrite Hact, Hprev, Hcan, Hper, Ha, Hpt. by split_and!.
  - destruct Hwf as (Hran&_&Hcl).
    assert (exists c', normalizeChannel now c1 = inl c' /\ namesVersions r c' /\ ch_Active c' = ch_Previous c) as (c'&En&Hn'&Hac).
    { destruct (normalizeChannel now c1) as [c'|] eqn:En.
      - exists c'. split; [done|]. destruct (normalizeChannel_facts _ _ _ En) as (Hw'&_&_&Hact&Hprev&Hcan&_&_&Hsh&_).
        cbn -[TrimSpace] in *. split; [|by rewrite Hact]. intros id Hid. unfold channelVersions in Hid.
        rewrite Hact, Hprev, Hcan, Ha, Hpt in Hid. rewrite Hw', Hcw, TrimSpace_idem.
        assert (id = "" \/ id ∈ channelVersions c \/ exists s, s ∈ ch_Shadows c /\ id = TrimSpace s) as [->|[Hin|(s&Hs&->)]].
        { rewrite Hsh in Hid. unfold channelVersions. apply elem_of_app in Hid as [Hid|Hid].
          - assert (id = ch_Previous c \/ id = ch_Active c \/ id = "") by set_solver. set_solver.
          - unfold dedupeSortedStrings in Hid. apply normalizeStrings_elem in Hid as (_&s&Hs&->). eauto. }
        + by left.
        + destruct (Hn id Hin) as [?|Hr]; [by left|right]. by rewrite Hcw in Hr.
        + rewrite TrimSpace_idem. destruct (Hn s) as [?|Hr]; [apply elem_of_app; by right|by left|right]. by rewrite Hcw in Hr.
      - exfalso. unfold normalizeChannel in En. rewrite decide_False in En by (simpl; rewrite Hcw, TrimSpace_idem; intros Hz;
          unfold GetWorkflowReleaseChannel in Hg; by rewrite decide_True in Hg). rewrite He1, Hce in En. cbn in En. discriminate En. }
    exists c'. split; [exact Hac|]. unfold refused. rewrite <- (SaveChannel_put _ _ _ _ En Hn').
    unfold saveChange in E. destruct (SaveWorkflowReleaseChannel now c1 r) as [r1 [e|]] eqn:Es; [by injection E as _ <-|].
    exfalso. unfold reread in E. injection E as _ E.
    apply SaveChannel_spec in Es as [[_ ?]|(c2&En2&_&Hg2&_)]; [done|]. specialize (Hg2 eq_refl (normalizeChannel_text _ _ _ Ht En2)).
    destruct (normalizeChannel_facts _ _ _ En2) as (Hw2&_&He2&_).
    assert (GetWorkflowReleaseChannel wf env r1 = inl (Some c2)) as Hg3.
    { rewrite <- Hg2. unfold GetWorkflowReleaseChannel. by rewrite Hw2, Hw1, TrimSpace_idem, <- He1, He2, (normalizeEnvironment_idem _ _ He2). }
    rewrite (proj2 (audit_releases _ _ _ _)), Hg3 in E. discriminate E.
Qed.

(** A rollback undoes a promotion: the version that was active before is active again, the
    promoted one is the previous one, and there is no canary; nothing but a refusal of the store
    can prevent it. *)
Theorem rollback_undoes_promotion ctx ctx' now now' wf env id r r1 c0 c1 :
  textual wf -> textual id -> consistent r -> GetWorkflowReleaseChannel wf env r = inl (Some c0) ->
  ch_Active c0 <> "" -> ch_Active c0 <> TrimSpace id ->
  PromoteWorkflowRelease ctx now wf env id r = (r1, inl c1) ->
  ch_Active c1 = TrimSpace id /\ ch_Previous c1 = ch_Active c0 /\
  match RollbackWorkflowRelease ctx' now' wf env "" r1 with
  | (r2, inl c2) => ch_Active c2 = ch_Active c0 /\ ch_Previous c2 = TrimSpace id /\ ch_Canary c2 = "" /\
                    ch_CanaryPercent c2 = 0 /\ GetWorkflowReleaseChannel wf env r2 = inl (Some c2)
  | (_, inr err) => exists c2, ch_Active c2 = ch_Active c0 /\ refused c2 r1 err
  end.
Proof.
  intros Hw Hi Hc Hg Hne Hne' E.
  destruct (promoted_spec _ _ _ _ _ _ _ _ _ Hw Hi Hc Hg E) as (_&_&Hg1&Hact&_&_&Hprev&_).
  rewrite decide_True in Hprev by done. split; [done|]. split; [done|].
  assert (consistent r1) as Hc1.
  { pose proof (promote_consistent ctx now wf env id r Hw Hi Hc) as Hp. by rewrite E in Hp. }
  pose proof (rollback_spec ctx' now' wf env r1 c1 Hc1 Hg1 ltac:(by rewrite Hprev)) as Hr.
  destruct (RollbackWorkflowRelease ctx' now' wf env "" r1) as [r2 [c2|err]].
  - destruct Hr as (->&->&?&?&?). by rewrite Hprev, Hact.
  - by rewrite <- Hprev.
Qed.

(** ** The choice of a version *)
Definition bucketOf (wf env runID : string) : Z :=
  stableReleasePercentBucket [wf; env; if decide (TrimSpace runID = "") then "resolution" else TrimSpace runID].
Lemma Resolve_unfold wf env runID r c :
  consistent r -> GetWorkflowReleaseChannel wf env r = inl (Some c) -> ch_Active c <> "" \/ ch_Canary c <> "" ->
  let canary := negb (bool_decide (ch_Canary c = "")) && (bucketOf wf env runID <? ch_CanaryPercent c) in
  exists res, ResolveWorkflowRelease wf env runID r = inl res /\ re_Canary res = canary /\
    re_Environment res = ch_Environment c /\ re_Shadows res = ch_Shadows c /\
    re_Primary res = (if canary then ch_Canary c else if decide (ch_Active c = "") then ch_Canary c else ch_Active c).
Proof.
  intros Hc Hg Hor. destruct (Hc _ _ _ Hg) as (_&_&Hwf&_). destruct (wf_trim _ Hwf) as (Ha&_&Hcan).
  unfold ResolveWorkflowRelease. rewrite Hg, Ha, Hcan, decide_False by tauto. fold (bucketOf wf env runID).
  assert (0 <= bucketOf wf env runID) as Hb by apply bucket_range.
  assert ((0 <? ch_CanaryPercent c) && (bucketOf wf env runID <? ch_CanaryPercent c) =
          (bucketOf wf env runID <? ch_CanaryPercent c)) as Hlt by lia.
  rewrite <- andb_assoc, Hlt. eexists. split; [reflexivity|]. do 3 (split; [done|]). cbn [re_Primary].
  destruct (bool_decide_reflect (ch_Canary c = "")) as [E|E]; cbn [negb andb].
  - destruct (decide (ch_Active c = "")); [done|done].
  - destruct (bucketOf wf env runID <? ch_CanaryPercent c); [by rewrite decide_False|done].
Qed.

(** C28: A run whose bucket is below the share of the canary is given the canary.  Any other run is
    given the active version, or, where no version is active, the canary although its bucket is
    not below the share; it is not marked as a canary run then.  The version is one of the
    workflow, all runs get a canary with a share of 100, and a run that gets the canary for its
    bucket still gets it when the share grows. *)
Theorem ResolveWorkflowRelease_exact wf env runID r c :
  consistent r -> GetWorkflowReleaseChannel wf env r = inl (Some c) -> ch_Active c <> "" \/ ch_Canary c <> "" ->
  exists res, ResolveWorkflowRelease wf env runID r = inl res /\
    re_Environment res = ch_Environment c /\ re_Shadows res = ch_Shadows c /\
    let below := ch_Canary c <> "" /\ bucketOf wf env runID < ch_CanaryPercent c in
    (re_Canary res = true <-> below) /\
    (below -> re_Primary res = ch_Canary c) /\
    (~ below -> ch_Active c <> "" -> re_Primary res = ch_Active c) /\
    (~ below -> ch_Active c = "" -> re_Primary res = ch_Canary c) /\
    released r (TrimSpace wf) (re_Primary res) /\
    (ch_Canary c <> "" -> ch_CanaryPercent c = 100 -> re_Canary res = true) /\
    forall r' c' res', consistent r' -> GetWorkflowReleaseChannel wf env r' = inl (Some c') -> ch_Canary c' = ch_Canary c ->
      ch_CanaryPercent c <= ch_CanaryPercent c' -> ResolveWorkflowRelease wf env runID r' = inl res' ->
      re_Canary res = true -> re_Canary res' = true /\ re_Primary res' = re_Primary res.
Proof.
  intros Hc Hg Hor. destruct (Resolve_unfold wf env runID r c Hc Hg Hor) as (res&Hres&Hcan&Henv&Hsh&Hprim).
  destruct (Hc _ _ _ Hg) as (Hcw&_&Hwf&Hn). destruct (wf_trim _ Hwf) as (Hat&_&Hct).
  pose proof (bucket_range [wf; env; if decide (TrimSpace runID = "") then "resolution" else TrimSpace runID]) as Hb.
  fold (bucketOf wf env runID) in Hb. exists res. split; [done|]. split; [done|]. split; [done|]. cbv zeta.
  assert (re_Canary res = true <-> ch_Canary c <> "" /\ bucketOf wf env runID < ch_CanaryPercent c) as Hiff.
  { rewrite Hcan, andb_true_iff, negb_true_iff, bool_decide_eq_false, Z.ltb_lt. tauto. }
  rewrite <- Hcan in Hprim. split; [exact Hiff|]. rewrite <- Hiff.
  split; [by intros E; rewrite Hprim, E|].
  split; [by intros E%not_true_iff_false Ha; rewrite Hprim, E, decide_False|].
  split; [by intros E%not_true_iff_false Ha; rewrite Hprim, E, decide_True|]. split.
  - assert (forall id, id ∈ channelVersions c -> id <> "" -> TrimSpace id = id -> released r (TrimSpace wf) id) as Hrel.
    { intros id Hid Hne Ht. rewrite <- Hcw. destruct (Hn id Hid) as [E|E]; rewrite Ht in E; [done|exact E]. }
    rewrite Hprim. destruct (re_Canary res).
    + apply Hrel; [set_solver|tauto|done].
    + case_decide; [apply Hrel; [set_solver|tauto|done]|apply Hrel; [set_solver|done|done]].
  - split; [intros ? Hp; apply Hiff; split; [done|lia]|].
    intros r' c' res' Hc' Hg' Hsame Hle Hr' Ht. apply Hiff in Ht as [Hne Hlt].
    destruct (Resolve_unfold wf env runID r' c' Hc' Hg') as (res2&Hres2&Hcan2&_&_&Hprim2); [right; congruence|].
    rewrite Hr' in Hres2. injection Hres2 as <-.
    assert (negb (bool_decide (ch_Canary c' = "")) && (bucketOf wf env runID <? ch_CanaryPercent c') = true) as E2.
    { rewrite andb_true_iff, negb_true_iff, bool_decide_eq_false, Z.ltb_lt. split; [congruence|lia]. }
    rewrite E2 in Hcan2, Hprim2. split; [done|]. by rewrite Hprim2, Hprim, (proj2 Hiff (conj Hne Hlt)).
Qed.

(** ** The gate of a canary *)
(** A canary is finished only on a completed report: it becomes the active version when the
    report passed, and is dropped, with the active version as it was, when it did not and the
    channel rolls back by itself.  Otherwise the channel stays as it is. *)
Theorem canary_gated ctx now evalRunID wf env r c r' res :
  textual evalRunID -> consistent r -> GetWorkflowReleaseChannel wf env r = inl (Some c) ->
  FinalizeWorkflowCanaryWithEvalGate ctx now evalRunID wf env r = (r', res) ->
  match res with
  | inl (c', action) =>
    exists x, GetEvalReport evalRunID r = Some (inl x) /\ evr_Status x = "completed" /\ ch_Canary c <> "" /\
      GetWorkflowReleaseChannel wf env r' = inl (Some c') /\ ch_Canary c' = "" /\ ch_CanaryPercent c' = 0 /\
      (evr_Passed x = true /\ action = "promoted" /\ ch_Active c' = ch_Canary c /\ ch_Previous c' = ch_Active c \/
       evr_Passed x = false /\ ch_AutoRollback c = true /\ action = "rolled_back" /\
       ch_Active c' = ch_Active c /\ ch_Previous c' = ch_Previous c)
  | inr _ => r' = r \/ exists x, GetEvalReport evalRunID r = Some (inl x) /\ evr_Status x = "completed" /\
                        (evr_Passed x = true \/ ch_AutoRollback c = true)
  end.
Proof.
  intros Ht Hc Hg. destruct (Hc _ _ _ Hg) as (Hcw&Hce&Hwf&_). destruct (wf_trim _ Hwf) as (Ha&Hp&Hcan).
  pose proof (GetChannel_text _ _ _ _ Hg) as Hx. destruct (channel_texts _ Hx) as (?&?&?&?&?).
  unfold FinalizeWorkflowCanaryWithEvalGate. destruct (GetEvalReport evalRunID r) as [[x|err]|]; try (intros [= <- <-]; by left).
  destruct (decide (evr_Status x <> "completed")) as [|Hst]; [intros [= <- <-]; by left|]. apply dec_stable in Hst.
  rewrite Hg, Hcan. destruct (decide (ch_Canary c = "")); [intros [= <- <-]; by left|].
  assert (forall c1 action reason, channelText textual c1 -> ch_WorkflowID c1 = ch_WorkflowID c -> ch_Environment c1 = ch_Environment c ->
            forall r1 c2, saveChange ctx now wf env action reason c1 r = (r1, inl c2) ->
            normalizeChannel now c1 = inl c2 /\ GetWorkflowReleaseChannel wf env r1 = inl (Some c2)) as Hsave.
  { intros c1 action reason Hx1 Hw He r1 c2 E. apply saveChange_done in E as (?&_&_&?&_); [done|exact Hx1| |].
    - by rewrite Hw, Hcw, TrimSpace_idem.
    - rewrite He, Hce. by apply (normalizeEnvironment_idem _ _ Hce). }
  destruct (evr_Passed x) eqn:Epass; [|destruct (ch_AutoRollback c) eqn:Eauto; [|intros [= <- <-]; by left]].
  all: match goal with |- context [saveChange ?a ?b ?e ?f ?g ?h ?i ?j] =>
         specialize (Hsave i g h ltac:(apply withVersions_text; auto using textual_empty, textual_trim) eq_refl eq_refl); destruct (saveChange a b e f g h i j) as [r1 [c2|err]] end;
       intros [= <- <-]; [|by right; eauto].
  all: destruct (Hsave _ _ eq_refl) as [En Hg1]; exists x; split_and!; try done.
  all: destruct (normalizeChannel_facts _ _ _ En) as (_&_&_&Hact&Hprev&Hcan'&Hper&_); cbn -[TrimSpace] in *; try done.
  - left. by rewrite Hact, Hprev, Hcan, Ha.
  - right. by rewrite Hact, Hprev, Ha, Hp.
Qed.

(** ** Shadow runs *)
Lemma Normalize_tenant p : p_TenantID (Normalize p) = TrimSpace (p_TenantID p).
Proof using. done. Qed.
Lemma cloned_tenant (ctx : CallCtx) :
  effectiveTenantFromContext (cloneReleaseExecutionContext ctx) = effectiveTenantFromContext ctx.
Proof using.
  assert (TrimSpace (effectiveTenantFromContext ctx) = effectiveTenantFromContext ctx) as Ht.
  { unfold effectiveTenantFromContext. case_decide; [apply TrimSpace_idem|]. destruct (PrincipalFrom ctx); [apply TrimSpace_idem|done]. }
  assert (forall b : Ctx, cx_Principal b = None -> TrimSpace (cx_TenantID b) = effectiveTenantFromContext ctx ->
    effectiveTenantFromContext (match PrincipalFrom ctx with None => b | Some p => WithPrincipal p b end) =
    effectiveTenantFromContext ctx) as Hb.
  { intros b Hp Hbt. destruct (PrincipalFrom ctx) as [p|] eqn:Ep; unfold effectiveTenantFromContext at 1; cbn -[TrimSpace];
      rewrite Hbt; (case_decide as Hd; [done|]); rewrite Hd; [|unfold PrincipalFrom; by rewrite Hp].
    unfold effectiveTenantFromContext in Hd. case_decide as Hd'; [congruence|]. rewrite Ep in Hd. by rewrite !TrimSpace_idem. }
  unfold cloneReleaseExecutionContext. destruct (decide (TraceIDFrom ctx = "")); cbn [cc_base WithTraceID callCtx];
    (apply Hb; (case_decide as Hd; [by rewrite ?Hd|]); unfold WithTenantID; rewrite decide_False by done; [done|exact Ht]).
Qed.
Lemma dry_mode c :
  SideEffectModeFrom (WithSideEffectMode SideEffectModeDryRun c) = Some SideEffectModeDryRun /\
  cc_base (WithSideEffectMode SideEffectModeDryRun c) = cc_base c.
Proof using. destruct c. split; vm_compute; reflexivity. Qed.
(** The shadow runs of a release run for the tenant of their caller, on the caller's input and
    a version the channel names as a shadow, and no side effect of theirs is committed: whatever
    the policy of a tool, its effect is a dry run. *)
Theorem shadows_run_dry (decodeSpec : bytes -> WorkflowSpec + error) (ctx : CallCtx) runID wf env input r sctx req :
  (sctx, req) ∈ (RunWorkflowRelease (F := F) decodeSpec ctx runID wf env input r).1 ->
  (forall p, effectMode sctx p = SideEffectModeDryRun) /\
  effectiveTenantFromContext sctx = effectiveTenantFromContext ctx /\
  exists c id v, GetWorkflowReleaseChannel wf env r = inl (Some c) /\ id ∈ ch_Shadows c /\
    GetWorkflowReleaseVersion id r = Some (inl v) /\
    forall q, req = inl q -> rq_Input q = input /\ rq_Spec q = wv_Spec v /\
      rq_RunID q = TrimSpace runID +:+ "~shadow~" +:+ TrimSpace (wv_ID v).
Proof using.
  unfold RunWorkflowRelease, ResolveWorkflowRelease.
  destruct (GetWorkflowReleaseChannel wf env r) as [[c|]|]; try (by intros ?%elem_of_nil).
  case_decide; [by intros ?%elem_of_nil|].
  match goal with |- context [GetWorkflowReleaseVersion (re_Primary ?x) r] => set (res := x) end.
  destruct (GetWorkflowReleaseVersion (re_Primary res) r) as [[v0|]|]; [|by intros ?%elem_of_nil..]. cbn [fst].
  intros (id&Hid&E)%list_elem_of_omap. destruct (GetWorkflowReleaseVersion id r) as [[v|]|] eqn:Ev; [|discriminate E..].
  apply Some_inj, pair_eq in E as [Hs Hr].
  destruct (dry_mode (cloneReleaseExecutionContext ctx)) as [Hmode Hbase]. cbv zeta in Hs. rewrite Hs in Hmode, Hbase. split; [|split].
  - intros p. unfold effectMode. by rewrite Hmode.
  - rewrite Hbase. apply cloned_tenant.
  - exists c, id, v. split; [reflexivity|]. split; [exact Hid|]. split; [exact Ev|]. intros q ->. destruct (compileWorkflowReleaseVersion _ _ _ r); [|done]. by injection Hr as <-.
Qed.
End releases.

(** ** Evaluation (properties of Evals.v) *)
(** When a case passes, what a report of a suite says and where it is stored, and what the gate of
    a promotion asks for. *)
(** Reports whose text is valid UTF-8 are read back as they were written. *)
Class EvalLaws `{EvalJSON} : Type := {
  reportText : EvalReport -> Prop;
  report_round (x : EvalReport) b : reportText x -> marshal x = inl b -> unmarshal b = inl x
}.

(** *** The last output *)
Lemma latestOutput_spec nodes nodeID best out best' out' :
  latestOutput nodes nodeID best out = (best', out') ->
  (forall ne, ne ∈ nodes -> n_NodeID ne = nodeID -> n_Status ne = NodeStatusSucceeded -> n_Attempt ne <= best') /\
  best <= best' /\
  (best' = best /\ out' = out \/
   exists ne, ne ∈ nodes /\ n_NodeID ne = nodeID /\ n_Status ne = NodeStatusSucceeded /\ n_Attempt ne = best' /\
     n_Output ne = out' /\ best < best').
Proof.
  revert best out. induction nodes as [|ne nodes IH]; intros best out E; cbn [latestOutput] in E.
  - injection E as <- <-. split; [by intros ? ?%elem_of_nil|]. split; [lia|by left].
  - setoid_rewrite elem_of_cons. destruct (decide (n_NodeID ne <> nodeID \/ n_Status ne <> NodeStatusSucceeded)) as [Hd|Hd].
    { destruct (IH _ _ E) as (H1&H2&H3). split; [naive_solver|]. split; [done|]. naive_solver. }
    destruct (Z.ltb_spec best (n_Attempt ne)) as [Hl|Hl]; destruct (IH _ _ E) as (H1&H2&H3).
    + split; [intros x [->|?]; naive_solver|]. split; [lia|]. right.
      destruct H3 as [[-> ->]|(x&?&?&?&?&?&?)]; [exists ne; split_and!; try done; [by left|apply dec_stable; tauto|apply dec_stable; tauto]|]. exists x. split_and!; try done; [by right|lia].
    + split; [intros x [->|?]; naive_solver lia|]. split; [lia|]. naive_solver.
Qed.
(** The output of a node is that of its last succeeded attempt. *)
Lemma latestNodeOutput_spec nodes nodeID out :
  (forall ne, ne ∈ nodes -> 0 <= n_Attempt ne) ->
  latestNodeOutput nodes nodeID = Some out ->
  exists ne, ne ∈ nodes /\ n_NodeID ne = nodeID /\ n_Status ne = NodeStatusSucceeded /\ n_Output ne = out /\
    forall x, x ∈ nodes -> n_NodeID x = nodeID -> n_Status x = NodeStatusSucceeded -> n_Attempt x <= n_Attempt ne.
Proof.
  intros Ha. unfold latestNodeOutput. destruct (latestOutput nodes nodeID (-1) []) as [b o] eqn:E.
  destruct (Z.ltb_spec b 0); [done|]. intros [= <-].
  apply latestOutput_spec in E as (H1&H2&[[-> _]|(ne&?&?&?&Hb&?&_)]); [lia|]. exists ne. rewrite Hb. naive_solver.
Qed.

Section evals.
#[local] Set Default Proof Using "Type*".
Context {S F A : Type} `{Store S} `{!KVLaws S} `{ArtifactStore A} `{Ambient} `{MapOrder} `{EngineJSON} `{JSONSyntax}.
Context `{EvalJSON}.
Implicit Types r : Runner S F A.

(** *** The verdict on a case *)
Definition target (suite : EvalSuite) (c : EvalCase) : string := firstNonEmpty [ec_TargetNodeID c; es_TargetNodeID suite].
(** A run that ended, in a failed node at worst, is judged; any other error fails the case. *)
Definition judged (runErr : option error) : Prop :=
  forall err, runErr = Some err -> unwrapsTo err ErrNodeFailed = true.
Definition passes (suite : EvalSuite) (c : EvalCase) (runID : string) r : Prop :=
  es_Evaluator suite = EvalEvaluatorRunSucceeded /\
    (exists run, GetRun runID (rn_store r) = Some run /\ r_Status run = RunStatusSucceeded) \/
  es_Evaluator suite = EvalEvaluatorNodeOutputExact /\ target suite c <> "" /\ ec_ExpectedOutput c <> [] /\
    exists out, latestNodeOutput (ListNodeExecutions runID (rn_store r)) (target suite c) = Some out /\
      jsonEqual (ec_ExpectedOutput c) out = true.
Lemma judgeRun_spec suite c runID r : cr_Passed (judgeRun suite c runID r) = true <-> passes suite c runID r.
Proof using.
  unfold judgeRun, passes. fold (target suite c).
  destruct (decide (es_Evaluator suite = EvalEvaluatorRunSucceeded)) as [He|He].
  - assert (es_Evaluator suite <> EvalEvaluatorNodeOutputExact) by by rewrite He.
    destruct (GetRun runID (rn_store r)) as [run|]; [destruct (decide (r_Status run = RunStatusSucceeded))|]; cbn; naive_solver.
  - destruct (decide (es_Evaluator suite = EvalEvaluatorNodeOutputExact)); [|cbn; naive_solver].
    destruct (decide (target suite c = "")); [cbn; naive_solver|].
    destruct (latestNodeOutput _ _) as [out|]; [|cbn; naive_solver].
    destruct (decide (ec_ExpectedOutput c = [])); [cbn; naive_solver|].
    destruct (jsonEqual (ec_ExpectedOutput c) out) eqn:Ej; cbn; naive_solver.
Qed.
Lemma judgeCase_spec suite c runID runErr r :
  cr_Passed (judgeCase suite c runID runErr r) = true <-> judged runErr /\ passes suite c runID r.
Proof using.
  unfold judgeCase, judged. destruct runErr as [err|]; [destruct (unwrapsTo err ErrNodeFailed) eqn:Eu|].
  - rewrite judgeRun_spec. naive_solver.
  - split; [done|]. intros [Hj _]. by rewrite (Hj err eq_refl) in Eu.
  - rewrite judgeRun_spec. naive_solver.
Qed.
(** Every result is for its case. *)
Lemma judgeRun_case suite c runID r : cr_CaseID (judgeRun suite c runID r) = ec_ID c.
Proof using. unfold judgeRun. repeat case_match; done. Qed.
Context (decodeSpec : bytes -> WorkflowSpec + error).
Lemma runEvalCase_case run ctx reportID suite c spec r :
  cr_CaseID (runEvalCase decodeSpec run ctx reportID suite c spec r).2 = ec_ID c.
Proof using.
  unfold runEvalCase. destruct (resolveEvalCaseSpecAndInput c spec r) as [[sp inp]|]; [|done].
  destruct (rn_registry r); [|done]. destruct (RunSpecJSON _ _ _ _ _ _ _ r) as [r' o]. cbn [snd].
  unfold judgeCase. destruct o as [err|]; [destruct (unwrapsTo err ErrNodeFailed); [|done]|]; apply judgeRun_case.
Qed.
Lemma runEvalCases_cases run ctx reportID suite cases spec r :
  cr_CaseID <$> (runEvalCases decodeSpec run ctx reportID suite cases spec r).2 = ec_ID <$> cases.
Proof using.
  revert r. induction cases as [|c cases IH]; intros r; [done|]. cbn [runEvalCases].
  pose proof (runEvalCase_case run ctx reportID suite c spec r) as Hc.
  destruct (runEvalCase _ _ _ _ _ _ _ r) as [r1 x]. specialize (IH r1).
  destruct (runEvalCases _ _ _ _ _ _ _ r1) as [r2 xs]. cbn in *. by rewrite Hc, IH.
Qed.

(** A case passes exactly when it has a specification and an input, the runner has a
    registry, its run ended without another error than a failed node, and the evaluator of the
    suite accepts what the run left in the store. *)
Theorem runEvalCase_verdict run ctx reportID suite c spec r :
  let '(r', x) := runEvalCase decodeSpec run ctx reportID suite c spec r in
  cr_Passed x = true <->
  exists sp inp reg, resolveEvalCaseSpecAndInput c spec r = inl (sp, inp) /\ rn_registry r = Some reg /\
    judged (RunSpecJSON decodeSpec run ctx (caseRunID reportID c) sp (Some reg) inp r).2 /\
    passes suite c (caseRunID reportID c) r'.
Proof using.
  unfold runEvalCase. destruct (resolveEvalCaseSpecAndInput c spec r) as [[sp inp]|] eqn:Er; [|by split; [|intros (?&?&?&?&_)]].
  destruct (rn_registry r) as [reg|] eqn:Eg; [|by split; [|intros (?&?&?&_&?&_)]].
  destruct (RunSpecJSON decodeSpec run ctx (caseRunID reportID c) sp (Some reg) inp r) as [r1 o] eqn:E.
  rewrite judgeCase_spec. split.
  - intros [Hj Hp]. exists sp, inp, reg. by rewrite E.
  - intros (?&?&?&[= <- <-]&[= <-]&Hj&Hp). by rewrite E in Hj.
Qed.

(** *** Reports *)
Context `{!EvalLaws}.
Lemma reportKey_trim id : TrimSpace (evalReportKey id) = evalReportKey id.
Proof using. unfold evalReportKey. apply TrimSpace_under; [plain|done]. Qed.
Lemma SaveEvalReport_outside x r : outside "evals/" r (SaveEvalReport x r).1.
Proof.
  unfold SaveEvalReport. destruct (normalizeReport x) as [x'|]; [|done].
  pose proof (putJSONKV_outside "evals/" (evalReportKey (evr_ID x')) x' r) as Hk.
  destruct (putJSONKV _ x' r) as [r1 [|]]; cbn [fst] in *.
  - apply Hk. apply (under_app "evals/" ("reports/" +:+ _)); [plain|done].
  - eapply outside_trans; [apply Hk; apply (under_app "evals/" ("reports/" +:+ _)); [plain|done]|].
    apply upsertIndexID_outside. change evalReportIndexKey with ("evals/" +:+ "reports/index"). apply under_app; [plain|done].
Qed.
Lemma SaveEvalReport_stored x r r' : SaveEvalReport x r = (r', None) ->
  exists x', normalizeReport x = inl x' /\
    (reportText x' -> TrimSpace (evr_ID x) <> "index" -> GetEvalReport (evr_ID x) r' = Some (inl x')).
Proof.
  unfold SaveEvalReport. destruct (normalizeReport x) as [x'|] eqn:En; [|done].
  assert (evr_ID x' = TrimSpace (evr_ID x)) as Hid.
  { unfold normalizeReport in En. repeat (case_decide; [done|]). by injection En as <-. }
  destruct (putJSONKV (evalReportKey (evr_ID x')) x' r) as [r1 [|]] eqn:E; [done|]. intros Eu. exists x'. split; [done|].
  intros Ht Hne. destruct (putJSONKV_same _ _ _ _ (evalReportKey (evr_ID x)) E) as (b&Hb&Hkv).
  { rewrite !reportKey_trim. unfold evalReportKey. by rewrite Hid, TrimSpace_idem. }
  unfold GetEvalReport. rewrite (getJSONKV_kv _ r1 r').
  - rewrite (getJSONKV_put _ _ _ Hkv). by rewrite (report_round _ _ Ht Hb).
  - unfold upsertIndexID in Eu. destruct (indexIDs evalReportIndexKey r1) as [ids|]; [|done]. case_decide; [done|].
    case_decide; [by injection Eu as <-|]. assert (r' = (putJSONKV evalReportIndexKey (sortStrings (ids ++ [TrimSpace (evr_ID x')])) r1).1)
      as -> by by rewrite Eu.
    apply putJSONKV_other. rewrite reportKey_trim. rewrite (TrimSpace_plain evalReportIndexKey) by plain.
    intros Heq. apply Hne. by apply (app_inj_l "evals/reports/").
Qed.

(** A suite that was run has one result per case, in order; the report counts them and the
    passed ones, passed exactly when the rate of passed cases reaches the suite's threshold, and
    is the one stored. *)
Theorem RunEvalSuite_report run ctx now completed q r r' x :
  RunEvalSuite decodeSpec run ctx now completed q r = (r', inl x) ->
  exists suite d, GetEvalSuite (TrimSpace (eq_SuiteID q)) r = Some (inl suite) /\
    GetEvalDataset (es_DatasetID suite) r = Some (inl d) /\
    cr_CaseID <$> evr_Results x = ec_ID <$> ed_Cases d /\
    evr_CaseCount x = zlen (evr_Results x) /\ evr_PassedCount x = passedCount (evr_Results x) /\
    evr_Status x = "completed" /\
    (evr_Passed x = true <-> fleb (es_PassThreshold suite)
       (if 0 <? evr_CaseCount x then fdiv (ofInt (evr_PassedCount x)) (ofInt (evr_CaseCount x)) else fzero) = true) /\
    exists x', normalizeReport x = inl x' /\
      (reportText x' -> TrimSpace (evr_ID x) <> "index" -> GetEvalReport (evr_ID x) r' = Some (inl x')).
Proof.
  unfold RunEvalSuite. case_decide; [done|]. destruct (validateOptionalJSON _ _); [done|].
  destruct (GetEvalSuite _ r) as [[suite|]|]; try done.
  destruct (GetEvalDataset _ r) as [[d|]|] eqn:Ed; try done.
  destruct (SaveEvalReport _ r) as [r1 [|]]; [done|].
  match goal with |- context [runEvalCases decodeSpec run ctx ?i suite ?cs ?sp r1] =>
    pose proof (runEvalCases_cases run ctx i suite cs sp r1) as Hcases;
    destruct (runEvalCases decodeSpec run ctx i suite cs sp r1) as [r2 results] end.
  match goal with |- context [SaveEvalReport ?y r2] => destruct (SaveEvalReport y r2) as [r3 [|]] eqn:Es; [done|] end.
  intros [= <- <-]. apply SaveEvalReport_stored in Es. cbn [snd] in Hcases.
  exists suite, d. split; [done|]. split; [done|]. split; [exact Hcases|]. split; [|split; [done|split; [done|split; [done|exact Es]]]].
  cbn. unfold zlen. by rewrite <- (length_fmap ec_ID), <- Hcases, length_fmap.
Qed.

(** A promotion behind the gate needs a completed report that passed, and a run that succeeded. *)
Theorem PromoteRunWithEvalGate_gated evalRunID runID version r r' v :
  PromoteRunWithEvalGate evalRunID runID version r = (r', inl v) ->
  exists x run, GetEvalReport evalRunID r = Some (inl x) /\ evr_Status x = "completed" /\ evr_Passed x = true /\
    GetRun (TrimSpace runID) (rn_store r) = Some run /\ r_Status run = RunStatusSucceeded /\ v <> "".
Proof using.
  unfold PromoteRunWithEvalGate. destruct (GetEvalReport evalRunID r) as [[x|]|]; try done. case_decide as Hs; [done|].
  destruct (evr_Passed x) eqn:Ep; [|done]. cbn [negb]. unfold onStore, PromoteIndexVersion.
  destruct (decide (TrimSpace runID = "")) as [|Hid]; [done|].
  destruct (GetRun (TrimSpace runID) (rn_store r)) as [run|]; [|done].
  destruct (decide (r_Status run <> RunStatusSucceeded)) as [|Hr]; [done|]. apply dec_stable in Hr.
  destruct (PutKV _ _ _) as [s [|]]; [done|]. intros [= _ <-]. exists x, run. split_and!; try done. by case_decide.
Qed.
End evals.
