(* ===== verification/MultiAgentSpec.v ===== *)
(** * Multi-agent routing (properties of MultiAgent.v and MultiAgentRouter.v)

    The names of topics and agents, the registry and its round robin, what the router does with
    a message and where the broker puts it, escalation, and the topics a configuration makes. *)
From stdpp Require Import relations.
From S2P Require Import Prelude Storage Graph EngineStore Authz Risk Tools Runtime AgentState Evals MultiAgent KVSpec.
From S2P Require Import Idempotency BrokerTypes BrokerState Dispatch Produce MultiAgentRouter BrokerInv DispatchInv ProduceInv BrokerSteps ProduceSpec.
From Stdlib Require Import Ascii.
From Stdlib Require Import Init.Byte.

(** ** Topic names *)
Lemma idChar_plain a : idChar a = true -> plainChar a = true.
Proof. destruct a as [[] [] [] [] [] [] [] []]; (discriminate || reflexivity). Qed.
Lemma idChar_not_dot a : idChar a = true -> a <> "."%char.
Proof. intros Ha ->. discriminate Ha. Qed.
Lemma component_chars id : topicIDComponentRe id = true <-> id <> "" /\ Forall (fun a => idChar a = true) (chars id).
Proof.
  unfold topicIDComponentRe. rewrite andb_true_iff, negb_true_iff, bool_decide_eq_false, forallb_forall, Forall_forall.
  by setoid_rewrite list_elem_of_In.
Qed.
Lemma component_trim id : topicIDComponentRe id = true -> TrimSpace id = id.
Proof.
  intros [_ Hf]%component_chars. apply TrimSpace_plain. eapply Forall_impl; [exact Hf|]. apply idChar_plain.
Qed.
Lemma component_valid kind id : validateTopicIDComponent kind id = None <-> topicIDComponentRe id = true.
Proof.
  unfold validateTopicIDComponent. split.
  - case_decide; [done|]. case_decide as Ht; [done|]. rewrite Ht. by destruct (topicIDComponentRe id).
  - intros Hr. rewrite (component_trim _ Hr), Hr. assert (id <> "") by (by apply component_chars in Hr as [? _]).
    by rewrite decide_False, decide_False by tauto.
Qed.
Lemma componentTopic_inl kind p s id t :
  componentTopic kind p s id = inl t <-> topicIDComponentRe id = true /\ t = p +:+ id +:+ s.
Proof.
  unfold componentTopic. destruct (validateTopicIDComponent kind id) eqn:E.
  - split; [done|]. intros [Hr _]. by rewrite (proj2 (component_valid kind id) Hr) in E.
  - apply component_valid in E. split; [by intros [= <-]|]. by intros [_ ->].
Qed.

Lemma TrimPrefix_app p k : TrimPrefix (p +:+ k) p = k.
Proof.
  unfold TrimPrefix. rewrite (proj2 (HasPrefix_spec _ _)) by by exists k. by rewrite chars_app, drop_app_length, unchars_chars.
Qed.

(** A prefix that ends, and a suffix that begins with the only dot of them overlap in it only. *)
Lemma dot_overlap (q r x k : list ascii) : "."%char ∉ q -> (q ++ ["."%char]) ++ k = x ++ "."%char :: r ->
  ("."%char :: r `suffix_of` k) \/ k = r.
Proof.
  intros Hq E. apply app_eq_app in E as (l&[[E Er]|[_ ->]]); [|left; by exists l].
  destruct l as [|a l]; [left; by rewrite Er|]. injection Er as <- ->. right.
  destruct l as [|c l _] using rev_ind; [done|]. rewrite app_comm_cons, app_assoc in E.
  apply app_inj_tail in E as [-> _]. destruct Hq. set_solver.
Qed.
(** The identifier in the name of a topic. *)
Lemma parse_exact kind t q r id : "."%char ∉ chars q -> topicIDComponentRe r = true ->
  parseTopicComponent t (q +:+ ".") ("." +:+ r) kind = Some id <->
  componentTopic kind (q +:+ ".") ("." +:+ r) id = inl t \/ t = q +:+ "." +:+ r /\ id = r.
Proof.
  intros Hq Hr. rewrite componentTopic_inl. unfold parseTopicComponent. split.
  - destruct (HasPrefix t _) eqn:Hp; [|done]. apply HasPrefix_spec in Hp as [k ->]. rewrite TrimPrefix_app. cbn [negb orb].
    destruct (HasSuffix _ _) eqn:Hs; [|done]. cbn [negb]. unfold HasSuffix in Hs.
    apply bool_decide_eq_true in Hs as [x Hx]. rewrite !chars_app in Hx. apply dot_overlap in Hx; [|done].
    case_decide as Hne; [done|]. destruct (validateTopicIDComponent kind _) eqn:Ev; [done|]. intros [= <-].
    apply component_valid in Ev. destruct Hx as [[y Hy]|Hk].
    + assert (k = unchars y +:+ ("." +:+ r)) as -> by (apply chars_inj; by rewrite chars_app, chars_unchars).
      left. split; [exact Ev|]. by rewrite TrimSuffix_app.
    + apply chars_inj in Hk as ->. right. split; [by rewrite append_assoc|].
      unfold TrimSuffix, HasSuffix. rewrite bool_decide_eq_false_2; [done|]. intros Hsuf%suffix_length.
      rewrite chars_app, length_app in Hsuf. cbn in Hsuf. lia.
  - assert (HasPrefix t (q +:+ ".") = true -> HasSuffix t ("." +:+ r) = true ->
            TrimSuffix (TrimPrefix t (q +:+ ".")) ("." +:+ r) = id -> topicIDComponentRe id = true ->
            parseTopicComponent t (q +:+ ".") ("." +:+ r) kind = Some id) as Hall.
    { intros Hp Hs Ht Hv. unfold parseTopicComponent. rewrite Hp, Hs, Ht. cbn [negb orb].
      rewrite decide_False by by apply component_chars in Hv as [? _]. by rewrite (proj2 (component_valid kind id) Hv). }
    unfold parseTopicComponent in Hall. intros [[Hv ->]|[-> ->]]; apply Hall; try done.
    + apply HasPrefix_spec. by eexists.
    + apply bool_decide_eq_true_2. rewrite !chars_app. exists (chars q ++ chars "." ++ chars id). by rewrite <- !app_assoc.
    + by rewrite TrimPrefix_app, TrimSuffix_app.
    + apply HasPrefix_spec. exists r. by rewrite append_assoc.
    + apply bool_decide_eq_true_2. rewrite !chars_app. by exists (chars q).
    + rewrite <- append_assoc, TrimPrefix_app. unfold TrimSuffix, HasSuffix. rewrite bool_decide_eq_false_2; [done|].
      intros Hsuf%suffix_length. rewrite chars_app, length_app in Hsuf. cbn in Hsuf. lia.
Qed.
(** An agent or a team is read back from the topics that are named after it, and from one other
    topic, in which the two parts of the name overlap. *)
Theorem topics_round t id :
  (AgentIDFromInboxTopic t = Some id <-> AgentInboxTopic id = inl t \/ t = "agent.inbox" /\ id = "inbox") /\
  (AgentIDFromOutboxTopic t = Some id <-> AgentOutboxTopic id = inl t \/ t = "agent.outbox" /\ id = "outbox") /\
  (TeamIDFromBroadcastTopic t = Some id <-> TeamBroadcastTopic id = inl t \/ t = "team.broadcast" /\ id = "broadcast").
Proof.
  split_and!; [apply (parse_exact _ _ "agent" "inbox")|apply (parse_exact _ _ "agent" "outbox")|apply (parse_exact _ _ "team" "broadcast")];
    solve [vm_compute; reflexivity|apply (bool_decide_eq_true_1 _); vm_compute; reflexivity].
Qed.

(** ** The registry *)
(** Every capability and agent has a valid name, no agent is listed twice for a capability, and
    the cursor of a capability is one of its agents. *)
Definition cursorOf (reg : CapabilityRegistry) (cap : string) : Z := default 0 (rrCursor reg !! cap).
Definition registered (reg : CapabilityRegistry) : Prop :=
  forall cap agents, capToAgents reg !! cap = Some agents ->
    topicIDComponentRe cap = true /\ NoDup agents /\ Forall (fun a => topicIDComponentRe a = true) agents /\
    0 <= cursorOf reg cap /\ (agents <> [] -> cursorOf reg cap < zlen agents).
(** A capability without agents starts at the first. *)
Definition fresh (reg : CapabilityRegistry) : Prop :=
  forall cap, default [] (capToAgents reg !! cap) = [] -> cursorOf reg cap = 0.
Definition registry_ok (reg : CapabilityRegistry) : Prop := registered reg /\ fresh reg.

Lemma new_ok : registry_ok NewCapabilityRegistry.
Proof. split; intros cap; [intros agents|]; by rewrite ?lookup_empty; unfold cursorOf; rewrite ?lookup_empty. Qed.
Lemma capabilityKey_valid capability cap : capabilityKey capability = inl cap ->
  cap = normalizeCapability capability /\ topicIDComponentRe cap = true.
Proof.
  unfold capabilityKey. case_decide; [done|]. destruct (validateTopicIDComponent _ _) eqn:E; [done|]. intros [= <-].
  by apply component_valid in E.
Qed.
Lemma registerAgents_ok cap ids seen reg : topicIDComponentRe cap = true ->
  (forall a, a ∈ default [] (capToAgents reg !! cap) -> a ∈ seen) -> registry_ok reg ->
  registry_ok (registerAgents cap ids seen reg).1.
Proof.
  intros Hcap. revert seen reg. induction ids as [|raw ids IH]; intros seen reg Hseen Hok; [done|]. cbn [registerAgents].
  case_decide; [by apply IH|]. destruct (validateTopicIDComponent _ _) eqn:Ev; [done|]. apply component_valid in Ev.
  case_decide as Hin; [by apply IH|]. apply IH.
  - cbn. rewrite lookup_insert_eq. cbn. intros a. set_solver.
  - destruct Hok as [Hr Hf]. split.
    + intros c agents. unfold cursorOf. cbn. destruct (decide (c = cap)) as [->|Hne]; [|rewrite lookup_insert_ne by done; apply Hr].
      rewrite lookup_insert_eq. intros [= <-]. specialize (Hf cap). unfold cursorOf in Hf. specialize (Hr cap). unfold cursorOf in Hr.
      destruct (capToAgents reg !! cap) as [l|] eqn:El; cbn in *.
      * destruct (Hr l eq_refl) as (_&Hnd&Hv&Hc0&Hc). split; [done|]. split.
        { apply NoDup_app. split; [done|]. split; [|apply NoDup_singleton]. intros x Hx ->%list_elem_of_singleton. by apply Hin, Hseen. }
        split; [by apply Forall_app; split; [|constructor]|]. split; [done|]. intros _. rewrite zlen_app.
        destruct l; [rewrite Hf by done; done|]. specialize (Hc ltac:(done)). unfold zlen in *. cbn in *. lia.
      * rewrite Hf by done. split_and!; try done; [apply NoDup_singleton|by constructor].
    + intros c. unfold cursorOf. cbn. destruct (decide (c = cap)) as [->|Hne]; [|rewrite lookup_insert_ne by done; apply Hf].
      rewrite lookup_insert_eq. cbn. by intros [_ ?]%app_eq_nil.
Qed.
Lemma replaceAgents_valid ids seen next : replaceAgents ids seen = inl next ->
  NoDup next /\ Forall (fun a => topicIDComponentRe a = true) next /\ forall a, a ∈ next -> a ∉ seen.
Proof.
  revert seen next. induction ids as [|raw ids IH]; intros seen next; cbn [replaceAgents].
  - intros [= <-]. split_and!; [constructor|constructor|by intros ? ?%elem_of_nil].
  - case_decide; [apply IH|]. destruct (validateTopicIDComponent _ _) eqn:Ev; [done|]. apply component_valid in Ev.
    case_decide as Hin; [apply IH|]. destruct (replaceAgents ids _) as [l|] eqn:E; [|done]. intros [= <-].
    destruct (IH _ _ E) as (Hnd&Hv&Hs). split_and!; [|by constructor|].
    + constructor; [|done]. intros ?%Hs. set_solver.
    + intros a [->|Ha]%elem_of_cons; [done|]. apply Hs in Ha. set_solver.
Qed.
Lemma ResolveAgent_spec capability reg cap agents :
  registry_ok reg -> normalizeCapability capability = cap -> capToAgents reg !! cap = Some agents -> agents <> [] ->
  exists a, zlookup agents (cursorOf reg cap) = Some a /\
    ResolveAgent capability reg =
    (mkCapabilities (capToAgents reg) (<[cap := (cursorOf reg cap + 1) `mod` zlen agents]> (rrCursor reg)), inl a).
Proof.
  intros [Hr _] Hc Hl Hne. destruct (Hr _ _ Hl) as (Hv&_&_&H0&Hlt). specialize (Hlt Hne).
  apply component_chars in Hv as [Hcne _]. destruct (zlookup_is_Some agents (cursorOf reg cap)) as [a Ha]; [lia|]. exists a. split; [done|].
  unfold ResolveAgent. rewrite Hc, decide_False, Hl, decide_False by done. fold (cursorOf reg cap).
  assert ((cursorOf reg cap <? 0) = false) as -> by lia. rewrite (Z.mod_small (cursorOf reg cap)) by lia. by rewrite Ha.
Qed.
Lemma ResolveAgent_ok capability reg : registry_ok reg -> registry_ok (ResolveAgent capability reg).1.
Proof.
  intros Hok. unfold ResolveAgent. case_decide; [done|].
  destruct (capToAgents reg !! _) as [agents|] eqn:El; [|done]. case_decide as Hne; [done|]. destruct Hok as [Hr Hf].
  assert (0 < zlen agents) by (destruct agents; [done|unfold zlen; cbn; lia]). set (cap := normalizeCapability capability) in *. split.
  - intros c l. unfold cursorOf. cbn. intros Hl. destruct (Hr _ _ Hl) as (?&?&?&?&?). split_and!; try done.
    all: destruct (decide (c = cap)) as [->|Hc]; [rewrite lookup_insert_eq|by rewrite lookup_insert_ne]; cbn.
    + apply Z.mod_pos_bound. lia.
    + intros _. rewrite El in Hl. injection Hl as <-. apply Z.mod_pos_bound. lia.
  - intros c. unfold cursorOf. cbn. destruct (decide (c = cap)) as [->|Hc]; [|rewrite lookup_insert_ne by done; apply Hf].
    rewrite El. cbn. by intros ->.
Qed.
(** Registering, replacing and resolving keep the registry well formed, whatever their outcome, so
    an agent that is chosen always has an inbox. *)
Theorem registry_kept capability agents reg : registry_ok reg ->
  registry_ok (CapabilityRegistry_Register capability agents reg).1 /\ registry_ok (Replace capability agents reg).1 /\
  registry_ok (ResolveAgent capability reg).1 /\
  forall a, (ResolveAgent capability reg).2 = inl a -> AgentInboxTopic a = inl ("agent." +:+ a +:+ ".inbox").
Proof.
  intros Hok. split_and!.
  - unfold CapabilityRegistry_Register. destruct (capabilityKey capability) as [cap|] eqn:Ek; [|done]. apply capabilityKey_valid in Ek as [_ Hv].
    apply registerAgents_ok; [done| |done]. intros a Ha. by apply elem_of_list_to_set.
  - unfold Replace. destruct (capabilityKey capability) as [cap|] eqn:Ek; [|done]. apply capabilityKey_valid in Ek as [_ Hv].
    destruct (replaceAgents agents ∅) as [next|] eqn:En; [|done]. apply replaceAgents_valid in En as (Hnd&Hf&_).
    destruct Hok as [Hr Hfr]. split.
    + intros c l. unfold cursorOf. cbn. destruct (decide (c = cap)) as [->|Hc]; [|rewrite !lookup_insert_ne by done; apply Hr].
      rewrite !lookup_insert_eq. intros [= <-]. split_and!; try done. intros Hne. destruct next; [done|]. unfold zlen. cbn. lia.
    + intros c. unfold cursorOf. cbn. destruct (decide (c = cap)) as [->|Hc]; [by rewrite !lookup_insert_eq|].
      rewrite !lookup_insert_ne by done. apply Hfr.
  - by apply ResolveAgent_ok.
  - intros a. unfold ResolveAgent. case_decide; [done|]. destruct (capToAgents reg !! _) as [l|] eqn:El; [|done].
    case_decide; [done|]. cbn. intros [= Ha]. destruct Hok as [Hr _]. destruct (Hr _ _ El) as (_&_&Hv&_).
    apply componentTopic_inl. split; [|done]. rewrite Forall_forall in Hv. apply Hv.
    assert (0 < zlen l) by (destruct l; [done|unfold zlen; cbn; lia]).
    match type of Ha with default "" (zlookup l ?i) = _ => destruct (zlookup_is_Some l i) as [x Hx] end.
    { apply Z.mod_pos_bound. lia. }
    rewrite Hx in Ha. cbn in Ha. subst x. unfold zlookup in Hx. case_decide; [by eapply list_elem_of_lookup_2|done].
Qed.

(** ** Round robin *)
Fixpoint resolves (requests : list string) (reg : CapabilityRegistry) : CapabilityRegistry * list (string + error) :=
  match requests with
  | [] => (reg, [])
  | c :: requests =>
    let '(reg, x) := ResolveAgent c reg in
    let '(reg, xs) := resolves requests reg in (reg, x :: xs)
  end.
(** The answers to the requests for one capability. *)
Definition answersFor (cap : string) (requests : list string) (answers : list (string + error)) : list (string + error) :=
  snd <$> filter (fun '(c, _) => normalizeCapability c = cap) (zip requests answers).
Definition occurrences {T} `{EqDecision T} (x : T) (l : list T) : Z := zlen (filter (fun y => y = x) l).

Lemma zlen_cons {T} (x : T) l : zlen (x :: l) = zlen l + 1.
Proof. unfold zlen. cbn [length]. lia. Qed.
Lemma zlookup_cons_pos {T} (x : T) l i : 0 < i -> zlookup (x :: l) i = zlookup l (i - 1).
Proof.
  intros Hi. unfold zlookup. rewrite !decide_True by lia.
  by replace (Z.to_nat i) with (Datatypes.S (Z.to_nat (i - 1))) by lia.
Qed.
Lemma ResolveAgent_other capability reg cap : normalizeCapability capability <> cap ->
  let reg' := (ResolveAgent capability reg).1 in capToAgents reg' = capToAgents reg /\ cursorOf reg' cap = cursorOf reg cap.
Proof.
  intros Hc. unfold ResolveAgent. case_decide; [done|]. destruct (capToAgents reg !! _); [|done]. case_decide; [done|].
  cbn. unfold cursorOf. cbn. by rewrite lookup_insert_ne.
Qed.
Lemma resolves_picks cap agents requests reg : registry_ok reg -> capToAgents reg !! cap = Some agents -> agents <> [] ->
  forall i, 0 <= i < zlen (answersFor cap requests (resolves requests reg).2) ->
    zlookup (answersFor cap requests (resolves requests reg).2) i =
    inl <$> zlookup agents ((cursorOf reg cap + i) `mod` zlen agents).
Proof.
  intros Hok Hl Hne. pose proof Hok as [Hr _]. destruct (Hr _ _ Hl) as (_&_&_&H0&Hlt). specialize (Hlt Hne).
  revert reg Hok Hr Hl H0 Hlt. induction requests as [|c requests IH]; intros reg Hok Hr Hl H0 Hlt i Hi; [change (0 <= i < 0) in Hi; lia|].
  cbn [resolves] in *. pose proof (ResolveAgent_ok c reg Hok) as Hok'.
  destruct (decide (normalizeCapability c = cap)) as [Hc|Hc].
  - destruct (ResolveAgent_spec c reg cap agents Hok Hc Hl Hne) as (a&Ha&E). rewrite E in *. cbn [fst] in Hok'.
    set (reg1 := mkCapabilities _ _) in *. specialize (IH reg1 Hok' (proj1 Hok') Hl).
    assert (cursorOf reg1 cap = (cursorOf reg cap + 1) `mod` zlen agents) as Hcur.
    { unfold cursorOf at 1. cbn. by rewrite lookup_insert_eq. }
    rewrite Hcur in IH.
    pose proof (Z.mod_pos_bound (cursorOf reg cap + 1) (zlen agents) ltac:(lia)) as Hb. specialize (IH ltac:(lia) ltac:(lia)).
    destruct (resolves requests reg1) as [reg2 xs]. unfold answersFor in *. cbn [snd zip zip_with] in *.
    rewrite filter_cons, decide_True in * by done. cbn [fmap list_fmap snd] in *.
    destruct (decide (i = 0)) as [->|Hi0].
    + rewrite Z.add_0_r, Z.mod_small by lia. rewrite Ha. done.
    + rewrite zlen_cons in Hi. rewrite zlookup_cons_pos by lia. etransitivity; [apply IH; lia|].
      rewrite Zplus_mod_idemp_l. do 2 f_equal. f_equal. lia.
  - destruct (ResolveAgent_other c reg cap Hc) as [Hcap Hcur]. destruct (ResolveAgent c reg) as [reg1 x]. cbn [fst] in *.
    rewrite <- Hcur in *. rewrite <- Hcap in Hl. specialize (IH reg1 Hok' (proj1 Hok') Hl H0 Hlt).
    destruct (resolves requests reg1) as [reg2 xs]. unfold answersFor in *. cbn [snd zip zip_with] in *.
    rewrite filter_cons, decide_False in * by done. by apply IH.
Qed.
Lemma div_succ x n : 0 < n -> (x + 1) / n = x / n + (if (x + 1) `mod` n =? 0 then 1 else 0).
Proof.
  intros Hn. pose proof (Z.div_mod x n ltac:(lia)) as E. pose proof (Z.mod_pos_bound x n Hn) as Hb.
  destruct (decide (x `mod` n = n - 1)) as [Hm|Hm].
  - assert (x + 1 = n * (x / n + 1) + 0) as Ex by lia. rewrite <- (Z.mod_unique_pos _ n _ 0 ltac:(lia) Ex), <- (Z.div_unique_pos _ n _ 0 ltac:(lia) Ex). done.
  - assert (x + 1 = n * (x / n) + (x `mod` n + 1)) as Ex by lia.
    rewrite <- (Z.mod_unique_pos _ n (x / n) (x `mod` n + 1) ltac:(lia) Ex), <- (Z.div_unique_pos _ n (x / n) (x `mod` n + 1) ltac:(lia) Ex).
    destruct (Z.eqb_spec (x `mod` n + 1) 0); lia.
Qed.
(** How often a value occurs that comes every [n] places. *)
Lemma rotation_count {T} `{EqDecision T} (f : Z -> T) (l : list T) (a : T) n d :
  0 <= d < n -> (forall i, 0 <= i < zlen l -> zlookup l i = Some (f i)) -> (forall i, f i = a <-> i `mod` n = d) ->
  occurrences a l = (zlen l + (n - 1 - d)) / n.
Proof.
  intros Hd Hl Hf. induction l as [|x l IH] using rev_ind.
  - change (0 = (0 + (n - 1 - d)) / n). rewrite Z.div_small; lia.
  - unfold occurrences in *. rewrite filter_app, !zlen_app, IH.
    + change (zlen [x]) with 1. replace (zlen l + 1 + (n - 1 - d)) with (zlen l + (n - 1 - d) + 1) by lia.
      rewrite div_succ by lia. f_equal. pose proof (zlen_nonneg l) as H0.
      assert (x = f (zlen l)) as ->.
      { specialize (Hl (zlen l)). rewrite zlen_app in Hl. change (zlen [x]) with 1 in Hl. rewrite zlookup_snoc in Hl.
        specialize (Hl ltac:(lia)). by injection Hl. }
      rewrite filter_cons, filter_nil. specialize (Hf (zlen l)).
      assert ((zlen l + (n - 1 - d) + 1) `mod` n = (zlen l `mod` n - d) `mod` n) as ->.
      { rewrite Zminus_mod_idemp_l. replace (zlen l + (n - 1 - d) + 1) with (zlen l - d + 1 * n) by lia. apply Z.mod_add. lia. }
      pose proof (Z.mod_pos_bound (zlen l) n ltac:(lia)) as Hb. destruct (decide (f (zlen l) = a)) as [Hy|Hy].
      * apply Hf in Hy. rewrite Hy, Z.sub_diag, Z.mod_0_l by lia. done.
      * destruct (Z.eqb_spec ((zlen l `mod` n - d) `mod` n) 0) as [Hz|]; [|done]. exfalso. apply Hy, Hf.
        apply Z.mod_divide in Hz as [k Hk]; [|lia]. assert (k = 0) by nia. lia.
    + intros i Hi. rewrite <- (Hl i) by (rewrite zlen_app; change (zlen [x]) with 1; lia). by rewrite zlookup_app_l by lia.
Qed.
(** C30: The requests for a capability, whatever requests for others come in between, are answered by
    its agents in turn, so that each of them answers the same number of requests up to one. *)
Theorem round_robin cap agents requests reg : registry_ok reg -> capToAgents reg !! cap = Some agents -> agents <> [] ->
  let answers := answersFor cap requests (resolves requests reg).2 in
  zlen answers = zlen (filter (fun c => normalizeCapability c = cap) requests) /\
  (forall i, 0 <= i < zlen answers ->
     zlookup answers i = inl <$> zlookup agents ((cursorOf reg cap + i) `mod` zlen agents)) /\
  forall a, a ∈ agents -> zlen answers / zlen agents <= occurrences (inl a) answers <= (zlen answers + zlen agents - 1) / zlen agents.
Proof.
  intros Hok Hl Hne answers. pose proof (resolves_picks cap agents requests reg Hok Hl Hne) as Hp. fold answers in Hp.
  destruct Hok as [Hr _]. destruct (Hr _ _ Hl) as (_&Hnd&_&H0&Hlt). specialize (Hlt Hne). split_and!; [|exact Hp|].
  - unfold answers, answersFor. rewrite zlen_fmap. clear. revert reg. induction requests as [|c requests IH]; intros reg; [done|].
    cbn [resolves]. destruct (ResolveAgent c reg) as [reg1 x]. specialize (IH reg1). destruct (resolves requests reg1) as [reg2 xs].
    cbn [snd zip zip_with]. rewrite !filter_cons. cbn [snd] in IH. destruct (decide (normalizeCapability c = cap)); [rewrite !zlen_cons; f_equal|]; exact IH.
  - intros a (j&Hj)%list_elem_of_lookup_1. set (n := zlen agents) in *.
    assert (Z.of_nat j < n) as Hjn by (apply lookup_lt_Some in Hj; unfold n, zlen; lia).
    pose proof (rotation_count (fun i => inl (default "" (zlookup agents ((cursorOf reg cap + i) `mod` n)))) answers (inl a) n
      ((Z.of_nat j - cursorOf reg cap) `mod` n)) as Hc.
    pose proof (Z.mod_pos_bound (Z.of_nat j - cursorOf reg cap) n ltac:(lia)) as Hd. rewrite Hc; [|done| |].
    + split; apply Z.div_le_mono; lia.
    + intros i Hi. rewrite (Hp i Hi). pose proof (Z.mod_pos_bound (cursorOf reg cap + i) n ltac:(lia)) as Hb.
      by destruct (zlookup_is_Some agents ((cursorOf reg cap + i) `mod` n) Hb) as [x ->].
    + intros i. pose proof (Z.mod_pos_bound (cursorOf reg cap + i) n ltac:(lia)) as Hb.
      destruct (zlookup_is_Some agents ((cursorOf reg cap + i) `mod` n) Hb) as [x Hx]. rewrite Hx. cbn [default from_option id].
      unfold zlookup in Hx. rewrite decide_True in Hx by lia.
      assert ((cursorOf reg cap + i) `mod` n = Z.of_nat j <-> i `mod` n = (Z.of_nat j - cursorOf reg cap) `mod` n) as Hiff.
      { split; intros E.
        - rewrite <- E, Zminus_mod_idemp_l. f_equal. lia.
        - rewrite <- Zplus_mod_idemp_r, E, Zplus_mod_idemp_r. replace (cursorOf reg cap + (Z.of_nat j - cursorOf reg cap)) with (Z.of_nat j) by lia.
          apply Z.mod_small. lia. }
      rewrite <- Hiff. split.
      * intros [= ->]. pose proof (NoDup_lookup _ _ _ _ Hnd Hx Hj). lia.
      * intros E. rewrite E, Nat2Z.id in Hx. congruence.
Qed.

(** ** Routing *)
Section routing.
#[local] Set Default Proof Using "Type*".
Context `{JSON json} `{JSONSyntax} `{AgentMessageJSON}.

(** Where a message of a kind goes, and what becomes of the registry. *)
Inductive goesTo (am : AgentMessage) (reg : option CapabilityRegistry) :
    string -> string -> option CapabilityRegistry -> Prop :=
| to_receiver : goesTo am reg RouteKindDirect ("agent." +:+ TrimSpace (ag_Receiver am) +:+ ".inbox") reg
| to_team : goesTo am reg RouteKindBroadcast ("team." +:+ TrimSpace (ag_Team am) +:+ ".broadcast") reg
| to_capable r r' agent : reg = Some r -> ResolveAgent (CapabilityOrRole am) r = (r', inl agent) ->
    goesTo am reg RouteKindCapability ("agent." +:+ agent +:+ ".inbox") (Some r').
(** The sender of a message in the outbox of an agent is the agent. *)
Definition ownOutbox (topic : string) (am : AgentMessage) : Prop :=
  forall id, AgentIDFromOutboxTopic topic = Some id -> ag_Sender am = id.
Definition listens (cfg : RouterConfig) (topic : string) : Prop := rc_SourceTopics cfg = ∅ \/ topic ∈ rc_SourceTopics cfg.

Lemma firstError_None l : firstError l = None <-> Forall (fun o => o = None) l.
Proof.
  unfold firstError. induction l as [|[e|] l IH]; [by split| |].
  - split; [done|]. intros Hf. by inversion Hf.
  - cbn [omap list_omap id]. rewrite IH, Forall_cons. tauto.
Qed.
Lemma Validate_sender m m' : AgentMessage_Validate m = (m', None) ->
  ag_Sender m' = ag_Sender m /\ TrimSpace (ag_Sender m) = ag_Sender m /\ topicIDComponentRe (ag_Sender m) = true /\
  (exists c, m' = set_ag_Coordination c m) /\ exists kind, ResolvedRouteKind m = inl kind.
Proof.
  unfold AgentMessage_Validate. match goal with |- context [firstError ?l] => destruct (firstError l) eqn:E end; [done|].
  apply firstError_None in E. inversion E as [|? ? _ E1]. inversion E1 as [|? ? _ E2]. inversion E2 as [|? ? Hs E3].
  inversion E3 as [|? ? _ E4]. inversion E4 as [|? ? _ E5]. inversion E5 as [|? ? Hk _]. subst. clear E E1 E2 E3 E4 E5.
  apply component_valid in Hs. pose proof (component_trim _ Hs) as Ht. intros Hm.
  assert (exists c, m' = set_ag_Coordination c m) as Hset.
  { destruct (ag_Coordination m) as [c|] eqn:Ec.
    - destruct (normalizeCoordination c) as [c' err]. injection Hm as <- ->. eauto.
    - injection Hm as <-. exists None. rewrite <- Ec. by destruct m. }
  destruct Hset as [c ->]. split_and!; try done; [by exists c|]. destruct (ResolvedRouteKind m) as [kind|]; [by exists kind|done].
Qed.
Lemma Resolved_kinds m kind : ResolvedRouteKind m = inl kind -> kind ∈ [RouteKindDirect; RouteKindBroadcast; RouteKindCapability].
Proof.
  unfold ResolvedRouteKind. case_match; [done|]. case_match; [done|]. case_decide.
  - case_decide as Hin; [|done]. case_decide; [done|]. intros [= <-]. set_solver.
  - intros [= <-]. repeat case_match; set_solver.
Qed.
Lemma put_other k v m k' : k <> k' -> putMeta k v m !! k' = m !! k'.
Proof using. apply lookup_insert_ne. Qed.
Lemma putGiven_other k v m k' : k <> k' -> putGiven k v m !! k' = m !! k'.
Proof using. intros Hk. unfold putGiven. case_decide; [done|]. by apply put_other. Qed.
Lemma messageMeta_kept topic kind am :
  messageMeta topic kind am !! "sender" = Some (TrimSpace (ag_Sender am)) /\
  messageMeta topic kind am !! "source_topic" = Some topic /\ messageMeta topic kind am !! "route_kind" = Some kind.
Proof using.
  assert (forall k, k ∈ ["sender"; "source_topic"; "route_kind"] -> messageMeta topic kind am !! k =
    putMeta "router" RouterName (putMeta "route_kind" kind (putMeta "source_topic" topic (putMeta "sender" (TrimSpace (ag_Sender am))
      (putMeta "intent" (TrimSpace (ag_Intent am)) ∅)))) !! k) as Hk.
  { intros k Hk. unfold messageMeta, coordinationMeta.
    assert (k <> "source_agent" /\ k <> "escalation_index" /\ k <> "handoff_from" /\ k <> "review_required" /\ k <> "requires_reply" /\
            k <> "pattern" /\ k <> "message_id" /\ k <> "correlation_id" /\ k <> "tenant_id") as (?&?&?&?&?&?&?&?&?).
    { assert (k = "sender" \/ k = "source_topic" \/ k = "route_kind") as Hd by set_solver.
      destruct Hd as [->|[->| ->]]; split_and!; discriminate. }
    destruct (AgentIDFromOutboxTopic topic); [rewrite put_other by congruence|];
      (destruct (ag_Coordination am) as [c|]; [|by rewrite !putGiven_other by congruence]);
      destruct (0 <? co_EscalationIndex c), (co_ReviewRequired c), (co_RequiresReply c);
      repeat first [rewrite putGiven_other by congruence|rewrite put_other by congruence]; done. }
  rewrite !Hk by set_solver. by split_and!.
Qed.
Lemma routeTarget_spec kind am reg meta reg' target meta' :
  kind ∈ [RouteKindDirect; RouteKindBroadcast; RouteKindCapability] ->
  routeTarget kind am reg meta = (reg', inl (target, meta')) ->
  goesTo am reg kind target reg' /\
  forall k, k ∉ ["receiver"; "team"; "capability"; "selected_agent"] -> meta' !! k = meta !! k.
Proof using.
  intros Hk. unfold routeTarget.
  assert (kind = RouteKindDirect \/ kind = RouteKindBroadcast \/ kind = RouteKindCapability) as Hd by set_solver.
  destruct Hd as [->|[->| ->]]; repeat first [rewrite decide_True by done|rewrite decide_False by done].
  - destruct (AgentInboxTopic _) as [t|] eqn:E; [|done]. intros [= <- <- <-]. apply componentTopic_inl in E as [_ ->].
    split; [constructor|]. intros k Hn. apply put_other. set_solver.
  - destruct (TeamBroadcastTopic _) as [t|] eqn:E; [|done]. intros [= <- <- <-]. apply componentTopic_inl in E as [_ ->].
    split; [constructor|]. intros k Hn. apply put_other. set_solver.
  - destruct reg as [r|]; [|done]. destruct (ResolveAgent (CapabilityOrRole am) r) as [r' [agent|]] eqn:Er; [|done].
    destruct (AgentInboxTopic agent) as [t|] eqn:E; [|done]. intros [= <- <- <-]. apply componentTopic_inl in E as [_ ->].
    split; [by econstructor|]. intros k Hn. rewrite !put_other; [done|set_solver|set_solver].
Qed.
(** What the router says of a message: nothing on a topic it does not listen to, and, unless it
    is strict, of a message it cannot read; otherwise the one topic its receiver, its team or an
    agent with its capability is reached by, and never for a message that the owner of the
    outbox it was put in did not send. *)
Theorem Route_exact cfg topic msg reg reg' d : Route cfg topic msg reg = (reg', inl d) ->
  (d = noDecision /\ reg' = reg /\
     (~ listens cfg topic \/ rc_Strict cfg = false /\ exists err, readAgentMessage (m_Value msg) = inr err)) \/
  exists am kind, readAgentMessage (m_Value msg) = inl am /\ listens cfg topic /\ ownOutbox topic am /\
    ResolvedRouteKind am = inl kind /\ goesTo am reg kind (rd_TargetTopic d) reg' /\
    rd_Label d = "multiagent." +:+ kind /\ rd_PartitionOverride d = None /\
    rd_Meta d !! "sender" = Some (ag_Sender am) /\ rd_Meta d !! "source_topic" = Some topic /\
    rd_Meta d !! "route_kind" = Some kind.
Proof.
  unfold Route. destruct (decide _) as [Hl|Hl].
  { intros [= <- <-]. left. split_and!; try done. left. unfold listens. tauto. }
  assert (listens cfg topic) as Hlis.
  { unfold listens. destruct (decide (rc_SourceTopics cfg = ∅)); [by left|]. right. apply dec_stable. tauto. }
  destruct (readAgentMessage (m_Value msg)) as [am|err] eqn:Er.
  2:{ destruct (rc_Strict cfg) eqn:Es; [done|]. intros [= <- <-]. left. split_and!; try done. right. eauto. }
  assert (TrimSpace (ag_Sender am) = ag_Sender am) as Ht.
  { unfold readAgentMessage in Er. destruct (ParseAgentMessage _) as [am0|]; [|done].
    destruct (AgentMessage_Validate am0) as [am' [|]] eqn:Ev; [done|]. injection Er as <-.
    by destruct (Validate_sender _ _ Ev) as (->&?&_). }
  rewrite Ht.
  destruct (match AgentIDFromOutboxTopic topic with None => false | Some id => _ end) eqn:Eo; [done|].
  assert (ownOutbox topic am) as Hown.
  { intros id Hid. rewrite Hid in Eo. apply negb_false_iff in Eo. by apply bool_decide_eq_true in Eo. }
  destruct (ResolvedRouteKind am) as [kind|] eqn:Ek; [|done].
  destruct (routeTarget kind am reg (messageMeta topic kind am)) as [reg1 [[target meta]|]] eqn:Et; [|done].
  intros [= <- <-]. right. exists am, kind.
  apply Resolved_kinds in Ek as Hk. destruct (routeTarget_spec _ _ _ _ _ _ _ Hk Et) as [Hg Hm].
  destruct (messageMeta_kept topic kind am) as (H1'&H2'&H3'). cbn. rewrite !Hm, Ht in * by set_solver. by split_and!.
Qed.

(** ** Through the broker *)
Context {W : Type} `{WAL W} `{MapOrder}.
Abbreviation broker := (@InMemoryBroker W).
Implicit Types b : broker.

Lemma applied_decision d msg : rd_TargetTopic d <> "" -> rd_PartitionOverride d = None ->
  let m := applyDecision d msg in
  m_Value m = m_Value msg /\ m_Routing m = Some (mkRouting (rd_Label d) (rd_Meta d)) /\
  (exists env, m_Envelope m = Some env /\ env_TargetTopic env = rd_TargetTopic d) /\ idemKeyOf m = idemKeyOf msg.
Proof using.
  intros Ht Hp. unfold applyDecision. rewrite Hp. rewrite (bool_decide_eq_false_2 (rd_TargetTopic d = "")) by done.
  rewrite orb_true_r. cbn [negb orb]. cbn [m_Value m_Routing m_Envelope set_m_Envelope set_m_Routing].
  split_and!; [done|done| |].
  - eexists. split; [done|]. cbn. by rewrite decide_False.
  - unfold idemKeyOf. cbn. by destruct (m_Envelope msg).
Qed.
(** The message has an idempotency key that is recorded as committed for the topic, in a record
    that has not outlived its time at [now]. *)
Definition producedBefore (now : Time) (topic : string) (msg : Message) b : Prop :=
  exists tenant key st, idemKeyOf msg = Some (tenant, key) /\
    items (cleanupLocked now (idem b)) !! produceKey tenant topic key = Some st /\ Status st = IdemStatusCommitted.
(** The key of the message, if it has one, is recorded as committed for the topic. *)
Definition keyCommitted (topic : string) (msg : Message) b : Prop :=
  forall tenant key, idemKeyOf msg = Some (tenant, key) ->
    exists st, items (idem b) !! produceKey tenant topic key = Some st /\ Status st = IdemStatusCommitted.
Lemma produceBegin_inl now t m b b1 started : produceBegin now t m b = (b1, inl started) ->
  started = bool_decide (is_Some (idemKeyOf m)) /\ ~ producedBefore now t m b.
Proof using.
  unfold produceBegin, producedBefore. destruct (idemKeyOf m) as [[tenant key]|] eqn:Ek;
    [|intros [= _ <-]; by split; [|intros (?&?&?&?&_)]].
  unfold Begin. destruct (decide (key = "")) as [->|Hne].
  { exfalso. unfold idemKeyOf in Ek. repeat case_match; congruence. }
  cbv zeta. destruct (items (cleanupLocked now (idem b)) !! _) as [st|] eqn:Es.
  - destruct (decide (Status st = IdemStatusCommitted)) as [|Hc]; [done|].
    case_decide; [done|]. intros [= _ <-]. split; [done|]. intros (?&?&st'&[= <- <-]&Hs&Hst). congruence.
  - intros [= _ <-]. split; [done|]. intros (?&?&st'&[= <- <-]&Hs&Hst). congruence.
Qed.
Lemma produceBegin_committed now t m b b1 : produceBegin now t m b = (b1, inr None) -> producedBefore now t m b.
Proof using.
  unfold produceBegin, producedBefore, Begin. destruct (idemKeyOf m) as [[tenant key]|]; [|done].
  case_decide; [done|]. cbv zeta. destruct (items (cleanupLocked now (idem b)) !! _) as [st|] eqn:Es; [|done].
  case_decide; [intros _; by exists tenant, key, st|by case_decide].
Qed.
Lemma produceEnd_committed now t m b : keyCommitted t m (produceEnd now t m (bool_decide (is_Some (idemKeyOf m))) None b).
Proof using.
  intros tenant key Hk. unfold produceEnd. rewrite Hk, bool_decide_eq_true_2 by done. unfold Commit.
  case_decide as He; [|eexists; cbn; by rewrite lookup_insert_eq].
  exfalso. unfold idemKeyOf in Hk. repeat case_match; congruence.
Qed.
(** C29: An agent message, not a dead-letter copy, that is produced where the router listens goes to
    the topic its receiver, its team or a capable agent reads from, and the owner of the outbox
    it was put in is its sender.  If it is accepted and its idempotency key is not recorded as
    committed for that topic, or it has none, it becomes the last message of one partition
    of that topic, unchanged and with its sender recorded, no other log changes, and its key is
    recorded as committed; if the key is, no log changes.  If it is refused no log changes. *)
Theorem agent_message_lands cfg reg n1 n2 n3 n4 topic msg am b b' err :
  wf b -> router b = Some (fun t m => (Route cfg t m reg).2) -> isDLQMessage msg = false -> listens cfg topic ->
  readAgentMessage (m_Value msg) = inl am -> Produce n1 n2 n3 n4 topic msg b = (b', err) ->
  match err with
  | Some _ => topics b' = topics b
  | None =>
    ownOutbox topic am /\
    exists kind target reg', ResolvedRouteKind am = inl kind /\ goesTo am reg kind target reg' /\
      (producedBefore n2 target msg b /\ topics b' = topics b \/
       ~ producedBefore n2 target msg b /\ keyCommitted target msg b' /\
       exists part m rt, m_Value m = m_Value msg /\ m_Routing m = Some rt /\ Meta rt !! "sender" = Some (ag_Sender am) /\
         forall t p, logOf (topics b') t p =
           if decide (target = t /\ part = p) then logOf (topics b) target part ++ [m] else logOf (topics b) t p)
  end.
Proof.
  intros Hwf Hr Hd Hl Ha. unfold Produce, prepareProduce.
  case_decide; [by intros [= <- <-]|]. rewrite Hr, Hd.
  destruct (Route cfg topic msg reg) as [reg' [d|e]] eqn:Er; [|by intros [= <- <-]]. cbn [snd].
  apply Route_exact in Er as [(_&_&[Hn|(_&e&He)])|(am'&kind&Ha'&_&Hown&Hk&Hg&_&Hp&Hs&_&_)]; [done|congruence|].
  rewrite Ha in Ha'. injection Ha' as <-.
  assert (rd_TargetTopic d <> "") as Ht by (destruct Hg; done).
  destruct (applied_decision d msg Ht Hp) as (Hv&Hrt&(env&Henv&Htt)&Hid). cbv zeta in *.
  set (m0 := applyDecision d msg) in *.
  destruct (match m_Envelope m0 ≫= env_Deadline with Some _ => _ | None => false end); [by intros [= <- <-]|].
  rewrite Henv, Htt. rewrite decide_False by done. set (target := rd_TargetTopic d) in *.
  assert (producedBefore n2 target m0 b <-> producedBefore n2 target msg b) as Hpb by (unfold producedBefore; by rewrite Hid).
  pose proof (quiet_produceBegin n2 target m0 b) as Qb.
  destruct (produceBegin n2 target m0 b) as [b1 [started|res]] eqn:Eb; cbn [fst] in Qb.
  - apply produceBegin_inl in Eb as [-> Hn]. destruct (produceLocked n3 target m0 b1) as [b2 res] eqn:El. intros [= <- <-].
    pose proof (produceLocked_effect' _ _ _ _ _ _ (quiet_wf _ _ Qb Hwf) El) as Hq. destruct res as [e|].
    { by rewrite (q_topics _ _ (quiet_produceEnd _ _ _ _ _ _)), (q_topics _ _ Hq), (q_topics _ _ Qb). }
    destruct Hq as (_&part&_&_&_&_&Hlog). cbv zeta in Hlog. split; [exact Hown|]. exists kind, target, reg'.
    split; [exact Hk|]. split; [exact Hg|]. right. split; [by rewrite <- Hpb|].
    split; [intros tenant key Hkey; apply (produceEnd_committed n4 target m0 b2); by rewrite Hid|].
    exists part, (set_m_position part (zlen (logOf (topics b1) target part)) m0), (mkRouting (rd_Label d) (rd_Meta d)).
    split_and!; try done. intros t p. rewrite (q_topics _ _ (quiet_produceEnd _ _ _ _ _ _)), Hlog, (q_topics _ _ Qb). done.
  - intros [= <- <-]. destruct res as [e|]; [apply (q_topics _ _ Qb)|]. split; [exact Hown|]. exists kind, target, reg'.
    split; [exact Hk|]. split; [exact Hg|]. left. split; [by apply Hpb, (produceBegin_committed _ _ _ _ b1)|apply (q_topics _ _ Qb)].
Qed.

(** ** The topics of a configuration *)
(** No failure of the log, in the states it can be in, is taken for a topic that exists. *)
Definition ownErrors (fine : W -> Prop) : Prop :=
  forall e w, fine w -> fine (Append e w).1 /\ forall err, (Append e w).2 = Some err -> errors_Is err ErrTopicExists = false.
Definition onLog (fine : W -> Prop) b : Prop := forall w, wal b = Some w -> fine w.
Lemma CreateTopic_onLog fine t n b : ownErrors fine -> onLog fine b -> onLog fine (CreateTopic t n b).1.
Proof.
  intros Hw Hl. unfold CreateTopic, CreateTopicWithConfig, createTopicLockedWithConfig.
  assert (forall e b, onLog fine b -> onLog fine (appendWALEntry e b).1) as Happ.
  { intros e b0 Hb. unfold appendWALEntry. destruct (wal b0) as [w|] eqn:Ew; [|done]. specialize (Hw e w (Hb w Ew)) as [Hf _].
    destruct (Append e w) as [w' err]. intros w0. cbn. by intros [= <-]. }
  case_decide; [done|]. destruct (n <=? 0); [done|]. destruct (normalizeTopicConfig _) as [c|]; [|done].
  destruct (topics b !! t) as [ts|]; [done|]. destruct (normalizeTopicConfig c) as [c'|]; [|done].
  match goal with |- context [appendWALEntry ?e ?x] => specialize (Happ e x Hl); destruct (appendWALEntry e x) as [b1 [err|]] end;
    [exact Happ|]. intros w Hw0. apply Happ. revert Hw0. cbn [fst]. unfold emit. by case_match.
Qed.
Lemma standard_config :
  normalizeTopicConfig (mkTopicConfig "") = inl (mkTopicConfig "standard") /\
  normalizeTopicConfig (mkTopicConfig "standard") = inl (mkTopicConfig "standard").
Proof using. split; vm_compute; reflexivity. Qed.
Lemma CreateTopic_skipped fine t n b b' err : ownErrors fine -> onLog fine b -> CreateTopic t n b = (b', Some err) ->
  errors_Is err ErrTopicExists = true -> topics b' = topics b /\ is_Some (topics b !! t).
Proof.
  intros Hw Hlog E He. split; [apply (CreateTopicWithConfig_effect _ _ _ _ _ _ E)|].
  unfold CreateTopic, CreateTopicWithConfig in E. case_decide; [by injection E as _ <-|].
  destruct (n <=? 0) eqn:En; [by injection E as _ <-|]. rewrite (proj1 standard_config) in E.
  destruct (topics b !! t) eqn:Et; [by eexists|]. exfalso. unfold createTopicLockedWithConfig in E.
  rewrite decide_False, En, Et, (proj2 standard_config) in E by done.
  unfold appendWALEntry in E. cbn in E. destruct (wal b) as [w|] eqn:Ew; [|done].
  destruct (Hw (topicEntry t n (mkTopicConfig "standard")) w (Hlog w Ew)) as [_ Hn].
  unfold topicEntry in *. destruct (Append _ w) as [w' [e|]] eqn:Ea; [|done]. injection E as _ <-.
  by rewrite (Hn e eq_refl) in He.
Qed.
(** After they were made without an error the topics exist, and those that did before are kept. *)
Lemma createTopics_spec fine ts n out b b' out' : ownErrors fine -> onLog fine b -> createTopics ts n out b = (b', (out', None)) ->
  topics b ⊆ topics b' /\ (forall t, t ∈ ts -> is_Some (topics b' !! t)) /\
  exists cs ss, bs_Created out' = bs_Created out ++ cs /\ bs_Skipped out' = bs_Skipped out ++ ss /\
    (forall t, t ∈ ts <-> t ∈ cs \/ t ∈ ss) /\ (forall t, t ∈ cs -> topics b !! t = None).
Proof.
  intros Hw. revert out b. induction ts as [|t ts IH]; intros out b Hlog.
  - intros [= <- <-]. split; [done|]. split; [by intros ? ?%elem_of_nil|]. exists [], []. rewrite !app_nil_r. set_solver.
  - cbn [createTopics]. pose proof (CreateTopic_onLog fine t n b Hw Hlog) as Hlog1.
    destruct (CreateTopic t n b) as [b1 [err|]] eqn:Ec; cbn [fst] in Hlog1.
    + destruct (errors_Is err ErrTopicExists) eqn:Ee; [|done]. intros E.
      destruct (CreateTopic_skipped _ _ _ _ _ _ Hw Hlog Ec Ee) as [Ht Hex]. destruct (IH _ _ Hlog1 E) as (Hsub&Hin&cs&ss&Hc&Hs&Hiff&Hnew).
      rewrite Ht in *. split; [done|]. split.
      { intros x [->|Hx]%elem_of_cons; [|by apply Hin]. destruct Hex as [v Hv]. exists v. by eapply lookup_weaken. }
      exists cs, (t :: ss). cbn [bs_Created bs_Skipped] in *. rewrite Hc, Hs, <- app_assoc. split_and!; try done. set_solver.
    + intros E. destruct (CreateTopicWithConfig_effect _ _ _ _ _ _ Ec) as (_&_&Hnone&cfg'&_&_&Ht).
      destruct (IH _ _ Hlog1 E) as (Hsub&Hin&cs&ss&Hc&Hs&Hiff&Hnew). rewrite Ht in *. split.
      { etransitivity; [|exact Hsub]. by apply insert_subseteq. }
      split.
      { intros x [->|Hx]%elem_of_cons; [|by apply Hin]. eexists. eapply lookup_weaken; [|exact Hsub]. apply lookup_insert_eq. }
      exists (t :: cs), ss. cbn [bs_Created bs_Skipped] in *. rewrite Hc, Hs, <- app_assoc. split_and!; try done; [set_solver|].
      intros x [->|Hx]%elem_of_cons; [done|]. specialize (Hnew x Hx). destruct (decide (x = t)) as [->|Hne]; [done|].
      by rewrite lookup_insert_ne in Hnew.
Qed.

Lemma topicsOf_spec f ids ts : topicsOf f ids = inl ts ->
  forall id x, id ∈ ids -> x ∈ f id -> exists t, x = inl t /\ t ∈ ts.
Proof using.
  revert ts. induction ids as [|id ids IH]; intros ts; cbn [topicsOf]; [by intros _ ? ? ?%elem_of_nil|].
  destruct (foldr _ _ (f id)) as [l|] eqn:Ef; [|done]. destruct (topicsOf f ids) as [rest|]; [|done]. intros [= <-] id' x Hid Hx.
  setoid_rewrite elem_of_app. apply elem_of_cons in Hid as [->|Hid]; [|destruct (IH _ eq_refl _ _ Hid Hx) as (t&?&?); eauto].
  assert (exists t, x = inl t /\ t ∈ l) as (t&?&?); [|eauto]. revert l Ef Hx. generalize (f id). clear.
  intros xs. induction xs as [|y xs IH]; intros l Ef Hx; [by apply elem_of_nil in Hx|]. cbn [foldr] in Ef.
  destruct y as [y|]; [|done]. destruct (foldr _ _ xs) as [ys|]; [|done]. injection Ef as <-. setoid_rewrite elem_of_cons.
  apply elem_of_cons in Hx as [->|Hx]; [eauto|]. destruct (IH _ eq_refl Hx) as (t&?&?). eauto.
Qed.
Lemma replaceAgents_elem ids seen next a : replaceAgents ids seen = inl next -> a ∈ next -> a <> "" /\ exists s, s ∈ ids /\ a = TrimSpace s.
Proof using.
  revert seen next. induction ids as [|raw ids IH]; intros seen next; cbn [replaceAgents].
  - intros [= <-] ?%elem_of_nil. done.
  - setoid_rewrite elem_of_cons. unfold normalizeAgentID. case_decide as He; [intros E Ha; destruct (IH _ _ E Ha); naive_solver|].
    destruct (validateTopicIDComponent _ _); [done|]. case_decide; [intros E Ha; destruct (IH _ _ E Ha); naive_solver|].
    destruct (replaceAgents ids _) as [l|] eqn:E; [|done]. intros [= <-] [->|Ha]%elem_of_cons; [naive_solver|].
    destruct (IH _ _ E Ha); naive_solver.
Qed.
Lemma replaceAll_agents l reg reg' cap agents a : replaceAll l reg = inl reg' ->
  capToAgents reg' !! cap = Some agents -> a ∈ agents ->
  (exists ags, capToAgents reg !! cap = Some ags /\ a ∈ ags) \/ a <> "" /\ exists c raw s, (c, raw) ∈ l /\ s ∈ raw /\ a = TrimSpace s.
Proof using.
  revert reg. induction l as [|[c raw] l IH]; intros reg; cbn [replaceAll]; [intros [= ->]; eauto|].
  destruct (Replace c raw reg) as [reg1 [|]] eqn:Er; [done|]. intros E Hc Ha.
  setoid_rewrite elem_of_cons. destruct (IH _ E Hc Ha) as [(ags&Hl&Hin)|]; [|right; naive_solver].
  unfold Replace in Er. destruct (capabilityKey c) as [k|]; [|done]. destruct (replaceAgents raw ∅) as [next|] eqn:En; [|done].
  injection Er as <-. cbn in Hl. destruct (decide (k = cap)) as [->|Hne]; [|rewrite lookup_insert_ne in Hl by done; left; eauto].
  rewrite lookup_insert_eq in Hl. injection Hl as <-. right. destruct (replaceAgents_elem _ _ _ _ En Hin) as (?&s&?&?). naive_solver.
Qed.
(** After the topics of a configuration were made without an error, every agent its registry
    answers with reads from a topic that exists, and so do its teams; no topic there was is
    touched, and the summary tells the new ones from the others. *)
Theorem bootstrap_routable fine cfg cfg' reg b b' out :
  ownErrors fine -> onLog fine b -> normalizeStartup cfg = inl cfg' -> BuildRegistry cfg' = inl reg ->
  BootstrapTopics cfg b = (b', (out, None)) ->
  topics b ⊆ topics b' /\ (forall t, t ∈ bs_Created out -> topics b !! t = None /\ is_Some (topics b' !! t)) /\
  (forall requests answers a, (resolves requests reg).2 = answers -> inl a ∈ answers ->
     is_Some (topics b' !! ("agent." +:+ a +:+ ".inbox"))) /\
  (forall team, team ∈ sc_Teams cfg' -> is_Some (topics b' !! ("team." +:+ team +:+ ".broadcast"))).
Proof.
  intros Hw Hlog Hn Hb. unfold BootstrapTopics. rewrite Hn. unfold DesiredTopics.
  destruct (topicsOf _ (AllAgentIDs cfg')) as [ats|] eqn:Ea; [|done].
  destruct (topicsOf _ (sc_Teams cfg')) as [tts|] eqn:Et; [|done]. intros E.
  destruct (createTopics_spec _ _ _ _ _ _ _ Hw Hlog E) as (Hsub&Hin&cs&ss&Hc&Hs&Hiff&Hnew). cbn [bs_Created bs_Skipped app] in Hc, Hs.
  assert (forall t, t ∈ ats \/ t ∈ tts -> is_Some (topics b' !! t)) as Hex.
  { intros t Ht. apply Hin. unfold sortStrings. rewrite merge_sort_Permutation. apply elem_of_elements, elem_of_list_to_set, elem_of_app, Ht. }
  split; [done|]. split; [|split].
  - rewrite Hc. intros t Ht. split; [by apply Hnew|]. apply Hin, Hiff. by left.
  - intros requests answers a <- Ha.
    assert (exists c agents, capToAgents reg !! c = Some agents /\ a ∈ agents) as (c&agents&Hl&Hag).
    { clear -Ha. revert reg Ha. induction requests as [|c requests IH]; intros reg; cbn [resolves]; [by intros ?%elem_of_nil|].
      destruct (ResolveAgent c reg) as [reg1 x] eqn:Er. destruct (resolves requests reg1) as [reg2 xs] eqn:Es. cbn [snd].
      assert (capToAgents reg1 = capToAgents reg /\ forall y, x = inl y -> exists agents, capToAgents reg !! normalizeCapability c = Some agents /\ y ∈ agents) as [Hcap Hx].
      { unfold ResolveAgent in Er. case_decide; [by injection Er as <- <-|]. destruct (capToAgents reg !! _) as [l|] eqn:El; [|by injection Er as <- <-].
        case_decide as Hl; [by injection Er as <- <-|]. injection Er as <- <-. split; [done|]. intros y [= <-]. exists l. split; [done|].
        assert (0 < zlen l) by (destruct l; [done|rewrite zlen_cons; pose proof (zlen_nonneg l); lia]).
        match goal with |- default "" (zlookup l ?i) ∈ _ => destruct (zlookup_is_Some l i) as [z Hz] end; [apply Z.mod_pos_bound; lia|].
        rewrite Hz. unfold zlookup in Hz. case_decide; [|done]. by eapply list_elem_of_lookup_2. }
      intros [Ha|Ha]%elem_of_cons; [destruct (Hx a (eq_sym Ha)) as (l&?&?); eauto|]. rewrite <- Hcap. apply IH. by rewrite Es. }
    destruct (replaceAll_agents _ _ _ _ _ _ Hb Hl Hag) as [(?&Hnone&_)|(Hne&c'&raw&s&Hcr&Hs'&->)].
    { unfold NewCapabilityRegistry in Hnone. cbn in Hnone. by rewrite lookup_empty in Hnone. }
    destruct (topicsOf_spec _ _ _ Ea (TrimSpace s) (AgentInboxTopic (TrimSpace s))) as (t&Ht&Hta).
    + unfold AllAgentIDs, sortStrings. rewrite merge_sort_Permutation. apply dedupTrim_elem. split; [exact Hne|]. split; [set_solver|].
      exists s. split; [|done]. apply elem_of_app. right. apply list_elem_of_join. exists raw. split; [done|].
      apply list_elem_of_fmap. by exists (c', raw).
    + by left.
    + apply Hex. left. by apply componentTopic_inl in Ht as [_ <-].
  - intros team Hteam. destruct (topicsOf_spec _ _ _ Et team (TeamBroadcastTopic team) Hteam) as (t&Ht&Hta); [by left|].
    apply Hex. right. by apply componentTopic_inl in Ht as [_ <-].
Qed.
End routing.

(** ** Escalation *)
Section escalation.
#[local] Set Default Proof Using "Type*".
Context `{JSON json} `{JSONSyntax} `{AgentMessageJSON}.

Definition addressed (m : AgentMessage) (t : CoordinationTarget) : Prop :=
  ag_Receiver m = TrimSpace (tg_Receiver t) /\ ag_Team m = TrimSpace (tg_Team t) /\
  ag_Capability m = TrimSpace (tg_Capability t) /\ ag_Role m = TrimSpace (tg_Role t).
Lemma given_spec s : given s = true <-> s <> "".
Proof using. unfold given. rewrite negb_true_iff. apply bool_decide_eq_false. Qed.
Lemma applyTarget_spec m t m' : applyTarget m t = inl m' ->
  addressed m' t /\ ag_Sender m' = ag_Sender m /\ ag_Intent m' = ag_Intent m /\ ag_TenantID m' = ag_TenantID m /\
  ag_CorrelationID m' = ag_CorrelationID m /\ ag_MessageID m' = ag_MessageID m /\
  ag_Coordination m' = ag_Coordination m /\ ag_Payload m' = ag_Payload m.
Proof using.
  unfold applyTarget, normalizeTarget. cbn -[firstError checkGiven].
  match goal with |- context [firstError ?l] => destruct (firstError l) eqn:Ef end; [done|]. apply firstError_None in Ef.
  inversion Ef as [|? ? _ E1]. inversion E1 as [|? ? _ E2]. inversion E2 as [|? ? _ E3]. inversion E3 as [|? ? _ E4].
  inversion E4 as [|? ? Hc _]. subst. clear Ef E1 E2 E3 E4. intros [= <-].
  revert Hc. unfold addressed, countGiven, given.
  generalize (TrimSpace (tg_Receiver t)) (TrimSpace (tg_Team t)) (TrimSpace (tg_Capability t)) (TrimSpace (tg_Role t)).
  intros a b c d Hc. repeat case_bool_decide; first [discriminate Hc|repeat (case_decide; [|try congruence])];
    subst; try done; by split_and!.
Qed.
Lemma Validate_coordination m m' err c : ag_Coordination m = Some c -> AgentMessage_Validate m = (m', err) ->
  err = None -> exists c', normalizeCoordination c = (c', None) /\ m' = set_ag_Coordination (Some c') m.
Proof using.
  unfold AgentMessage_Validate. intros Hc. destruct (firstError _); [by intros [= <- <-]|]. rewrite Hc.
  destruct (normalizeCoordination c) as [c' e]. intros [= <- <-] ->. eauto.
Qed.
Lemma normalizeChain_length l l' err : normalizeChain l = (l', err) -> length l' = length l.
Proof using.
  revert l' err. induction l as [|t l IH]; intros l' err; cbn [normalizeChain]; [by intros [= <- _]|].
  destruct (normalizeTarget t) as [t' [|]]; [by intros [= <- _]|]. destruct (normalizeChain l) as [k e].
  intros [= <- _]. cbn. f_equal. by eapply IH.
Qed.
Lemma normalizeTarget_trim t : (normalizeTarget t).1 =
  mkTarget (TrimSpace (tg_Receiver t)) (TrimSpace (tg_Team t)) (TrimSpace (tg_Capability t)) (TrimSpace (tg_Role t)).
Proof using. done. Qed.
Lemma normalizeChain_trim l l' : normalizeChain l = (l', None) -> l' = (fun t => (normalizeTarget t).1) <$> l.
Proof using.
  revert l'. induction l as [|t l IH]; intros l'; cbn [normalizeChain]; [by intros [= <-]|].
  destruct (normalizeTarget t) as [t' [|]] eqn:Et; [done|]. destruct (normalizeChain l) as [k e]. intros [= <- ->].
  rewrite fmap_cons, Et. cbn [fst]. f_equal. by apply IH.
Qed.

(** The strategy of a message that escalates, and how far it is. *)
Definition escalates (m : AgentMessage) (f : FailureStrategy) (index : Z) : Prop :=
  exists c, ag_Coordination m = Some c /\ co_FailureStrategy c = Some f /\ fs_Action f = FailureActionEscalate /\
    index = Z.max 0 (co_EscalationIndex c).
(** The same chain, trimmed or not. *)
Definition trimmed (t : CoordinationTarget) : CoordinationTarget := (normalizeTarget t).1.
Definition sameChain (f f' : FailureStrategy) : Prop := trimmed <$> fs_EscalationChain f' = trimmed <$> fs_EscalationChain f.
Lemma trimmed_idem t : trimmed (trimmed t) = trimmed t.
Proof using. unfold trimmed. rewrite !normalizeTarget_trim. cbn -[TrimSpace]. by rewrite !TrimSpace_idem. Qed.
Lemma addressed_trimmed m t : addressed m (trimmed t) <-> addressed m t.
Proof using. unfold addressed, trimmed. rewrite normalizeTarget_trim. cbn -[TrimSpace]. by rewrite !TrimSpace_idem. Qed.

Lemma escalate_step now from sender failure from' m f index : escalates from f index ->
  zlen (fs_EscalationChain f) <= maxInt64 -> EscalateOnFailure now from sender failure = (from', inl m) ->
  exists t f', zlookup (fs_EscalationChain f) index = Some t /\ addressed m t /\ escalates m f' (index + 1) /\ sameChain f f' /\
    ag_Intent m = TrimSpace (ag_Intent from) /\ ag_TenantID m = TrimSpace (ag_TenantID from) /\
    ag_CorrelationID m = correlationOf from /\ ag_MessageID m = "".
Proof using.
  intros (c&Hc&Hf&Ha&Hi) Hlen. unfold EscalateOnFailure. rewrite Hc. destruct c as [p pm ps hf hr rr rv idx fs]. cbn in Hf, Hi. subst fs.
  assert ((if idx <? 0 then 0 else idx) = index) as -> by (destruct (Z.ltb_spec idx 0); lia).
  unfold escalationTarget. rewrite decide_True by done. destruct (zlookup _ index) as [t|] eqn:Et; [|done].
  destruct (marshalPayloadObject _) as [raw|]; [|done].
  match goal with |- context [applyTarget ?x t] => destruct (applyTarget x t) as [m0|] eqn:Eapp; [|done] end.
  destruct (applyTarget_spec _ _ _ Eapp) as (Haddr&_&Hint&Hten&Hcor&Hmid&Hcoord&_).
  destruct (AgentMessage_Validate m0) as [m1 err] eqn:Ev. intros E. destruct err; [done|]. injection E as _ <-.
  destruct (Validate_coordination _ _ _ _ Hcoord Ev eq_refl) as (c'&Hn&->).
  assert (0 <= index < zlen (fs_EscalationChain f)) as Hr.
  { apply zlookup_Some_lt in Et. lia. }
  unfold normalizeCoordination in Hn. cbn -[TrimSpace firstError] in Hn. case_decide; [done|]. destruct (firstError _); [done|].
  destruct (normalizeStrategy f) as [f' err] eqn:Ef. apply pair_eq in Hn as [<- ->].
  unfold normalizeStrategy in Ef. case_decide; [done|]. destruct (normalizeChain _) as [chain [|]] eqn:Ech; [done|].
  assert (fs_Action f' = FailureActionEscalate /\ fs_EscalationChain f' = chain) as [Ha' Hch].
  { rewrite Ha in Ef. destruct (fs_FallbackHandoffTo f) as [tf|]; [destruct (normalizeTarget tf) as [tf' e]; injection Ef as <- _|injection Ef as <-];
      by split; [vm_compute|]. }
  exists t, f'. split; [done|]. split; [exact Haddr|]. split.
  { eexists. split; [done|]. cbn. split; [done|]. split; [done|]. rewrite wrap64_id by (unfold int64_ok, minInt64, maxInt64 in *; lia).
    destruct (Z.ltb_spec (index + 1) 0); lia. }
  split; [|by cbn in *; rewrite Hint, Hten, Hcor, Hmid]. unfold sameChain. rewrite Hch. apply normalizeChain_trim in Ech as ->.
  rewrite <- list_fmap_compose. apply list_fmap_ext. intros i x _. apply trimmed_idem.
Qed.

(** [n] escalations one after the other, each of the message the one before made. *)
Inductive escalated (from : AgentMessage) : nat -> AgentMessage -> Prop :=
| escalated_none : escalated from 0 from
| escalated_next n m now sender failure m' m2 :
    escalated from n m -> EscalateOnFailure now m sender failure = (m', inl m2) -> escalated from (S n) m2.
Lemma sameChain_lookup f f' i t : sameChain f f' -> zlookup (fs_EscalationChain f') i = Some t ->
  exists t', zlookup (fs_EscalationChain f) i = Some t' /\ trimmed t' = trimmed t.
Proof using.
  unfold sameChain, zlookup. case_decide; [|done]. intros Hs Hl.
  assert ((trimmed <$> fs_EscalationChain f) !! Z.to_nat i = Some (trimmed t)) as Hl'
    by (rewrite <- Hs; by rewrite list_lookup_fmap, Hl).
  rewrite list_lookup_fmap in Hl'. destruct (fs_EscalationChain f !! Z.to_nat i) as [t'|]; [|done]. apply Some_inj in Hl'. by exists t'.
Qed.
Lemma firstNonEmpty_two a b : firstNonEmpty [a; b] = if decide (TrimSpace a = "") then TrimSpace b else TrimSpace a.
Proof using.
  unfold firstNonEmpty. cbn [fmap list_fmap List.find]. case_bool_decide as Ha.
  - rewrite decide_True by done. cbn [negb]. case_bool_decide as Hb; cbn; [by rewrite Hb|done].
  - by rewrite decide_False.
Qed.
Lemma correlation_kept m m' : ag_CorrelationID m' = correlationOf m -> ag_MessageID m' = "" -> correlationOf m' = correlationOf m.
Proof using.
  intros Hc Hm. unfold correlationOf at 1. rewrite Hc, Hm, firstNonEmpty_two. unfold correlationOf. rewrite firstNonEmpty_two.
  rewrite !TrimSpace_idem. destruct (decide (TrimSpace (ag_CorrelationID m) = "")) as [E|E]; rewrite !TrimSpace_idem.
  - case_decide as Hd; [|done]. by rewrite Hd.
  - by rewrite decide_False.
Qed.
(** A message that escalates goes from one target of its strategy's chain to the next, with its
    intent, tenant and correlation, and after the last one there is no further message: there
    are at most as many escalations as targets are left. *)
Theorem escalation_walks_chain from f index n m : escalates from f index -> zlen (fs_EscalationChain f) <= maxInt64 ->
  escalated from n m ->
  index + Z.of_nat n <= Z.max index (zlen (fs_EscalationChain f)) /\
  (n <> 0%nat -> exists t, zlookup (fs_EscalationChain f) (index + Z.of_nat n - 1) = Some t /\ addressed m t /\
     ag_Intent m = TrimSpace (ag_Intent from) /\ ag_TenantID m = TrimSpace (ag_TenantID from) /\
     ag_CorrelationID m = correlationOf from) /\
  (zlen (fs_EscalationChain f) <= index + Z.of_nat n -> forall now sender failure,
     EscalateOnFailure now m sender failure = (m, inr (ENew "escalation chain exhausted"))).
Proof using.
  intros He Hlen Hn.
  assert (exists f', escalates m f' (index + Z.of_nat n) /\ sameChain f f' /\ correlationOf m = correlationOf from /\
    (index + Z.of_nat n <= Z.max index (zlen (fs_EscalationChain f))) /\ TrimSpace (ag_Intent m) = TrimSpace (ag_Intent from) /\
    TrimSpace (ag_TenantID m) = TrimSpace (ag_TenantID from) /\
    (n <> 0%nat -> exists t, zlookup (fs_EscalationChain f) (index + Z.of_nat n - 1) = Some t /\ addressed m t /\
     ag_Intent m = TrimSpace (ag_Intent from) /\ ag_TenantID m = TrimSpace (ag_TenantID from) /\
     ag_CorrelationID m = correlationOf from)) as (f'&He'&Hs&_&Hb&_&_&Hlast).
  { induction Hn as [|n m now sender failure m' m2 Hn IH E].
    - exists f. rewrite Z.add_0_r. split_and!; try done. lia.
    - destruct IH as (f1&He1&Hs1&Hc1&Hb1&Hi1&Ht1&_).
      assert (zlen (fs_EscalationChain f1) = zlen (fs_EscalationChain f)) as Hz.
      { unfold sameChain in Hs1. apply (f_equal length) in Hs1. rewrite !length_fmap in Hs1. unfold zlen. by rewrite Hs1. }
      destruct (escalate_step _ _ _ _ _ _ _ _ He1 ltac:(lia) E) as (t&f2&Ht&Hadd&He2&Hs2&Hint&Hten&Hcor&Hmid).
      exists f2. replace (index + Z.of_nat (S n)) with (index + Z.of_nat n + 1) by lia.
      pose proof (zlookup_Some_lt _ _ _ Ht) as Hlt. split; [done|]. split; [unfold sameChain in *; congruence|].
      split; [rewrite (correlation_kept m m2) by done; done|]. split; [lia|].
      split; [by rewrite Hint, TrimSpace_idem|]. split; [by rewrite Hten, TrimSpace_idem|]. intros _.
      destruct (sameChain_lookup _ _ _ _ Hs1 Ht) as (t'&Ht'&Htr). exists t'.
      replace (index + Z.of_nat n + 1 - 1) with (index + Z.of_nat n) by lia. split; [done|].
      split; [apply addressed_trimmed; rewrite Htr; by apply addressed_trimmed|]. by rewrite Hint, Hten, Hcor. }
  split; [done|]. split; [done|]. intros Hend now sender failure. destruct He' as (c&Hc&Hf&Ha&Hi).
  unfold EscalateOnFailure. rewrite Hc. destruct c as [p pm ps hf hr rr rv idx fs]. cbn in Hf, Hi. subst fs.
  unfold escalationTarget. rewrite decide_True by done.
  assert ((if idx <? 0 then 0 else idx) = index + Z.of_nat n) as -> by (destruct (Z.ltb_spec idx 0); lia).
  destruct (zlookup (fs_EscalationChain f') (index + Z.of_nat n)) as [t|] eqn:Et; [|done].
  destruct (sameChain_lookup _ _ _ _ Hs Et) as (t'&Ht'%zlookup_Some_lt&_). lia.
Qed.
End escalation.

(** ** A concrete group of agents, used to instantiate the properties and to show findings *)
(** Alice and Bob, of whom Bob and Carol can code, on the broker of BrokerSteps.v.  Messages are
    decoded from three known texts. *)
Definition payload : bytes := fromString "{}".
Definition strategy : FailureStrategy :=
  mkStrategy "escalate" [mkTarget " carol" "" "" ""; mkTarget "" "core" "" ""] None.
Definition direct : AgentMessage :=
  mkAgentMessage "m1" "" "" None "acme" "alice" "bob" "" "" "" "review" "" None payload.
Definition coding : AgentMessage :=
  mkAgentMessage "m2" "" "" None "acme" "alice" "" "" "" "Coding" "review" "" None payload.
Definition failing : AgentMessage :=
  mkAgentMessage "m3" "" "" None "acme" "alice" "bob" "" "" "" "review" ""
    (Some (mkCoordination "" "" "" "" "" false false 0 (Some strategy))) payload.
#[local] Instance payloadJSON : JSON json := {| marshal := fun _ => inl payload; unmarshal := fun _ => inl (JObject []) |}.
#[local] Instance payloadSyntax : JSONSyntax := {| validJSON := fun b => negb (bool_decide (b = [])) |}.
#[local] Instance messageJSON : AgentMessageJSON := {|
  json_agentMessage := {| marshal := fun _ => inl [];
    unmarshal := fun b => if decide (toString b = "direct") then inl direct
                          else if decide (toString b = "coding") then inl coding else inr (ENew "invalid") |};
  json_failurePayload := {| marshal := fun _ => inl payload; unmarshal := fun _ => inr (ENew "invalid") |}
|}.

Definition config : StartupConfig := mkStartup ["alice"; " bob "] ["core"] {["coding" := ["bob"; "carol"]]} 0 false [].
Definition started : StartupConfig := mkStartup ["alice"; "bob"] ["core"] {["coding" := ["bob"; "carol"]]} 1 false [].
Lemma config_started : normalizeStartup config = inl started.
Proof. vm_compute. reflexivity. Qed.
Definition capableAgents : CapabilityRegistry := mkCapabilities {["coding" := ["bob"; "carol"]]} {["coding" := 0]}.
Lemma started_registry : BuildRegistry started = inl capableAgents.
Proof. vm_compute. reflexivity. Qed.
Lemma capableAgents_ok : registry_ok capableAgents.
Proof.
  pose proof (registry_kept "coding" ["bob"; "carol"] NewCapabilityRegistry new_ok) as (_&Hr&_).
  by replace capableAgents with (Replace "coding" ["bob"; "carol"] NewCapabilityRegistry).1 by (vm_compute; reflexivity).
Qed.
Definition requests : list string := ["coding"; "cooking"; " Coding"; "coding"].
Lemma round_robin_witness : answersFor "coding" requests (resolves requests capableAgents).2 = [inl "bob"; inl "carol"; inl "bob"] /\
  1 <= occurrences (inl "bob") (answersFor "coding" requests (resolves requests capableAgents).2) <= 2.
Proof.
  destruct (round_robin "coding" ["bob"; "carol"] requests capableAgents capableAgents_ok) as (_&_&Hb); [reflexivity|discriminate|].
  split; [vm_compute; reflexivity|apply (Hb "bob"); apply list_elem_of_here].
Defined.
Lemma registry_kept_witness : registry_ok (CapabilityRegistry_Register "cooking" ["dan"] capableAgents).1.
Proof. apply (registry_kept "cooking" ["dan"] capableAgents), capableAgents_ok. Defined.

(** *** On the broker *)
Lemma createTopics_wf ts n out (b : exBroker) : wf b -> wf (createTopics ts n out b).1.
Proof.
  revert out b. induction ts as [|t ts IH]; intros out b Hb; [done|]. cbn [createTopics].
  pose proof (proj1 (bstep_good _ _ (step_create t n (mkTopicConfig "") b) Hb)) as Hs. unfold CreateTopic.
  destruct (CreateTopicWithConfig t n (mkTopicConfig "") b) as [b1 [err|]]; [destruct (errors_Is _ _)|]; by try apply IH.
Qed.
Abbreviation bootstrapped := (BootstrapTopics config ex0).
(** A log whose appends do not fail. *)
Definition healthy (w : MemWAL) : Prop := mw_script w = [].
Lemma healthy_errors : ownErrors healthy.
Proof. intros e w Hw. unfold healthy, Append, MemWAL_WAL in *. rewrite Hw. by split. Qed.
Lemma ex0_healthy : onLog healthy ex0.
Proof. intros w. vm_compute. by intros [= <-]. Qed.
Lemma bootstrap_routable_witness :
  is_Some (topics bootstrapped.1 !! "agent.carol.inbox") /\ is_Some (topics bootstrapped.1 !! "team.core.broadcast").
Proof.
  assert (bootstrapped.2.2 = None) as Hn by (vm_compute; reflexivity).
  destruct (bootstrap_routable healthy config started capableAgents ex0 bootstrapped.1 bootstrapped.2.1 healthy_errors ex0_healthy
              config_started started_registry) as (_&_&Hagents&Hteams).
  { rewrite <- Hn. destruct bootstrapped as [b [out err]]. reflexivity. }
  pose proof (Hagents ["coding"; "coding"] _ "carol" eq_refl) as Hcarol. split; [apply Hcarol|exact (Hteams "core" (list_elem_of_here _ _))].
  assert ((resolves ["coding"; "coding"] capableAgents).2 = [inl "bob"; inl "carol"]) as -> by (vm_compute; reflexivity).
  apply list_elem_of_further, list_elem_of_here.
Defined.

Definition cfg : RouterConfig := routerConfig started.
Definition routed : exBroker := SetRouter (Some (fun t m => (Route cfg t m (Some capableAgents)).2)) bootstrapped.1.
Lemma routed_wf : wf routed.
Proof.
  apply (bstep_good bootstrapped.1 routed); [apply step_set_router|]. unfold BootstrapTopics. rewrite config_started.
  destruct (DesiredTopics started); [apply createTopics_wf|]; exact (reachable_wf' _ reachable_ex0).
Qed.
Definition sent : Message := mkMessage 0 0 [] (fromString "coding") None None 0 "".
Abbreviation produced := (Produce T0 T0 T0 T0 "agent.alice.outbox" sent routed).
Lemma agent_message_lands_witness : exists part m, m_Value m = fromString "coding" /\
  logOf (topics produced.1) "agent.bob.inbox" part = logOf (topics routed) "agent.bob.inbox" part ++ [m].
Proof.
  assert (produced.2 = None) as Hn by (vm_compute; reflexivity).
  destruct (agent_message_lands cfg (Some capableAgents) T0 T0 T0 T0 "agent.alice.outbox" sent coding routed produced.1 None)
    as (_&kind&target&reg'&Hk&Hg&[[Hid _]|(_&_&part&m&rt&Hv&_&_&Hl)]);
    [apply routed_wf|reflexivity|reflexivity|right; apply (bool_decide_eq_true_1 _); vm_compute; reflexivity|vm_compute; reflexivity| | |].
  - rewrite <- Hn. apply surjective_pairing.
  - destruct Hid as (?&?&?&Hid&_). discriminate Hid.
  - exists part, m. split; [exact Hv|].
    assert (target = "agent.bob.inbox") as Ht.
    { assert (ResolvedRouteKind coding = inl RouteKindCapability) as Hc by (vm_compute; reflexivity). rewrite Hc in Hk.
      injection Hk as <-. inversion Hg as [| |r r' agent Hr Ha]. injection Hr as <-. vm_compute in Ha. injection Ha as _ <-. reflexivity. }
    rewrite <- Ht, Hl. rewrite decide_True by (split; reflexivity). reflexivity.
Defined.

(** *** Escalation *)
Definition signal : FailureSignal := mkFailure "timeout" "" "bob" true.
Abbreviation escalation := (EscalateOnFailure 7 failing "alice" signal).
Lemma escalation_walks_chain_witness : exists m, escalation.2 = inl m /\ ag_Receiver m = "carol" /\ ag_CorrelationID m = "m3".
Proof.
  assert (match escalation.2 with inl _ => True | inr _ => False end) as Hok by (vm_compute; exact Logic.I).
  destruct escalation as [from' [m|]] eqn:E; [|destruct Hok]. exists m. split; [reflexivity|].
  destruct (escalation_walks_chain failing strategy 0 1 m) as (_&Hs&_).
  - eexists. split; [reflexivity|]. split; [reflexivity|]. split; reflexivity.
  - vm_compute. discriminate.
  - eapply escalated_next; [constructor|exact E].
  - destruct Hs as (t&Ht&(Hr&_)&_&_&Hc); [discriminate|]. injection Ht as <-. split; [rewrite Hr|rewrite Hc]; vm_compute; reflexivity.
Defined.

(** *** Findings *)
(** Two topics that are nobody's inbox and outbox are read as those of agents. *)
Lemma overlapping_topic_names :
  AgentIDFromInboxTopic "agent.inbox" = Some "inbox" /\ AgentInboxTopic "inbox" <> inl "agent.inbox" /\
  AgentIDFromOutboxTopic "agent.outbox" = Some "outbox" /\ TeamIDFromBroadcastTopic "team.broadcast" = Some "broadcast".
Proof. vm_compute. done. Qed.
(** A reply is for no tenant, although the request was for one. *)
Lemma reply_loses_tenant :
  match NewReply 7 direct "bob" (RawPayload payload) with
  | inl m => ag_TenantID direct = "acme" /\ ag_TenantID m = "" /\ ag_Receiver m = "alice"
  | inr _ => False
  end.
Proof. vm_compute. done. Qed.
(** Registering fails at an agent that is not valid, and keeps those before it. *)
Lemma failed_registration_kept :
  let '(reg, err) := CapabilityRegistry_Register "coding" ["dan"; "no body"] capableAgents in
  err <> None /\ capToAgents reg !! "coding" = Some ["bob"; "carol"; "dan"].
Proof. vm_compute. done. Qed.
