(* ===== verification/AgentStateSpec.v ===== *)
(** * Histories of agent states (properties of AgentState.v)

    [history r tenant agent h]: the versions of an agent are the list [h], oldest first.  A
    write appends to the history of its agent and leaves the other histories alone; reads and
    lineages are read off the history. *)
From S2P Require Import Prelude Storage Graph EngineStore FileStore Throttle Authz AuthzSpec Risk Tools Runtime Governance.
From S2P Require Import Human Admission DagRun DagStore AdmissionSpec.
From S2P Require Import ToolsSpec KVSpec CallContext AgentState.

(** What is known of the encodings: versions, and the snapshots that are [storable] (text in
    valid UTF-8, the state compact), are read back as they were written. *)
Class AgentLaws `{AgentJSON} : Type := {
  storable : AgentStateSnapshot -> Prop;
  version_round (n : Z) b : marshal n = inl b -> unmarshal b = inl n;
  snapshot_round (s : AgentStateSnapshot) b : storable s -> marshal s = inl b -> unmarshal b = inl s
}.

(** ** Keys *)
Lemma part_plain v : plain (agentStateKeyPart v).
Proof. apply PathEscape_plain. Qed.
Lemma part_slashFree v : slashFree (agentStateKeyPart v).
Proof. apply PathEscape_slashFree. Qed.
Lemma latestKey_trim t a : TrimSpace (agentStateLatestKey t a) = agentStateLatestKey t a.
Proof.
  apply TrimSpace_plain. unfold agentStateLatestKey. rewrite !plain_app.
  split; [plain|]. split; [apply part_plain|]. split; [plain|apply part_plain].
Qed.
Lemma snapshotKey_trim t a n : 0 <= n -> TrimSpace (agentStateSnapshotKey t a n) = agentStateSnapshotKey t a n.
Proof.
  intros Hn. apply TrimSpace_plain. unfold agentStateSnapshotKey. rewrite !plain_app.
  split; [plain|]. split; [apply part_plain|]. split; [plain|]. split; [apply part_plain|].
  split; [plain|by apply padded_plain].
Qed.
(** An agent is a tenant and a name, up to surrounding space. *)
Definition sameAgent (t a t' a' : string) : Prop := TrimSpace t' = TrimSpace t /\ TrimSpace a' = TrimSpace a.
Lemma latestKey_inj t a t' a' : agentStateLatestKey t' a' = agentStateLatestKey t a -> sameAgent t a t' a'.
Proof.
  intros E%app_inj_l. apply slash_inj in E as [E1 E2]; [|apply part_slashFree..].
  split; by apply (inj PathEscape).
Qed.
Lemma snapshotKey_inj t a n t' a' n' :
  0 <= n -> 0 <= n' -> agentStateSnapshotKey t' a' n' = agentStateSnapshotKey t a n -> sameAgent t a t' a' /\ n' = n.
Proof.
  intros Hn Hn' E%app_inj_l. apply slash_inj in E as [E1 E]; [|apply part_slashFree..].
  apply slash_inj in E as [E2 E3]; [|apply part_slashFree..].
  split; [split; by apply (inj PathEscape)|by eapply padded_inj].
Qed.
Lemma keys_apart t a t' a' n : agentStateLatestKey t a <> agentStateSnapshotKey t' a' n.
Proof. unfold agentStateLatestKey, agentStateSnapshotKey. discriminate. Qed.
Lemma agentKey_audit k : (exists s, k = "agent_state/" +:+ s) -> ~ under "audit/" k.
Proof.
  intros [s ->] [u E]. destruct (TrimSpace_prefix "agent_state/" s) as [v Ev]; [plain|done|].
  rewrite Ev in E. discriminate E.
Qed.

Section histories.
#[local] Set Default Proof Using "Type*".
Context {S F A : Type} `{Store S} `{!KVLaws S} `{Ambient} `{MapOrder}.
Context `{JSON (list string)} `{JSON AuditRecord} `{JSONSyntax} `{AgentJSON} `{!AgentLaws}.
Implicit Types r : Runner S F A.

Definition newest (h : list AgentStateSnapshot) : option Z := if decide (h = []) then None else Some (zlen h).
Record history r (tenantID agentID : string) (h : list AgentStateSnapshot) : Prop := {
  history_latest : latestAgentStateVersion tenantID agentID r = inl (newest h);
  history_read i s : h !! i = Some s ->
    readAgentStateVersion tenantID agentID (Z.of_nat i + 1) r = inl (Some s) /\
    as_Version s = Z.of_nat i + 1 /\ as_ParentVersion s = Z.of_nat i
}.

(** ** Steps that leave a history alone *)
Lemma history_kv r r' t a h :
  kvOf r' (agentStateLatestKey t a) = kvOf r (agentStateLatestKey t a) ->
  (forall n, 1 <= n <= zlen h -> kvOf r' (agentStateSnapshotKey t a n) = kvOf r (agentStateSnapshotKey t a n)) ->
  history r t a h -> history r' t a h.
Proof.
  intros Hl Hs [Hh Hr]. split.
  - rewrite <- Hh. unfold latestAgentStateVersion. by rewrite (getJSONKV_kv _ r r').
  - intros i s Hi. destruct (Hr i s Hi) as [<- ?]. split; [|done]. unfold readAgentStateVersion.
    rewrite (getJSONKV_kv _ r r'); [done|]. apply Hs. apply lookup_lt_Some in Hi. unfold zlen. lia.
Qed.
Lemma audit_history ctx now rec r t a h : history r t a h -> history (appendAuditRecord ctx now rec r) t a h.
Proof.
  apply history_kv; [|intros n _]; apply audit_outside, agentKey_audit; by eexists.
Qed.
Lemma access_history ctx now t' a' action r t a h :
  history r t a h -> history (ensureAgentStateAccess ctx now t' a' action r).1 t a h.
Proof.
  unfold ensureAgentStateAccess. repeat (case_decide; [apply audit_history|]). apply audit_history.
Qed.

(** ** Writing a version *)
(** What keeps a snapshot that may be written from being stored: the codec, or the store. *)
Definition unsaved (s : AgentStateSnapshot) (err : error) : Prop :=
  marshal s = inr err \/ marshal (as_Version s) = inr err \/ exists k v (x : S), (PutKV k v x).2 = Some err.
Lemma put_unsaved `{JSON T} key (v : T) r r' err : putJSONKV key v r = (r', Some err) ->
  marshal v = inr err \/ exists k v (x : S), (PutKV k v x).2 = Some err.
Proof.
  unfold putJSONKV. destruct (marshal v) as [b|]; [|intros [= _ <-]; by left]. unfold onStore.
  destruct (PutKV key (toString b) (rn_store r)) as [x o] eqn:E. intros [= _ ->]. right. exists key, (toString b), (rn_store r). by rewrite E.
Qed.
Lemma endWrite_history s r r' res t a h :
  storable s -> t = as_TenantID s -> a = as_AgentID s ->
  as_Version s = zlen h + 1 -> as_ParentVersion s = zlen h ->
  endWrite s r = (r', res) -> history r t a h ->
  let s' := cloneAgentStateSnapshot s in
  (res = inl s' /\ history r' t a (h ++ [s'])) \/
  (exists err, res = inr err /\ unsaved s err) /\ (history r' t a h \/ history r' t a (h ++ [s'])).
Proof.
  intros Hst -> -> Hv Hp E Hh s'. unfold endWrite in E.
  assert (0 <= zlen h) as Hlen by (unfold zlen; lia).
  set (ks := agentStateSnapshotKey (as_TenantID s) (as_AgentID s) (as_Version s)) in *.
  set (kl := agentStateLatestKey (as_TenantID s) (as_AgentID s)) in *.
  destruct (putJSONKV ks s r) as [r1 o] eqn:E1.
  assert (history r1 (as_TenantID s) (as_AgentID s) h) as Hh1.
  { assert (r1 = (putJSONKV ks s r).1) as -> by by rewrite E1.
    revert Hh. apply history_kv; [|intros n Hn]; apply putJSONKV_other; unfold ks.
    - rewrite latestKey_trim, snapshotKey_trim by lia. apply keys_apart.
    - rewrite !snapshotKey_trim by lia. intros [_ En]%snapshotKey_inj; lia. }
  destruct o as [err|].
  { injection E as <- <-. right. split; [exists err; split; [done|]|by left].
    destruct (put_unsaved _ _ _ _ _ E1) as [Hm|Hm]; [by left|by right; right]. }
  assert (kvOf r1 ks <> None /\ getJSONKV ks r1 = Some (inl s)) as [_ Hks].
  { destruct (putJSONKV_same ks s r r1 ks E1 eq_refl) as (b&Hb&Hk). split; [by rewrite Hk|].
    rewrite (getJSONKV_put _ _ _ Hk). by rewrite (snapshot_round _ _ Hst Hb). }
  destruct (putJSONKV kl (as_Version s) r1) as [r2 o] eqn:E2.
  assert (forall n, 1 <= n -> kvOf r2 (agentStateSnapshotKey (as_TenantID s) (as_AgentID s) n) =
                             kvOf r1 (agentStateSnapshotKey (as_TenantID s) (as_AgentID s) n)) as Hother.
  { intros n Hn. assert (r2 = (putJSONKV kl (as_Version s) r1).1) as -> by by rewrite E2. apply putJSONKV_other.
    unfold kl. rewrite latestKey_trim, snapshotKey_trim by lia. apply not_eq_sym, keys_apart. }
  assert (getJSONKV kl r2 = Some (inl (as_Version s)) ->
          history r2 (as_TenantID s) (as_AgentID s) (h ++ [s'])) as Happ.
  { intros Hkl. split.
    - unfold latestAgentStateVersion. fold kl. rewrite Hkl, Hv. destruct (Z.ltb_spec 0 (zlen h + 1)); [|lia].
      unfold newest. rewrite decide_False by (by destruct h). unfold zlen. rewrite length_app. simpl. do 2 f_equal. lia.
    - intros i x Hx. unfold readAgentStateVersion. rewrite (getJSONKV_kv _ r1 r2) by (apply Hother; lia).
      apply lookup_snoc_Some in Hx as [[Hi Hx]|[-> <-]]; [apply (history_read _ _ _ _ Hh1 _ _ Hx)|].
      unfold zlen in *. unfold s'. simpl. rewrite <- Hv. fold ks. rewrite Hks. done. }
  destruct o as [err|]; injection E as <- <-.
  - right. split.
    { exists err. split; [done|]. right. by eapply put_unsaved. }
    unfold putJSONKV in E2. destruct (marshal (as_Version s)) as [b|] eqn:Eb; [|by injection E2 as <- _; left].
    assert (kvOf r2 kl = kvOf r1 kl \/ kvOf r2 kl = Some (toString b)) as [Hk|Hk].
    { assert (r2 = (onStore (PutKV kl (toString b)) r1).1) as -> by by rewrite E2.
      rewrite !onStore_kv. apply kv_refused. }
    + left. revert Hh1. apply history_kv; [exact Hk|intros n Hn; apply Hother; lia].
    + right. apply Happ. rewrite (getJSONKV_put _ _ _ Hk). by rewrite (version_round _ _ Eb).
  - left. split; [done|]. apply Happ. destruct (putJSONKV_same kl _ _ _ kl E2 eq_refl) as (b&Hb&Hk).
    rewrite (getJSONKV_put _ _ _ Hk). by rewrite (version_round _ _ Hb).
Qed.
Lemma endWrite_other s r t a h :
  0 <= as_Version s -> ~ sameAgent (as_TenantID s) (as_AgentID s) t a ->
  history r t a h -> history (endWrite s r).1 t a h.
Proof.
  intros Hv Hne Hh. unfold endWrite.
  assert (forall x, history x t a h ->
    history (putJSONKV (agentStateSnapshotKey (as_TenantID s) (as_AgentID s) (as_Version s)) s x).1 t a h) as H1'.
  { intros x. apply history_kv; [|intros n Hn]; apply putJSONKV_other.
    - rewrite latestKey_trim, snapshotKey_trim by lia. apply keys_apart.
    - rewrite !snapshotKey_trim by lia. by intros [Hs _]%snapshotKey_inj; [|lia..]. }
  assert (forall x, history x t a h ->
    history (putJSONKV (agentStateLatestKey (as_TenantID s) (as_AgentID s)) (as_Version s) x).1 t a h) as H2'.
  { intros x. apply history_kv; [|intros n Hn]; apply putJSONKV_other.
    - rewrite !latestKey_trim. by intros Hs%latestKey_inj.
    - rewrite latestKey_trim, snapshotKey_trim by lia. apply not_eq_sym, keys_apart. }
  specialize (H1' r Hh). destruct (putJSONKV _ s r) as [r1 [err|]]; [done|]. simpl in H1'.
  specialize (H2' r1 H1'). by destruct (putJSONKV _ _ r1) as [r2 [err|]].
Qed.

(** ** Access *)
Definition mayUseAgent (ctx : CallCtx) (tenantID agentID : string) : Prop :=
  tenantID <> "" /\ effectiveTenantFromContext ctx = tenantID /\ (AgentIDFrom ctx = "" \/ AgentIDFrom ctx = agentID) /\
  forall p, PrincipalFrom ctx = Some p -> p_TenantScopes p = [] \/ exists s, s ∈ p_TenantScopes p /\ globs s tenantID.
Lemma access_spec ctx now t a action r :
  (ensureAgentStateAccess ctx now t a action r).2 = None <-> mayUseAgent ctx (TrimSpace t) (TrimSpace a).
Proof.
  unfold ensureAgentStateAccess, mayUseAgent. set (t0 := TrimSpace t). set (a0 := TrimSpace a).
  case_decide as H1'; [split; [done|naive_solver]|].
  case_decide as H2'; [split; [done|naive_solver]|].
  case_decide as H3'; [split; [done|naive_solver]|].
  assert (AgentIDFrom ctx = "" \/ AgentIDFrom ctx = a0) as Ha.
  { destruct (decide (AgentIDFrom ctx = "")); [by left|right]. apply dec_stable. tauto. }
  assert (forall scopes, existsb (matchPattern t0) scopes = true <-> exists s, s ∈ scopes /\ globs s t0) as Hex.
  { intros scopes. rewrite existsb_elem. by setoid_rewrite matchPattern_spec. }
  case_decide as Hd; cbn [snd].
  - split; [done|]. intros (_&_&_&Hp). destruct (PrincipalFrom ctx) as [p|]; [|by destruct Hd].
    destruct Hd as [Hd1 Hd2]. destruct (Hp p eq_refl) as [?|Hs%Hex]; congruence.
  - split; [|done]. intros _. split; [done|]. split; [done|]. split; [done|]. intros p Hp. rewrite Hp in Hd.
    destruct (decide (p_TenantScopes p = [])) as [|Hne]; [by left|right]. apply Hex.
    destruct (existsb _ _); [done|]. by destruct Hd.
Qed.
Lemma normalize_id id a : normalizeAgentStateID id = inl a -> a = TrimSpace id /\ TrimSpace a = a.
Proof.
  unfold normalizeAgentStateID. case_decide; [done|]. destruct (negb _); [done|]. intros [= <-].
  by rewrite TrimSpace_idem.
Qed.
Lemma tenant_trim (c : Ctx) : TrimSpace (effectiveTenantFromContext c) = effectiveTenantFromContext c.
Proof.
  unfold effectiveTenantFromContext. case_decide; [apply TrimSpace_idem|].
  destruct (PrincipalFrom c); [apply TrimSpace_idem|done].
Qed.

(** ** Writing *)
Implicit Types ctx : CallCtx.
Definition writtenState (q : AgentStateWriteRequest) : bytes :=
  if decide (wq_State q = []) then fromString "{}" else wq_State q.
Lemma beginWrite_history ctx now q r r' res t a h :
  history r t a h -> beginWrite ctx now q r = (r', res) -> history r' t a h.
Proof.
  intros Hh. unfold beginWrite. destruct (normalizeAgentStateID _) as [id|]; [|by intros [= <- _]].
  destruct (negb _); [by intros [= <- _]|].
  pose proof (access_history ctx now (effectiveTenantFromContext ctx) id "agent_state.write" r t a h Hh) as Ha.
  destruct (ensureAgentStateAccess _ _ _ _ _ r) as [r1 [err|]]; [by intros [= <- _]|].
  destruct (ReplayScopeFrom now ctx); [by intros [= <- _]|].
  destruct (latestAgentStateVersion _ _ r1); [|by intros [= <- _]].
  destruct (_ && _); by intros [= <- _].
Qed.
Lemma default_newest h : default 0 (newest h) = zlen h.
Proof. unfold newest. by destruct h. Qed.
(** The write [q] may be made: its state is JSON, the caller may use the agent, no replay is going on, and the
    version it expects, if any, is the last of the history. *)
Definition permitted ctx (now : Time) q (t a : string) (h : list AgentStateSnapshot) : Prop :=
  validJSON (writtenState q) = true /\ mayUseAgent ctx t a /\ ReplayScopeFrom now ctx = None /\
  (0 < wq_ExpectedVersion q -> wq_ExpectedVersion q = zlen h).
Lemma beginWrite_spec ctx now q r r' res a h :
  let t := effectiveTenantFromContext ctx in
  normalizeAgentStateID (wq_AgentID q) = inl a -> history r t a h -> beginWrite ctx now q r = (r', res) ->
  match res with
  | inl s => permitted ctx now q t a h /\ s = nextSnapshot ctx now t a (writtenState q) (zlen h)
  | inr _ => ~ permitted ctx now q t a h
  end.
Proof.
  intros t Ha Hh. unfold beginWrite, permitted. rewrite Ha. fold (writtenState q) t.
  destruct (validJSON (writtenState q)) eqn:Ev; [|intros [= <- <-]; by intros [? _]]. cbn [negb].
  pose proof (access_history ctx now t a "agent_state.write" r _ _ _ Hh) as Hh1.
  pose proof (access_spec ctx now t a "agent_state.write" r) as Hm.
  unfold t in Hm at 2. rewrite tenant_trim in Hm. fold t in Hm. apply normalize_id in Ha as [_ Ha]. rewrite Ha in Hm.
  destruct (ensureAgentStateAccess _ _ _ _ _ r) as [r1 [err|]]; cbn [fst snd] in Hh1, Hm.
  { intros [= <- <-] (_&Hu&_). by apply Hm in Hu. }
  destruct (ReplayScopeFrom now ctx); [intros [= <- <-] (_&_&?&_); done|].
  rewrite (history_latest _ _ _ _ Hh1), default_newest.
  destruct (Z.ltb_spec 0 (wq_ExpectedVersion q)), (Z.eqb_spec (wq_ExpectedVersion q) (zlen h)); simpl;
    intros [= <- <-]; try (split; [|done]; split_and!; try done; try (by apply Hm); lia).
  intros (_&_&_&Hx). specialize (Hx ltac:(done)). congruence.
Qed.

(** C25: A write of an agent's state that is permitted (the state is JSON, the caller may use the agent, no
    replay is going on, and the version expected, if any, is the last one) appends one version to the
    history of this agent.  One that is not permitted returns an error and leaves the history as it was.
    A permitted write fails only where the codec or the store refuses; then the history is as it was, or
    the version is in it all the same.  The histories of other agents never change. *)
Theorem WriteAgentState_appends ctx now q r r' res a h :
  let t := effectiveTenantFromContext ctx in
  let s := nextSnapshot ctx now t a (writtenState q) (zlen h) in
  normalizeAgentStateID (wq_AgentID q) = inl a -> history r t a h -> zlen h < maxInt64 -> storable s ->
  WriteAgentState ctx now q r = (r', res) ->
  match res with
  | inl s' => permitted ctx now q t a h /\ s' = cloneAgentStateSnapshot s /\ history r' t a (h ++ [s'])
  | inr err => ~ permitted ctx now q t a h /\ history r' t a h \/
      permitted ctx now q t a h /\ unsaved s err /\
        (history r' t a h \/ history r' t a (h ++ [cloneAgentStateSnapshot s]))
  end /\
  forall t' a' h', ~ sameAgent t a t' a' -> history r t' a' h' -> history r' t' a' h'.
Proof.
  intros t s Ha Hh Hmax Hst. unfold WriteAgentState. assert (0 <= zlen h) as Hlen by (unfold zlen; lia).
  destruct (beginWrite ctx now q r) as [r1 [s0|err]] eqn:Eb; pose proof (beginWrite_spec _ _ _ _ _ _ _ _ Ha Hh Eb) as Hb.
  - destruct Hb as [Hp ->]. fold t s.
    assert (as_Version s = zlen h + 1) as Hv by (simpl; apply wrap64_id; unfold int64_ok, minInt64, maxInt64 in *; lia).
    pose proof (beginWrite_history _ _ _ _ _ _ _ _ _ Hh Eb) as Hh1. intros E. split.
    + destruct (endWrite_history s r1 r' res t a h Hst eq_refl eq_refl Hv eq_refl E Hh1) as [[-> Hr]|[(err&->&Hx) Hr]]; [done|by right].
    + intros t' a' h' Hne Hh'. assert (r' = (endWrite s r1).1) as -> by by rewrite E.
      apply endWrite_other; [lia|exact Hne|]. by eapply beginWrite_history.
  - intros [= <- <-]. split; [left; split; [done|]|intros t' a' h' _ Hh']; by eapply beginWrite_history.
Qed.

(** ** Reading *)
(** What a read without a version sees: the latest version, or, in a replay, the latest one made
    before the replay started, if there is one. *)
Definition visible ctx (now : Time) (h : list AgentStateSnapshot) : option AgentStateSnapshot :=
  match ReplayScopeFrom now ctx with
  | None => last h
  | Some scope =>
    match last (filter (fun s => After (as_CreatedAt s) (rs_StartedAt scope) = false) h) with
    | Some s => Some s
    | None => last h
    end
  end.
Lemma readableVersion_spec r t a h boundary n :
  history r t a h -> (n <= length h)%nat ->
  readableVersion t a boundary n r =
  inl (last (filter (fun s => After (as_CreatedAt s) boundary = false) (take n h))).
Proof.
  intros Hh. induction n as [|n IH]; intros Hn; [done|].
  destruct (lookup_lt_is_Some_2 h n) as [s Hs]; [lia|]. destruct (history_read _ _ _ _ Hh n s Hs) as [Hr _].
  cbn [readableVersion]. replace (Z.of_nat (Datatypes.S n)) with (Z.of_nat n + 1) by lia. rewrite Hr.
  rewrite (take_S_r _ _ _ Hs), filter_app.
  destruct (After (as_CreatedAt s) boundary) eqn:Ea; cbn [negb].
  - rewrite filter_cons_False, filter_nil, app_nil_r by (by rewrite Ea). apply IH. lia.
  - rewrite filter_cons_True, filter_nil by done. by rewrite last_snoc.
Qed.
Lemma readLatest_spec ctx now r t a h :
  history r t a h ->
  readLatest ctx now t a r = match visible ctx now h with Some s => inl s | None => inr (agentNotFound a "") end.
Proof.
  intros Hh.
  assert (match latestAgentStateVersion t a r with
          | inr err => inr err
          | inl None => inr (agentNotFound a "")
          | inl (Some latest) =>
            match readAgentStateVersion t a latest r with
            | inr err => inr err
            | inl None => inr (agentNotFound a "")
            | inl (Some s) => inl s
            end
          end = match last h with Some s => inl s | None => inr (agentNotFound a "") end) as Hlast.
  { rewrite (history_latest _ _ _ _ Hh). unfold newest. destruct h as [|x h' _] using rev_ind; [done|].
    rewrite decide_False by (by destruct h'). rewrite last_snoc.
    assert ((h' ++ [x]) !! length h' = Some x) as Hx by (by apply lookup_snoc_Some; right).
    destruct (history_read _ _ _ _ Hh _ _ Hx) as [Hr _].
    replace (zlen (h' ++ [x])) with (Z.of_nat (length h') + 1) by (unfold zlen; rewrite length_app; simpl; lia).
    by rewrite Hr. }
  unfold readLatest, latestReplayReadableAgentState, visible. destruct (ReplayScopeFrom now ctx) as [scope|]; [|exact Hlast].
  pose proof (history_latest _ _ _ _ Hh) as Hn. rewrite Hn in Hlast |- *. unfold newest in *.
  case_decide as Hd; [subst; exact Hlast|].
  rewrite (readableVersion_spec r t a h) by (done || unfold zlen; lia).
  unfold zlen. rewrite Nat2Z.id, firstn_all. destruct (last (filter _ h)); [done|exact Hlast].
Qed.

(** A read is answered from the history of the agent, if the caller may use the agent: a
    version that is asked for is the one of the history, and without a version it is the one
    [visible] names.  A caller that may not use the agent reads nothing, and reading changes no
    history. *)
Theorem ReadAgentState_exact ctx now id opts r a h :
  let t := effectiveTenantFromContext ctx in
  normalizeAgentStateID id = inl a -> history r t a h ->
  let '(r', res) := ReadAgentState ctx now id opts r in
  (mayUseAgent ctx t a ->
     (forall s, 0 < ro_Version opts -> h !! Z.to_nat (ro_Version opts - 1) = Some s -> res = inl s) /\
     (ro_Version opts <= 0 -> res = match visible ctx now h with Some s => inl s | None => inr (agentNotFound a "") end)) /\
  (~ mayUseAgent ctx t a -> exists err, res = inr err) /\
  forall t' a' h', history r t' a' h' -> history r' t' a' h'.
Proof.
  intros t Ha Hh. unfold ReadAgentState. rewrite Ha. fold t.
  pose proof (access_spec ctx now t a "agent_state.read" r) as Hm.
  unfold t in Hm. rewrite tenant_trim in Hm. fold t in Hm. rewrite (proj2 (normalize_id _ _ Ha)) in Hm.
  assert (forall t' a' h', history r t' a' h' -> history (ensureAgentStateAccess ctx now t a "agent_state.read" r).1 t' a' h')
    as Hk by (intros; by apply access_history).
  destruct (ensureAgentStateAccess _ _ _ _ _ r) as [r1 [err|]]; cbn [fst snd] in *.
  - split; [intros Hu; by apply Hm in Hu|]. split; [by eexists|exact Hk].
  - split; [intros _|split; [intros Hn; by destruct Hn; apply Hm|exact Hk]]. specialize (Hk t a h Hh). split.
    + intros s Hv Hs. destruct (Z.ltb_spec 0 (ro_Version opts)); [|lia].
      destruct (history_read _ _ _ _ Hk _ _ Hs) as [Hr _].
      replace (Z.of_nat (Z.to_nat (ro_Version opts - 1)) + 1) with (ro_Version opts) in Hr by lia. by rewrite Hr.
    + intros Hv. destruct (Z.ltb_spec 0 (ro_Version opts)); [lia|]. by apply readLatest_spec.
Qed.

(** ** Lineage *)
Lemma lineage_spec r t a h limit n out :
  history r t a h -> (n <= length h)%nat ->
  lineage t a limit n out r = inl (out ++ take (Z.to_nat (limit - zlen out)) (reverse (take n h))).
Proof.
  intros Hh. revert out. induction n as [|n IH]; intros out Hn.
  - by rewrite take_0, reverse_nil, take_nil, app_nil_r.
  - cbn [lineage]. destruct (Z.leb_spec limit (zlen out)) as [Hl|Hl].
    { replace (Z.to_nat (limit - zlen out)) with O by lia. by rewrite app_nil_r. }
    destruct (lookup_lt_is_Some_2 h n) as [s Hs]; [lia|]. destruct (history_read _ _ _ _ Hh n s Hs) as [Hr _].
    replace (Z.of_nat (Datatypes.S n)) with (Z.of_nat n + 1) by lia. rewrite Hr, IH by lia.
    rewrite (take_S_r _ _ _ Hs), reverse_app. change (reverse [s]) with [s]. rewrite <- app_assoc. do 2 f_equal.
    replace (Z.to_nat (limit - zlen out)) with (Datatypes.S (Z.to_nat (limit - zlen (out ++ [s]))))
      by (unfold zlen in *; rewrite length_app; simpl; lia). done.
Qed.
(** A lineage lists the newest versions first, up to the limit, which is 100 unless it is given
    and never above 500. *)
Theorem ListAgentStateLineage_exact ctx now id limit r a h :
  let t := effectiveTenantFromContext ctx in
  let limit' := Z.min 500 (if limit <=? 0 then 100 else limit) in
  normalizeAgentStateID id = inl a -> history r t a h ->
  let '(r', res) := ListAgentStateLineage ctx now id limit r in
  (mayUseAgent ctx t a -> res = inl (take (Z.to_nat limit') (reverse h))) /\
  (~ mayUseAgent ctx t a -> exists err, res = inr err) /\ history r' t a h.
Proof.
  intros t limit' Ha Hh. unfold ListAgentStateLineage. rewrite Ha. fold t.
  pose proof (access_spec ctx now t a "agent_state.lineage" r) as Hm.
  unfold t in Hm. rewrite tenant_trim in Hm. fold t in Hm. rewrite (proj2 (normalize_id _ _ Ha)) in Hm.
  pose proof (access_history ctx now t a "agent_state.lineage" r t a h Hh) as Hk.
  destruct (ensureAgentStateAccess _ _ _ _ _ r) as [r1 [err|]]; cbn [fst snd] in *.
  - split; [intros Hu; by apply Hm in Hu|]. split; [by eexists|exact Hk].
  - rewrite (history_latest _ _ _ _ Hk). unfold newest. case_decide as Hd.
    + subst h. split; [intros _; by rewrite reverse_nil, take_nil|]. split; [intros Hn; by destruct Hn; apply Hm|exact Hk].
    + split; [intros _|split; [intros Hn; by destruct Hn; apply Hm|exact Hk]].
      rewrite (lineage_spec r1 t a h) by (done || unfold zlen; lia). replace (Z.to_nat (zlen h)) with (length h) by (unfold zlen; lia). rewrite firstn_all.
      cbn [app]. change (zlen []) with 0. rewrite Z.sub_0_r. do 2 f_equal. unfold limit'.
      destruct (Z.ltb_spec 500 (if limit <=? 0 then 100 else limit)); lia.
Qed.
End histories.
