(* ===== verification/AgentMemorySpec.v ===== *)
(** * What an agent remembers (properties of AgentMemory.v)

    [memory r t a es]: the entries of agent [a] of tenant [t] that can be read are the list
    [es], in the order of their identifiers.  A write adds one entry to the memory of its agent
    and leaves the other memories alone; lists and searches are read off the memory. *)
From S2P Require Import Prelude Storage Graph EngineStore FileStore Throttle Authz AuthzSpec Risk Tools Runtime Governance Artifacts.
From S2P Require Import Human Admission DagRun DagStore AdmissionSpec.
From S2P Require Import ToolsSpec KVSpec CallContext AgentState Routing AgentMemory AgentStateSpec.
From Stdlib Require Import Floats.SpecFloat.

Lemma memoryKey_audit k : (exists s, k = "agent_memory/" +:+ s) -> ~ under "audit/" k.
Proof.
  intros [s ->] [u E]. destruct (TrimSpace_prefix "agent_memory/" s) as [v Ev]; [plain|done|].
  rewrite Ev in E. discriminate E.
Qed.

Lemma omap_ext_in {X Y} (f g : X -> option Y) (l : list X) : (forall x, x ∈ l -> f x = g x) -> omap f l = omap g l.
Proof. intros E. apply list_omap_ext, Forall_Forall2_diag, Forall_forall, E. Qed.

(** ** The order of floats *)
(** Numbers are ordered by their sign, then by exponent and mantissa. *)
Definition floatKey (x : float64) : Z * Z * Z :=
  match x with
  | S754_nan => (5, 0, 0)
  | S754_infinity s => (if s then 0 else 4, 0, 0)
  | S754_zero _ => (2, 0, 0)
  | S754_finite true m e => (1, - e, - Z.pos m)
  | S754_finite false m e => (3, e, Z.pos m)
  end.
Definition keyBefore (x y : Z * Z * Z) : Prop :=
  x.1.1 < y.1.1 \/ x.1.1 = y.1.1 /\ (x.1.2 < y.1.2 \/ x.1.2 = y.1.2 /\ x.2 < y.2).
Lemma float_order x y : x <> S754_nan -> y <> S754_nan ->
  (feqb x y = true <-> floatKey x = floatKey y) /\ (fltb x y = true <-> keyBefore (floatKey x) (floatKey y)).
Proof.
  intros Hx Hy. unfold feqb, fltb, SFeqb, SFltb, keyBefore.
  destruct x as [[]|[]| |[] m e], y as [[]|[]| |[] m' e']; try done; cbn;
    try (split; split; intros ?; (done || lia || congruence)).
  all: change (PosDef.Pos.compare_cont Eq m m') with (Pos.compare m m');
    destruct (Z.compare_spec e e'), (Pos.compare_spec m m'); subst; cbn;
    (split; split; intros Hc; try done; try lia; try (injection Hc; intros; (congruence || lia))).
Qed.
Lemma sorted_pairs {X} (R : X -> X -> Prop) (P : X -> Prop) l :
  (forall x y z, P x -> P y -> P z -> R x y -> R y z -> R x z) -> Forall P l -> Sorted R l -> StronglySorted R l.
Proof.
  intros Ht Hp Hs. induction Hs as [|x l Hs IH Hd]; [constructor|]. apply Forall_cons in Hp as [Hx Hp].
  specialize (IH Hp). constructor; [exact IH|]. inversion Hd as [|y l' Hxy]; subst; constructor; [done|].
  apply Forall_cons in Hp as [Hy Hp]. inversion IH as [|? ? _ Hall]; subst. rewrite Forall_forall in Hall, Hp.
  apply Forall_forall. intros z Hz. by apply (Ht x y z); auto.
Qed.

Section memories.
#[local] Set Default Proof Using "Type*".
Context {S F A : Type} `{Store S} `{!KVLaws S} `{ArtifactStore A} `{Ambient} `{MapOrder}.
Context `{JSON (list string)} `{!IndexLaws} `{JSON AuditRecord} `{JSONSyntax} `{AgentJSON} `{MemoryJSON}.
Implicit Types r : Runner S F A.
Implicit Types ctx : CallCtx.

Definition readable r (t a id : string) : option AgentMemoryEntry :=
  match getAgentMemoryEntry t a id r with inl (Some e) => Some e | _ => None end.
Definition memory r (t a : string) (es : list AgentMemoryEntry) : Prop :=
  exists ids, indexIDs (agentMemoryIndexKey t a) r = inl ids /\ es = omap (readable r t a) ids.

(** ** Steps that leave a memory alone *)
Lemma readable_kv r r' t a id :
  kvOf r' (agentMemoryEntryKey t a id) = kvOf r (agentMemoryEntryKey t a id) -> readable r' t a id = readable r t a id.
Proof. intros E. unfold readable, getAgentMemoryEntry. by rewrite (getJSONKV_kv _ r r'). Qed.
Lemma memory_kv r r' t a es :
  kvOf r' (agentMemoryIndexKey t a) = kvOf r (agentMemoryIndexKey t a) ->
  (forall ids id, indexIDs (agentMemoryIndexKey t a) r = inl ids -> id ∈ ids ->
     kvOf r' (agentMemoryEntryKey t a id) = kvOf r (agentMemoryEntryKey t a id)) ->
  memory r t a es -> memory r' t a es.
Proof.
  intros Hk He (ids&Hi&->). exists ids. split; [by rewrite (indexIDs_kv _ r r')|].
  apply omap_ext_in. intros id Hid. symmetry. apply readable_kv. by eapply He.
Qed.
Lemma memory_outside r r' t a es : outside "audit/" r r' -> memory r t a es -> memory r' t a es.
Proof. intros Ho. apply memory_kv; [|intros ids id _ _]; apply Ho, memoryKey_audit; by eexists. Qed.
Lemma memoryAccess_outside ctx now t a action r : outside "audit/" r (ensureAgentMemoryAccess ctx now t a action r).1.
Proof.
  unfold ensureAgentMemoryAccess. pose proof (agentAccess_outside ctx now t a action r) as Ho.
  by destruct (ensureAgentStateAccess _ _ _ _ _ r) as [r1 [err|]].
Qed.
Lemma memoryAccess_spec ctx now t a action r :
  (ensureAgentMemoryAccess ctx now t a action r).2 = None <-> mayUseAgent ctx (TrimSpace t) (TrimSpace a).
Proof.
  rewrite <- (access_spec ctx now t a action r). unfold ensureAgentMemoryAccess.
  by destruct (ensureAgentStateAccess _ _ _ _ _ r) as [r1 [err|]].
Qed.

(** ** Writing *)
(** Entries in valid UTF-8 are read back as they were written. *)
Class MemoryLaws : Type := {
  storableMemory : AgentMemoryEntry -> Prop;
  memory_round (e : AgentMemoryEntry) b : storableMemory e -> marshal e = inl b -> unmarshal b = inl e
}.
Context `{!MemoryLaws}.




(** ** Listing *)
(** What a replay that started at [boundary] may see. *)
Definition seen (boundary : option Time) (e : AgentMemoryEntry) : Prop :=
  match boundary with Some b => After (mo_CreatedAt e) b = false | None => True end.
#[export] Instance seen_dec boundary e : Decision (seen boundary e).
Proof using. unfold seen. destruct boundary; apply _. Defined.
Lemma listFrom_spec t a boundary limit ids out r :
  zlen out < limit ->
  listFrom t a boundary limit ids out r =
  out ++ take (Z.to_nat (limit - zlen out)) (filter (seen boundary) (omap (readable r t a) ids)).
Proof using.
  revert out. induction ids as [|id ids IH]; intros out Hl; [cbn; by rewrite take_nil, app_nil_r|].
  cbn [listFrom omap list_omap]. unfold readable at 1. destruct (getAgentMemoryEntry t a id r) as [[e|]|err]; [|by apply IH..].
  assert (Hsee : (match boundary with Some b => After (mo_CreatedAt e) b | None => false end = false) <-> seen boundary e)
    by (by destruct boundary).
  destruct (match boundary with Some b => After (mo_CreatedAt e) b | None => false end).
  - rewrite filter_cons_False by (rewrite <- Hsee; done). by apply IH.
  - rewrite filter_cons_True by (by apply Hsee).
    assert (Z.to_nat (limit - zlen out) = Datatypes.S (Z.to_nat (limit - zlen (out ++ [e])))) as ->
      by (unfold zlen in *; rewrite length_app; simpl; lia).
    cbn [take]. assert (zlen (out ++ [e]) = zlen out + 1) as Hz by (unfold zlen; rewrite length_app; simpl; lia).
    destruct (Z.leb_spec limit (zlen (out ++ [e]))).
    + replace (Z.to_nat (limit - zlen (out ++ [e]))) with O by lia. by rewrite take_0.
    + rewrite IH, <- app_assoc by lia. done.
Qed.
Lemma omap_reverse {X Y} (f : X -> option Y) (l : list X) : omap f (reverse l) = reverse (omap f l).
Proof using.
  induction l as [|x l IH]; [done|]. rewrite reverse_cons, omap_app, IH. simpl. destruct (f x); [by rewrite reverse_cons|].
  by rewrite app_nil_r.
Qed.
Definition boundaryOf ctx now := latestReplayReadableMemoryBoundary ctx now.
(** A list of the memory of an agent is its last entries, the last one first, up to the limit
    (50 unless it is given, never above 200); in a replay, its entries that are not newer than the
    replay.  A caller that may not use the agent gets none. *)
Theorem ListAgentMemory_exact ctx now id limit r a es :
  let t := effectiveTenantFromContext ctx in
  let limit' := Z.min 200 (if limit <=? 0 then 50 else limit) in
  normalizeAgentStateID id = inl a -> memory r t a es ->
  let '(r', res) := ListAgentMemory ctx now id limit r in
  (mayUseAgent ctx t a -> res = inl (take (Z.to_nat limit') (filter (seen (boundaryOf ctx now)) (reverse es)))) /\
  (~ mayUseAgent ctx t a -> exists err, res = inr err) /\
  forall t' a' es', memory r t' a' es' -> memory r' t' a' es'.
Proof.
  intros t limit' Ha Hm. unfold ListAgentMemory. rewrite Ha. fold t.
  assert (TrimSpace t = t) as Ht by apply tenant_trim. rewrite Ht. case_decide as Hz.
  { split; [by intros [? _]|]. split; [by eexists|done]. }
  pose proof (memoryAccess_spec ctx now t a "agent_memory.list" r) as Hu.
  rewrite Ht, (proj2 (normalize_id _ _ Ha)) in Hu. pose proof (memoryAccess_outside ctx now t a "agent_memory.list" r) as Ho.
  destruct (ensureAgentMemoryAccess _ _ _ _ _ r) as [r1 [err|]]; cbn [fst snd] in *.
  - split; [intros Hy; by apply Hu in Hy|]. split; [by eexists|]. intros. by eapply memory_outside.
  - pose proof (memory_outside _ _ _ _ _ Ho Hm) as (ids&Hi&->). rewrite Hi.
    split; [|split; [intros Hn; by destruct Hn; apply Hu|intros; by eapply memory_outside]]. intros _. do 2 f_equal.
    rewrite listFrom_spec, omap_reverse.
    + change (zlen []) with 0. rewrite Z.sub_0_r. cbn [app]. f_equal. unfold limit'.
      destruct (Z.ltb_spec 200 (if limit <=? 0 then 50 else limit)); lia.
    + change (zlen []) with 0. destruct (Z.ltb_spec 200 (if limit <=? 0 then 50 else limit)); [lia|].
      destruct (Z.leb_spec limit 0); lia.
Qed.

(** ** Searching *)
Lemma searchFrom_spec t a qv minScore before ids r :
  searchFrom t a qv minScore before ids r = omap (scoreEntry qv minScore before) (omap (readable r t a) ids).
Proof using.
  induction ids as [|id ids IH]; [done|]. cbn [searchFrom omap list_omap]. unfold readable at 1.
  destruct (getAgentMemoryEntry t a id r) as [[e|]|err]; [|done..]. cbn. by rewrite IH.
Qed.
(** Results whose score is a number. *)
Definition scored (x : AgentMemorySearchResult) : Prop := mr_Score x <> S754_nan.
(** [x] is at least as good as [y]. *)
Definition better (x y : AgentMemorySearchResult) : Prop := le_of result_less x y.
Lemma better_key x y : scored x -> scored y -> better x y <->
  keyBefore (floatKey (mr_Score y)) (floatKey (mr_Score x)) \/
  floatKey (mr_Score y) = floatKey (mr_Score x) /\ mo_CreatedAt (mr_Entry y) <= mo_CreatedAt (mr_Entry x).
Proof using.
  intros Hx Hy. unfold better, le_of, result_less. destruct (float_order _ _ Hy Hx) as [He Hl].
  destruct (float_order _ _ Hx Hy) as [_ Hl']. unfold After, keyBefore in *.
  destruct (feqb (mr_Score y) (mr_Score x)).
  - assert (floatKey (mr_Score y) = floatKey (mr_Score x)) as Hk by (by apply He). rewrite Z.ltb_ge, Hk. intuition lia.
  - assert (floatKey (mr_Score y) <> floatKey (mr_Score x)) as Hk by (intros E; by apply He in E).
    destruct (floatKey (mr_Score y)) as [[c1 e1] m1], (floatKey (mr_Score x)) as [[c2 e2] m2]. cbn in *.
    assert (c1 <> c2 \/ e1 <> e2 \/ m1 <> m2) as Hd by (destruct (decide (c1 = c2)), (decide (e1 = e2)), (decide (m1 = m2)); subst; tauto).
    destruct (fltb (mr_Score x) (mr_Score y)); intuition (lia || congruence).
Qed.
Lemma better_trans x y z : scored x -> scored y -> scored z -> better x y -> better y z -> better x z.
Proof using.
  intros Hx Hy Hz. rewrite !better_key by done. unfold keyBefore.
  destruct (floatKey (mr_Score x)) as [[c1 e1] m1], (floatKey (mr_Score y)) as [[c2 e2] m2], (floatKey (mr_Score z)) as [[c3 e3] m3].
  cbn. intros H1' H2'. assert (forall a b c d e f : Z, (a, b, c) = (d, e, f) <-> a = d /\ b = e /\ c = f) as Heq by (intros; split; [by intros [= -> -> ->]|by intros (-> & -> & ->)]).
  rewrite Heq in *. lia.
Qed.
#[export] Instance better_total : Total better.
Proof using.
  assert (forall x, Decision (scored x)) as Hdec.
  { intros x. unfold scored. destruct (mr_Score x); first [by left|right; intros Hn; by apply Hn]. }
  assert (forall x, ~ scored x -> mr_Score x = S754_nan) as Hnan.
  { intros x. unfold scored. destruct (mr_Score x); [..|]; try done; intros Hn; by destruct Hn. }
  assert (forall u v, mr_Score u = S754_nan \/ mr_Score v = S754_nan -> better u v) as Hbad.
  { intros u v. unfold better, le_of, result_less, feqb, fltb, SFeqb, SFltb. intros [-> | ->]; [by destruct (mr_Score v)|by destruct (mr_Score u)]. }
  intros x y. destruct (Hdec x) as [Hx|Hx]; [|left; apply Hbad; left; by apply Hnan]. destruct (Hdec y) as [Hy|Hy]; [|left; apply Hbad; right; by apply Hnan].
  rewrite !better_key by done. unfold keyBefore.
  destruct (floatKey (mr_Score x)) as [[c1 e1] m1], (floatKey (mr_Score y)) as [[c2 e2] m2]. cbn.
  destruct (Z.lt_trichotomy c1 c2) as [?|[-> |?]]; [lia| |lia]. destruct (Z.lt_trichotomy e1 e2) as [?|[-> |?]]; [lia| |lia].
  destruct (Z.lt_trichotomy m1 m2) as [?|[-> |?]]; [lia| |lia].
  destruct (Z.le_ge_cases (mo_CreatedAt (mr_Entry y)) (mo_CreatedAt (mr_Entry x))); [left|right]; by right.
Qed.
(** The instant after which entries are left out of a search; zero for none. *)
Definition cutoffOf ctx (now : Time) (q : AgentMemorySearchRequest) : Time :=
  if IsZero (ms_CreatedBefore q) then default (ms_CreatedBefore q) (boundaryOf ctx now) else ms_CreatedBefore q.
(** A search gives the best entries of the memory of the agent: among those that are similar
    enough to the query and not too new, no one left out is better than one that is given, and as many
    are given as the limit allows (5 unless it is given, never above 50), the best first. *)
Theorem SearchAgentMemory_best ctx now q r a es :
  let t := effectiveTenantFromContext ctx in
  let limit' := Z.min 50 (if ms_Limit q <=? 0 then 5 else ms_Limit q) in
  let query := TrimSpace (ms_Query q) in
  let all := omap (scoreEntry (Embed memoryEmbedder query) (ms_MinScore q) (cutoffOf ctx now q)) es in
  normalizeAgentStateID (ms_AgentID q) = inl a -> memory r t a es -> query <> "" ->
  let '(r', res) := SearchAgentMemory ctx now q r in
  (mayUseAgent ctx t a -> exists found rest, res = inl found /\ found ++ rest ≡ₚ all /\
     zlen found = Z.min limit' (zlen all) /\
     (Forall scored all -> StronglySorted better found /\ forall x y, x ∈ found -> y ∈ rest -> better x y)) /\
  (~ mayUseAgent ctx t a -> exists err, res = inr err) /\
  forall t' a' es', memory r t' a' es' -> memory r' t' a' es'.
Proof.
  intros t limit' query all Ha Hm Hq. unfold SearchAgentMemory. rewrite Ha. fold t query. rewrite decide_False by done.
  assert (TrimSpace t = t) as Ht by apply tenant_trim. rewrite Ht. case_decide as Hz.
  { split; [by intros [? _]|]. split; [by eexists|done]. }
  pose proof (memoryAccess_spec ctx now t a "agent_memory.search" r) as Hu.
  rewrite Ht, (proj2 (normalize_id _ _ Ha)) in Hu. pose proof (memoryAccess_outside ctx now t a "agent_memory.search" r) as Ho.
  destruct (ensureAgentMemoryAccess _ _ _ _ _ r) as [r1 [err|]]; cbn [fst snd] in *.
  { split; [intros Hy; by apply Hu in Hy|]. split; [by eexists|]. intros. by eapply memory_outside. }
  pose proof (memory_outside _ _ _ _ _ Ho Hm) as (ids&Hi&Hes). rewrite Hi.
  set (limit := if 50 <? _ then 50 else _). set (before := match latestReplayReadableMemoryBoundary ctx now with Some _ => _ | None => _ end).
  set (l := searchFrom _ _ _ _ _ ids r1). assert (l = all) as Hl.
  { unfold l, all. rewrite searchFrom_spec, <- Hes. do 2 f_equal. unfold before, cutoffOf, boundaryOf.
    by destruct (latestReplayReadableMemoryBoundary ctx now), (IsZero _). }
  assert (limit = limit') as Hlim.
  { unfold limit, limit'. destruct (Z.ltb_spec 50 (if ms_Limit q <=? 0 then 5 else ms_Limit q)); lia. }
  set (res := if decide (ids = []) then _ else _).
  assert (res = (r1, inl (take (Z.to_nat limit) (sortSlice result_less l)))) as ->.
  { unfold res. case_decide as Hn; [|done]. subst ids. unfold l. cbn. by rewrite take_nil. }
  split; [|split; [intros Hn; by destruct Hn; apply Hu|intros; by eapply memory_outside]]. intros _.
  set (sorted := sortSlice result_less l). assert (sorted ≡ₚ all) as Hp by (rewrite <- Hl; apply sortSlice_perm).
  assert (0 < limit) as Hpos.
  { rewrite Hlim. unfold limit'. destruct (Z.leb_spec (ms_Limit q) 0); lia. }
  exists (take (Z.to_nat limit) sorted), (drop (Z.to_nat limit) sorted). split_and!; [done|by rewrite take_drop| |].
  - unfold zlen. rewrite length_take, <- Hp. lia.
  - intros Hs. rewrite <- Hp in Hs. assert (StronglySorted better sorted) as Hss.
    { eapply (sorted_pairs better scored); [exact better_trans|exact Hs|]. exact (Sorted_merge_sort (le_of result_less) l). }
    rewrite <- (take_drop (Z.to_nat limit) sorted) in Hss. apply StronglySorted_app in Hss as (Hx&Hy&_). done.
Qed.
End memories.
