(* ===== verification/ToolCallSpec.v ===== *)
(** * What lets a tool be called (properties of Gateway.v, Routing.v, SideEffects.v) *)
From S2P Require Import Prelude Storage Graph EngineStore Throttle Authz AuthzSpec Risk Tools ToolsSpec Runtime Governance.
From S2P Require Import CallContext Gateway Human Admission DagRun Routing SideEffects DagInv DagStore AdmissionSpec KVSpec.

Definition inScope (scopes : list string) (name : string) : Prop :=
  scopes = [] \/ exists s, s ∈ scopes /\ TrimSpace s = TrimSpace name.
Lemma outOfScope_spec scopes name : outOfScope scopes name = false <-> inScope scopes name.
Proof.
  unfold outOfScope, inScope, containsString. rewrite andb_false_iff, !negb_false_iff, bool_decide_eq_true, existsb_elem.
  setoid_rewrite bool_decide_eq_true. done.
Qed.

Section gate.
#[local] Set Default Proof Using "Type*".
Context {S F A : Type} `{Store S} `{Ambient} `{MapOrder} `{EngineJSON} `{ToolJSON} `{EffectJSON}.
Implicit Types r : Runner S F A.

(** ** The conditions *)
(** The bundle has an approved policy of the tool whose scopes include the tenant, or none. *)
Definition toolApproved (b : option ToolGatewayBundle) (tool tenant : string) (p : ToolPolicy) : Prop :=
  (exists q, q ∈ from_option tb_Tools [] b /\ tp_Tool q = tool /\ tp_Approved q = true /\
     inScope (tp_TenantScopes q) tenant /\ p = cloneToolPolicy (withDefaultServer q)) \/
  (forall q, q ∈ from_option tb_Tools [] b -> tp_Tool q <> tool) /\ p = implicitPolicy tool.
(** The policy names the local server, or one that is approved for the tenant and the tool. *)
Definition serverApproved (b : option ToolGatewayBundle) (p : ToolPolicy) (tenant : string)
    (server : ToolServerDefinition) : Prop :=
  (TrimSpace (tp_ServerID p) = "" \/ TrimSpace (tp_ServerID p) = defaultToolServerID) /\ server = localServer \/
  exists b' s, b = Some b' /\ s ∈ tb_Servers b' /\ ts_ID s = TrimSpace (tp_ServerID p) /\ ts_Approved s = true /\
    inScope (ts_TenantScopes s) tenant /\ inScope (AllowedTools s) (tp_Tool p) /\ server = cloneToolServerDefinition s.
(** The text, null when there is none, is a value that conforms to the schema, if any. *)
Definition accepts (schema value : bytes) : Prop :=
  schema = [] \/ exists s v, decodeObject unmarshal schema = inl s /\
    (value = [] /\ v = JNull \/ value <> [] /\ unmarshal value = inl v) /\ conforms marshal parseFloat s v.

Lemma validateSchemaValue_spec schema value name :
  validateSchemaValue unmarshal marshal parseFloat schema value name = None <-> accepts schema value.
Proof.
  unfold validateSchemaValue, accepts. destruct (decide (schema = [])) as [|Hs]; [split; [by left|done]|].
  destruct (decodeObject unmarshal schema) as [s|err] eqn:Es; [|split; [done|naive_solver]].
  destruct (decide (value = [])) as [->|Hv].
  - rewrite validateJSONSchema_exact. split; [intros; right; exists s, JNull; naive_solver|naive_solver].
  - destruct (unmarshal value) as [v|err] eqn:Ev; [|split; [done|naive_solver]].
    rewrite validateJSONSchema_exact. split; [intros; right; exists s, v; naive_solver|naive_solver].
Qed.
Lemma find_elem {X} (f : X -> bool) l x : List.find f l = Some x -> x ∈ l /\ f x = true.
Proof. intros E. apply List.find_some in E as [Hin Hf]. split; [by apply list_elem_of_In|done]. Qed.
Lemma findPolicy_spec tool tenant b p : findPolicy tool tenant b = inl p -> toolApproved b tool tenant p.
Proof.
  unfold findPolicy. destruct (List.find _ _) as [q|] eqn:Ef.
  - apply find_elem in Ef as [Hin Ht%bool_decide_eq_true]. destruct (outOfScope _ _) eqn:Eo; [done|].
    destruct (tp_Approved q) eqn:Ea; [|done]. intros [= <-]. left. exists q. by rewrite <- outOfScope_spec.
  - intros [= <-]. right. split; [|done]. intros q Hin%list_elem_of_In Ht.
    apply (List.find_none _ _ Ef) in Hin. by rewrite bool_decide_true in Hin.
Qed.
Lemma findServer_spec id tool tenant b server : findServer id tool tenant b = inl server ->
  exists s, s ∈ tb_Servers b /\ ts_ID s = id /\ ts_Approved s = true /\ inScope (ts_TenantScopes s) tenant /\
    inScope (AllowedTools s) tool /\ server = cloneToolServerDefinition s.
Proof.
  unfold findServer. destruct (List.find _ _) as [s|] eqn:Ef; [|done].
  apply find_elem in Ef as [Hin Ht%bool_decide_eq_true]. destruct (ts_Approved s) eqn:Ea; [|done]. simpl.
  destruct (outOfScope (ts_TenantScopes s) _) eqn:Et; [done|]. destruct (outOfScope (AllowedTools s) _) eqn:El; [done|].
  intros [= <-]. exists s. by rewrite <- !outOfScope_spec.
Qed.

(** ** The bundle and the policy are read, at most cached *)
Definition cached r r' : Prop :=
  rn_store r' = rn_store r /\ rn_policyBundle r' = rn_policyBundle r.
Lemma GetBundle_spec now r r' b : GetToolGatewayBundle now r = (r', inl b) ->
  cached r r' /\ GetToolGatewayBundle now r' = (r', inl b).
Proof.
  unfold GetToolGatewayBundle. destruct (rn_toolGateway r) as [c|] eqn:Ec; [intros [= <- <-]; by rewrite Ec|].
  destruct (getJSONKV _ r) as [[c|]|] eqn:Eg; [|done|intros [= <- <-]; by rewrite Ec, Eg].
  destruct (normalizeToolBundle _ now c); [|done]. by intros [= <- <-].
Qed.
Lemma GetPolicy_cached r r' : cached r r' -> (GetAuthorizationPolicy r').2 = (GetAuthorizationPolicy r).2.
Proof.
  intros [Hs Hb]. unfold GetAuthorizationPolicy, getJSONKV. rewrite Hs, Hb. destruct (rn_policyBundle r); [done|].
  destruct (_ <$> _) as [[b|]|]; try done. by destruct (normalizeBundle b).
Qed.
Lemma resolvePolicy_spec ctx now tool r r' p : resolveToolPolicy ctx now tool r = (r', inl p) ->
  exists b, GetToolGatewayBundle now r = (r', inl b) /\ toolApproved b tool (effectiveTenantFromContext ctx) p.
Proof.
  unfold resolveToolPolicy. destruct (GetToolGatewayBundle now r) as [r1 [b|]]; [|done]. intros [= <- Hp].
  exists b. split; [done|by apply findPolicy_spec].
Qed.
Lemma resolveServer_spec ctx now p r r' server b : resolveToolServer ctx now p r = (r', inl server) ->
  GetToolGatewayBundle now r = (r, inl b) ->
  r' = r /\ serverApproved b p (effectiveTenantFromContext ctx) server.
Proof.
  unfold resolveToolServer, serverApproved. intros E Hb.
  destruct (decide (TrimSpace (tp_ServerID p) = "")) as [He|He]; [rewrite decide_True in E by done; injection E as <- <-; naive_solver|].
  destruct (decide (TrimSpace (tp_ServerID p) = defaultToolServerID)) as [Hd|Hd]; [injection E as <- <-; naive_solver|].
  rewrite Hb in E. destruct b as [b|]; [|done]. injection E as <- Hs. split; [done|]. right.
  apply findServer_spec in Hs as (s&Hs). exists b, s. naive_solver.
Qed.

(** C8: A tool's handler is called only if the gateway has an approved policy of the tool for the
    caller's tenant (or none at all), the policy's server is local or approved for the tenant
    and the tool, the authorization policy allows the execution, the input conforms to the
    schema of the node and the one of the policy, and a required sandbox is available.  The
    handler called is the node's, with the input as it is; a tool with side effects gets a
    receipt, in the mode of the context or of its policy. *)
Theorem beginTool_gated ctx now inv input r r' pc :
  beginTool ctx now inv input r = (r', inl pc) ->
  let tenant := effectiveTenantFromContext ctx in
  exists b a,
    (GetToolGatewayBundle now r).2 = inl b /\ toolApproved b (iv_Tool inv) tenant (pc_policy pc) /\
    serverApproved b (pc_policy pc) tenant (pc_server pc) /\
    (GetAuthorizationPolicy r).2 = inl a /\
    ac_Allowed (evaluateAuthorization (default noBundle a) (toolRequest ctx inv)) = true /\
    accepts (iv_InputSchema inv) input /\ accepts (tp_InputSchema (pc_policy pc)) input /\
    (pc_sandboxed pc = needsSandbox ctx (pc_policy pc) /\
     (pc_sandboxed pc = true -> SandboxAllowed (pc_server pc) = true \/ ts_ID (pc_server pc) = defaultToolServerID)) /\
    iv_Handler inv = Some (hc_fn (pc_call pc)) /\ hc_input (pc_call pc) = input /\
    (forall e, activeEffect (pc_policy pc) = Some e ->
       exists x c, pc_receipt pc = Some x /\ sr_Mode x = effectMode ctx e /\
         cc_SideEffect (hc_ctx (pc_call pc)) = Some c /\ er_Mode c = TrimSpace (effectMode ctx e)).
Proof.
  unfold beginTool. destruct (iv_Handler inv) as [fn|] eqn:Eh; [|done].
  destruct (resolveToolPolicy ctx now _ r) as [r1 [p|]] eqn:Ep; [|done].
  apply resolvePolicy_spec in Ep as (b&Eb&Htool). destruct (GetBundle_spec _ _ _ _ Eb) as [Hc Eb1].
  destruct (resolveToolServer ctx now p r1) as [r2 [server|]] eqn:Es; [|done].
  eapply resolveServer_spec in Es as [-> Hserver]; [|exact Eb1].
  destruct (authorizeToolExecution ctx inv r1) as [r3 [err|]] eqn:Ea; [done|].
  assert (exists a, (GetAuthorizationPolicy r).2 = inl a /\
            ac_Allowed (evaluateAuthorization (default noBundle a) (toolRequest ctx inv)) = true) as (a&Hga&Hallow).
  { rewrite <- (GetPolicy_cached _ _ Hc). revert Ea. unfold authorizeToolExecution.
    destruct (GetAuthorizationPolicy r1) as [ra [a|]]; [|done]. exists a. split; [done|]. by destruct (ac_Allowed _). }
  destruct (checkInput inv p input) eqn:Ei; [done|]. unfold checkInput in Ei.
  destruct (validateSchemaValue _ _ _ (iv_InputSchema inv) _ _) eqn:Ei1; [done|].
  apply validateSchemaValue_spec in Ei. apply validateSchemaValue_spec in Ei1.
  destruct (sandboxDenied _ _) eqn:Esb; [done|].
  assert (needsSandbox ctx p = true -> SandboxAllowed server = true \/ ts_ID server = defaultToolServerID) as Hsb.
  { intros Hn. unfold sandboxDenied in Esb. rewrite Hn, andb_true_l, andb_false_iff, !negb_false_iff in Esb.
    rewrite bool_decide_eq_true in Esb. done. }
  destruct (selectAdaptiveRoute ctx now inv p input r3) as [r4 [route|]]; [|done].
  intros E. exists b, a. rewrite Eb. destruct (activeEffect p) as [e|] eqn:Ee.
  - destruct (beginSideEffect _ inv fn server e input) as [[x call]|] eqn:Ex; [|done]. injection E as <- <-. cbn.
    unfold beginSideEffect in Ex. case_decide; [|done]. injection Ex as <- <-. split_and!; try done.
    intros e' He. rewrite Ee in He. injection He as <-. eexists _, _. by split_and!.
  - injection E as <- <-. cbn. split_and!; try done. intros e He. by rewrite Ee in He.
Qed.

(** ** Routes *)
Definition limiterAllows (ctx : CallCtx) (x : AdaptiveRoute) : Prop :=
  forall l, RateLimiterFrom ctx = Some l ->
  exists n d, lm_answers l n (limitRequest (effectiveTenantFromContext ctx) x) = inl d /\ ld_Allowed d = true.
(** The estimate of a route fits what is left of the budget of its run. *)
Definition affordable (b : BudgetPolicy) (u : BudgetUsage) (x : AdaptiveRoute) : Prop :=
  (0 < MaxTokens b -> 0 < EstimatedTokens x -> bu_Tokens u +₆₄ EstimatedTokens x <= MaxTokens b) /\
  (fltb fzero (MaxDollars b) = true -> fltb fzero (EstimatedDollars x) = true ->
   fltb (MaxDollars b) (fadd (bu_Dollars u) (EstimatedDollars x)) = false).
Definition admitted (ctx : CallCtx) (b : BudgetPolicy) (u : BudgetUsage) (x : AdaptiveRoute) : Prop :=
  inScope (rt_TenantScopes x) (effectiveTenantFromContext ctx) /\ affordable b u x /\ limiterAllows ctx x.

Lemma withinBudget_spec b u x : withinBudget b u x = true -> affordable b u x.
Proof.
  unfold withinBudget, affordable. rewrite andb_true_iff, !negb_true_iff. intros [Ht Hd]. split.
  - intros Hb Hx. apply Z.ltb_lt in Hb, Hx. rewrite Hb, Hx in Ht. by apply Z.ltb_ge in Ht.
  - intros Hb Hx. by rewrite Hb, Hx in Hd.
Qed.
Lemma admittedRoutes_spec ctx now b u n routes r r' xs : admittedRoutes ctx now b u n routes r = (r', inl xs) ->
  forall x, x ∈ xs -> x ∈ routes /\ admitted ctx b u x.
Proof.
  revert n r r' xs. induction routes as [|x routes IH]; intros n r r' xs; simpl; [by intros [= _ <-] ? ?%elem_of_nil|].
  destruct (outOfScope _ _) eqn:Eo; [intros E y Hy; destruct (IH _ _ _ _ E y Hy); split; [by right|done]|].
  apply outOfScope_spec in Eo.
  destruct (withinBudget b u x) eqn:Eb; simpl; [|intros E y Hy; destruct (IH _ _ _ _ E y Hy); split; [by right|done]].
  apply withinBudget_spec in Eb. destruct (RateLimiterFrom ctx) as [l|] eqn:El.
  - unfold decideLimit. destruct (lm_answers l n _) as [d|] eqn:Ed; [|done].
    destruct (admittedRoutes _ _ _ _ _ routes _) as [r1 [ys|]] eqn:E; [|done]. intros [= _ <-] y Hy.
    destruct (ld_Allowed d) eqn:Ea; [apply elem_of_cons in Hy as [->|Hy]|].
    + split; [by left|]. split_and!; [done..|]. intros l' Hl'. rewrite El in Hl'. injection Hl' as <-. eauto.
    + destruct (IH _ _ _ _ E y Hy). split; [by right|done].
    + destruct (IH _ _ _ _ E y Hy). split; [by right|done].
  - destruct (admittedRoutes _ _ _ _ _ routes _) as [r1 [ys|]] eqn:E; [|done]. intros [= _ <-] y [->|Hy]%elem_of_cons.
    + split; [by left|]. split_and!; [done..|]. intros l' Hl'. by rewrite El in Hl'.
    + destruct (IH _ _ _ _ E y Hy). split; [by right|done].
Qed.

(** The choice is among the candidates. *)
Lemma head_sorted {X} (less : X -> X -> bool) l x : head (sortSlice less l) = Some x -> x ∈ l.
Proof.
  intros E. rewrite <- (merge_sort_Permutation (le_of less) l). fold (sortSlice less l).
  destruct (sortSlice less l); [done|]. injection E as ->. by left.
Qed.
Lemma legacy_elem p a candidates triggers : AdaptiveRouting p = Some a -> candidates <> [] ->
  legacyAdaptiveRouteSelection p candidates triggers ∈ candidates.
Proof.
  intros Ha Hc. unfold legacyAdaptiveRouteSelection. rewrite Ha.
  destruct (head (sortSlice _ candidates)) as [x|] eqn:E; [by apply head_sorted in E|].
  destruct (sortSlice _ candidates) eqn:Es; [|done].
  apply (f_equal length) in Es. unfold sortSlice in Es. rewrite merge_sort_Permutation in Es. by destruct candidates.
Qed.
Lemma decideRoute_elem tool p signals global workflow triggers routes : routes <> [] ->
  bd_Selected (decideRoute formatFixed tool p signals global workflow triggers routes) ∈ routes.
Proof.
  intros Hr. unfold decideRoute. set (f := scoreRoute _ _ _ _ _ _).
  destruct (sortSlice score_less (f <$> routes)) as [|best scores] eqn:E.
  - apply (f_equal length) in E. unfold sortSlice in E. rewrite merge_sort_Permutation, length_fmap in E. by destruct routes.
  - assert (best ∈ f <$> routes) as (x&->&Hx)%list_elem_of_fmap by (eapply head_sorted; by rewrite E). exact Hx.
Qed.

(** The route chosen for a call is one of the policy's routes, open to the caller's tenant,
    within the budget left to the run, and allowed by the rate limiter; only a tool without
    routes gets none. *)
Theorem selectAdaptiveRoute_admitted ctx now inv p input r r' x :
  selectAdaptiveRoute ctx now inv p input r = (r', inl x) ->
  from_option Routes [] (AdaptiveRouting p) = [] /\ x = noRoute \/
  exists a, AdaptiveRouting p = Some a /\ x ∈ Routes a /\
    admitted ctx (runBudgetAndUsage ctx (iv_RunID inv) r).1 (runBudgetAndUsage ctx (iv_RunID inv) r).2 x.
Proof.
  unfold selectAdaptiveRoute, adaptiveRouteCandidates.
  destruct (AdaptiveRouting p) as [a|] eqn:Ea; [|intros [= _ <-]; by left].
  destruct (decide (Routes a = [])) as [Hn|Hn]; [intros [= _ <-]; by left|].
  destruct (runBudgetAndUsage ctx (iv_RunID inv) r) as [b u].
  destruct (admittedRoutes ctx now b u 0 (Routes a) r) as [r1 [xs|]] eqn:E; [|done].
  destruct (decide (xs = [])); [done|]. rewrite decide_False by done. intros Hx. right. exists a. split; [done|].
  apply (admittedRoutes_spec _ _ _ _ _ _ _ _ _ E). revert Hx.
  destruct (evaluateBrainDecision ctx inv xs input _ r1) as [r2 [[d|]|]] eqn:Ed; [| |done]; intros [= _ <-].
  - revert Ed. unfold evaluateBrainDecision. destruct (GetBrainPolicy r1) as [r3 [bp|]]; [|done].
    destruct (_ || _); [done|]. destruct (brainRouteAggregates _ _ _ _ _) as [[g w]|]; [|done]. intros [= _ <-].
    by apply decideRoute_elem.
  - by eapply legacy_elem.
Qed.
End gate.

(** ** Side effects are approved and committed once (properties of SideEffects.v) *)
(** [EffectLaws] is what survives the encoding of a receipt. *)
Class EffectLaws `{EffectJSON} : Type := {
  (** Text the encoding preserves: valid UTF-8. *)
  text : string -> Prop;
  text_plain s : plain s -> text s;
  receipt_round (x : SideEffectReceipt) b : text (sr_ID x) -> text (sr_Status x) -> marshal x = inl b ->
    exists y, unmarshal b = inl y /\ sr_ID y = sr_ID x /\ sr_Status y = sr_Status x
}.

Section effects.
#[local] Set Default Proof Using "Type*".
Context {S F A : Type} `{Store S} `{!KVLaws S} `{!StoreLaws S} `{ArtifactStore A} `{Ambient} `{MapOrder} `{EngineJSON}.
Context `{ToolJSON} `{EffectJSON}.
Implicit Types r : Runner S F A.

(** *** Storing a receipt *)
Lemma receiptKey_plain id : plain (sideEffectReceiptKey id).
Proof. unfold sideEffectReceiptKey. apply plain_app. split; [plain|apply PathEscape_plain]. Qed.
Lemma receiptKey_index id : TrimSpace id <> "index" -> TrimSpace (sideEffectReceiptKey id) <> TrimSpace sideEffectReceiptIndexKey.
Proof.
  intros Hid. rewrite (TrimSpace_plain _ (receiptKey_plain id)), TrimSpace_plain by plain. intros E.
  apply Hid. apply (inj PathEscape). change (PathEscape "index") with "index".
  unfold sideEffectReceiptKey, sideEffectReceiptIndexKey in E. by injection E.
Qed.
Lemma receiptKey_trim id : sideEffectReceiptKey (TrimSpace id) = sideEffectReceiptKey id.
Proof. unfold sideEffectReceiptKey. by rewrite TrimSpace_idem. Qed.

Lemma save_stores now x r r' : saveSideEffectReceipt now x r = (r', None) ->
  TrimSpace (sr_ID x) <> "" -> TrimSpace (sr_ID x) <> "index" ->
  exists b, marshal (savedReceipt (TrimSpace (sr_ID x)) now x) = inl b /\
  kvOf r' (sideEffectReceiptKey (sr_ID x)) = Some (toString b).
Proof.
  unfold saveSideEffectReceipt. intros E Hne Hix. rewrite decide_False in E by done.
  rewrite receiptKey_trim in E. destruct (putJSONKV _ _ r) as [r1 [err|]] eqn:Ep; [done|].
  apply (putJSONKV_same _ _ _ _ (sideEffectReceiptKey (sr_ID x))) in Ep as (b&Hb&Hk); [|done].
  exists b. split; [done|]. destruct (indexIDs _ r1) as [ids|]; [|done]. case_decide; [by simplify_eq|].
  rewrite <- Hk. assert (r' = (putJSONKV sideEffectReceiptIndexKey (ids ++ [TrimSpace (sr_ID x)]) r1).1) as -> by by rewrite E.
  apply putJSONKV_other. by apply receiptKey_index.
Qed.
Lemma receiptKey_audit id : ~ under "audit/" (sideEffectReceiptKey id).
Proof.
  assert (under "side_effects/receipts/" (sideEffectReceiptKey id)) as Hu by (apply under_app; [plain|done]).
  revert Hu. apart.
Qed.
Lemma audit_receipt ctx now rec r id :
  kvOf (appendAuditRecord ctx now rec r) (sideEffectReceiptKey id) = kvOf r (sideEffectReceiptKey id).
Proof. apply audit_outside. apply receiptKey_audit. Qed.

(** *** Reading a receipt *)
Lemma get_spec ctx now id r r' x : GetSideEffectReceipt ctx now id r = (r', inl x) ->
  exists y, getJSONKV (sideEffectReceiptKey id) r = Some (inl y) /\ x = cloneSideEffectReceipt y /\
  mayAccess ctx (receiptRun y) /\ outside "audit/" r r' /\ storeOnly r r'.
Proof.
  unfold GetSideEffectReceipt. destruct (decide (TrimSpace id = "")); [done|]. rewrite receiptKey_trim.
  destruct (getJSONKV _ r) as [[y|]|]; [|done..]. destruct (receiptAccess ctx now y r) as [r1 [err|]] eqn:E; [done|].
  intros [= <- <-]. exists y. split_and!; try done; revert E; unfold receiptAccess; case_decide as Ht.
  - intros _. by left.
  - intros E. apply (ensureAccess_spec ctx now (receiptRun y) "side_effect.receipt" r). by rewrite E.
  - intros [= <-]. apply outside_refl.
  - intros E. pose proof (access_outside ctx now (receiptRun y) "side_effect.receipt" r) as Ho. by rewrite E in Ho.
  - intros [= <-]. apply storeOnly_refl.
  - intros E. pose proof (storeOnly_access ctx now (receiptRun y) "side_effect.receipt" r) as Ho. by rewrite E in Ho.
Qed.

(** *** The tasks people see *)
Lemma taskKey_human id : under "human/" (humanTaskKey id).
Proof.
  unfold humanTaskKey. change "human/tasks/" with ("human/" +:+ "tasks/"). rewrite append_assoc.
  apply under_app; [plain|done].
Qed.
Lemma taskIndex_human : under "human/" humanTaskIndexKey.
Proof. apply (under_app "human/" "tasks/index"); [plain|done]. Qed.
Lemma tasks_kv r r' runID status limit : (forall k, under "human/" k -> kvOf r' k = kvOf r k) ->
  ListHumanTasks runID status limit r' = ListHumanTasks runID status limit r.
Proof.
  intros Hk. unfold ListHumanTasks, indexIDs. fold (kvOf r humanTaskIndexKey). fold (kvOf r' humanTaskIndexKey).
  rewrite Hk by apply taskIndex_human.
  assert (forall ids out, taskRows ids (TrimSpace runID) (TrimSpace status) (if limit <=? 0 then 100 else limit) out r' =
                          taskRows ids (TrimSpace runID) (TrimSpace status) (if limit <=? 0 then 100 else limit) out r) as Hrows.
  { induction ids as [|id ids IH]; intros out; [done|]. cbn [taskRows]. unfold GetHumanTask.
    rewrite (getJSONKV_kv _ r r') by (apply Hk, taskKey_human). destruct (getJSONKV _ r) as [[t|]|]; try done.
    repeat case_decide; try done. by destruct (_ <=? zlen _). }
  destruct (kvOf r humanTaskIndexKey); [|by rewrite Hrows]. case_decide; [by rewrite Hrows|].
  destruct (unmarshal _); [by rewrite Hrows|done].
Qed.
Lemma tasks_audit r r' runID status limit : outside "audit/" r r' ->
  ListHumanTasks runID status limit r' = ListHumanTasks runID status limit r.
Proof. intros Ho. apply tasks_kv. intros k Hk. apply Ho. revert Hk. apart. Qed.

(** *** Approval *)
Definition approvedReceipt r (receiptID : string) : Prop :=
  exists ts t, ListHumanTasks "" "" 500 r = inl ts /\ t ∈ ts /\
    ht_SideEffectReceiptID t = receiptID /\ ht_Status t = HumanTaskApproved.
Lemma lookupHandler_settings r r' tenantID topic : storeOnly r r' ->
  lookupHandler tenantID topic r' = lookupHandler tenantID topic r.
Proof. intros ->. done. Qed.
Lemma save_storeOnly now x r : storeOnly r (saveSideEffectReceipt now x r).1.
Proof.
  unfold saveSideEffectReceipt.
  destruct (decide (TrimSpace (sr_ID x) = "")); [pose proof (storeOnly_id r) as Hid; destruct (NewTraceID r) as [t r0]|];
    simpl in *.
  all: match goal with |- context [putJSONKV ?k ?v ?x] => pose proof (storeOnly_put k v x) as Hk;
         destruct (putJSONKV k v x) as [r1 [err|]]; simpl in Hk end;
       try (destruct (indexIDs _ r1)); try case_decide; eauto using storeOnly_trans, storeOnly_put.
Qed.
(** The commit goes on without approval where none is asked for, else after it was given. *)
Lemma ensureApproval_spec ctx now x r r' x' : ensureSideEffectApproval ctx now x r = (r', (x', None)) ->
  storeOnly r r' /\ (exists taskID, x' = receiptTask (sr_Status x) taskID (sr_Error x) x) /\
  (sr_ApprovalRequired x = true -> approvedReceipt r (TrimSpace (sr_ID x))).
Proof.
  unfold ensureSideEffectApproval. destruct (sr_ApprovalRequired x) eqn:Ea; simpl.
  - destruct (findSideEffectHumanTask (sr_ID x) r) as [[t|]|] eqn:Et; [| |done].
    + destruct (decide (ht_Status t = HumanTaskApproved)) as [Hs|]; [|by case_decide].
      intros [= <- <-]. split_and!; [apply save_storeOnly|by eexists|]. intros _.
      unfold findSideEffectHumanTask in Et. destruct (ListHumanTasks "" "" 500 r) as [ts|] eqn:El; [|done].
      injection Et as Et. apply List.find_some in Et as [Hin Hid]. apply bool_decide_eq_true in Hid.
      exists ts, t. split_and!; try done. by apply list_elem_of_In.
    + unfold askApproval. by destruct (saveHumanTask _ _ r) as [r1 [err|]].
  - intros [= <- <-]. split_and!; [apply storeOnly_refl| |done]. exists (sr_HumanTaskID x). by destruct x.
Qed.

(** The two ways [beginCommit] ends without an error. *)
Lemma commit_calling ctx now id r r' x call : beginCommit ctx now id r = (r', Calling x call) ->
  exists y taskID, getJSONKV (sideEffectReceiptKey id) r = Some (inl y) /\ TrimSpace id <> "" /\
    (TrimSpace (sr_Status y) = SideEffectStatusStaged \/ TrimSpace (sr_Status y) = SideEffectStatusCommitPending) /\
    mayAccess ctx (receiptRun y) /\
    (sr_ApprovalRequired y = true -> approvedReceipt r (TrimSpace (sr_ID y))) /\
    x = receiptTask (TrimSpace (sr_Status y)) taskID (TrimSpace (sr_Error y)) (cloneSideEffectReceipt y) /\
    lookupHandler (sr_TenantID x) (sr_Tool x) r = inl (hc_fn call) /\
    exists p server, hc_ctx call = commitContext (onBase (WithTenantID (sr_TenantID x)) ctx) p server x /\
      hc_input call = sr_Input y.
Proof.
  unfold beginCommit. destruct (GetSideEffectReceipt ctx now id r) as [r1 [x1|err]] eqn:Eg; [|done].
  assert (TrimSpace id <> "") by (intros He; unfold GetSideEffectReceipt in Eg; by rewrite decide_True in Eg).
  apply get_spec in Eg as (y&Hy&->&Ha&Ho&Hs). case_decide as Hst; [done|].
  destruct (ensureSideEffectApproval ctx now _ r1) as [r2 [x2 [err|]]] eqn:Ee; [done|].
  apply ensureApproval_spec in Ee as (Hs2&[taskID ->]&Happ). unfold prepareCommit.
  destruct (lookupHandler _ _ r2) as [fn|] eqn:El; [|done].
  destruct (resolveToolPolicy _ now _ r2) as [r3 [p|]]; [|done].
  destruct (resolveToolServer _ now p r3) as [r4 [server|]]; [|done]. intros [= <- <- <-].
  exists y, taskID. split_and!; try done.
  - cbn [sr_Status cloneSideEffectReceipt] in Hst.
    destruct (decide (TrimSpace (sr_Status y) = SideEffectStatusStaged)); [by left|right]. apply dec_stable. naive_solver.
  - intros Hreq. specialize (Happ Hreq). unfold approvedReceipt in *. rewrite (tasks_audit r r1) in Happ by done.
    simpl in Happ. by rewrite TrimSpace_idem in Happ.
  - rewrite <- (lookupHandler_settings r r2) by (by eapply storeOnly_trans). exact El.
  - by exists p, server.
Qed.
Lemma commit_done ctx now id r r' x : beginCommit ctx now id r = (r', Done x None) ->
  exists y, getJSONKV (sideEffectReceiptKey id) r = Some (inl y) /\ x = cloneSideEffectReceipt y /\ outside "audit/" r r'.
Proof.
  unfold beginCommit. destruct (GetSideEffectReceipt ctx now id r) as [r1 [x1|err]] eqn:Eg; [|done].
  apply get_spec in Eg as (y&Hy&->&Ha&Ho&Hs). case_decide as Hst; [intros [= <- <-]; by exists y|].
  destruct (ensureSideEffectApproval ctx now _ r1) as [r2 [x2 [err|]]]; [done|]. unfold prepareCommit.
  destruct (lookupHandler _ _ r2); [|done]. destruct (resolveToolPolicy _ now _ r2) as [? [|]]; [|done].
  by destruct (resolveToolServer _ now _ _) as [? [|]].
Qed.
(** What a successful commit leaves in the store. *)
Lemma end_committed `{!EffectLaws} ctx now x outcome r r' x' :
  endCommit ctx now x outcome r = (r', (x', None)) ->
  TrimSpace (sr_ID x) <> "" -> TrimSpace (sr_ID x) <> "index" -> text (TrimSpace (sr_ID x)) ->
  exists b z, kvOf r' (sideEffectReceiptKey (sr_ID x)) = Some (toString b) /\ unmarshal b = inl z /\
    sr_Status z = SideEffectStatusCommitted.
Proof.
  unfold endCommit. destruct outcome as [output [err|]]; [done|]. intros E Hne Hix Htext.
  match type of E with context [saveSideEffectReceipt now ?x r] => set (xc := x) in E end.
  assert (sr_ID xc = sr_ID x /\ sr_Status xc = SideEffectStatusCommitted) as [Hid Hst] by done. clearbody xc.
  destruct (saveSideEffectReceipt now xc r) as [rs [err|]] eqn:Es; [done|]. injection E as <- _.
  apply save_stores in Es as (b&Hb&Hkv); [|by rewrite Hid..].
  apply receipt_round in Hb as (z&Hz&_&Hstatus); [|cbn; by rewrite Hid|cbn; rewrite Hst; apply text_plain; plain].
  exists b, z. rewrite audit_receipt, <- Hid. split_and!; [done..|]. rewrite Hstatus. cbn. by rewrite Hst.
Qed.

(** C10: A handler is called to commit a side effect only for a receipt that is staged or waits
    for its approval, in a run the caller may access, and, when its policy asks for approval,
    only after a person approved a task for this very receipt.  The call is made to the
    registered handler of the receipt's tool, with the recorded input, in commit mode. *)
Theorem commit_gated ctx now id r r' x call :
  beginCommit ctx now id r = (r', Calling x call) ->
  exists y, getJSONKV (sideEffectReceiptKey id) r = Some (inl y) /\
    (TrimSpace (sr_Status y) = SideEffectStatusStaged \/ TrimSpace (sr_Status y) = SideEffectStatusCommitPending) /\
    mayAccess ctx (receiptRun y) /\
    (sr_ApprovalRequired y = true -> approvedReceipt r (TrimSpace (sr_ID y))) /\
    lookupHandler (TrimSpace (sr_TenantID y)) (TrimSpace (sr_Tool y)) r = inl (hc_fn call) /\
    hc_input call = sr_Input y /\
    exists e, cc_SideEffect (hc_ctx call) = Some e /\ er_Mode e = SideEffectModeCommit /\
      er_ReceiptID e = TrimSpace (sr_ID y).
Proof.
  intros (y&taskID&Hy&_&Hst&Ha&Happ&->&Hl&p&server&Hctx&Hin)%commit_calling. exists y. split_and!; try done.
  eexists. rewrite Hctx. split; [done|]. cbn. split; [done|]. by rewrite TrimSpace_idem.
Qed.

(** C24: After a commit nobody calls the handler for this receipt again: as long as the
    receipt is left as the commit stored it, every later attempt returns without a call. *)
Theorem committed_once `{!EffectLaws} handler ctx now now' id r r1 x :
  (forall y, getJSONKV (sideEffectReceiptKey id) r = Some (inl y) -> TrimSpace (sr_ID y) = TrimSpace id) ->
  TrimSpace id <> "index" -> text (TrimSpace id) ->
  CommitSideEffect handler ctx now now' id r = (r1, (x, None)) -> sr_Status x = SideEffectStatusCommitted ->
  forall ctx2 now2 r2, kvOf r2 (sideEffectReceiptKey id) = kvOf r1 (sideEffectReceiptKey id) ->
  exists x' err, (beginCommit ctx2 now2 id r2).2 = Done x' err.
Proof.
  intros Hkeyed Hix Htext E Hx ctx2 now2 r2 Hk.
  assert (exists z, getJSONKV (sideEffectReceiptKey id) r2 = Some (inl z) /\
                    TrimSpace (sr_Status z) = SideEffectStatusCommitted) as (z&Hz&Hstatus).
  { revert E. unfold CommitSideEffect. destruct (beginCommit ctx now id r) as [r0 [x0 err0|x0 call]] eqn:Eb.
    - intros [= -> -> ->]. apply commit_done in Eb as (y&Hy&->&Ho). exists y. split; [|exact Hx].
      rewrite <- Hy. apply getJSONKV_kv. rewrite Hk. apply Ho, receiptKey_audit.
    - apply commit_calling in Eb as (y&taskID&Hy&Hne&_&_&_&->&_). intros E.
      specialize (Hkeyed y Hy). apply end_committed in E as (b&z&Hkv&Hz&Hstatus); cbn in *; rewrite ?TrimSpace_idem, ?Hkeyed; try done.
      exists z. split; [|by rewrite Hstatus]. rewrite <- Hz. apply getJSONKV_put. rewrite Hk.
      by rewrite Hkeyed, receiptKey_trim in Hkv. }
  unfold beginCommit. destruct (GetSideEffectReceipt ctx2 now2 id r2) as [r3 [x3|err]] eqn:Eg; [|by eauto].
  apply get_spec in Eg as (y&Hy&->&_). rewrite Hz in Hy. injection Hy as <-. cbn [sr_Status cloneSideEffectReceipt].
  rewrite decide_True by (rewrite Hstatus; by split). by eauto.
Qed.
End effects.
