(* ===== verification/ToolScenario.v ===== *)
(** * Concrete tool calls, used to instantiate the properties and to show findings

    A tool "pay" with side effects that are staged and approved before they are committed, in
    the in-memory store. *)
From S2P Require Import Prelude Storage Graph EngineStore FileStore Throttle Authz Risk Tools ToolsSpec Runtime Governance.
From S2P Require Import Artifacts CallContext Gateway AgentState Human Admission DagRun Routing AgentMemory SideEffects DagStore AdmissionSpec KVSpec.
From S2P Require Import ArtifactSpec AgentStateSpec AgentMemorySpec ToolCallSpec.
From Stdlib Require Import Init.Byte Floats.SpecFloat.

(** ** A codec for concrete scenarios *)
(** An encoding of values as lists of strings, every string preceded by its length in unary, and
    of numbers as their bits, both read back exactly.  The scenario files use it in the place of
    JSON. *)
(** ** Strings *)
Definition encodeString (s : string) : bytes :=
  replicate (length (fromString s)) x01 ++ x00 :: fromString s.
Definition encodeStrings (l : list string) : bytes := mjoin (encodeString <$> l).
Fixpoint countUnary (b : bytes) : nat * bytes :=
  match b with
  | x01 :: b => let '(n, b) := countUnary b in (Datatypes.S n, b)
  | _ :: b => (0%nat, b)
  | [] => (0%nat, [])
  end.
Fixpoint decodeStrings (fuel : nat) (b : bytes) : list string :=
  match fuel, b with
  | Datatypes.S fuel, _ :: _ =>
    let '(n, b) := countUnary b in toString (take n b) :: decodeStrings fuel (drop n b)
  | _, _ => []
  end.
Lemma countUnary_replicate n b : countUnary (replicate n x01 ++ x00 :: b) = (n, b).
Proof. induction n as [|n IH]; [done|]. simpl. by rewrite IH. Qed.
Lemma decode_encode l n : (length l <= n)%nat -> decodeStrings n (encodeStrings l) = l.
Proof.
  revert n. induction l as [|s l IH]; intros n Hn; [by destruct n|]. destruct n as [|n]; [simpl in Hn; lia|].
  assert (encodeStrings (s :: l) = replicate (length (fromString s)) x01 ++ x00 :: (fromString s ++ encodeStrings l)) as ->.
  { change (encodeStrings (s :: l)) with (encodeString s ++ encodeStrings l). unfold encodeString.
    by rewrite <- app_assoc. }
  assert (exists x y, replicate (length (fromString s)) x01 ++ x00 :: (fromString s ++ encodeStrings l) = x :: y) as (x&y&E)
    by (destruct (length (fromString s)); simpl; eauto).
  cbn [decodeStrings]. rewrite E, <- E, countUnary_replicate, take_app_length, drop_app_length. f_equal.
  - unfold toString, fromString. apply String.string_of_list_byte_of_string.
  - apply IH. simpl in Hn. lia.
Qed.

Definition noJSON {T} : JSON T := {| marshal := fun _ => inl []; unmarshal := fun _ => inr (ENew "no JSON") |}.
Definition strings {T} (to : T -> list string) (from : list string -> T) : JSON T :=
  {| marshal := fun v => inl (encodeStrings (to v)); unmarshal := fun b => inl (from (decodeStrings (length b) b)) |}.
Definition flag (b : bool) : string := if b then "true" else "".

(** *** Numbers *)
Fixpoint bits (p : positive) : bytes :=
  match p with xH => [] | xO p => x00 :: bits p | xI p => x01 :: bits p end.
Fixpoint fromBits (b : bytes) : positive :=
  match b with [] => xH | x00 :: b => xO (fromBits b) | _ :: b => xI (fromBits b) end.
Definition encodeZ (n : Z) : bytes :=
  match n with Z0 => [] | Zpos p => x01 :: bits p | Zneg p => x02 :: bits p end.
Definition decodeZ (b : bytes) : Z :=
  match b with [] => 0 | x01 :: b => Zpos (fromBits b) | _ :: b => Zneg (fromBits b) end.
Lemma fromBits_bits p : fromBits (bits p) = p.
Proof. induction p as [p IH|p IH|]; simpl; by rewrite ?IH. Qed.
Lemma decodeZ_encodeZ n : decodeZ (encodeZ n) = n.
Proof. destruct n; simpl; by rewrite ?fromBits_bits. Qed.
Definition numbers : JSON Z := {| marshal := fun n => inl (encodeZ n); unmarshal := fun b => inl (decodeZ b) |}.
(** A number as a string. *)
Definition numberText (n : Z) : string := toString (encodeZ n).
Definition textNumber (s : string) : Z := decodeZ (fromString s).
Lemma toString_fromString b : fromString (toString b) = b.
Proof. unfold fromString, toString. apply String.list_byte_of_string_of_list_byte. Qed.
Lemma textNumber_numberText n : textNumber (numberText n) = n.
Proof. unfold textNumber, numberText. by rewrite toString_fromString, decodeZ_encodeZ. Qed.
Lemma strings_round {T} (to : T -> list string) from v b :
  marshal (JSON := strings to from) v = inl b -> unmarshal (JSON := strings to from) b = inl (from (to v)).
Proof.
  intros [= <-]. cbn. rewrite decode_encode; [done|]. generalize (to v). intros l. unfold encodeStrings.
  induction l as [|s l IH]; [simpl; lia|].
  change (mjoin (encodeString <$> s :: l)) with (encodeString s ++ mjoin (encodeString <$> l)).
  unfold encodeString at 1. repeat rewrite ?length_app, ?length_cons, ?length_replicate. lia.
Qed.

(** ** Encodings *)
Definition taskStrings (t : HumanTask) : list string :=
  [ht_ID t; ht_Status t; ht_SideEffectReceiptID t; ht_RunID t; ht_Source t].
Definition taskOf (l : list string) : HumanTask :=
  mkTask (nth 0 l "") (nth 3 l "") "" "" 0 "" "" (nth 4 l "") (nth 1 l "") "" [] [] (nth 2 l "") "" "" 0 0 None None None.
Definition receiptStrings (x : SideEffectReceipt) : list string :=
  [sr_ID x; sr_Status x; sr_Tool x; sr_Mode x; flag (sr_ApprovalRequired x); sr_CompensationTool x; toString (sr_Input x)].
Definition receiptOf (l : list string) : SideEffectReceipt :=
  mkReceipt (nth 0 l "") 0 0 "" "" "" "" "" 0 (nth 2 l "") "" (nth 1 l "") (nth 3 l "") false
    (bool_decide (nth 4 l "" = "true")) (nth 5 l "") "" (fromString (nth 6 l "")) [] [] [] "".

(** Lists of identifiers start with a bracket. *)
Definition listJSON : JSON (list string) := {|
  marshal := fun l => inl (x5b :: encodeStrings l);
  unmarshal := fun b => match b with x5b :: b => inl (decodeStrings (length b) b) | _ => inr (ENew "not a list") end |}.
#[export] Instance listLaws : @IndexLaws listJSON.
Proof.
  refine (Build_IndexLaws listJSON (fun _ => True) _ _ _); [done|..].
  - intros l b _. by apply Forall_true.
  - intros l b _ [= <-]. split.
    + pose proof (strings_round (fun l : list string => l) (fun l => l) l _ eq_refl) as E. exact E.
    + change (toString (x5b :: encodeStrings l)) with ("[" +:+ toString (encodeStrings l)).
      destruct (TrimSpace_prefix "[" (toString (encodeStrings l))) as [s ->]; [plain|done|done].
Defined.
#[export] Instance toolEngineJSON : EngineJSON :=
  Build_EngineJSON listJSON noJSON (strings taskStrings taskOf) noJSON noJSON noJSON noJSON noJSON noJSON
    {| marshal := fun v => match v with JNull => inl [x4e] | JString s => inl (fromString s) | _ => inl [] end;
       unmarshal := fun b => match b with [] => inr (ENew "unexpected end of JSON input") | _ => inl (JString (toString b)) end |}
    noJSON (fun _ => "0") (fun _ => "").
#[export] Instance toolAmbient : Ambient := {| traceIDs := fun n => "id-" +:+ pretty (Z.of_nat n); formatTime := pretty |}.
#[export] Instance toolArtifacts : ArtifactStore unit := {|
  Put := fun _ meta a => (a, inl ("ref", meta));
  Get := fun _ a => (a, inr (ENew "not found"));
  Delete := fun _ a => (a, None) |}.
#[export] Instance toolToolJSON : ToolJSON := Build_ToolJSON noJSON noJSON noJSON (fun _ => fzero) (fun _ _ => "0") (fun _ => "0s").
#[export] Instance toolEffectJSON : EffectJSON :=
  Build_EffectJSON (strings receiptStrings receiptOf)
    (strings (fun o => [eo_ReceiptID o; eo_Status o]) (fun l => mkEffectOutput (nth 0 l "") (nth 1 l "") "" false false []))
    noJSON.
#[export] Instance toolEffectLaws : EffectLaws.
Proof.
  refine {| text := fun _ => True |}; [done|]. intros x b _ _ E. apply strings_round in E. eexists. by split; [exact E|].
Defined.

(** ** The runner *)
Abbreviation toolRunner := (@Runner MemoryStore nat unit).
Definition payPolicy (staged approval : bool) : ToolPolicy :=
  mkToolPolicy "tool-pay" "pay" "" true false (Some (mkSideEffect true staged false false approval "refund")) None [] [] [] [].
Definition payRunner (staged approval : bool) : toolRunner :=
  set_rn_toolGateway (Some (mkToolBundle [payPolicy staged approval] [] (Some 1)))
    (set_rn_registry (Some (mkRegistry {["pay" := 7%nat; "refund" := 8%nat]})) (NewRunner NewMemoryStore)).
Definition payInv : toolInvocation nat := mkInvocation "run-1" "wf" "n" 1 "pay" "" [] [] (Some 7%nat).
Definition payCtx : CallCtx := callCtx background.
Definition payInput : bytes := [x35].
Definition paid : HandlerCall nat -> bytes * option NodeError := fun _ => ([x36], None).

(** The call is staged, a commit asks for approval, a person approves. *)
Definition staged := invokeTool paid payCtx 100 101 payInv payInput (payRunner true true).
Definition receiptID : string := "receipt-101-id-0".
Definition asked := beginCommit payCtx 102 receiptID staged.1.
Definition taskID : string :=
  match indexIDs humanTaskIndexKey asked.1 with inl (id :: _) => id | _ => "" end.
Definition approvedR := (ResolveHumanTask background 103 taskID HumanDecisionApprove [] "" asked.1).1.
Abbreviation calling := (beginCommit payCtx 104 receiptID approvedR).

Example staged_status :
  match getJSONKV (sideEffectReceiptKey receiptID) staged.1 with
  | Some (inl x) => sr_Status x = SideEffectStatusStaged /\ sr_ApprovalRequired x = true
  | _ => False
  end.
Proof. vm_compute. done. Qed.
Example asked_waits : match asked.2 with Done x (Some _) => sr_Status x = SideEffectStatusCommitPending | _ => False end.
Proof. vm_compute. done. Qed.
Example calling_calls : match calling.2 with Calling x call => hc_fn call = 7%nat | _ => False end.
Proof. vm_compute. done. Qed.

(** ** Witnesses *)
Lemma paired {A B} (p : A * B) : exists a b, p = (a, b).
Proof. destruct p as [a b]. by exists a, b. Defined.
Lemma calling_handler : match calling.2 with Calling _ call => hc_fn call = 7%nat | Done _ _ => False end.
Proof. vm_compute. reflexivity. Qed.
Lemma approved_receipt :
  (fun z => match z with inl z => (sr_ID z, sr_Tool z, sr_ApprovalRequired z, sr_TenantID z) | inr _ => ("", "", false, "") end)
    <$> getJSONKV (T := SideEffectReceipt) (sideEffectReceiptKey receiptID) approvedR = Some (receiptID, "pay", true, "").
Proof. vm_compute. reflexivity. Qed.
Lemma commit_gated_witness :
  approvedReceipt approvedR receiptID /\ lookupHandler "" "pay" approvedR = inl 7%nat.
Proof.
  pose proof calling_handler as Hc. destruct (paired calling) as (r'&step&E).
  rewrite E in Hc. destruct step as [x err|x call]; [destruct Hc|]. cbn [snd] in Hc.
  destruct (commit_gated payCtx 104 receiptID approvedR r' x call E) as (y&Hy&_&_&Happ&Hl&_).
  pose proof approved_receipt as Hz. rewrite Hy in Hz. apply Some_inj in Hz.
  pose proof (f_equal (fun p => p.1.1.1) Hz : sr_ID y = receiptID) as Hid.
  pose proof (f_equal (fun p => p.1.1.2) Hz : sr_Tool y = "pay") as Htool.
  pose proof (f_equal (fun p => p.1.2) Hz : sr_ApprovalRequired y = true) as Ha.
  pose proof (f_equal (fun p => p.2) Hz : sr_TenantID y = "") as Hten.
  rewrite Hid in Happ. split; [exact (Happ Ha)|].
  rewrite Htool, Hten, Hc in Hl. exact Hl.
Defined.

Abbreviation committed := (CommitSideEffect paid payCtx 104 105 receiptID approvedR).
Lemma committed_once_witness : exists x' err, (beginCommit payCtx 106 receiptID committed.1).2 = Done x' err.
Proof.
  destruct (paired committed) as (r1&[x err]&E).
  assert (committed.2.2 = None) as Herr by (vm_compute; reflexivity).
  assert (sr_Status committed.2.1 = SideEffectStatusCommitted) as Hs by (vm_compute; reflexivity).
  assert (match getJSONKV (T := SideEffectReceipt) (sideEffectReceiptKey receiptID) approvedR with
          | Some (inl x) => TrimSpace (sr_ID x) = receiptID | _ => False end) as Hid by (vm_compute; reflexivity).
  assert (TrimSpace receiptID <> "index") as Hne by (vm_compute; discriminate).
  rewrite E in Herr, Hs. cbn [fst snd] in Herr, Hs. subst err.
  apply (committed_once paid payCtx 104 105 receiptID approvedR r1 x); [|exact Hne|exact Logic.I|exact E|exact Hs|].
  - intros y Hy. rewrite Hy in Hid. exact Hid.
  - rewrite E. reflexivity.
Defined.

Lemma beginTool_gated_witness : exists pc r',
  beginTool payCtx 100 payInv payInput (payRunner true true) = (r', inl pc) /\
  ac_Allowed (evaluateAuthorization noBundle (toolRequest payCtx payInv)) = true.
Proof.
  destruct (beginTool payCtx 100 payInv payInput (payRunner true true)) as [r' [pc|err]] eqn:E;
    [|apply (f_equal snd) in E; vm_compute in E; discriminate E].
  exists pc, r'. split; [reflexivity|].
  destruct (beginTool_gated _ _ _ _ _ _ _ E) as (b&a&_&_&_&Ha&Hallow&_).
  vm_compute in Ha. injection Ha as <-. exact Hallow.
Defined.

(** A tool with two routes, of which the cheaper one is over the budget in tokens. *)
Definition twoRoutes : ToolPolicy :=
  mkToolPolicy "tool-ask" "ask" "" true false None
    (Some (mkRouting true false fzero false 2 false 50
             [mkRoute "small" "p" "m" 500 fzero 1 []; mkRoute "large" "p" "m" 0 fone 2 []])) [] [] [] [].
Definition budgetRun : Run :=
  mkRun "run-1" "wf" RunStatusRunning None None [] [] "" "" [] (mkBudget 400 fzero 0 0) noUsage.
Definition askRunner : toolRunner := NewRunner (CreateRun budgetRun NewMemoryStore).1.
Definition askInv : toolInvocation nat := mkInvocation "run-1" "wf" "n" 1 "ask" "" [] [] (Some 7%nat).
Lemma selectAdaptiveRoute_admitted_witness : exists r' x,
  selectAdaptiveRoute payCtx 100 askInv twoRoutes payInput askRunner = (r', inl x) /\
  rt_ID x = "large" /\ exists a, AdaptiveRouting twoRoutes = Some a /\ x ∈ Routes a.
Proof.
  destruct (selectAdaptiveRoute payCtx 100 askInv twoRoutes payInput askRunner) as [r' [x|err]] eqn:E;
    [|apply (f_equal snd) in E; vm_compute in E; discriminate E].
  exists r', x. split; [reflexivity|]. split.
  - apply (f_equal (fun p => match p.2 with inl x => rt_ID x | inr _ => "" end)) in E. vm_compute in E. symmetry. exact E.
  - destruct (selectAdaptiveRoute_admitted payCtx 100 askInv twoRoutes payInput askRunner r' x E) as [[Hn _]|(a&Ha&Hin&_)];
      [discriminate Hn|]. exists a. split; [exact Ha|exact Hin].
Defined.

(** ** Findings *)
(** The output of a staged call names no receipt: the identifier is drawn for the stored copy. *)
Lemma staged_output_anonymous :
  staged.2.2 = None /\ getJSONKV (T := SideEffectReceipt) (sideEffectReceiptKey receiptID) staged.1 <> None /\
  (fun o => eo_ReceiptID o) <$> match unmarshal (T := EffectOutput) staged.2.1 with inl o => Some o | inr _ => None end = Some "".
Proof. vm_compute. done. Qed.
(** A policy that asks for approval before a commit, but not for staging, commits at once. *)
Lemma approval_needs_staging :
  match (beginTool payCtx 100 payInv payInput (payRunner false true)).2 with
  | inl pc => (fun x => (sr_Mode x, sr_ApprovalRequired x)) <$> pc_receipt pc = Some (SideEffectModeCommit, true)
  | inr _ => False
  end.
Proof. vm_compute. done. Qed.
(** Two commits that overlap call the handler twice. *)
Lemma overlapping_commits_call_twice :
  match calling.2, (beginCommit payCtx 104 receiptID calling.1).2 with
  | Calling _ c1, Calling _ c2 => hc_fn c1 = hc_fn c2
  | _, _ => False
  end.
Proof. vm_compute. done. Qed.
(** A receipt that was only staged can be compensated, and compensated again. *)
Definition compensated := CompensateSideEffect paid payCtx 102 103 receiptID staged.1.
Lemma compensated_without_commit :
  sr_Status compensated.2.1 = SideEffectStatusCompensated /\ sr_CommitOutput compensated.2.1 = [] /\
  match (beginCompensate payCtx 104 receiptID compensated.1).2 with Calling _ call => hc_fn call = 8%nat | Done _ _ => False end.
Proof. vm_compute. done. Qed.
(** The rule that forbids to execute the tool does not keep its staged effect from being
    committed. *)
Definition forbidden : AuthorizationPolicyBundle :=
  mkBundle "b" "" None [mkRule "no-pay" "" PolicyEffectDeny [PolicyActionToolExecute] [] [] [] [] [] ["pay"] [] []].
Lemma commit_not_authorized :
  let r := set_rn_policyBundle (Some forbidden) approvedR in
  match (beginTool payCtx 104 payInv payInput r).2 with inr _ => True | inl _ => False end /\
  match (beginCommit payCtx 104 receiptID r).2 with Calling _ _ => True | Done _ _ => False end.
Proof. vm_compute. done. Qed.

(** ** Concrete histories of agent states, used to instantiate the properties and to show findings *)
(** ** Snapshots *)
Definition snapshotStrings (s : AgentStateSnapshot) : list string :=
  [as_TenantID s; as_AgentID s; numberText (as_Version s); numberText (as_ParentVersion s);
   numberText (as_CreatedAt s); toString (as_State s); as_TraceID s; as_PrincipalID s; as_RunID s;
   as_WorkflowID s; as_NodeID s; numberText (as_Attempt s)].
Definition snapshotOf (l : list string) : AgentStateSnapshot :=
  mkSnapshot (nth 0 l "") (nth 1 l "") (textNumber (nth 2 l "")) (textNumber (nth 3 l ""))
    (textNumber (nth 4 l "")) (fromString (nth 5 l "")) (nth 6 l "") (nth 7 l "") (nth 8 l "")
    (nth 9 l "") (nth 10 l "") (textNumber (nth 11 l "")).
#[export] Instance scenarioSyntax : JSONSyntax := {| validJSON := fun _ => true |}.
#[export] Instance scenarioAgentJSON : AgentJSON := Build_AgentJSON numbers (strings snapshotStrings snapshotOf).
#[export] Instance scenarioAgentLaws : AgentLaws.
Proof.
  refine {| storable := fun _ => True |}.
  - intros n b [= <-]. exact (f_equal inl (decodeZ_encodeZ n)).
  - intros s b _ E%strings_round. etransitivity; [exact E|]. destruct s. unfold snapshotOf, snapshotStrings. cbn [nth].
    by rewrite !textNumber_numberText, toString_fromString.
Defined.

(** *** An agent with two versions *)
Definition agentCtx : CallCtx := callCtx (WithTenantID "acme" background).
Definition writeOf (state : string) (expected : Z) : AgentStateWriteRequest :=
  mkWriteRequest "bot" (fromString state) expected.
Definition emptyRunner : toolRunner := NewRunner NewMemoryStore.
Definition wrote1 := WriteAgentState agentCtx 10 (writeOf "1" 0) emptyRunner.
Definition wrote2 := WriteAgentState agentCtx 20 (writeOf "2" 1) wrote1.1.
Definition version1 : AgentStateSnapshot := mkSnapshot "acme" "bot" 1 0 10 (fromString "1") "" "" "" "" "" 0.
Definition version2 : AgentStateSnapshot := mkSnapshot "acme" "bot" 2 1 20 (fromString "2") "" "" "" "" "" 0.
Lemma history1 : history wrote1.1 "acme" "bot" [version1].
Proof.
  split; [vm_compute; reflexivity|]. intros i s Hi. destruct i as [|i]; [|destruct i; discriminate Hi].
  injection Hi as <-. split; [vm_compute; reflexivity|done].
Defined.
Lemma history2 : history wrote2.1 "acme" "bot" [version1; version2].
Proof.
  split; [vm_compute; reflexivity|]. intros i s Hi. destruct i as [|[|i]]; [| |destruct i; discriminate Hi].
  all: injection Hi as <-; split; [vm_compute; reflexivity|done].
Defined.

Lemma WriteAgentState_appends_witness : exists s, wrote2.2 = inl s /\ history wrote2.1 "acme" "bot" [version1; s].
Proof.
  assert (match wrote2.2 with inl _ => True | inr _ => False end) as Hok by (vm_compute; exact Logic.I).
  destruct (WriteAgentState_appends agentCtx 20 (writeOf "2" 1) wrote1.1 wrote2.1 wrote2.2 "bot" [version1]) as [Hr _];
    [reflexivity|exact history1|reflexivity|exact Logic.I|apply surjective_pairing|].
  destruct (wrote2.2) as [s|err]; [|destruct Hok]. exists s. split; [reflexivity|]. destruct Hr as (_&_&Hr). exact Hr.
Defined.

(** A replay that started between the two writes reads the first version. *)
Definition replayCtx (started : Time) : CallCtx := WithReplayScope started "run-1" "live" agentCtx.
Lemma ReadAgentState_exact_witness :
  (ReadAgentState (replayCtx 15) 30 "bot" (mkReadOptions 0) wrote2.1).2 = inl version1.
Proof.
  assert (effectiveTenantFromContext (replayCtx 15) = "acme") as Et by (vm_compute; reflexivity).
  assert (normalizeAgentStateID "bot" = inl "bot") as En by (vm_compute; reflexivity).
  assert (mayUseAgent (replayCtx 15) "acme" "bot") as Hm
    by (split; [discriminate|]; split; [exact Et|]; split; [left; vm_compute; reflexivity|]; intros p Hp; discriminate Hp).
  assert (visible (replayCtx 15) 30 [version1; version2] = Some version1) as Hv by (vm_compute; reflexivity).
  pose proof (ReadAgentState_exact (replayCtx 15) 30 "bot" (mkReadOptions 0) wrote2.1 "bot" [version1; version2] En) as Hr.
  cbv zeta in Hr. rewrite Et in Hr. specialize (Hr history2).
  destruct (ReadAgentState (replayCtx 15) 30 "bot" (mkReadOptions 0) wrote2.1) as [r' res]. destruct Hr as [Hr _].
  destruct (Hr Hm) as [_ Hr']. rewrite Hv in Hr'. exact (Hr' (Z.le_refl 0)).
Defined.

(** *** Findings *)
(** When no version is older than the replay, a replay reads the latest one. *)
Lemma replay_reads_later_state :
  (ReadAgentState (replayCtx 5) 30 "bot" (mkReadOptions 0) wrote2.1).2 = inl version2.
Proof. vm_compute. reflexivity. Qed.
(** Of two writes that overlap, both expecting version 1, both succeed, and the second replaces
    the version of the first. *)
Definition overlap1 := beginWrite agentCtx 20 (writeOf "a" 1) wrote1.1.
Definition overlap2 := beginWrite agentCtx 21 (writeOf "b" 1) overlap1.1.
Lemma overlapping_writes_lose_one :
  match overlap1.2, overlap2.2 with
  | inl a, inl b =>
    let '(r, resA) := endWrite a overlap2.1 in
    let '(r, resB) := endWrite b r in
    resA = inl a /\ resB = inl b /\ as_Version a = as_Version b /\
    readAgentStateVersion "acme" "bot" (as_Version a) r = inl (Some b)
  | _, _ => False
  end.
Proof. vm_compute. done. Qed.

(** ** Concrete artifacts, used to instantiate the properties and to show findings *)
(** A local store on an empty disk, and a runner over it.  The codec of the tool scenario stands
    for JSON. *)
Definition metaStrings (m : ArtifactMeta) : list string :=
  [am_ArtifactID m; am_Sha256 m; numberText (am_Size m); numberText (am_CreatedAt m); am_TenantID m; am_RunID m].
Definition metaOfStrings (l : list string) : ArtifactMeta :=
  mkArtifactMeta (nth 0 l "") (nth 1 l "") "" (textNumber (nth 2 l "")) (textNumber (nth 3 l "")) (nth 4 l "") (nth 5 l "")
    "" "" 0 ∅ "" "".
(** JSON refuses the empty input. *)
#[export] Instance metaJSON : JSON ArtifactMeta := {|
  marshal := marshal (JSON := strings metaStrings metaOfStrings);
  unmarshal := fun b => match b with [] => inr (ENew "unexpected end of JSON input")
                                   | _ => unmarshal (JSON := strings metaStrings metaOfStrings) b end |}.
#[export] Instance linux : Platform := {| windows := false; errno := fun _ => None |}.
#[export] Instance metaJSON_codec : MetaCodec.
Proof.
  constructor; [by eexists|]. intros m b Hb _ _. exists (metaOfStrings (metaStrings m)). split_and!; try done.
  - change (unmarshal b) with (match b with [] => inr (ENew "unexpected end of JSON input")
      | _ => unmarshal (JSON := strings metaStrings metaOfStrings) b end).
    pose proof (strings_round metaStrings metaOfStrings m b Hb) as Hr. destruct b as [|x b]; [|exact Hr].
    injection Hb as [Hb _]%app_eq_nil. by apply app_eq_nil in Hb as [_ ?].
  - apply (textNumber_numberText (am_Size m)).
  - apply (textNumber_numberText (am_CreatedAt m)).
Qed.

Definition emptyDisk : Disk := mkDisk ∅ ∅ ∅ [].
Definition artifacts0 : LocalArtifactStore := mkLocalArtifacts "/data" emptyDisk.
Definition metaFor (tenant : string) (created : Time) : ArtifactMeta :=
  mkArtifactMeta "" "" "application/json" 0 created tenant "run-1" "wf" "n" 1 ∅ "" "".
Definition note : bytes := fromString "abc".
Definition noteID : string := "ba7816bf8f01cfea414140de5dae2223b00361a396177a9cb410ff61f20015ad".
Lemma noteID_sha : shaHex note = noteID.
Proof. vm_compute. reflexivity. Qed.
Lemma intact_empty : intact emptyDisk.
Proof. intros p b _. cbn. by rewrite lookup_empty. Qed.

(** A write that fails half way, a complete one, a listing. *)
Definition shaky : Disk := mkDisk ∅ ∅ ∅
  [fine; fine; fine; fine; fine; mkAnswer (Some (ENew "no space left on device")) 2 "" 0].
Definition noteCalls : list storeCall := [CallPut note (metaFor "acme" 5); CallPut note (metaFor "acme" 7); CallList "run-1" 0].
Lemma artifact_integrity_witness : exists s b m,
  Get noteID (foldl perform (mkLocalArtifacts "/data" shaky) noteCalls) = (s, inl (b, m)) /\ shaHex b = noteID /\ am_Sha256 m = noteID.
Proof.
  destruct (Get noteID (foldl perform (mkLocalArtifacts "/data" shaky) noteCalls)) as [s res] eqn:E.
  assert (match res with inl _ => true | inr _ => false end = true) as Hres by (apply (f_equal snd) in E; cbn [snd] in E; rewrite <- E; vm_compute; reflexivity).
  destruct res as [[b m]|]; [|discriminate Hres]. exists s, b, m.
  destruct (artifact_integrity noteCalls (mkLocalArtifacts "/data" shaky) noteID s b m) as (_&Hb&_&Hm&_).
  - intros p x _. cbn. by rewrite lookup_empty.
  - exact E.
  - split; [reflexivity|]. split; [exact Hb|exact Hm].
Defined.
Abbreviation noted := (LocalArtifactStore_put note (metaFor "acme" 5) emptyDisk).
Definition notedMeta : ArtifactMeta := set_am_stored noteID noteID 3 (metaFor "acme" 5).
Lemma noted_inl : noted.2 = inl (noteID, notedMeta).
Proof. vm_compute. reflexivity. Qed.
Lemma notedMeta_round : unmarshal (encodeMeta notedMeta) = inl (metaOfStrings (metaStrings notedMeta)).
Proof. vm_compute. reflexivity. Qed.
Lemma Put_atomic_witness : exists b, artifact noted.1 noteID = Some (b, metaOfStrings (metaStrings notedMeta)) /\
  (b = note \/ collision b note).
Proof.
  destruct (Put_atomic note (metaFor "acme" 5) emptyDisk noted.1 (inl (noteID, notedMeta))) as (_&Hc&Hid&_&b&Hb&Ha).
  - exact intact_empty.
  - rewrite <- noted_inl. apply surjective_pairing.
  - exists b. rewrite notedMeta_round in Ha. split; [exact Ha|]. apply Hc. rewrite <- Hid. exact Hb.
Defined.

(** Two artifacts, of which the older one is pruned. *)
Definition twoNotes : Disk := (LocalArtifactStore_put (fromString "abd") (metaFor "acme" 50) noted.1).1.
Lemma put_intact data meta d : intact d -> intact (LocalArtifactStore_put data meta d).1.
Proof. apply intact_evolves. eapply put_evolves, surjective_pairing. Qed.
Lemma twoNotes_intact : intact twoNotes.
Proof. unfold twoNotes. apply put_intact, put_intact, intact_empty. Qed.
Abbreviation pruned := (PruneOlderThan "/data" 10 twoNotes).
Lemma prune_only_old_witness : pruned.1.2 = mkPruneStats 2 1 /\ dk_files pruned.1.1 !! blobOf noteID = None /\ old 10 twoNotes noteID.
Proof.
  split; [vm_compute; reflexivity|]. assert (dk_files pruned.1.1 !! blobOf noteID = None) as Hn by (vm_compute; reflexivity).
  split; [exact Hn|]. destruct (prune_only_old "/data" 10 twoNotes pruned.1.1 pruned.1.2 pruned.2 twoNotes_intact) with (p := blobOf noteID)
    as [E|[_ (id&Ho&[E|E])]].
  - rewrite <- !surjective_pairing. reflexivity.
  - exfalso. rewrite Hn in E. assert (is_Some (dk_files twoNotes !! blobOf noteID)) as [x Hx] by (vm_compute; eexists; reflexivity).
    rewrite Hx in E. discriminate E.
  - apply blobOf_inj in E. rewrite E. exact Ho.
  - exfalso. revert E. apply blobOf_not_meta.
Defined.

(** *** Two tenants *)
Definition filed (tenant : string) (r : @Runner MemoryStore nat LocalArtifactStore) : @Runner MemoryStore nat LocalArtifactStore :=
  (PutArtifact note (metaFor tenant 5) r).1.
Definition artifactRunner : @Runner MemoryStore nat LocalArtifactStore :=
  filed "acme" (set_rn_artifacts (Some artifacts0) (NewRunner NewMemoryStore)).
Definition callerOf (tenant : string) : Ctx := WithTenantID tenant background.
Definition reads (tenant : string) (r : @Runner MemoryStore nat LocalArtifactStore) : bool :=
  match (GetArtifact (callerOf tenant) 9 noteID r).2 with inl (data, _) => bool_decide (data = note) | inr _ => false end.

Lemma filed_artifacts tenant r a : rn_artifacts r = Some a ->
  rn_artifacts (filed tenant r) = Some (Put note (metaFor tenant 5) a).1.
Proof. intros Ha. unfold filed, PutArtifact, getArtifactStore. rewrite Ha. by destruct (Put _ _ a). Qed.
Abbreviation stored0 := (Put note (metaFor "acme" 5) artifacts0).1.
Abbreviation storedMeta := (metaOfStrings (metaStrings notedMeta)).
Lemma artifact_access_witness : exists a', Get (TrimSpace noteID) stored0 = (a', inl (note, storedMeta)) /\
  (GetArtifact (callerOf "acme") 9 noteID artifactRunner).2 = inl (note, storedMeta) /\
  rn_artifacts (DeleteArtifact (callerOf "globex") 9 noteID artifactRunner).1 = Some a'.
Proof.
  assert (Ha : rn_artifacts artifactRunner = Some stored0) by (apply filed_artifacts; reflexivity).
  assert (Hg : (Get (TrimSpace noteID) stored0).2 = inl (note, storedMeta)) by (vm_compute; reflexivity).
  revert Ha Hg. generalize stored0 as a. generalize artifactRunner as r. intros r a Ha Hg.
  destruct (Get (TrimSpace noteID) a) as [a' res] eqn:E. cbn [snd] in Hg. subst res. exists a'. split; [reflexivity|].
  assert (am_TenantID storedMeta = "acme") as Ht by (vm_compute; reflexivity).
  revert E Ht. generalize storedMeta as meta. intros meta Hg Ht.
  destruct (artifact_access (callerOf "acme") 9 noteID r a a' note meta Ha Hg) as [Hget _].
  destruct (artifact_access (callerOf "globex") 9 noteID r a a' note meta Ha Hg) as (_&_&Hdel).
  assert (artifactTenant meta r = "acme") as Hat by (unfold artifactTenant; rewrite Ht; reflexivity).
  split; [apply Hget; right; cbn; rewrite Hat; split; [reflexivity|by intros ?]|].
  apply Hdel. intros [E|[E _]]; cbn in E; rewrite Hat in E; discriminate E.
Defined.

(** A second tenant whose output is the same bytes becomes the owner of the first one's
    artifact: the first is refused its own output, and the second may delete it. *)
Lemma same_bytes_change_owner :
  reads "acme" artifactRunner = true /\ reads "globex" artifactRunner = false /\
  reads "acme" (filed "globex" artifactRunner) = false /\ reads "globex" (filed "globex" artifactRunner) = true /\
  (DeleteArtifact (callerOf "globex") 9 noteID (filed "globex" artifactRunner)).2 = None.
Proof. vm_compute. repeat split; reflexivity. Qed.

(** On Windows the old metadata are removed before the rename: when that fails, the artifact
    that was there can no longer be read. *)
Definition windowsOS : Platform := {| windows := true; errno := fun _ => None |}.
Definition busy : Disk :=
  let d := (@LocalArtifactStore_put windowsOS _ note (metaFor "acme" 5) emptyDisk).1 in
  mkDisk (dk_areas d) (dk_dirs d) (dk_files d)
    [fine; fine; fine; fine; fine; fine; fine; fine; fine; fine; mkAnswer (Some (ENew "input/output error")) 0 "" 0].
Lemma failed_replacement_loses_metadata :
  (artifact busy noteID <> None) /\
  (@LocalArtifactStore_put windowsOS _ note (metaFor "acme" 6) busy).2 = inr (ENew "input/output error") /\
  artifact (@LocalArtifactStore_put windowsOS _ note (metaFor "acme" 6) busy).1 noteID = None.
Proof. split; [vm_compute; discriminate|]. split; vm_compute; reflexivity. Qed.

(** ** Concrete agent memories, used to instantiate the properties and to show findings *)
(** *** Entries: fixed fields, then three strings for every component of the vector *)
Definition floatStrings (x : float64) : list string :=
  match x with
  | S754_zero s => ["zero"; flag s; ""]
  | S754_infinity s => ["infinity"; flag s; ""]
  | S754_nan => ["nan"; ""; ""]
  | S754_finite s m e => ["finite"; numberText (if s then Zneg m else Zpos m); numberText e]
  end.
Definition floatOf (kind a b : string) : float64 :=
  if decide (kind = "zero") then S754_zero (bool_decide (a = "true"))
  else if decide (kind = "infinity") then S754_infinity (bool_decide (a = "true"))
  else if decide (kind = "nan") then S754_nan
  else match textNumber a with
       | Zneg m => S754_finite true m (textNumber b)
       | Zpos m => S754_finite false m (textNumber b)
       | Z0 => S754_nan
       end.
Fixpoint floatsOf (l : list string) : list float64 :=
  match l with k :: a :: b :: l => floatOf k a b :: floatsOf l | _ => [] end.
Lemma floatsOf_strings l : floatsOf (mjoin (floatStrings <$> l)) = l.
Proof.
  induction l as [|x l IH]; [reflexivity|]. rewrite fmap_cons. cbn [mjoin list_join].
  destruct x as [[]|[]| |[] m e]; cbn [floatStrings app floatsOf]; (apply (f_equal2 cons); [|exact IH]);
    first [reflexivity|unfold floatOf; rewrite !decide_False by discriminate; by rewrite !textNumber_numberText].
Qed.
Definition memoryStrings (e : AgentMemoryEntry) : list string :=
  [mo_ID e; mo_TenantID e; mo_AgentID e; mo_SourceKind e; mo_Content e; numberText (mo_CreatedAt e); mo_TraceID e;
   mo_PrincipalID e; mo_RunID e; mo_WorkflowID e; mo_NodeID e; numberText (mo_Attempt e); mo_ArtifactID e;
   numberText (mo_StateVersion e)] ++ mjoin (floatStrings <$> mo_Vector e).
Definition memoryOf (l : list string) : AgentMemoryEntry :=
  mkMemory (nth 0 l "") (nth 1 l "") (nth 2 l "") (nth 3 l "") (nth 4 l "") (floatsOf (drop 14 l)) (textNumber (nth 5 l ""))
    (nth 6 l "") (nth 7 l "") (nth 8 l "") (nth 9 l "") (nth 10 l "") (textNumber (nth 11 l "")) (nth 12 l "")
    (textNumber (nth 13 l "")) ∅.
#[export] Instance scenarioMemoryJSON : MemoryJSON := Build_MemoryJSON (strings memoryStrings memoryOf) inl.
#[export] Instance toolIndexLaws : IndexLaws := listLaws.
#[export] Instance scenarioMemoryLaws : MemoryLaws.
Proof.
  refine {| storableMemory := fun e => mo_Labels e = ∅ |}. intros e b Hl E%strings_round. etransitivity; [exact E|]. f_equal.
  pose proof (floatsOf_strings (mo_Vector e)) as Hv. unfold memoryOf. change (drop 14 (memoryStrings e)) with (mjoin (floatStrings <$> mo_Vector e)).
  rewrite Hv. unfold memoryStrings. cbn [nth app]. rewrite !textNumber_numberText, <- Hl. by destruct e.
Defined.

(** *** An agent with two memories *)
Definition noteOf (content : string) : AgentMemoryWriteRequest := mkMemoryWrite "bot" "" content "" "" 0 ∅.
Definition note1 := WriteAgentMemory agentCtx 10 (noteOf "deploy failed on staging") emptyRunner.
Definition note2 := WriteAgentMemory agentCtx 20 (noteOf "invoice was paid") note1.1.
Definition contents (es : list AgentMemoryEntry) : list string := mo_Content <$> es.
Definition listed (ctx : CallCtx) (r : toolRunner) : list string :=
  match (ListAgentMemory ctx 30 "bot" 0 r).2 with inl es => contents es | inr _ => [] end.
Definition found (ctx : CallCtx) (before : Time) (query : string) (r : toolRunner) : list string :=
  match (SearchAgentMemory ctx 30 (mkMemorySearch "bot" query 1 fzero before) r).2 with
  | inl xs => contents (mr_Entry <$> xs)
  | inr _ => []
  end.
Definition entryIn (res : AgentMemoryEntry + error) : AgentMemoryEntry :=
  match res with inl e => e | inr _ => mkMemory "" "" "" "" "" [] 0 "" "" "" "" "" 0 "" 0 ∅ end.
Definition entry1 : AgentMemoryEntry := entryIn note1.2.
Definition entry2 : AgentMemoryEntry := entryIn note2.2.
Lemma memory2 : memory note2.1 "acme" "bot" [entry1; entry2].
Proof. exists ["memory-10-id-1"; "memory-20-id-3"]. split; vm_compute; reflexivity. Defined.
Lemma mayUse2 : mayUseAgent agentCtx "acme" "bot".
Proof. split; [discriminate|]. split; [vm_compute; reflexivity|]. split; [left; vm_compute; reflexivity|]. intros p Hp. discriminate Hp. Qed.

(** A replay that started between the two writes lists the first memory only. *)
Lemma ListAgentMemory_exact_witness : (ListAgentMemory (replayCtx 15) 30 "bot" 0 note2.1).2 = inl [entry1].
Proof.
  assert (effectiveTenantFromContext (replayCtx 15) = "acme") as Et by (vm_compute; reflexivity).
  assert (normalizeAgentStateID "bot" = inl "bot") as En by (vm_compute; reflexivity).
  assert (mayUseAgent (replayCtx 15) "acme" "bot") as Hm
    by (split; [discriminate|]; split; [exact Et|]; split; [left; vm_compute; reflexivity|]; intros p Hp; discriminate Hp).
  assert (take (Z.to_nat (Z.min 200 50)) (filter (seen (boundaryOf (replayCtx 15) 30)) (reverse [entry1; entry2])) = [entry1]) as Hl
    by (vm_compute; reflexivity).
  pose proof (ListAgentMemory_exact (replayCtx 15) 30 "bot" 0 note2.1 "bot" [entry1; entry2] En) as Hr.
  cbv zeta in Hr. rewrite Et in Hr. specialize (Hr memory2).
  destruct (ListAgentMemory (replayCtx 15) 30 "bot" 0 note2.1) as [r' res]. destruct Hr as [Hr _].
  specialize (Hr Hm). etransitivity; [exact Hr|]. exact (f_equal inl Hl).
Defined.
Definition deployQuery : AgentMemorySearchRequest := mkMemorySearch "bot" "deploy" 1 fzero 0.
Lemma SearchAgentMemory_best_witness : exists x (rest : list AgentMemorySearchResult), (SearchAgentMemory agentCtx 30 deployQuery note2.1).2 = inl [x] /\
  mo_Content (mr_Entry x) = "deploy failed on staging" /\ forall y, y ∈ rest -> better x y.
Proof.
  assert (effectiveTenantFromContext agentCtx = "acme") as Et by (vm_compute; reflexivity).
  assert (normalizeAgentStateID "bot" = inl "bot") as En by (vm_compute; reflexivity).
  assert (exists x, (SearchAgentMemory agentCtx 30 deployQuery note2.1).2 = inl [x] /\ mo_Content (mr_Entry x) = "deploy failed on staging") as (x&Hx&Hc)
    by (eexists; split; vm_compute; reflexivity).
  assert (Forall scored (omap (scoreEntry (Embed memoryEmbedder (TrimSpace (ms_Query deployQuery))) (ms_MinScore deployQuery)
    (cutoffOf agentCtx 30 deployQuery)) [entry1; entry2])) as Hs.
  { match goal with |- Forall _ ?l => let l' := eval vm_compute in l in change (Forall scored l') end. repeat constructor; discriminate. }
  pose proof (SearchAgentMemory_best agentCtx 30 deployQuery note2.1 "bot" [entry1; entry2] En) as Hr.
  cbv zeta in Hr. rewrite Et in Hr. specialize (Hr memory2). 
  destruct (SearchAgentMemory agentCtx 30 deployQuery note2.1) as [r' res]. destruct Hr as [Hr _]; [discriminate|].
  destruct (Hr mayUse2) as (l&rest&Hl&_&_&Hb). exists x, rest. cbn [snd] in Hx. split; [exact Hx|]. split; [exact Hc|].
  destruct (Hb Hs) as [_ Hbest]. intros y Hy. apply Hbest; [|exact Hy]. assert (l = [x]) as -> by congruence. apply list_elem_of_singleton. reflexivity.
Defined.

(** *** Findings *)
(** A replay that names an instant itself finds what was remembered after it had started. *)
Lemma replay_finds_later_memory :
  found (replayCtx 15) 0 "invoice" note2.1 = ["deploy failed on staging"] /\
  found (replayCtx 15) 25 "invoice" note2.1 = ["invoice was paid"].
Proof. split; vm_compute; reflexivity. Qed.
(** Of two writes that overlap, both succeed, and the first is not in the index: it is never listed. *)
Definition remember1 := beginMemory agentCtx 10 (noteOf "deploy failed on staging") emptyRunner.
Definition remember2 := beginMemory agentCtx 20 (noteOf "invoice was paid") remember1.1.
Lemma overlapping_memories_lose_one :
  match remember1.2, remember2.2 with
  | inl (a, ids), inl (b, ids') =>
    let '(r, resA) := endMemory a ids remember2.1 in
    let '(r, resB) := endMemory b ids' r in
    resA = inl a /\ resB = inl b /\ listed agentCtx r = ["invoice was paid"]
  | _, _ => False
  end.
Proof. vm_compute. done. Qed.
