(* ===== verification/ReleaseScenario.v ===== *)
(** * Concrete releases and evaluations, used to instantiate the properties and to show findings *)
From S2P Require Import Prelude Storage Graph EngineStore FileStore Throttle Authz Risk Tools Runtime Governance.
From S2P Require Import Human Admission DagRun DagStore KVSpec CallContext Gateway Routing SideEffects Lifecycle Evals WorkflowReleases.
From S2P Require Import AgentState KVSpec ReleaseSpec ToolScenario.
From Stdlib Require Import Init.Byte.

(** ** Encodings *)
Definition optionText (t : option Time) : string := match t with None => "" | Some t => "@" +:+ numberText t end.
Definition textOption (s : string) : option Time :=
  match s with EmptyString => None | String _ s => Some (textNumber s) end.
Lemma textOption_optionText t : textOption (optionText t) = t.
Proof. destruct t as [t|]; [|done]. change (Some (textNumber (numberText t)) = Some t). by rewrite textNumber_numberText. Qed.
Definition listText (l : list string) : string := toString (encodeStrings l).
Definition textList (s : string) : list string := decodeStrings (length (fromString s)) (fromString s).
Lemma textList_listText l : textList (listText l) = l.
Proof.
  unfold textList, listText. rewrite toString_fromString.
  pose proof (strings_round (fun l : list string => l) (fun l => l) l _ eq_refl) as E. by injection E.
Qed.

Definition channelStrings (c : WorkflowReleaseChannel) : list string :=
  [ch_WorkflowID c; ch_Environment c; ch_Active c; ch_Previous c; ch_Canary c; numberText (ch_CanaryPercent c);
   listText (ch_Shadows c); flag (ch_AutoRollback c); ch_LastEvalRunID c; optionText (ch_CreatedAt c);
   optionText (ch_UpdatedAt c)].
Definition channelOf (l : list string) : WorkflowReleaseChannel :=
  mkChannel (nth 0 l "") (nth 1 l "") (nth 2 l "") (nth 3 l "") (nth 4 l "") (textNumber (nth 5 l ""))
    (textList (nth 6 l "")) (bool_decide (nth 7 l "" = "true")) (nth 8 l "") (textOption (nth 9 l ""))
    (textOption (nth 10 l "")).
Definition versionStrings (v : WorkflowReleaseVersion) : list string :=
  [wv_ID v; wv_WorkflowID v; toString (wv_Spec v); wv_EvalRunID v].
Definition versionFrom (l : list string) : WorkflowReleaseVersion :=
  mkVersion (nth 0 l "") (nth 1 l "") (fromString (nth 2 l "")) [] [] None None None "" (nth 3 l "") None None.
Definition suiteStrings (s : EvalSuite) : list string := [es_ID s; es_DatasetID s; es_Evaluator s].
Definition suiteFrom (l : list string) : EvalSuite := mkSuite (nth 0 l "") "" "" (nth 1 l "") (nth 2 l "") "" fone None None.
Definition datasetStrings (d : EvalDataset) : list string :=
  ed_ID d :: mjoin ((fun c => [ec_ID c; toString (ec_Spec c)]) <$> ed_Cases d).
Fixpoint casesFrom (l : list string) : list EvalCase :=
  match l with id :: spec :: l => mkCase id "" "" (fromString spec) [] "" [] ∅ :: casesFrom l | _ => [] end.
Definition datasetFrom (l : list string) : EvalDataset :=
  match l with [] => mkDataset "" "" "" [] None None | id :: l => mkDataset id "" "" (casesFrom l) None None end.
Definition reportStrings (x : EvalReport) : list string :=
  [evr_ID x; evr_SuiteID x; evr_DatasetID x; evr_Status x; flag (evr_Passed x)].
Definition reportFrom (l : list string) : EvalReport :=
  mkReport (nth 0 l "") (nth 1 l "") (nth 2 l "") (nth 3 l "") "" "" fone 0 0 fzero (bool_decide (nth 4 l "" = "true"))
    None None [].
#[export] Instance scenarioEvalJSON : EvalJSON :=
  Build_EvalJSON (strings datasetStrings datasetFrom) (strings suiteStrings suiteFrom) (strings reportStrings reportFrom).
#[export] Instance scenarioReleaseJSON : ReleaseJSON :=
  Build_ReleaseJSON (strings versionStrings versionFrom) (strings channelStrings channelOf) noJSON.
#[export] Instance scenarioReleaseLaws : ReleaseLaws.
Proof.
  refine {| textual := fun _ => True |}; try done.
  2: intros; unfold channelText; rewrite ?Forall_forall; done.
  intros c b _ _ E%strings_round. etransitivity; [exact E|]. destruct c as [wf e a p c n sh [] l t u];
  unfold channelOf, channelStrings; cbn [nth];
    by rewrite !textNumber_numberText, !textOption_optionText, textList_listText.
Defined.
#[export] Instance scenarioEvalLaws : EvalLaws.
Proof.
  refine {| reportText := fun x => reportFrom (reportStrings x) = x |}.
  intros x b Hx E%strings_round. etransitivity; [exact E|]. by rewrite Hx.
Defined.

(** ** A workflow with two versions *)
(** A specification is the name of its workflow; it has one node. *)
Definition oneNode (b : bytes) : WorkflowSpec + error :=
  inl (mkSpec (toString b) [mkNodeSpec "n" "work" "" None [] [] [] (mkSpecRetry 0)]).
Definition versionWith (id wf : string) : WorkflowReleaseVersion :=
  mkVersion id wf (fromString wf) [] [] None None None "" "" None None.
Definition saveVersion (id wf : string) (r : toolRunner) : toolRunner :=
  (SaveWorkflowReleaseVersion oneNode 1 (versionWith id wf) r).1.
Definition releaseRunner : toolRunner := set_rn_registry (Some (mkRegistry {["work" := 7%nat]})) emptyRunner.
Definition twoVersions : toolRunner := saveVersion "v2" "wf" (saveVersion "v1" "wf" releaseRunner).
Lemma twoVersions_consistent : consistent twoVersions.
Proof.
  apply consistent_empty. intros wf env c. unfold twoVersions, saveVersion. rewrite !SaveVersion_channels.
  unfold GetWorkflowReleaseChannel. case_decide; [done|]. destruct (normalizeWorkflowEnvironment env); [|done].
  unfold getJSONKV. change (GetKV ?k (rn_store releaseRunner)) with (getKV k NewMemoryStore). unfold getKV.
  case_decide; [done|]. change (kv NewMemoryStore) with (∅ : gmap string string). by rewrite lookup_empty.
Qed.
Definition canaryChannel : WorkflowReleaseChannel :=
  mkChannel "wf" "prod" "v1" "" "v2" 50 ["v2"] false "" None None.
Abbreviation canaryStored := ((SaveWorkflowReleaseChannel 2 canaryChannel twoVersions).1).
Definition stored : WorkflowReleaseChannel := mkChannel "wf" "prod" "v1" "" "v2" 50 ["v2"] false "" (Some 2) (Some 2).
Lemma allText c : channelText textual c.
Proof. apply Forall_forall. intros s _. exact Logic.I. Qed.
Lemma canary_consistent : consistent canaryStored.
Proof. apply SaveChannel_consistent; [apply allText|apply twoVersions_consistent]. Qed.
Lemma canary_channel : GetWorkflowReleaseChannel "wf" "prod" canaryStored = inl (Some stored).
Proof. vm_compute. reflexivity. Qed.

(** ** Witnesses *)
Lemma channel_operations_consistent_witness : consistent (RollbackWorkflowRelease background 3 "wf" "prod" "" canaryStored).1.
Proof.
  destruct (channel_operations_consistent background 3 "wf" "prod" "" canaryChannel canaryStored) as (_&_&Hr&_);
    [exact Logic.I|exact Logic.I|apply allText|apply canary_consistent|exact Hr].
Defined.
Abbreviation promotion := (PromoteWorkflowRelease background 3 "wf" "prod" "v2" canaryStored).
Lemma rollback_undoes_promotion_witness : exists c1, promotion.2 = inl c1 /\ ch_Previous c1 = "v1".
Proof.
  destruct (paired promotion) as (r1&res&E).
  assert (match promotion.2 with inl _ => True | inr _ => False end) as Hok by (vm_compute; exact Logic.I).
  rewrite E in Hok |- *. destruct res as [c1|]; [|destruct Hok]. exists c1. split; [reflexivity|].
  destruct (rollback_undoes_promotion background background 3 4 "wf" "prod" "v2" canaryStored r1 stored c1) as (_&Hp&_);
    [exact Logic.I|exact Logic.I|apply canary_consistent|exact canary_channel|discriminate| |exact E|exact Hp].
  vm_compute. discriminate.
Defined.
Lemma ResolveWorkflowRelease_exact_witness : exists res,
  ResolveWorkflowRelease "wf" "prod" "run-1" canaryStored = inl res /\ released canaryStored "wf" (re_Primary res).
Proof.
  destruct (ResolveWorkflowRelease_exact "wf" "prod" "run-1" canaryStored stored) as (res&Hr&_&_&_&_&_&_&Hrel&_);
    [apply canary_consistent|exact canary_channel|left; discriminate|].
  exists res. split; [exact Hr|]. replace "wf" with (TrimSpace "wf") by (vm_compute; reflexivity). exact Hrel.
Defined.
Definition passedReport : EvalReport := mkReport "e1" "s" "d" "completed" "" "" fone 0 0 fzero true None None [].
Abbreviation withReport := ((SaveEvalReport passedReport canaryStored).1).
Lemma withReport_consistent : consistent withReport.
Proof.
  eapply consistent_outside; [|apply SaveEvalReport_outside|apply canary_consistent]. intros k. apart.
Qed.
Abbreviation finished := (FinalizeWorkflowCanaryWithEvalGate background 3 "e1" "wf" "prod" withReport).
Lemma canary_gated_witness : exists c', finished.2 = inl (c', "promoted") /\ ch_Active c' = "v2" /\ ch_Previous c' = "v1".
Proof.
  destruct (paired finished) as (r1&res&E).
  assert (match finished.2 with inl (_, action) => action = "promoted" | inr _ => False end) as Hok by (vm_compute; reflexivity).
  rewrite E in Hok |- *. destruct res as [[c' action]|]; [|destruct Hok]. cbn in Hok. subst action. exists c'. split; [reflexivity|].
  assert (GetWorkflowReleaseChannel "wf" "prod" withReport = inl (Some stored)) as Hg by (vm_compute; reflexivity).
  destruct (canary_gated background 3 "e1" "wf" "prod" withReport stored r1 (inl (c', "promoted"))) as
    (x&_&_&_&_&_&_&[(_&_&Ha&Hp)|(_&_&Hr&_)]);
    [exact Logic.I|apply withReport_consistent|exact Hg|exact E|split; [exact Ha|exact Hp]|discriminate Hr].
Defined.
Abbreviation released1 := (RunWorkflowRelease oneNode (callCtx background) "run-1" "wf" "prod" (fromString "{}") canaryStored).
Lemma shadows_run_dry_witness : exists sctx req, released1.1 = [(sctx, inl req)] /\ rq_RunID req = "run-1~shadow~v2" /\
  forall p, effectMode sctx p = SideEffectModeDryRun.
Proof.
  assert (exists sctx req, released1.1 = [(sctx, inl req)]) as (sctx&req&E) by (vm_compute; eexists _, _; reflexivity).
  assert (match released1.1 with [(_, inl q)] => rq_RunID q = "run-1~shadow~v2" | _ => False end) as Hid by (vm_compute; reflexivity).
  exists sctx, req. split; [exact E|]. rewrite E in Hid. split; [exact Hid|].
  destruct (shadows_run_dry oneNode (callCtx background) "run-1" "wf" "prod" (fromString "{}") canaryStored sctx (inl req))
    as [Hm _]; [rewrite E; apply list_elem_of_here|exact Hm].
Defined.

(** ** A suite of two cases *)
Definition caseOf (id : string) : EvalCase := mkCase id "" "" (fromString "wf") [] "" [] ∅.
Definition twoCases : toolRunner :=
  (SaveEvalSuite 1 (mkSuite "s" "" "" "d" EvalEvaluatorRunSucceeded "" fone None None)
     (SaveEvalDataset 1 (mkDataset "d" "" "" [caseOf "good"; caseOf "bad"] None None) releaseRunner).1).1.
(** A run of the first case succeeds, of the second it is stored as failed. *)
Definition runs (q : RunRequest nat) (r : toolRunner) : toolRunner * option error :=
  let status := if decide (rq_RunID q = "e-case-good") then RunStatusSucceeded else RunStatusFailed in
  onStore (CreateRun (mkRun (rq_RunID q) "wf" status None None [] [] "" "" [] noBudget noUsage)) r.
Abbreviation suiteRun := (RunEvalSuite oneNode runs background 5 6 (mkEvalRequest "e" "s" []) twoCases).
Lemma RunEvalSuite_report_witness : exists x, suiteRun.2 = inl x /\ cr_Passed <$> evr_Results x = [true; false] /\
  evr_CaseCount x = 2 /\ evr_Passed x = false.
Proof.
  destruct (paired suiteRun) as (r1&res&E).
  assert (match suiteRun.2 with inl x => (cr_Passed <$> evr_Results x) = [true; false] /\ evr_Passed x = false | inr _ => False end)
    as Hok by (vm_compute; split; reflexivity).
  rewrite E in Hok |- *. destruct res as [x|]; [|destruct Hok]. exists x. destruct Hok as [Hres Hp]. split; [reflexivity|].
  pose proof (RunEvalSuite_report oneNode runs background 5 6 (mkEvalRequest "e" "s" []) twoCases r1 x) as Hr.
  specialize (Hr E).
  destruct Hr as (suite&d&_&_&_&Hcount&_). split; [exact Hres|]. split; [|exact Hp].
  apply (f_equal length) in Hres. rewrite length_fmap in Hres. rewrite Hcount. unfold zlen. by rewrite Hres.
Defined.

(** ** Findings *)
(** Saving a version under an identifier that is in use can move it to another workflow, which
    leaves the channel with a version of that workflow. *)
Lemma version_moves_under_a_channel :
  let r := saveVersion "v1" "other" (saveVersion "v2" "other" canaryStored) in
  match ResolveWorkflowRelease "wf" "prod" "run-1" r with
  | inl res => match GetWorkflowReleaseVersion (re_Primary res) r with
               | Some (inl v) => re_WorkflowID res = "wf" /\ wv_WorkflowID v = "other"
               | _ => False
               end
  | _ => False
  end.
Proof. vm_compute. done. Qed.
(** The report of any suite that passed promotes any canary. *)
Lemma any_report_promotes :
  let r := (SaveEvalReport (mkReport "e0" "another suite" "another dataset" "completed" "" "" fone 0 0 fzero true None None [])
              canaryStored).1 in
  match (FinalizeWorkflowCanaryWithEvalGate background 3 "e0" "wf" "prod" r).2 with
  | inl (c, action) => ch_Active c = "v2" /\ action = "promoted"
  | inr _ => False
  end.
Proof. vm_compute. done. Qed.
(** Two cases of a dataset share the identifier of their runs. *)
Lemma case_runs_collide : caseRunID "e" (caseOf "a.b") = caseRunID "e" (caseOf "a-b").
Proof. vm_compute. reflexivity. Qed.
(** The bucket of a run depends on how the environment is written, although the channel does not. *)
Lemma bucket_depends_on_spelling : exists runID,
  re_Canary <$> (match ResolveWorkflowRelease "wf" "prod" runID canaryStored with inl x => Some x | _ => None end) <>
  re_Canary <$> (match ResolveWorkflowRelease "wf" "PROD" runID canaryStored with inl x => Some x | _ => None end).
Proof. exists "run-1". vm_compute. done. Qed.
(** A canary with a share of zero is served to every run where no version is active, and the
    resolution says that it is the active version. *)
Lemma canary_served_as_active :
  let r := (SaveWorkflowReleaseChannel 2 (mkChannel "wf" "staging" "" "" "v2" 0 [] false "" None None) twoVersions).1 in
  match ResolveWorkflowRelease "wf" "staging" "run-1" r with
  | inl res => re_Primary res = "v2" /\ re_Canary res = false /\ re_Reason res = "selected active version"
  | inr _ => False
  end.
Proof. vm_compute. done. Qed.
