(* ===== verification/DagLive.v ===== *)
(** * A run comes to its end (properties of DagRun.v)

    [potential] falls with every step that is no tick, usage report, cancellation or retry
    timer; so the schedules of a run are bounded, and a run whose nodes take no slots
    returns for every behaviour of its handlers. *)
From S2P Require Import Prelude Storage Graph GraphSpec EngineStore Throttle Authz Risk Runtime.
From S2P Require Import Governance Human Admission DagRun DagInv DagSpec.

Section live.
Context {S F A : Type} `{Store S} `{ArtifactStore A} `{Ambient} `{MapOrder} `{EngineJSON}.
Implicit Types (r : Runner S F A) (l : Loop) (cfg : Config F).

(** ** The measure *)
Definition size cfg : Z := zlen (names cfg).
Definition undone cfg l : Z := zlen (filter (fun v => l_done l !! v = None) (names cfg)).
(** The nodes still to start count twice, those in flight once. *)
Definition work cfg l : Z :=
  if l_stopScheduling l then zlen (l_flight l) else 2 * undone cfg l - zlen (l_flight l).
Definition idle l : Prop := l_ready l = [] /\ l_running l = 0.
#[export] Instance idle_dec l : Decision (idle l).
Proof. apply _. Defined.
Definition rank cfg pc l : Z :=
  match pc with
  | Returned _ => 0
  | AtTop => if decide (idle l) then 1 else size cfg + 3
  | AtSched s k => if decide (idle l) then 3 else k - s + 2
  | AtWait => if decide (idle l) then 2 else 1
  end.
Definition potential cfg pc l : Z :=
  match pc with Returned _ => 0 | _ => (size cfg + 4) * work cfg l + rank cfg pc l end.
Definition external (ev : Event) : Prop :=
  match ev with EvTick | EvDone | EvAfter | EvUsage _ _ _ => True | _ => False end.
#[export] Instance external_dec ev : Decision (external ev).
Proof. destruct ev; apply _. Defined.
Definition pc_ok cfg pc : Prop := match pc with AtSched s k => 0 <= s <= k /\ k <= size cfg | _ => True end.


Lemma open_undone cfg l : dag_inv cfg l -> zlen (openNodes l) <= undone cfg l.
Proof.
  intros Hi. apply NoDup_subseteq_zlen; [apply (di_nodup _ _ Hi)|]. intros v Hv.
  destruct (di_open _ _ Hi v Hv) as (Hn&Hu&_). by apply list_elem_of_filter.
Qed.
Lemma open_split l : zlen (openNodes l) = zlen (l_ready l) + zlen (l_flight l).
Proof. unfold openNodes. by rewrite zlen_app, zlen_fmap. Qed.
Lemma undone_size cfg l : 0 <= undone cfg l <= size cfg.
Proof. unfold undone, size, zlen. split; [lia|]. apply inj_le, length_filter. Qed.
Lemma counts cfg l : dag_inv cfg l ->
  0 <= zlen (l_ready l) /\ 0 <= zlen (l_flight l) /\ zlen (l_ready l) + zlen (l_flight l) <= undone cfg l <= size cfg.
Proof.
  intros Hi. pose proof (open_undone _ _ Hi). rewrite open_split in *. pose proof (undone_size cfg l).
  unfold zlen in *. lia.
Qed.

Lemma undone_insert cfg l l' n ne : NoDup (names cfg) -> n ∈ names cfg -> l_done l !! n = None ->
  l_done l' = <[n := ne]> (l_done l) -> undone cfg l' = undone cfg l - 1.
Proof.
  intros Hnd Hn Hu E. unfold undone. rewrite E.
  assert (Permutation (filter (fun v => l_done l !! v = None) (names cfg))
            (n :: filter (fun v => <[n := ne]> (l_done l) !! v = None) (names cfg))) as ->.
  { apply NoDup_Permutation.
    - by apply NoDup_filter.
    - constructor; [|by apply NoDup_filter]. rewrite list_elem_of_filter, lookup_insert_eq. by intros [].
    - intros v. rewrite elem_of_cons, !list_elem_of_filter. destruct (decide (v = n)) as [->|Hv]; [naive_solver|].
      rewrite lookup_insert_ne by done. naive_solver. }
  unfold zlen. simpl. lia.
Qed.

Lemma framed_work cfg l l' : zlen (l_flight l) <= undone cfg l -> framed l l' -> work cfg l' <= work cfg l.
Proof.
  unfold framed, coreOf. intros Hc ([= E1 E2 E3 E4 E5 E6]&Hs&_). unfold work, undone in *. rewrite E1, E6.
  destruct (l_stopScheduling l) eqn:El; [by rewrite Hs|]. destruct (l_stopScheduling l'); lia.
Qed.
Lemma framed_idle l l' : framed l l' -> idle l' <-> idle l.
Proof. unfold framed, coreOf, idle. by intros ([= _ _ _ -> -> _]&_). Qed.
Lemma rotated_idle l l' : rotated l l' -> ~ idle l /\ ~ idle l'.
Proof.
  intros (n&rest&Hr&Hf). rewrite (framed_idle _ _ Hf). unfold idle. simpl. rewrite Hr. split; [by intros []|].
  intros [E _]. by destruct rest.
Qed.

Lemma zlen_removeAt {X} i (xs : list X) x : xs !! i = Some x -> zlen (removeAt i xs) = zlen xs - 1.
Proof. intros Hi. unfold zlen. rewrite (Permutation_length (removeAt_perm _ _ _ Hi)). simpl. lia. Qed.

(** Taking a node off leaves less to do, once it is done or the scheduling has stopped. *)
Lemma productive_work cfg l l' : valid (c_graph cfg) -> dag_inv cfg l -> productive cfg l l' ->
  work cfg l' <= work cfg l - 1.
Proof.
  intros (Hnd&_) Hi Hp. destruct (counts _ _ Hi) as (Hr0&Hf0&Hc&_). destruct Hp as [l0 n Ht Hf Hs|n rest f Hr Hn Hin Hs Hpar Hst Hf|
    l0 n ne Ht Hst Hid Hf].
  - destruct Hf as (E&_). unfold coreOf in E. injection E as E1 E2 E3 E4 E5 E6. unfold work. rewrite Hs, E6.
    destruct Ht as [n rest E Est|i g E]; simpl.
    + rewrite Est. rewrite E in Hc, Hr0. unfold zlen in *. simpl in *. lia.
    + rewrite (zlen_removeAt _ _ _ E). destruct (l_stopScheduling l); lia.
  - assert (zlen (l_flight l) + 1 <= undone cfg l) as Hu by (rewrite Hr in Hc; unfold zlen in *; simpl in *; lia).
    transitivity (work cfg (addFlight f (set_l_ready rest l))).
    + apply framed_work; [|exact Hf]. simpl. rewrite zlen_app. unfold undone, zlen in *. simpl in *. lia.
    + unfold work. simpl. rewrite Hst, zlen_app. unfold undone, zlen. simpl. lia.
  - destruct (taken_left _ _ _ _ Hi Ht) as [Hnm Hun _ _ _ Hi0 (E1&_&_&E4)].
    set (l1 := completeNode _ _ _ _) in Hf.
    assert (l_flight l1 = l_flight l0 /\ l_stopScheduling l1 = l_stopScheduling l /\
            l_done l1 = <[n := ne]> (l_done l)) as (F1&F2&F3).
    { rewrite <- E4. unfold l1, completeNode. by destruct (releaseUndone _ _ _ _). }
    pose proof (undone_insert cfg l l1 n ne Hnd Hnm Hun F3) as Hu.
    assert (work cfg l1 <= work cfg l - 1 /\ zlen (l_flight l1) <= undone cfg l1) as [Hw Hc1].
    { unfold work. rewrite Hu, F1, F2. destruct Ht as [n rest E Est|i g E]; simpl in *.
      - rewrite Est. rewrite E in Hc, Hr0. unfold zlen in *. simpl in *. lia.
      - rewrite (zlen_removeAt _ _ _ E). destruct (l_stopScheduling l); lia. }
    etransitivity; [apply (framed_work _ _ _ Hc1 Hf)|exact Hw].
Qed.

(** ** Steps lower the potential *)
Lemma live_or_returned pc : live pc \/ exists e, pc = Returned e.
Proof. destruct pc; simpl; eauto. Qed.
Lemma work_nonneg cfg l : dag_inv cfg l -> 0 <= work cfg l.
Proof. intros Hi. destruct (counts _ _ Hi) as (?&?&?&?). unfold work. destruct (l_stopScheduling l); lia. Qed.
Lemma rank_bounds cfg pc l : live pc -> pc_ok cfg pc -> 1 <= rank cfg pc l <= size cfg + 3.
Proof.
  pose proof (zlen_nonneg (names cfg)). unfold size in *. intros Hl Hp. destruct pc as [|s k| |e]; simpl in *;
    try case_decide; unfold size in *; lia || done.
Qed.
Lemma potential_bounds cfg pc l : dag_inv cfg l -> live pc -> pc_ok cfg pc -> 1 <= potential cfg pc l.
Proof.
  intros Hi Hl Hp. pose proof (work_nonneg _ _ Hi). pose proof (rank_bounds cfg pc l Hl Hp).
  pose proof (zlen_nonneg (names cfg)). unfold potential, size in *. destruct pc; [nia..|done].
Qed.
Lemma potential_returned cfg e l : potential cfg (Returned e) l = 0.
Proof. done. Qed.

Lemma productive_potential cfg pc pc' l l' : valid (c_graph cfg) -> dag_inv cfg l -> productive cfg l l' ->
  live pc -> pc_ok cfg pc -> pc_ok cfg pc' -> dag_inv cfg l' -> potential cfg pc' l' + 1 <= potential cfg pc l.
Proof.
  intros Hv Hi Hp Hl Hpc Hpc' Hi'. pose proof (productive_work _ _ _ Hv Hi Hp) as Hw. pose proof (work_nonneg _ _ Hi').
  pose proof (rank_bounds cfg pc l Hl Hpc). pose proof (zlen_nonneg (names cfg)).
  destruct (live_or_returned pc') as [Hl'|[e ->]].
  - pose proof (rank_bounds cfg pc' l' Hl' Hpc'). unfold potential, size in *.
    destruct pc, pc'; simpl in Hl, Hl'; nia || done.
  - rewrite potential_returned. by pose proof (potential_bounds cfg pc l Hi Hl Hpc).
Qed.

Lemma rank_framed cfg pc l l' : framed l l' -> rank cfg pc l' = rank cfg pc l.
Proof.
  intros Hf%framed_idle. unfold rank. destruct pc; [..|done];
    (destruct (decide (idle l)), (decide (idle l')); tauto || done).
Qed.
Lemma framed_potential cfg pc pc' l l' : dag_inv cfg l -> framed l l' -> live pc -> live pc' ->
  potential cfg pc' l' <= potential cfg pc l + rank cfg pc' l - rank cfg pc l.
Proof.
  intros Hi Hf Hl Hl'. destruct (counts _ _ Hi) as (?&?&?&?). pose proof (framed_work cfg l l' ltac:(lia) Hf).
  pose proof (rank_framed cfg pc' _ _ Hf) as E. pose proof (zlen_nonneg (names cfg)). unfold size in *.
  assert (potential cfg pc' l' = (size cfg + 4) * work cfg l' + rank cfg pc' l) as -> by (rewrite <- E; by destruct pc').
  assert (potential cfg pc l = (size cfg + 4) * work cfg l + rank cfg pc l) as -> by by destruct pc.
  unfold size in *. nia.
Qed.

Definition cost cfg ev : Z := if decide (external ev) then size cfg + 4 else 0.
Lemma cost_nonneg cfg ev : 0 <= cost cfg ev.
Proof. unfold cost, size. pose proof (zlen_nonneg (names cfg)). case_decide; lia. Qed.

(** The outcome of a step from [pc]: a lower potential at an admissible point. *)
Definition lowers cfg ev pc l pc' l' : Prop :=
  pc_ok cfg pc' /\ potential cfg pc' l' + 1 <= potential cfg pc l + cost cfg ev.

Lemma returned_lowers cfg ev pc l e l' : dag_inv cfg l -> live pc -> pc_ok cfg pc -> lowers cfg ev pc l (Returned e) l'.
Proof.
  intros Hi Hl Hp. split; [done|]. rewrite potential_returned. pose proof (potential_bounds _ _ _ Hi Hl Hp).
  pose proof (cost_nonneg cfg ev). lia.
Qed.
Lemma framed_lowers cfg ev pc l pc' l' : dag_inv cfg l -> framed l l' -> live pc -> live pc' -> pc_ok cfg pc' ->
  rank cfg pc' l + 1 <= rank cfg pc l + cost cfg ev -> lowers cfg ev pc l pc' l'.
Proof.
  intros Hi Hf Hl Hl' Hp Hr. split; [done|]. pose proof (framed_potential cfg pc pc' l l' Hi Hf Hl Hl'). lia.
Qed.

Lemma top_lowers cfg now l r pc' l' r' : dag_inv cfg l -> topStep cfg now (l, r) = (pc', l', r') ->
  lowers cfg (EvGo now) AtTop l pc' l'.
Proof.
  intros Hi. unfold topStep. case_decide as Hd.
  - intros [_ [e ->]]%finish_core. by apply returned_lowers.
  - pose proof (framed_checks cfg now l r) as Hf. destruct (checkCanceled _ _) as [l1 r1]. simpl in *. intros [= <- <- _].
    destruct (counts _ _ Hi) as (?&?&?&?). pose proof (framed_idle _ _ Hf) as He.
    assert (l_ready l1 = l_ready l) as Er by by destruct Hf as ([= _ _ _ E _ _]&_).
    assert (~ idle l) as Hid by (unfold idle; intros [? ?]; apply Hd; split; [done|lia]).
    apply framed_lowers; [done|exact Hf|done|done|simpl; rewrite Er; lia|].
    unfold rank, cost. rewrite !decide_False by (done || (by intros [])). rewrite Er. lia.
Qed.

Lemma sched_lowers cfg now s k l r pc' l' r' : valid (c_graph cfg) -> dag_inv cfg l -> pc_ok cfg (AtSched s k) ->
  schedStep cfg now s k (l, r) = (pc', l', r') -> (live pc' -> dag_inv cfg l') ->
  lowers cfg (EvGo now) (AtSched s k) l pc' l'.
Proof.
  intros Hv Hi Hpc Hs Hi'. simpl in Hpc.
  destruct (schedStep_moves _ _ _ _ _ _ _ _ _ Hs) as [[err ->]|[(->&->&_)|[(->&Hk&Hr&_)|(Hp&Hprod)]]].
  - by apply returned_lowers.
  - apply framed_lowers; [done|apply framed_refl|done..|]. unfold rank, cost. rewrite (decide_False (P := external _)) by (by intros []).
    destruct (decide (idle l)); lia.
  - assert (core_step cfg l AtWait l') as Hc by by apply cs_rotate.
    destruct Hr as (n&rest&Er&Hf). pose proof (rotated_idle l l' ltac:(by exists n, rest)) as [Hn1 Hn2].
    destruct (rotate_inv cfg l n rest Hi Er) as [Hi1 _].
    pose proof (framed_potential cfg (AtSched s k) (AtSched (s + 1) k) _ l' Hi1 Hf I I) as Hpot.
    assert (potential cfg (AtSched s k) (set_l_ready (rest ++ [n]) l) = potential cfg (AtSched s k) l) as E.
    { unfold potential, rank. rewrite !decide_False; [done|done|]. by rewrite <- (framed_idle _ _ Hf). }
    split; [simpl; lia|]. unfold rank in Hpot. rewrite !decide_False in Hpot by (by rewrite <- (framed_idle _ _ Hf)).
    rewrite E in Hpot. unfold cost. rewrite decide_False by (by intros []). lia.
  - assert (live pc' /\ pc_ok cfg pc') as [Hl' Hp'] by (by destruct Hp as [[-> ?]|[-> _]]; simpl; split; try lia).
    split; [done|]. pose proof (productive_potential cfg (AtSched s k) pc' l l' Hv Hi Hprod I Hpc Hp' (Hi' Hl')).
    pose proof (cost_nonneg cfg (EvGo now)). lia.
Qed.

Lemma onUsage_top cfg tokens dollars now l r pc' l' r' :
  onUsage cfg tokens dollars now (l, r) = (pc', l', r') -> pc' = AtTop.
Proof.
  unfold onUsage. destruct (l_budgetExceeded l); [by intros [= <- _ _]|].
  destruct ((_ <? _) && _); [|destruct (fltb _ _ && _)]; try destruct (triggerBudgetExceeded _ _ _ _ _ _ _ _);
    by intros [= <- _ _].
Qed.
Lemma wait_lowers cfg ev l r pc' l' r' : valid (c_graph cfg) -> dag_inv cfg l ->
  waitStep cfg ev (l, r) = Some (pc', l', r') -> (live pc' -> dag_inv cfg l') -> lowers cfg ev AtWait l pc' l'.
Proof.
  intros Hv Hi Hs Hi'. pose proof (zlen_nonneg (names cfg)) as Hsz. fold (size cfg) in Hsz.
  assert (forall l1, framed l l1 -> external ev -> lowers cfg ev AtWait l AtTop l1) as Hext.
  { intros l1 Hf He. apply framed_lowers; [done|exact Hf|done..|]. unfold rank, cost. rewrite (decide_True (P := external _)) by done.
    destruct (decide (idle l)); lia. }
  assert (forall r1, (onDone cfg (l, r1)).1 = (pc', l') -> external ev -> lowers cfg ev AtWait l pc' l') as Hdone.
  { intros r1 E. pose proof (onDone_core cfg l r1) as Hf. rewrite E in Hf. apply (f_equal fst) in E. simpl in E.
    subst pc'. by apply Hext. }
  unfold waitStep in Hs. destruct (Z.eqb_spec (l_running l) 0) as [Er|Er].
  - destruct (l_stopScheduling l).
    + destruct ev as [now| | | | |]; try done. apply (inj Some), finish_core in Hs as [_ [e ->]]. by apply returned_lowers.
    + destruct (decide (l_ready l = [])) as [Hr|Hr].
      * destruct ev as [now| | | | |]; try done. injection Hs as <- <- _.
        apply framed_lowers; [done|apply framed_refl|done..|]. unfold rank, cost.
        rewrite (decide_False (P := external _)) by (by intros []). rewrite !decide_True by done. lia.
      * destruct ev as [now| | | | |]; try done.
        -- destruct (ctxDone cfg r); [|done]. apply (inj Some) in Hs. apply (Hdone r); [by rewrite Hs|done].
        -- injection Hs as <- <- _. apply Hext; [apply framed_refl|done].
  - destruct ev as [now| | | |tokens dollars now|i out err ended now]; try done.
    + injection Hs as <- <- _. apply Hext; [apply framed_refl|done].
    + destruct (ctxDone cfg r); [|done]. apply (inj Some) in Hs. apply (Hdone r); [by rewrite Hs|done].
    + apply (inj Some) in Hs. pose proof (onUsage_core cfg tokens dollars now l r) as Hf. rewrite Hs in Hf.
      assert (pc' = AtTop) as -> by by apply onUsage_top in Hs. by apply Hext.
    + destruct (l_flight l !! i) as [f|] eqn:Ef; [|done]. apply (inj Some) in Hs.
      destruct (landed_moves _ _ _ _ _ _ _ _ _ _ _ _ (di_budget _ _ Hi) (di_sent _ _ Hi) Ef Hs) as [[e ->]|[-> Hp]];
        [by apply returned_lowers|].
      split; [done|]. pose proof (productive_potential cfg AtWait AtTop l l' Hv Hi Hp I I I (Hi' I)).
      pose proof (cost_nonneg cfg (EvResult i out err ended now)). lia.
Qed.

Lemma step_lowers cfg ev pc l r pc' l' r' : valid (c_graph cfg) -> dag_inv cfg l -> pc_ok cfg pc ->
  step cfg ev (pc, l, r) = Some (pc', l', r') -> (live pc' -> dag_inv cfg l') -> lowers cfg ev pc l pc' l'.
Proof.
  intros Hv Hi Hpc Hs Hi'. unfold step in Hs. destruct pc as [|s k| |e]; [| | |done].
  - destruct ev as [now| | | | |]; try done. apply (inj Some) in Hs. by eapply top_lowers.
  - destruct ev as [now| | | | |]; try done. apply (inj Some) in Hs. by eapply sched_lowers.
  - by eapply wait_lowers.
Qed.

(** ** Schedules are bounded *)
(** [reach] with the events of the run, the last one first. *)
Inductive history (env : relation (Runner S F A)) cfg (st0 : stepResult) : list Event -> stepResult -> Prop :=
| history_start : history env cfg st0 [] st0
| history_step ev evs st st' :
    history env cfg st0 evs st -> step cfg ev st = Some st' -> history env cfg st0 (ev :: evs) st'
| history_env evs pc l r r' :
    history env cfg st0 evs (pc, l, r) -> env r r' -> history env cfg st0 evs (pc, l, r').

Lemma history_reach env cfg st0 evs st : history env cfg st0 evs st -> reach env cfg st0 st.
Proof. induction 1; [apply reach_start|by eapply reach_step|by eapply reach_env]. Qed.

Lemma history_potential env cfg pc0 l0 r0 evs pc l r : entered cfg (pc0, l0, r0) ->
  history env cfg (pc0, l0, r0) evs (pc, l, r) ->
  pc_ok cfg pc /\
  potential cfg pc l + zlen evs <= potential cfg pc0 l0 + (size cfg + 4) * zlen (filter external evs).
Proof.
  intros He Hh. remember (pc, l, r) as st eqn:Est. revert pc l r Est.
  induction Hh as [|ev evs [[pc1 l1] r1] st' Hh IH Hs|evs pc1 l1 r1 r1' Hh IH Henv]; intros pc l r Est.
  - injection Est as <- <- <-. destruct (entered_start _ _ _ _ He) as (_&->&_). split; [done|]. rewrite filter_nil.
    change (zlen (@nil Event)) with 0. lia.
  - subst. destruct (IH _ _ _ eq_refl) as [Hpc Hp]. pose proof (step_live _ _ _ _ _ _ Hs) as Hl.
    pose proof (history_reach _ _ _ _ _ Hh) as Hr. destruct (reach_inv _ _ _ _ _ _ He Hr Hl) as [Hi _].
    destruct (entered_start _ _ _ _ He) as (Hv&_).
    destruct (step_lowers cfg ev pc1 l1 r1 pc l r Hv Hi Hpc Hs) as [Hpc' Hp'].
    { intros Hl'. eapply reach_inv; [exact He|by eapply reach_step|done]. }
    split; [done|]. unfold cost in Hp'. rewrite filter_cons. unfold zlen in *. simpl length. case_decide; simpl length; lia.
  - injection Est as <- <- <-. by eapply IH.
Qed.

Lemma start_potential cfg l0 r0 : entered cfg (AtTop, l0, r0) ->
  potential cfg AtTop l0 <= (size cfg + 4) * (2 * size cfg + 1).
Proof using All.
  intros He. destruct (entered_start _ _ _ _ He) as (_&_&_&_&_&_&_&Hf&_).
  pose proof (undone_size cfg l0). pose proof (zlen_nonneg (names cfg)). fold (size cfg) in *.
  unfold potential, work, rank. rewrite Hf. change (zlen (@nil flight)) with 0.
  destruct (l_stopScheduling l0), (decide (idle l0)); nia.
Qed.

(** C35: However the events of a run interleave and whatever others do meanwhile, the loop takes
    at most quadratically many steps, and linearly many per tick, usage report, cancellation
    and retry timer. *)
Theorem schedule_bounded env cfg st0 evs st : entered cfg st0 -> history env cfg st0 evs st ->
  zlen evs <= (size cfg + 4) * (2 * size cfg + 1 + zlen (filter external evs)).
Proof.
  destruct st0 as [[pc0 l0] r0], st as [[pc l] r]. intros He Hh.
  destruct (history_potential _ _ _ _ _ _ _ _ _ He Hh) as [Hpc Hp].
  destruct (entered_start _ _ _ _ He) as (_&->&Hi&_&_&_&_&Hf&_).
  pose proof (start_potential _ _ _ He).
  assert (0 <= potential cfg pc l); [|lia].
  destruct (live_or_returned pc) as [Hl'|[e ->]]; [|done].
  destruct (reach_inv _ _ _ _ _ _ He (history_reach _ _ _ _ _ Hh) Hl') as [Hi' _].
  pose proof (potential_bounds cfg pc l Hi' Hl' Hpc). lia.
Qed.

(** ** A run without slots returns *)
(** What the clock and the handlers contribute to a step; the flight to land is [o_pick]
    modulo their number. *)
Record Outcome : Type := mkOutcome {
  o_pick : nat; o_out : bytes; o_err : option NodeError; o_ended : Time; o_now : Time
}.
Definition next (o : Outcome) (pc : PC) l : Event :=
  match pc with
  | AtWait => if l_running l =? 0 then EvGo (o_now o)
              else EvResult (o_pick o mod length (l_flight l)) (o_out o) (o_err o) (o_ended o) (o_now o)
  | _ => EvGo (o_now o)
  end.
Fixpoint drive cfg (os : nat -> Outcome) (n : nat) (st : stepResult) : stepResult :=
  match n with
  | O => st
  | Datatypes.S n =>
    let '(pc, l, r) := st in
    match step cfg (next (os n) pc l) st with Some st => drive cfg os n st | None => st end
  end.

Definition uncapped cfg : Prop :=
  c_cache cfg <> None \/ forall node, node ∈ Nodes (c_graph cfg) -> nd_Topic node = "".
Definition unrefused pc l : Prop :=
  match pc with
  | AtSched s k => s = 0 /\ (k <= 0 -> l_ready l = [])
  | AtWait => l_stopScheduling l = true \/ 0 < l_running l \/ l_ready l = []
  | _ => True
  end.

Lemma nodeByID_in cfg n node : nodeByID (c_graph cfg) !! n = Some node -> node ∈ Nodes (c_graph cfg).
Proof.
  unfold nodeByID. induction (Nodes (c_graph cfg)) as [|x xs IH] using rev_ind; [done|].
  rewrite foldl_app. simpl. rewrite lookup_insert. case_decide; [intros [= ->]; set_solver|]. intros Hn. set_solver.
Qed.

Lemma onResult_pc cfg now res l r pc' l' r' : onResult cfg now res (l, r) = (pc', l', r') ->
  pc' = AtTop \/ exists e, pc' = Returned e.
Proof.
  unfold onResult. destruct (dropSlot _ _) as [l1 r1]. destruct (l_budgetExceeded l1); [injection 1; auto|].
  destruct (l_externalCanceled l1 || _); [injection 1; auto|].
  destruct (nr_err res) as [[err|after reason]|]; [injection 1; auto..|].
  intros [[err ->]|[-> _]]%onSuccess_core; eauto.
Qed.
Lemma step_unrefused cfg ev pc l r pc' l' r' : uncapped cfg -> 1 <= c_maxPar cfg -> unrefused pc l ->
  step cfg ev (pc, l, r) = Some (pc', l', r') -> unrefused pc' l'.
Proof.
  intros Hu Hm Hq Hs. unfold step in Hs. destruct pc as [|s k| |e]; [| | |done].
  - destruct ev as [now| | | | |]; try done. apply (inj Some) in Hs. unfold topStep in Hs. case_decide.
    + by apply finish_core in Hs as [_ [e ->]].
    + destruct (checkCanceled _ _) as [l1 r1]. injection Hs as <- <- _. split; [done|]. unfold zlen.
      by destruct (l_ready l1).
  - destruct ev as [now| | | | |]; try done. apply (inj Some) in Hs. destruct Hq as [-> Hk].
    destruct (schedStep_moves _ _ _ _ _ _ _ _ _ Hs) as [[err ->]|[(->&->&Hw)|[(_&_&_&node&Hn&Hc&Ht)|([[-> ?]|[-> Hst]]&_)]]].
    + done.
    + destruct Hw as [?|[?|[?|?]]]; simpl; auto. right. left. lia.
    + exfalso. apply nodeByID_in in Hn. destruct Hu; [done|]. auto.
    + split; [done|]. lia.
    + simpl. auto.
  - assert (pc' = AtTop \/ exists e, pc' = Returned e) as [->|[e ->]]; [|done..].
    unfold waitStep in Hs. destruct (l_running l =? 0).
    + destruct (l_stopScheduling l).
      * destruct ev; try done. apply (inj Some), finish_core in Hs as [_ ?]. auto.
      * destruct (decide _); destruct ev; try done; [| |].
        -- injection Hs. auto.
        -- destruct (ctxDone cfg r); [|done]. injection Hs. auto.
        -- injection Hs. auto.
    + destruct ev as [now| | | |tokens dollars now|i out err ended now]; try done.
      * injection Hs. auto.
      * destruct (ctxDone cfg r); [|done]. injection Hs. auto.
      * apply (inj Some), onUsage_top in Hs. auto.
      * destruct (l_flight l !! i); [|done]. apply (inj Some), onResult_pc in Hs. done.
Qed.

Lemma next_enabled cfg o pc l r : dag_inv cfg l -> unrefused pc l -> live pc ->
  is_Some (step cfg (next o pc l) (pc, l, r)).
Proof.
  intros Hi Hu Hl. destruct pc as [|s k| |e]; [by eexists..| |done].
  unfold step, next, waitStep. destruct (Z.eqb_spec (l_running l) 0) as [Er|Er]; rewrite (di_running _ _ Hi) in Er.
  - destruct (l_stopScheduling l) eqn:Est; [by eexists|].
    destruct Hu as [?|[Hr|Hr]]; [congruence|rewrite (di_running _ _ Hi) in Hr; lia|]. rewrite decide_True by done. by eexists.
  - destruct (l_flight l !! (o_pick o mod length (l_flight l))%nat) eqn:E; [by eexists|].
    apply lookup_ge_None in E. unfold zlen in Er. pose proof (Nat.mod_upper_bound (o_pick o) (length (l_flight l))). lia.
Qed.
Lemma next_internal o pc l : ~ external (next o pc l).
Proof. unfold next. destruct pc; try by intros []. by destruct (l_running l =? 0); intros []. Qed.

Lemma drive_returns env cfg st0 os n pc l r : uncapped cfg -> entered cfg st0 -> 1 <= c_maxPar cfg ->
  reach env cfg st0 (pc, l, r) -> unrefused pc l -> pc_ok cfg pc -> potential cfg pc l <= Z.of_nat n ->
  exists e l' r', drive cfg os n (pc, l, r) = (Returned e, l', r').
Proof.
  intros Hc He Hm. revert pc l r. destruct st0 as [[pc0 l0] r0]. destruct (entered_start _ _ _ _ He) as (Hv&_).
  assert (forall n e l r, drive cfg os n (Returned e, l, r) = (Returned e, l, r)) as Hret by by intros [].
  induction n as [|n IH]; intros pc l r Hr Hu Hp Hn; destruct (live_or_returned pc) as [Hl|[e ->]].
  - destruct (reach_inv _ _ _ _ _ _ He Hr Hl) as [Hi _]. pose proof (potential_bounds _ _ _ Hi Hl Hp). lia.
  - by exists e, l, r.
  - destruct (reach_inv _ _ _ _ _ _ He Hr Hl) as [Hi _]. cbn [drive].
    destruct (next_enabled cfg (os n) pc l r Hi Hu Hl) as [[[pc' l'] r'] Hs]. rewrite Hs.
    destruct (step_lowers cfg _ _ _ _ _ _ _ Hv Hi Hp Hs) as [Hp' Hpot].
    { intros Hl'. eapply reach_inv; [exact He|by eapply reach_step|done]. }
    unfold cost in Hpot. rewrite decide_False in Hpot by apply next_internal.
    apply IH; [by eapply reach_step|by eapply step_unrefused|done|lia].
  - exists e, l, r. by rewrite Hret.
Qed.

(** C13: A run whose nodes take no slot returns, whatever the handlers answer and in whatever
    order they finish, within quadratically many steps. *)
Theorem run_returns cfg st0 os n : entered cfg st0 -> uncapped cfg ->
  (size cfg + 4) * (2 * size cfg + 1) <= Z.of_nat n ->
  exists e l r, drive cfg os n st0 = (Returned e, l, r).
Proof.
  destruct st0 as [[pc0 l0] r0]. intros He Hc Hn.
  destruct (entered_start _ _ _ _ He) as (_&->&Hi&_&_&Hm&_&Hf&_).
  eapply (drive_returns (fun _ _ => False)); [done|exact He|done|apply reach_start|done|done|].
  pose proof (start_potential _ _ _ He). lia.
Qed.
End live.
