(* ===== verification/DagComplete.v ===== *)
(** * A run that succeeds has run every node (property of DagRun.v)

    [calm] holds while nobody cancels the run: scheduling stops only for a failure, a wait or
    an exceeded budget, and the end of the run reports each of them. *)
From S2P Require Import Prelude Storage Graph GraphSpec EngineStore Throttle Authz Risk Runtime.
From S2P Require Import Governance Human Admission DagRun DagInv DagStore DagSpec DagDurable.

Section complete.
Context {S F A : Type} `{Store S} `{!StoreLaws S} `{ArtifactStore A} `{Ambient} `{MapOrder} `{EngineJSON}.
#[local] Set Default Proof Using "Type*".
Implicit Types (r : Runner S F A) (l : Loop) (cfg : Config F) (lr : Loop * Runner S F A).

(** ** Nothing is canceled *)
Definition undisturbed r r' : Prop :=
  rn_canceled r' = rn_canceled r /\ forall id, isCanceled id r = false -> isCanceled id r' = false.
Lemma undisturbed_refl r : undisturbed r r.
Proof. done. Qed.
Lemma undisturbed_trans r1 r2 r3 : undisturbed r1 r2 -> undisturbed r2 r3 -> undisturbed r1 r3.
Proof. intros [E1 H1'] [E2 H2']. split; [congruence|auto]. Qed.
Lemma undisturbed_runs r r' : (forall id, GetRun id (rn_store r') = GetRun id (rn_store r)) ->
  rn_canceled r' = rn_canceled r -> undisturbed r r'.
Proof. intros Hg E. split; [done|]. intros id. by rewrite (isCanceled_same id r r'). Qed.
Lemma undisturbed_kept r r' : kept r r' -> undisturbed r r'.
Proof. intros [[Hg _] E]. by apply undisturbed_runs. Qed.
Lemma undisturbed_write ne r r' : node_write ne r r' -> undisturbed r r'.
Proof. intros (Hg&E&_). by apply undisturbed_runs. Qed.
Lemma undisturbed_emit now id ty wf n a p r r' : undisturbed r r' -> undisturbed r (emit now id ty wf n a p r').
Proof. intros Hu. eapply undisturbed_trans; [exact Hu|]. apply undisturbed_kept, kept_emit. Qed.
Lemma undisturbed_saveRun run r : r_Status run <> RunStatusCanceled -> undisturbed r (saveRun run r).
Proof.
  intros Hs. split; [by destruct (saveRun_spec run r) as (_&?&_)|]. intros id. by apply saveRun_uncanceled.
Qed.

(** ** The invariant *)
Definition causes l : bool := l_failed l || l_externalCanceled l || l_waiting l || l_budgetExceeded l.
Definition underway (run : Run) : Prop := r_Status run <> RunStatusCanceled /\ r_Status run <> RunStatusSucceeded.
Record calm cfg l r : Prop := {
  cm_cause : l_stopScheduling l = true -> causes l = true;
  cm_ctx : ctxDone cfg r = true -> l_stopScheduling l = true;
  cm_run : isCanceled (c_runID cfg) r = false;
  cm_status : underway (l_run l)
}.
Lemma ctxDone_same cfg r r' : rn_canceled r' = rn_canceled r -> ctxDone cfg r' = ctxDone cfg r.
Proof. unfold ctxDone. by intros ->. Qed.
(** The flags and the contexts stay. *)
Lemma calm_same cfg l r l' r' : calm cfg l r -> undisturbed r r' -> causes l' = causes l ->
  l_stopScheduling l' = l_stopScheduling l -> underway (l_run l') -> calm cfg l' r'.
Proof.
  intros [C1 C2 C3 C4] [E Hu] Ec Es Hs. split; rewrite ?Ec, ?Es; try done; [|by apply Hu].
  by rewrite (ctxDone_same cfg r r').
Qed.
(** Scheduling stops for a cause. *)
Lemma calm_stop cfg l r : causes l = true -> l_stopScheduling l = true -> isCanceled (c_runID cfg) r = false ->
  underway (l_run l) -> calm cfg l r.
Proof. by split. Qed.
Lemma undisturbed_run cfg l r r' : calm cfg l r -> undisturbed r r' -> isCanceled (c_runID cfg) r' = false.
Proof. intros Hc [_ Hu]. apply Hu, (cm_run _ _ _ Hc). Qed.

Lemma causes_budget l : l_budgetExceeded l = true -> causes l = true.
Proof. unfold causes. intros ->. by rewrite orb_true_r. Qed.
Lemma causes_waiting l : l_waiting l = true -> causes l = true.
Proof. unfold causes. intros ->. by rewrite !orb_true_r. Qed.
Lemma causes_canceled l : l_externalCanceled l = true -> causes l = true.
Proof. unfold causes. intros ->. by rewrite !orb_true_r. Qed.

Lemma calm_trigger cfg now a b c d e l r : calm cfg l r ->
  calm cfg (triggerBudgetExceeded cfg now a b c d e (l, r)).1 (triggerBudgetExceeded cfg now a b c d e (l, r)).2.
Proof.
  intros Hc. unfold triggerBudgetExceeded. destruct (l_budgetExceeded l); [done|].
  apply calm_stop; [by apply causes_budget|done| |done]. cbn [snd].
  match goal with |- isCanceled _ (runCancel _ ?x) = _ => change (isCanceled (c_runID cfg) x = false) end.
  eapply undisturbed_run; [exact Hc|]. do 2 apply undisturbed_emit. by apply undisturbed_saveRun.
Qed.
Ltac triggered Hc :=
  match goal with |- context [triggerBudgetExceeded ?cfg ?now ?a ?b ?c ?d ?e (?l, ?r)] =>
    pose proof (calm_trigger cfg now a b c d e l r Hc) as Ht;
    destruct (triggerBudgetExceeded cfg now a b c d e (l, r)) as [lt rt] end.
Lemma calm_dropSlot cfg n l r : calm cfg l r -> calm cfg (dropSlot n (l, r)).1 (dropSlot n (l, r)).2.
Proof.
  intros Hc. unfold dropSlot. destruct (l_inflightKey l !! n) as [key|]; [|done]. destruct (decide (key = "")); [done|].
  apply (calm_same cfg l r); try done. apply (cm_status _ _ _ Hc).
Qed.
Lemma calm_markWaiting cfg l r : calm cfg l r -> calm cfg (markWaiting (l, r)).1 (markWaiting (l, r)).2.
Proof.
  intros Hc. apply calm_stop; [by apply causes_waiting|done| |done].
  eapply undisturbed_run; [exact Hc|]. by apply undisturbed_saveRun.
Qed.
Lemma calm_checks cfg now l r : calm cfg l r ->
  calm cfg (checkCanceled cfg (checkWallClock cfg now (l, r))).1 (checkCanceled cfg (checkWallClock cfg now (l, r))).2.
Proof.
  assert (forall l r, calm cfg l r -> calm cfg (checkCanceled cfg (l, r)).1 (checkCanceled cfg (l, r)).2) as Hcc.
  { intros l0 r0 Hc. unfold checkCanceled. by rewrite (cm_run _ _ _ Hc), andb_false_r. }
  intros Hc. unfold checkWallClock. destruct (r_StartedAt (l_run l)); [|by apply Hcc].
  destruct (negb _ && _ && _); [|by apply Hcc].
  triggered Hc. by apply Hcc.
Qed.
Lemma calm_acquire cfg now node l r : calm cfg l r ->
  calm cfg (acquireSlot cfg now node (l, r)).1.1 (acquireSlot cfg now node (l, r)).1.2.
Proof.
  intros Hc. pose proof (cm_status _ _ _ Hc). unfold acquireSlot. destruct (decide _); [done|].
  destruct (concurrencyCapFor _ _ _) as [[cap scope] key].
  destruct (cap <=? 0); [done|]. destruct (tryAcquireCap key cap (rn_caps r)) as [caps [[] k]].
  - by apply (calm_same cfg l r).
  - destruct (shouldEmitThrottle _ _ _ _) as [last []]; [|by apply (calm_same cfg l r)].
    apply (calm_same cfg l r); try done. by apply undisturbed_emit.
Qed.
Lemma calm_onUsage cfg tokens dollars now l r : calm cfg l r ->
  calm cfg (onUsage cfg tokens dollars now (l, r)).1.2 (onUsage cfg tokens dollars now (l, r)).2.
Proof.
  intros Hc. unfold onUsage. destruct (l_budgetExceeded l); [done|]. set (run := set_r_Usage _ _).
  assert (calm cfg (set_l_run run l) (saveRun run r)) as F1.
  { pose proof (cm_status _ _ _ Hc). apply (calm_same cfg l r); try done. apply undisturbed_saveRun. by destruct H4. }
  destruct ((_ <? _) && _); [|destruct (fltb _ _ && _); [|exact F1]].
  - by triggered F1.
  - by triggered F1.
Qed.

(** ** Steps *)
(** A step that goes on stays calm. *)
Definition stays cfg (st : stepResult) : Prop := live st.1.1 -> calm cfg st.1.2 st.2.
Lemma stays_abort cfg err lr : stays cfg (abort cfg err lr).
Proof. by intros []. Qed.
Lemma completeNode_calm cfg n out l r : calm cfg l r -> calm cfg (completeNode cfg n out l) r.
Proof.
  intros Hc. pose proof (cm_status _ _ _ Hc). unfold completeNode. destruct (releaseUndone _ _ _ _).
  by apply (calm_same cfg l r).
Qed.
Lemma calm_done cfg l r r' n ne : calm cfg l r -> undisturbed r r' -> calm cfg (set_l_done (<[n := ne]> (l_done l)) l) r'.
Proof. intros Hc Hu. apply (calm_same cfg l r); try done. apply (cm_status _ _ _ Hc). Qed.

Lemma stays_cacheHit cfg now k n att input entry l r : calm cfg l r ->
  stays cfg (cacheHit cfg now k n att input entry (l, r)).
Proof.
  intros Hc. unfold cacheHit. set (ne := nodeExec cfg n att NodeStatusSucceeded _ _ _ _ _).
  destruct (onStore (UpsertNodeExecution ne) _) as [r1 [err|]] eqn:E; [by intros []|].
  apply upsert_write in E as (Hw%undisturbed_write&_).
  pose proof (kept_finishedPayload cfg n att (ce_Output entry) (Some (ce_Attempt entry)) now now r1) as Hk%undisturbed_kept.
  destruct (finishedPayload _ _ _ _ _ _ _ _) as [r2 [p|err]]; [|by intros []]. intros _. apply completeNode_calm.
  apply (calm_done cfg l r); [done|]. apply undisturbed_emit. eapply undisturbed_trans; [|exact Hk].
  eapply undisturbed_trans; [|exact Hw]. by apply undisturbed_emit.
Qed.
Lemma stays_launch cfg now k n att input l r : calm cfg l r -> stays cfg (launch cfg now k n att input (l, r)).
Proof.
  intros Hc. unfold launch. destruct (onStore _ r) as [r1 [err|]] eqn:E; [by intros []|].
  apply upsert_write in E as (Hw%undisturbed_write&_). intros _.
  apply (calm_same cfg l r); try done; [by apply undisturbed_emit|apply (cm_status _ _ _ Hc)].
Qed.
Lemma stays_startNode cfg now k node l r : calm cfg l r -> stays cfg (startNode cfg now k node (l, r)).
Proof.
  intros Hc. unfold startNode. set (l1 := set_l_run _ _). set (r1 := saveRun _ r).
  destruct (nodeInput cfg l1 (NodeID node)) as [input|err]; [|by intros []].
  set (att := if 0 <? _ then _ else 1). set (l2 := set_l_maxAttempt _ l1).
  assert (forall r', undisturbed r1 r' -> calm cfg l2 r') as Hc2.
  { intros r' Hu. pose proof (cm_status _ _ _ Hc) as Hs. apply (calm_same cfg l r); try done.
    eapply undisturbed_trans; [|exact Hu]. apply undisturbed_saveRun, Hs. }
  pose proof (maybeHandleHumanNode_write (c_ctx cfg) now (c_runID cfg) (c_wfID cfg) node att input now r1) as
    Hw%undisturbed_write.
  destruct (maybeHandleHumanNode _ _ _ _ _ _ _ _ _) as [r2 [[res|]|err]]; simpl in Hw; [| |by intros []].
  - destruct (isPending res).
    + pose proof (calm_markWaiting cfg l2 r2 (Hc2 _ Hw)) as Hm. destruct (markWaiting (l2, r2)) as [l3 r3].
      pose proof (calm_dropSlot cfg (NodeID node) l3 r3 Hm) as Hd. destruct (dropSlot _ _) as [l4 r4]. by intros _.
    + intros _. apply (calm_same cfg l2 r2); try done; [by apply Hc2|apply (cm_status _ _ _ Hc)].
  - destruct (c_cache cfg ≫= lookup (NodeID node)); [by apply stays_cacheHit, Hc2|by apply stays_launch, Hc2].
Qed.

Lemma stays_schedStep cfg now s k l r : calm cfg l r -> stays cfg (schedStep cfg now s k (l, r)).
Proof.
  intros Hc. unfold schedStep. destruct (_ || _); [by intros _|]. destruct (l_ready l) as [|n rest]; [by intros _|].
  destruct (k <=? s); [by intros _|]. set (l0 := set_l_ready rest l).
  assert (calm cfg l0 r) as Hc0 by (apply (calm_same cfg l r); try done; apply (cm_status _ _ _ Hc)).
  destruct (nodeByID _ !! n) as [node|]; [|by intros []].
  destruct (negb _ && _ && _); [triggered Hc0; by intros _|].
  pose proof (calm_acquire cfg now node l0 r Hc0) as Ha. destruct (acquireSlot cfg now node (l0, r)) as [[l1 r1] []]; [|by intros _].
  by apply stays_startNode.
Qed.

Lemma stays_onResult cfg now res l r : calm cfg l r -> stays cfg (onResult cfg now res (l, r)).
Proof.
  intros Hc0. unfold onResult. pose proof (calm_dropSlot cfg (nr_nodeID res) l r Hc0) as Hc.
  destruct (dropSlot (nr_nodeID res) (l, r)) as [l1 r1]. simpl in Hc. pose proof (cm_status _ _ _ Hc) as [Hst1 Hst2].
  assert (forall ne, undisturbed r1 (saveNode ne r1)) as Hsave by (intros ne; eapply undisturbed_write, saveNode_write).
  destruct (l_budgetExceeded l1); [intros _; apply (calm_same cfg l1 r1); try done; apply Hsave|].
  rewrite (cm_run _ _ _ Hc), orb_false_r. destruct (l_externalCanceled l1) eqn:Eext.
  { intros _. apply calm_stop; [by apply causes_canceled|done| |done]. eapply undisturbed_run; [exact Hc|apply Hsave]. }
  destruct (nr_err res) as [[err|after reason]|].
  - intros _. apply calm_stop; [done|done| |done]. unfold onFailure. cbn [snd].
    match goal with |- isCanceled _ (runCancel _ ?x) = _ => change (isCanceled (c_runID cfg) x = false) end.
    eapply undisturbed_run; [exact Hc|]. apply undisturbed_emit.
    eapply undisturbed_trans; [|by apply undisturbed_saveRun]. apply undisturbed_emit, Hsave.
  - intros _. unfold onDelay. match goal with |- context [markWaiting (l1, ?x)] => apply (calm_markWaiting cfg l1 x) end.
    apply (calm_same cfg l1 r1); try done. apply undisturbed_emit.
    eapply undisturbed_trans; [|apply undisturbed_kept, kept_timer]. apply Hsave.
  - unfold onSuccess. set (ne := resultExec cfg res NodeStatusSucceeded _ _ _).
    destruct (onStore (UpsertNodeExecution ne) r1) as [r2 [err|]] eqn:E; [by intros []|].
    apply upsert_write in E as (Hw%undisturbed_write&_).
    pose proof (kept_finishedPayload cfg (nr_nodeID res) (nr_attempt res) (nr_output res) None (nr_started res)
      (nr_ended res) r2) as Hk%undisturbed_kept.
    destruct (finishedPayload _ _ _ _ _ _ _ _) as [r3 [p|err]]; [|by intros []]. intros _. apply completeNode_calm.
    apply (calm_done cfg l1 r1); [done|]. apply undisturbed_emit. by eapply undisturbed_trans.
Qed.

Lemma stays_onDone cfg l r : calm cfg l r -> ctxDone cfg r = true -> stays cfg (onDone cfg (l, r)).
Proof.
  intros Hc Hd _. unfold onDone. rewrite (cm_run _ _ _ Hc). pose proof (cm_ctx _ _ _ Hc Hd) as Hs.
  apply calm_stop; [by apply (cm_cause _ _ _ Hc)|done|apply (cm_run _ _ _ Hc)|apply (cm_status _ _ _ Hc)].
Qed.

Lemma step_stays cfg ev pc l r st : calm cfg l r -> step cfg ev (pc, l, r) = Some st -> stays cfg st.
Proof.
  intros Hc. assert (forall now, stays cfg (finish cfg now (l, r))) as Hfin.
  { intros now. destruct (finish cfg now (l, r)) as [[pc' l'] r'] eqn:E. by apply finish_core in E as [_ [e ->]]. }
  unfold step. destruct pc as [|s k| |e]; [| | |done].
  - destruct ev as [now| | | | |]; try done. intros Ht. apply (inj Some) in Ht as <-. unfold topStep.
    destruct (decide _); [apply Hfin|]. pose proof (calm_checks cfg now l r Hc) as Hk.
    destruct (checkCanceled _ _) as [l1 r1]. by intros _.
  - destruct ev as [now| | | | |]; try done. intros Ht. apply (inj Some) in Ht as <-. by apply stays_schedStep.
  - unfold waitStep. destruct (l_running l =? 0).
    + destruct (l_stopScheduling l).
      * destruct ev as [now| | | | |]; try done. intros Ht. apply (inj Some) in Ht as <-. apply Hfin.
      * destruct (decide (l_ready l = [])); [destruct ev; try done; intros [= <-]; by intros _|].
        destruct ev; try done; [|intros [= <-]; by intros _]. destruct (ctxDone cfg r) eqn:Ed; [|done].
        intros Ht. apply (inj Some) in Ht as <-. by apply stays_onDone.
    + destruct ev as [now| | | |tokens dollars now|i out err ended now]; try done.
      * intros [= <-]. by intros _.
      * destruct (ctxDone cfg r) eqn:Ed; [|done]. intros Ht. apply (inj Some) in Ht as <-. by apply stays_onDone.
      * intros Ht. apply (inj Some) in Ht as <-. intros _. by apply calm_onUsage.
      * destruct (l_flight l !! i); [|done]. intros Ht. apply (inj Some) in Ht as <-. apply stays_onResult.
        apply (calm_same cfg l r); try done. apply (cm_status _ _ _ Hc).
Qed.

(** ** The end *)
Lemma finish_success cfg now l r l' r' : calm cfg l r -> finish cfg now (l, r) = (Returned None, l', r') ->
  r_Status (l_run l') = RunStatusSucceeded -> causes l = false /\ l_done l' = l_done l.
Proof.
  intros Hc. unfold finish, causes. destruct (l_failed l); [done|]. rewrite (cm_run _ _ _ Hc), orb_false_r.
  destruct (l_externalCanceled l); [done|]. destruct (l_waiting l || _) eqn:Ew.
  { intros [= <- _] Hs. by destruct (cm_status _ _ _ Hc). }
  apply orb_false_iff in Ew as [-> _]. destruct (l_budgetExceeded l); [done|].
  destruct (onStore _ r) as [r1 [err|]]; [done|]. by intros [= <- _].
Qed.
Lemma step_success cfg ev pc l r l' r' : calm cfg l r -> step cfg ev (pc, l, r) = Some (Returned None, l', r') ->
  r_Status (l_run l') = RunStatusSucceeded ->
  l_done l' = l_done l /\ l_stopScheduling l = false /\ l_ready l = [] /\ l_running l <= 0.
Proof.
  intros Hc Hs Hst. assert (forall now, finish cfg now (l, r) = (Returned None, l', r') ->
    l_done l' = l_done l /\ l_stopScheduling l = false) as Hfin.
  { intros now Hf. destruct (finish_success _ _ _ _ _ _ Hc Hf Hst) as [Hca Hd]. split; [done|].
    destruct (l_stopScheduling l) eqn:E; [|done]. by rewrite (cm_cause _ _ _ Hc E) in Hca. }
  unfold step in Hs. destruct pc as [|s k| |e]; [| | |done].
  - destruct ev as [now| | | | |]; try done. apply (inj Some) in Hs. unfold topStep in Hs.
    destruct (decide _) as [[Hr Hn]|]; [|by destruct (checkCanceled _ _)]. by destruct (Hfin _ Hs).
  - destruct ev as [now| | | | |]; try done. apply (inj Some) in Hs.
    by destruct (schedStep_moves _ _ _ _ _ _ _ _ _ Hs) as [[err ?]|[(?&_)|[(?&_)|([[? _]|[? _]]&_)]]].
  - unfold waitStep in Hs. destruct (l_running l =? 0).
    + destruct (l_stopScheduling l) eqn:E.
      * destruct ev as [now| | | | |]; try done. apply (inj Some) in Hs. by destruct (Hfin _ Hs).
      * destruct (decide _); destruct ev; try done. by destruct (ctxDone cfg r).
    + destruct ev as [now| | | |tokens dollars now|i out err ended now]; try done.
      * by destruct (ctxDone cfg r).
      * apply (inj Some) in Hs. unfold onUsage in Hs. destruct (l_budgetExceeded l); [done|].
        destruct ((_ <? _) && _); [|destruct (fltb _ _ && _)]; try destruct (triggerBudgetExceeded _ _ _ _ _ _ _ _); done.
      * destruct (l_flight l !! i); [|done]. apply (inj Some) in Hs. unfold onResult in Hs.
        destruct (dropSlot _ _) as [l1 r1]. destruct (l_budgetExceeded l1); [done|]. destruct (_ || _); [done|].
        destruct (nr_err _) as [[]|]; [done..|]. by apply onSuccess_core in Hs as [[? ?]|[? _]].
Qed.

(** No node is left when none is open. *)
Lemma all_done cfg l : valid (c_graph cfg) -> dag_inv cfg l -> all_open cfg l -> l_stopScheduling l = false ->
  l_ready l = [] -> l_running l <= 0 -> forall v, v ∈ names cfg -> is_Some (l_done l !! v).
Proof.
  intros (_&_&Hcl&Hac) Hi Ho Hs Hr Hn v Hv. destruct (l_done l !! v) eqn:Ev; [done|]. exfalso. apply Hac.
  assert (openNodes l = []) as Hopen.
  { unfold openNodes. rewrite Hr. rewrite (di_running _ _ Hi) in Hn. unfold zlen in Hn.
    destruct (l_flight l); [done|simpl in Hn; lia]. }
  apply (cycle_of_preds _ (fun v => v ∈ names cfg /\ l_done l !! v = None) (names cfg) v); [|by intros ? []|done].
  intros w [Hw Hd]. destruct (pending_pos (edges cfg) (doneList (l_done l)) w) as (u&Hu&He).
  - rewrite <- (di_degree _ _ Hi) by done. intros Hz. specialize (Ho Hs w Hw Hd Hz). rewrite Hopen in Ho.
    by apply elem_of_nil in Ho.
  - exists u. split; [|done]. split; [by apply (Hcl u w)|]. rewrite elem_doneList in Hu. by apply eq_None_not_Some.
Qed.

(** ** The run *)
(** Others leave the executions of the run alone and do not cancel it. *)
Definition peaceful cfg r r' : Prop :=
  (forall n a, stored r' (c_runID cfg) n a = stored r (c_runID cfg) n a) /\
  (ctxDone cfg r = false -> ctxDone cfg r' = false) /\
  (isCanceled (c_runID cfg) r = false -> isCanceled (c_runID cfg) r' = false).

Lemma entered_underway cfg pc l r : entered cfg (pc, l, r) -> underway (l_run l).
Proof using All. intros (_&_&_&_&Hs&_)%entered_start. unfold underway. by rewrite Hs. Qed.

Lemma reach_calm cfg pc0 l0 r0 pc l r : entered cfg (pc0, l0, r0) -> ctxDone cfg r0 = false ->
  isCanceled (c_runID cfg) r0 = false -> reach (peaceful cfg) cfg (pc0, l0, r0) (pc, l, r) -> live pc -> calm cfg l r.
Proof.
  intros He Hctx Hcan Hr. remember (pc, l, r) as st eqn:Est. revert pc l r Est.
  induction Hr as [|ev [[pc1 l1] r1] st' Hr IH Hs|pc1 l1 r1 r1' Hr IH (_&Henv1&Henv2)]; intros pc l r Est Hl.
  - injection Est as <- <- <-. destruct (entered_start _ _ _ _ He) as (_&_&_&_&_&_&Hf&_).
    repeat apply orb_false_iff in Hf as [Hf ?]. split; [congruence|congruence|done|by eapply entered_underway].
  - subst. apply (step_stays _ _ _ _ _ _ (IH _ _ _ eq_refl (step_live _ _ _ _ _ _ Hs)) Hs Hl).
  - injection Est as <- <- <-. destruct (IH _ _ _ eq_refl Hl) as [C1 C2 C3 C4]. split; [done| |by apply Henv2|done].
    intros Hd. apply C2. destruct (ctxDone cfg r1); [done|]. by rewrite Henv1 in Hd.
Qed.

(** C4: A run that nobody cancels reports success only after every node of the graph has
    succeeded, and the store holds the succeeded execution of each. *)
Theorem success_complete cfg pc0 l0 r0 l r :
  entered_stored cfg (pc0, l0, r0) -> ctxDone cfg r0 = false -> isCanceled (c_runID cfg) r0 = false ->
  reach (peaceful cfg) cfg (pc0, l0, r0) (Returned None, l, r) -> r_Status (l_run l) = RunStatusSucceeded ->
  forall v, v ∈ names cfg -> exists ne, stored r (c_runID cfg) v (n_Attempt ne) = Some ne /\ succeeded ne.
Proof.
  intros Hes Hctx Hcan Hr Hst v Hv. pose proof (entered_stored_entered _ _ Hes) as He.
  assert (is_Some (l_done l !! v)) as [ne Hne].
  { destruct (entered_start _ _ _ _ He) as (Hvalid&->&_). remember (Returned None, l, r) as st eqn:Est.
    revert l r Est Hst. pose proof Hr as Hr'. induction Hr' as [|ev [[pc1 l1] r1] st' Hr1 IH Hs|pc1 l1 r1 r1' Hr1 IH _];
      intros l' r' Est Hst.
    - done.
    - subst. pose proof (step_live _ _ _ _ _ _ Hs) as Hl. destruct (reach_inv _ _ _ _ _ _ He Hr1 Hl) as [Hi Ho].
      destruct (step_success _ _ _ _ _ _ _ (reach_calm _ _ _ _ _ _ _ He Hctx Hcan Hr1 Hl) Hs Hst) as (->&E1&E2&E3).
      by apply (all_done cfg l1).
    - injection Est as -> -> _. by eapply (IH Hr1). }
  exists ne. apply (du_done _ _ _ (reach_durable (peaceful cfg) _ _ _ _ _ (fun _ _ Hp => proj1 Hp) Hes Hr) v ne Hne).
Qed.
End complete.
