(* ===== verification/LifecycleSpec.v ===== *)
(** * Cancelling, timers and replay (properties of Lifecycle.v) *)
From stdpp Require Import relations.
From S2P Require Import Prelude Storage Graph GraphSpec EngineStore Throttle Authz Risk Runtime Governance.
From S2P Require Import Human Admission DagRun DagInv DagStore DagSpec DagDurable Lifecycle.

(** ** Nodes downstream of a step *)
(** Every explored node has its children explored or in the queue. *)
Definition explored (es : list NodeEdge) (q : list string) (out : gset string) : Prop :=
  forall u v, u ∈ out -> edge es u v -> v ∈ out \/ v ∈ q.
Definition unexplored (es : list NodeEdge) (out : gset string) : nat :=
  length (filter (fun e => From e ∉ out) es).

Lemma unexplored_explore es n out : n ∉ out ->
  unexplored es out = (length (default [] (childrenOf es !! n)) + unexplored es ({[n]} ∪ out))%nat.
Proof.
  intros Hn. rewrite children_list, length_fmap. unfold unexplored. induction es as [|e es IH]; [done|].
  rewrite !filter_cons. destruct (decide (From e = n)) as [<-|Hne].
  - rewrite (decide_True (P := From e ∉ out)), (decide_False (P := From e ∉ {[From e]} ∪ out)) by set_solver.
    simpl. rewrite IH. lia.
  - destruct (decide (From e ∈ out)) as [Hi|Hi].
    + rewrite (decide_False (P := From e ∉ out)), (decide_False (P := From e ∉ {[n]} ∪ out)) by set_solver. exact IH.
    + rewrite (decide_True (P := From e ∉ out)), (decide_True (P := From e ∉ {[n]} ∪ out)) by set_solver.
      simpl. rewrite IH. lia.
Qed.

Lemma downstream_spec es fuel q out : explored es q out -> (length q + unexplored es out <= fuel)%nat ->
  let res := downstream fuel (childrenOf es) q out in
  out ⊆ res /\ (forall v, v ∈ q -> v ∈ res) /\ explored es [] res /\
  (forall v, v ∈ res -> v ∈ out \/ exists u, u ∈ q /\ rtc (edge es) u v).
Proof.
  revert q out. induction fuel as [|fuel IH]; intros q out He Hf.
  - assert (q = []) as -> by (destruct q; [done|simpl in Hf; lia]). split_and!; [done|by intros v ?%elem_of_nil|exact He|auto].
  - destruct q as [|n q]; [split_and!; [done|by intros v ?%elem_of_nil|exact He|auto]|]. cbn [downstream].
    destruct (decide (n ∈ out)) as [Hn|Hn].
    + destruct (IH q out) as (I1&I2&I3&I4); [|simpl in Hf; lia|].
      { intros u v Hu Huv. destruct (He u v Hu Huv) as [|Hv]; [auto|]. apply elem_of_cons in Hv as [->|]; auto. }
      split_and!; [done| |done|].
      * intros v [->|Hv]%elem_of_cons; auto.
      * intros v Hv. destruct (I4 v Hv) as [|(u&Hu&Huv)]; [auto|]. right. exists u. split; [by right|done].
    + set (cs := default [] (childrenOf es !! n)).
      destruct (IH (q ++ cs) ({[n]} ∪ out)) as (I1&I2&I3&I4).
      * intros u v Hu Huv. destruct (decide (u = n)) as [->|Hne].
        -- right. apply elem_of_app. right. by apply edge_children.
        -- destruct (He u v) as [|Hv]; [set_solver|done|set_solver|]. apply elem_of_cons in Hv as [->|]; set_solver.
      * rewrite (unexplored_explore es n out Hn) in Hf. rewrite length_app. simpl in Hf. unfold cs. lia.
      * split_and!; [set_solver| |done|].
        -- intros v [->|Hv]%elem_of_cons; [set_solver|]. apply I2, elem_of_app. by left.
        -- intros v Hv. destruct (I4 v Hv) as [Ho|(u&Hu&Huv)].
           ++ destruct (decide (v = n)) as [->|]; [right; exists n; split; [by left|done]|left; set_solver].
           ++ right. apply elem_of_app in Hu as [Hu|Hu]; [exists u; split; [by right|done]|].
              apply edge_children in Hu. exists n. split; [by left|]. by eapply rtc_l.
Qed.

Lemma downstream_reachable {F} (g : WorkflowGraph F) (fromStep v : string) :
  v ∈ downstreamNodes g fromStep <-> rtc (edge (Edges g)) fromStep v.
Proof.
  destruct (downstream_spec (Edges g) (S (length (Edges g))) [fromStep] ∅) as (_&Hq&He&Hr).
  - by intros u w ?%not_elem_of_empty.
  - unfold unexplored. cbn [length]. apply le_n_S, length_filter.
  - fold (downstreamNodes g fromStep) in *. split.
    + intros Hv. destruct (Hr v Hv) as [?%not_elem_of_empty|(u&Hu&Huv)]; [done|].
      apply list_elem_of_singleton in Hu as ->. done.
    + assert (forall a, rtc (edge (Edges g)) a v -> a ∈ downstreamNodes g fromStep -> v ∈ downstreamNodes g fromStep) as Hc.
      { intros a Ha. induction Ha as [|a b c Hab _ IH]; [done|]. intros Hin. apply IH.
        destruct (He a b Hin Hab) as [|?%elem_of_nil]; done. }
      intros Hv. apply (Hc fromStep); [done|]. apply Hq. left.
Qed.
(** What a replay invalidates are exactly the nodes reachable from its step. *)
Theorem downstreamNodes_reachable {F} (g : WorkflowGraph F) (fromStep v : string) :
  v ∈ downstreamNodes g fromStep <-> rtc (edge (Edges g)) fromStep v.
Proof. apply downstream_reachable. Qed.

(** ** Invalidation *)
Section replay.
#[local] Set Default Proof Using "Type*".
Context {S F A : Type} `{Store S} `{!StoreLaws S} `{ArtifactStore A} `{Ambient} `{MapOrder} `{EngineJSON}.
Implicit Types r : Runner S F A.

(** Executions are stored under their own names. *)
Definition keyed (runID : string) r : Prop :=
  forall n a ne, stored r runID n a = Some ne -> n_RunID ne = runID /\ n_NodeID ne = n /\ n_Attempt ne = a.
Definition doneNodes (runID : string) r : gmap string NodeExecution :=
  (priorNodes (ListNodeExecutions runID (rn_store r))).1.1.

Lemma doneNodes_spec runID r : keyed runID r -> single_success (ListNodeExecutions runID (rn_store r)) ->
  forall v ne, doneNodes runID r !! v = Some ne <-> exists a, stored r runID v a = Some ne /\ succeeded ne.
Proof.
  intros Hk Hs v ne. unfold doneNodes. pose proof (priorNodes_spec _ Hs) as Hp.
  destruct (priorNodes _) as [[done outputs] maxA]. destruct Hp as (H1'&H2'&_). simpl. split.
  - intros Hd. destruct (H1' _ _ Hd) as (Hin&Hsu&<-). apply law_list in Hin as (n&a&Hst).
    destruct (Hk _ _ _ Hst) as (_&<-&_). by exists a.
  - intros (a&Hst&Hsu). destruct (Hk _ _ _ Hst) as (_&Hn&_).
    assert (ne ∈ ListNodeExecutions runID (rn_store r)) as Hin by (apply law_list; by exists v, a).
    destruct (H2' _ Hin Hsu) as [x Hx]. rewrite Hn in Hx. rewrite Hx. f_equal.
    destruct (H1' _ _ Hx) as (Hin2&Hsu2&Hid). apply Hs; [done..|congruence].
Qed.

(** What the list walk leaves under each key. *)
Definition struck (now : Time) (ids : gset string) (prev : list NodeExecution) (runID : string) r r' : Prop :=
  (forall n a, stored r' runID n a = stored r runID n a \/
     n ∈ ids /\ exists ne, n_RunID ne = runID /\ n_NodeID ne = n /\ n_Attempt ne = a /\
       stored r' runID n a = Some (set_n_Canceled now ne)) /\
  forall ne, ne ∈ prev -> n_NodeID ne ∈ ids -> n_Status ne <> NodeStatusCanceled ->
    exists ne', stored r' runID (n_NodeID ne) (n_Attempt ne) = Some ne' /\ n_Status ne' = NodeStatusCanceled.

Lemma cancelNodes_struck now ids prev runID r r' : Forall (fun ne => n_RunID ne = runID) prev ->
  cancelNodes now ids prev r = (r', None) -> struck now ids prev runID r r'.
Proof.
  revert r. induction prev as [|ne prev IH]; simpl; intros r Hf.
  { intros [= <-]. split; [by left|]. by intros ne ?%elem_of_nil. }
  inversion Hf as [|? ? Hrun Hf']; subst. case_decide as Hd.
  - intros [I1 I2]%IH; [|done]. split; [done|]. intros x [->|Hx]%elem_of_cons; [|by apply I2]. intros Hi Hc. tauto.
  - destruct (onStore _ r) as [r1 [err|]] eqn:E; [done|]. apply upsert_write in E as ((_&_&Hw)&Hst&_).
    specialize (Hst eq_refl). simpl in Hst. intros [I1 I2]%IH; [|done].
    assert (n_NodeID ne ∈ ids) as Hin by (destruct (decide (n_NodeID ne ∈ ids)); tauto).
    split.
    + intros n a. destruct (I1 n a) as [E|]; [|by right]. destruct (Hw (n_RunID ne) n a) as [E'|(_&->&->&E')].
      * left. unfold stored in *. congruence.
      * right. split; [done|]. exists ne. unfold stored in *. split_and!; [done..|]. by rewrite E, E'.
    + intros x [->|Hx]%elem_of_cons; [|by apply I2]. intros _ _.
      destruct (I1 (n_NodeID ne) (n_Attempt ne)) as [E|(_&y&_&_&_&E)]; [|by eexists].
      exists (set_n_Canceled now ne). split; [|done]. rewrite E. exact Hst.
Qed.

Lemma cancelTimers_nodes now runID ids ts r r' e : cancelTimers now runID ids ts r = (r', e) -> nodes_kept r r'.
Proof.
  revert r. induction ts as [|t ts IH]; simpl; intros r; [by intros [= <- _]|]. case_decide; [apply IH|].
  pose proof (kept_timer (set_t_Status TimerCanceled now t) r) as Hk%kept_nodes. unfold try in Hk.
  destruct (onStore _ r) as [r1 [err|]]; simpl in Hk; [by intros [= <- _]|]. intros Ht. apply IH in Ht.
  intros rn n a. rewrite Ht, (kept_nodes _ _ (kept_emit _ _ _ _ _ _ _ _)). apply Hk.
Qed.

(** What resuming a run needs of its stored executions. *)
Definition resumable (runID : string) r : Prop :=
  keyed runID r /\ single_success (ListNodeExecutions runID (rn_store r)).
Lemma resumable_kept runID r r' : nodes_kept r r' -> resumable runID r ->
  resumable runID r' /\ forall v, doneNodes runID r' !! v = doneNodes runID r !! v.
Proof.
  unfold nodes_kept. intros Hn [Hk Hs]. assert (resumable runID r') as [Hk' Hs'].
  { split; [intros n a ne; unfold stored; rewrite Hn; apply Hk|].
    intros x y (n1&a1&Hx)%law_list (n2&a2&Hy)%law_list. rewrite Hn in Hx, Hy.
    apply Hs; apply law_list; by eexists _, _. }
  split; [done|]. intros v. apply option_eq. intros ne. rewrite !doneNodes_spec by done. unfold stored.
  by setoid_rewrite Hn.
Qed.

Lemma invalidate_struck now runID ids r r' : keyed runID r ->
  invalidateNodesAndTimers now runID ids r = (r', None) ->
  struck now ids (ListNodeExecutions runID (rn_store r)) runID r r'.
Proof.
  intros Hk. unfold invalidateNodesAndTimers. case_decide as He.
  - intros [= <-]. split; [by left|]. subst ids. by intros ne _ ?%not_elem_of_empty.
  - destruct (cancelNodes _ _ _ r) as [r1 [err|]] eqn:E; [done|]. apply (cancelNodes_struck _ _ _ runID) in E.
    + intros Hn%cancelTimers_nodes. unfold struck, stored, nodes_kept in *. by setoid_rewrite Hn.
    + apply Forall_forall. intros ne (n&a&Hst)%law_list. by apply (Hk _ _ _ Hst).
Qed.
Lemma struck_back now runID ids r r' n a ne : keyed runID r ->
  struck now ids (ListNodeExecutions runID (rn_store r)) runID r r' ->
  stored r' runID n a = Some ne -> succeeded ne -> stored r runID n a = Some ne /\ n ∉ ids.
Proof.
  intros Hk [I1 I2] Hst Hsu. destruct (I1 n a) as [E|(_&x&_&_&_&E)]; [|by rewrite E in Hst; injection Hst as <-].
  rewrite E in Hst. split; [done|]. intros Hn. destruct (Hk _ _ _ Hst) as (_&En&Ea).
  destruct (I2 ne) as (y&Hy&Hc); [apply law_list; by exists n, a|by rewrite En|by rewrite Hsu|].
  rewrite En, Ea, E, Hst in Hy. injection Hy as <-. by rewrite Hsu in Hc.
Qed.

Lemma invalidate_done now runID ids r r' : resumable runID r ->
  invalidateNodesAndTimers now runID ids r = (r', None) ->
  resumable runID r' /\
  forall v, doneNodes runID r' !! v = if decide (v ∈ ids) then None else doneNodes runID r !! v.
Proof.
  intros [Hk Hs] Hinv. pose proof (invalidate_struck _ _ _ _ _ Hk Hinv) as Hst.
  pose proof (fun n a ne => struck_back now runID ids r r' n a ne Hk Hst) as Hback. destruct Hst as [I1 I2].
  assert (resumable runID r') as [Hk' Hs'].
  { split.
    - intros n a ne Hst. destruct (I1 n a) as [E|(_&x&?&?&?&E)]; rewrite E in Hst; [by apply Hk|by injection Hst as <-].
    - intros x y (n1&a1&Hx)%law_list (n2&a2&Hy)%law_list Sx Sy.
      destruct (Hback _ _ _ Hx Sx), (Hback _ _ _ Hy Sy). apply Hs; [apply law_list; by eexists _, _..|done|done]. }
  split; [done|]. intros v. apply option_eq. intros ne. rewrite doneNodes_spec by done. split.
  - intros (a&Hst&Hsu). destruct (Hback _ _ _ Hst Hsu) as [Hr Hn]. rewrite decide_False by done.
    apply doneNodes_spec; [done..|]. by exists a.
  - case_decide as Hn; [done|]. intros (a&Hst&Hsu)%doneNodes_spec; [|done..]. exists a. split; [|done].
    destruct (I1 v a) as [->|(?&_)]; done.
Qed.

Lemma requeue_nodes run r : nodes_kept r (requeue run r).2.
Proof. unfold requeue. case_decide; [by apply nodes_saveRun|done]. Qed.

Lemma hasSucceeded_spec runID v r : resumable runID r ->
  nodeHasSucceededAttempt (ListNodeExecutions runID (rn_store r)) v = true <-> is_Some (doneNodes runID r !! v).
Proof.
  intros [Hk Hs]. unfold nodeHasSucceededAttempt. rewrite existsb_exists. split.
  - intros (ne&Hin&[Hn%bool_decide_eq_true Hst%bool_decide_eq_true]%andb_prop). apply list_elem_of_In, law_list in Hin as (n&a&Hne).
    exists ne. apply doneNodes_spec; [done..|]. exists a. split; [|done]. destruct (Hk _ _ _ Hne) as (_&E&_). unfold stored. congruence.
  - intros [ne (a&Hne&Hsu)%doneNodes_spec]; [|done..]. exists ne. destruct (Hk _ _ _ Hne) as (_&E&_). split.
    + apply list_elem_of_In, law_list. by eexists _, _.
    + apply andb_true_intro. split; by apply bool_decide_eq_true.
Qed.

(** C31: A replay from a step makes the run forget exactly the nodes reachable from the step;
    time travel keeps the step itself when it had succeeded.  Every other completed node
    stays completed, with its output. *)
Theorem replay_forgets_suffix now runID fromStep mode (g : WorkflowGraph F) run r r' run' :
  resumable runID r -> TrimSpace fromStep <> "" ->
  replaySuffix now runID fromStep mode g run r = (r', inl run') ->
  forall v,
    let forgotten := rtc (edge (Edges g)) (TrimSpace fromStep) v /\
      ~ (mode = ReplayTimeTravel /\ v = TrimSpace fromStep /\ is_Some (doneNodes runID r !! v)) in
    (forgotten -> doneNodes runID r' !! v = None) /\
    (~ forgotten -> doneNodes runID r' !! v = doneNodes runID r !! v).
Proof.
  intros Hk Hne Hr v forgotten. unfold replaySuffix in Hr. rewrite decide_False in Hr by done.
  destruct (negb _); [done|]. set (suffix := if decide (mode = ReplayTimeTravel) then _ else _) in Hr.
  assert (v ∈ suffix <-> forgotten) as Hf.
  { unfold suffix, forgotten. rewrite <- downstream_reachable. pose proof (hasSucceeded_spec runID (TrimSpace fromStep) r Hk) as Hh.
    destruct (decide (mode = ReplayTimeTravel)) as [->|Hm]; [|tauto].
    destruct (nodeHasSucceededAttempt _ _); rewrite ?elem_of_difference, ?elem_of_singleton.
    - destruct (decide (v = TrimSpace fromStep)) as [->|]; intuition congruence.
    - destruct (decide (v = TrimSpace fromStep)) as [->|]; intuition congruence. }
  destruct (invalidateNodesAndTimers _ _ _ r) as [r1 [err|]] eqn:E; [done|].
  destruct (invalidate_done _ _ _ _ _ Hk E) as [Hk1 Hd]. pose proof (requeue_nodes run r1) as Hn.
  destruct (requeue run r1) as [run1 r2]. injection Hr as <- _.
  destruct (resumable_kept _ _ _ Hn Hk1) as [_ ->]. rewrite Hd.
  split; intros Hx; [by rewrite decide_True by by apply Hf|by rewrite decide_False by by rewrite Hf].
Qed.
End replay.

(** ** Timers *)
(** What firing needs of a store: a due timer written with another status is due no more, and
    nothing else changes for the timers. *)
Class TimerLaws (S : Type) `{Store S} : Type := {
  timers_ok : S -> Prop;
  law_due_nodup now s : timers_ok s -> NoDup (ListDueTimers now s);
  law_due_status now s t : t ∈ ListDueTimers now s -> t_Status t = TimerScheduled;
  law_event_timers now e s : timers_ok s ->
    timers_ok (AppendEvent now e s).1 /\ forall now', ListDueTimers now' (AppendEvent now e s).1 = ListDueTimers now' s;
  law_fire now status at_ t s s' err : timers_ok s -> t ∈ ListDueTimers now s -> status <> TimerScheduled ->
    UpsertTimer (set_t_Status status at_ t) s = (s', err) ->
    timers_ok s' /\ forall u, u ∈ ListDueTimers now s' <-> u ∈ ListDueTimers now s /\ (err = None -> u <> t)
}.

Lemma elem_of_listDueTimers `{MapOrder} now s t :
  t ∈ listDueTimers now s <-> isDue now t = true /\ exists k, timers s !! k = Some t.
Proof.
  unfold listDueTimers, values. rewrite sortSlice_perm, list_elem_of_filter, list_elem_of_omap. split.
  - intros (Hd&k&_&Hk). eauto.
  - intros (Hd&k&Hk). split; [done|]. exists k. split; [|done]. rewrite order_perm, elem_of_elements. by eapply elem_of_dom_2.
Qed.
Lemma NoDup_omap_key {K V} (m : K -> option V) (key : V -> K) (l : list K) :
  (forall k x, m k = Some x -> key x = k) -> NoDup l -> NoDup (omap m l).
Proof.
  intros Hk. induction 1 as [|k l Hn Hnd IH]; [constructor|]. simpl. destruct (m k) as [x|] eqn:E; [|done].
  constructor; [|done]. intros (k'&Hin&E')%list_elem_of_omap. apply Hn. by rewrite <- (Hk _ _ E), (Hk _ _ E').
Qed.

#[export] Instance MemoryStore_timers `{MapOrder} : TimerLaws MemoryStore.
Proof.
  refine {| timers_ok s := forall k t, timers s !! k = Some t -> timerKeyOf t = k |};
    cbn [AppendEvent UpsertTimer ListDueTimers MemoryStore_Store].
  - intros now s Hok. unfold listDueTimers, values. rewrite sortSlice_perm. apply NoDup_filter.
    apply (NoDup_omap_key _ timerKeyOf); [done|]. rewrite order_perm. apply NoDup_elements.
  - intros now s t [Hd _]%elem_of_listDueTimers. by apply andb_prop in Hd as [Hd%bool_decide_eq_true _].
  - intros now e s Hok. unfold MemoryStore_AppendEvent. destruct (decide _); [done|]. by destruct (validateEvent _).
  - intros now status at_ t s s' err Hok (Hd&k&Hk)%elem_of_listDueTimers Hst E. unfold MemoryStore_UpsertTimer in E.
    destruct (decide _); injection E as <- <-; [split; [done|]; naive_solver|].
    pose proof (Hok _ _ Hk) as Hkey. set (t' := set_t_Status status at_ t).
    assert (timerKeyOf t' = k) as Hkey' by exact Hkey. unfold putTimer. rewrite Hkey'. split.
    + intros k0 t0. cbn [timers set_timers]. rewrite lookup_insert. case_decide; [intros [= <-]; congruence|apply Hok].
    + intros u. rewrite !elem_of_listDueTimers. cbn [timers set_timers]. split.
      * intros (Hu&k0&Hk0). rewrite lookup_insert in Hk0. case_decide as Hk1.
        -- injection Hk0 as <-. exfalso. apply andb_prop in Hu as [Hu%bool_decide_eq_true _]. done.
        -- split; [eauto|]. intros _ ->. apply Hk1. apply Hok in Hk0. congruence.
      * intros [(Hu&k0&Hk0) Hne]. split; [done|]. exists k0. rewrite lookup_insert_ne; [done|]. intros <-.
        rewrite Hk in Hk0. injection Hk0 as <-. by apply Hne.
Defined.

Section timers.
#[local] Set Default Proof Using "Type*".
Context {S F A : Type} `{Store S} `{!TimerLaws S} `{ArtifactStore A} `{Ambient} `{MapOrder} `{EngineJSON}.
Implicit Types r : Runner S F A.

Lemma emit_store now id ty wf n a p r :
  rn_store (emit now id ty wf n a p r) = (AppendEvent now (mkEvent id 0 ty zeroTime wf n a p) (rn_store r)).1.
Proof. unfold emit, try, onStore. by destruct (AppendEvent _ _ _). Qed.
Lemma fireTimers_spec now due k r r' n err : timers_ok (rn_store r) -> NoDup due ->
  (forall u, u ∈ ListDueTimers now (rn_store r) <-> u ∈ due) -> fireTimers now due k r = (r', (n, err)) ->
  timers_ok (rn_store r') /\
  exists fired rest, due = fired ++ rest /\ n = k + zlen fired /\ (err = None -> rest = []) /\
    forall u, u ∈ ListDueTimers now (rn_store r') <-> u ∈ rest.
Proof.
  revert k r. induction due as [|t due IH]; simpl; intros k r Hok Hnd Hdue.
  { intros [= <- <- <-]. split; [done|]. exists [], []. split_and!; [done|unfold zlen; simpl; lia|done..]. }
  apply NoDup_cons in Hnd as [Hnt Hnd].
  assert (t ∈ ListDueTimers now (rn_store r)) as Hin by (apply Hdue; left).
  rewrite decide_False by (by intros Hn; apply Hn, (law_due_status now (rn_store r))).
  unfold onStore. destruct (UpsertTimer (set_t_Status TimerFired now t) (rn_store r)) as [s1 e1] eqn:Eu.
  assert (TimerFired <> TimerScheduled) as Hst by done.
  destruct (law_fire now _ _ _ _ _ _ Hok Hin Hst Eu) as [Hok1 Hdue1]. destruct e1 as [err1|].
  - intros [= <- <- <-]. split; [done|]. exists [], (t :: due). split_and!; [done|unfold zlen; simpl; lia|done|].
    intros u. rewrite <- Hdue. simpl. rewrite Hdue1. naive_solver.
  - intros Hf. match type of Hf with fireTimers _ _ _ ?x = _ => set (r2 := x) in Hf end.
    pose proof (emit_store now (t_RunID t) EventTimerFired (t_WorkflowID t) (t_NodeID t) (t_Attempt t)
      (marshalOrNil (JObject [("fire_at", JString (formatRFC3339 (t_FireAt t))); ("fired_at", JString (formatRFC3339 now));
         ("reason", JString (t_Reason t)); ("status", JString "fired")])) (set_rn_store s1 r)) as Er2.
    change (emit _ _ _ _ _ _ _ _) with r2 in Er2.
    match type of Er2 with _ = (AppendEvent _ ?e _).1 => destruct (law_event_timers now e s1 Hok1) as [Hok2 Hdue2] end.
    destruct (IH (k + 1) r2) as (Hok'&fired&rest&->&->&He&Hr); [by rewrite Er2|done| |exact Hf|].
    { intros u. rewrite Er2, Hdue2, Hdue1, Hdue, elem_of_cons. split; [intros [[->|] Hne]; [by destruct Hne|done]|].
      intros Hu. split; [by right|]. intros _ ->. done. }
    split; [done|]. exists (t :: fired), rest. split_and!; [done|unfold zlen; simpl; lia|done..].
Qed.

(** Firing the due timers without an error fires each of them once and leaves none due;
    after an error exactly the timers not yet fired are still due. *)
Theorem FireDueTimers_settles now r r' n err : timers_ok (rn_store r) -> FireDueTimers now r = (r', (n, err)) ->
  let due := ListDueTimers now (rn_store r) in
  timers_ok (rn_store r') /\ (err = None -> n = zlen due /\ ListDueTimers now (rn_store r') = []) /\
  zlen (ListDueTimers now (rn_store r')) = zlen due - n /\ ListDueTimers now (rn_store r') ⊆ due.
Proof.
  intros Hok Hf due. pose proof (law_due_nodup now _ Hok) as Hnd.
  destruct (fireTimers_spec now _ 0 r r' n err Hok Hnd ltac:(done) Hf) as (Hok'&fired&rest&E&->&He&Hr). fold due in E, Hnd.
  rewrite E in Hnd. apply NoDup_app in Hnd as (_&_&Hnr).
  assert (zlen (ListDueTimers now (rn_store r')) = zlen rest) as El.
  { pose proof (law_due_nodup now _ Hok') as Hnd'.
    apply Z.le_antisymm; apply NoDup_subseteq_zlen; try done; intros u; apply Hr. }
  split; [done|]. split; [|split].
  - intros Hn. specialize (He Hn). subst rest. rewrite E, app_nil_r. split; [lia|].
    unfold zlen in El. destruct (ListDueTimers now (rn_store r')); [done|simpl in El; lia].
  - rewrite El, E, zlen_app. lia.
  - intros u Hu%Hr. rewrite E. apply elem_of_app. by right.
Qed.
End timers.
