(* ===== verification/ReplayBranchSpec.v ===== *)
(** * Replay branches (properties of ReplayBranches.v)

    Which outputs of its source a branch reuses; that the source is left as it was; that the
    record of a branch is found by its run and listed in the timeline of its root. *)
From stdpp Require Import relations.
From S2P Require Import Prelude Storage Graph GraphSpec EngineStore Throttle Authz Risk Tools Runtime Governance CallContext.
From S2P Require Import AgentState Human Admission DagRun DagInv DagStore Routing SideEffects Lifecycle Evals ReplayBranches.
From S2P Require Import AdmissionSpec KVSpec ToolCallSpec LifecycleSpec.

(** ** The replay cache *)
(** The latest succeeded execution of a node that has an output. *)
Definition reusable (nodes : list NodeExecution) (n : string) (ne : NodeExecution) : Prop :=
  ne ∈ nodes /\ n_NodeID ne = n /\ n_Status ne = NodeStatusSucceeded /\ n_Output ne <> [].
Definition latestOf (nodes : list NodeExecution) (n : string) (e : replayCacheEntry) : Prop :=
  (exists ne, reusable nodes n ne /\ e = mkCacheEntry (n_Attempt ne) (n_Output ne)) /\
  forall ne, reusable nodes n ne -> n_Attempt ne <= ce_Attempt e.
Lemma cacheNode_spec pre ne cache :
  (forall n, match cache !! n with Some e => latestOf pre n e | None => forall x, ~ reusable pre n x end) ->
  forall n, match cacheNode cache ne !! n with
            | Some e => latestOf (pre ++ [ne]) n e
            | None => forall x, ~ reusable (pre ++ [ne]) n x
            end.
Proof.
  intros Hc n. specialize (Hc n).
  assert (Happ : forall x, reusable (pre ++ [ne]) n x <-> reusable pre n x \/ x = ne /\ reusable [ne] n ne).
  { intros x. unfold reusable. rewrite elem_of_app, list_elem_of_singleton. split; [|by intros [(?&?)|(->&_&?)]; auto].
    intros ([Hx| ->]&?); [by left|]. right. split; [done|]. by rewrite list_elem_of_singleton. }
  assert (Hkeep : ~ reusable [ne] n ne -> match cache !! n with Some e => latestOf (pre ++ [ne]) n e
            | None => forall x, ~ reusable (pre ++ [ne]) n x end).
  { intros Hn. destruct (cache !! n) as [e|].
    - destruct Hc as [(x&Hx&He) Hm]. split; [exists x; by rewrite Happ; auto|]. intros y [Hy|[_ Hy]]%Happ; [by apply Hm|done].
    - intros x [Hx|[_ Hx]]%Happ; [by apply (Hc x)|done]. }
  unfold cacheNode. case_decide as Hs; [apply Hkeep; by intros (_&_&?&_)|]. case_decide as Ho; [apply Hkeep; by intros (_&_&_&?)|].
  destruct (decide (n_NodeID ne = n)) as [<-|Hne].
  2: { assert (~ reusable [ne] n ne) by (by intros (_&?&_)). destruct (cache !! n_NodeID ne) as [cur|]; [destruct (_ <? _)|];
       rewrite ?lookup_insert_ne by done; by apply Hkeep. }
  assert (Hr : reusable [ne] (n_NodeID ne) ne) by (split_and!; [by apply list_elem_of_singleton|done..]).
  destruct (cache !! n_NodeID ne) as [cur|] eqn:Ec.
  - destruct (Z.ltb_spec (ce_Attempt cur) (n_Attempt ne)); rewrite ?lookup_insert_eq, ?Ec; destruct Hc as [(x&Hx&He) Hm].
    + split; [exists ne; rewrite Happ; auto|]. intros y [Hy%Hm|[-> _]]%Happ; cbn; lia.
    + split; [exists x; rewrite Happ; auto|]. intros y [Hy%Hm|[-> _]]%Happ; lia.
  - rewrite lookup_insert_eq. split; [exists ne; rewrite Happ; auto|]. intros y [Hy|[-> _]]%Happ; [by destruct (Hc y)|done].
Qed.
Lemma cache_spec nodes n :
  match foldl cacheNode ∅ nodes !! n with Some e => latestOf nodes n e | None => forall x, ~ reusable nodes n x end.
Proof.
  revert n. induction nodes as [|ne nodes IH] using rev_ind; intros n.
  - cbn. rewrite lookup_empty. by intros x (?%elem_of_nil&_).
  - rewrite foldl_app. cbn. by apply cacheNode_spec.
Qed.

Section branches.
#[local] Set Default Proof Using "Type*".
Context {S F A : Type} `{Store S} `{!StoreLaws S} `{!KVLaws S} `{ArtifactStore A} `{Ambient} `{MapOrder} `{EngineJSON} `{BranchJSON}.
Implicit Types r : Runner S F A.

(** A branch without a step reuses everything in time travel, nothing live; a branch from a step
    what is not downstream of the step, and in time travel the step itself. *)
Definition reuses (g : WorkflowGraph F) (fromStep mode n : string) : Prop :=
  if decide (fromStep = "") then mode = ReplayTimeTravel
  else ~ rtc (edge (Edges g)) fromStep n \/ n = fromStep /\ mode = ReplayTimeTravel.
Lemma nodeHasSucceeded_elem nodes v :
  nodeHasSucceededAttempt nodes v = true <-> exists ne, ne ∈ nodes /\ n_NodeID ne = v /\ n_Status ne = NodeStatusSucceeded.
Proof using.
  unfold nodeHasSucceededAttempt. rewrite existsb_exists. split; intros (ne&Hin&Hp); exists ne.
  - apply list_elem_of_In in Hin. by apply andb_prop in Hp as [?%bool_decide_eq_true ?%bool_decide_eq_true].
  - split; [by apply list_elem_of_In|]. apply andb_true_intro. split; apply bool_decide_eq_true; tauto.
Qed.
Lemma replayBranchCache_lookup (entries : gmap string replayCacheEntry) suffix inc fs n :
  replayBranchCache entries suffix inc fs ≫= (.!! n) =
  if decide (suffix = ∅ \/ n ∉ suffix \/ inc = true /\ TrimSpace fs <> "" /\ n = fs) then entries !! n else None.
Proof using.
  unfold replayBranchCache. destruct (decide (entries = ∅)) as [->|He]; [cbn; rewrite lookup_empty; by case_decide|].
  destruct (decide (suffix = ∅)) as [Hs|Hs]; [cbn; case_decide; tauto|].
  set (out := if inc && _ then _ else _).
  assert (Hout : out !! n = if decide (suffix = ∅ \/ n ∉ suffix \/ inc = true /\ TrimSpace fs <> "" /\ n = fs) then entries !! n else None).
  { assert (Hf : filter (fun ne : string * replayCacheEntry => ne.1 ∉ suffix) entries !! n = if decide (n ∉ suffix) then entries !! n else None).
    { rewrite map_lookup_filter. destruct (entries !! n) as [e|]; simpl; [|by case_decide].
      destruct (decide (n ∉ suffix)); by rewrite ?option_guard_True, ?option_guard_False by done. }
    subst out. destruct inc; cbn [andb]; [destruct (bool_decide_reflect (TrimSpace fs = "")); cbn [negb]|].
    - rewrite Hf. repeat case_decide; naive_solver.
    - destruct (entries !! fs) as [e|] eqn:Ee; [destruct (decide (n = fs)) as [->|Hn]|].
      + rewrite lookup_insert_eq, decide_True by tauto. done.
      + rewrite lookup_insert_ne, Hf by done. repeat case_decide; naive_solver.
      + rewrite Hf. repeat case_decide; naive_solver.
    - rewrite Hf. repeat case_decide; naive_solver. }
  rewrite <- Hout. destruct (decide (out = ∅)) as [->|Hz]; [by rewrite lookup_empty|done].
Qed.

(** C32: Of the outputs of its source a branch reuses exactly the latest ones of the nodes its step
    and its mode leave alone: without a step all or none, else those of the nodes that cannot be
    reached from the step, and in time travel that of the step itself. *)
Theorem branch_cache_exact src g fromStep mode r cache :
  validateReplayMode mode = None -> buildReplayBranchCache src g fromStep mode r = inl cache ->
  let nodes := ListNodeExecutions (TrimSpace src) (rn_store r) in
  (TrimSpace fromStep <> "" -> graphHasNode g (TrimSpace fromStep) = true) /\
  forall n, match cache ≫= (.!! n) with
            | Some e => reuses g (TrimSpace fromStep) mode n /\ latestOf nodes n e
            | None => ~ reuses g (TrimSpace fromStep) mode n \/ forall x, ~ reusable nodes n x
            end.
Proof using.
  unfold validateReplayMode. case_decide as Hm; [|done]. intros _. unfold buildReplayBranchCache, reuses, buildReplayCacheFromRun.
  set (fs := TrimSpace fromStep). set (nodes := ListNodeExecutions (TrimSpace src) (rn_store r)).
  pose proof (cache_spec nodes) as Hc. assert (Hne : ReplayLive <> ReplayTimeTravel) by done.
  destruct (decide (fs = "")) as [Hfs|Hfs].
  - destruct (decide (mode = ReplayLive /\ fs = "")) as [[Hl _]|Hl].
    + intros [= <-]. split; [done|]. intros n. left. congruence.
    + rewrite decide_True by (destruct Hm; tauto). intros [= <-]. split; [done|]. intros n. specialize (Hc n). cbn.
      destruct (foldl cacheNode ∅ nodes !! n); [|by right]. split; [destruct Hm; tauto|done].
  - rewrite decide_False by tauto. destruct (graphHasNode g fs) eqn:Eg; [|done]. cbn [negb]. intros [= <-]. split; [done|]. intros n.
    rewrite replayBranchCache_lookup. specialize (Hc n).
    assert (downstreamNodes g fs <> ∅) as Hd.
    { intros E. assert (fs ∈ downstreamNodes g fs) as Hin by by apply downstream_reachable. rewrite E in Hin. set_solver. }
    assert (TrimSpace fs = fs) as Ht by apply TrimSpace_idem. rewrite Ht.
    destruct (foldl cacheNode ∅ nodes !! n) as [e|] eqn:Ee.
    + assert (n = fs -> nodeHasSucceededAttempt nodes fs = true) as Hsu.
      { intros ->. apply nodeHasSucceeded_elem. destruct Hc as [(ne&(?&?&?&_)&_) _]. eauto. }
      destruct (decide (downstreamNodes g fs = ∅ \/ _)) as [Hd1|Hd1]; rewrite downstream_reachable in Hd1.
      * split; [|done]. destruct Hd1 as [?|[Hd1|(Hb&_&Hn)]]; [done|by left|]. right. split; [done|].
        apply andb_prop in Hb as [Hb _]. by apply bool_decide_eq_true in Hb.
      * left. intros [Hr|[-> Hr]]; apply Hd1; [auto|]. right. right. split_and!; [|done..].
        apply andb_true_intro. split; [by apply bool_decide_eq_true|by apply Hsu].
    + case_decide; by right.
Qed.

(** ** The source *)
(** What is stored of a run and its executions stays. *)
Definition untouched (id : string) r r' : Prop :=
  GetRun id (rn_store r') = GetRun id (rn_store r) /\
  forall n a, GetNodeExecution id n a (rn_store r') = GetNodeExecution id n a (rn_store r).
Lemma untouched_trans id r1 r2 r3 : untouched id r1 r2 -> untouched id r2 r3 -> untouched id r1 r3.
Proof using. intros [H1' H2'] [H3' H4']. split; [congruence|]. intros n a. by rewrite H4', H2'. Qed.
Lemma untouched_kept id r r' : kept r r' -> untouched id r r'.
Proof using. intros [[Hr Hn] _]. by split. Qed.
(** Reading a record changes nothing but audit records. *)
Definition quiet r r' : Prop := kept r r' /\ outside "audit/" r r'.
Lemma quiet_refl r : quiet r r.
Proof using. done. Qed.
Lemma quiet_trans r1 r2 r3 : quiet r1 r2 -> quiet r2 r3 -> quiet r1 r3.
Proof. intros [H1' H2'] [H3' H4']. split; [by eapply kept_trans|by eapply outside_trans]. Qed.
Lemma access_quiet ctx now run action r : quiet r (ensureRunTenantAccess ctx now run action r).1.
Proof. split; [apply ensureAccess_spec|apply access_outside]. Qed.
Lemma GetReplayBranch_quiet ctx now id r : quiet r (GetReplayBranch ctx now id r).1.
Proof.
  unfold GetReplayBranch. destruct (getJSONKV _ r) as [[x|]|]; try apply quiet_refl. case_decide; [apply quiet_refl|].
  match goal with |- context [ensureRunTenantAccess ctx now ?run ?a r] => pose proof (access_quiet ctx now run a r) as Hq;
    destruct (ensureRunTenantAccess ctx now run a r) as [r1 [|]] end; exact Hq.
Qed.
Lemma GetReplayBranchByRun_quiet ctx now runID r : quiet r (GetReplayBranchByRun ctx now runID r).1.
Proof.
  unfold GetReplayBranchByRun. destruct (GetKV _ _); [|apply quiet_refl]. case_decide; [apply quiet_refl|apply GetReplayBranch_quiet].
Qed.

Context (decodeSpec : bytes -> WorkflowSpec + error).
Definition branchRunOf (now : Time) (q : ReplayBranchRequest) (source : Run) : string :=
  if decide (TrimSpace (bq_BranchRunID q) = "") then branchRunID now (r_RunID source) (TrimSpace (bq_BranchName q))
  else TrimSpace (bq_BranchRunID q).
Lemma planBranch_spec ctx now q r r' res : planBranch decodeSpec ctx now q r = (r', res) ->
  quiet r r' /\
  forall p, res = inl p -> GetRun (TrimSpace (bq_SourceRunID q)) (rn_store r) = Some (bp_Source p) /\
    mayAccess ctx (bp_Source p) /\ rq_RunID (bp_Request p) = branchRunOf now q (bp_Source p) /\
    exists r1 sb, outside "audit/" r r1 /\ (GetReplayBranchByRun ctx now (r_RunID (bp_Source p)) r1).2 = inl sb /\
      bp_Root p = from_option rb_RootRunID (r_RunID (bp_Source p)) sb.
Proof.
  unfold planBranch. case_decide; [intros [= <- <-]; by split; [apply quiet_refl|]|].
  destruct (validateReplayMode _); [intros [= <- <-]; by split; [apply quiet_refl|]|].
  destruct (GetRun _ (rn_store r)) as [source|] eqn:Es; [|intros [= <- <-]; by split; [apply quiet_refl|]].
  destruct (ensureAccess_spec ctx now source "replay.branch_create" r) as [Ha _].
  pose proof (access_quiet ctx now source "replay.branch_create" r) as Hq.
  destruct (ensureRunTenantAccess ctx now source "replay.branch_create" r) as [r1 [err|]]; [by intros [= <- <-]|]. cbn [fst snd] in *.
  destruct (HandlerRegistryForTenant _ r1) as [reg|]; [|by intros [= <- <-]].
  destruct (compileBranchWorkflow decodeSpec reg _) as [exec|]; [|by intros [= <- <-]].
  pose proof (GetReplayBranchByRun_quiet ctx now (r_RunID source) r1) as Hq2.
  destruct (GetReplayBranchByRun ctx now (r_RunID source) r1) as [r2 [sb|]] eqn:Esb; cbn [fst] in Hq2;
    pose proof (quiet_trans _ _ _ Hq Hq2); [|by intros [= <- <-]].
  destruct (buildReplayBranchCache _ _ _ _ r2) as [cache|]; intros [= <- <-]; (split; [done|]); [|done].
  intros p [= <-]. cbn [bp_Source bp_Request bp_Root rq_RunID]. split_and!; [done|by apply Ha|done|].
  exists r1, sb. split_and!; [apply Hq|by rewrite Esb|done].
Qed.
Lemma saveReplayBranch_kept now x r : kept r (saveReplayBranch now x r).1.
Proof.
  unfold saveReplayBranch. set (y := if decide _ then _ else _).
  pose proof (kept_putJSONKV (replayBranchKey (rb_ID y)) y r) as H1'. destruct (putJSONKV _ y r) as [r1 [|]]; [done|]. cbn [fst] in H1'.
  pose proof (kept_onStore (PutKV (replayBranchRunLookupKey (rb_BranchRunID y)) (rb_ID y)) r1 (law_kv _ _)) as H2'.
  destruct (onStore _ r1) as [r2 [|]]; cbn [fst] in H2'; [by eapply kept_trans|].
  assert (Hu : forall k r0, kept r0 (upsertIndexID k (rb_ID y) r0).1).
  { intros k r0. unfold upsertIndexID. destruct (indexIDs k r0); [|done]. case_decide; [done|]. case_decide; [done|apply kept_putJSONKV]. }
  pose proof (Hu replayBranchIndexKey r2) as H3'. destruct (upsertIndexID replayBranchIndexKey _ r2) as [r3 [|]]; cbn [fst] in H3';
    eauto using kept_trans.
Qed.
Lemma recordBranch_kept ctx ended q p o r : kept r (recordBranch ctx ended q p o r).1.
Proof.
  unfold recordBranch. destruct (GetRun _ _) as [br|]; [|done]. set (x := branchRecord q p br).
  pose proof (saveReplayBranch_kept ended x r) as H1'. destruct (saveReplayBranch ended x r) as [r1 [|]]; [done|]. cbn [fst] in H1'.
  eapply kept_trans; [exact H1'|]. eapply kept_trans; [apply kept_audit|]. apply GetReplayBranch_quiet.
Qed.

(** Making a branch writes no run and no execution but through the run of the branch itself: the
    source, and every other run that running the branch leaves alone, keep their history. *)
Theorem branch_keeps_history run ctx now ended q r source id :
  GetRun (TrimSpace (bq_SourceRunID q)) (rn_store r) = Some source -> id <> branchRunOf now q source ->
  (forall c rq r0, rq_RunID rq <> id -> untouched id r0 (run c rq r0).1) ->
  untouched id r (CreateReplayBranch decodeSpec run ctx now ended q r).1.
Proof.
  intros Hs Hid Hrun. unfold CreateReplayBranch. destruct (planBranch decodeSpec ctx now q r) as [r1 res] eqn:Ep.
  apply planBranch_spec in Ep as [[Hk _] Hp]. apply (untouched_kept id) in Hk. destruct res as [p|err]; [|exact Hk].
  destruct (Hp p eq_refl) as (Hs'&_&Hr&_). assert (bp_Source p = source) as Hbs by congruence. rewrite Hbs in Hr.
  specialize (Hrun (branchContext now q p ctx) (bp_Request p) r1 ltac:(congruence)).
  destruct (run _ (bp_Request p) r1) as [r2 o]. cbn [fst] in Hrun. pose proof (untouched_trans _ _ _ _ Hk Hrun) as Hu.
  destruct o as [err|]; [destruct (unwrapsTo err ErrRunAlreadyExists); [exact Hu|]|];
    (eapply untouched_trans; [exact Hu|apply untouched_kept, recordBranch_kept]).
Qed.

(** ** The timeline *)
(** Records whose text is valid UTF-8, their identifier included, are read back as written. *)
Context `{!IndexLaws}.
Class BranchLaws : Type := {
  branchText : ReplayBranchRecord -> Prop;
  branch_idText (x : ReplayBranchRecord) : branchText x -> idText (rb_ID x);
  branch_round (x : ReplayBranchRecord) b : branchText x -> marshal x = inl b -> unmarshal b = inl x
}.
Context `{!BranchLaws}.

Lemma keys_trim k : TrimSpace (replayBranchKey k) = replayBranchKey k /\
  TrimSpace (replayBranchRunLookupKey k) = replayBranchRunLookupKey k /\
  TrimSpace (replayBranchRootIndexKey k) = replayBranchRootIndexKey k.
Proof using.
  split_and!; apply TrimSpace_plain; apply plain_app; (split; [plain|apply PathEscape_plain]).
Qed.
Lemma keys_audit k : ~ under "audit/" (replayBranchKey k) /\ ~ under "audit/" (replayBranchRunLookupKey k) /\
  ~ under "audit/" (replayBranchRootIndexKey k).
Proof using.
  destruct (keys_trim k) as (E1&E2&E3). split_and!; intros [s Hs]; rewrite ?E1, ?E2, ?E3 in Hs; discriminate Hs.
Qed.
Lemma index_other k key id r : TrimSpace k <> TrimSpace key -> kvOf (upsertIndexID key id r).1 k = kvOf r k.
Proof. intros Hne. unfold upsertIndexID. destruct (indexIDs key r); [|done]. repeat (case_decide; [done|]). by apply putJSONKV_other. Qed.

(** What a saved record leaves: itself under its identifier, the identifier under its run, and
    in the index of its root. *)
Definition saved (y : ReplayBranchRecord) r : Prop :=
  getJSONKV (replayBranchKey (rb_ID y)) r = Some (inl y) /\
  kvOf r (replayBranchRunLookupKey (rb_BranchRunID y)) = Some (rb_ID y) /\
  exists ids, indexIDs (replayBranchRootIndexKey (rb_RootRunID y)) r = inl ids /\ rb_ID y ∈ ids.
Lemma saved_outside y r r' : outside "audit/" r r' -> saved y r -> saved y r'.
Proof.
  intros Ho (Hi&Hl&ids&Hids&Hin). destruct (keys_audit (rb_ID y)) as (K1&_&_).
  destruct (keys_audit (rb_BranchRunID y)) as (_&K2&_). destruct (keys_audit (rb_RootRunID y)) as (_&_&K3). split_and!.
  - rewrite <- Hi. exact (getJSONKV_kv _ r r' (Ho _ K1)).
  - rewrite <- Hl. exact (Ho _ K2).
  - exists ids. split; [|done]. rewrite <- Hids. specialize (Ho _ K3). unfold kvOf in Ho. unfold indexIDs. by rewrite Ho.
Qed.
Lemma saveReplayBranch_saved now x r r' : saveReplayBranch now x r = (r', None) ->
  let y := normalizeReplayBranchRecord now x in rb_ID y <> "" ->
  exists b, marshal y = inl b /\ kvOf r' (replayBranchKey (rb_ID y)) = Some (toString b) /\ (branchText y -> saved y r').
Proof.
  unfold saveReplayBranch. set (y := normalizeReplayBranchRecord now x). intros E Hne. rewrite decide_False in E by done.
  destruct (putJSONKV (replayBranchKey (rb_ID y)) y r) as [r1 [|]] eqn:E1; [done|].
  destruct (putJSONKV_same _ _ _ _ (replayBranchKey (rb_ID y)) E1 eq_refl) as (b&Hb&Hk1).
  destruct (onStore _ r1) as [r2 [|]] eqn:E2; [done|]. destruct (upsertIndexID replayBranchIndexKey _ r2) as [r3 [|]] eqn:E3; [done|].
  destruct (keys_trim (rb_ID y)) as (T1&_&_). destruct (keys_trim (rb_BranchRunID y)) as (_&T2&_). destruct (keys_trim (rb_RootRunID y)) as (_&_&T3).
  assert (T4 : TrimSpace replayBranchIndexKey = replayBranchIndexKey) by (apply TrimSpace_plain; plain).
  assert (Hr2 : r2 = (onStore (PutKV (replayBranchRunLookupKey (rb_BranchRunID y)) (rb_ID y)) r1).1) by by rewrite E2.
  assert (Hr3 : r3 = (upsertIndexID replayBranchIndexKey (rb_ID y) r2).1) by by rewrite E3.
  assert (Hr' : r' = (upsertIndexID (replayBranchRootIndexKey (rb_RootRunID y)) (rb_ID y) r3).1) by by rewrite E.
  assert (Hk : kvOf r' (replayBranchKey (rb_ID y)) = Some (toString b)).
  { rewrite <- Hk1, Hr', index_other by (rewrite T1, T3; discriminate).
    rewrite Hr3, index_other by (rewrite T1, T4; discriminate). rewrite Hr2, onStore_kv. apply kv_other. rewrite T1, T2. discriminate. }
  exists b. split_and!; [done|done|]. intros Ht. pose proof (branch_idText y Ht) as Hid. split_and!.
  - rewrite (getJSONKV_put _ b _ Hk). by rewrite (branch_round y b).
  - rewrite Hr', index_other by (rewrite T2, T3; discriminate). rewrite Hr3, index_other by (rewrite T2, T4; discriminate).
    rewrite Hr2, onStore_kv. apply kv_put; [|done]. apply (f_equal snd) in E2. unfold onStore in E2. by destruct (PutKV _ _ _).
  - destruct (upsertIndexID_elem _ _ _ _ Hid E) as (ids&Hids&Hin). exists ids. split; [done|].
    assert (TrimSpace (rb_ID y) = rb_ID y) as <- by apply TrimSpace_idem. done.
Qed.

(** What reading a record answers depends on the stored records only. *)
Lemma access_result ctx now run action r r' :
  (ensureRunTenantAccess ctx now run action r').2 = (ensureRunTenantAccess ctx now run action r).2.
Proof using. unfold ensureRunTenantAccess. repeat (case_decide; [done|]). done. Qed.
Lemma get_result ctx now id r r' : outside "audit/" r r' ->
  (GetReplayBranch ctx now id r').2 = (GetReplayBranch ctx now id r).2.
Proof.
  intros Ho. unfold GetReplayBranch. rewrite (getJSONKV_kv (replayBranchKey id) r r') by (apply Ho; apply (keys_audit id)).
  destruct (getJSONKV _ r) as [[x|]|]; [|reflexivity..]. case_decide; [reflexivity|].
  match goal with |- context [ensureRunTenantAccess ctx now ?run ?a r'] => pose proof (access_result ctx now run a r r') as Ha;
    destruct (ensureRunTenantAccess ctx now run a r') as [r1 o1]; destruct (ensureRunTenantAccess ctx now run a r) as [r2 o2] end.
  cbn in Ha. subst o1. by destruct o2.
Qed.
Lemma byRun_result ctx now runID r r' : outside "audit/" r r' ->
  (GetReplayBranchByRun ctx now runID r').2 = (GetReplayBranchByRun ctx now runID r).2.
Proof.
  intros Ho. unfold GetReplayBranchByRun. assert (Hk : kvOf r' (replayBranchRunLookupKey runID) = kvOf r (replayBranchRunLookupKey runID))
    by (apply Ho; apply (keys_audit runID)).
  unfold kvOf in Hk. rewrite Hk. destruct (GetKV _ (rn_store r)); [|done]. case_decide; [done|by apply get_result].
Qed.
(** A record is returned to those who may access a run of its tenant. *)
Definition view (x : ReplayBranchRecord) : Run :=
  mkRun (rb_BranchRunID x) (rb_BaseWorkflowID x) "" None None [] [] (rb_TenantID x) "" [] noBudget noUsage.
Lemma get_some ctx now id r x :
  (GetReplayBranch ctx now id r).2 = inl (Some x) <->
  exists y, getJSONKV (replayBranchKey id) r = Some (inl y) /\ x = normalizeReplayBranchRecord now y /\ mayAccess ctx (view x).
Proof.
  unfold GetReplayBranch. destruct (getJSONKV _ r) as [[y|]|]; [|by split; [|intros (?&?&_)]..].
  set (z := normalizeReplayBranchRecord now y). case_decide as Ht.
  - split; [|by intros (?&[= <-]&->&_)]. intros [= <-]. exists y. split_and!; try done. left. change (TrimSpace (rb_TenantID z) = ""). by rewrite Ht.
  - destruct (ensureAccess_spec ctx now (view z) "replay.branch" r) as [Ha _]. fold (view z).
    destruct (ensureRunTenantAccess ctx now (view z) "replay.branch" r) as [r1 [err|]]; cbn [snd] in *.
    + split; [done|]. intros (y'&[= <-]&->&Hm). by apply Ha in Hm.
    + split; [|by intros (?&[= <-]&->&_)]. intros [= <-]. exists y. split_and!; try done. by apply Ha.
Qed.
Lemma branchRows_elem ctx now ids r id x : id ∈ ids -> (GetReplayBranch ctx now id r).2 = inl (Some x) ->
  x ∈ (branchRows ctx now ids r).2.
Proof.
  revert r. induction ids as [|i ids IH]; intros r Hin Hg; [by apply elem_of_nil in Hin|]. cbn [branchRows].
  pose proof (GetReplayBranch_quiet ctx now i r) as [_ Ho]. destruct (GetReplayBranch ctx now i r) as [r1 res] eqn:Eg. cbn [fst] in Ho.
  apply elem_of_cons in Hin as [->|Hin].
  - rewrite Eg in Hg. cbn in Hg. subst res. destruct (branchRows ctx now ids r1). apply elem_of_cons. by left.
  - rewrite <- (get_result ctx now id r r1 Ho) in Hg. specialize (IH r1 Hin Hg). destruct (branchRows ctx now ids r1) as [r2 xs]. cbn in *.
    destruct res as [[y|]|]; [apply elem_of_cons; by right|done..].
Qed.
(** The record with another instant of its last update, and nothing else changed. *)
Definition updatedAt (now : Time) (x : ReplayBranchRecord) : ReplayBranchRecord :=
  mkBranch (rb_ID x) (rb_CreatedAt x) now (rb_TenantID x) (rb_RootRunID x) (rb_SourceRunID x) (rb_BranchRunID x)
    (rb_BranchName x) (rb_BaseWorkflowID x) (rb_BranchWorkflowID x) (rb_FromStep x) (rb_Mode x) (rb_SideEffectMode x)
    (rb_SpecOverrideApplied x) (rb_InitialInputOverrideApplied x) (rb_RunStatus x) (rb_TerminalReason x).
Lemma normalize_twice now now' x : IsZero now = false ->
  normalizeReplayBranchRecord now' (normalizeReplayBranchRecord now x) = updatedAt now' (normalizeReplayBranchRecord now x).
Proof using.
  intros Hn. unfold normalizeReplayBranchRecord. cbn. rewrite !TrimSpace_idem.
  assert (IsZero (if IsZero (rb_CreatedAt x) then now else rb_CreatedAt x) = false) as -> by by destruct (IsZero (rb_CreatedAt x)) eqn:E.
  done.
Qed.
(** The record as a later reading stamps it. *)
Definition restamped (now : Time) (x : ReplayBranchRecord) : ReplayBranchRecord := normalizeReplayBranchRecord now x.

(** The records of a saved branch, however it is looked for. *)
Lemma saved_listed ctx now y r : saved y r -> mayAccess ctx (view (restamped now y)) -> rb_ID y <> "" -> TrimSpace (rb_ID y) = rb_ID y ->
  TrimSpace (rb_BranchRunID y) = rb_BranchRunID y -> TrimSpace (rb_RootRunID y) = rb_RootRunID y -> rb_BranchRunID y <> "" ->
  (GetReplayBranchByRun ctx now (rb_BranchRunID y) r).2 = inl (Some (restamped now y)) /\
  exists xs, (ListReplayBranches ctx now (rb_BranchRunID y) r).2 = inl xs /\ restamped now y ∈ xs.
Proof.
  intros (Hi&Hl&ids&Hids&Hin) Hm Hid Htid Htb Htr Hb.
  assert (Hg : forall r0, outside "audit/" r r0 -> (GetReplayBranch ctx now (rb_ID y) r0).2 = inl (Some (restamped now y))).
  { intros r0 Ho. rewrite (get_result _ _ _ _ _ Ho). apply get_some. exists y. by split_and!. }
  assert (Hby : GetReplayBranchByRun ctx now (rb_BranchRunID y) r = GetReplayBranch ctx now (rb_ID y) r).
  { unfold GetReplayBranchByRun. unfold kvOf in Hl. rewrite Hl. by rewrite decide_False by congruence. }
  split; [rewrite Hby; by apply Hg|]. unfold ListReplayBranches, replayTimelineRootRunID. rewrite Htb, decide_False by done.
  pose proof (GetReplayBranchByRun_quiet ctx now (rb_BranchRunID y) r) as [_ Ho]. rewrite Hby in *. specialize (Hg r (outside_refl _ _)) as Hg0.
  destruct (GetReplayBranch ctx now (rb_ID y) r) as [r1 res]. cbn in Hg0, Ho. subst res. cbn [restamped normalizeReplayBranchRecord rb_RootRunID].
  assert (indexIDs (replayBranchRootIndexKey (TrimSpace (rb_RootRunID y))) r1 = inl ids) as ->.
  { rewrite Htr, <- Hids. destruct (keys_audit (rb_RootRunID y)) as (_&_&K). specialize (Ho _ K). unfold kvOf in Ho. unfold indexIDs. by rewrite Ho. }
  pose proof (branchRows_elem ctx now ids r1 (rb_ID y) (restamped now y) Hin (Hg r1 Ho)) as Hx. destruct (branchRows ctx now ids r1) as [r2 xs].
  eexists. split; [done|]. cbn in Hx. pose proof (sortSlice_perm branch_less xs) as Hp. by rewrite Hp.
Qed.

(** The root of the timeline of a run: what the record of the run says, else the run itself. *)
Definition rootOf ctx now r (runID : string) : string :=
  match (GetReplayBranchByRun ctx now runID r).2 with inl (Some x) => rb_RootRunID x | _ => runID end.
Lemma replayBranchID_trim s : TrimSpace (replayBranchID s) <> "".
Proof using.
  unfold replayBranchID. destruct (TrimSpace_prefix "replay-branch-" (sanitizeEvalRunID s)) as [s' ->]; [plain|done|done].
Qed.

(** The records of the store have valid text. *)
Definition validTexts r : Prop :=
  forall k (z : ReplayBranchRecord) b, marshal z = inl b -> kvOf r k = Some (toString b) -> branchText z.

Lemma recordBranch_saved ctx ended q p o r r' x : recordBranch ctx ended q p o r = (r', inl (Some x)) ->
  IsZero ended = false -> validTexts r' ->
  exists br, x = normalizeReplayBranchRecord ended (branchRecord q p br) /\ saved x r' /\ mayAccess ctx (view x).
Proof.
  unfold recordBranch. intros Er Hz Hv. destruct (GetRun (rq_RunID _) (rn_store r)) as [br|]; [|done]. exists br.
  set (x0 := branchRecord q p br) in *. destruct (saveReplayBranch ended x0 r) as [r3 [|]] eqn:Es; [done|].
  match type of Er with context [appendAuditRecord ?c ended ?rec r3] =>
    pose proof (audit_outside c ended rec r3) as Ha; set (r4 := appendAuditRecord c ended rec r3) in * end.
  pose proof (GetReplayBranch_quiet ctx ended (rb_ID x0) r4) as [_ Ho4]. rewrite Er in Ho4. cbn [fst] in Ho4.
  pose proof (f_equal snd Er) as Hg. cbn [snd] in Hg. apply get_some in Hg as (y&Hy&Hx&Hmx).
  apply saveReplayBranch_saved in Es as (b&Hb&Hk&Hs); [|apply replayBranchID_trim].
  set (z := normalizeReplayBranchRecord ended x0) in *. pose proof (outside_trans _ _ _ _ Ha Ho4) as Ho.
  destruct (keys_audit (rb_ID z)) as (K&_&_). specialize (Hs (Hv _ z b Hb (eq_trans (Ho _ K) Hk))).
  assert (Hzz : normalizeReplayBranchRecord ended z = z) by (unfold z; rewrite (normalize_twice _ _ _ Hz); done).
  assert (Hkey : replayBranchKey (rb_ID x0) = replayBranchKey (rb_ID z)).
  { unfold replayBranchKey. change (rb_ID z) with (TrimSpace (rb_ID x0)). by rewrite TrimSpace_idem. }
  rewrite Hkey in Hy. pose proof (saved_outside _ _ _ Ha Hs) as (Hi4&_). rewrite Hi4 in Hy. injection Hy as <-.
  rewrite Hzz in Hx. subst x. split_and!; [done|by eapply saved_outside|done].
Qed.
(** C33: A branch that was made, in a store whose branch records are valid UTF-8, names its source and
    the root of the source's timeline.  At any later instant it can be looked up by its run, and
    is listed in the timeline; the record is then the one that was returned with that instant as
    its UpdatedAt and every other field, CreatedAt included, as it was. *)
Theorem branch_in_timeline run ctx now ended q r r' x :
  CreateReplayBranch decodeSpec run ctx now ended q r = (r', inl (Some x)) ->
  IsZero ended = false -> validTexts r' -> rb_BranchRunID x <> "" ->
  exists source, GetRun (TrimSpace (bq_SourceRunID q)) (rn_store r) = Some source /\ mayAccess ctx source /\
    rb_SourceRunID x = TrimSpace (r_RunID source) /\ rb_RootRunID x = TrimSpace (rootOf ctx now r (r_RunID source)) /\
    forall later, (GetReplayBranchByRun ctx later (rb_BranchRunID x) r').2 = inl (Some (updatedAt later x)) /\
      exists xs, (ListReplayBranches ctx later (rb_BranchRunID x) r').2 = inl xs /\ updatedAt later x ∈ xs.
Proof.
  intros E Hz Hv Hb. unfold CreateReplayBranch in E. destruct (planBranch decodeSpec ctx now q r) as [r1 res] eqn:Ep.
  apply planBranch_spec in Ep as [_ Hp]. destruct res as [p|err]; [|done].
  destruct (Hp p eq_refl) as (Hs&Hm&_&r0&sb&Ho&Hsb&Hroot). destruct (run _ (bp_Request p) r1) as [r2 o].
  assert (Er : recordBranch ctx ended q p o r2 = (r', inl (Some x))) by (destruct o; [destruct (unwrapsTo _ _); [done|]|]; done).
  clear E. destruct (recordBranch_saved _ _ _ _ _ _ _ _ Er Hz Hv) as (br&->&Hsaved&Hmx).
  rewrite (byRun_result ctx now (r_RunID (bp_Source p)) r r0 Ho) in Hsb. exists (bp_Source p).
  split_and!; [done|done|done| |].
  - cbn. rewrite Hroot. unfold rootOf. rewrite Hsb. by destruct sb.
  - intros later. rewrite <- normalize_twice by exact Hz. apply saved_listed; [exact Hsaved| |apply replayBranchID_trim|apply TrimSpace_idem|apply TrimSpace_idem|apply TrimSpace_idem|exact Hb].
    revert Hmx. unfold mayAccess. cbn. by rewrite !TrimSpace_idem.
Qed.
End branches.
