(* ===== verification/RecoverySpec.v ===== *)
(** * Captured failures and reports on runs (properties of SelfHealing.v and Forensics.v)

    What the latest execution of a node is, which nodes a capture calls failed and which replays
    it proposes, that a capture can be read and replayed, dry, afterwards, and what the
    execution graph and the difference of two runs show. *)
From S2P Require Import Prelude Storage Graph EngineStore FileStore Throttle Authz AuthzSpec Risk Tools ToolsSpec Runtime Governance.
From S2P Require Import CallContext Gateway AgentState Human Admission DagRun Routing SideEffects Lifecycle Evals WorkflowReleases.
From S2P Require Import SelfHealing Forensics DagStore AdmissionSpec KVSpec LifecycleSpec ReplayBranchSpec.

(** ** The latest execution of a node *)
Definition endOf (n : NodeExecution) : Time := default zeroTime (n_EndedAt n).
(** [n] is at least as late as [m]. *)
Definition later (n m : NodeExecution) : Prop :=
  n_Attempt m < n_Attempt n \/ n_Attempt m = n_Attempt n /\ endOf m <= endOf n.
Lemma later_refl n : later n n.
Proof. right. lia. Qed.
Lemma later_trans n m k : later n m -> later m k -> later n k.
Proof. unfold later. lia. Qed.
Definition named (out : gmap string NodeExecution) : Prop := forall id n, out !! id = Some n -> n_NodeID n = id.
Lemma latestExecution_spec out x id : named out ->
  match latestExecution out x !! id with
  | Some n => n_NodeID n = id /\ (n = x \/ out !! id = Some n) /\ (n_NodeID x = id -> later n x) /\
              forall m, out !! id = Some m -> later n m
  | None => out !! id = None /\ n_NodeID x <> id
  end.
Proof.
  intros Hout. unfold latestExecution. destruct (decide (n_NodeID x = id)) as [<-|Hne].
  - destruct (out !! n_NodeID x) as [e|] eqn:E.
    + destruct (Z.ltb_spec (n_Attempt e) (n_Attempt x)) as [Ha|Ha].
      { rewrite lookup_insert_eq. split_and!; [done|by left|intros _; apply later_refl|intros m [= <-]; by left]. }
      destruct (Z.eqb_spec (n_Attempt x) (n_Attempt e)) as [He|He]; cbn [andb]; [|rewrite E; split_and!;
        [by apply Hout|by right|intros _; left; lia|intros m [= <-]; apply later_refl]].
      fold (endOf x) (endOf e). unfold After. destruct (Z.ltb_spec (endOf e) (endOf x)).
      * rewrite lookup_insert_eq. split_and!; [done|by left|intros _; apply later_refl|intros m [= <-]; right; lia].
      * rewrite E. split_and!; [by apply Hout|by right|intros _; right; lia|intros m [= <-]; apply later_refl].
    + rewrite lookup_insert_eq. split_and!; [done|by left|intros _; apply later_refl|done].
  - assert (forall m : gmap string NodeExecution, <[n_NodeID x := x]> m !! id = m !! id) as Hi by (intros; by apply lookup_insert_ne).
    assert (match out !! n_NodeID x with
            | None => <[n_NodeID x := x]> out
            | Some e => if n_Attempt e <? n_Attempt x then <[n_NodeID x := x]> out
                        else if (n_Attempt x =? n_Attempt e) && After (default zeroTime (n_EndedAt x)) (default zeroTime (n_EndedAt e))
                             then <[n_NodeID x := x]> out else out
            end !! id = out !! id) as ->.
    { destruct (out !! n_NodeID x) as [e|]; [|apply Hi]. destruct (_ <? _); [apply Hi|]. destruct (_ && _); [apply Hi|done]. }
    destruct (out !! id) as [n|] eqn:E; [|done]. split_and!; [by apply Hout|by right|done|intros m [= <-]; apply later_refl].
Qed.
Lemma latestExecution_named out x : named out -> named (latestExecution out x).
Proof. intros Hout id n E. pose proof (latestExecution_spec out x id Hout) as Hs. rewrite E in Hs. by destruct Hs. Qed.
Lemma latest_fold nodes out : named out -> forall id,
  match foldl latestExecution out nodes !! id with
  | Some n => n_NodeID n = id /\ (n ∈ nodes \/ out !! id = Some n) /\
              (forall m, m ∈ nodes -> n_NodeID m = id -> later n m) /\ (forall m, out !! id = Some m -> later n m)
  | None => out !! id = None /\ forall m, m ∈ nodes -> n_NodeID m <> id
  end.
Proof.
  revert out. induction nodes as [|x nodes IH]; intros out Hout id; cbn [foldl].
  - destruct (out !! id) as [n|] eqn:E; [|split; [done|by intros m ?%elem_of_nil]]. split_and!; [by apply Hout|by right|by intros m ?%elem_of_nil|].
    intros m [= ->]. apply later_refl.
  - specialize (IH _ (latestExecution_named out x Hout) id). pose proof (latestExecution_spec out x id Hout) as Hx.
    destruct (foldl latestExecution _ nodes !! id) as [n|].
    + destruct IH as (Hid&Hin&Hl&Ho). destruct (latestExecution out x !! id) as [y|].
      * destruct Hx as (_&Hy&Hyx&Hym). specialize (Ho y eq_refl). split_and!; [done| | |].
        -- destruct Hin as [Hin|[= ->]]; [left; by apply list_elem_of_further|]. destruct Hy as [-> | Hy]; [left; apply list_elem_of_here|by right].
        -- intros m [-> | Hm]%elem_of_cons Hmid; [eapply later_trans; [exact Ho|by apply Hyx]|by apply Hl].
        -- intros m Hm. eapply later_trans; [exact Ho|by apply Hym].
      * destruct Hx as [Hn Hxid]. destruct Hin as [Hin|?]; [|done]. split_and!; [done|left; by apply list_elem_of_further| |by rewrite Hn].
        intros m [-> | Hm]%elem_of_cons Hmid; [done|by apply Hl].
    + destruct IH as [Hn Hl]. rewrite Hn in Hx. destruct Hx as [Hn' Hxid]. split; [done|]. intros m [-> | Hm]%elem_of_cons; [done|by apply Hl].
Qed.
Lemma latest_spec nodes id :
  match latestNodeExecutionByNode nodes !! id with
  | Some n => n ∈ nodes /\ n_NodeID n = id /\ forall m, m ∈ nodes -> n_NodeID m = id -> later n m
  | None => forall m, m ∈ nodes -> n_NodeID m <> id
  end.
Proof.
  pose proof (latest_fold nodes ∅ ltac:(intros i n; by rewrite lookup_empty) id) as Hl. unfold latestNodeExecutionByNode.
  destruct (foldl latestExecution ∅ nodes !! id) as [n|]; [|by destruct Hl]. destruct Hl as (Hid&[Hin|?]&Hm&_); done.
Qed.

(** ** What a capture says *)
Lemma hasFailed_spec latest id :
  hasFailed latest id = true <-> exists n, latest !! id = Some n /\ n_Status n = NodeStatusFailed.
Proof. unfold hasFailed. destruct (latest !! id) as [n|]; [rewrite bool_decide_eq_true|]; naive_solver. Qed.
Lemma failuresOf_spec latest ids f : f ∈ failuresOf latest ids <-> exists id n, id ∈ ids /\ latest !! id = Some n /\ f = failureOf n.
Proof.
  unfold failuresOf. rewrite list_elem_of_omap. split.
  - intros (id&Hid&E). destruct (latest !! id) as [n|] eqn:En; [|done]. exists id, n. naive_solver.
  - intros (id&n&Hid&En&->). exists id. by rewrite En.
Qed.
(** The nodes a capture calls failed are those whose latest execution has failed. *)
Lemma failures_exact nodes order f :
  f ∈ failureNodesFromRun nodes order <->
  exists n, latestNodeExecutionByNode nodes !! n_NodeID n = Some n /\ n_Status n = NodeStatusFailed /\ f = failureOf n.
Proof.
  set (latest := latestNodeExecutionByNode nodes).
  assert (Hkey : forall id n, latest !! id = Some n -> n_NodeID n = id).
  { intros id n E. pose proof (latest_spec nodes id) as Hs. fold latest in Hs. rewrite E in Hs. by destruct Hs as (_&?&_). }
  assert (forall ids, (forall id, hasFailed latest id = true <-> id ∈ ids) ->
    f ∈ failuresOf latest ids <-> exists n, latest !! n_NodeID n = Some n /\ n_Status n = NodeStatusFailed /\ f = failureOf n) as Hall.
  { intros ids Hids. rewrite failuresOf_spec. split.
    - intros (id&n&Hid&E&->). apply Hids, hasFailed_spec in Hid as (n'&E'&Hs). assert (n' = n) as -> by congruence.
      exists n. by rewrite (Hkey _ _ E).
    - intros (n&E&Hs&->). exists (n_NodeID n), n. split; [|done]. apply Hids, hasFailed_spec. by exists n. }
  unfold failureNodesFromRun. fold latest.
  assert (forall id, hasFailed latest id = true <-> id ∈ filter (fun id => hasFailed latest id = true) (elements (dom latest))) as Hf.
  { intros id. rewrite list_elem_of_filter, elem_of_elements, elem_of_dom. split; [|by intros [? _]].
    intros Hid. split; [done|]. apply hasFailed_spec in Hid as (n&->&_). done. }
  destruct (bool_decide (order = [])); cbn [negb]; apply Hall; intros id.
  - rewrite sortStrings_in. apply Hf.
  - set (inOrder := filter (fun id => hasFailed latest id = true) order).
    assert (id ∈ inOrder <-> hasFailed latest id = true /\ id ∈ order) as Hin by (unfold inOrder; by rewrite list_elem_of_filter).
    rewrite elem_of_app, sortStrings_in, list_elem_of_filter, <- Hf.
    destruct (decide (id ∈ inOrder)); tauto.
Qed.
(** A checkpoint has succeeded and comes before the failed node in the order of the graph. *)
Lemma checkpoint_spec failure order latest :
  (forall id n, latest !! id = Some n -> n_NodeID n = id) ->
  let c := previousSucceededCheckpoint failure order latest in
  c = "" \/ exists i j n, order !! i = Some c /\ order !! j = Some failure /\ (i < j)%nat /\
              latest !! c = Some n /\ n_Status n = NodeStatusSucceeded.
Proof.
  intros Hkey. unfold previousSucceededCheckpoint. case_decide as Hf; [by left|].
  destruct (list_find _ order) as [[j x]|] eqn:E; [|by left]. apply list_find_Some in E as (Hj&->&_).
  assert (forall l, (forall id, id ∈ l -> exists i, order !! i = Some id /\ (i < j)%nat) ->
    let c := lastSucceeded latest l in c = "" \/ exists i j n, order !! i = Some c /\ order !! j = Some failure /\ (i < j)%nat /\
      latest !! c = Some n /\ n_Status n = NodeStatusSucceeded) as Hl; [|apply Hl].
  - induction l as [|id l IH]; intros Hb; cbn; [by left|]. assert (forall id', id' ∈ l -> exists i, order !! i = Some id' /\ (i < j)%nat) as Hb'
      by (intros id' Hid; by apply Hb, list_elem_of_further).
    destruct (latest !! id) as [n|] eqn:En; [|by apply IH]. case_decide as Hs; [|by apply IH]. right.
    destruct (Hb id) as (i&Hi&Hij); [apply list_elem_of_here|]. rewrite (Hkey _ _ En). by exists i, j, n.
  - intros id Hid. apply elem_of_reverse, list_elem_of_lookup in Hid as [i Hi]. rewrite ?reverse_involutive in Hi. apply lookup_take_Some in Hi as [Hi Hij]. by exists i.
Qed.
(** The steps a capture proposes to replay from: none, a failed node, or a node that succeeded. *)
Definition sensible (latest : gmap string NodeExecution) (step : string) : Prop :=
  step = "" \/ hasFailed latest step = true \/ exists n, latest !! step = Some n /\ n_Status n = NodeStatusSucceeded.
Lemma suggestions_from failure checkpoint s :
  s ∈ buildReplaySuggestions failure checkpoint -> su_FromStep s = "" \/ su_FromStep s = failure \/ su_FromStep s = checkpoint.
Proof.
  unfold buildReplaySuggestions. set (l := (if decide (failure = "") then [] else _) ++ _).
  assert (forall x, x ∈ l -> su_FromStep x = "" \/ su_FromStep x = failure \/ su_FromStep x = checkpoint) as Hl.
  { intros x. unfold l. rewrite elem_of_app. intros [Hin|Hin]; case_decide; rewrite ?elem_of_cons, ?elem_of_nil in Hin; naive_solver. }
  clearbody l. cbn. case_decide; [|apply Hl]. intros ->%list_elem_of_singleton. by left.
Qed.
Lemma plan_dry failure checkpoint : pl_SideEffectMode (buildSaferRerunPlan failure checkpoint) = SideEffectModeDryRun.
Proof. unfold buildSaferRerunPlan. by repeat case_decide. Qed.
Lemma plan_from failure checkpoint :
  pl_FromStep (buildSaferRerunPlan failure checkpoint) = (if decide (failure = "") then checkpoint else failure).
Proof. unfold buildSaferRerunPlan. repeat case_decide; try done; by destruct (decide (checkpoint = "")). Qed.

Section recovery.
#[local] Set Default Proof Using "Type*".
Context {S F A : Type} `{Store S} `{!KVLaws S} `{!StoreLaws S} `{ArtifactStore A} `{Ambient} `{MapOrder} `{EngineJSON} `{JSONSyntax} `{EvalJSON} `{HealingJSON}.
Variable decodeSpec : bytes -> WorkflowSpec + error.
Implicit Types r : Runner S F A.
Implicit Types ctx : Ctx.
(** Artifacts in valid UTF-8 are read back as they were written. *)
Class HealingLaws : Type := {
  storableHealing : SelfHealingArtifact -> Prop;
  healing_round (x : SelfHealingArtifact) b : storableHealing x -> marshal x = inl b -> unmarshal b = inl x
}.
Context `{!HealingLaws}.

(** *** Keys *)
Lemma healingKey_trim id : TrimSpace (selfHealingArtifactKey id) = selfHealingArtifactKey id.
Proof using. apply TrimSpace_plain. unfold selfHealingArtifactKey. rewrite plain_app. split; [plain|apply PathEscape_plain]. Qed.
Lemma healingKey_audit id : ~ under "audit/" (selfHealingArtifactKey id).
Proof using.
  intros [s E]. rewrite healingKey_trim in E. discriminate E.
Qed.
Lemma healingKey_index runID : selfHealingArtifactKey (selfHealingArtifactID runID) <> selfHealingArtifactIndexKey.
Proof using.
  unfold selfHealingArtifactKey, selfHealingArtifactIndexKey. intros E%(app_inj_l "self_heal/artifacts/" _ "index").
  assert (exists t, TrimSpace (selfHealingArtifactID runID) = "self-heal-" +:+ t) as [t Et] by (apply TrimSpace_prefix; [plain|done]).
  rewrite Et in E. change "index" with (PathEscape "index") in E. by apply (inj PathEscape) in E.
Qed.

(** *** Reading *)
Definition healingRun (x : SelfHealingArtifact) : Run :=
  mkRun (sh_RunID x) (sh_WorkflowID x) "" None None [] [] (sh_TenantID x) "" [] noBudget noUsage.
Lemma get_healing ctx now id r x :
  TrimSpace id <> "" -> getJSONKV (selfHealingArtifactKey id) r = Some (inl x) -> mayAccess ctx (healingRun x) ->
  (GetSelfHealingArtifact ctx now id r).2 = inl (Some (cloneSelfHealingArtifact x)).
Proof.
  intros Hne Hg Hm. unfold GetSelfHealingArtifact. rewrite decide_False by done.
  assert (selfHealingArtifactKey (TrimSpace id) = selfHealingArtifactKey id) as ->
    by (unfold selfHealingArtifactKey; by rewrite TrimSpace_idem). rewrite Hg. case_decide; [done|].
  destruct (ensureAccess_spec ctx now (healingRun x) "self_heal.artifact" r) as [Ha _].
  apply Ha in Hm. unfold healingRun in Hm. by destruct (ensureRunTenantAccess _ _ _ _ r) as [r1 [err|]].
Qed.
Lemma get_outside ctx now id r : outside "audit/" r (GetSelfHealingArtifact ctx now id r).1.
Proof.
  unfold GetSelfHealingArtifact. case_decide; [apply outside_refl|]. destruct (getJSONKV _ r) as [[x|err]|]; [|apply outside_refl..].
  case_decide; [apply outside_refl|].
  pose proof (access_outside ctx now (healingRun x) "self_heal.artifact" r) as Ho. unfold healingRun in Ho.
  by destruct (ensureRunTenantAccess _ _ _ _ r) as [r1 [err|]].
Qed.
Lemma selfHealingID_nonempty runID : TrimSpace (selfHealingArtifactID runID) <> "".
Proof using.
  assert (exists t, TrimSpace (selfHealingArtifactID runID) = "self-heal-" +:+ t) as [t ->] by (apply TrimSpace_prefix; [plain|done]).
  done.
Qed.

(** *** Capturing *)
Definition validHealing r : Prop :=
  forall k z b, marshal z = inl b -> kvOf r k = Some (toString b) -> storableHealing z.
(** What a capture of [run] stores, but for the texts of its case. *)
Definition captures (now : Time) (runID : string) (run : Run) (nodes : list NodeExecution) (x : SelfHealingArtifact) : Prop :=
  exists d c n, x = cloneSelfHealingArtifact (normalizeHealing now (withCase d c n (healingOf (F := F) decodeSpec runID run nodes))).
Lemma upsertIndexID_other key id r k : TrimSpace k <> TrimSpace key -> kvOf (upsertIndexID key id r).1 k = kvOf r k.
Proof.
  intros Hne. unfold upsertIndexID. destruct (indexIDs key r); [|done]. repeat (case_decide; [done|]). by apply putJSONKV_other.
Qed.
Lemma capture_spec ctx now runID r r' x :
  CaptureSelfHealingArtifact decodeSpec ctx now runID r = (r', inl x) -> validHealing r' ->
  exists run, GetRun (TrimSpace runID) (rn_store r) = Some run /\ mayAccess ctx run /\ r_Status run = RunStatusFailed /\
    (exists nodes, (forall n, n ∈ nodes <-> n ∈ ListNodeExecutions (TrimSpace runID) (rn_store r)) /\
                   captures now (TrimSpace runID) run nodes x) /\
    exists y, getJSONKV (selfHealingArtifactKey (selfHealingArtifactID (TrimSpace runID))) r' = Some (inl y) /\
      x = cloneSelfHealingArtifact y.
Proof.
  unfold CaptureSelfHealingArtifact. set (id := TrimSpace runID). destruct (GetRun id (rn_store r)) as [run|] eqn:Eg; [|done].
  destruct (ensureAccess_spec ctx now run "self_heal.capture" r) as [Ha [[Hk _] _]].
  destruct (ensureRunTenantAccess _ _ _ _ r) as [r1 [err|]]; [done|]. cbn [fst snd] in *.
  assert (mayAccess ctx run) as Hm by by apply Ha. case_decide as Hs; [done|].
  assert (forall n, n ∈ ListNodeExecutions id (rn_store r1) <-> n ∈ ListNodeExecutions id (rn_store r)) as Hnodes.
  { intros n. rewrite !law_list. destruct Hk as [_ Hn]. by setoid_rewrite Hn. }
  set (x0 := healingOf decodeSpec id run _). destruct (ensureSelfHealingEvalDataset now _ r1) as [r2 [d0|]]; [|done].
  destruct (CreateEvalCaseFromRun now _ _ _ _ "" r2) as [r3 [[d1 c1]|]]; [|done].
  destruct (enrichSelfHealingEvalCase d1 c1 run _) as [d c]. destruct (SaveEvalDataset now d r3) as [r4 [err|]]; [done|].
  set (x1 := withCase _ _ _ x0). set (y := normalizeHealing now x1). set (k := selfHealingArtifactKey (selfHealingArtifactID id)).
  assert (selfHealingArtifactKey (sh_ID y) = k) as Hky.
  { unfold y, x1, k, normalizeHealing. cbn. rewrite decide_False by apply selfHealingID_nonempty.
    unfold selfHealingArtifactKey. by rewrite TrimSpace_idem. }
  unfold saveSelfHealingArtifact. fold y. rewrite Hky. destruct (putJSONKV k y r4) as [r5 [err|]] eqn:Ep; [done|].
  destruct (putJSONKV_same k y r4 r5 k Ep eq_refl) as (b&Hb&Hkv).
  pose proof (upsertIndexID_other selfHealingArtifactIndexKey (sh_ID y) r5 k) as Hi.
  destruct (upsertIndexID _ _ r5) as [r6 [err|]]; [done|]. cbn [fst] in Hi.
  set (r7 := appendAuditRecord _ _ _ _).
  assert (kvOf r7 k = Some (toString b)) as Hkv7.
  { unfold r7. rewrite (audit_outside _ _ _ _ k) by apply healingKey_audit. rewrite emit_kv, Hi; [done|].
    unfold k. rewrite healingKey_trim. apply healingKey_index. }
  pose proof (get_outside ctx now (sh_ID x1) r7 k (healingKey_audit _)) as Hkv8.
  assert (forall r8, kvOf r8 k = kvOf r7 k -> validHealing r8 -> getJSONKV k r8 = Some (inl y)) as Hget.
  { intros r8 E8 Hv. rewrite (getJSONKV_put k b) by by rewrite E8. f_equal. apply healing_round; [|done]. eapply Hv; [exact Hb|]. by rewrite E8. }
  destruct (GetSelfHealingArtifact ctx now (sh_ID x1) r7) as [r8 res] eqn:E8. cbn [fst] in Hkv8. intros E Hv.
  assert (r8 = r') as Er by (destruct res; [injection E as Er _; exact Er|discriminate E]). subst r8.
  assert (getJSONKV k r7 = Some (inl y)) as Hg7.
  { rewrite (getJSONKV_kv k r' r7) by done. by apply Hget. }
  assert (res = inl (Some (cloneSelfHealingArtifact y))) as ->.
  { replace res with ((GetSelfHealingArtifact ctx now (sh_ID x1) r7).2) by by rewrite E8. apply get_healing.
    - apply selfHealingID_nonempty.
    - exact Hg7.
    - revert Hm. unfold mayAccess, healingRun. cbn. by rewrite !TrimSpace_idem. }
  injection E as <-. exists run. split_and!; [done|done|done| |].
  - exists (ListNodeExecutions id (rn_store r1)). split; [exact Hnodes|]. by exists (ed_ID d), (ec_ID c), (ec_Name c).
  - exists y. split; [|done]. by apply Hget.
Qed.
(** The last executions of the nodes of a run. *)
Definition lastOf (runID : string) r (n : NodeExecution) : Prop :=
  n ∈ ListNodeExecutions runID (rn_store r) /\
  forall m, m ∈ ListNodeExecutions runID (rn_store r) -> n_NodeID m = n_NodeID n -> later n m.
Lemma latest_last runID r nodes n :
  keyed runID r -> (forall n, n ∈ nodes <-> n ∈ ListNodeExecutions runID (rn_store r)) ->
  latestNodeExecutionByNode nodes !! n_NodeID n = Some n <-> lastOf runID r n.
Proof.
  intros Hkey Hn. unfold lastOf. setoid_rewrite <- Hn. pose proof (latest_spec nodes (n_NodeID n)) as Hs. split.
  - intros E. rewrite E in Hs. destruct Hs as (Hin&_&Hl). by split.
  - intros [Hin Hl]. destruct (latestNodeExecutionByNode nodes !! n_NodeID n) as [m|]; [|by destruct (Hs n Hin)].
    destruct Hs as (Hm&Hid&Hl'). f_equal. specialize (Hl m Hm Hid). specialize (Hl' n Hin eq_refl).
    rewrite Hn, law_list in Hin, Hm. destruct Hin as (a&i&Ea), Hm as (b&j&Eb).
    destruct (Hkey _ _ _ Ea) as (_&<-&<-). destruct (Hkey _ _ _ Eb) as (_&<-&<-).
    assert (n_Attempt m = n_Attempt n) as Hat by (unfold later in *; lia). rewrite Hid, Hat in Eb. congruence.
Qed.
(** C34: A capture is made of failed runs only, for callers who may access the run.  It names exactly
    the nodes whose last execution has failed, proposes to replay from nodes only whose last
    execution has failed or succeeded, and plans a rerun whose side effects are dry; it is
    read by the name of the run from then on. *)
Theorem capture_describes ctx now runID r r' x :
  let id := TrimSpace runID in
  CaptureSelfHealingArtifact decodeSpec ctx now runID r = (r', inl x) -> validHealing r' -> keyed id r ->
  exists run, GetRun id (rn_store r) = Some run /\ mayAccess ctx run /\ r_Status run = RunStatusFailed /\
    sh_RunID x = TrimSpace (r_RunID run) /\ sh_TenantID x = TrimSpace (r_TenantID run) /\
    (forall f, f ∈ sh_FailureNodes x <-> exists n, lastOf id r n /\ n_Status n = NodeStatusFailed /\ f = failureOf n) /\
    (forall step, step = pl_FromStep (sh_SaferRerun x) \/ (exists s, s ∈ sh_ReplaySuggestions x /\ su_FromStep s = step) ->
       step = "" \/ exists n, lastOf id r n /\ n_NodeID n = step /\ n_Status n ∈ [NodeStatusFailed; NodeStatusSucceeded]) /\
    pl_SideEffectMode (sh_SaferRerun x) = SideEffectModeDryRun /\
    forall ctx' now', id <> "" -> mayAccess ctx' run -> (GetSelfHealingArtifactByRun ctx' now' runID r').2 = inl (Some x).
Proof.
  intros id E Hv Hkey. destruct (capture_spec _ _ _ _ _ _ E Hv) as (run&Hg&Hm&Hs&(nodes&Hn&d&c&e&Hx)&y&Hy&Hxy).
  clear E Hv. exists run. assert (sh_TenantID x = TrimSpace (r_TenantID run)) as Ht by (rewrite Hx; cbn; apply TrimSpace_idem).
  assert (Hread : forall ctx' now', id <> "" -> mayAccess ctx' run -> (GetSelfHealingArtifactByRun ctx' now' runID r').2 = inl (Some x)).
  { intros ctx' now' Hne Hm'. unfold GetSelfHealingArtifactByRun. fold id. rewrite decide_False by done. rewrite Hxy.
    apply get_healing; [apply selfHealingID_nonempty|exact Hy|]. revert Hm'. unfold mayAccess, healingRun.
    apply (f_equal sh_TenantID) in Hxy. rewrite Ht in Hxy. cbn in Hxy |- *. by rewrite <- Hxy. }
  set (latest := latestNodeExecutionByNode nodes).
  assert (Hlast : forall n, latest !! n_NodeID n = Some n <-> lastOf id r n) by (intros n; by apply latest_last).
  assert (Hnamed : forall i n, latest !! i = Some n -> n_NodeID n = i).
  { intros i n Ei. pose proof (latest_spec nodes i) as Hl. fold latest in Hl. rewrite Ei in Hl. by destruct Hl as (_&?&_). }
  assert (Hsens : forall step, sensible latest step ->
    step = "" \/ exists n, lastOf id r n /\ n_NodeID n = step /\ n_Status n ∈ [NodeStatusFailed; NodeStatusSucceeded]).
  { intros step [?|[(n&En&Hst)%hasFailed_spec|(n&En&Hst)]]; [by left|right; exists n..].
    all: pose proof (Hnamed _ _ En) as Hid; rewrite <- Hid in En; apply Hlast in En; (split; [exact En|]); (split; [exact Hid|]); rewrite Hst.
    - apply list_elem_of_here.
    - apply list_elem_of_further, list_elem_of_here. }
  set (order := nodeOrderFromSpec (F := F) decodeSpec (r_Spec run)). set (failures := failureNodesFromRun nodes order).
  set (failure := fn_NodeID (default noFailure (head failures))). set (checkpoint := previousSucceededCheckpoint failure order latest).
  assert (sensible latest failure) as Hf.
  { unfold failure. destruct (head failures) as [f|] eqn:Eh; [|by left]. right. left.
    assert (f ∈ failures) as Hin by (destruct failures; [done|injection Eh as ->; apply list_elem_of_here]).
    apply failures_exact in Hin as (n&En&Hst&->). apply hasFailed_spec. by exists n. }
  assert (sensible latest checkpoint) as Hc.
  { destruct (checkpoint_spec failure order latest Hnamed) as [?|(_&_&n&_&_&_&En&Hst)]; [by left|right; right; by exists n]. }
  rewrite Hx in *. cbn [cloneSelfHealingArtifact normalizeHealing withCase healingOf sh_RunID sh_TenantID sh_FailureNodes
    sh_ReplaySuggestions sh_SaferRerun] in *. fold order latest. fold failures. fold failure. fold checkpoint.
  split_and!; [done|done|done|by rewrite TrimSpace_idem|done| | |apply plan_dry|].
  - intros f. unfold failures. rewrite failures_exact. fold latest. by setoid_rewrite Hlast.
  - intros step [->|(s&Hin&<-)]; apply Hsens; [rewrite plan_from; by case_decide|].
    apply suggestions_from in Hin as [-> |[-> | ->]]; [by left|done..].
  - exact Hread.
Qed.

(** *** Replaying *)
Lemma dry_replay (c : CallCtx) p : effectMode (WithSideEffectMode SideEffectModeDryRun c) p = SideEffectModeDryRun.
Proof using.
  assert (SideEffectModeFrom (WithSideEffectMode SideEffectModeDryRun c) = Some SideEffectModeDryRun) as Hd
    by (destruct c; vm_compute; reflexivity).
  unfold effectMode. by rewrite Hd.
Qed.
(** Replaying a captured failure, or capturing and replaying it, runs graphs only where every side
    effect is a dry run: what the graph runner does elsewhere makes no difference. *)
Theorem recovery_is_dry run run' (ctx : CallCtx) now runID r :
  (forall c rq r0, (forall p, effectMode c p = SideEffectModeDryRun) -> run c rq r0 = run' c rq r0) ->
  (forall x, getJSONKV (selfHealingArtifactKey (selfHealingArtifactID (TrimSpace runID))) r = Some (inl x) ->
     pl_SideEffectMode (sh_SaferRerun x) = SideEffectModeDryRun) ->
  (forall r0, (GetSelfHealingArtifactByRun ctx now runID r) = (r0, inl None) ->
     validHealing (CaptureSelfHealingArtifact decodeSpec ctx now runID r0).1) ->
  ReplaySelfHealingArtifact decodeSpec run ctx now runID r = ReplaySelfHealingArtifact decodeSpec run' ctx now runID r.
Proof.
  intros Hrun Hplan Hv. unfold ReplaySelfHealingArtifact. set (found := match GetSelfHealingArtifactByRun ctx now runID r with (_, _) => _ end).
  assert (forall r0 x, found = (r0, inl x) -> pl_SideEffectMode (sh_SaferRerun x) = SideEffectModeDryRun) as Hfound.
  { unfold found. clear found. intros r0 x.
    destruct (GetSelfHealingArtifactByRun ctx now runID r) as [r1 [[y|]|err]] eqn:Eg; [| |discriminate].
    - intros [= _ <-]. unfold GetSelfHealingArtifactByRun in Eg. destruct (decide (TrimSpace runID = "")); [discriminate Eg|].
      unfold GetSelfHealingArtifact in Eg. destruct (decide _); [discriminate Eg|].
      assert (selfHealingArtifactKey (TrimSpace (selfHealingArtifactID (TrimSpace runID))) = selfHealingArtifactKey (selfHealingArtifactID (TrimSpace runID))) as Ek
        by (unfold selfHealingArtifactKey; by rewrite TrimSpace_idem). rewrite Ek in Eg.
      destruct (getJSONKV _ r) as [[z|err]|]; [|discriminate Eg..]. specialize (Hplan z eq_refl).
      destruct (decide _); [injection Eg as _ <-; exact Hplan|].
      destruct (ensureRunTenantAccess _ _ _ _ r) as [r2 [err|]]; [discriminate Eg|]. injection Eg as _ <-. exact Hplan.
    - intros Ec. specialize (Hv r1 eq_refl). rewrite Ec in Hv. cbn [fst] in Hv.
      destruct (capture_spec _ _ _ _ _ _ Ec Hv) as (rn&_&_&_&(nodes&_&d&c&e&Hx)&_). rewrite Hx. apply plan_dry. }
  clearbody found. destruct found as [r0 [x|err]]; [|reflexivity]. rewrite (Hfound r0 x eq_refl). unfold ReplayFrom.
  destruct (replayRequest _ _ _ _ _ _ r0) as [r1 [rq|err]]; [|reflexivity].
  rewrite (Hrun _ rq r1); [reflexivity|]. intros p. apply dry_replay.
Qed.
End recovery.

(** ** Reports *)
Section reports.
#[local] Set Default Proof Using "Type*".
Context {S F A : Type} `{Store S} `{!KVLaws S} `{!StoreLaws S} `{ArtifactStore A} `{Ambient} `{MapOrder} `{EngineJSON} `{JSONSyntax}.
Context `{ToolJSON} `{EffectJSON} `{EvalJSON} `{ReleaseJSON} `{HealingJSON}.
Variable decodeSpec : bytes -> WorkflowSpec + error.
Implicit Types r : Runner S F A.

Lemma healing_quiet ctx now runID r : quiet r (GetSelfHealingArtifactByRun ctx now runID r).1.
Proof.
  unfold GetSelfHealingArtifactByRun, GetSelfHealingArtifact. repeat (case_decide; [apply quiet_refl|]).
  destruct (getJSONKV _ r) as [[x|err]|]; [|apply quiet_refl..]. case_decide; [apply quiet_refl|].
  pose proof (access_quiet ctx now (healingRun x) "self_heal.artifact" r) as Ho. unfold healingRun in Ho.
  by destruct (ensureRunTenantAccess _ _ _ _ r) as [r1 [err|]].
Qed.
Lemma receipt_quiet (ctx : CallCtx) now id r : quiet r (GetSideEffectReceipt ctx now id r).1.
Proof.
  unfold GetSideEffectReceipt. case_decide; [apply quiet_refl|]. destruct (getJSONKV _ r) as [[x|err]|]; [|apply quiet_refl..].
  unfold receiptAccess. case_decide; [apply quiet_refl|].
  match goal with |- context [ensureRunTenantAccess ?c now ?run ?a r] => pose proof (access_quiet c now run a r) as Ho;
    by destruct (ensureRunTenantAccess c now run a r) as [r1 [err|]] end.
Qed.
Lemma receipts_quiet (ctx : CallCtx) now runID status limit r : quiet r (ListSideEffectReceipts ctx now runID status limit r).1.
Proof.
  unfold ListSideEffectReceipts. destruct (indexIDs _ r) as [ids|]; [|apply quiet_refl].
  set (limit' := if limit <=? 0 then 100 else limit). clearbody limit'.
  assert (forall ids out r0, quiet r0 (receiptRows ctx now ids (TrimSpace runID) (TrimSpace status) limit' out r0).1) as Hr.
  { clear ids. induction ids as [|id ids IH]; intros out r0; [apply quiet_refl|]. cbn [receiptRows].
    pose proof (receipt_quiet ctx now id r0) as Ho. destruct (GetSideEffectReceipt ctx now id r0) as [r1 [x|err]];
      [|eapply quiet_trans; [exact Ho|apply IH]].
    repeat (case_decide; [eapply quiet_trans; [exact Ho|apply IH]|]). destruct (_ <=? _); [exact Ho|].
    eapply quiet_trans; [exact Ho|apply IH]. }
  specialize (Hr (reverse ids) [] r). by destruct (receiptRows _ _ _ _ _ _ _ r).
Qed.
Lemma list_quiet runID r r' n : quiet r r' ->
  n ∈ ListNodeExecutions runID (rn_store r') <-> n ∈ ListNodeExecutions runID (rn_store r).
Proof. intros [[[_ Hn] _] _]. rewrite !law_list. by setoid_rewrite Hn. Qed.

(** *** The execution graph *)
Lemma groupBy_spec {X} (key : X -> string) l k x : x ∈ at_ (groupBy key l) k <-> x ∈ l /\ key x = k.
Proof using.
  unfold groupBy, at_. assert (forall out : gmap string (list X), x ∈ default [] (foldl (fun out x => <[key x := default [] (out !! key x) ++ [x]]> out) out l !! k) <->
    x ∈ default [] (out !! k) \/ x ∈ l /\ key x = k) as Hl; [|rewrite (Hl ∅), lookup_empty; cbn; rewrite elem_of_nil; tauto].
  induction l as [|y l IH]; intros out; cbn [foldl]; [rewrite elem_of_nil; tauto|]. rewrite IH, elem_of_cons.
  destruct (decide (key y = k)) as [<-|Hne].
  - rewrite lookup_insert_eq. cbn. rewrite elem_of_app, list_elem_of_singleton. naive_solver.
  - rewrite lookup_insert_ne by done. naive_solver.
Qed.
Lemma groupBy_dom {X} (key : X -> string) l k : k ∈ dom (groupBy key l) <-> exists x, x ∈ l /\ key x = k.
Proof using Type.
  clear StoreLaws0 KVLaws0. unfold groupBy. assert (forall out : gmap string (list X), k ∈ dom (foldl (fun out x => <[key x := default [] (out !! key x) ++ [x]]> out) out l) <->
    k ∈ dom out \/ exists x, x ∈ l /\ key x = k) as Hl; [|rewrite (Hl ∅), dom_empty; set_solver].
  induction l as [|y l IH]; intros out; cbn [foldl]; [set_solver|]. rewrite IH, dom_insert. set_solver.
Qed.
Lemma executions_spec runID nodes id n :
  n ∈ at_ (executionsByNode runID nodes) id <-> n ∈ nodes /\ n_NodeID n = id /\ TrimSpace (n_RunID n) = TrimSpace runID.
Proof using Type.
  unfold executionsByNode. pose proof (groupBy_spec n_NodeID (filter (fun n => TrimSpace (n_RunID n) = TrimSpace runID) nodes) id n) as Hg.
  rewrite list_elem_of_filter in Hg. unfold at_ in *. rewrite lookup_fmap.
  destruct (groupBy _ _ !! id) as [l|]; cbn in *; [rewrite sortSlice_perm|]; tauto.
Qed.
Lemma executions_dom runID nodes id :
  id ∈ dom (executionsByNode runID nodes) <-> exists n, (n ∈ nodes /\ TrimSpace (n_RunID n) = TrimSpace runID) /\ n_NodeID n = id.
Proof.
  unfold executionsByNode. rewrite dom_fmap, groupBy_dom. split; intros (n&Hn&Hid); exists n; (split; [|exact Hid]);
    rewrite list_elem_of_filter in *; tauto.
Qed.
Lemma nodeIDs_spec (spec : option (WorkflowGraph F)) (execs : gmap string (list NodeExecution)) id :
  id ∈ forensicNodeIDs (default (mkGraph F "" [] [] 0) spec) execs <->
  (exists g, spec = Some g /\ id ∈ (NodeID <$> Nodes g)) \/ id ∈ dom execs.
Proof.
  unfold forensicNodeIDs. rewrite sortStrings_in, elem_of_elements, elem_of_union, elem_of_list_to_set.
  apply Morphisms_Prop.or_iff_morphism; [|done]. destruct spec as [g|]; cbn.
  - split; [intros Hin; by exists g|by intros (?&[= <-]&Hin)].
  - rewrite elem_of_nil. split; [done|by intros (?&?&_)].
Qed.
(** The execution graph of a run is shown to the callers who may access the run.  It has every
    node of the run's graph and every node that was executed, each once and in order, with exactly the
    executions of the run under its name; building it writes nothing but audit records. *)
Theorem BuildExecutionGraph_exact (ctx : CallCtx) now runID r :
  let '(r', res) := BuildExecutionGraph decodeSpec ctx now runID r in
  quiet r r' /\
  match res with
  | inr _ => forall run, GetRun (TrimSpace runID) (rn_store r) = Some run -> ~ mayAccess ctx run
  | inl fg => exists run, GetRun (TrimSpace runID) (rn_store r) = Some run /\ mayAccess ctx run /\ fg_Run fg = run /\
      NoDup (fx_NodeID <$> fg_Nodes fg) /\ Sorted string_le (fx_NodeID <$> fg_Nodes fg) /\
      let recorded n := n ∈ ListNodeExecutions (r_RunID run) (rn_store r) /\ TrimSpace (n_RunID n) = TrimSpace (r_RunID run) in
      (forall id, id ∈ (fx_NodeID <$> fg_Nodes fg) <->
         (exists g, parseWorkflowGraphFromSpec (F := F) decodeSpec (r_Spec run) = Some g /\ id ∈ (NodeID <$> Nodes g)) \/
         exists n, recorded n /\ n_NodeID n = id) /\
      forall node n, node ∈ fg_Nodes fg -> n ∈ fx_Executions node <-> recorded n /\ n_NodeID n = fx_NodeID node
  end.
Proof.
  unfold BuildExecutionGraph. destruct (GetRun (TrimSpace runID) (rn_store r)) as [run|] eqn:Eg; [|by split; [apply quiet_refl|]].
  pose proof (access_quiet ctx now run "forensics.execution_graph" r) as H1'.
  destruct (ensureAccess_spec ctx now run "forensics.execution_graph" r) as [Ha _].
  destruct (ensureRunTenantAccess _ _ _ _ r) as [r1 [err|]]; cbn [fst snd] in *.
  { split; [exact H1'|]. intros ? [= <-] Hm. by apply Ha in Hm. }
  set (spec := parseWorkflowGraphFromSpec decodeSpec (r_Spec run)). cbv zeta. set (g := default (mkGraph _ "" [] [] 0) spec).
  set (execs := executionsByNode _ _). set (tools := toolCallsByNode _). set (tasks := humanTasksByNode _).
  pose proof (receipts_quiet ctx now (r_RunID run) "" 500 r1) as H2'. destruct (ListSideEffectReceipts _ _ _ _ _ r1) as [r2 effects].
  set (receipts := sideEffectsByNode _). pose proof (healing_quiet ctx now (r_RunID run) r2) as H3'.
  destruct (GetSelfHealingArtifactByRun _ _ _ r2) as [r3 heal]. cbn [fst] in *.
  split; [eapply quiet_trans; [exact H1'|]; eapply quiet_trans; [exact H2'|exact H3']|].
  assert (Hm : mayAccess ctx run) by by apply Ha. clear Ha.
  assert (Hids : fx_NodeID <$> (forensicNode g execs tools tasks receipts <$> forensicNodeIDs g execs) = forensicNodeIDs g execs).
  { rewrite <- list_fmap_compose. erewrite (list_fmap_ext _ id); [apply list_fmap_id|]. done. }
  assert (Hx : forall id n, n ∈ at_ execs id <-> (n ∈ ListNodeExecutions (r_RunID run) (rn_store r) /\ TrimSpace (n_RunID n) = TrimSpace (r_RunID run)) /\ n_NodeID n = id).
  { intros id n. unfold execs. rewrite executions_spec, (list_quiet (r_RunID run) r r1 n H1'). tauto. }
  exists run. cbn [fg_Run fg_Nodes]. rewrite Hids. split_and!; [done|exact Hm|done| | | |].
  - unfold forensicNodeIDs, sortStrings. rewrite merge_sort_Permutation. apply NoDup_elements.
  - apply Sorted_merge_sort. intros x y. apply string_le_total.
  - intros id. unfold g. rewrite (nodeIDs_spec spec execs id). unfold execs. rewrite executions_dom.
    apply Morphisms_Prop.or_iff_morphism; [done|]. split; intros (n&[Hn Hr]&Hid); exists n; (split; [split; [|exact Hr]|exact Hid]);
      by apply (list_quiet (r_RunID run) r r1 n H1').
  - intros node n (id&->&Hid)%list_elem_of_fmap. cbn. apply Hx.
Qed.

End reports.

(** ** Differences *)
Lemma string_le_trans : Transitive string_le.
Proof.
  intros s. unfold string_le, String.leb. induction s as [|c s IH]; intros t u; destruct t as [|d t], u as [|e u]; cbn; try done.
  unfold Ascii.compare. destruct (N.compare_spec (Ascii.N_of_ascii c) (Ascii.N_of_ascii d)) as [Hcd|Hcd|Hcd], (N.compare_spec (Ascii.N_of_ascii d) (Ascii.N_of_ascii e)) as [Hde|Hde|Hde];
    try done; intros H1 H2; try (rewrite (proj2 (N.compare_lt_iff _ _)); [done|lia]).
  rewrite (proj2 (N.compare_eq_iff _ _)) by congruence. by apply (IH t u).
Qed.
Lemma Sorted_filter {X} (R : X -> X -> Prop) (P : X -> Prop) `{forall x, Decision (P x)} l :
  Transitive R -> Sorted R l -> Sorted R (filter P l).
Proof.
  intros HR Hs%Sorted_StronglySorted; [|exact HR]. apply StronglySorted_Sorted. induction Hs as [|x l Hs IH Hx]; [constructor|].
  rewrite filter_cons. case_decide; [|exact IH]. constructor; [exact IH|]. rewrite Forall_forall in *. intros y [_ Hy]%list_elem_of_filter. by apply Hx.
Qed.

Section differences.
#[local] Set Default Proof Using "Type*".
Context {S F A : Type} `{Store S} `{!KVLaws S} `{!StoreLaws S} `{ArtifactStore A} `{Ambient} `{MapOrder} `{EngineJSON} `{JSONSyntax} `{EvalJSON} `{ReleaseJSON} `{HealingJSON}.
Implicit Types r : Runner S F A.

(** What is relied on of the codec: a value that was decoded can be encoded, and then decodes to itself. *)
Class ValueCodec : Prop :=
  value_round (b : bytes) (v : json) : unmarshal b = inl v -> exists l, marshal v = inl l /\ unmarshal l = inl v.
Context {value_codec : ValueCodec}.
(** Both are empty, or texts of one JSON value; a text that is not JSON is the same as nothing. *)
Definition sameValue (a b : bytes) : Prop :=
  a = [] /\ b = [] \/ exists v : json, unmarshal a = inl v /\ unmarshal b = inl v.
Lemma jsonEqual_spec a b : jsonEqual a b = true <-> exists v : json, unmarshal a = inl v /\ unmarshal b = inl v.
Proof using value_codec.
  unfold jsonEqual. destruct (unmarshal a) as [v|] eqn:Ea; [|split; [done|by intros (?&?&_)]].
  destruct (unmarshal b) as [w|] eqn:Eb; [|split; [done|by intros (?&_&?)]].
  destruct (value_round _ _ Ea) as (l&El&Hl), (value_round _ _ Eb) as (l'&El'&Hl'). rewrite El, El', bool_decide_eq_true.
  split; [intros <-; exists v; split; [done|congruence]|intros (u&[= <-]&[= <-]); congruence].
Qed.
(** Two executions agree on everything a comparison of runs looks at. *)
Definition agree (n m : NodeExecution) : Prop :=
  n_Status n = n_Status m /\ TrimSpace (n_Error n) = TrimSpace (n_Error m) /\
  sameValue (n_Input n) (n_Input m) /\ sameValue (n_Output n) (n_Output m).
Definition lastNamed (runID id : string) r (n : NodeExecution) : Prop := lastOf runID r n /\ n_NodeID n = id.
(** The node ended in both runs in executions that agree, or was executed in neither. *)
Definition unchanged (from to : string) r (id : string) : Prop :=
  ((exists n, lastNamed from id r n) <-> exists m, lastNamed to id r m) /\
  forall n m, lastNamed from id r n -> lastNamed to id r m -> agree n m.

Lemma textChanged_spec a b : xc_Changed (nodeDiffText a b) = false <-> TrimSpace a = TrimSpace b.
Proof using. unfold nodeDiffText. cbn. rewrite negb_false_iff. apply bool_decide_eq_true. Qed.
Lemma valueChanged_spec a b : vc_Changed (nodeDiffValue a b) = false <-> sameValue a b.
Proof using value_codec.
  unfold nodeDiffValue, sameValue. cbn. case_decide; [tauto|]. rewrite negb_false_iff, jsonEqual_spec. tauto.
Qed.
Lemma nodeChanged_spec id a b :
  nodeChanged (nodeDiff id a b) = false <->
  match a, b with None, None => True | Some n, Some m => agree n m | _, _ => False end.
Proof using value_codec.
  unfold nodeChanged. rewrite !orb_false_iff. unfold nodeDiff. cbn [df_StatusChanged df_Error df_Input df_Output].
  rewrite textChanged_spec, !valueChanged_spec, !orb_false_iff, negb_false_iff, bool_decide_eq_true. unfold agree.
  destruct a as [n|], b as [m|]; cbn; [tauto| | |].
  - split; [intuition discriminate|done].
  - split; [intuition discriminate|done].
  - unfold sameValue. tauto.
Qed.
Lemma latest_named runID r nodes id n :
  keyed runID r -> (forall n, n ∈ nodes <-> n ∈ ListNodeExecutions runID (rn_store r)) ->
  latestNodeExecutionByNode nodes !! id = Some n <-> lastNamed runID id r n.
Proof.
  intros Hkey Hn. unfold lastNamed. split.
  - intros E. pose proof (latest_spec nodes id) as Hl. rewrite E in Hl. destruct Hl as (_&Hid&_).
    split; [|exact Hid]. apply (latest_last runID r nodes); [exact Hkey|exact Hn|by rewrite Hid].
  - intros [Hl <-]. by apply (latest_last runID r nodes).
Qed.
Lemma changed_spec from to r nodes nodes' id :
  keyed from r -> (forall n, n ∈ nodes <-> n ∈ ListNodeExecutions from (rn_store r)) ->
  keyed to r -> (forall n, n ∈ nodes' <-> n ∈ ListNodeExecutions to (rn_store r)) ->
  nodeChanged (nodeDiff id (latestNodeExecutionByNode nodes !! id) (latestNodeExecutionByNode nodes' !! id)) = false <->
  unchanged from to r id.
Proof.
  intros Hk Hn Hk' Hn'. rewrite nodeChanged_spec. unfold unchanged.
  pose proof (fun n => latest_named from r nodes id n Hk Hn) as Ha. pose proof (fun n => latest_named to r nodes' id n Hk' Hn') as Hb.
  setoid_rewrite <- Ha. setoid_rewrite <- Hb. clear Ha Hb Hk Hn Hk' Hn'.
  destruct (latestNodeExecutionByNode nodes !! id) as [n|], (latestNodeExecutionByNode nodes' !! id) as [m|].
  - split; [intros Hag; split; [split; intros _; [by exists m|by exists n]|by intros ?? [= <-] [= <-]]|intros [_ Hag]; by apply Hag].
  - split; [done|intros [[Hx _] _]]. destruct Hx as [? ?]; [by exists n|done].
  - split; [done|intros [[_ Hx] _]]. destruct Hx as [? ?]; [by exists m|done].
  - split; [intros _; split; [split; by intros [? ?]|done]|done].
Qed.
(** The nodes named by a comparison, with the test on the executions moved to the names. *)
Lemma changed_names (a b : gmap string NodeExecution) (ids : list string) :
  df_NodeID <$> filter (fun d => nodeChanged d = true) ((fun id => nodeDiff id (a !! id) (b !! id)) <$> ids) =
  filter (fun id => nodeChanged (nodeDiff id (a !! id) (b !! id)) = true) ids.
Proof using.
  induction ids as [|id ids IH]; [done|]. rewrite fmap_cons, !filter_cons. case_decide; [|exact IH]. by rewrite fmap_cons, IH.
Qed.
Lemma in_domain (c : bool) (x y : string) : y ∈ (if c then [x] else []) <-> c = true /\ y = x.
Proof using. destruct c; [rewrite list_elem_of_singleton|rewrite elem_of_nil]; intuition discriminate. Qed.
(** C21: Two runs are compared for the callers who may access both.  The comparison names, once each
    and in order, exactly the nodes that were executed in one of the runs only or whose last executions
    differ: in their status, in their trimmed error, or in an input or an output, where two texts are
    the same if both are empty or both are JSON of one value (so plain text differs from
    everything, itself included: [run_differs_from_itself] of BranchScenario.v).  It says so among
    the changed domains exactly when there is such a node, and it writes nothing but audit records. *)
Theorem DiffRuns_exact (ctx : Ctx) now fromID toID r :
  (forall run, GetRun (TrimSpace fromID) (rn_store r) = Some run -> keyed (r_RunID run) r) ->
  (forall run, GetRun (TrimSpace toID) (rn_store r) = Some run -> keyed (r_RunID run) r) ->
  let '(r', res) := DiffRuns ctx now fromID toID r in
  quiet r r' /\
  match res with
  | inr _ => forall from to, GetRun (TrimSpace fromID) (rn_store r) = Some from -> GetRun (TrimSpace toID) (rn_store r) = Some to ->
      ~ (mayAccess ctx from /\ mayAccess ctx to)
  | inl d => exists from to, GetRun (TrimSpace fromID) (rn_store r) = Some from /\ GetRun (TrimSpace toID) (rn_store r) = Some to /\
      mayAccess ctx from /\ mayAccess ctx to /\ fd_FromRunID d = r_RunID from /\ fd_ToRunID d = r_RunID to /\
      NoDup (fd_ChangedNodes d) /\ Sorted string_le (fd_ChangedNodes d) /\
      (forall id, id ∈ fd_ChangedNodes d <-> ~ unchanged (r_RunID from) (r_RunID to) r id) /\
      ("node_executions" ∈ fd_ChangedDomains d <-> exists id, ~ unchanged (r_RunID from) (r_RunID to) r id)
  end.
Proof.
  intros Hkf Hkt. unfold DiffRuns. destruct (GetRun (TrimSpace fromID) (rn_store r)) as [from|] eqn:Ef; [|by split; [apply quiet_refl|]].
  pose proof (access_quiet ctx now from "forensics.run_diff" r) as H1'.
  destruct (ensureAccess_spec ctx now from "forensics.run_diff" r) as [Ha _].
  destruct (ensureRunTenantAccess _ _ _ _ r) as [r1 [err|]]; cbn [fst snd] in *.
  { split; [exact H1'|]. intros ? ? [= <-] _ [Hm _]. by apply Ha in Hm. }
  assert (GetRun (TrimSpace toID) (rn_store r1) = GetRun (TrimSpace toID) (rn_store r)) as -> by apply H1'. destruct (GetRun (TrimSpace toID) (rn_store r)) as [to|] eqn:Et; [|by split].
  pose proof (access_quiet ctx now to "forensics.run_diff" r1) as H2'.
  destruct (ensureAccess_spec ctx now to "forensics.run_diff" r1) as [Hb _].
  destruct (ensureRunTenantAccess _ _ _ _ r1) as [r2 [err|]]; cbn [fst snd] in *.
  { split; [by eapply quiet_trans|]. intros ? ? _ [= <-] [_ Hm]. by apply Hb in Hm. }
  pose proof (quiet_trans _ _ _ H1' H2') as Hq. split; [exact Hq|].
  set (nodes := ListNodeExecutions (r_RunID from) (rn_store r2)). set (nodes' := ListNodeExecutions (r_RunID to) (rn_store r2)).
  pose proof (fun id => changed_spec (r_RunID from) (r_RunID to) r nodes nodes' id (Hkf _ eq_refl)
    (fun n => list_quiet _ r r2 n Hq) (Hkt _ eq_refl) (fun n => list_quiet _ r r2 n Hq)) as Hch.
  assert (Hm : mayAccess ctx from) by by apply Ha. assert (Hm' : mayAccess ctx to) by by apply Hb.
  exists from, to. unfold diffOfRuns. cbn [fd_ChangedNodes fd_ChangedDomains fd_FromRunID fd_ToRunID]. fold nodes nodes'.
  set (a := latestNodeExecutionByNode nodes) in *. set (b := latestNodeExecutionByNode nodes') in *.
  rewrite changed_names. set (ids := sortStrings (elements (dom a ∪ dom b))). set (diffs := filter _ (_ <$> ids)).
  pose proof (changed_names a b ids) as Hnames. fold diffs in Hnames. set (names := filter _ ids) in *.
  assert (Hin : forall id, id ∈ names <-> ~ unchanged (r_RunID from) (r_RunID to) r id).
  { intros id. rewrite <- Hch, not_false_iff_true. unfold names. rewrite list_elem_of_filter. split; [by intros [? _]|].
    intros Hc. split; [done|]. unfold ids. rewrite sortStrings_in, elem_of_elements, elem_of_union, !elem_of_dom.
    destruct (a !! id) eqn:Ea; [left; by eexists|]. destruct (b !! id) eqn:Eb; [right; by eexists|]. discriminate Hc. }
  split_and!; [done..| | |exact Hin|].
  - apply NoDup_filter. unfold ids, sortStrings. rewrite merge_sort_Permutation. apply NoDup_elements.
  - apply Sorted_filter; [exact string_le_trans|]. apply Sorted_merge_sort. intros x y. apply string_le_total.
  - setoid_rewrite <- Hin. rewrite <- Hnames, !elem_of_app, !in_domain, negb_true_iff, bool_decide_eq_false. split.
    + intros [[_ ?]|[[_ ?]|[[_ ?]|[Hd _]]]]; [done..|]. destruct diffs as [|d diffs']; [done|]. exists (df_NodeID d). apply list_elem_of_here.
    + intros [id Hid]. right. right. right. split; [|done]. intros Hd. rewrite Hd in Hid. by apply elem_of_nil in Hid.
Qed.
End differences.
