(* ===== verification/RunWorkflowSpec.v ===== *)
(** * Sequential runs (properties of RunWorkflow.v)

    What the operations around a node leave alone, the chain of outputs of a run and how a run
    ends. *)
From S2P Require Import Prelude Storage Graph EngineStore FileStore Throttle Authz AuthzSpec Risk Tools ToolsSpec Runtime Governance.
From S2P Require Import CallContext Gateway AgentState Human Admission DagRun Routing SideEffects Lifecycle Evals WorkflowReleases.
From S2P Require Import SelfHealing RunWorkflow DagStore AdmissionSpec KVSpec LifecycleSpec ReplayBranchSpec.

(** [kept] along a function that passes the runner on: every call on the way is matched with a
    lemma of [kept], every other match is split. *)
Create HintDb kept discriminated.
#[local] Hint Constants Opaque : kept.
Ltac kept_call f x :=
  let Hk := fresh "Hk" in assert (Hk : kept x (fst f)) by (solve [auto with kept]);
  let r1 := fresh "r" in let res := fresh "res" in
  destruct f as [r1 res]; cbn [fst] in Hk; eapply kept_trans; [exact Hk|]; clear Hk.
Ltac kept_walk :=
  cbv zeta;
  repeat match goal with
  | |- kept ?x ?x => apply kept_refl
  | |- kept ?x (fst (?y, _)) => change (kept x y)
  | |- kept ?x (fst (match ?f with pair _ _ => _ end)) => first [kept_call f x | match f with match ?c with _ => _ end => destruct c end | destruct f]
  | |- kept ?x (match ?f with pair _ _ => _ end) => first [kept_call f x | match f with match ?c with _ => _ end => destruct c end | destruct f]
  | |- kept _ (fst (match ?c with _ => _ end)) => destruct c
  | |- kept _ (match ?c with _ => _ end) => destruct c
  | |- kept _ _ => solve [auto with kept]
  end.

Section keeping.
#[local] Set Default Proof Using "Type*".
Context {S F A : Type} `{Store S} `{!StoreLaws S} `{ArtifactStore A} `{Ambient} `{MapOrder} `{EngineJSON} `{JSONSyntax}.
Context `{ToolJSON} `{EffectJSON} `{EvalJSON} `{HealingJSON}.
Variable decodeSpec : bytes -> WorkflowSpec + error.
Variable decode : bytes -> option json.
Implicit Types r : Runner S F A.

Lemma put_kept {T} `{JSON T} k (v : T) r r0 : kept r r0 -> kept r (putJSONKV k v r0).1.
Proof. intros Hk. eapply kept_trans; [exact Hk|apply kept_putJSONKV]. Qed.
Lemma audit_kept ctx now rec r r0 : kept r r0 -> kept r (appendAuditRecord ctx now rec r0).
Proof. intros Hk. eapply kept_trans; [exact Hk|apply kept_audit]. Qed.
Lemma emit_kept now id ty wf n a p r r0 : kept r r0 -> kept r (emit now id ty wf n a p r0).
Proof. intros Hk. eapply kept_trans; [exact Hk|apply kept_emit]. Qed.
Lemma store_kept r r' : rn_store r' = rn_store r -> rn_canceled r' = rn_canceled r -> kept r r'.
Proof. intros E Ec. split; [by rewrite E|exact Ec]. Qed.
Lemma policy_kept b r r0 : kept r r0 -> kept r (set_rn_policyBundle b r0).
Proof. done. Qed.
Lemma gateway_kept b r r0 : kept r r0 -> kept r (set_rn_toolGateway b r0).
Proof. done. Qed.
Lemma risk_kept b r r0 : kept r r0 -> kept r (set_rn_riskPolicy b r0).
Proof. done. Qed.
Lemma brain_kept b r r0 : kept r r0 -> kept r (set_rn_brainPolicy b r0).
Proof. done. Qed.
#[local] Hint Resolve kept_refl put_kept audit_kept emit_kept policy_kept gateway_kept risk_kept brain_kept : kept.

Lemma upsertIndex_kept k id r : kept r (upsertIndexID k id r).1.
Proof. unfold upsertIndexID. kept_walk. Qed.
#[local] Hint Resolve upsertIndex_kept : kept.

(** ** The gates *)
Lemma authorize_kept ctx now runID (g : WorkflowGraph F) r : kept r (authorizeWorkflow ctx now runID g r).1.
Proof.
  unfold authorizeWorkflow, EvaluateWorkflowAuthorization.
  assert (kept r (GetAuthorizationPolicy r).1) as Hk by (unfold GetAuthorizationPolicy; kept_walk).
  destruct (GetAuthorizationPolicy r) as [r1 [b|err]]; [|exact Hk]. kept_walk.
Qed.
Lemma risk_gate_kept ctx now runID (g : WorkflowGraph F) input r : kept r (evaluateAndEnforceRisk decode ctx now runID g input r).1.
Proof.
  unfold evaluateAndEnforceRisk, EvaluateWorkflowRisk.
  assert (kept r (GetRiskPolicy r).1) as Hk by (unfold GetRiskPolicy; kept_walk).
  destruct (GetRiskPolicy r) as [r1 [p|err]]; [|exact Hk]. destruct (normalizeRiskPolicy _); kept_walk.
Qed.
Lemma quota_kept ctx now tenant runID wf r : kept r (enforceTenantRunQuota ctx now tenant runID wf r).1.
Proof. unfold enforceTenantRunQuota. kept_walk. Qed.

(** ** The tool gateway *)
Lemma bundle_kept now r : kept r (GetToolGatewayBundle now r).1.
Proof. unfold GetToolGatewayBundle. kept_walk. Qed.
#[local] Hint Resolve bundle_kept : kept.
Lemma toolPolicy_kept ctx now tool r : kept r (resolveToolPolicy ctx now tool r).1.
Proof. unfold resolveToolPolicy. kept_walk. Qed.
Lemma toolServer_kept ctx now p r : kept r (resolveToolServer ctx now p r).1.
Proof. unfold resolveToolServer. kept_walk. Qed.
Lemma toolAccess_kept ctx inv r : kept r (authorizeToolExecution ctx inv r).1.
Proof.
  unfold authorizeToolExecution. assert (kept r (GetAuthorizationPolicy r).1) as Hk by (unfold GetAuthorizationPolicy; kept_walk).
  destruct (GetAuthorizationPolicy r) as [r1 [b|err]]; [|exact Hk]. kept_walk.
Qed.
Lemma id_kept r r0 : kept r r0 -> kept r (set_rn_ids (Datatypes.S (rn_ids r0)) r0).
Proof. done. Qed.
#[local] Hint Resolve id_kept : kept.
Lemma toolCall_kept ctx now c r : kept r (saveToolCallRecord ctx now c r).
Proof. unfold saveToolCallRecord, NewTraceID. kept_walk. Qed.
Lemma logToolCall_kept ctx now inv server p input output allowed sandboxed dur err route r r0 :
  kept r r0 -> kept r (logToolCall ctx now inv server p input output allowed sandboxed dur err route r0).
Proof. intros Hk. unfold logToolCall. apply audit_kept. eapply kept_trans; [exact Hk|apply toolCall_kept]. Qed.
Lemma limit_kept l now n q r : kept r (decideLimit l now n q r).1.
Proof. unfold decideLimit. kept_walk. Qed.
#[local] Hint Resolve limit_kept logToolCall_kept : kept.
Lemma routes_kept ctx now b u n routes r : kept r (admittedRoutes ctx now b u n routes r).1.
Proof.
  revert n r. induction routes as [|x routes IH]; intros n r; cbn [admittedRoutes]; [done|].
  pose proof (fun n r r0 (Hk : kept r r0) => kept_trans _ _ _ Hk (IH n r0)) as IH'. clear IH.
  destruct (outOfScope _ _); [by apply IH'|]. destruct (negb _); [by apply IH'|]. destruct (RateLimiterFrom ctx) as [l|].
  - pose proof (limit_kept l now n (limitRequest (effectiveTenantFromContext ctx) x) r) as Hl.
    destruct (decideLimit _ _ _ _ r) as [r1 [d|err]]; [|exact Hl]. specialize (IH' (Datatypes.S n) r r1 Hl).
    destruct (admittedRoutes _ _ _ _ _ _ r1) as [r2 [xs|err]]; exact IH'.
  - specialize (IH' n r r (kept_refl r)). destruct (admittedRoutes _ _ _ _ _ _ r) as [r2 [xs|err]]; exact IH'.
Qed.
#[local] Hint Resolve routes_kept : kept.
Lemma candidates_kept ctx now inv p input r : kept r (adaptiveRouteCandidates ctx now inv p input r).1.
Proof. unfold adaptiveRouteCandidates. kept_walk. Qed.
Lemma brainPolicy_kept r : kept r (GetBrainPolicy r).1.
Proof. unfold GetBrainPolicy. kept_walk. Qed.
#[local] Hint Resolve candidates_kept brainPolicy_kept : kept.
Lemma brain_decision_kept ctx inv cs input ts r : kept r (evaluateBrainDecision ctx inv cs input ts r).1.
Proof. unfold evaluateBrainDecision. kept_walk. Qed.
#[local] Hint Resolve brain_decision_kept : kept.
Lemma route_kept ctx now inv p input r : kept r (selectAdaptiveRoute ctx now inv p input r).1.
Proof. unfold selectAdaptiveRoute. kept_walk. Qed.
#[local] Hint Resolve toolPolicy_kept toolServer_kept toolAccess_kept route_kept : kept.
Lemma tool_begin_kept ctx now inv input r : kept r (beginTool ctx now inv input r).1.
Proof. unfold beginTool. kept_walk. Qed.
Lemma receipt_kept now x r : kept r (saveSideEffectReceipt now x r).1.
Proof. unfold saveSideEffectReceipt, NewTraceID. kept_walk. Qed.
#[local] Hint Resolve receipt_kept : kept.
Lemma effect_end_kept now x outcome r : kept r (endSideEffect now x outcome r).1.
Proof. unfold endSideEffect. kept_walk. Qed.
#[local] Hint Resolve effect_end_kept : kept.
Lemma tool_end_kept now inv input pc outcome r : kept r (endTool now inv input pc outcome r).1.
Proof. unfold endTool. kept_walk. Qed.

(** ** The capture of a failed run *)
Lemma access_kept ctx now run action r : kept r (ensureRunTenantAccess ctx now run action r).1.
Proof. apply ensureAccess_spec. Qed.
Lemma dataset_kept now d r : kept r (SaveEvalDataset now d r).1.
Proof. unfold SaveEvalDataset. kept_walk. Qed.
#[local] Hint Resolve access_kept dataset_kept : kept.
Lemma ensureDataset_kept now id r : kept r (ensureSelfHealingEvalDataset now id r).1.
Proof. unfold ensureSelfHealingEvalDataset. kept_walk. Qed.
Lemma evalCase_kept now d c n id x r : kept r (CreateEvalCaseFromRun now d c n id x r).1.
Proof. unfold CreateEvalCaseFromRun. kept_walk. Qed.
Lemma saveHealing_kept now x r : kept r (saveSelfHealingArtifact now x r).1.
Proof. unfold saveSelfHealingArtifact. kept_walk. Qed.
Lemma getHealing_kept ctx now id r r0 : kept r r0 -> kept r (GetSelfHealingArtifact ctx now id r0).1.
Proof. intros Hk. eapply kept_trans; [exact Hk|]. unfold GetSelfHealingArtifact. kept_walk. Qed.
#[local] Hint Resolve ensureDataset_kept evalCase_kept saveHealing_kept getHealing_kept : kept.
Lemma capture_kept ctx now runID r : kept r (CaptureSelfHealingArtifact decodeSpec ctx now runID r).1.
Proof. unfold CaptureSelfHealingArtifact. kept_walk. Qed.
End keeping.

(** ** The chain of outputs *)
(** A store that accepts every well-formed record of a run it has. *)
Class Reliable (S : Type) `{Store S} : Prop := {
  reliable_run run s : validateRun run = None -> is_Some (GetRun (r_RunID run) s) -> (UpdateRun run s).2 = None;
  reliable_node ne s : validateNodeExecution ne = None -> is_Some (GetRun (n_RunID ne) s) -> (UpsertNodeExecution ne s).2 = None
}.
#[export] Instance MemoryStore_reliable `{MapOrder} : Reliable MemoryStore.
Proof.
  split; cbn [UpdateRun UpsertNodeExecution GetRun MemoryStore_Store].
  - intros run s Hv [x Hx]. unfold MemoryStore_UpdateRun. rewrite Hv, decide_False; [done|congruence].
  - intros ne s Hv [x Hx]. unfold MemoryStore_UpsertNodeExecution. rewrite Hv, decide_False; [done|congruence].
Qed.

Section sequence.
#[local] Set Default Proof Using "Type*".
Context {S F A : Type} `{Store S} `{!StoreLaws S} `{ArtifactStore A} `{Ambient} `{MapOrder} `{EngineJSON} `{JSONSyntax}.
Context `{ToolJSON} `{EffectJSON} `{EvalJSON} `{HealingJSON}.
Variable handler : HandlerCall F -> Runner S F A -> Runner S F A * (bytes * option NodeError).
Variable decodeSpec : bytes -> WorkflowSpec + error.
Variable decode : bytes -> option json.
Variable limiter : option (nat -> RateLimitRequest -> RateLimitDecision + error).
Variable world : nat -> StepWorld.
Variable runID : string.
(** The handlers leave the record and the executions of their own run to the runner. *)
Hypothesis handler_untouched : forall c r, untouched runID r (handler c r).1.
Implicit Types (r : Runner S F A) (node : NodeDef F).

Lemma untouched_refl r : untouched runID r r.
Proof using. done. Qed.
Lemma untouched_emit now id ty wf n a p r r0 : untouched runID r r0 -> untouched runID r (emit now id ty wf n a p r0).
Proof. intros Hu. eapply untouched_trans; [exact Hu|]. apply untouched_kept, kept_emit. Qed.
(** An accepted execution is stored, and nothing else of the run changes. *)
Lemma upsert_spec ne r : n_RunID ne = runID ->
  GetRun runID (rn_store (onStore (UpsertNodeExecution ne) r).1) = GetRun runID (rn_store r) /\
  forall n a, GetNodeExecution runID n a (rn_store (onStore (UpsertNodeExecution ne) r).1) =
    if decide ((onStore (UpsertNodeExecution ne) r).2 = None /\ n = n_NodeID ne /\ a = n_Attempt ne) then Some ne
    else GetNodeExecution runID n a (rn_store r).
Proof.
  intros Hid. destruct (onStore_store (UpsertNodeExecution ne) r) as (E&_&->). rewrite E. split; [apply law_node_runs|].
  intros n a. rewrite law_node_nodes. repeat case_decide; naive_solver.
Qed.
Lemma update_spec run r : r_RunID run = runID ->
  (forall n a, GetNodeExecution runID n a (rn_store (onStore (UpdateRun run) r).1) = GetNodeExecution runID n a (rn_store r)) /\
  GetRun runID (rn_store (onStore (UpdateRun run) r).1) =
    if decide ((onStore (UpdateRun run) r).2 = None) then Some run else GetRun runID (rn_store r).
Proof.
  intros Hid. destruct (onStore_store (UpdateRun run) r) as (E&_&->). rewrite E. split; [intros; apply law_run_nodes|].
  rewrite law_run_runs. repeat case_decide; naive_solver.
Qed.
Lemma call_untouched ctx w run node input r : untouched runID r (callNode handler limiter ctx w run node input r).1.
Proof.
  unfold callNode. case_decide.
  - pose proof (tool_begin_kept (nodeContext limiter ctx run node) (sw_Start w) (seqInvocation run node) input r) as Hb.
    destruct (beginTool _ _ _ _ r) as [r1 [pc|err]]; [|by apply untouched_kept].
    pose proof (handler_untouched (pc_call pc) r1) as Hh. destruct (handler _ r1) as [r2 o].
    pose proof (tool_end_kept (sw_End w) (seqInvocation run node) input pc o r2) as He. destruct (endTool _ _ _ _ _ r2) as [r3 res].
    eapply untouched_trans; [apply untouched_kept, Hb|]. eapply untouched_trans; [exact Hh|]. by apply untouched_kept.
  - destruct (nd_Run node) as [fn|]; [|done]. pose proof (handler_untouched (mkHandlerCall fn (nodeContext limiter ctx run node) input) r) as Hh.
    by destruct (handler _ r).
Qed.

(** The first nodes have succeeded, each on the output of the one before it, with these outputs. *)
Definition chained (nodes : list (NodeDef F)) (input : bytes) (outputs : list bytes) r : Prop :=
  forall i node out, nodes !! i = Some node -> outputs !! i = Some out ->
  exists ne, GetNodeExecution runID (NodeID node) 1 (rn_store r) = Some ne /\ n_Status ne = NodeStatusSucceeded /\
    (input :: outputs) !! i = Some (n_Input ne) /\ n_Output ne = out.
(** The executions of the run outside the first attempts of these nodes are as they were. *)
Definition beyond (nodes : list (NodeDef F)) r r' : Prop :=
  forall n a, n ∉ NodeID <$> nodes \/ a <> 1 -> GetNodeExecution runID n a (rn_store r') = GetNodeExecution runID n a (rn_store r).
Lemma beyond_untouched nodes r r' : untouched runID r r' -> beyond nodes r r'.
Proof using. intros [_ Hn] n a _. apply Hn. Qed.
Lemma beyond_trans nodes r1 r2 r3 : beyond nodes r1 r2 -> beyond nodes r2 r3 -> beyond nodes r1 r3.
Proof using. intros H1' H2' n a Hn. by rewrite H2', H1'. Qed.
Lemma beyond_more (ns ns' : list (NodeDef F)) r r' : ns ⊆ ns' -> beyond ns r r' -> beyond ns' r r'.
Proof using.
  intros Hs Hb n a Ho. apply Hb. destruct Ho as [Ho|Ho]; [left|by right]. intros (x&->&Hx)%list_elem_of_fmap.
  apply Ho, list_elem_of_fmap. exists x. auto.
Qed.
Lemma beyond_upsert node nodes ne r : n_RunID ne = runID -> n_NodeID ne = NodeID node -> n_Attempt ne = 1 -> node ∈ nodes ->
  beyond nodes r (onStore (UpsertNodeExecution ne) r).1.
Proof.
  intros Hr Hn Ha Hin n a Ho. destruct (upsert_spec ne r Hr) as [_ ->]. rewrite decide_False; [done|].
  intros (_&->&->). rewrite Hn, Ha in Ho. destruct Ho as [Ho|]; [|done]. apply Ho. by apply list_elem_of_fmap_2.
Qed.

(** How a run that was started ends; [i] nodes came before these. *)
Inductive settled (i : nat) (nodes : list (NodeDef F)) (input : bytes) (outputs : list bytes) r : SeqResult -> Prop :=
| settled_succeeded run : length outputs = length nodes -> GetRun runID (rn_store r) = Some run ->
    r_Status run = RunStatusSucceeded -> settled i nodes input outputs r (SeqReturned None)
| settled_failed run node ne : nodes !! length outputs = Some node ->
    GetNodeExecution runID (NodeID node) 1 (rn_store r) = Some ne -> n_Status ne = NodeStatusFailed ->
    last (input :: outputs) = Some (n_Input ne) -> GetRun runID (rn_store r) = Some run ->
    r_Status run = RunStatusFailed -> r_TerminalReason run = "node_failed" ->
    settled i nodes input outputs r (SeqReturned (Some ErrNodeFailed))
| settled_canceled run err : (length outputs < length nodes)%nat -> sw_Done (world (i + length outputs)) = Some err ->
    GetRun runID (rn_store r) = Some run -> r_Status run = RunStatusCanceled ->
    settled i nodes input outputs r (SeqReturned (Some err)).
Lemma settled_cons i node nodes input output outputs r res :
  settled (Datatypes.S i) nodes output outputs r res -> settled i (node :: nodes) input (output :: outputs) r res.
Proof using.
  intros [run Hl Hg Hs|run x ne Hx Hn Hf Hi Hg Hs Ht|run err Hl Hd Hg Hs].
  - eapply settled_succeeded; [cbn; lia|exact Hg|exact Hs].
  - eapply settled_failed; [exact Hx|exact Hn|exact Hf|exact Hi|exact Hg|exact Hs|exact Ht].
  - eapply settled_canceled; [cbn; lia| |exact Hg|exact Hs]. cbn [length]. by rewrite <- plus_n_Sm.
Qed.
Lemma chained_cons node nodes input output outputs ne r :
  GetNodeExecution runID (NodeID node) 1 (rn_store r) = Some ne -> n_Status ne = NodeStatusSucceeded ->
  n_Input ne = input -> n_Output ne = output -> chained nodes output outputs r ->
  chained (node :: nodes) input (output :: outputs) r.
Proof using.
  intros Hn Hs Hi Ho Hc [|i] x out; cbn.
  - intros [= <-] [= <-]. exists ne. split_and!; [exact Hn|exact Hs|by rewrite Hi|exact Ho].
  - intros Hx Hout. exact (Hc i x out Hx Hout).
Qed.

(** Nodes and runs whose records are well-formed; the nodes do not panic. *)
Definition sound (run : Run) (nodes : list (NodeDef F)) : Prop :=
  runID <> "" /\ r_WorkflowID run <> "" /\
  Forall (fun node => NodeID node <> "" /\ (TrimSpace (nd_Topic node) = "" -> is_Some (nd_Run node))) nodes.
Lemma exec_accepted `{!Reliable S} run node nodes status w1 w2 input output err r :
  sound run (node :: nodes) -> r_RunID run = runID -> statusValid status = true -> is_Some (GetRun runID (rn_store r)) ->
  (onStore (UpsertNodeExecution (seqExec run node status w1 w2 input output err)) r).2 = None.
Proof.
  intros (Hr&Hw&Hn) Hid Hs Hg. apply Forall_cons_1 in Hn as [[Hn _] _].
  destruct (onStore_store (UpsertNodeExecution (seqExec run node status w1 w2 input output err)) r) as (_&_&->).
  apply reliable_node; [|unfold seqExec; cbn; by rewrite Hid].
  unfold validateNodeExecution, seqExec. cbn. rewrite Hid, !decide_False by done. by rewrite Hs.
Qed.
Lemma run_accepted `{!Reliable S} run status reason meta ended nodes r :
  sound run nodes -> r_RunID run = runID -> statusValid status = true -> is_Some (GetRun runID (rn_store r)) ->
  (onStore (UpdateRun (endedRun status reason meta ended run)) r).2 = None.
Proof.
  intros (Hr&Hw&_) Hid Hs Hg. destruct (onStore_store (UpdateRun (endedRun status reason meta ended run)) r) as (_&_&->).
  apply reliable_run; [|unfold endedRun; cbn; by rewrite Hid].
  unfold validateRun, endedRun. cbn. rewrite Hid, !decide_False by done. by rewrite Hs.
Qed.
Lemma fail_spec ctx w run node nodes input e r :
  r_RunID run = runID ->
  let r' := failSequential decodeSpec ctx w run node input e r in
  beyond [node] r r' /\
  (Reliable S -> sound run (node :: nodes) -> is_Some (GetRun runID (rn_store r)) -> forall i, settled i (node :: nodes) input [] r' (SeqReturned (Some ErrNodeFailed))).
Proof.
  intros Hid. unfold failSequential, try. set (ne := seqExec run node NodeStatusFailed _ _ _ _ _).
  set (meta := match marshal _ with inl b => b | inr _ => _ end). cbv zeta.
  destruct (upsert_spec ne r Hid) as [Hg1 Hn1]. pose proof (beyond_upsert node [node] ne r Hid eq_refl eq_refl (list_elem_of_here _ _)) as Hb1.
  destruct (onStore (UpsertNodeExecution ne) r) as [r1 e1] eqn:E1. cbn [fst snd] in *.
  set (r2 := emit _ _ EventNodeFailed _ _ _ _ r1). pose proof (untouched_emit (sw_End w) (r_RunID run) EventNodeFailed (r_WorkflowID run) (NodeID node) 1
    (marshalOrNil (JObject [("error", JString (nodeErrorText e))])) r1 r1 (untouched_refl r1)) as Hu2. fold r2 in Hu2.
  set (run' := endedRun RunStatusFailed "node_failed" meta (sw_End w) run). destruct (update_spec run' r2 Hid) as [Hn3 Hg3].
  destruct (onStore (UpdateRun run') r2) as [r3 e3] eqn:E3. cbn [fst snd] in *.
  set (r4 := emit _ _ EventRunFinished _ _ _ _ r3). set (r' := maybeCaptureSelfHealingArtifact _ _ _ _ r4).
  assert (Hu4 : untouched runID r3 r').
  { eapply untouched_trans; [apply untouched_emit, untouched_refl|]. apply untouched_kept, capture_kept. }
  split.
  - eapply beyond_trans; [exact Hb1|]. eapply beyond_trans; [apply beyond_untouched, Hu2|].
    eapply beyond_trans; [|apply beyond_untouched, Hu4]. intros n a _. apply Hn3.
  - intros Hrel Hs Hg i. pose proof (exec_accepted run node nodes NodeStatusFailed (sw_Start w) (Some (sw_End w)) input [] (nodeErrorText e) r Hs Hid eq_refl Hg) as Ha.
    fold ne in Ha. rewrite E1 in Ha. cbn in Ha.
    assert (is_Some (GetRun runID (rn_store r2))) as Hg2 by (destruct Hu2 as [-> _]; by rewrite Hg1).
    pose proof (run_accepted run RunStatusFailed "node_failed" meta (sw_End w) (node :: nodes) r2 Hs Hid eq_refl Hg2) as Hu.
    fold run' in Hu. rewrite E3 in Hu. cbn in Hu. destruct Hu4 as [Hg4 Hn4]. apply (settled_failed i _ _ _ _ run' node ne); try done.
    + rewrite Hn4, Hn3. destruct Hu2 as [_ ->]. rewrite Hn1. by rewrite decide_True.
    + by rewrite Hg4, Hg3, decide_True.
Qed.
Lemma cancel_spec w run r : r_RunID run = runID ->
  let r' := cancelSequential w run r in
  (forall n a, GetNodeExecution runID n a (rn_store r') = GetNodeExecution runID n a (rn_store r)) /\
  (Reliable S -> sound run [] -> is_Some (GetRun runID (rn_store r)) ->
   exists run', GetRun runID (rn_store r') = Some run' /\ r_Status run' = RunStatusCanceled).
Proof.
  intros Hid. unfold cancelSequential, try. set (run' := endedRun _ _ _ _ run). cbv zeta.
  destruct (update_spec run' r Hid) as [Hn1 Hg1]. destruct (onStore (UpdateRun run') r) as [r1 e1] eqn:E1. cbn [fst snd] in *.
  destruct (untouched_emit (sw_Start w) (r_RunID run) EventRunFinished (r_WorkflowID run) "" 0 canceledPayload r1 r1 (untouched_refl r1)) as [Hg2 Hn2].
  split; [intros n a; by rewrite Hn2|]. intros Hrel Hs Hg. exists run'. split; [|done].
  pose proof (run_accepted run RunStatusCanceled (r_TerminalReason run) (r_TerminalMeta run) (sw_Start w) [] r Hs Hid eq_refl Hg) as Hu.
  fold run' in Hu. rewrite E1 in Hu. cbn in Hu. by rewrite Hg2, Hg1, decide_True.
Qed.
Lemma finish_spec w run r r' res : r_RunID run = runID -> finishSequential w run r = (r', res) ->
  (forall n a, GetNodeExecution runID n a (rn_store r') = GetNodeExecution runID n a (rn_store r)) /\
  (res = SeqReturned None -> exists run', GetRun runID (rn_store r') = Some run' /\ r_Status run' = RunStatusSucceeded) /\
  (Reliable S -> sound run [] -> is_Some (GetRun runID (rn_store r)) -> res = SeqReturned None).
Proof.
  intros Hid. unfold finishSequential. set (run' := endedRun _ _ _ _ run).
  destruct (update_spec run' r Hid) as [Hn1 Hg1]. destruct (onStore (UpdateRun run') r) as [r1 e1] eqn:E1. cbn [fst snd] in *.
  assert (Reliable S -> sound run [] -> is_Some (GetRun runID (rn_store r)) -> e1 = None) as Hacc.
  { intros Hrel Hs Hg. pose proof (run_accepted run RunStatusSucceeded "" [] (sw_End w) [] r Hs Hid eq_refl Hg) as Hu.
    fold run' in Hu. by rewrite E1 in Hu. }
  destruct e1 as [err|]; intros [= <- <-].
  - split; [exact Hn1|]. split; [done|]. intros Hrel Hs Hg. by specialize (Hacc Hrel Hs Hg).
  - match goal with |- context [emit ?a ?b ?c ?d ?e ?f ?g r1] =>
      destruct (untouched_emit a b c d e f g r1 r1 (untouched_refl r1)) as [Hg2 Hn2] end.
    split; [intros n a; by rewrite Hn2|]. split; [|done]. intros _. exists run'. by rewrite Hg2, Hg1.
Qed.

Lemma call_panics ctx w run node input r r1 :
  callNode handler limiter ctx w run node input r = (r1, None) -> TrimSpace (nd_Topic node) = "" /\ nd_Run node = None.
Proof using.
  unfold callNode. case_decide as Ht.
  - destruct (beginTool _ _ _ _ r) as [r2 [pc|err]]; [|done]. destruct (handler _ r2) as [r3 o]. by destruct (endTool _ _ _ _ _ r3).
  - destruct (nd_Run node) as [fn|]; [by destruct (handler _ r)|done].
Qed.
Lemma sound_nil run nodes : sound run nodes -> sound run [].
Proof using. intros (?&?&_). by split_and!. Qed.
(** What follows a handler that has succeeded. *)
Lemma node_done i run node nodes input output r r3 r' res :
  (match onStore (UpsertNodeExecution
             (seqExec run node NodeStatusSucceeded (sw_Start (world i)) (Some (sw_End (world i))) input output "")) r3 with
   | (r, Some err) => (r, inr (SeqReturned (Some err)))
   | (r, None) => (emit (sw_End (world i)) (r_RunID run) EventNodeFinished (r_WorkflowID run) (NodeID node) 1
                     (marshalOrNil ({["output" := output]} : gmap string bytes)) r, inl output)
   end) = (r', res) ->
  r_RunID run = runID -> beyond [node] r r3 -> GetRun runID (rn_store r3) = GetRun runID (rn_store r) ->
  beyond [node] r r' /\
  match res with
  | inl output => GetRun runID (rn_store r') = GetRun runID (rn_store r) /\
      exists ne, GetNodeExecution runID (NodeID node) 1 (rn_store r') = Some ne /\ n_Status ne = NodeStatusSucceeded /\
        n_Input ne = input /\ n_Output ne = output
  | inr res => res <> SeqReturned None /\
      (Reliable S -> sound run (node :: nodes) -> is_Some (GetRun runID (rn_store r)) ->
       settled i (node :: nodes) input [] r' res)
  end.
Proof.
  set (ne := seqExec run node _ _ _ _ _ _). intros E Hid Hb3 Hg3. destruct (upsert_spec ne r3 Hid) as [Hg4 Hn4].
  pose proof (beyond_upsert node [node] ne r3 Hid eq_refl eq_refl (list_elem_of_here _ _)) as Hb4.
  pose proof (fun Hr Hs Hg => exec_accepted (Reliable0 := Hr) run node nodes NodeStatusSucceeded (sw_Start (world i))
    (Some (sw_End (world i))) input output "" r3 Hs Hid eq_refl Hg) as Ha4. fold ne in Ha4.
  pose proof (beyond_trans _ _ _ _ Hb3 Hb4) as Hb.
  destruct (onStore (UpsertNodeExecution ne) r3) as [r4 [err|]]; cbn [fst snd] in *; injection E as <- <-.
  - split; [exact Hb|]. split; [done|]. intros Hr Hs Hg. rewrite Hg3 in Ha4. by specialize (Ha4 Hr Hs Hg).
  - match goal with |- context [emit ?a ?b ?c ?d ?e ?f ?g r4] =>
      destruct (untouched_emit a b c d e f g r4 r4 (untouched_refl r4)) as [Hg5 Hn5] end.
    split; [eapply beyond_trans; [exact Hb|]; intros n a _; apply Hn5|]. split; [by rewrite Hg5, Hg4|].
    exists ne. rewrite Hn5, Hn4. by rewrite decide_True.
Qed.
Lemma runNode_spec ctx run i node nodes input r r' res :
  runNode handler decodeSpec limiter ctx (world i) run node input r = (r', res) -> r_RunID run = runID ->
  beyond [node] r r' /\
  match res with
  | inl output => GetRun runID (rn_store r') = GetRun runID (rn_store r) /\
      exists ne, GetNodeExecution runID (NodeID node) 1 (rn_store r') = Some ne /\ n_Status ne = NodeStatusSucceeded /\
        n_Input ne = input /\ n_Output ne = output
  | inr res => res <> SeqReturned None /\
      (Reliable S -> sound run (node :: nodes) -> is_Some (GetRun runID (rn_store r)) ->
       settled i (node :: nodes) input [] r' res)
  end.
Proof.
  intros E Hid. unfold runNode in E. destruct (sw_Done (world i)) as [err|] eqn:Ed.
  { injection E as <- <-. destruct (cancel_spec (world i) run r Hid) as [Hn Hc]. split; [intros n a _; apply Hn|]. split; [done|].
    intros Hr Hs Hg. destruct (Hc Hr (sound_nil _ _ Hs) Hg) as (run'&Hrun&Hst).
    eapply settled_canceled; [cbn; lia|by rewrite Nat.add_0_r|exact Hrun|exact Hst]. }
  set (ne := seqExec run node NodeStatusRunning _ _ _ _ _) in E. destruct (upsert_spec ne r Hid) as [Hg1 _].
  pose proof (beyond_upsert node [node] ne r Hid eq_refl eq_refl (list_elem_of_here _ _)) as Hb1.
  pose proof (fun Hr Hs Hg => exec_accepted (Reliable0 := Hr) run node nodes NodeStatusRunning (sw_Start (world i)) None input [] "" r Hs Hid eq_refl Hg) as Ha1.
  fold ne in Ha1. destruct (onStore (UpsertNodeExecution ne) r) as [r1 [err|]]; cbn [fst snd] in *.
  { injection E as <- <-. split; [exact Hb1|]. split; [done|]. intros Hr Hs Hg. by specialize (Ha1 Hr Hs Hg). }
  clear Ha1 ne. set (r2 := emit _ _ EventNodeStarted _ _ _ _ r1) in E.
  assert (Hu2 : untouched runID r1 r2) by apply untouched_emit, untouched_refl. clearbody r2.
  pose proof (call_untouched ctx (world i) run node input r2) as Hu3. pose proof (call_panics ctx (world i) run node input r2) as Hp.
  destruct (callNode _ _ _ _ _ _ _ r2) as [r3 o]; cbn [fst] in Hu3. pose proof (untouched_trans _ _ _ _ Hu2 Hu3) as Hu.
  assert (Hb3 : beyond [node] r r3) by (eapply beyond_trans; [exact Hb1|apply beyond_untouched, Hu]).
  assert (Hg3 : GetRun runID (rn_store r3) = GetRun runID (rn_store r)) by (destruct Hu as [-> _]; exact Hg1).
  clear r1 r2 Hu Hu2 Hu3 Hg1 Hb1. destruct o as [[output [e|]]|].
  - injection E as <- <-. destruct (fail_spec ctx (world i) run node nodes input e r3 Hid) as [Hb4 Hset].
    split; [by eapply beyond_trans|]. split; [done|]. intros Hr Hs Hg. apply Hset; [exact Hr|exact Hs|by rewrite Hg3].
  - by apply (node_done i run node nodes input output r r3 r' res).
  - injection E as <- <-. split; [exact Hb3|]. split; [done|].
    intros Hr (_&_&Hs) Hg. apply Forall_cons_1 in Hs as [[_ Hs] _]. destruct (Hp r3 eq_refl) as [Ht Hn].
    rewrite Hn in Hs. by destruct (Hs Ht).
Qed.
Lemma runNodes_spec ctx run i nodes input r r' res :
  runNodes handler decodeSpec limiter world ctx run i nodes input r = (r', res) ->
  r_RunID run = runID -> NoDup (NodeID <$> nodes) ->
  exists outputs, (length outputs <= length nodes)%nat /\ chained nodes input outputs r' /\
    beyond (take (Datatypes.S (length outputs)) nodes) r r' /\
    (res = SeqReturned None -> length outputs = length nodes /\
       exists run', GetRun runID (rn_store r') = Some run' /\ r_Status run' = RunStatusSucceeded) /\
    (Reliable S -> sound run nodes -> is_Some (GetRun runID (rn_store r)) -> settled i nodes input outputs r' res).
Proof.
  revert i input r. induction nodes as [|node nodes IH]; intros i input r E Hid Hnd; cbn [runNodes] in E.
  - destruct (finish_spec _ _ _ _ _ Hid E) as (Hn&Hok&Hrel). exists []. split_and!; [done|by intros ? ? ? ?| |by auto|].
    + intros n a _. apply Hn.
    + intros Hr Hs Hg. specialize (Hrel Hr Hs Hg). destruct (Hok Hrel) as (run'&Hrun&Hst). rewrite Hrel.
      by eapply settled_succeeded.
  - apply NoDup_cons_1_1 in Hnd as Hnode. apply NoDup_cons_1_2 in Hnd.
    destruct (runNode _ _ _ _ _ _ _ _ r) as [r1 [output|res1]] eqn:E1;
      destruct (runNode_spec ctx run i node nodes input r r1 _ E1 Hid) as [Hb1 Hspec].
    + destruct Hspec as (Hg1&ne&Hne&Hst&Hin&Hout). destruct (IH _ _ _ E Hid Hnd) as (outputs&Hl&Hc&Hb&Hok&Hset).
      exists (output :: outputs). split_and!.
      * cbn. lia.
      * apply (chained_cons _ _ _ _ _ ne); [|done..]. rewrite Hb; [exact Hne|]. left. intros (x&Hx&Hi)%list_elem_of_fmap.
        apply Hnode. rewrite Hx. apply list_elem_of_fmap_2. by eapply elem_of_take in Hi as (?&?%list_elem_of_lookup_2&_).
      * eapply beyond_trans; [eapply beyond_more; [|exact Hb1]|eapply beyond_more; [|exact Hb]].
        -- intros x ->%list_elem_of_singleton. apply list_elem_of_here.
        -- intros x Hx. by apply list_elem_of_further.
      * intros Hres. destruct (Hok Hres) as [Hlen Hrun]. split; [cbn; by rewrite Hlen|exact Hrun].
      * intros Hr (Hs1&Hs2&Hs3) Hg. apply settled_cons, Hset; [exact Hr| |by rewrite Hg1].
        apply Forall_cons_1 in Hs3 as [_ Hs3]. by split_and!.
    + injection E as <- <-. destruct Hspec as [Hne Hset]. exists []. split_and!; [cbn; lia|by intros ? ? ? ?|exact Hb1|done|exact Hset].
Qed.

(** ** The whole run *)
Lemma queue_spec now tenant (wf : Workflow F) rep r r' res :
  queueSequential now runID tenant wf rep r = (r', res) ->
  match res with
  | inr _ => untouched runID r r'
  | inl run => r_RunID run = runID /\ r_WorkflowID run = wf_WorkflowID wf /\ GetRun runID (rn_store r) = None /\
      is_Some (GetRun runID (rn_store r')) /\ forall n a, GetNodeExecution runID n a (rn_store r') = GetNodeExecution runID n a (rn_store r)
  end.
Proof.
  unfold queueSequential. set (run := mkRun runID _ _ _ _ _ _ _ _ _ _ _). intros E.
  destruct (onStore_store (CreateRun run) r) as (Es&_&Ee). pose proof (law_create_runs run (rn_store r) runID) as Hr.
  pose proof (fun n a => law_create_nodes run (rn_store r) runID n a) as Hn. pose proof (law_create_fresh run (rn_store r)) as Hf.
  rewrite <- Es, <- Ee in Hr. rewrite <- Es in Hn. rewrite <- Ee in Hf. clear Es Ee.
  destruct (onStore (CreateRun run) r) as [r1 [err|]]; cbn [fst snd] in *; injection E as <- <-.
  - rewrite decide_False in Hr by (by intros [? _]). split; [exact Hr|exact Hn].
  - rewrite decide_True in Hr by done. assert (forall r2, untouched runID r1 r2 ->
      r_RunID run = runID /\ r_WorkflowID run = wf_WorkflowID wf /\ GetRun runID (rn_store r) = None /\
      is_Some (GetRun runID (rn_store r2)) /\ forall n a, GetNodeExecution runID n a (rn_store r2) = GetNodeExecution runID n a (rn_store r)) as Hall.
    { intros r2 [Hg2 Hn2]. split_and!; [done|done|by apply Hf|rewrite Hg2, Hr; eauto|]. intros n a. by rewrite Hn2, Hn. }
    apply Hall. destruct (marshal rep); repeat apply untouched_emit; apply untouched_refl.
Qed.
Lemma start_spec now run r r' res : r_RunID run = runID -> startSequential now run r = (r', res) ->
  (forall n a, GetNodeExecution runID n a (rn_store r') = GetNodeExecution runID n a (rn_store r)) /\
  (is_Some (GetRun runID (rn_store r)) -> is_Some (GetRun runID (rn_store r'))) /\
  match res with
  | inl run' => r_RunID run' = runID /\ r_WorkflowID run' = r_WorkflowID run
  | inr _ => Reliable S -> sound run [] -> is_Some (GetRun runID (rn_store r)) -> False
  end.
Proof.
  intros Hid. unfold startSequential. set (run' := mkRun _ _ _ _ _ _ _ _ _ _ _ _). intros E.
  destruct (update_spec run' r Hid) as [Hn Hg]. destruct (onStore_store (UpdateRun run') r) as (_&_&Ee).
  destruct (onStore (UpdateRun run') r) as [r1 [err|]]; cbn [fst snd] in *; injection E as <- <-.
  - split_and!; [exact Hn|by rewrite Hg|]. intros Hr (Hs1&Hs2&_) Hsome. symmetry in Ee. rewrite reliable_run in Ee; [done| |by cbn; rewrite Hid].
    unfold validateRun, run'. cbn. by rewrite Hid, !decide_False.
  - match goal with |- context [emit ?a ?b ?c ?d ?e ?f ?g r1] =>
      destruct (untouched_emit a b c d e f g r1 r1 (untouched_refl r1)) as [Hg2 Hn2] end.
    split_and!; [intros n a; by rewrite Hn2|rewrite Hg2, Hg; eauto|exact Hid|done].
Qed.
(** How a sequential run goes: it is refused with nothing of it stored, or it is new and its
    nodes ran as far as [outputs] says. *)
Lemma run_spec ctx now (wf : Workflow F) input r r' res :
  RunWorkflow handler decodeSpec decode limiter world ctx now runID wf input r = (r', res) -> NoDup (NodeID <$> wf_Nodes wf) ->
  (untouched runID r r' /\ exists err, res = SeqReturned (Some err)) \/
  GetRun runID (rn_store r) = None /\
  exists outputs, (length outputs <= length (wf_Nodes wf))%nat /\ chained (wf_Nodes wf) input outputs r' /\
    beyond (take (Datatypes.S (length outputs)) (wf_Nodes wf)) r r' /\
    (res = SeqReturned None -> length outputs = length (wf_Nodes wf) /\
       exists run, GetRun runID (rn_store r') = Some run /\ r_Status run = RunStatusSucceeded) /\
    (Reliable S -> runID <> "" -> wf_WorkflowID wf <> "" ->
     Forall (fun node => NodeID node <> "" /\ (TrimSpace (nd_Topic node) = "" -> is_Some (nd_Run node))) (wf_Nodes wf) ->
     settled 0 (wf_Nodes wf) input outputs r' res).
Proof.
  unfold RunWorkflow. intros E Hnd.
  assert (Hu0 : untouched runID r (traced ctx r).2) by (unfold traced; case_decide; done).
  destruct (traced ctx r) as [ctx' r0]. cbn [snd] in Hu0. set (g := graphOfWorkflow wf) in E.
  pose proof (authorize_kept ctx' now runID g r0) as H1'. destruct (authorizeWorkflow ctx' now runID g r0) as [r1 [arep|err]].
  2: { injection E as <- <-. left. split; [|by eexists]. eapply untouched_trans; [exact Hu0|]. by apply untouched_kept. }
  pose proof (risk_gate_kept decode ctx' now runID g input r1) as H2'. destruct (evaluateAndEnforceRisk decode ctx' now runID g input r1) as [r2 [rep|err]].
  2: { injection E as <- <-. left. split; [|by eexists]. eapply untouched_trans; [exact Hu0|]. apply untouched_kept. by eapply kept_trans. }
  pose proof (kept_trans _ _ _ H1' H2') as Hk. cbn [fst] in Hk. clear H1' H2'.
  destruct (negb (wk_Allowed rep)).
  { injection E as <- <-. left. split; [|by eexists]. eapply untouched_trans; [exact Hu0|]. by apply untouched_kept. }
  set (tenant := effectiveTenantFromContext ctx') in E.
  pose proof (quota_kept ctx' now tenant runID (wf_WorkflowID wf) r2) as H3'.
  destruct (enforceTenantRunQuota ctx' now tenant runID (wf_WorkflowID wf) r2) as [r3 qerr]. cbn [fst] in H3'.
  pose proof (untouched_trans _ _ _ _ Hu0 (untouched_kept _ _ _ (kept_trans _ _ _ Hk H3'))) as Hu. clear Hu0 Hk H3'.
  destruct qerr as [err|]; [injection E as <- <-; left; split; [exact Hu|by eexists]|].
  destruct (queueSequential now runID tenant wf rep r3) as [r4 [run|err]] eqn:Eq; pose proof (queue_spec _ _ _ _ _ _ _ Eq) as Hq.
  2: { injection E as <- <-. left. split; [by eapply untouched_trans|by eexists]. }
  destruct Hq as (Hid&Hw&Hfresh&Hsome&Hn). destruct Hu as [Hg3 Hn3]. right. split; [by rewrite <- Hg3|].
  assert (Hb : forall r'', (forall n a, GetNodeExecution runID n a (rn_store r'') = GetNodeExecution runID n a (rn_store r4)) ->
    forall nodes, beyond nodes r r'') by (intros r'' Hr'' ns n b _; by rewrite Hr'', Hn, Hn3).
  destruct (startSequential now run r4) as [r5 [run'|err]] eqn:Es; destruct (start_spec _ _ _ _ _ Hid Es) as (Hn5&Hs5&Hres).
  - destruct Hres as [Hid' Hw']. destruct (runNodes_spec _ _ _ _ _ _ _ _ E Hid' Hnd) as (outputs&Hl&Hc&Hbo&Hok&Hset).
    exists outputs. split_and!; [exact Hl|exact Hc|eapply beyond_trans; [by apply Hb|exact Hbo]|exact Hok|].
    intros Hr Hr1 Hr2 Hr3. apply Hset; [exact Hr| |by apply Hs5]. split_and!; [exact Hr1|congruence|exact Hr3].
  - injection E as <- <-. exists []. split_and!; [cbn; lia|by intros ? ? ? ?|by apply Hb|done|].
    intros Hr Hr1 Hr2 _. exfalso. apply Hres; [exact Hr| |exact Hsome]. split_and!; [exact Hr1|congruence|constructor].
Qed.

(** C19: A sequential run feeds every node the output of the one before it.  Whatever
    the store refuses: a run that is refused leaves nothing of itself; of any other, the nodes that
    succeeded are a first part of the workflow, each stored with the output of its predecessor as
    its input, at most one node after them was tried, and the run is reported to have succeeded
    only when that part is the whole workflow and the run is stored as succeeded. *)
Theorem RunWorkflow_chain ctx now (wf : Workflow F) input r r' res :
  RunWorkflow handler decodeSpec decode limiter world ctx now runID wf input r = (r', res) -> NoDup (NodeID <$> wf_Nodes wf) ->
  (untouched runID r r' /\ res <> SeqReturned None) \/
  exists outputs, (length outputs <= length (wf_Nodes wf))%nat /\ chained (wf_Nodes wf) input outputs r' /\
    (forall i node a, wf_Nodes wf !! i = Some node -> (length outputs < i)%nat ->
       GetNodeExecution runID (NodeID node) a (rn_store r') = GetNodeExecution runID (NodeID node) a (rn_store r)) /\
    (res = SeqReturned None -> length outputs = length (wf_Nodes wf) /\
       exists run, GetRun runID (rn_store r') = Some run /\ r_Status run = RunStatusSucceeded).
Proof.
  intros E Hnd. destruct (run_spec _ _ _ _ _ _ _ E Hnd) as [[Hu [err ->]]|(_&outputs&Hl&Hc&Hb&Hok&_)]; [by left|right].
  exists outputs. split_and!; [exact Hl|exact Hc| |exact Hok]. intros i node a Hi Hlt. apply Hb. left.
  intros (x&Hx&Hin)%list_elem_of_fmap. apply elem_of_take in Hin as (j&Hj&Hlj).
  assert (i = j); [|lia]. apply (NoDup_lookup _ _ _ (NodeID node) Hnd); rewrite list_lookup_fmap; [by rewrite Hi|by rewrite Hj, Hx].
Qed.
(** C14: A sequential run that was accepted settles, provided that the store accepts every well-formed
    record of a run it holds, the run and the workflow have names, its nodes have names that differ and
    a handler or a topic each (nothing checks that before the run starts: [sequential_run_left_open] of
    BranchScenario.v), and no handler touches the record of the run itself.  The run is then stored
    as succeeded with every node done, as failed with the node that failed stored next to
    what it was given, or as cancelled where the context of the caller was done, and the error returned says
    which; a run that was refused has left the runs as they were and returns an error. *)
Theorem RunWorkflow_settles `{!Reliable S} ctx now (wf : Workflow F) input r r' res :
  RunWorkflow handler decodeSpec decode limiter world ctx now runID wf input r = (r', res) -> NoDup (NodeID <$> wf_Nodes wf) ->
  runID <> "" -> wf_WorkflowID wf <> "" ->
  Forall (fun node => NodeID node <> "" /\ (TrimSpace (nd_Topic node) = "" -> is_Some (nd_Run node))) (wf_Nodes wf) ->
  (untouched runID r r' /\ res <> SeqReturned None) \/
  exists outputs, settled 0 (wf_Nodes wf) input outputs r' res /\ chained (wf_Nodes wf) input outputs r'.
Proof.
  intros E Hnd Hr1 Hr2 Hr3. destruct (run_spec _ _ _ _ _ _ _ E Hnd) as [[Hu [err ->]]|(_&outputs&_&Hc&_&_&Hset)]; [by left|right].
  exists outputs. split; [by apply Hset|exact Hc].
Qed.
End sequence.
