(* ===== verification/BranchScenario.v ===== *)
(** * Concrete branches, sequential runs, captures and comparisons

    A run of two nodes, one after the other, branches of it, captures of runs that have failed and
    sequential runs; on them the properties are instantiated and findings shown.  Running a branch
    is cut short where that is enough: the run is created, or its start is that of the graph runner. *)
From S2P Require Import Prelude Storage Graph EngineStore FileStore Throttle Authz Risk Tools Runtime Governance CallContext.
From S2P Require Import AgentState Human Admission DagRun DagStore Routing SideEffects Lifecycle Evals ReplayBranches.
From S2P Require Import Gateway Evals WorkflowReleases SelfHealing RunWorkflow Forensics.
From S2P Require Import AdmissionSpec KVSpec LifecycleSpec ReplayBranchSpec RecoverySpec RunWorkflowSpec ToolScenario ReleaseScenario.
From Stdlib Require Import Init.Byte.

Definition branchStrings (x : ReplayBranchRecord) : list string :=
  [rb_ID x; numberText (rb_CreatedAt x); numberText (rb_UpdatedAt x); rb_TenantID x; rb_RootRunID x; rb_SourceRunID x;
   rb_BranchRunID x; rb_BranchName x; rb_BaseWorkflowID x; rb_BranchWorkflowID x; rb_FromStep x; rb_Mode x;
   rb_SideEffectMode x; flag (rb_SpecOverrideApplied x); flag (rb_InitialInputOverrideApplied x); rb_RunStatus x;
   rb_TerminalReason x].
Definition branchOf (l : list string) : ReplayBranchRecord :=
  mkBranch (nth 0 l "") (textNumber (nth 1 l "")) (textNumber (nth 2 l "")) (nth 3 l "") (nth 4 l "") (nth 5 l "")
    (nth 6 l "") (nth 7 l "") (nth 8 l "") (nth 9 l "") (nth 10 l "") (nth 11 l "") (nth 12 l "")
    (bool_decide (nth 13 l "" = "true")) (bool_decide (nth 14 l "" = "true")) (nth 15 l "") (nth 16 l "").
#[export] Instance scenarioBranchJSON : BranchJSON := Build_BranchJSON (strings branchStrings branchOf).
#[export] Instance branchEngineJSON : EngineJSON :=
  Build_EngineJSON listJSON noJSON noJSON noJSON noJSON noJSON noJSON noJSON noJSON (@json_any toolEngineJSON) noJSON (fun _ => "0") (fun _ => "").
#[export] Instance branchIndexLaws : IndexLaws := listLaws.
#[export] Instance scenarioBranchLaws : BranchLaws.
Proof.
  refine {| branchText := fun _ => True |}; [done|].
  intros x b _ E%strings_round. etransitivity; [exact E|]. destruct x as [? ? ? ? ? ? ? ? ? ? ? ? ? [] [] ? ?];
    unfold branchOf, branchStrings; cbn [nth]; by rewrite !textNumber_numberText.
Defined.

(** ** A run and its branches *)
(** Two nodes, the second after the first; the specification is the name of the workflow. *)
Definition twoNodes (b : bytes) : WorkflowSpec + error :=
  inl (mkSpec (toString b) [mkNodeSpec "a" "work" "" None [] [] [] (mkSpecRetry 0);
                            mkNodeSpec "b" "work" "" None ["a"] [] [] (mkSpecRetry 0)]).
Definition sourceRun (status : string) : Run :=
  mkRun "run-1" "wf" status (Some 1) None (fromString "wf") (fromString "in") "" "" [] noBudget noUsage.
Definition finishedNode (n : string) (out : bytes) : NodeExecution :=
  mkNodeExec "run-1" "wf" n 1 NodeStatusSucceeded (Some 1) (Some 2) [] out "".
Definition sourceRunner (status : string) : toolRunner :=
  let s := (CreateRun (sourceRun status) NewMemoryStore).1 in
  let s := (UpsertNodeExecution (finishedNode "a" [x61]) s).1 in
  let s := (UpsertNodeExecution (finishedNode "b" [x62]) s).1 in
  set_rn_registry (Some (mkRegistry {["work" := 7%nat]})) (NewRunner s).
Definition branchRequest (branchRun fromStep mode : string) : ReplayBranchRequest :=
  mkBranchRequest "run-1" branchRun "" fromStep mode [] [] "".
(** Running a branch, cut short: its run is stored as succeeded. *)
Definition storeOnlyRun (_ : CallCtx) (rq : RunRequest nat) (r : toolRunner) : toolRunner * option error :=
  onStore (CreateRun (mkRun (rq_RunID rq) (g_ID (rq_Graph rq)) RunStatusSucceeded None None (rq_Spec rq) (rq_Input rq) "" "" [] noBudget noUsage)) r.
Abbreviation branch1 :=
  (CreateReplayBranch twoNodes storeOnlyRun (callCtx background) 10 20 (branchRequest "run-2" "b" "time_travel") (sourceRunner RunStatusSucceeded)).
Example branch1_made : match branch1.2 with inl (Some x) => rb_BranchRunID x = "run-2" | _ => False end.
Proof. vm_compute. reflexivity. Qed.

(** ** Witnesses *)
Definition twoGraph : WorkflowGraph nat :=
  match compileBranchWorkflow twoNodes (mkRegistry {["work" := 7%nat]}) (fromString "wf") with
  | inl g => g | inr _ => mkGraph _ "" [] [] 0 end.
Abbreviation cacheFromB := (buildReplayBranchCache "run-1" twoGraph "b" ReplayLive (sourceRunner RunStatusSucceeded)).
Lemma branch_cache_exact_witness : exists cache, cacheFromB = inl cache /\
  is_Some (cache ≫= (.!! "a")) /\ reuses twoGraph "b" ReplayLive "a" /\ cache ≫= (.!! "b") = None.
Proof.
  destruct cacheFromB as [cache|err] eqn:E; [|exfalso; revert E; vm_compute; discriminate].
  assert (cache ≫= (.!! "a") = Some (mkCacheEntry 1 [x61]) /\ cache ≫= (.!! "b") = None) as [Ha Hb].
  { assert (match cacheFromB with inl c => c ≫= (.!! "a") = Some (mkCacheEntry 1 [x61]) /\ c ≫= (.!! "b") = None | inr _ => False end) as Hc
      by (vm_compute; split; reflexivity).
    rewrite E in Hc. exact Hc. }
  exists cache. split; [reflexivity|]. split; [rewrite Ha; eexists; reflexivity|]. split; [|exact Hb].
  destruct (branch_cache_exact "run-1" twoGraph "b" ReplayLive (sourceRunner RunStatusSucceeded) cache) as [_ Hn];
    [reflexivity|exact E|]. specialize (Hn "a"). rewrite Ha in Hn. exact (proj1 Hn).
Defined.
Lemma branch_keeps_history_witness : untouched "run-1" (sourceRunner RunStatusSucceeded) branch1.1.
Proof.
  apply (branch_keeps_history twoNodes storeOnlyRun (callCtx background) 10 20 (branchRequest "run-2" "b" "time_travel")
           (sourceRunner RunStatusSucceeded) (sourceRun RunStatusSucceeded) "run-1").
  - vm_compute. reflexivity.
  - vm_compute. discriminate.
  - intros c rq r0 Hne. unfold storeOnlyRun. destruct (onStore_store (CreateRun (mkRun (rq_RunID rq) (g_ID (rq_Graph rq)) RunStatusSucceeded
      None None (rq_Spec rq) (rq_Input rq) "" "" [] noBudget noUsage)) r0) as [E _]. unfold untouched. rewrite E. clear E.
    cbn [CreateRun GetRun GetNodeExecution MemoryStore_Store]. unfold MemoryStore_CreateRun.
    destruct (validateRun _); [split; reflexivity|]. destruct (decide (is_Some _)); [split; reflexivity|]. cbn [fst].
    unfold putRun. cbn. destruct (nextSeq (rn_store r0) !! rq_RunID rq); split; cbn; rewrite ?lookup_insert_ne by exact Hne; reflexivity.
Defined.
Lemma branch_in_timeline_witness : exists x, branch1.2 = inl (Some x) /\
  exists xs, (ListReplayBranches background 30 (rb_BranchRunID x) branch1.1).2 = inl xs /\ updatedAt 30 x ∈ xs.
Proof.
  destruct (paired branch1) as (r1&res&E).
  assert (match branch1.2 with inl (Some x) => bool_decide (rb_BranchRunID x = "run-2") | _ => false end = true) as Hok by (vm_compute; reflexivity).
  rewrite E in Hok |- *. cbn [fst snd] in *. destruct res as [[x|]|]; try discriminate Hok. apply bool_decide_eq_true_1 in Hok. exists x. split; [reflexivity|].
  destruct (branch_in_timeline twoNodes storeOnlyRun (callCtx background) 10 20 (branchRequest "run-2" "b" "time_travel")
              (sourceRunner RunStatusSucceeded) r1 x) as (source&_&_&_&_&Hl);
    [exact E|reflexivity|intros ? ? ? _ _; exact Logic.I|rewrite Hok; discriminate|].
  exact (proj2 (Hl 30)).
Defined.

(** ** Findings *)
Definition outcome (res : toolRunner * (option ReplayBranchRecord + error)) : string :=
  match res.2 with inl (Some x) => rb_BranchRunID x +:+ " of " +:+ rb_SourceRunID x | inl None => "none" | inr err => Error err end.
(** The names of two branches may differ in punctuation only: the second record replaces the
    first, whose run now leads to it. *)
Definition dotted : toolRunner :=
  (CreateReplayBranch twoNodes storeOnlyRun (callCtx background) 10 20 (branchRequest "b.1" "" "live") (sourceRunner RunStatusSucceeded)).1.
Definition dashedToo : toolRunner :=
  (CreateReplayBranch twoNodes storeOnlyRun (callCtx background) 30 40 (branchRequest "b-1" "" "live") dotted).1.
Lemma branch_records_collide :
  outcome (GetReplayBranchByRun background 50 "b.1" dotted) = "b.1 of run-1" /\
  outcome (GetReplayBranchByRun background 50 "b.1" dashedToo) = "b-1 of run-1".
Proof. split; vm_compute; reflexivity. Qed.

(** A record that is only read has the instant of the reading as its last update. *)
Definition updatedAt (res : toolRunner * (option ReplayBranchRecord + error)) : Time :=
  match res.2 with inl (Some x) => rb_UpdatedAt x | _ => 0 end.
Lemma reading_updates_the_record :
  updatedAt (GetReplayBranchByRun background 50 "b.1" dotted) = 50 /\
  updatedAt (GetReplayBranchByRun background 60 "b.1" (GetReplayBranchByRun background 50 "b.1" dotted).1) = 60.
Proof. split; vm_compute; reflexivity. Qed.

(** The start of the graph runner. *)
Definition beginOnly (ctx : CallCtx) (rq : RunRequest nat) (r : toolRunner) : toolRunner * option error :=
  match beginRun (fun _ => None) ctx 0 15 (rq_RunID rq) (rq_Graph rq) (rq_Input rq) (rq_Spec rq) (rq_Cache rq) r with
  | inr out => out
  | inl (_, (_, _, r)) => (r, None)
  end.
Definition ontoItself (status : string) : toolRunner * (option ReplayBranchRecord + error) :=
  CreateReplayBranch twoNodes beginOnly (callCtx background) 10 20 (branchRequest "run-1" "b" "live") (sourceRunner status).
(** A branch may be given the identifier of its source: a source that has succeeded is recorded as
    its own branch although nothing was run, one that has failed is started again. *)
Lemma branch_onto_its_source :
  outcome (ontoItself RunStatusSucceeded) = "run-1 of run-1" /\
  (r_Status <$> GetRun "run-1" (rn_store (ontoItself RunStatusFailed).1)) = Some RunStatusRunning /\
  outcome (ontoItself RunStatusFailed) = "run-1 of run-1".
Proof. split_and!; vm_compute; reflexivity. Qed.

(** In time travel without a step every output is reused, so that another input, although
    recorded as applied, reaches no node. *)
Definition otherInput : ReplayBranchRequest := mkBranchRequest "run-1" "run-3" "" "" "" [] (fromString "new") "".
Lemma override_reaches_no_node :
  match (planBranch twoNodes (callCtx background) 10 otherInput (sourceRunner RunStatusSucceeded)).2 with
  | inl p => rq_Input (bp_Request p) = fromString "new" /\ dom (default ∅ (rq_Cache (bp_Request p))) = list_to_set (NodeID <$> Nodes (rq_Graph (bp_Request p)))
  | inr _ => False
  end.
Proof. vm_compute. split; reflexivity. Qed.

(** * Captured failures and compared runs *)
Definition failureStrings (f : SelfHealingFailureNode) : list string :=
  [fn_NodeID f; numberText (fn_Attempt f); fn_Error f; optionText (fn_StartedAt f); optionText (fn_EndedAt f)].
Definition failureFrom (l : list string) : SelfHealingFailureNode :=
  mkFailureNode (nth 0 l "") (textNumber (nth 1 l "")) (nth 2 l "") (textOption (nth 3 l "")) (textOption (nth 4 l "")).
Definition suggestionStrings (x : SelfHealingReplaySuggestion) : list string := [su_FromStep x; su_Mode x; su_Reason x].
Definition suggestionFrom (l : list string) : SelfHealingReplaySuggestion := mkSuggestion (nth 0 l "") (nth 1 l "") (nth 2 l "").
Definition planStrings (x : SelfHealingRerunPlan) : list string :=
  [pl_FromStep x; pl_Mode x; pl_SideEffectMode x; listText (pl_Notes x)].
Definition planFrom (l : list string) : SelfHealingRerunPlan :=
  mkPlan (nth 0 l "") (nth 1 l "") (nth 2 l "") (textList (nth 3 l "")).
(** A list of values, each a list of strings. *)
Definition nestedText {X} (to : X -> list string) (l : list X) : string := listText ((fun x => listText (to x)) <$> l).
Definition textNested {X} (from : list string -> X) (s : string) : list X := (fun x => from (textList x)) <$> textList s.
Lemma textNested_nestedText {X} (to : X -> list string) from l : (forall x, from (to x) = x) -> textNested from (nestedText to l) = l.
Proof.
  intros Hx. unfold textNested, nestedText. rewrite textList_listText, <- list_fmap_compose. rewrite <- (list_fmap_id l) at 2.
  apply list_fmap_ext. intros _ x _. unfold compose. by rewrite textList_listText.
Qed.
Definition healingStrings (x : SelfHealingArtifact) : list string :=
  [sh_ID x; numberText (sh_CreatedAt x); numberText (sh_UpdatedAt x); sh_TenantID x; sh_RunID x; sh_WorkflowID x; sh_RunStatus x;
   sh_TerminalReason x; sh_FailureNodeID x; numberText (sh_FailureAttempt x); sh_FailureError x;
   nestedText failureStrings (sh_FailureNodes x); nestedText suggestionStrings (sh_ReplaySuggestions x);
   listText (planStrings (sh_SaferRerun x)); sh_EvalDatasetID x; sh_EvalCaseID x; sh_EvalCaseName x; flag (sh_SourceSpecCaptured x)].
Definition healingFrom (l : list string) : SelfHealingArtifact :=
  mkHealing (nth 0 l "") (textNumber (nth 1 l "")) (textNumber (nth 2 l "")) (nth 3 l "") (nth 4 l "") (nth 5 l "") (nth 6 l "")
    (nth 7 l "") (nth 8 l "") (textNumber (nth 9 l "")) (nth 10 l "") (textNested failureFrom (nth 11 l ""))
    (textNested suggestionFrom (nth 12 l "")) (planFrom (textList (nth 13 l ""))) (nth 14 l "") (nth 15 l "") (nth 16 l "")
    (bool_decide (nth 17 l "" = "true")).
#[export] Instance scenarioHealingJSON : HealingJSON := Build_HealingJSON (strings healingStrings healingFrom).
#[export] Instance scenarioHealingLaws : HealingLaws.
Proof.
  refine {| storableHealing := fun _ => True |}. intros x b _ E%strings_round. etransitivity; [exact E|].
  assert (forall f, failureFrom (failureStrings f) = f) as Hf
    by (intros []; unfold failureFrom, failureStrings; cbn [nth]; by rewrite textNumber_numberText, !textOption_optionText).
  assert (forall s, suggestionFrom (suggestionStrings s) = s) as Hs by by intros [].
  destruct x as [? ? ? ? ? ? ? ? ? ? ? fs ss [? ? ? ns] ? ? ? []]; unfold healingFrom, healingStrings; cbn [nth];
    rewrite !textNumber_numberText, (textNested_nestedText failureStrings failureFrom), (textNested_nestedText suggestionStrings suggestionFrom) by done;
    unfold planFrom, planStrings; cbn [nth]; rewrite !textList_listText; cbn [nth]; by rewrite !textList_listText.
Defined.

(** The run of two nodes, the second of which has failed. *)
Definition failedNode (runID n : string) : NodeExecution :=
  mkNodeExec runID "wf" n 1 NodeStatusFailed (Some 1) (Some 2) [] [] "boom".
Definition failedRun (runID : string) (r : toolRunner) : toolRunner :=
  let s := (CreateRun (mkRun runID "wf" RunStatusFailed (Some 1) (Some 3) (fromString "wf") [] "" "boom" [] noBudget noUsage) (rn_store r)).1 in
  let s := (UpsertNodeExecution (mkNodeExec runID "wf" "a" 1 NodeStatusSucceeded (Some 1) (Some 2) [] [x61] "") s).1 in
  let s := (UpsertNodeExecution (failedNode runID "b") s).1 in
  set_rn_store s r.
Definition failedRunner : toolRunner :=
  failedRun "run-1" (set_rn_registry (Some (mkRegistry {["work" := 7%nat]})) (NewRunner NewMemoryStore)).

(** Every execution of the scenario is stored under its own name. *)
Definition ownNames (m : gmap nodeKey NodeExecution) : bool :=
  forallb (fun x => bool_decide (x.1 = mkNodeKey (n_RunID x.2) (n_NodeID x.2) (n_Attempt x.2))) (map_to_list m).
Lemma keyed_names runID (r : toolRunner) : ownNames (nodes (rn_store r)) = true -> keyed runID r.
Proof.
  intros Ho n a ne E. change (nodes (rn_store r) !! mkNodeKey runID n a = Some ne) in E.
  apply elem_of_map_to_list in E. unfold ownNames in Ho. rewrite forallb_forall in Ho.
  apply list_elem_of_In in E. specialize (Ho _ E). apply bool_decide_eq_true_1 in Ho. cbn in Ho. by injection Ho as -> -> ->.
Qed.
Lemma valid_scenario (r : toolRunner) : validHealing r.
Proof. intros ? ? ? _ _. exact Logic.I. Qed.
Abbreviation captured := (CaptureSelfHealingArtifact twoNodes background 10 "run-1" failedRunner).
Lemma capture_describes_witness : exists x, captured.2 = inl x /\
  fn_NodeID <$> sh_FailureNodes x = ["b"] /\ pl_SideEffectMode (sh_SaferRerun x) = SideEffectModeDryRun /\
  (GetSelfHealingArtifactByRun background 20 "run-1" captured.1).2 = inl (Some x).
Proof.
  destruct (paired captured) as (r1&res&E).
  assert (match captured.2 with inl x => bool_decide (fn_NodeID <$> sh_FailureNodes x = ["b"]) | _ => false end = true) as Hok by (vm_compute; reflexivity).
  rewrite E in Hok |- *. cbn [fst snd] in *. destruct res as [x|]; [|discriminate Hok]. apply bool_decide_eq_true_1 in Hok.
  exists x. split; [reflexivity|]. split; [exact Hok|].
  destruct (capture_describes twoNodes background 10 "run-1" failedRunner r1 x) as (run&_&Hm&_&_&_&_&_&Hd&Hread);
    [exact E|exact (valid_scenario r1)|apply keyed_names; vm_compute; reflexivity|].
  split; [exact Hd|]. apply Hread; [discriminate|exact Hm].
Defined.
(** A runner that would tell a dry run from another. *)
Definition tellingRun (wet : bool) (c : CallCtx) (_ : RunRequest nat) (r : toolRunner) : toolRunner * option error :=
  if decide (SideEffectModeFrom c = Some SideEffectModeDryRun) then (r, None) else (r, if wet then None else Some (ENew "dry runs only")).
Lemma recovery_is_dry_witness :
  ReplaySelfHealingArtifact twoNodes (tellingRun true) (callCtx background) 10 "run-1" failedRunner =
  ReplaySelfHealingArtifact twoNodes (tellingRun false) (callCtx background) 10 "run-1" failedRunner.
Proof.
  apply (recovery_is_dry twoNodes (tellingRun true) (tellingRun false)).
  - intros c rq r0 Hd. unfold tellingRun. destruct (decide _) as [_|Hn]; [reflexivity|]. exfalso. apply Hn.
    specialize (Hd (mkSideEffect true false false false false "")). unfold effectMode in Hd.
    destruct (SideEffectModeFrom c) as [m|]; [rewrite Hd; reflexivity|discriminate Hd].
  - intros x E. vm_compute in E. discriminate E.
  - intros r0 _. exact (valid_scenario _).
Defined.
(** Another run of the workflow, in which only the first node was executed. *)
Definition twoRuns : toolRunner :=
  let s := (CreateRun (mkRun "run-2" "wf" RunStatusCanceled None None (fromString "wf") [] "" "" [] noBudget noUsage) (rn_store failedRunner)).1 in
  set_rn_store (UpsertNodeExecution (mkNodeExec "run-2" "wf" "a" 1 NodeStatusSucceeded (Some 5) (Some 6) [] [x61] "") s).1 failedRunner.
Abbreviation compared := (DiffRuns background 10 "run-1" "run-2" twoRuns).
#[local] Instance branchValues : ValueCodec.
Proof.
  intros b v E. destruct b as [|c b]; [discriminate E|]. injection E as <-. exists (c :: b).
  assert (fromString (toString (c :: b)) = c :: b) as Hr by apply String.list_byte_of_string_of_list_byte.
  split; [change (inl (fromString (toString (c :: b))) = inl (c :: b) :> bytes + error); by rewrite Hr|done].
Qed.
Lemma DiffRuns_exact_witness : exists d, compared.2 = inl d /\ fd_ChangedNodes d = ["b"] /\ ~ unchanged "run-1" "run-2" twoRuns "b".
Proof.
  assert (forall id, keyed id twoRuns) as Hk by (intros id; apply keyed_names; vm_compute; reflexivity).
  pose proof (DiffRuns_exact background 10 "run-1" "run-2" twoRuns (fun run _ => Hk (r_RunID run)) (fun run _ => Hk (r_RunID run))) as Hd. destruct (paired compared) as (r1&res&E).
  assert (match compared.2 with inl d => bool_decide (fd_ChangedNodes d = ["b"]) | _ => false end = true) as Hok by (vm_compute; reflexivity).
  rewrite E in Hd, Hok |- *. cbn [fst snd] in *. destruct res as [d|]; [|discriminate Hok]. apply bool_decide_eq_true_1 in Hok.
  exists d. split; [reflexivity|]. split; [exact Hok|].
  destruct Hd as [_ (from&to&Ef&Et&_&_&_&_&_&_&Hc&_)].
  assert (r_RunID from = "run-1") as <- by (revert Ef; vm_compute; intros [= <-]; reflexivity).
  assert (r_RunID to = "run-2") as <- by (revert Et; vm_compute; intros [= <-]; reflexivity).
  apply Hc. rewrite Hok. apply list_elem_of_here.
Defined.

(** ** Sequential runs *)
(** The handler [0] fails, any other puts that many letters before its input. *)
Definition stepHandler (c : HandlerCall nat) (r : toolRunner) : toolRunner * (bytes * option NodeError) :=
  match hc_fn c with
  | 0%nat => (r, ([], Some (NErr (ENew "boom"))))
  | n => (r, (replicate n x41 ++ hc_input c, None))
  end.
Definition calmWorld (i : nat) : StepWorld := mkStepWorld None (Z.of_nat (10 * i)) (Z.of_nat (10 * i + 5)).
Definition seqNode (id : string) (fn : nat) : NodeDef nat := mkNode nat id "" "" None [] [] (Some fn) 0.
Definition seqFlow (fns : list nat) : Workflow nat :=
  mkWorkflow "wf" (zip_with seqNode ["a"; "b"; "c"] fns).
Abbreviation seqRun fns :=
  (RunWorkflow stepHandler twoNodes (fun _ => None) None calmWorld (callCtx background) 1 "run-9" (seqFlow fns) [x69]
     (NewRunner NewMemoryStore)).
Lemma stepHandler_untouched c r : untouched "run-9" r (stepHandler c r).1.
Proof. unfold stepHandler. by destruct (hc_fn c). Qed.
Lemma RunWorkflow_chain_witness : exists r' outputs, seqRun [1%nat; 2%nat] = (r', SeqReturned None) /\
  length outputs = 2%nat /\ chained "run-9" (wf_Nodes (seqFlow [1%nat; 2%nat])) [x69] outputs r'.
Proof.
  destruct (paired (seqRun [1%nat; 2%nat])) as (r'&res&E).
  assert (res = SeqReturned None) as -> by (apply (f_equal snd) in E; vm_compute in E; symmetry; exact E).
  destruct (RunWorkflow_chain stepHandler twoNodes (fun _ => None) None calmWorld "run-9" stepHandler_untouched _ _ _ _ _ _ _ E)
    as [[_ Hne]|(outputs&_&Hc&_&Hok)]; [apply (bool_decide_eq_true_1 _); vm_compute; reflexivity|destruct (Hne eq_refl)|].
  exists r', outputs. split; [exact E|]. split; [exact (proj1 (Hok eq_refl))|exact Hc].
Defined.
Lemma seqFlow_sound fns :
  Forall (fun node => NodeID node <> "" /\ (TrimSpace (nd_Topic node) = "" -> is_Some (nd_Run node))) (wf_Nodes (seqFlow fns)).
Proof.
  destruct fns as [|? [|? [|? ?]]]; cbn; repeat (apply Forall_cons_2; [split; [discriminate|intros _; eexists; reflexivity]|]); apply Forall_nil_2.
Qed.
Lemma RunWorkflow_settles_witness : exists r' outputs, seqRun [1%nat; 0%nat; 2%nat] = (r', SeqReturned (Some ErrNodeFailed)) /\
  settled calmWorld "run-9" 0 (wf_Nodes (seqFlow [1%nat; 0%nat; 2%nat])) [x69] outputs r' (SeqReturned (Some ErrNodeFailed)).
Proof.
  destruct (paired (seqRun [1%nat; 0%nat; 2%nat])) as (r'&res&E).
  assert (res = SeqReturned (Some ErrNodeFailed)) as -> by (apply (f_equal snd) in E; vm_compute in E; symmetry; exact E).
  destruct (RunWorkflow_settles stepHandler twoNodes (fun _ => None) None calmWorld "run-9" stepHandler_untouched _ _ _ _ _ _ _ E)
    as [[[Hg _] _]|(outputs&Hset&_)].
  - apply (bool_decide_eq_true_1 _). vm_compute. reflexivity.
  - discriminate.
  - discriminate.
  - apply seqFlow_sound.
  - exfalso. apply (f_equal (fun p => GetRun "run-9" (rn_store p.1))) in E. cbn [fst] in E. rewrite Hg in E. vm_compute in E. discriminate E.
  - exists r', outputs. split; [exact E|exact Hset].
Defined.

(** ** Findings about sequential runs, captures and comparisons *)
(** Unlike a graph, a sequential workflow is not validated: a node without a name ends the run with
    an error and leaves it running. *)
Definition namelessFlow : Workflow nat := mkWorkflow "wf" [seqNode "a" 1; seqNode "" 2].
Lemma sequential_run_left_open :
  let '(r, res) := RunWorkflow stepHandler twoNodes (fun _ => None) None calmWorld (callCtx background) 1 "run-9" namelessFlow [x69]
                     (NewRunner NewMemoryStore : toolRunner) in
  res = SeqReturned (Some (ENew "node_id is required")) /\ (r_Status <$> GetRun "run-9" (rn_store r)) = Some RunStatusRunning.
Proof. vm_compute. split; reflexivity. Qed.

(** A capture of a run of a tenant is read by its tenant but is not listed for it: the rows are
    read without the tenant of the caller. *)
Definition tenantCtx : Ctx := mkCtx "acme" None.
Definition tenantRunner : toolRunner :=
  let s := (CreateRun (mkRun "run-1" "wf" RunStatusFailed (Some 1) (Some 3) (fromString "wf") [] "acme" "boom" [] noBudget noUsage) NewMemoryStore).1 in
  NewRunner (UpsertNodeExecution (failedNode "run-1" "b") s).1.
Definition tenantCaptured : toolRunner := (CaptureSelfHealingArtifact twoNodes tenantCtx 10 "run-1" tenantRunner).1.
Lemma list_hides_tenants :
  match (GetSelfHealingArtifactByRun tenantCtx 20 "run-1" tenantCaptured).2 with inl (Some x) => sh_RunID x = "run-1" | _ => False end /\
  (ListSelfHealingArtifacts tenantCtx 20 "" 0 tenantCaptured).2 = inl [].
Proof. split; vm_compute; reflexivity. Qed.

(** The names of two failed runs may differ in punctuation only: the capture of the first is
    found, and replayed, for the second. *)
Definition twins : toolRunner := failedRun "run.1" failedRunner.
Definition replayedRun (runID : string) (r : toolRunner) : string :=
  match (ReplaySelfHealingArtifact twoNodes (tellingRun true) (callCtx background) 20 runID r).1.2 with
  | inl x => sh_RunID x | inr err => Error err end.
Lemma another_run_is_replayed :
  replayedRun "run.1" twins = "run.1" /\
  replayedRun "run.1" (CaptureSelfHealingArtifact twoNodes background 10 "run-1" twins).1 = "run-1".
Proof. split; vm_compute; reflexivity. Qed.

(** A node whose output is not JSON differs from itself. *)
Definition plainOutput : toolRunner :=
  let s := (CreateRun (sourceRun RunStatusSucceeded) NewMemoryStore).1 in
  NewRunner (UpsertNodeExecution (mkNodeExec "run-1" "wf" "a" 1 NodeStatusSucceeded (Some 1) (Some 2) [] [x61] "") s).1.
(** Nothing is JSON here. *)
Definition plainEngine : EngineJSON :=
  Build_EngineJSON listJSON noJSON noJSON noJSON noJSON noJSON noJSON noJSON noJSON noJSON noJSON (fun _ => "0") (fun _ => "").
Lemma run_differs_from_itself :
  match (let _ := plainEngine in DiffRuns background 10 "run-1" "run-1" plainOutput).2 with
  | inl d => fd_ChangedNodes d = ["a"] | inr _ => False end.
Proof. vm_compute. reflexivity. Qed.
