(* ===== verification/DagScenario.v ===== *)
(** * A concrete run of a graph, used to instantiate the properties

    The diamond a -> b, c -> d on the in-memory store, at most two handlers at a time. *)
From S2P Require Import Prelude Storage Graph GraphSpec EngineStore Throttle Authz Risk Runtime Governance Human Admission.
From S2P Require Import DagRun Lifecycle DagInv DagStore DagSpec DagDurable AdmissionSpec DagLive DagComplete LifecycleSpec.
From Stdlib Require Import Init.Byte.

(** Encodings that suffice here: the inputs of nodes are the outputs of their parents, one
    after the other. *)
Definition noJSON {T} : JSON T := {| marshal := fun _ => inl []; unmarshal := fun _ => inr (ENew "no JSON") |}.
Definition rawsJSON : JSON (gmap string bytes) :=
  {| marshal := fun m => inl (mjoin (snd <$> map_to_list m)); unmarshal := fun _ => inr (ENew "no JSON") |}.
#[export] Instance exJSON : EngineJSON :=
  Build_EngineJSON noJSON noJSON noJSON noJSON noJSON noJSON noJSON noJSON noJSON noJSON rawsJSON
    (fun _ => "0") (fun _ => "").
#[export] Instance exAmbient : Ambient := {| traceIDs := fun n => "id-" +:+ pretty (Z.of_nat n); formatTime := fun _ => "" |}.
#[export] Instance exArtifacts : ArtifactStore unit := {|
  Put := fun _ meta a => (a, inl ("ref", meta));
  Get := fun _ a => (a, inr (ENew "not found"));
  Delete := fun _ a => (a, None) |}.

Abbreviation exRunner := (@Runner MemoryStore nat unit).
Definition exDagRun : Run := newRun "run-1" "wf" "" [] [].
Definition exRunner0 : exRunner :=
  (newContext (SetMaxParallelism 2 (NewRunner (CreateRun exDagRun NewMemoryStore).1))).2.
Definition exEnter : (Config nat * @stepResult MemoryStore nat unit) + (exRunner * option error) :=
  enterLoop background 0 100 exDiamond [x00] None exDagRun [] "" exRunner0.
Definition exCfg : Config nat :=
  match exEnter with
  | inl (cfg, _) => cfg
  | inr _ => mkConfig _ background "" "" exDiamond [] None "" noBudget 0 0 0
  end.
Definition exSt0 : @stepResult MemoryStore nat unit :=
  match exEnter with
  | inl (_, st) => st
  | inr (r, err) => (Returned err, mkLoop exDagRun ∅ ∅ ∅ 0 ∅ [] 0 [] ∅ ∅ false false false false false, r)
  end.

Lemma exEnter_inl : exEnter = inl (exCfg, exSt0).
Proof.
  unfold exCfg, exSt0. assert (match exEnter with inl _ => true | inr _ => false end = true) as Hi by (vm_compute; reflexivity).
  by destruct exEnter as [[cfg st]|].
Qed.

Fixpoint play (cfg : Config nat) (evs : list Event) (st : @stepResult MemoryStore nat unit) :
    option (@stepResult MemoryStore nat unit) :=
  match evs with
  | [] => Some st
  | ev :: evs => st ← step cfg ev st; play cfg evs st
  end.
Definition got (i : nat) (b : Byte.byte) : Event := EvResult i [b] None 102 102.
(** The handlers of b and c run. *)
Definition exEvents1 : list Event := [EvGo 101; EvGo 101; EvGo 101; got 0 x01; EvGo 102; EvGo 102; EvGo 102; EvGo 102].
(** c answers before b; then d runs. *)
Definition exEvents2 : list Event :=
  exEvents1 ++ [got 1 x03; EvGo 103; EvGo 103; got 0 x02; EvGo 103; EvGo 103; EvGo 103; got 0 x04; EvGo 104].

Example exPlay1 :
  (fun '(pc, l, _) => (pc, fl_node <$> l_flight l, fl_input <$> l_flight l, l_ready l)) <$> play exCfg exEvents1 exSt0 =
  Some (AtWait, ["b"; "c"], [[x01]; [x01]], []).
Proof. vm_compute. reflexivity. Qed.
Example exPlay2 :
  (fun '(pc, l, r) => (pc, r_Status (l_run l), r_Status <$> GetRun "run-1" (rn_store r))) <$> play exCfg exEvents2 exSt0 =
  Some (Returned None, RunStatusSucceeded, Some RunStatusSucceeded).
Proof. vm_compute. reflexivity. Qed.

Lemma play_reach env cfg evs st st' : play cfg evs st = Some st' -> reach env cfg st st'.
Proof.
  assert (forall st1, reach env cfg st st1 -> play cfg evs st1 = Some st' -> reach env cfg st st') as Hp;
    [|apply Hp, reach_start].
  induction evs as [|ev evs IH]; simpl; intros st1 Hr; [by intros [= <-]|].
  destruct (step cfg ev st1) as [st2|] eqn:E; [|done]. apply IH. by eapply reach_step.
Qed.
Lemma play_history env cfg evs st st' : play cfg evs st = Some st' -> history env cfg st (rev evs) st'.
Proof.
  intros Hp. assert (forall evs0 st1, history env cfg st evs0 st1 -> play cfg evs st1 = Some st' ->
    history env cfg st (rev evs ++ evs0) st') as Hq.
  { clear Hp. induction evs as [|ev evs IH]; simpl; intros evs0 st1 Hr; [by intros [= <-]|].
    destruct (step cfg ev st1) as [st2|] eqn:E; [|done]. rewrite <- app_assoc. apply IH. by eapply history_step. }
  rewrite <- (app_nil_r (rev evs)). by eapply Hq; [apply history_start|].
Qed.

Lemma ex_entered : entered exCfg exSt0.
Proof.
  exists background, 0%nat, 100, exDiamond, [x00], None, exDagRun, [], "", exRunner0.
  split; [apply exEnter_inl|]. split; [vm_compute; reflexivity|]. by intros a b ?%elem_of_nil.
Qed.
Lemma ex_entered_stored : entered_stored exCfg exSt0.
Proof.
  exists background, 0%nat, 100, exDiamond, [x00], None, exDagRun, [], "", exRunner0.
  split; [apply exEnter_inl|]. split; [vm_compute; reflexivity|]. split; [by intros a b ?%elem_of_nil|].
  split; [|done]. intros ne. split; [by intros ?%elem_of_nil|]. by intros (n&a&?).
Qed.
(** The point where b and c run. *)
Lemma ex_flights (env : relation exRunner) : exists l r f g,
  reach env exCfg exSt0 (AtWait, l, r) /\ l_flight l = [f; g] /\ fl_node f = "b" /\ fl_input f = [x01] /\ fl_sent f = None.
Proof.
  pose proof (play_reach env exCfg exEvents1 exSt0) as Hp.
  assert ((fun '(pc, l, _) => (pc, (fun f => (fl_node f, fl_input f, fl_sent f)) <$> l_flight l)) <$> play exCfg exEvents1 exSt0 =
          Some (AtWait, [("b", [x01], None); ("c", [x01], None)])) as E by (vm_compute; reflexivity).
  destruct (play exCfg exEvents1 exSt0) as [[[pc l] r]|]; [|done]. simpl in E. injection E as -> E.
  destruct (l_flight l) as [|f [|g [|]]] eqn:Ef; try done. simpl in E. injection E as E1 E2 E3 _.
  exists l, r, f, g. by split; [apply Hp|].
Qed.

Lemma node_follows_parents_witness : exists l r f ne,
  reach (fun _ _ => False) exCfg exSt0 (AtWait, l, r) /\ f ∈ l_flight l /\ fl_node f = "b" /\
  l_done l !! "a" = Some ne /\ succeeded ne.
Proof.
  destruct (ex_flights (fun _ _ => False)) as (l&r&f&g&Hr&Hf&Hn&_).
  assert (f ∈ l_flight l) as Hin by (rewrite Hf; left).
  destruct (node_follows_parents _ _ _ _ _ _ _ ex_entered Hr I Hin) as [Hp _]. rewrite Hn in Hp.
  destruct (Hp "a") as (ne&Hd&Hs&_); [vm_compute; left|]. by exists l, r, f, ne.
Defined.

Lemma flights_bounded_witness : exists l r,
  reach (fun _ _ => False) exCfg exSt0 (AtWait, l, r) /\ zlen (l_flight l) = 2 /\ 2 <= c_maxPar exCfg.
Proof.
  destruct (ex_flights (fun _ _ => False)) as (l&r&f&g&Hr&Hf&_). exists l, r. split; [exact Hr|].
  destruct (flights_bounded _ _ _ _ _ _ ex_entered Hr I) as (_&Hb&_). rewrite Hf in *. by split.
Defined.

Lemma progress_durable_witness : exists l r f,
  reach (fun _ _ => False) exCfg exSt0 (AtWait, l, r) /\ fl_node f = "b" /\
  stored r "run-1" "b" (fl_attempt f) = Some (runningExec exCfg f).
Proof.
  destruct (ex_flights (fun _ _ => False)) as (l&r&f&g&Hr&Hf&Hn&_&Hs). exists l, r, f. split; [exact Hr|]. split; [exact Hn|].
  destruct (progress_durable _ _ _ _ _ _ (fun _ _ (F : False) => match F with end) ex_entered_stored Hr) as [_ Hst].
  rewrite <- Hn. apply Hst; [rewrite Hf; left|exact Hs].
Defined.

Lemma schedule_bounded_witness : zlen (rev exEvents2) <= (4 + 4) * (2 * 4 + 1 + 0).
Proof.
  destruct (play exCfg exEvents2 exSt0) as [st|] eqn:E.
  - apply (play_history (fun _ _ => False)) in E. exact (schedule_bounded _ _ _ _ _ ex_entered E).
  - exfalso. pose proof exPlay2 as Hp. rewrite E in Hp. discriminate Hp.
Defined.

(** Every handler fails. *)
Lemma run_returns_witness : exists e l r,
  drive exCfg (fun n => mkOutcome n [] (Some (NErr (ENew "boom"))) 102 102) 72 exSt0 = (Returned e, l, r).
Proof.
  apply run_returns; [apply ex_entered| |].
  - right. intros node. vm_compute. intros Hn. by repeat (apply elem_of_cons in Hn as [->|Hn]); [..|apply elem_of_nil in Hn].
  - vm_compute. discriminate.
Defined.

Lemma success_complete_witness : exists l r ne,
  reach (peaceful exCfg) exCfg exSt0 (Returned None, l, r) /\ stored r "run-1" "d" (n_Attempt ne) = Some ne /\ succeeded ne.
Proof.
  pose proof (play_reach (peaceful exCfg) exCfg exEvents2 exSt0) as Hp. pose proof exPlay2 as E.
  destruct (play exCfg exEvents2 exSt0) as [[[pc l] r]|]; [|discriminate E]. simpl in E. injection E as -> Hst _.
  specialize (Hp _ eq_refl). pose proof ex_entered_stored as He.
  assert (ctxDone exCfg exSt0.2 = false /\ isCanceled (c_runID exCfg) exSt0.2 = false) as [Hc1 Hc2]
    by (split; vm_compute; reflexivity).
  exists l, r. destruct exSt0 as [[pc0 l0] r0].
  destruct (success_complete _ _ _ _ _ _ He Hc1 Hc2 Hp Hst "d") as (ne&Hne&Hs); [vm_compute; do 3 right; left|].
  by exists ne.
Defined.

(** ** Starting, cancelling, replaying, firing timers *)
Definition exEmpty : exRunner := (newContext (SetMaxParallelism 2 (NewRunner NewMemoryStore))).2.
Definition exBegin := beginRun (fun _ => None) background 0 100 "run-1" exDiamond [] [] None exEmpty.
Lemma beginRun_gated_witness : exists rep r0,
  EvaluateWorkflowRisk (fun _ => None) background "run-1" exDiamond []
    (authorizeWorkflow background 100 "run-1" exDiamond exEmpty).1 = (r0, inl rep) /\
  (wk_Score rep < ApprovalScore (wk_Thresholds rep) \/
   wk_Score rep < BlockScore (wk_Thresholds rep) /\ approved "run-1" r0).
Proof.
  assert (match exBegin with inl _ => true | inr _ => false end = true) as Hb by (vm_compute; reflexivity).
  destruct exBegin as [[cfg st]|] eqn:E; [|discriminate Hb].
  exact (proj2 (proj2 (beginRun_gated (fun _ => None) _ _ _ _ _ _ _ _ _ _ _ E))).
Defined.

Lemma ensureRunTenantAccess_exact_witness :
  let run := newRun "run-2" "wf" "acme" [] [] in
  (ensureRunTenantAccess (WithTenantID "acme" background) 105 run "runs:read" exRunner0).2 = None /\
  (ensureRunTenantAccess (WithTenantID "other" background) 105 run "runs:read" exRunner0).2 <> None.
Proof.
  split.
  - apply (ensureRunTenantAccess_exact (WithTenantID "acme" background)). right. split; [vm_compute; reflexivity|by intros ?].
  - intros Ha. apply (ensureRunTenantAccess_exact (WithTenantID "other" background)) in Ha.
    destruct Ha as [Ha|[Ha _]]; vm_compute in Ha; discriminate Ha.
Defined.

Lemma CancelRun_effect_witness :
  isCanceled "run-1" (CancelRun background 105 "run-1" "stop" exSt0.2).1 = true.
Proof.
  destruct (CancelRun background 105 "run-1" "stop" exSt0.2) as [r' err] eqn:E.
  assert (err = None) as -> by (apply (f_equal snd) in E; vm_compute in E; by subst).
  assert ((fun run => (r_RunID run, r_Status run)) <$> GetRun "run-1" (rn_store exSt0.2) = Some ("run-1", RunStatusRunning)) as Hrun
    by (vm_compute; reflexivity).
  destruct (GetRun "run-1" (rn_store exSt0.2)) as [run|] eqn:Er; [|discriminate Hrun]. injection Hrun as Hid Hst.
  destruct (CancelRun_effect background 105 "run-1" "stop" _ _ _ Er Hid E) as (_&Hc&_).
  rewrite decide_False in Hc by (rewrite Hst; by intros [?|?]). by destruct Hc.
Defined.

(** A run of which a and b have succeeded. *)
Definition exDone (n : string) : NodeExecution :=
  mkNodeExec "run-1" "wf" n 1 NodeStatusSucceeded (Some 1) (Some 2) [] [x01] "".
Definition exTwoDone : exRunner :=
  set_rn_store (UpsertNodeExecution (exDone "b") (UpsertNodeExecution (exDone "a")
                  (CreateRun exDagRun NewMemoryStore).1).1).1 exRunner0.
Lemma exTwoDone_stored n a ne : stored exTwoDone "run-1" n a = Some ne ->
  (n = "a" \/ n = "b") /\ a = 1 /\ ne = exDone n.
Proof.
  unfold stored. change (rn_store exTwoDone) with (UpsertNodeExecution (exDone "b") (UpsertNodeExecution (exDone "a")
    (CreateRun exDagRun NewMemoryStore).1).1).1.
  rewrite law_node_nodes. case_decide as Hb; [destruct Hb as (_&_&->&->); intros [= <-]; auto|].
  rewrite law_node_nodes. case_decide as Ha; [destruct Ha as (_&_&->&->); intros [= <-]; auto|]. done.
Qed.
Lemma exTwoDone_resumable : resumable "run-1" exTwoDone.
Proof.
  split.
  - intros n a ne (_&->&->)%exTwoDone_stored. done.
  - intros x y (n1&a1&Hx)%law_list (n2&a2&Hy)%law_list _ _. apply exTwoDone_stored in Hx as (_&_&->).
    apply exTwoDone_stored in Hy as (_&_&->). simpl. congruence.
Qed.
Lemma replay_forgets_suffix_witness : exists r' : exRunner,
  doneNodes "run-1" r' !! "b" = None /\ is_Some (doneNodes "run-1" r' !! "a").
Proof.
  destruct (replaySuffix 200 "run-1" "b" ReplayLive exDiamond exDagRun exTwoDone) as [r' [run'|err]] eqn:E;
    [|exfalso; apply (f_equal snd) in E; vm_compute in E; discriminate E].
  assert (TrimSpace "b" <> "") as Hb by (vm_compute; discriminate).
  pose proof (replay_forgets_suffix _ _ _ _ _ _ _ _ _ exTwoDone_resumable Hb E) as Hr. exists r'. split.
  - apply (Hr "b"). split; [done|]. by intros [Hm _].
  - destruct (Hr "a") as [_ Ha]. rewrite Ha; [eexists; vm_compute; reflexivity|]. intros [Hp _].
    apply downstream_reachable in Hp. revert Hp. apply (bool_decide_eq_false_1 ("a" ∈ downstreamNodes exDiamond "b")).
    vm_compute. reflexivity.
Defined.

Definition exTimed : exRunner :=
  set_rn_store (UpsertTimer (mkTimer "run-1" "wf" "a" 1 TimerScheduled 50 1 None "retry")
                  (CreateRun exDagRun NewMemoryStore).1).1 exRunner0.
Lemma FireDueTimers_settles_witness :
  zlen (ListDueTimers 60 (rn_store exTimed)) = 1 /\ ListDueTimers 60 (rn_store (FireDueTimers 60 exTimed).1) = [].
Proof.
  split; [vm_compute; reflexivity|]. destruct (FireDueTimers 60 exTimed) as [r' [n err]] eqn:E.
  assert (err = None) as -> by (apply (f_equal (snd ∘ snd)) in E; vm_compute in E; by subst).
  assert (timers_ok (rn_store exTimed)) as Hok.
  { intros k t. assert (timers (rn_store exTimed) = {["run-1|a|1" := mkTimer "run-1" "wf" "a" 1 TimerScheduled 50 1 None "retry"]})
      as -> by (vm_compute; reflexivity). intros [<- <-]%lookup_singleton_Some. vm_compute. reflexivity. }
  destruct (FireDueTimers_settles 60 _ _ _ _ Hok E) as (_&Hd&_). by destruct (Hd eq_refl).
Defined.

(** ** What the model of the engine shows *)
(** Concrete runs on which the code does something its comments, its names or its
    documentation do not lead one to expect. *)
Abbreviation exState := (@stepResult MemoryStore nat unit).
Definition onRunner (f : exRunner -> exRunner) (st : exState) : exState := (st.1.1, st.1.2, f st.2).
Definition storedStatus (st : exState) : option string := r_Status <$> GetRun "run-1" (rn_store st.2).
Definition outcome (st : exState) : PC * option string * list string :=
  (st.1.1, storedStatus st, elements (dom (l_done st.1.2))).

(** The context the run was started with is closed while a runs; the run ends as succeeded
    although b, c and d have never run. *)
Lemma parent_cancel_succeeds :
  (st ← play exCfg [EvGo 101; EvGo 101; EvGo 101] exSt0;
   st ← play exCfg [EvDone; EvGo 102; EvGo 102; got 0 x01; EvGo 103; EvGo 103; EvGo 103]
          (onRunner (cancelContext (c_parentCtx exCfg)) st);
   Some (outcome st)) = Some (Returned None, Some RunStatusSucceeded, ["a"]).
Proof. vm_compute. reflexivity. Qed.

(** The run is cancelled while a runs; the handler of a reports its usage, the loop writes its
    own copy of the run over the cancellation, and the run ends as succeeded. *)
Lemma cancel_lost :
  (st ← play exCfg [EvGo 101; EvGo 101; EvGo 101] exSt0;
   let st := onRunner (fun r => (CancelRun background 102 "run-1" "stop" r).1) st in
   st' ← play exCfg [EvUsage 1 fzero 102; EvGo 102; EvGo 102; EvDone; EvGo 102; EvGo 102; got 0 x01; EvGo 103; EvGo 103; EvGo 103] st;
   Some (storedStatus st, outcome st')) =
  Some (Some RunStatusCanceled, (Returned None, Some RunStatusSucceeded, ["a"])).
Proof. vm_compute. reflexivity. Qed.

(** b fails, then c asks for a delay: the loop returns the failure, the store has the run as
    waiting, so that the timer of c resumes a failed run. *)
Lemma failed_run_waits :
  (st ← play exCfg (exEvents1 ++ [EvResult 0 [] (Some (NErr (ENew "boom"))) 103 103; EvGo 103; EvGo 103;
                                  EvResult 0 [] (Some (NDelay Second "later")) 104 104; EvGo 104]) exSt0;
   Some (outcome st, length (ListTimers "run-1" (rn_store st.2)))) =
  Some ((Returned (Some ErrNodeFailed), Some RunStatusWaiting, ["a"]), 1%nat).
Proof. vm_compute. reflexivity. Qed.

(** Two nodes hold a slot of their topic; the output of the first cannot be stored as an
    artifact, the loop returns, and the slot of the second stays in use. *)
Definition exPair : WorkflowGraph nat :=
  mkGraph _ "wf" [mkNode _ "x" "t" "" None [] [] (Some 7%nat) 0; mkNode _ "y" "t" "" None [] [] (Some 7%nat) 0] [] 0.
Definition exCapped : exRunner :=
  set_rn_inlineLimit 0 (set_rn_caps (SetTopicConcurrencyCap "t" 2 noCaps) exRunner0).
Lemma slot_leaked :
  match enterLoop background 0 100 exPair [x00] None exDagRun [] "" exCapped with
  | inl (cfg, st) =>
    st ← play cfg [EvGo 101; EvGo 101; EvGo 101; EvGo 101; got 0 x01] st;
    Some (st.1.1, inUse (rn_caps st.2) (capKey ThrottleScopeTopic "" "t"))
  | inr _ => None
  end = Some (Returned (Some ErrArtifactStoreUnset), 1).
Proof. vm_compute. reflexivity. Qed.

(** The identifier of a human task is drawn in a copy: the timer of the task carries none. *)
Definition exAsk : NodeDef nat :=
  mkNode _ "ask" "" "" (Some (mkHumanStep HumanStepModeApproval "ok?" 1000 HumanTimeoutReject)) [] [] None 0.
Lemma task_timer_anonymous :
  let r := (maybeHandleHumanNode background 100 "run-1" "wf" exAsk 1 [] 100 exRunner0).1 in
  t_Reason <$> ListTimers "run-1" (rn_store r) = ["human_timeout:"].
Proof. vm_compute. reflexivity. Qed.

(** A replay in an unknown mode is refused after the executions have been cancelled. *)
Lemma refused_replay_invalidates :
  let r0 := rememberGraph "wf" exDiamond exTwoDone in
  let res := replayRequest (fun _ => inr (ENew "no spec")) background 200 "run-1" "b" "bogus" r0 in
  (res.2 = inr (ENew ("unknown replay mode: " +:+ Quote "bogus"))) /\
  n_Status <$> GetNodeExecution "run-1" "b" 1 (rn_store res.1) = Some NodeStatusCanceled.
Proof. split; vm_compute; reflexivity. Qed.

(** The timer loop resumes a run with an empty object in place of its recorded input. *)
Definition exWaiting : exRunner :=
  let run := set_r_Status RunStatusWaiting (newRun "run-1" "wf" "" [] [x01; x02]) in
  rememberGraph "wf" exDiamond
    (set_rn_store (UpsertTimer (mkTimer "run-1" "wf" "a" 1 TimerScheduled 50 1 None "retry")
                     (CreateRun run NewMemoryStore).1).1 exRunner0).
Lemma timer_loop_input :
  rq_Input <$> (timerTick 60 exWaiting).2 = [emptyObject] /\
  r_InitialInput <$> GetRun "run-1" (rn_store exWaiting) = Some [x01; x02].
Proof. split; vm_compute; reflexivity. Qed.

(** The order of two edges changes the risk score of a graph. *)
Definition exMoves (es : list NodeEdge) : WorkflowGraph nat :=
  mkGraph _ "wf" [mkNode _ "s" "vault.read" "" None [] [] None 0; mkNode _ "q" "sql.read" "" None [] [] None 0;
                  mkNode _ "p" "http.send" "" None [] [] None 0] es 0.
Lemma risk_depends_on_edge_order :
  let score es := riskScore (allFindings (fun _ => None) (exMoves es) []) in
  score [mkEdge "s" "p"; mkEdge "q" "p"] = 75 /\ score [mkEdge "q" "p"; mkEdge "s" "p"] = 65.
Proof. split; vm_compute; reflexivity. Qed.
